(* ===== verification/_CoqProject ===== *)
-Q . S2P
Prelude.v
Range.v
Bitmap.v
Pmm.v
Paging.v
PagingSpec.v
PagingRanges.v
VmmSpaceSpec.v
Vec.v
Ring.v
UMap.v
LinkedList.v
CMem.v
LibcString.v
LibcStringSpec.v
LibcStdlib.v
LibcPrint.v
LibcPrintSpec.v
Bytes.v
Monads.v
Elf.v
Liballoc.v
LiballocSpec.v
IpcTypes.v
KObject.v
IpcRegistry.v
Space.v
Ipc.v
Signal.v
Scheduler.v
SyscallTypes.v
Syscalls.v
Sample.v
PagingMachine.v
KObjectSpec.v
SpaceSpec.v
SpaceCreateSpec.v
IpcInv.v
KernelSafety.v
IpcQueueSpec.v
KernelRuns.v
SchedulerSpec.v
SchedulerRound.v
SchedulerEvents.v
SchedulerSafety.v
SpaceMoves.v
MemoryObjects.v
SyscallsSpec.v
SyscallRuns.v
SyscallErrors.v
MachineSpec.v
Execute.v
Lock.v
Scanner.v
Json.v
JsonSpec.v
JsonText.v
Disk.v
Ext4Layout.v
Ext4.v
Ext4Files.v
Ext4Spec.v
Ext4FilesSpec.v
Ext4ReadSpec.v
Ext4DirSpec.v
Ext4WriteSpec.v
Ext4AllocSpec.v
Ext4Sample.v
Nvme.v
NvmeSpec.v
NvmeSample.v
Walloc.v
Text.v
Init.v
Ps2.v
Gpt.v
