(* ===== verification/Prelude.v ===== *)
(** * The WingOS kernel core and its libraries

    WingOS is an operating system for x86_64: a kernel that hands out objects
    (spaces, tasks, memory, mappings, IPC endpoints, signals) by handle, and
    services that talk to it and to each other by messages. This library models
    the logic of the kernel, of the libraries below it and of the services that
    start the system and serve its disks and input devices, from the source under
    src/, and proves what makes each part correct.

    ** How the code is translated

    A C++ function is a Rocq function of the same name on the state it reads and
    writes. Fields keep their names; a constructor is [<Class>_init]. Integers
    are [Z] with the wrap-around of their width written out ([u64], [s64], [s32],
    [wrapu], [wraps]). Three kinds of end are told apart ([ctl], below): a return,
    a trap ([unreachable$()], an access outside an object, an overflow that C
    leaves undefined, a use of a deleted object), and the end of the fuel of a loop.
    Nothing is said of what the machine does after a trap. [fc::Result] is
    [result], a value of the program: an error is returned, not a trap. Loops
    that are not structural take fuel; each file says which, and a theorem shows
    that it is enough on the inputs the function is used on, or on all of them:
    - a scan of memory ([CMem.mem_fuel]) turns once for each mapped address;
    - [Liballoc.malloc_fuel] is twice the number of major blocks and four: the
      search starts again once at most, then allocates;
    - [Bitmap.alloc] calls itself once, so twice is enough;
    - the exchanges of [Scheduler.fix_loop] stop at the limit of the code itself,
      and [round_keeps_every_task] shows that the limit is not reached;
    - [KObject.deref] descends one object at each turn, so the number of objects
      is enough; [Vec.quick_sort] takes the count of the vector;
    - the scanner and the JSON parser take a turn for each character left;
    - the search of a directory takes a turn for each byte of a block, the search
      of a group one for each group, the runs of a read one for each block;
    - [Text.format] takes a turn for each character of the format, and a cycle of
      [Init.cycle_loop] one for each module that has not started;
    - a loop that waits for a device (NVMe, PS/2) has a [patience], an argument: the
      theorems take one that lasts for what the device is to do.

    ** The parts, from the bottom up

    Libraries of data (src/libcore/ds, src/math):
    - Range.v: align.hpp and range.hpp; Bitmap.v: bitmap.hpp; Ring.v: ring.hpp
      and pcring.hpp; Vec.v: vec.hpp; UMap.v: umap.hpp.
      Each class refines its abstract value: a [Vec] a list, a [Ring] and a
      [PCRing] (under interleaving of its producers and consumers) a queue, a
      [UMap] a finite map, a bitmap the bit at each index. Growth of a wrapped
      [Ring] and insertion in a [Vec] assign to storage that holds no object: the
      type of the elements says whether that is harmless ([assign_over], below).
    - LinkedList.v: linked_list.hpp, nodes in a store with their links.
    - Lock.v: lock.hpp, rwlock.hpp, smart_lock.hpp. The threads
      that use one lock are a step relation on their program counters, a step
      for each atomic action; the lock excludes in every reachable state.

    The C library and the heap (src/libc, src/liballoc):
    - CMem.v is memory, a map from addresses to bytes, so that arguments may
      overlap. LibcString.v, LibcStringSpec.v, LibcStdlib.v, LibcPrint.v, LibcPrintSpec.v:
      string.c, strings.c, ctype.c, stdlib.c, math.c, locale.c, wchar.c,
      printer.c and the formatting half of stdio.c.
    - Liballoc.v, LiballocSpec.v: liballoc.c over the page allocator of
      iol/mem.h, which is the class [PageAllocator]. Walloc.v: walloc/liballoc.cpp,
      the heap of a run of pages for each block.

    Text (src/parser, src/json, src/libcore):
    - Scanner.v: scanner.hpp; Json.v, JsonSpec.v, JsonText.v: json.hpp and json.cpp.
    - Text.v: str.hpp, str_writer.hpp and fmt, views of text, text that grows and
      the formatting of values.

    Structures in bytes (Bytes.v) and fallible operations on a state (Monads.v), used
    by the parts below:
    - Elf.v: libelf/elf.hpp, the headers of a file and the checks of the loader.
    - Disk.v: protocols/disk/disk.hpp, the client of the disk protocol over the
      class [DiskServer], with what it relies on as [DiskContract].
      Ext4Layout.v, Ext4.v, Ext4Files.v: app/fs/ext4/ext4.hpp and ext4.cpp, the
      structures, the cache of blocks, files, directories, allocation and the
      mount. Ext4Spec.v (blocks, descriptors, inodes), Ext4FilesSpec.v (blocks of
      a file), Ext4ReadSpec.v, Ext4DirSpec.v, Ext4WriteSpec.v, Ext4AllocSpec.v
      hold the proofs, Ext4Sample.v a small image to run them on.
    - Gpt.v: fs/gpt, the partition table of a disk.
    - Nvme.v, NvmeSpec.v, NvmeSample.v: app/disk/nvme, the driver of NVMe disks and the
      disk server over it; the controller is the class [NvmeHardware], of which
      NvmeSample.v has an instance.

    Services (src/app):
    - Init.v: app/init and protocols/init, the register of services, the start of
      modules and the messages of both sides; starting one is the class [Launcher].
    - Ps2.v: app/udev/ps2 and protocols/hi, the keyboard and the mouse from the ports
      of their controller (the class [Ps2Ports]) to the rings of the clients.

    Memory (src/kernel/generic, src/kernel/x86_64, src/arch/x86_64):
    - Pmm.v: pmm.hpp and pmm.cpp, sections of pages with a bitmap
      each; abstractly a partial map from pages to free or used.
    - Paging.v, PagingSpec.v, PagingRanges.v, VmmSpaceSpec.v: the page tables of
      four levels and the operations of [VmmSpace]; abstractly one map from
      pages to frames and rights for each address space, the kernel half shared.

    Kernel objects:
    - KObject.v, KObjectSpec.v: assets, counted references and [kernel], the
      state all the parts below share, with the monad [K] they are written in.
      What the core needs of the machine (page tables, the messages in user
      memory, the contexts of tasks) is the class [Machine]; PagingMachine.v
      makes an instance of it from Paging.v and Pmm.v.
    - IpcTypes.v: the messages and handles of wingos-headers; IpcRegistry.v:
      ipc_registry.cpp; Space.v, SpaceSpec.v, SpaceCreateSpec.v: space.hpp,
      space.cpp, asset.cpp, vm.cpp; Ipc.v, IpcInv.v, IpcQueueSpec.v: ipc.cpp;
      Signal.v: signal.cpp. A function that waits is cut in two at
      [block_current_task()], and anything may run in between.
    - SyscallTypes.v, Syscalls.v: syscalls.h and syscalls.cpp, every handler and
      the dispatcher; a call that waits is a value ([wait]) to resume.
    - Execute.v: execute.cpp, the start of a module of the boot
      loader: its ELF file read, its memory made, filled and mapped, its task run.
    - Sample.v: a machine to evaluate the definitions on, for the witnesses.

    Tasks:
    - Scheduler.v, SchedulerSpec.v, SchedulerRound.v, SchedulerEvents.v:
      scheduler.hpp, scheduler.cpp, cpu_tree.hpp. The scheduler is a state of its
      own: whether a task waits is its [blocked] flag in the kernel core and the
      [mutex] of its control block here, the two sides of one BlockMutex.

    ** What the theorems show

    - Reference counting (KernelSafety.v, SyscallRuns.v): [kinv] says that the
      count of an object is at least the references there are to it. Every
      operation that returns keeps it on every branch, with any arguments; so in
      every run of kernel operations and system calls no counted reference is to a
      deleted object and nothing loops, up to a step that traps. The pointer of a task
      to its space is not counted, and user space can reach a step that uses the
      space after it is deleted ([deleted_space_is_used]). The bound [B] of [kinv] is the number of counted references
      that can still be made before a 64-bit counter wraps; each operation
      takes a constant of it.
    - What the operations do (SpaceMoves.v, MemoryObjects.v, IpcQueueSpec.v,
      SyscallErrors.v, MachineSpec.v): lookups, moves, the life of a memory
      object, an endpoint as one queue in the order of sending until a ring cannot
      grow, refused calls that change nothing, a mapping that reaches the
      translation.
    - The scheduler (SchedulerSafety.v): from the start of the machine no task is
      lost or in two places, rounds succeed, no core idles while a task waits,
      and a waiting task runs after a bounded number of rounds, as long as tasks are
      launched once and only running ones block, which it does not test.
    - Memory: allocation gives free pages that release returns; map, unmap and
      get_phys are update and lookup; malloc gives blocks apart from all others.
    - Modules: [start_module_execution] keeps the invariant of the references on every
      branch, and a segment is loaded with the bytes of the file and zeros after them;
      the bytes it copies live apart from the objects of the kernel.
    - Services: a module is started once and after the services it requires, a
      service that is registered is found, movements and keys reach the clients that
      listen, a request to the disk server moves the blocks it names, the table of
      partitions is read.
    - Files: over a disk of which the cache is a part ([mounted]), the search of
      many blocks agrees with the search of one, a read delivers the bytes of the
      file, a directory finds its entries, an inode written is read back, an
      allocation takes the first free bit; each for the ranges, and up to the first
      write, that the theorem names.
    - Locks, containers, strings, numbers and text: refinements, round trips
      and bounds as listed above; every JSON text is parsed to its value, and
      parsing ends on every text.

    Theorems that describe what the code does where it is not what it means to
    do (an overrun, a wrong sign, a trap a caller can cause) say so.

    ** Bounds

    Sizes are bounded where the code would wrap: a theorem then has the bound as
    hypothesis ([2^63] pages, [2^31] threads, [2^53] bytes of a mapping). The
    core enters the kernel one task at a time; the interleaving of cores is
    modelled for the locks, the rings and between the parts of calls that wait.

    ** Not modelled

    - Assembly and device registers: the entry of interrupts and system calls,
      context switches, the APIC, PIC, HPET and PCI drivers, the boot loader.
    - The switch of contexts between cores in scheduler.cpp (reschedule, the
      saving of registers): it is instructions on the contexts of the machine.
    - ACPI tables, the KASAN and UBSAN runtimes.
    - The server loops of ext4 and vfs, the loading of the ELF file of a module by
      init (module_execute.cpp), and the services and applications (src/app,
      src/protocols, src/iol) not named above: clients of the system calls.
    - The text of bitmaps and the writers of the log (libcore/fmt).
    - Graphics and user interface (src/gfx, src/ui), floating point ([strtod], src/libmath, which is musl's), and
      vendored code (src/external).
*)

From stdpp Require Export base tactics list list_numbers option numbers sets.
From stdpp Require Export strings.
From Stdlib Require Export ZArith Lia.

#[global] Open Scope Z_scope.

(** * Outcomes

    [ctl A] is what running a piece of code can do: return ([Ret]); execute
    [unreachable$()] (an [ud2]), or something that C++ leaves undefined, an access
    outside an object or to an object that has been destroyed ([Trap]); or
    exhaust the fuel a non-structural loop was given ([NoFuel], an artefact of
    the model: theorems show that it does not happen).

    A [Trap] of the second kind is where the model ends and the machine does not:
    the code goes on with whatever the memory holds, and nothing is said of it from
    there. So a theorem on the states that runs reach is about runs without such a
    step, and says so; a theorem that an operation returns [Ret] excludes it.

    [result A] is [fc::Result<A>] of libcore/result.hpp: a value or an error
    message, an ordinary value of the program. *)

Inductive ctl (A : Type) : Type :=
| Ret (a : A)
| Trap
| NoFuel.
Arguments Ret {A} a.
Arguments Trap {A}.
Arguments NoFuel {A}.

Inductive result (A : Type) : Type :=
| Value (a : A)
| Error (msg : string).
Arguments Value {A} a.
Arguments Error {A} msg.

#[global] Instance ctl_ret : MRet ctl := fun A a => Ret a.
#[global] Instance ctl_bind : MBind ctl := fun A B f m =>
  match m with Ret a => f a | Trap => Trap | NoFuel => NoFuel end.

#[global] Instance ctl_eq_dec {A} `{EqDecision A} : EqDecision (ctl A).
Proof. solve_decision. Defined.
#[global] Instance result_eq_dec {A} `{EqDecision A} : EqDecision (result A).
Proof. solve_decision. Defined.

Definition is_error {A} (r : result A) : bool :=
  match r with Value _ => false | Error _ => true end.

(** [unwrap()] / [take()] / [assert()]: the value, or [unreachable$()]. *)
Definition unwrap {A} (r : result A) : ctl A :=
  match r with Value a => Ret a | Error _ => Trap end.

(** The assignment of an element to a slot whose present object is [old]. On storage
    that holds no object it is harmless when the type is [plain], that is when its
    assignment does not look at what it replaces; any other type takes what the
    storage happens to hold for an object (an [AssetRef] lets go of it). *)
Definition assign_over {A} (plain : bool) (old : option A) : ctl unit :=
  match old with Some _ => Ret tt | None => if plain then Ret tt else Trap end.

(** [try$(e)] in a function that returns [fc::Result] and carries no state. *)
Definition try_ {A B} (r : result A) (k : A -> result B) : result B :=
  match r with Value a => k a | Error m => Error m end.

(** [try$(e)] in a stateful function: the state reached so far is kept when the
    error is returned. *)
Definition try_st {S A B} (r : result A * S) (k : A -> S -> ctl (result B * S)) :
    ctl (result B * S) :=
  match r with (Value a, s) => k a s | (Error m, s) => Ret (Error m, s) end.

Declare Scope wing_scope.
Delimit Scope wing_scope with wing.
#[global] Open Scope wing_scope.

Notation "'try!' x <- r ;; k" := (try_ r (fun x => k))
  (at level 100, x pattern, r at next level, right associativity) : wing_scope.

Lemma ctl_bind_Ret {A B} (m : ctl A) (f : A -> ctl B) (b : B) :
  m ≫= f = Ret b <-> exists a, m = Ret a /\ f a = Ret b.
Proof. destruct m; simpl; naive_solver. Qed.

Lemma try_Value {A B} (r : result A) (k : A -> result B) (b : B) :
  try_ r k = Value b <-> exists a, r = Value a /\ k a = Value b.
Proof. destruct r; simpl; naive_solver. Qed.

Lemma unwrap_Ret {A} (r : result A) (a : A) : unwrap r = Ret a <-> r = Value a.
Proof. destruct r; simpl; naive_solver. Qed.

(** [ends P c]: [c] does not run out of fuel, and what it returns, if it
    returns, satisfies [P]. *)
Definition ends {A} (P : A -> Prop) (c : ctl A) : Prop :=
  match c with Ret a => P a | Trap => True | NoFuel => False end.

Lemma ends_bind {A B} (P : A -> Prop) (Q : B -> Prop) (c : ctl A) (f : A -> ctl B) :
  ends P c -> (forall a, P a -> ends Q (f a)) -> ends Q (c ≫= f).
Proof. destruct c; simpl; auto. Qed.

Lemma ends_impl {A} (P Q : A -> Prop) (c : ctl A) :
  ends P c -> (forall a, P a -> Q a) -> ends Q c.
Proof. destruct c; simpl; auto. Qed.

Lemma ends_Ret {A} (P : A -> Prop) (c : ctl A) (a : A) : ends P c -> c = Ret a -> P a.
Proof. by intros H ->. Qed.

(** [returns P c]: [c] returns, and what it returns satisfies [P]. *)
Definition returns {A} (P : A -> Prop) (c : ctl A) : Prop :=
  match c with Ret a => P a | _ => False end.

Lemma returns_bind {A B} (P : A -> Prop) (Q : B -> Prop) (c : ctl A) (f : A -> ctl B) :
  returns P c -> (forall a, P a -> returns Q (f a)) -> returns Q (c ≫= f).
Proof. destruct c; simpl; naive_solver. Qed.

Lemma returns_impl {A} (P Q : A -> Prop) (c : ctl A) :
  returns P c -> (forall a, P a -> Q a) -> returns Q c.
Proof. destruct c; simpl; auto. Qed.

Lemma returns_iff {A} (P : A -> Prop) (c : ctl A) : returns P c <-> exists a, c = Ret a /\ P a.
Proof. destruct c; simpl; naive_solver. Qed.

(** * Machine integers *)

Definition wrapu (w x : Z) : Z := x mod 2 ^ w.
Definition wraps (w x : Z) : Z := (x + 2 ^ (w - 1)) mod 2 ^ w - 2 ^ (w - 1).

Abbreviation u8 := (wrapu 8).
Abbreviation u32 := (wrapu 32).
Abbreviation u64 := (wrapu 64).
Abbreviation s8 := (wraps 8).
Abbreviation s32 := (wraps 32).
Abbreviation s64 := (wraps 64).

Definition SIZE_MAX : Z := 2 ^ 64 - 1.
Definition LONG_MAX : Z := 2 ^ 63 - 1.

Lemma wrapu_small w x : 0 <= x < 2 ^ w -> wrapu w x = x.
Proof. apply Z.mod_small. Qed.

Lemma wrapu_range w x : 0 <= w -> 0 <= wrapu w x < 2 ^ w.
Proof. intros. apply Z.mod_pos_bound. lia. Qed.

Lemma wraps_small w x : 0 < w -> - 2 ^ (w - 1) <= x < 2 ^ (w - 1) -> wraps w x = x.
Proof.
  intros Hw Hx. unfold wraps.
  assert (2 ^ w = 2 * 2 ^ (w - 1)) as E
    by (rewrite <- Z.pow_succ_r by lia; f_equal; lia).
  rewrite Z.mod_small; lia.
Qed.

Lemma wraps_range w x : 0 < w -> - 2 ^ (w - 1) <= wraps w x < 2 ^ (w - 1).
Proof.
  intros Hw. unfold wraps.
  assert (2 ^ w = 2 * 2 ^ (w - 1)) as E
    by (rewrite <- Z.pow_succ_r by lia; f_equal; lia).
  pose proof (Z.mod_pos_bound (x + 2 ^ (w - 1)) (2 ^ w)). lia.
Qed.

(** Joining two bit fields. *)
Lemma lor_shiftl_add hi lo k :
  0 <= k -> 0 <= lo < 2 ^ k -> Z.lor (Z.shiftl hi k) lo = hi * 2 ^ k + lo.
Proof.
  intros Hk Hlo. rewrite <- Z.shiftl_mul_pow2 by lia.
  assert (Z.land (Z.shiftl hi k) lo = 0) as E.
  { apply Z.bits_inj'. intros n Hn. rewrite Z.land_spec, Z.bits_0, Z.shiftl_spec by lia.
    destruct (Z.ltb_spec n k) as [H|H].
    - by rewrite Z.testbit_neg_r by lia.
    - rewrite <- (Z.mod_small lo (2 ^ k)) by lia. rewrite Z.mod_pow2_bits_high by lia.
      by rewrite andb_false_r. }
  rewrite Z.add_nocarry_lxor by done. symmetry. by apply Z.lxor_lor.
Qed.

(** A fact about bytes, by evaluation on all of them. *)
Lemma byte_forall (P : Z -> bool) :
  forallb P (seqZ 0 256) = true -> forall b, 0 <= b < 256 -> P b = true.
Proof.
  intros H b Hb. rewrite forallb_forall in H. apply H.
  apply list_elem_of_In, elem_of_seqZ. lia.
Qed.

(** * Arrays

    A C array is a list; an access outside it is undefined behaviour and is
    reported as [None]. *)

Definition aget {A} (l : list A) (i : Z) : option A :=
  if i <? 0 then None else l !! Z.to_nat i.

Definition aset {A} (l : list A) (i : Z) (x : A) : option (list A) :=
  if (0 <=? i) && (i <? Z.of_nat (length l)) then Some (<[Z.to_nat i := x]> l) else None.

(** The characters of a string literal, as bytes. *)
Definition chars (s : string) : list Z :=
  map (fun c => Z.of_N (Ascii.N_of_ascii c)) (String.list_ascii_of_string s).

Abbreviation zlen l := (Z.of_nat (length l)).

(** A dereference: [None] is an access outside the object. *)
Definition deref {A} (o : option A) : ctl A :=
  match o with Some a => Ret a | None => Trap end.

Lemma aget_Some_range {A} (l : list A) i x : aget l i = Some x -> 0 <= i < zlen l.
Proof.
  unfold aget. destruct (Z.ltb_spec i 0); [done|].
  intros H1. apply lookup_lt_Some in H1. lia.
Qed.

Lemma aget_lookup {A} (l : list A) i : 0 <= i -> aget l i = l !! Z.to_nat i.
Proof. intros. unfold aget. destruct (Z.ltb_spec i 0); [lia|done]. Qed.

Lemma aget_nat {A} (l : list A) (n : nat) : aget l (Z.of_nat n) = l !! n.
Proof. rewrite aget_lookup by lia. by rewrite Nat2Z.id. Qed.

Lemma aget_in_range {A} (l : list A) i : 0 <= i < zlen l -> exists x, aget l i = Some x.
Proof.
  intros. rewrite aget_lookup by lia. apply lookup_lt_is_Some_2. lia.
Qed.

Lemma aget_out {A} (l : list A) i : zlen l <= i -> aget l i = None.
Proof. intros. rewrite aget_lookup by lia. apply lookup_ge_None_2. lia. Qed.

Lemma aget_neg {A} (l : list A) i : i < 0 -> aget l i = None.
Proof. intros. unfold aget. destruct (Z.ltb_spec i 0); [done|lia]. Qed.

Lemma aset_in_range {A} (l : list A) i x :
  0 <= i < zlen l -> aset l i x = Some (<[Z.to_nat i := x]> l).
Proof.
  intros. unfold aset.
  destruct (Z.leb_spec 0 i), (Z.ltb_spec i (zlen l)); simpl; (done || lia).
Qed.

Lemma aset_out {A} (l : list A) i x : ~ 0 <= i < zlen l -> aset l i x = None.
Proof.
  intros. unfold aset.
  destruct (Z.leb_spec 0 i), (Z.ltb_spec i (zlen l)); simpl; (done || lia).
Qed.

Lemma aset_Some {A} (l l' : list A) i x :
  aset l i x = Some l' -> 0 <= i < zlen l /\ l' = <[Z.to_nat i := x]> l.
Proof.
  unfold aset. destruct (Z.leb_spec 0 i), (Z.ltb_spec i (zlen l)); simpl; naive_solver.
Qed.

Lemma aset_length {A} (l l' : list A) i x : aset l i x = Some l' -> length l' = length l.
Proof. intros [_ ->]%aset_Some. apply length_insert. Qed.

Lemma aget_aset {A} (l l' : list A) i j x :
  aset l i x = Some l' -> aget l' j = if decide (j = i) then Some x else aget l j.
Proof.
  intros [Hi ->]%aset_Some. unfold aget. destruct (Z.ltb_spec j 0).
  { rewrite decide_False by lia. done. }
  rewrite list_lookup_insert. case_decide; case_decide; try done; lia.
Qed.

Lemma aget_app {A} (l1 l2 : list A) i :
  0 <= i -> aget (l1 ++ l2) i = if i <? zlen l1 then aget l1 i else aget l2 (i - zlen l1).
Proof.
  intros Hi. rewrite (aget_lookup _ i) by lia. destruct (Z.ltb_spec i (zlen l1)).
  - rewrite aget_lookup by lia. apply lookup_app_l. lia.
  - rewrite aget_lookup by lia. rewrite lookup_app_r by lia. f_equal. lia.
Qed.

(** * Automation *)

(** Splits an equation [m ≫= f = Ret b] (and the [try_], [unwrap] ones). *)
Ltac inv_ctl :=
  repeat match goal with
  | H : (_ ≫= _) = Ret _ |- _ => apply ctl_bind_Ret in H as (? & ? & ?)
  | H : try_ _ _ = Value _ |- _ => apply try_Value in H as (? & ? & ?)
  | H : unwrap _ = Ret _ |- _ => apply unwrap_Ret in H
  | H : Ret _ = Ret _ |- _ => inversion H; clear H; subst
  | H : Value _ = Value _ |- _ => inversion H; clear H; subst
  | H : Ret _ = Trap |- _ => discriminate H
  | H : Trap = Ret _ |- _ => discriminate H
  | H : NoFuel = Ret _ |- _ => discriminate H
  | H : Value _ = Error _ |- _ => discriminate H
  | H : Error _ = Value _ |- _ => discriminate H
  end; simplify_eq.

(** Lengths of appended, mapped, replicated or updated lists, then [lia]. *)
Ltac len_simpl :=
  repeat progress (simpl length;
    rewrite ?length_app, ?length_fmap, ?length_replicate, ?length_insert,
      ?length_reverse, ?length_take, ?length_drop).
Ltac len_lia := len_simpl; simpl; lia.

(** Case analysis on every Boolean comparison of integers in the goal. *)
Ltac case_Z :=
  repeat match goal with
  | |- context [?a <? ?b] => destruct (Z.ltb_spec a b)
  | |- context [?a <=? ?b] => destruct (Z.leb_spec a b)
  | |- context [?a =? ?b] => destruct (Z.eqb_spec a b)
  end.

Ltac case_Z_in H :=
  repeat match type of H with
  | context [?a <? ?b] => destruct (Z.ltb_spec a b)
  | context [?a <=? ?b] => destruct (Z.leb_spec a b)
  | context [?a =? ?b] => destruct (Z.eqb_spec a b)
  end.

(** Discharges the first premise of a hypothesis. *)
Tactic Notation "forward" hyp(H) "by" tactic(t) :=
  match type of H with
  | ?P -> _ => let F := fresh in assert P as F by t; specialize (H F); clear F
  end.

Create HintDb wing.
#[export] Hint Resolve aget_in_range aset_in_range aget_out aget_neg : wing.
