(* ===== verification/Range.v ===== *)
(** math/align.hpp and math/range.hpp: alignment to a power of two and the
    half-open ranges [start, end) the memory managers compute with.

    [T] is [uintptr_t] (and [uint64_t]) at every use in the kernel, so every
    operation is written on 64-bit unsigned integers with its wrap-around. *)

From S2P Require Import Prelude.

(** * math/align.hpp *)

Definition alignDown (addr align : Z) : Z :=
  Z.land addr (u64 (Z.lnot (u64 (align - 1)))).

Definition alignUp (addr align : Z) : Z :=
  Z.land (u64 (u64 (addr + align) - 1)) (u64 (Z.lnot (u64 (align - 1)))).

(** * math/range.hpp *)

Record Range := mk_Range { start : Z; end_ : Z }.

#[global] Instance Range_eq_dec : EqDecision Range.
Proof. solve_decision. Defined.

Definition len (r : Range) : Z := u64 (end_ r - start r).
Definition set_start (r : Range) (v : Z) : Range := mk_Range v (end_ r).
Definition set_end (r : Range) (v : Z) : Range := mk_Range (start r) v.
Definition set_len (r : Range) (v : Z) : Range := mk_Range (start r) (u64 (start r + v)).

Definition contains (r : Range) (v : Z) : bool := (start r <=? v) && (v <? end_ r).

Definition contains_range (r q : Range) : bool :=
  contains r (start q) && contains r (end_ q).

Definition overlaps (r q : Range) : bool :=
  contains r (start q) || contains r (end_ q).

Definition from_begin_len (b l : Z) : Range := mk_Range b (u64 (b + l)).

Definition shrinkAlign (r : Range) (alignment : Z) : Range :=
  let aligned_start := alignUp (start r) alignment in
  let aligned_len := alignDown (len r) alignment in
  from_begin_len aligned_start aligned_len.

Definition growAlign (r : Range) (alignment : Z) : Range :=
  let aligned_start := alignDown (start r) alignment in
  let aligned_end := alignUp (end_ r) alignment in
  mk_Range aligned_start aligned_end.

Definition offsetted (r : Range) (offset : Z) : Range :=
  mk_Range (u64 (start r + offset)) (u64 (end_ r + offset)).

Definition offsettedSub (r : Range) (offset : Z) : Range :=
  mk_Range (u64 (start r - offset)) (u64 (end_ r - offset)).

Definition div (r : Range) (d : Z) : Range := mk_Range (start r / d) (end_ r / d).

(** A range the kernel can have: both ends are addresses, in order. *)
Definition wf (r : Range) : Prop := 0 <= start r <= end_ r /\ end_ r < 2 ^ 64.

(** * Alignment lemmas *)

Lemma lnot_mask k : 0 <= k <= 64 -> u64 (Z.lnot (u64 (2 ^ k - 1))) = 2 ^ 64 - 2 ^ k.
Proof.
  intros Hk. pose proof (Z.pow_le_mono_r 2 k 64). pose proof (Z.pow_pos_nonneg 2 k).
  rewrite (wrapu_small 64 (2 ^ k - 1)) by lia.
  unfold Z.lnot, wrapu. replace (Z.pred (- (2 ^ k - 1))) with (2 ^ 64 - 2 ^ k + (-1) * 2 ^ 64) by lia.
  rewrite Z.mod_add by lia. apply Z.mod_small. lia.
Qed.

Lemma land_high_mask a k :
  0 <= k <= 64 -> 0 <= a < 2 ^ 64 -> Z.land a (2 ^ 64 - 2 ^ k) = a / 2 ^ k * 2 ^ k.
Proof.
  intros Hk Ha.
  replace (2 ^ 64 - 2 ^ k) with (Z.shiftl (Z.ones (64 - k)) k).
  2:{ rewrite Z.shiftl_mul_pow2, Z.ones_equiv by lia.
      rewrite <- (Z.sub_1_r (2 ^ (64 - k))), Z.mul_sub_distr_r, <- Z.pow_add_r by lia.
      f_equal; [f_equal; lia|lia]. }
  rewrite <- Z.shiftl_mul_pow2, <- Z.shiftr_div_pow2 by lia.
  apply Z.bits_inj'. intros n Hn. rewrite Z.land_spec, !Z.shiftl_spec by lia.
  destruct (Z.ltb_spec n k) as [Hlt|Hge].
  { rewrite (Z.testbit_neg_r _ (n - k)) by lia. rewrite (Z.testbit_neg_r _ (n - k)) by lia.
    apply andb_false_r. }
  rewrite Z.shiftr_spec by lia. replace (n - k + k) with n by lia.
  destruct (Z.ltb_spec n 64) as [H64|H64].
  - rewrite Z.ones_spec_low by lia. apply andb_true_r.
  - rewrite Z.ones_spec_high by lia. rewrite andb_false_r. symmetry.
    destruct (Z.eq_dec a 0) as [->|]; [apply Z.bits_0|].
    apply Z.bits_above_log2; [lia|].
    assert (Z.log2 a < 64) by (apply Z.log2_lt_pow2; lia). lia.
Qed.

Lemma alignDown_pow2 a k :
  0 <= k <= 64 -> 0 <= a < 2 ^ 64 -> alignDown a (2 ^ k) = a / 2 ^ k * 2 ^ k.
Proof. intros. unfold alignDown. rewrite lnot_mask by done. by apply land_high_mask. Qed.

Lemma alignUp_pow2 a k :
  0 <= k <= 64 -> 0 <= a -> a + 2 ^ k <= 2 ^ 64 ->
  alignUp a (2 ^ k) = (a + 2 ^ k - 1) / 2 ^ k * 2 ^ k.
Proof.
  intros Hk Ha Hb. pose proof (Z.pow_pos_nonneg 2 k). unfold alignUp.
  replace (u64 (u64 (a + 2 ^ k) - 1)) with (a + 2 ^ k - 1).
  - rewrite lnot_mask by done. apply land_high_mask; lia.
  - unfold wrapu. rewrite Zminus_mod_idemp_l. symmetry. apply Z.mod_small. lia.
Qed.

Lemma alignDown_bounds a k :
  0 <= k <= 64 -> 0 <= a < 2 ^ 64 ->
  (2 ^ k | alignDown a (2 ^ k)) /\ alignDown a (2 ^ k) <= a < alignDown a (2 ^ k) + 2 ^ k /\
  0 <= alignDown a (2 ^ k).
Proof.
  intros. rewrite alignDown_pow2 by done. pose proof (Z.pow_pos_nonneg 2 k).
  pose proof (Z.div_mod a (2 ^ k)). pose proof (Z.mod_pos_bound a (2 ^ k)).
  pose proof (Z.div_pos a (2 ^ k)).
  split; [apply Z.divide_factor_r|]. nia.
Qed.

Lemma alignUp_bounds a k :
  0 <= k <= 64 -> 0 <= a -> a + 2 ^ k <= 2 ^ 64 ->
  (2 ^ k | alignUp a (2 ^ k)) /\ a <= alignUp a (2 ^ k) < a + 2 ^ k.
Proof.
  intros. rewrite alignUp_pow2 by done. pose proof (Z.pow_pos_nonneg 2 k).
  pose proof (Z.div_mod (a + 2 ^ k - 1) (2 ^ k)).
  pose proof (Z.mod_pos_bound (a + 2 ^ k - 1) (2 ^ k)).
  split; [apply Z.divide_factor_r|]. nia.
Qed.

Lemma len_wf r : wf r -> len r = end_ r - start r.
Proof. intros [? ?]. unfold len. apply wrapu_small. lia. Qed.

(** What [shrinkAlign] computes when nothing overflows: both ends are aligned,
    the length is at most the original one. *)
Lemma shrinkAlign_shape r k :
  0 <= k <= 64 -> wf r -> end_ r + 2 ^ k <= 2 ^ 64 ->
  shrinkAlign r (2 ^ k) =
    mk_Range (alignUp (start r) (2 ^ k))
             (alignUp (start r) (2 ^ k) + alignDown (end_ r - start r) (2 ^ k)).
Proof.
  intros Hk Hr He. pose proof Hr as [? ?]. unfold shrinkAlign, from_begin_len.
  rewrite len_wf by done. f_equal. apply wrapu_small.
  destruct (alignUp_bounds (start r) k) as [_ ?]; [lia..|].
  destruct (alignDown_bounds (end_ r - start r) k) as [_ ?]; [lia..|]. lia.
Qed.

(** The aligned range stays inside the original one exactly when the start is
    aligned already or the length has enough slack past its last aligned
    block to absorb the shift of the start. *)
Lemma shrinkAlign_inside_iff r k :
  0 <= k <= 64 -> wf r -> end_ r + 2 ^ k <= 2 ^ 64 ->
  end_ (shrinkAlign r (2 ^ k)) <= end_ r <->
  alignUp (start r) (2 ^ k) - start r <= (end_ r - start r) mod 2 ^ k.
Proof.
  intros Hk Hr He. pose proof Hr as [? ?]. pose proof (Z.pow_pos_nonneg 2 k).
  rewrite shrinkAlign_shape by done. simpl.
  rewrite alignDown_pow2 by lia. pose proof (Z.div_mod (end_ r - start r) (2 ^ k)). lia.
Qed.

Lemma growAlign_covers r k :
  0 <= k <= 64 -> wf r -> end_ r + 2 ^ k <= 2 ^ 64 ->
  start (growAlign r (2 ^ k)) <= start r /\ end_ r <= end_ (growAlign r (2 ^ k)).
Proof.
  intros Hk [? ?] He. simpl.
  destruct (alignDown_bounds (start r) k); [lia..|].
  destruct (alignUp_bounds (end_ r) k); [lia..|]. lia.
Qed.
