(* ===== verification/Bitmap.v ===== *)
(** libcore/ds/bitmap.hpp: the free/used bitmap of the physical memory manager.

    [_data] is the list of its bytes (0..255). An access past the bytes is
    undefined behaviour in the code ([MemAccess::operator[]] is unchecked) and
    is [Trap] here. The abstract view of a bitmap is [bm_get], the bit at every
    index; [alloc] is a first-fit search with a restart hint. *)

From S2P Require Import Prelude Range.

Record Bitmap := mk_Bitmap { _cache_latest_free : Z; _data : list Z }.

Definition Bitmap_of (data : list Z) : Bitmap := mk_Bitmap 0 data.

Definition set_cache (b : Bitmap) (c : Z) : Bitmap := mk_Bitmap c (_data b).

(** * Operations *)

Definition byte (b : Bitmap) (index : Z) : ctl Z := deref (aget (_data b) (index / 8)).

Definition bit (b : Bitmap) (index : Z) : ctl bool :=
  y ← byte b index;
  Ret (negb (Z.land y (Z.shiftl 1 (index mod 8)) =? 0)).

Definition set_bit (b : Bitmap) (index : Z) (value : bool) : ctl Bitmap :=
  prev ← deref (aget (_data b) (index / 8));
  let mask := Z.shiftl (u8 1) (index mod 8) in
  d ← deref (aset (_data b) (index / 8)
               (if value then u8 (Z.lor prev mask) else u8 (Z.land prev (Z.lnot mask))));
  Ret (mk_Bitmap (_cache_latest_free b) d).

Definition len (b : Bitmap) : Z := zlen (_data b) * 8.

(** [for (i = ..; n more; i++) bit(i, value)] *)
Fixpoint fill_loop (b : Bitmap) (value : bool) (i : Z) (n : nat) : ctl Bitmap :=
  match n with
  | O => Ret b
  | S n => b' ← set_bit b i value; fill_loop b' value (i + 1) n
  end.

Definition fill_all (b : Bitmap) (value : bool) : ctl Bitmap :=
  fill_loop b value 0 (Z.to_nat (len b)).

Definition fill (b : Bitmap) (value : bool) (r : Range.Range) : ctl Bitmap :=
  let b := if value then b else set_cache b (start r) in
  fill_loop b value (start r) (Z.to_nat (end_ r - start r)).

Fixpoint fill_inverse_loop (b : Bitmap) (value : bool) (i : Z) (n : nat) :
    ctl (result unit * Bitmap) :=
  match n with
  | O => Ret (Value tt, b)
  | S n =>
      v ← bit b i;
      if Bool.eqb v value
      then Ret (Error "Bitmap: fill_expected_inverse: expected inverse", b)
      else b' ← set_bit b i value; fill_inverse_loop b' value (i + 1) n
  end.

Definition fill_expected_inverse (b : Bitmap) (value : bool) (r : Range.Range) :
    ctl (result unit * Bitmap) :=
  fill_inverse_loop b value (start r) (Z.to_nat (end_ r - start r)).

Fixpoint eq_loop (a b : Bitmap) (i : Z) (n : nat) : ctl bool :=
  match n with
  | O => Ret true
  | S n =>
      x ← bit a i;
      y ← bit b i;
      if Bool.eqb x y then eq_loop a b (i + 1) n else Ret false
  end.

Definition eq (a b : Bitmap) : ctl bool :=
  if len a =? len b then eq_loop a b 0 (Z.to_nat (len a)) else Ret false.

Definition neq (a b : Bitmap) : ctl bool := r ← eq a b; Ret (negb r).

(** The search loop of [alloc]: [n] positions are left from [i]. Returns the
    start of the run and the index of its last bit. *)
Fixpoint alloc_loop (b : Bitmap) (continuous_len found start i : Z) (n : nat) :
    ctl (option (Z * Z)) :=
  match n with
  | O => Ret None
  | S n =>
      v ← bit b i;
      if (v : bool) then alloc_loop b continuous_len 0 (i + 1) (i + 1) n
      else
        let found := found + 1 in
        if found =? continuous_len then Ret (Some (start, i))
        else alloc_loop b continuous_len found start (i + 1) n
  end.

(** [alloc] calls itself at most once, with the hint reset: [alloc_fuel] is
    entered with fuel 2 ([alloc_no_fuel] below shows it is enough). *)
Fixpoint alloc_fuel (fuel : nat) (b : Bitmap) (continuous_len : Z) : ctl (result Z * Bitmap) :=
  match fuel with
  | O => NoFuel
  | S fuel =>
      let c := _cache_latest_free b in
      r ← alloc_loop b continuous_len 0 c c (Z.to_nat (len b - c));
      match r with
      | Some (start, i) => Ret (Value start, set_cache b i)
      | None =>
          if c =? 0 then Ret (Error "Bitmap: Not found", b)
          else alloc_fuel fuel (set_cache b 0) continuous_len
      end
  end.

Definition alloc (b : Bitmap) (continuous_len : Z) : ctl (result Z * Bitmap) :=
  alloc_fuel 2 b continuous_len.

(** * Abstract view *)

Definition bm_get (b : Bitmap) (i : Z) : bool :=
  match aget (_data b) (i / 8) with
  | Some y => Z.testbit y (i mod 8)
  | None => false
  end.

Definition wf (b : Bitmap) : Prop :=
  Forall (fun y => 0 <= y < 256) (_data b) /\ 0 <= _cache_latest_free b.

(** [free_run b s n]: the [n] bits from [s] exist and are clear. *)
Definition free_run (b : Bitmap) (s n : Z) : Prop :=
  0 <= s /\ s + n <= len b /\ forall j, s <= j < s + n -> bm_get b j = false.

(** * Reading and writing one bit *)

Lemma byte_index b i : 0 <= i < len b -> 0 <= i / 8 < zlen (_data b).
Proof. unfold len. intros. split; [apply Z.div_pos; lia|apply Z.div_lt_upper_bound; lia]. Qed.

Lemma land_bit_eqb y k :
  0 <= k -> negb (Z.land y (Z.shiftl 1 k) =? 0) = Z.testbit y k.
Proof.
  intros Hk. rewrite Z.shiftl_1_l.
  destruct (Z.testbit y k) eqn:E.
  - apply negb_true_iff, Z.eqb_neq. intros H0.
    assert (Z.testbit (Z.land y (2 ^ k)) k = false) as H1 by (rewrite H0; apply Z.bits_0).
    rewrite Z.land_spec, E, Z.pow2_bits_true in H1 by lia. done.
  - apply negb_false_iff, Z.eqb_eq, Z.bits_inj'. intros n Hn.
    rewrite Z.land_spec, Z.bits_0. destruct (Z.eq_dec n k) as [->|].
    + by rewrite E.
    + rewrite Z.pow2_bits_false by lia. apply andb_false_r.
Qed.

Lemma bit_spec b i : 0 <= i < len b -> bit b i = Ret (bm_get b i).
Proof.
  intros Hi. unfold bit, byte, bm_get.
  destruct (aget_in_range (_data b) (i / 8)) as [y ->]; [by apply byte_index|].
  simpl. rewrite land_bit_eqb; [done|]. apply Z.mod_pos_bound. lia.
Qed.

Lemma u8_testbit x n : 0 <= n < 8 -> Z.testbit (u8 x) n = Z.testbit x n.
Proof. intros. unfold wrapu. rewrite Z.mod_pow2_bits_low; [done|lia]. Qed.

Lemma written_testbit prev v k n :
  0 <= k < 8 -> 0 <= n < 8 ->
  Z.testbit (if v : bool then u8 (Z.lor prev (Z.shiftl (u8 1) k))
             else u8 (Z.land prev (Z.lnot (Z.shiftl (u8 1) k)))) n
  = if decide (n = k) then v else Z.testbit prev n.
Proof.
  intros Hk Hn. change (u8 1) with 1. rewrite Z.shiftl_1_l.
  destruct v; rewrite u8_testbit by done.
  - rewrite Z.lor_spec, Z.pow2_bits_eqb by lia.
    case_decide; destruct (Z.eqb_spec k n); subst; try lia;
      rewrite ?orb_true_r, ?orb_false_r; done.
  - rewrite Z.land_spec, Z.lnot_spec, Z.pow2_bits_eqb by lia.
    case_decide; destruct (Z.eqb_spec k n); subst; try lia;
      rewrite ?andb_true_r, ?andb_false_r; done.
Qed.

Lemma set_bit_spec b i v :
  wf b -> 0 <= i < len b ->
  exists b', set_bit b i v = Ret b' /\ wf b' /\ len b' = len b /\
    _cache_latest_free b' = _cache_latest_free b /\
    forall j, 0 <= j -> bm_get b' j = if decide (j = i) then v else bm_get b j.
Proof.
  intros [Hb Hc] Hi. pose proof (byte_index _ _ Hi) as Hr. unfold set_bit.
  destruct (aget_in_range _ _ Hr) as [y Hy]. rewrite Hy. simpl.
  pose proof (Z.mod_pos_bound i 8).
  pose proof (fun n => written_testbit y v (i mod 8) n) as Hw.
  set (nv := if v then _ else _) in *.
  assert (0 <= nv < 256) as Hnv by (unfold nv; destruct v; apply wrapu_range; lia).
  rewrite (aset_in_range _ _ nv Hr). simpl.
  eexists. split; [done|]. split_and!; simpl.
  - split; [|done]. simpl. by apply Forall_insert.
  - unfold len. simpl. by rewrite length_insert.
  - done.
  - intros j Hj. unfold bm_get. simpl. pose proof (Z.mod_pos_bound j 8).
    erewrite aget_aset by by apply aset_in_range.
    case_decide as E1.
    + rewrite Hw by lia. rewrite E1, Hy.
      pose proof (Z.div_mod i 8). pose proof (Z.div_mod j 8).
      case_decide; case_decide; try done; subst; lia.
    + rewrite decide_False; [done|]. by intros ->.
Qed.

Lemma set_bit_out b i v : len b <= i -> set_bit b i v = Trap.
Proof.
  unfold len, set_bit. intros. rewrite aget_out; [done|].
  apply Z.div_le_lower_bound; lia.
Qed.

(** * Filling *)

Lemma fill_loop_spec v n : forall b i,
  wf b -> 0 <= i -> i + Z.of_nat n <= len b ->
  exists b', fill_loop b v i n = Ret b' /\ wf b' /\ len b' = len b /\
    _cache_latest_free b' = _cache_latest_free b /\
    forall j, 0 <= j -> bm_get b' j = if decide (i <= j < i + Z.of_nat n) then v else bm_get b j.
Proof.
  induction n as [|n IH]; intros b i Hwf Hi Hn; simpl.
  - exists b. split_and!; try done. intros. by rewrite decide_False by lia.
  - destruct (set_bit_spec b i v) as (b1 & -> & Hwf1 & Hl1 & Hc1 & Hg1); [done|lia|].
    simpl. destruct (IH b1 (i + 1)) as (b2 & -> & Hwf2 & Hl2 & Hc2 & Hg2);
      [done|lia|lia|].
    exists b2. split_and!; try done; [congruence|congruence|].
    intros j Hj. rewrite Hg2, Hg1 by done. repeat case_decide; (done || lia).
Qed.

Lemma fill_spec b v r :
  wf b -> 0 <= start r -> start r <= end_ r -> end_ r <= len b ->
  exists b', fill b v r = Ret b' /\ wf b' /\ len b' = len b /\
    _cache_latest_free b' = (if v then _cache_latest_free b else start r) /\
    forall j, 0 <= j -> bm_get b' j = if contains r j then v else bm_get b j.
Proof.
  intros [Hb Hc] Hs He Hl. unfold fill.
  destruct (fill_loop_spec v (Z.to_nat (end_ r - start r))
              (if v then b else set_cache b (start r)) (start r))
    as (b' & -> & Hwf & Hlen & Hca & Hg).
  - destruct v; split; done.
  - done.
  - destruct v; unfold len in *; simpl; lia.
  - exists b'. split_and!; try done.
    + destruct v; done.
    + destruct v; done.
    + intros j Hj. rewrite Hg by done. unfold contains.
      case_decide; case_Z; simpl; try lia; destruct v; done.
Qed.

Lemma fill_all_spec b v :
  wf b -> exists b', fill_all b v = Ret b' /\ wf b' /\ len b' = len b /\
    _cache_latest_free b' = _cache_latest_free b /\
    forall j, 0 <= j < len b -> bm_get b' j = v.
Proof.
  intros Hwf. unfold fill_all.
  assert (0 <= len b) by (unfold len; lia).
  destruct (fill_loop_spec v (Z.to_nat (len b)) b 0) as (b' & -> & H1 & H2 & H3 & H4);
    [done|lia|lia|].
  exists b'. split_and!; try done. intros. rewrite H4 by lia. by rewrite decide_True by lia.
Qed.

(** Releasing: every bit of the range must hold the inverse of the new value;
    at the first one that does not, the error is returned and the bits before
    it keep the new value. *)
Lemma fill_inverse_loop_spec v n : forall b i,
  wf b -> 0 <= i -> i + Z.of_nat n <= len b ->
  (forall j, i <= j < i + Z.of_nat n -> bm_get b j = negb v) ->
  exists b', fill_inverse_loop b v i n = Ret (Value tt, b') /\ wf b' /\ len b' = len b /\
    _cache_latest_free b' = _cache_latest_free b /\
    forall j, 0 <= j -> bm_get b' j = if decide (i <= j < i + Z.of_nat n) then v else bm_get b j.
Proof.
  induction n as [|n IH]; intros b i Hwf Hi Hn Hinv; simpl.
  - exists b. split_and!; try done. intros. by rewrite decide_False by lia.
  - rewrite bit_spec by lia. simpl. rewrite (Hinv i) by lia.
    replace (Bool.eqb (negb v) v) with false by by destruct v.
    destruct (set_bit_spec b i v) as (b1 & -> & Hwf1 & Hl1 & Hc1 & Hg1); [done|lia|].
    simpl. destruct (IH b1 (i + 1)) as (b2 & -> & Hwf2 & Hl2 & Hc2 & Hg2);
      [done|lia|lia| |].
    { intros j Hj. rewrite Hg1 by lia. rewrite decide_False by lia. apply Hinv. lia. }
    exists b2. split_and!; try done; [congruence|congruence|].
    intros j Hj. rewrite Hg2, Hg1 by done. repeat case_decide; (done || lia).
Qed.

Lemma fill_inverse_loop_error v n : forall b i k,
  wf b -> 0 <= i -> i + Z.of_nat n <= len b ->
  i <= k < i + Z.of_nat n -> bm_get b k = v ->
  exists m b', fill_inverse_loop b v i n = Ret (Error m, b').
Proof.
  induction n as [|n IH]; intros b i k Hwf Hi Hn Hk Hg; simpl; [lia|].
  rewrite bit_spec by lia. simpl. destruct (Bool.eqb (bm_get b i) v) eqn:E; [by eauto|].
  destruct (set_bit_spec b i v) as (b1 & -> & Hwf1 & Hl1 & Hc1 & Hg1); [done|lia|]. simpl.
  assert (k <> i) by (intros ->; rewrite Hg, Bool.eqb_reflx in E; done).
  apply (IH b1 (i + 1) k); [done|lia..|]. rewrite Hg1 by lia. by rewrite decide_False.
Qed.

Lemma fill_expected_inverse_spec b v r :
  wf b -> 0 <= start r <= end_ r -> end_ r <= len b ->
  (forall j, contains r j = true -> bm_get b j = negb v) ->
  exists b', fill_expected_inverse b v r = Ret (Value tt, b') /\ wf b' /\ len b' = len b /\
    _cache_latest_free b' = _cache_latest_free b /\
    forall j, 0 <= j -> bm_get b' j = if contains r j then v else bm_get b j.
Proof.
  intros Hwf Hr Hl Hinv. unfold fill_expected_inverse.
  destruct (fill_inverse_loop_spec v (Z.to_nat (end_ r - start r)) b (start r))
    as (b' & E & H1 & H2 & H3 & H4); [done|lia|lia| |].
  { intros j Hj. apply Hinv. unfold contains. case_Z; simpl; (done || lia). }
  exists b'. split_and!; try done. intros j Hj. rewrite H4 by done. unfold contains.
  case_decide; case_Z; simpl; (done || lia).
Qed.

Lemma fill_expected_inverse_error b v r k :
  wf b -> 0 <= start r <= end_ r -> end_ r <= len b ->
  contains r k = true -> bm_get b k = v ->
  exists m b', fill_expected_inverse b v r = Ret (Error m, b').
Proof.
  intros Hwf Hr Hl Hk Hg. unfold contains in Hk. apply andb_true_iff in Hk as [H1%Z.leb_le H2%Z.ltb_lt].
  unfold fill_expected_inverse. eapply fill_inverse_loop_error; try done; lia.
Qed.

(** * The search *)

(** The loop entered at [i] with [found] clear bits behind it from [s0]. *)
Lemma alloc_loop_spec b m n : forall found s0 i,
  0 < m -> 0 <= s0 -> 0 <= found < m -> i = s0 + found ->
  i + Z.of_nat n = len b ->
  (forall j, s0 <= j < i -> bm_get b j = false) ->
  match alloc_loop b m found s0 i n with
  | Ret (Some (s, e)) => s0 <= s /\ e = s + m - 1 /\ free_run b s m
  | Ret None => forall s, s0 <= s -> ~ free_run b s m
  | _ => False
  end.
Proof.
  induction n as [|n IH]; intros found s0 i Hm Hs Hf -> Hn Hrun; simpl.
  - intros s Hs' (_ & Hle & _). lia.
  - rewrite bit_spec by lia. simpl. destruct (bm_get b (s0 + found)) eqn:Hbit.
    + specialize (IH 0 (s0 + found + 1) (s0 + found + 1)).
      forward IH by lia. forward IH by lia. forward IH by lia. forward IH by lia.
      forward IH by lia. forward IH by (intros; lia).
      destruct (alloc_loop _ _ _ _ _ _) as [[[s e]|]| |]; try done.
      * split; [lia|apply IH].
      * intros s Hs' Hfree. destruct (Z.le_gt_cases s (s0 + found)) as [Hle|Hgt].
        -- destruct Hfree as (_ & _ & Hall). rewrite (Hall (s0 + found)) in Hbit by lia. done.
        -- apply (IH s); [lia|done].
    + assert (forall j, s0 <= j < s0 + found + 1 -> bm_get b j = false) as Hrun'.
      { intros j Hj. destruct (decide (j = s0 + found)) as [->|]; [done|apply Hrun; lia]. }
      destruct (Z.eqb_spec (found + 1) m) as [<-|Hne].
      * split; [lia|]. split; [lia|]. split; [lia|]. split; [lia|]. intros; apply Hrun'; lia.
      * apply IH; (done || lia).
Qed.

Lemma alloc_scan b m c :
  0 < m -> 0 <= c <= len b ->
  match alloc_loop b m 0 c c (Z.to_nat (len b - c)) with
  | Ret (Some (s, e)) => c <= s /\ e = s + m - 1 /\ free_run b s m
  | Ret None => forall s, c <= s -> ~ free_run b s m
  | _ => False
  end.
Proof. intros. apply alloc_loop_spec; try lia. Qed.

Lemma free_run_set_cache b c s n : free_run (set_cache b c) s n <-> free_run b s n.
Proof. done. Qed.

(** [alloc] finds a run whenever there is one, whatever the hint, and only
    changes the hint. *)
Lemma alloc_spec b m :
  wf b -> 0 < m ->
  exists r c, alloc b m = Ret (r, set_cache b c) /\ 0 <= c /\
    match r with
    | Value s => free_run b s m
    | Error _ => forall s, ~ free_run b s m
    end.
Proof.
  intros [Hb Hc] Hm. unfold alloc. simpl.
  set (c := _cache_latest_free b) in *.
  assert (0 <= len b) as Hlen by (unfold len; lia).
  assert (match alloc_loop b m 0 c c (Z.to_nat (len b - c)) with
  | Ret (Some (s, e)) => c <= s /\ e = s + m - 1 /\ free_run b s m
  | Ret None => forall s, c <= s -> ~ free_run b s m
  | _ => False
  end) as Hscan.
  { destruct (Z.le_gt_cases c (len b)); [by apply alloc_scan|].
    replace (Z.to_nat (len b - c)) with O by lia. simpl. intros s Hs (_ & ? & _). lia. }
  destruct (alloc_loop b m 0 c c _) as [[[s e]|]| |]; try done; simpl.
  { destruct Hscan as (? & -> & Hfree). pose proof Hfree as (? & ? & _).
    exists (Value s), (s + m - 1). split_and!; (done || lia). }
  destruct (Z.eqb_spec c 0) as [Hc0|Hc0].
  { exists (Error "Bitmap: Not found"), c. split; [by destruct b|]. split; [done|].
    intros s Hfree. pose proof Hfree as (? & _). apply (Hscan s); (done || lia). }
  pose proof (alloc_scan (set_cache b 0) m 0) as Hscan0.
  forward Hscan0 by done. forward Hscan0 by (unfold len in *; simpl; lia).
  change (len (set_cache b 0)) with (len b) in *.
  destruct (alloc_loop (set_cache b 0) m 0 0 0 _) as [[[s e]|]| |]; try done; simpl.
  - destruct Hscan0 as (? & -> & Hfree). pose proof Hfree as (? & ? & _).
    exists (Value s), (s + m - 1). split_and!; (done || lia).
  - exists (Error "Bitmap: Not found"), 0. split_and!; try done.
    intros s Hfree. pose proof Hfree as (? & _). by apply (Hscan0 s).
Qed.

(** Fuel 2 is enough for the self call, at any length asked for. *)
Lemma alloc_no_fuel b m : alloc b m <> NoFuel.
Proof.
  assert (forall n b f s i, alloc_loop b m f s i n <> NoFuel) as Hl.
  { induction n as [|n IH]; intros b' f s i; simpl; [done|].
    unfold bit, byte. destruct (aget _ _); simpl; [|done].
    destruct (negb _); [apply IH|]. case_Z; [done|apply IH]. }
  unfold alloc. simpl. destruct (alloc_loop b m 0 _ _ _) as [[[]|]| |] eqn:E; simpl;
    try done; [|by apply Hl in E].
  case_Z; [done|]. destruct (alloc_loop (set_cache b 0) m 0 0 0 _) as [[[]|]| |] eqn:E';
    simpl; try done. by apply Hl in E'.
Qed.

(** * Whatever the arguments, an operation that returns leaves a bitmap of the
    same length, and none runs out of fuel. *)

Definition keeps (b b' : Bitmap) : Prop := wf b' /\ len b' = len b.

Lemma set_bit_keeps b i v : wf b -> ends (keeps b) (set_bit b i v).
Proof.
  intros Hb. destruct (decide (0 <= i < len b)) as [Hi|Hi].
  - destruct (set_bit_spec b i v Hb Hi) as (b' & -> & ? & ? & _). done.
  - destruct (decide (i < 0)).
    + unfold set_bit. rewrite aget_neg; [done|]. apply Z.div_lt_upper_bound; lia.
    + rewrite set_bit_out by lia. done.
Qed.

Lemma keeps_trans b b' b'' : keeps b b' -> keeps b' b'' -> keeps b b''.
Proof. intros [? E] [? E']. split; [done|]. by rewrite E'. Qed.

Lemma fill_loop_keeps v n : forall b i, wf b -> ends (keeps b) (fill_loop b v i n).
Proof.
  induction n as [|n IH]; intros b i Hb; simpl; [done|].
  eapply ends_bind; [by apply set_bit_keeps|]. intros b' Hb'.
  eapply ends_impl; [apply IH, Hb'|]. intros b'' ?. by apply (keeps_trans b b').
Qed.

Lemma fill_keeps b v r : wf b -> 0 <= start r -> ends (keeps b) (fill b v r).
Proof.
  intros Hb Hr. unfold fill. destruct v; [by apply fill_loop_keeps|].
  eapply ends_impl; [apply fill_loop_keeps; split; [apply Hb|done]|]. done.
Qed.

Lemma bit_ends b i : ends (fun _ => True) (bit b i).
Proof. unfold bit, byte. by destruct (aget _ _). Qed.

Lemma fill_inverse_loop_keeps v n : forall b i,
  wf b -> ends (fun '(_, b') => keeps b b') (fill_inverse_loop b v i n).
Proof.
  induction n as [|n IH]; intros b i Hb; simpl; [done|].
  eapply ends_bind; [apply bit_ends|]. intros x _. destruct (Bool.eqb x v); [done|].
  eapply ends_bind; [by apply set_bit_keeps|]. intros b' Hb'.
  eapply ends_impl; [apply IH, Hb'|]. intros [r b''] ?. by apply (keeps_trans b b').
Qed.

Lemma alloc_loop_index b m n : forall f s i,
  0 <= i -> ends (fun r => forall s e, r = Some (s, e) -> i <= e) (alloc_loop b m f s i n).
Proof.
  induction n as [|n IH]; intros f s i Hi; simpl; [done|].
  eapply ends_bind; [apply bit_ends|]. intros x _. destruct x.
  - eapply ends_impl; [apply IH; lia|]. intros r Hr s' e E. specialize (Hr s' e E). lia.
  - case_Z; [simpl; naive_solver lia|]. eapply ends_impl; [apply IH; lia|].
    intros r Hr s' e E. specialize (Hr s' e E). lia.
Qed.

Lemma alloc_start b m n : forall f s i,
  0 <= s <= i -> ends (fun r => forall s' e, r = Some (s', e) -> 0 <= s') (alloc_loop b m f s i n).
Proof.
  induction n as [|n IH]; intros f s i Hi; simpl; [done|].
  eapply ends_bind; [apply bit_ends|]. intros x _. destruct x; [apply IH; lia|].
  case_Z; [simpl; naive_solver lia|]. apply IH. lia.
Qed.

Lemma alloc_keeps b m :
  wf b -> ends (fun '(r, b') => keeps b b' /\ forall s, r = Value s -> 0 <= s) (alloc b m).
Proof.
  intros [Hb Hc].
  assert (forall c fuel, 0 <= c -> (c = 0 \/ fuel <> O) ->
    ends (fun '(r, b') => keeps b b' /\ forall s, r = Value s -> 0 <= s)
      (alloc_fuel (S fuel) (set_cache b c) m)) as Hgen.
  { intros c fuel. revert c. induction fuel as [|fuel IH]; intros c Hc0 Hfuel.
    all: cbn [alloc_fuel].
    all: pose proof (alloc_loop_index (set_cache b c) m (Z.to_nat (len b - c)) 0 c c Hc0) as Hi.
    all: pose proof (alloc_start (set_cache b c) m (Z.to_nat (len b - c)) 0 c c
                       (conj Hc0 (Z.le_refl c))) as Hs.
    all: change (_cache_latest_free (set_cache b c)) with c.
    all: change (len (set_cache b c)) with (len b).
    all: destruct (alloc_loop _ _ _ _ _ _) as [[[s e]|]| |]; simpl in *; try done.
    all: try (specialize (Hi s e eq_refl); specialize (Hs s e eq_refl);
              split; [split; [split; [done|simpl; lia]|done]|]; intros s' [= <-]; lia).
    - destruct Hfuel as [->|]; [|done]. simpl. done.
    - destruct (Z.eqb_spec c 0); [done|]. apply (IH 0); [lia|by left]. }
  specialize (Hgen (_cache_latest_free b) 1%nat Hc ltac:(by right)).
  by destruct b.
Qed.
