(* ===== verification/Pmm.v ===== *)
(** kernel/generic/pmm.hpp and pmm.cpp: the physical memory manager.

    Free memory is a list of sections, each a physical range with one bit per
    4096-byte page. [pmm_lock] is held for the whole body of every operation,
    so each one is a single step on the state. The memory the bitmaps are
    placed in holds arbitrary bytes before [_fill]: [raw] gives them. *)

From S2P Require Import Prelude Range Bitmap.

(** * mcx/mcx.hpp *)

Inductive MemoryMapType :=
| FREE | RESERVED | ACPI_RECLAIMABLE | ACPI_NVS | BAD_MEMORY
| BOOTLOADER_RECLAIMABLE | KERNEL_AND_MODULES | FRAMEBUFFER.

#[global] Instance MemoryMapType_eq_dec : EqDecision MemoryMapType.
Proof. solve_decision. Defined.

Record MemoryMap := mk_MemoryMap { mm_range : Range.Range; mm_type : MemoryMapType }.

(** [_memory_map] cut at [_memory_map_count]; the other fields of
    [MachineContext] are not used by the Pmm. *)
Record MachineContext := mk_MachineContext { _memory_map : list MemoryMap }.

Definition is_free (m : MemoryMap) : bool := bool_decide (mm_type m = FREE).

(** * State *)

Definition page_size_bit : Z := 4096.
Definition page_size_byte : Z := page_size_bit * 8.

(** sizeof(PmmSection) on x86-64: two addresses, then the hint, the data
    pointer and the length of the bitmap. *)
Definition sizeof_PmmSection : Z := 16 + 24.

Record PmmSection := mk_PmmSection { range : Range.Range; bitmap : Bitmap.Bitmap }.

(** [_sections] is the array cut at [_sections_count]. *)
Record Pmm := mk_Pmm {
  _range : Range.Range;
  _sections : list PmmSection;
  _section_location : Z;
  _context : MachineContext
}.

Definition set_sections (p : Pmm) (l : list PmmSection) : Pmm :=
  mk_Pmm (_range p) l (_section_location p) (_context p).

Definition pmm_size (context : MachineContext) : Z :=
  let size := fold_left (fun size m =>
    if is_free m
    then u64 (u64 (size + alignUp (Range.len (mm_range m)) page_size_byte / page_size_byte)
              + sizeof_PmmSection)
    else size) (_memory_map context) 0 in
  alignUp size page_size_byte.

Definition pmm_section_count (context : MachineContext) : Z :=
  zlen (filter (fun m => mm_type m = FREE) (_memory_map context)).

(** * Construction *)

(** The first FREE entry whose aligned range can hold the structure, with its
    index [i]. *)
Fixpoint find_region (l : list MemoryMap) (size i : Z) : option (Range.Range * Z) :=
  match l with
  | [] => None
  | m :: l =>
      let aligned_range := shrinkAlign (mm_range m) page_size_byte in
      if alignDown (Range.len (mm_range m)) page_size_byte =? 0 then find_region l size (i + 1)
      else if is_free m && (size <=? Range.len aligned_range)
      then Some (set_len aligned_range size, i)
      else find_region l size (i + 1)
  end.

Definition _allocate_structure (context : MachineContext) : result Pmm :=
  let size := pmm_size context in
  match find_region (_memory_map context) size 0 with
  | None => Error "Could not find a suitable memory range for the pmm"
  | Some (origin, used_section) => Value (mk_Pmm origin [] used_section context)
  end.

(** The bytes of physical memory [a .. a + n). *)
Definition raw_bytes (raw : Z -> Z) (a : Z) (n : nat) : list Z :=
  (fun k => u8 (raw (a + Z.of_nat k))) <$> seq 0 n.

(** One section of [_fill]: its bitmap is placed at [bitmaps_start], cleared,
    and in the section that holds the Pmm itself the pages of [own] are marked. *)
Definition fill_section (raw : Z -> Z) (own : option Range.Range) (m : MemoryMap)
    (bitmaps_start : Z) : ctl PmmSection :=
  let entry_range := shrinkAlign (mm_range m) page_size_byte in
  let bitmap_mem := raw_bytes raw bitmaps_start
                      (Z.to_nat (Range.len entry_range / page_size_byte)) in
  bm ← fill_all (Bitmap_of bitmap_mem) false;
  bm ← match own with
       | Some r =>
           let in_bitmap_range :=
             Range.div (growAlign (offsettedSub r (start entry_range)) page_size_bit)
               page_size_bit in
           fill bm true in_bitmap_range
       | None => Ret bm
       end;
  Ret (mk_PmmSection entry_range bm).

(** The loop of [_fill] over the memory map from index [i]; returns the
    sections and the final [bitmaps_start]. *)
Fixpoint fill_map (raw : Z -> Z) (p : Pmm) (l : list MemoryMap) (i bitmaps_start : Z) :
    ctl (list PmmSection * Z) :=
  match l with
  | [] => Ret ([], bitmaps_start)
  | m :: l =>
      if negb (is_free m) then fill_map raw p l (i + 1) bitmaps_start
      else if alignDown (Range.len (mm_range m)) page_size_byte =? 0
      then fill_map raw p l (i + 1) bitmaps_start
      else
        s ← fill_section raw (if _section_location p =? i then Some (_range p) else None)
              m bitmaps_start;
        '(rest, b) ← fill_map raw p l (i + 1)
          (u64 (bitmaps_start + Range.len (range s) / page_size_byte));
        Ret (s :: rest, b)
  end.

Definition bitmaps_start (p : Pmm) (context : MachineContext) : Z :=
  u64 (start (_range p) + sizeof_PmmSection * pmm_section_count context).

Definition _fill (raw : Z -> Z) (p : Pmm) (context : MachineContext) : ctl Pmm :=
  '(l, _) ← fill_map raw p (_memory_map context) 0 (bitmaps_start p context);
  Ret (set_sections p l).

(** * Operations *)

Fixpoint query_usage_loop (l : list PmmSection) (addr : Z) : ctl (result bool) :=
  match l with
  | [] => Ret (Error "Could not query memory usage")
  | s :: l =>
      if contains (range s) addr
      then b ← bit (bitmap s) (u64 (addr - start (range s)) / page_size_bit); Ret (Value b)
      else query_usage_loop l addr
  end.

Definition query_usage (p : Pmm) (addr : Z) : ctl (result bool) :=
  query_usage_loop (_sections p) addr.

(** [section.bitmap.alloc(count)] and, when it succeeds, the marking of the run
    and the address of its first page. *)
Definition section_alloc (s : PmmSection) (count : Z) : ctl (option Z * PmmSection) :=
  '(r, bm) ← alloc (bitmap s) count;
  match r with
  | Error _ => Ret (None, mk_PmmSection (range s) bm)
  | Value st =>
      let run := from_begin_len st count in
      bm ← fill bm true run;
      Ret (Some (u64 (start (range s) + u64 (start run * page_size_bit))),
           mk_PmmSection (range s) bm)
  end.

(** Ascending over the sections, for IOL_ALLOC_MEMORY_FLAG_LOWER_SPACE. *)
Fixpoint allocate_up (l : list PmmSection) (count : Z) : ctl (option Z * list PmmSection) :=
  match l with
  | [] => Ret (None, [])
  | s :: l =>
      '(r, s) ← section_alloc s count;
      match r with
      | Some a => Ret (Some a, s :: l)
      | None => '(r, l) ← allocate_up l count; Ret (r, s :: l)
      end
  end.

(** Descending: the last section first. *)
Fixpoint allocate_down (l : list PmmSection) (count : Z) : ctl (option Z * list PmmSection) :=
  match l with
  | [] => Ret (None, [])
  | s :: l =>
      '(r, l) ← allocate_down l count;
      match r with
      | Some a => Ret (Some a, s :: l)
      | None => '(r, s) ← section_alloc s count; Ret (r, s :: l)
      end
  end.

Definition allocate (p : Pmm) (count : Z) (lower_space : bool) : ctl (result Z * Pmm) :=
  '(r, l) ← (if lower_space then allocate_up (_sections p) count
             else Ret (None, _sections p));
  match r with
  | Some a => Ret (Value a, set_sections p l)
  | None =>
      '(r, l) ← allocate_down l count;
      match r with
      | Some a => Ret (Value a, set_sections p l)
      | None => Ret (Error "Could not allocate memory", set_sections p l)
      end
  end.

Fixpoint own_loop (l : list PmmSection) (addr count : Z) : ctl (result unit * list PmmSection) :=
  match l with
  | [] => Ret (Error "Could not own memory", [])
  | s :: l =>
      if contains (range s) addr then
        let run := from_begin_len (u64 (addr - start (range s)) / page_size_bit) count in
        bm ← fill (bitmap s) true run;
        Ret (Value tt, mk_PmmSection (range s) bm :: l)
      else '(r, l) ← own_loop l addr count; Ret (r, s :: l)
  end.

Definition own (p : Pmm) (addr count : Z) : ctl (result unit * Pmm) :=
  '(r, l) ← own_loop (_sections p) addr count;
  Ret (r, set_sections p l).

(** A page of the range that is not in use is an [unreachable$()]. *)
Fixpoint release_loop (l : list PmmSection) (addr count : Z) :
    ctl (result unit * list PmmSection) :=
  match l with
  | [] => Ret (Error "Could not release memory", [])
  | s :: l =>
      if contains (range s) addr then
        let run := from_begin_len (u64 (addr - start (range s)) / page_size_bit) count in
        '(r, bm) ← fill_expected_inverse (bitmap s) false run;
        if is_error r then Trap
        else Ret (Value tt, mk_PmmSection (range s) bm :: l)
      else '(r, l) ← release_loop l addr count; Ret (r, s :: l)
  end.

Definition release (p : Pmm) (addr count : Z) : ctl (result unit * Pmm) :=
  '(r, l) ← release_loop (_sections p) addr count;
  Ret (r, set_sections p l).

(** The errors of the two [own] calls are not looked at. *)
Definition create (raw : Z -> Z) (context : MachineContext) : ctl (result Pmm) :=
  match _allocate_structure context with
  | Error m => Ret (Error m)
  | Value p =>
      p ← _fill raw p context;
      '(_, p) ← own p (start (_range p)) (Range.len (_range p) / page_size_bit);
      '(_, p) ← own p 0 16;
      Ret (Value (mk_Pmm (_range p) (_sections p) (_section_location p) context))
  end.

(** [Pmm::initialize]: the global instance is replaced on success only. *)
Definition initialize (raw : Z -> Z) (instance : option Pmm) (context : MachineContext) :
    ctl (result unit * option Pmm) :=
  r ← create raw context;
  match r with
  | Value p => Ret (Value tt, Some p)
  | Error m => Ret (Error m, instance)
  end.

(** Correctness of the physical memory manager: the state of every page as a
    partial map (no section / free / used), the invariant of a manager, and
    what allocate, own and release do to that map. *)

(** * Invariant and abstract view *)

Definition sec_wf (s : PmmSection) : Prop :=
  Bitmap.wf (bitmap s) /\ 0 <= start (range s) /\ (4096 | start (range s)) /\
  end_ (range s) = start (range s) + 4096 * Bitmap.len (bitmap s) /\
  end_ (range s) < 2 ^ 64.

Definition disjoint_sec (s t : PmmSection) : Prop :=
  forall a, contains (range s) a = true -> contains (range t) a = false.

Fixpoint all_disjoint (l : list PmmSection) : Prop :=
  match l with
  | [] => True
  | s :: l => Forall (disjoint_sec s) l /\ all_disjoint l
  end.

Definition secs_wf (l : list PmmSection) : Prop := Forall sec_wf l /\ all_disjoint l.

Definition pmm_wf (p : Pmm) : Prop := secs_wf (_sections p).

(** State of the page that holds address [a]: [None] outside every section,
    otherwise whether it is in use. *)
Definition sec_page (s : PmmSection) (a : Z) : bool :=
  bm_get (bitmap s) ((a - start (range s)) / 4096).

Fixpoint page_state (l : list PmmSection) (a : Z) : option bool :=
  match l with
  | [] => None
  | s :: l => if contains (range s) a then Some (sec_page s a) else page_state l a
  end.

Definition pmm_page (p : Pmm) (a : Z) : option bool := page_state (_sections p) a.

(** Sections that differ at most in their search hint. *)
Definition sec_equiv (s t : PmmSection) : Prop :=
  range s = range t /\ sec_wf t /\ Bitmap.len (bitmap s) = Bitmap.len (bitmap t) /\
  forall i, 0 <= i -> bm_get (bitmap s) i = bm_get (bitmap t) i.

Definition in_run (a n x : Z) : bool := (a <=? x) && (x <? a + 4096 * n).

(** [l'] is [l] with the [n] pages from [a], all of state [Some b], turned to
    [Some (negb b)]; every other page keeps its state. *)
Definition flipped (l l' : list PmmSection) (a n : Z) (b : bool) : Prop :=
  forall x, page_state l' x = (if in_run a n x then Some (negb b) else page_state l x) /\
            (in_run a n x = true -> page_state l x = Some b).

Lemma contains_iff r a : contains r a = true <-> start r <= a < end_ r.
Proof. unfold contains. case_Z; simpl; split; intros; (done || lia). Qed.

Lemma not_contains_iff r a : contains r a = false <-> ~ start r <= a < end_ r.
Proof. rewrite <- contains_iff. destruct (contains r a); naive_solver. Qed.

Lemma in_run_iff a n x : in_run a n x = true <-> a <= x < a + 4096 * n.
Proof. unfold in_run. case_Z; simpl; split; intros; (done || lia). Qed.

(** [disjoint_sec] and [all_disjoint] only look at the ranges. *)
Lemma all_disjoint_ranges l l' : range <$> l = range <$> l' -> all_disjoint l -> all_disjoint l'.
Proof.
  revert l'. induction l as [|s l IH]; intros [|s' l']; simpl; try done.
  intros [= Hs Hl] [Hf Hd]. split; [|by apply IH].
  revert l' Hl Hf. clear -Hs. induction l as [|t l IH]; intros [|t' l']; simpl; try done.
  intros [= Ht Hl] [Hd Hf]%Forall_cons_1. constructor; [|by apply IH].
  unfold disjoint_sec in *. intros a. rewrite <- Hs, <- Ht. apply Hd.
Qed.

(** * One section *)

Lemma page_index s a :
  sec_wf s -> contains (range s) a = true ->
  0 <= (a - start (range s)) / 4096 < Bitmap.len (bitmap s) /\
  u64 (a - start (range s)) = a - start (range s).
Proof.
  intros (_ & ? & _ & He & ?) [? ?]%contains_iff. split.
  - split; [apply Z.div_pos; lia|apply Z.div_lt_upper_bound; lia].
  - apply wrapu_small. lia.
Qed.

(** The pages of a run of bits of a section are the addresses of a run. *)
Lemma run_pages s k n x :
  sec_wf s -> 0 <= k ->
  k <= (x - start (range s)) / 4096 < k + n <->
  in_run (start (range s) + 4096 * k) n x = true.
Proof.
  intros _ Hk. rewrite in_run_iff.
  pose proof (Z.div_mod (x - start (range s)) 4096).
  pose proof (Z.mod_pos_bound (x - start (range s)) 4096). lia.
Qed.

Lemma from_begin_len_wf b s n :
  sec_wf b -> 0 <= s -> 0 <= n -> s + n <= Bitmap.len (bitmap b) ->
  from_begin_len s n = mk_Range s (s + n).
Proof.
  intros (_ & ? & _ & ? & ?) ? ? ?. unfold from_begin_len. f_equal.
  apply wrapu_small. lia.
Qed.

(** A new bitmap of the same length keeps the section well formed. *)
Lemma sec_wf_bitmap s bm :
  sec_wf s -> Bitmap.wf bm -> Bitmap.len bm = Bitmap.len (bitmap s) ->
  sec_wf (mk_PmmSection (range s) bm).
Proof. intros (? & ? & ? & ? & ?) ? E. split_and!; simpl; try done. by rewrite E. Qed.

Lemma section_alloc_spec s n :
  sec_wf s -> 0 < n ->
  exists r s', section_alloc s n = Ret (r, s') /\ sec_wf s' /\ range s' = range s /\
    match r with
    | Some a =>
        (4096 | a) /\ start (range s) <= a /\ a + 4096 * n <= end_ (range s) /\
        (forall x, contains (range s) x = true ->
           sec_page s' x = (if in_run a n x then true else sec_page s x)) /\
        (forall x, in_run a n x = true -> sec_page s x = false)
    | None =>
        (forall x, contains (range s) x = true -> sec_page s' x = sec_page s x) /\
        (forall k, ~ free_run (bitmap s) k n)
    end.
Proof.
  intros Hs Hn. pose proof Hs as (Hwf & H0 & Hal & He & Hmax). unfold section_alloc.
  destruct (alloc_spec (bitmap s) n Hwf Hn) as (r & c & -> & Hc & Hr). simpl.
  assert (Bitmap.wf (set_cache (bitmap s) c)) as Hwfc by by destruct Hwf.
  destruct r as [k|m]; simpl.
  2:{ eexists _, _. split; [done|]. split; [by apply sec_wf_bitmap|]. done. }
  destruct Hr as (Hk & Hkn & Hfree).
  rewrite (from_begin_len_wf s) by (done || lia).
  edestruct (fill_spec (set_cache (bitmap s) c) true (mk_Range k (k + n)))
    as (bm & -> & Hbw & Hbl & _ & Hbg); [done|simpl; lia..|exact Hkn|]. simpl.
  assert (u64 (start (range s) + u64 (k * page_size_bit)) = start (range s) + 4096 * k) as ->.
  { unfold page_size_bit. rewrite (wrapu_small 64 (k * 4096)), wrapu_small by lia. lia. }
  eexists _, _. split; [done|]. split; [by apply sec_wf_bitmap|]. split; [done|].
  split_and!.
  - apply Z.divide_add_r; [done|apply Z.divide_factor_l].
  - lia.
  - lia.
  - intros x Hx. unfold sec_page. simpl.
    destruct (page_index _ _ Hs Hx) as [Hi _]. rewrite Hbg by lia.
    pose proof (run_pages s k n x Hs Hk) as Hrp.
    destruct (in_run _ n x).
    + rewrite (proj2 (contains_iff _ _)); [done|]. simpl. by apply Hrp.
    + rewrite (proj2 (not_contains_iff _ _)); [done|]. simpl. intros Hin.
      by apply Hrp in Hin.
  - intros x Hx. apply (run_pages s k n x Hs Hk) in Hx. by apply Hfree.
Qed.

(** * Lists of sections *)

Lemma page_state_contains l a s :
  all_disjoint l -> s ∈ l -> contains (range s) a = true -> page_state l a = Some (sec_page s a).
Proof.
  induction l as [|t l IH]; simpl; [by intros _ ?%not_elem_of_nil|].
  intros [Hf Hd] [->|Hin]%elem_of_cons Ha; [by rewrite Ha|].
  rewrite Forall_forall in Hf.
  destruct (contains (range t) a) eqn:Ht; [|by apply IH].
  rewrite (Hf s Hin a Ht) in Ha. done.
Qed.

Lemma page_state_tail s l a :
  all_disjoint (s :: l) -> is_Some (page_state l a) -> contains (range s) a = false.
Proof.
  simpl. intros [Hf _]. induction l as [|t l IH]; simpl; [by intros []|].
  apply Forall_cons_1 in Hf as [Hst Hf]. intros Hsome.
  destruct (contains (range s) a) eqn:Hs; [|done].
  rewrite (Hst a Hs) in Hsome. by apply IH.
Qed.

Lemma flipped_ext l1 l2 l' a n b :
  (forall x, page_state l1 x = page_state l2 x) -> flipped l1 l' a n b -> flipped l2 l' a n b.
Proof. intros Heq Hf x. rewrite <- Heq. apply Hf. Qed.

Lemma flipped_tail s l l' a n b :
  all_disjoint (s :: l) -> flipped l l' a n b -> flipped (s :: l) (s :: l') a n b.
Proof.
  intros Hd Hfl x. destruct (Hfl x) as [H1 H2]. simpl.
  destruct (in_run a n x) eqn:Hr.
  - rewrite (page_state_tail s l x) by (done || by rewrite H2).
    rewrite H2 by done. done.
  - rewrite H1. done.
Qed.

(** Rewriting the first section, the one that holds the run. *)
Lemma flipped_head s s' l a n b :
  range s' = range s ->
  start (range s) <= a -> a + 4096 * n <= end_ (range s) ->
  (forall x, contains (range s) x = true ->
     sec_page s' x = if in_run a n x then negb b else sec_page s x) ->
  (forall x, in_run a n x = true -> sec_page s x = b) ->
  flipped (s :: l) (s' :: l) a n b.
Proof.
  intros Hr Ha He Hs' Hs x. simpl. rewrite Hr. destruct (in_run a n x) eqn:Hx.
  - assert (contains (range s) x = true) as Hc
      by (apply contains_iff; apply in_run_iff in Hx; lia).
    rewrite Hc, Hs', Hx, Hs by done. done.
  - split; [|done]. destruct (contains (range s) x) eqn:Hc; [|done]. by rewrite Hs', Hx.
Qed.

Lemma page_state_head s s' l :
  range s' = range s ->
  (forall x, contains (range s) x = true -> sec_page s' x = sec_page s x) ->
  forall x, page_state (s' :: l) x = page_state (s :: l) x.
Proof.
  intros Hr Hp x. simpl. rewrite Hr. destruct (contains _ x) eqn:Hc; [|done].
  by rewrite Hp.
Qed.

(** What both allocation loops establish. *)
Definition alloc_post (l : list PmmSection) (n : Z) (r : option Z) (l' : list PmmSection) : Prop :=
  Forall sec_wf l' /\ range <$> l' = range <$> l /\
  match r with
  | Some a => (4096 | a) /\ flipped l l' a n false /\
      exists s, s ∈ l /\ start (range s) <= a /\ a + 4096 * n <= end_ (range s)
  | None => (forall x, page_state l' x = page_state l x) /\
      forall s k, s ∈ l -> ~ free_run (bitmap s) k n
  end.

Lemma section_step s l n :
  sec_wf s -> Forall sec_wf l -> 0 < n ->
  exists r s', section_alloc s n = Ret (r, s') /\
    match r with
    | Some a => alloc_post (s :: l) n (Some a) (s' :: l)
    | None => sec_wf s' /\ range s' = range s /\
        (forall x, contains (range s) x = true -> sec_page s' x = sec_page s x) /\
        forall k, ~ free_run (bitmap s) k n
    end.
Proof.
  intros Hs Hl Hn. destruct (section_alloc_spec s n Hs Hn) as (r & s' & -> & Hw & Hr & Hres).
  exists r, s'. split; [done|]. destruct r as [a|]; [|naive_solver].
  destruct Hres as (Hal & Ha & He & Hp & Hf). split_and!.
  - by constructor.
  - by rewrite !fmap_cons, Hr.
  - done.
  - by apply flipped_head.
  - exists s. split; [apply list_elem_of_here|done].
Qed.

Lemma alloc_post_cons_Some s l n a l' :
  sec_wf s -> all_disjoint (s :: l) ->
  alloc_post l n (Some a) l' -> alloc_post (s :: l) n (Some a) (s :: l').
Proof.
  intros Hs Hd (Hw & Hr & Hal & Hf & t & Ht & ?). split_and!; try done.
  - by constructor.
  - by rewrite !fmap_cons, Hr.
  - by apply flipped_tail.
  - exists t. split; [by apply list_elem_of_further|done].
Qed.

(** The run found in the rest after a section that had none (only its hint may
    have changed). *)
Lemma alloc_post_skip s s' l n r l' :
  all_disjoint (s :: l) -> sec_wf s' -> range s' = range s ->
  (forall x, contains (range s) x = true -> sec_page s' x = sec_page s x) ->
  (forall k, ~ free_run (bitmap s) k n) ->
  alloc_post l n r l' -> alloc_post (s :: l) n r (s' :: l').
Proof.
  intros Hd Hw Hr Hp Hno (Hw' & Hr' & Hres). split_and!.
  - by constructor.
  - by rewrite !fmap_cons, Hr, Hr'.
  - destruct r as [a|].
    + destruct Hres as (Hal & Hf & t & Ht & ?). split_and!; [done| |].
      * intros x. destruct (flipped_tail s l l' a n false Hd Hf x) as [H1 H2].
        rewrite (page_state_head s s' l' Hr Hp x). done.
      * exists t. split; [by apply list_elem_of_further|done].
    + destruct Hres as [Heq Hno']. split.
      * intros x. rewrite (page_state_head s s' l' Hr Hp x). simpl. by rewrite Heq.
      * intros t k [->|Ht]%elem_of_cons; [apply Hno|by apply Hno'].
Qed.

Lemma allocate_up_spec l n :
  secs_wf l -> 0 < n -> exists r l', allocate_up l n = Ret (r, l') /\ alloc_post l n r l'.
Proof.
  intros [Hw Hd] Hn. induction l as [|s l IH]; simpl.
  { eexists _, _. split; [done|]. split_and!; [done..|].
    by intros ? ? ?%not_elem_of_nil. }
  apply Forall_cons_1 in Hw as [Hs Hl].
  destruct (section_step s l n Hs Hl Hn) as (r & s' & -> & Hr). simpl.
  destruct r as [a|]; [by eauto|]. destruct Hr as (? & ? & ? & ?).
  destruct IH as (r & l' & -> & Hpost); [done|by destruct Hd|]. simpl.
  eexists _, _. split; [done|]. by eapply alloc_post_skip.
Qed.

Lemma allocate_down_spec l n :
  secs_wf l -> 0 < n -> exists r l', allocate_down l n = Ret (r, l') /\ alloc_post l n r l'.
Proof.
  intros [Hw Hd] Hn. induction l as [|s l IH]; simpl.
  { eexists _, _. split; [done|]. split_and!; [done..|].
    by intros ? ? ?%not_elem_of_nil. }
  apply Forall_cons_1 in Hw as [Hs Hl].
  destruct IH as (r & l' & -> & Hpost); [done|by destruct Hd|]. simpl.
  destruct r as [a|].
  { eexists _, _. split; [done|]. by apply alloc_post_cons_Some. }
  pose proof Hpost as (Hwl' & Hrl' & Heq & Hno).
  destruct (section_step s l' n Hs Hwl' Hn) as (r & s' & -> & Hr). simpl.
  eexists _, _. split; [done|]. destruct r as [a|].
  - destruct Hr as (H1 & H2 & H3 & H4 & t & Ht & H5). split_and!; try done.
    + by rewrite H2, !fmap_cons, Hrl'.
    + apply (flipped_ext (s :: l')); [|done]. intros x. simpl. by rewrite Heq.
    + apply elem_of_cons in Ht as [->|Ht]; [exists s; split; [apply list_elem_of_here|done]|].
      pose proof (list_elem_of_fmap_2 range l' t Ht) as Ht'.
      rewrite Hrl' in Ht'. apply list_elem_of_fmap in Ht' as (u & Hu & Hin).
      exists u. split; [by apply list_elem_of_further|]. by rewrite <- Hu.
  - destruct Hr as (? & ? & ? & ?). by eapply alloc_post_skip.
Qed.

(** * Whole-manager theorems *)

Lemma alloc_post_wf l n r l' : secs_wf l -> alloc_post l n r l' -> secs_wf l'.
Proof. intros [_ Hd] (Hw & Hr & _). split; [done|]. by apply (all_disjoint_ranges l). Qed.

Lemma alloc_post_again l l' n r l'' :
  alloc_post l n None l' -> alloc_post l' n r l'' -> alloc_post l n r l''.
Proof.
  intros (_ & Hr & Heq & Hno) (Hw' & Hr' & Hres). split_and!; [done|congruence|].
  destruct r as [a|].
  - destruct Hres as (Hal & Hf & t & Ht & Hb). split_and!; [done| |].
    + by apply (flipped_ext l').
    + pose proof (list_elem_of_fmap_2 range l' t Ht) as Ht'.
      rewrite Hr in Ht'. apply list_elem_of_fmap in Ht' as (u & Hu & Hin).
      exists u. rewrite <- Hu. done.
  - destruct Hres as [Heq' _]. split; [|done]. intros x. by rewrite Heq', Heq.
Qed.

Lemma set_sections_id p : set_sections p (_sections p) = p.
Proof. by destruct p. Qed.

(** The run [a, a + 4096 n) lies inside one section. *)
Definition run_in_section (p : Pmm) (a n : Z) : Prop :=
  exists s, s ∈ _sections p /\ start (range s) <= a /\ a + 4096 * n <= end_ (range s).

Definition result_of (r : option Z) : result Z :=
  match r with Some a => Value a | None => Error "Could not allocate memory" end.

Lemma allocate_post p n lower :
  pmm_wf p -> 0 < n ->
  exists r l, allocate p n lower = Ret (result_of r, set_sections p l) /\
    alloc_post (_sections p) n r l.
Proof.
  intros Hwf Hn. unfold allocate.
  assert (exists r l, (if lower then allocate_up (_sections p) n else Ret (None, _sections p))
            = Ret (r, l) /\ (r = None /\ l = _sections p \/ alloc_post (_sections p) n r l))
    as (r & l & -> & Hpost).
  { destruct lower; [|by eauto 10].
    destruct (allocate_up_spec (_sections p) n Hwf Hn) as (r & l & ? & ?). eauto 10. }
  simpl. destruct r as [a|].
  { destruct Hpost as [[? _]|Hpost]; [done|]. by exists (Some a), l. }
  assert (secs_wf l) as Hwl.
  { destruct Hpost as [[_ ->]|Hpost]; [done|by eapply alloc_post_wf]. }
  destruct (allocate_down_spec l n Hwl Hn) as (r & l' & -> & Hpost'). simpl.
  exists r, l'. split; [by destruct r|].
  destruct Hpost as [[_ ->]|Hpost]; [done|by eapply alloc_post_again].
Qed.

(** * own and release *)

Section run_ops.
Context (a n : Z).
Hypothesis Hn : 0 <= n.
Hypothesis Hal : (4096 | a).

(** The bit range the code computes for the run, in the section holding it. *)
Lemma run_bits s :
  sec_wf s -> contains (range s) a = true -> a + 4096 * n <= end_ (range s) ->
  exists k, from_begin_len (u64 (a - start (range s)) / page_size_bit) n = mk_Range k (k + n) /\
    0 <= k /\ k + n <= Bitmap.len (bitmap s) /\ start (range s) + 4096 * k = a.
Proof.
  intros Hs Hc He. destruct (page_index _ _ Hs Hc) as [[Hk _] Hu].
  pose proof Hs as (_ & _ & Hdiv & Hend & _). rewrite Hu.
  destruct Hal as [x ->]. destruct Hdiv as [y Hy].
  change page_size_bit with 4096 in *. rewrite Hy in *.
  rewrite <- Z.mul_sub_distr_r, Z.div_mul in * by lia.
  exists (x - y). rewrite (from_begin_len_wf s) by (done || lia).
  split_and!; (done || lia).
Qed.

(** The section with its run set to [b]. *)
Lemma set_run_pages s bm k b :
  sec_wf s -> 0 <= k -> start (range s) + 4096 * k = a ->
  (forall j, 0 <= j -> bm_get bm j =
     if contains (mk_Range k (k + n)) j then b else bm_get (bitmap s) j) ->
  forall x, contains (range s) x = true ->
    sec_page (mk_PmmSection (range s) bm) x = if in_run a n x then b else sec_page s x.
Proof.
  intros Hs Hk <- Hg x Hx. unfold sec_page. simpl.
  destruct (page_index _ _ Hs Hx) as [Hi _]. rewrite Hg by lia.
  pose proof (run_pages s k n x Hs Hk) as Hrp. destruct (in_run _ n x).
  - rewrite (proj2 (contains_iff _ _)); [done|]. simpl. by apply Hrp.
  - rewrite (proj2 (not_contains_iff _ _)); [done|]. simpl. intros Hin.
    by apply Hrp in Hin.
Qed.
End run_ops.

(** [own] marks the run whatever the state of its pages; other pages keep
    theirs. *)
Definition owned (l l' : list PmmSection) (a n : Z) : Prop :=
  forall x, page_state l' x = if in_run a n x then Some true else page_state l x.

Lemma first_section l a n :
  secs_wf l -> 0 < n ->
  (exists s, s ∈ l /\ start (range s) <= a /\ a + 4096 * n <= end_ (range s)) ->
  exists l1 s l2, l = l1 ++ s :: l2 /\ sec_wf s /\
    (forall t, t ∈ l1 -> contains (range t) a = false) /\
    contains (range s) a = true /\ a + 4096 * n <= end_ (range s).
Proof.
  intros [Hw Hd] Hn (s & Hin & Hs & He). induction l as [|t l IH]; [by apply not_elem_of_nil in Hin|].
  apply Forall_cons_1 in Hw as [Ht Hw]. pose proof Hd as [Hf Hd'].
  apply elem_of_cons in Hin as [->|Hin].
  - exists [], t, l. split_and!; try done; [by intros ? ?%not_elem_of_nil|apply contains_iff; lia].
  - destruct (IH Hw Hd' Hin) as (l1 & s' & l2 & -> & ? & Hl1 & Hc & ?).
    exists (t :: l1), s', l2. split_and!; try done.
    intros u [->|Hu]%elem_of_cons; [|by apply Hl1].
    destruct (contains (range t) a) eqn:E; [|done].
    rewrite Forall_forall in Hf. rewrite (Hf s' ltac:(set_solver) a E) in Hc. done.
Qed.

(** Rewriting the bitmap of one section in the middle of the list. *)
Lemma page_state_app l1 l2 x :
  page_state (l1 ++ l2) x =
    match page_state l1 x with Some b => Some b | None => page_state l2 x end.
Proof. induction l1 as [|s l1 IH]; simpl; [done|]. destruct (contains _ _); done. Qed.

Lemma page_state_is_Some l x b :
  page_state l x = Some b -> exists s, s ∈ l /\ contains (range s) x = true.
Proof.
  induction l as [|s l IH]; simpl; [done|]. destruct (contains (range s) x) eqn:E.
  - intros _. exists s. split; [apply list_elem_of_here|done].
  - intros (t & ? & ?)%IH. exists t. split; [by apply list_elem_of_further|done].
Qed.

Lemma set_run_list l1 s l2 bm a n b :
  secs_wf (l1 ++ s :: l2) -> start (range s) <= a -> a + 4096 * n <= end_ (range s) ->
  (forall x, contains (range s) x = true ->
     sec_page (mk_PmmSection (range s) bm) x = if in_run a n x then b else sec_page s x) ->
  forall x, page_state (l1 ++ mk_PmmSection (range s) bm :: l2) x =
    if in_run a n x then Some b else page_state (l1 ++ s :: l2) x.
Proof.
  intros [_ Hd] Ha He Hp x. rewrite !page_state_app. simpl.
  destruct (in_run a n x) eqn:Hx.
  - assert (contains (range s) x = true) as Hc
      by (apply contains_iff; apply in_run_iff in Hx; lia).
    rewrite Hc, Hp, Hx by done.
    destruct (page_state l1 x) eqn:E; [|done].
    apply page_state_is_Some in E as (t & Ht & Htx).
    induction l1 as [|u l1 IH]; [by apply not_elem_of_nil in Ht|].
    destruct Hd as [Hf Hd]. apply elem_of_cons in Ht as [->|Ht]; [|by apply IH].
    rewrite Forall_forall in Hf. rewrite (Hf s ltac:(set_solver) x Htx) in Hc. done.
  - destruct (page_state l1 x); [done|].
    destruct (contains (range s) x) eqn:Hc; [|done]. by rewrite Hp, Hx.
Qed.

Lemma secs_wf_set l1 s l2 bm :
  secs_wf (l1 ++ s :: l2) -> Bitmap.wf bm -> Bitmap.len bm = Bitmap.len (bitmap s) ->
  secs_wf (l1 ++ mk_PmmSection (range s) bm :: l2).
Proof.
  intros [Hw Hd] Hb Hl. split.
  - apply Forall_app in Hw as [Hw1 [Hs Hw2]%Forall_cons_1].
    apply Forall_app. split; [done|]. constructor; [by apply sec_wf_bitmap|done].
  - eapply all_disjoint_ranges, Hd. by rewrite !fmap_app, !fmap_cons.
Qed.

Lemma own_loop_skip l1 l2 a n :
  (forall t, t ∈ l1 -> contains (range t) a = false) ->
  own_loop (l1 ++ l2) a n = ('(r, l) ← own_loop l2 a n; Ret (r, l1 ++ l)).
Proof.
  induction l1 as [|t l1 IH]; intros H; simpl.
  { destruct (own_loop l2 a n) as [[]| |]; done. }
  rewrite (H t) by set_solver. rewrite IH by set_solver.
  destruct (own_loop l2 a n) as [[]| |]; done.
Qed.

Lemma release_loop_skip l1 l2 a n :
  (forall t, t ∈ l1 -> contains (range t) a = false) ->
  release_loop (l1 ++ l2) a n = ('(r, l) ← release_loop l2 a n; Ret (r, l1 ++ l)).
Proof.
  induction l1 as [|t l1 IH]; intros H; simpl.
  { destruct (release_loop l2 a n) as [[]| |]; done. }
  rewrite (H t) by set_solver. rewrite IH by set_solver.
  destruct (release_loop l2 a n) as [[]| |]; done.
Qed.

Lemma own_run (p : Pmm) (a n : Z) :
  pmm_wf p -> 0 < n -> (4096 | a) -> run_in_section p a n ->
  exists p', own p a n = Ret (Value tt, p') /\ pmm_wf p' /\
    forall x, pmm_page p' x = if in_run a n x then Some true else pmm_page p x.
Proof.
  intros Hwf Hn Hal Hin. unfold own, pmm_wf, pmm_page in *. pose proof Hwf as Hwf0.
  destruct (first_section _ a n Hwf Hn Hin) as (l1 & s & l2 & E & Hs & Hl1 & Hc & He).
  rewrite E, (own_loop_skip l1 (s :: l2) a n Hl1) in *. simpl own_loop. rewrite Hc.
  destruct (run_bits a n ltac:(lia) Hal s Hs Hc He) as (k & -> & Hk & Hkn & Hka).
  pose proof Hs as (Hb & _). pose proof (proj1 (contains_iff _ _) Hc).
  destruct (fill_spec (bitmap s) true (mk_Range k (k + n))) as (bm & -> & ? & ? & _ & Hg);
    [done|simpl; lia..|exact Hkn|]. simpl.
  eexists. split; [done|]. simpl. split; [by apply secs_wf_set|].
  apply set_run_list; [done|lia|done|]. eapply set_run_pages; (done || lia).
Qed.

Lemma release_run (p : Pmm) (a n : Z) :
  pmm_wf p -> 0 < n -> (4096 | a) -> run_in_section p a n ->
  (forall x, in_run a n x = true -> pmm_page p x = Some true) ->
  exists p', release p a n = Ret (Value tt, p') /\ pmm_wf p' /\
    forall x, pmm_page p' x = if in_run a n x then Some false else pmm_page p x.
Proof.
  intros Hwf Hn Hal Hin Hused. unfold release, pmm_wf, pmm_page in *. pose proof Hwf as Hwf0.
  destruct (first_section _ a n Hwf Hn Hin) as (l1 & s & l2 & E & Hs & Hl1 & Hc & He).
  rewrite E, (release_loop_skip l1 (s :: l2) a n Hl1) in *. simpl release_loop. rewrite Hc.
  destruct (run_bits a n ltac:(lia) Hal s Hs Hc He) as (k & -> & Hk & Hkn & Hka).
  pose proof Hs as (Hb & _). pose proof (proj1 (contains_iff _ _) Hc).
  destruct (fill_expected_inverse_spec (bitmap s) false (mk_Range k (k + n)))
    as (bm & -> & ? & ? & _ & Hg); [done|simpl; lia|exact Hkn| |].
  { intros j [Hj1 Hj2]%contains_iff. simpl in *.
    specialize (Hused (start (range s) + 4096 * j)).
    forward Hused by (apply in_run_iff; lia).
    rewrite (page_state_contains _ _ s) in Hused.
    - unfold sec_page in Hused. replace (start (range s) + 4096 * j - start (range s))
        with (j * 4096) in Hused by lia. rewrite Z.div_mul in Hused by lia. by inversion Hused.
    - apply Hwf.
    - set_solver.
    - apply contains_iff. lia. }
  simpl. eexists. split; [done|]. simpl. split; [by apply secs_wf_set|].
  apply set_run_list; [done|lia|done|]. eapply set_run_pages; (done || lia).
Qed.

Lemma release_loop_ranges l a n r l' :
  release_loop l a n = Ret (r, l') -> range <$> l' = range <$> l.
Proof.
  revert r l'. induction l as [|s l IH]; simpl; intros r l' E; [by inv_ctl|].
  destruct (contains (range s) a).
  - destruct (fill_expected_inverse _ _ _) as [[r' bm]| |]; simpl in E; try done.
    destruct (is_error r'); by inv_ctl.
  - destruct (release_loop l a n) as [[r' l'']| |]; simpl in E; try done. inv_ctl.
    rewrite !fmap_cons. f_equal. by eapply IH.
Qed.

(** A page of the run that is already free stops the kernel. *)
Lemma release_free_run p a n x :
  pmm_wf p -> 0 < n -> (4096 | a) -> run_in_section p a n ->
  in_run a n x = true -> pmm_page p x = Some false ->
  release p a n = Trap.
Proof.
  intros Hwf Hn Hal Hin Hx Hfree. unfold release, pmm_wf, pmm_page in *.
  destruct (first_section _ a n Hwf Hn Hin) as (l1 & s & l2 & E & Hs & Hl1 & Hc & He).
  rewrite E, (release_loop_skip l1 (s :: l2) a n Hl1) in *. simpl release_loop. rewrite Hc.
  destruct (run_bits a n ltac:(lia) Hal s Hs Hc He) as (k & -> & Hk & Hkn & Hka).
  pose proof (proj1 (contains_iff _ _) Hc).
  assert (contains (range s) x = true) as Hcx
    by (apply contains_iff; apply in_run_iff in Hx; lia).
  rewrite (page_state_contains _ _ s) in Hfree; [|by destruct Hwf|set_solver|done].
  injection Hfree as Hbit. rewrite <- Hka in Hx.
  apply (run_pages s k n x Hs Hk) in Hx.
  destruct (fill_expected_inverse_error (bitmap s) false (mk_Range k (k + n))
              ((x - start (range s)) / 4096)) as (m & b' & ->);
    [by destruct Hs|simpl; lia|done|by apply contains_iff|done|]. done.
Qed.

Lemma run_in_section_ranges p l a n :
  range <$> l = range <$> _sections p -> run_in_section p a n ->
  run_in_section (set_sections p l) a n.
Proof.
  intros Hr (t & Ht & Hb). pose proof (list_elem_of_fmap_2 range _ t Ht) as Ht'.
  rewrite <- Hr in Ht'. apply list_elem_of_fmap in Ht' as (u & Hu & Hin).
  exists u. rewrite <- Hu. done.
Qed.

(** ** Whatever the arguments, an operation that returns keeps the manager well
    formed. *)

Definition secs_keep (l l' : list PmmSection) : Prop :=
  range <$> l' = range <$> l /\ (secs_wf l -> Forall sec_wf l').

Lemma secs_keep_wf l l' : secs_wf l -> secs_keep l l' -> secs_wf l'.
Proof. intros Hl [Hr Hw]. split; [by apply Hw|]. eapply all_disjoint_ranges; [|apply Hl]. done. Qed.

Lemma secs_wf_cons s l : secs_wf (s :: l) -> sec_wf s /\ secs_wf l.
Proof. intros [Hw [_ Hd]]. apply Forall_cons_1 in Hw as [? ?]. done. Qed.

Lemma secs_keep_refl l : secs_keep l l.
Proof. split; [done|]. by intros []. Qed.

Lemma secs_keep_head s bm l :
  (sec_wf s -> Bitmap.keeps (bitmap s) bm) -> secs_keep (s :: l) (mk_PmmSection (range s) bm :: l).
Proof.
  intros Hb. split; [done|]. intros [Hs [Hl _]]%secs_wf_cons. constructor; [|done].
  destruct (Hb Hs). by apply sec_wf_bitmap.
Qed.

Lemma secs_keep_tail s l l' : secs_keep l l' -> secs_keep (s :: l) (s :: l').
Proof.
  intros [Hr Hw]. split; [by rewrite !fmap_cons, Hr|].
  intros [Hs Hl]%secs_wf_cons. constructor; [done|by apply Hw].
Qed.

Lemma secs_keep_trans l l' l'' : secs_wf l -> secs_keep l l' -> secs_keep l' l'' -> secs_keep l l''.
Proof.
  intros Hl H1 [Hr2 Hw2]. pose proof (secs_keep_wf _ _ Hl H1). destruct H1 as [Hr1 _].
  split; [by rewrite Hr2|]. intros _. by apply Hw2.
Qed.

Lemma run_index_nonneg a s : 0 <= u64 (a - s) / 4096.
Proof. apply Z.div_pos; [|lia]. by apply (wrapu_range 64). Qed.

Lemma own_loop_keeps l a n : secs_wf l -> ends (fun '(_, l') => secs_keep l l') (own_loop l a n).
Proof.
  induction l as [|s l IH]; simpl; [done|]. intros [Hs Hl]%secs_wf_cons.
  destruct (contains (range s) a).
  - eapply ends_bind; [apply fill_keeps; [apply Hs|apply run_index_nonneg]|].
    intros bm Hbm. simpl. by apply secs_keep_head.
  - eapply ends_bind; [by apply IH|]. intros [r l'] ?. simpl. by apply secs_keep_tail.
Qed.

Lemma release_loop_keeps l a n :
  secs_wf l -> ends (fun '(_, l') => secs_keep l l') (release_loop l a n).
Proof.
  induction l as [|s l IH]; simpl; [done|]. intros [Hs Hl]%secs_wf_cons.
  destruct (contains (range s) a).
  - eapply ends_bind; [apply fill_inverse_loop_keeps, Hs|]. intros [r bm] Hbm.
    destruct (is_error r); simpl; [done|]. by apply secs_keep_head.
  - eapply ends_bind; [by apply IH|]. intros [r l'] ?. simpl. by apply secs_keep_tail.
Qed.

Lemma section_alloc_keeps s n :
  sec_wf s ->
  ends (fun '(_, s') => range s' = range s /\ Bitmap.keeps (bitmap s) (bitmap s')) (section_alloc s n).
Proof.
  intros Hs. unfold section_alloc. eapply ends_bind; [apply alloc_keeps, Hs|].
  intros [[st|m] bm] [Hbm Hst]; [|done].
  eapply ends_bind; [apply fill_keeps; [apply Hbm|by apply Hst]|].
  intros bm' Hbm'. simpl. split; [done|]. by eapply Bitmap.keeps_trans.
Qed.

Lemma section_alloc_head s s' l :
  range s' = range s -> Bitmap.keeps (bitmap s) (bitmap s') -> secs_keep (s :: l) (s' :: l).
Proof. destruct s' as [r bm]. simpl. intros -> ?. by apply secs_keep_head. Qed.

Lemma allocate_up_keeps l n :
  secs_wf l -> ends (fun '(_, l') => secs_keep l l') (allocate_up l n).
Proof.
  induction l as [|s l IH]; simpl; [done|]. intros Hsl. pose proof Hsl as [Hs Hl]%secs_wf_cons.
  eapply ends_bind; [by apply section_alloc_keeps|]. intros [[a|] s'] [Hr Hk]; simpl.
  - by apply section_alloc_head.
  - eapply ends_bind; [by apply IH|]. intros [r l'] Hl'. simpl.
    eapply secs_keep_trans; [done|by apply section_alloc_head|]. by apply secs_keep_tail.
Qed.

Lemma allocate_down_keeps l n :
  secs_wf l -> ends (fun '(_, l') => secs_keep l l') (allocate_down l n).
Proof.
  induction l as [|s l IH]; simpl; [done|]. intros Hsl. pose proof Hsl as [Hs Hl]%secs_wf_cons.
  eapply ends_bind; [by apply IH|]. intros [[a|] l'] Hl'; simpl; [by apply secs_keep_tail|].
  eapply ends_bind; [by apply section_alloc_keeps|]. intros [r s'] [Hr Hk]. simpl.
  eapply secs_keep_trans; [done|by apply secs_keep_tail|]. by apply section_alloc_head.
Qed.

Lemma own_keeps p a n : pmm_wf p -> ends (fun '(_, p') => pmm_wf p') (own p a n).
Proof.
  intros Hp. unfold own. eapply ends_bind; [by apply own_loop_keeps|].
  intros [r l] Hl. simpl. by eapply secs_keep_wf.
Qed.

Lemma release_keeps p a n : pmm_wf p -> ends (fun '(_, p') => pmm_wf p') (release p a n).
Proof.
  intros Hp. unfold release. eapply ends_bind; [by apply release_loop_keeps|].
  intros [r l] Hl. simpl. by eapply secs_keep_wf.
Qed.

Lemma allocate_keeps p n lower : pmm_wf p -> ends (fun '(_, p') => pmm_wf p') (allocate p n lower).
Proof.
  intros Hp. unfold allocate.
  eapply (ends_bind (fun '(_, l) => secs_wf l)).
  - destruct lower; [|done]. eapply ends_impl; [by apply allocate_up_keeps|].
    intros [r l]. by apply secs_keep_wf.
  - intros [[a|] l] Hl; [done|]. eapply ends_bind; [by apply allocate_down_keeps|].
    intros [[a|] l'] Hl'; simpl; by eapply secs_keep_wf.
Qed.

(** * Properties *)

(** C26: [Pmm::allocate] is total; on success the [n] pages from the returned
    page-aligned address lie in one section, were all free and are now all in
    use, and no other page changes; on failure no page changes and no section
    holds [n] consecutive free pages. *)
Theorem pmm_allocate_correct (p : Pmm) (n : Z) (lower : bool) :
  pmm_wf p -> 0 < n ->
  exists r p', allocate p n lower = Ret (r, p') /\ pmm_wf p' /\
    match r with
    | Value a => (4096 | a) /\ run_in_section p a n /\
        forall x, pmm_page p' x = (if in_run a n x then Some true else pmm_page p x) /\
                  (in_run a n x = true -> pmm_page p x = Some false)
    | Error _ => (forall x, pmm_page p' x = pmm_page p x) /\
        forall s k, s ∈ _sections p -> ~ free_run (bitmap s) k n
    end.
Proof.
  intros Hwf Hn. destruct (allocate_post p n lower Hwf Hn) as (r & l & -> & Hpost).
  eexists _, _. split; [done|]. split; [by eapply alloc_post_wf|].
  destruct r; destruct Hpost as (_ & _ & Hres); [by destruct Hres as (? & ? & ?)|done].
Qed.

(** A part of what [allocate] returned is released. *)
Lemma release_part_of_allocated (p p' : Pmm) (n m a : Z) (lower : bool) :
  pmm_wf p -> 0 < m <= n -> allocate p n lower = Ret (Value a, p') ->
  exists p'', release p' a m = Ret (Value tt, p'') /\ pmm_wf p'' /\
    forall x, (in_run a n x = true -> pmm_page p x = Some false) /\
      pmm_page p'' x = if in_run a n x then Some (negb (in_run a m x)) else pmm_page p x.
Proof.
  intros Hwf Hm Ha. destruct (allocate_post p n lower Hwf ltac:(lia)) as (r & l & E & Hpost).
  rewrite Ha in E. injection E as Er ->. destruct r as [a'|]; [|done].
  injection Er as <-. pose proof (alloc_post_wf _ _ _ _ Hwf Hpost) as Hwf'.
  destruct Hpost as (_ & Hr & Hal & Hf & Hin).
  assert (forall x, in_run a m x = true -> in_run a n x = true) as Hsub.
  { intros x. rewrite !in_run_iff. lia. }
  assert (run_in_section (set_sections p l) a m) as Hin'.
  { apply run_in_section_ranges; [done|]. destruct Hin as (s & Hs & H1 & H2). exists s. split; [done|lia]. }
  destruct (release_run (set_sections p l) a m Hwf' ltac:(lia) Hal Hin') as (p'' & E & Hwf'' & Hp'').
  { intros x Hx%Hsub. destruct (Hf x) as [Hx1 _]. by rewrite Hx in Hx1. }
  exists p''. split; [done|]. split; [done|]. intros x. destruct (Hf x) as [Hx1 Hx2]. split; [exact Hx2|].
  rewrite Hp''. unfold pmm_page in *. simpl. specialize (Hsub x). destruct (in_run a m x); simpl.
  - by rewrite Hsub.
  - rewrite Hx1. by destruct (in_run a n x).
Qed.

(** What [allocate] returned is released. *)
Lemma release_after_allocate (p p' : Pmm) (n a : Z) (lower : bool) :
  pmm_wf p -> 0 < n -> allocate p n lower = Ret (Value a, p') ->
  exists p'', release p' a n = Ret (Value tt, p'') /\ pmm_wf p'' /\
    (forall x, pmm_page p'' x = pmm_page p x) /\ release p'' a n = Trap.
Proof.
  intros Hwf Hn Ha. destruct (allocate_post p n lower Hwf Hn) as (r & l & E & Hpost).
  rewrite Ha in E. injection E as Er ->. destruct r as [a'|]; [|done].
  injection Er as <-. pose proof (alloc_post_wf _ _ _ _ Hwf Hpost) as Hwf'.
  destruct Hpost as (_ & Hr & Hal & Hf & Hin).
  assert (run_in_section (set_sections p l) a n) as Hin' by by apply run_in_section_ranges.
  destruct (release_run (set_sections p l) a n Hwf' Hn Hal Hin') as (p'' & E & Hwf'' & Hp'').
  { intros x Hx. destruct (Hf x) as [Hx1 _]. by rewrite Hx in Hx1. }
  assert (exists l'', p'' = set_sections (set_sections p l) l'' /\ range <$> l'' = range <$> l)
    as (l'' & -> & Hr'').
  { unfold release in E. destruct (release_loop _ a n) as [[r l'']| |] eqn:El; simplify_eq/=.
    exists l''. split; [done|]. by eapply release_loop_ranges. }
  eexists. split; [done|]. split; [done|]. split.
  - intros x. rewrite Hp''. destruct (Hf x) as [Hx1 Hx2]. unfold pmm_page in *. simpl.
    destruct (in_run a n x); [by rewrite Hx2|done].
  - apply (release_free_run _ a n a); [done..| | |].
    + apply run_in_section_ranges; [done|]. done.
    + apply in_run_iff. lia.
    + rewrite Hp''. rewrite (proj2 (in_run_iff a n a)); [done|lia].
Qed.

(** C27: releasing what [allocate] returned succeeds and restores the state of
    every page; releasing it a second time executes [unreachable$()]. *)
Theorem pmm_release_undoes_allocate (p p' : Pmm) (n a : Z) (lower : bool) :
  pmm_wf p -> 0 < n -> allocate p n lower = Ret (Value a, p') ->
  exists p'', release p' a n = Ret (Value tt, p'') /\ pmm_wf p'' /\
    (forall x, pmm_page p'' x = pmm_page p x) /\ release p'' a n = Trap.
Proof. apply release_after_allocate. Qed.

(** * One page *)

Lemma in_run_1 a x : (4096 | a) -> (4096 | x) -> in_run a 1 x = true <-> x = a.
Proof. intros [q ->] [k ->]. rewrite in_run_iff. lia. Qed.

(** A page is in use or free as a whole. *)
Lemma pmm_page_run p a x : pmm_wf p -> (4096 | a) -> in_run a 1 x = true -> pmm_page p x = pmm_page p a.
Proof.
  intros [Hw _] [q Hq] Hx%in_run_iff. unfold pmm_page. induction Hw as [|s l Hs Hl IH]; [done|].
  simpl. destruct Hs as (_ & Hs0 & [k Hk] & He & _).
  assert (contains (range s) x = contains (range s) a) as ->.
  { apply eq_true_iff_eq. rewrite !contains_iff. lia. }
  rewrite IH. destruct (contains (range s) a); [|done]. unfold sec_page.
  assert ((x - start (range s)) / 4096 = (a - start (range s)) / 4096) as ->; [|done].
  Z.to_euclidean_division_equations. lia.
Qed.

Lemma run_in_section_1 p a b :
  pmm_wf p -> (4096 | a) -> pmm_page p a = Some b -> run_in_section p a 1 /\ 0 <= a < 2 ^ 64.
Proof.
  intros [Hw _] [q Hq] Hp. apply page_state_is_Some in Hp as (s & Hs & Hc%contains_iff).
  rewrite Forall_forall in Hw. destruct (Hw s Hs) as (_ & H0 & [k Hk] & He & H1).
  split; [|lia]. exists s. split; [done|]. lia.
Qed.

(** No page is free. *)
Definition full (p : Pmm) : Prop := forall x, pmm_page p x <> Some false.

Lemma no_free_run_full p :
  pmm_wf p -> (forall s k, s ∈ _sections p -> ~ free_run (bitmap s) k 1) -> full p.
Proof.
  intros [Hw Hd] Hno x Hx. destruct (page_state_is_Some _ _ _ Hx) as (s & Hs & Hc).
  unfold pmm_page in Hx. rewrite (page_state_contains _ _ _ Hd Hs Hc) in Hx. injection Hx as Hx.
  rewrite Forall_forall in Hw. destruct (page_index s x (Hw s Hs) Hc) as [Hk _].
  apply (Hno s ((x - start (range s)) / 4096) Hs). split; [lia|]. split; [lia|].
  intros j Hj. by replace j with ((x - start (range s)) / 4096) by lia.
Qed.

Lemma allocate_one p lower :
  pmm_wf p -> exists r p', allocate p 1 lower = Ret (r, p') /\ pmm_wf p' /\
    match r with
    | Value a => (4096 | a) /\ 0 <= a < 2 ^ 64 /\ pmm_page p a = Some false /\
        forall x, pmm_page p' x = if in_run a 1 x then Some true else pmm_page p x
    | Error _ => full p' /\ forall x, pmm_page p' x = pmm_page p x
    end.
Proof.
  intros Hwf. destruct (allocate_post p 1 lower Hwf ltac:(lia)) as (r & l & -> & Hpost).
  eexists _, _. split; [done|]. split; [by eapply alloc_post_wf|].
  destruct Hpost as (_ & _ & H). destruct r as [a|]; simpl.
  2:{ destruct H as [Heq Hno]. split; [|exact Heq]. intros x. unfold pmm_page. simpl. rewrite Heq.
      by apply no_free_run_full. }
  destruct H as (Ha & Hf & _). destruct (Hf a) as [_ Hfree].
  specialize (Hfree (proj2 (in_run_1 a a Ha Ha) eq_refl)).
  destruct (run_in_section_1 p a false Hwf Ha Hfree) as [_ Hr].
  split; [done|]. split; [done|]. split; [done|]. intros x. apply Hf.
Qed.

Lemma release_one p a :
  pmm_wf p -> (4096 | a) -> pmm_page p a = Some true ->
  exists p', release p a 1 = Ret (Value tt, p') /\ pmm_wf p' /\
    forall x, pmm_page p' x = if in_run a 1 x then Some false else pmm_page p x.
Proof.
  intros Hwf Ha Hp. destruct (run_in_section_1 p a true Hwf Ha Hp) as [Hs _].
  apply release_run; [done|lia|done|done|]. intros x Hx. by rewrite (pmm_page_run p a x).
Qed.

(** * Witnesses *)

(** Eight pages from 0x8000, the first one in use. *)
Definition small_pmm : Pmm :=
  mk_Pmm (Range.mk_Range 32768 36864)
    [mk_PmmSection (Range.mk_Range 32768 65536) (Bitmap_of [1])] 0 (mk_MachineContext []).

Lemma small_pmm_wf : pmm_wf small_pmm.
Proof.
  split; [|by split; [constructor|]]. apply Forall_singleton.
  split; [split; simpl; [apply Forall_singleton|]; lia|]. split; [simpl; lia|].
  split; [by exists 8|]. split; [reflexivity|simpl; lia].
Qed.

Lemma pmm_allocate_correct_witness :
  pmm_wf small_pmm /\
  exists r p', allocate small_pmm 3 true = Ret (r, p') /\ pmm_wf p' /\
    match r with
    | Value a => (4096 | a) /\ run_in_section small_pmm a 3 /\
        forall x, pmm_page p' x = (if in_run a 3 x then Some true else pmm_page small_pmm x) /\
                  (in_run a 3 x = true -> pmm_page small_pmm x = Some false)
    | Error _ => (forall x, pmm_page p' x = pmm_page small_pmm x) /\
        forall s k, s ∈ _sections small_pmm -> ~ free_run (bitmap s) k 3
    end.
Proof.
  split; [exact small_pmm_wf|]. apply (pmm_allocate_correct small_pmm 3 true); [exact small_pmm_wf|lia].
Defined.

Lemma pmm_release_undoes_allocate_witness :
  exists p' p'', allocate small_pmm 3 true = Ret (Value 36864, p') /\
    release p' 36864 3 = Ret (Value tt, p'') /\ pmm_wf p'' /\
    (forall x, pmm_page p'' x = pmm_page small_pmm x) /\ release p'' 36864 3 = Trap.
Proof.
  assert (exists p', allocate small_pmm 3 true = Ret (Value 36864, p')) as [p' E]
    by (eexists; vm_compute; reflexivity).
  destruct (pmm_release_undoes_allocate small_pmm p' 3 36864 true small_pmm_wf eq_refl E)
    as (p'' & ?). by exists p', p''.
Defined.
