(* ===== verification/Paging.v ===== *)
(** arch/x86_64/paging.hpp, kernel/generic/paging.hpp and kernel/x86_64/paging.cpp:
    page tables of four levels, their entries, and the translations of an
    address space.

    Page tables lie in physical memory, which the kernel reads and writes
    through its direct mapping: a pointer to a table is written as the physical
    address of the table, and [tables] gives the 512 entries of each page that
    has been used as one. The [_self] of a [VmmSpace] is the address of its top
    table. Tables come from the [Pmm] and go back to it. *)

From stdpp Require Import gmap.
From S2P Require Import Prelude Range.
From S2P Require Pmm.

Definition PAGE_SIZE : Z := 4096.
Definition PAGE_TABLE_SIZE : nat := 512.

(** * hw/mem/addr_space.hpp: the direct mapping *)

Definition MMAP_IO_BASE : Z := 0xffff800000000000.
Definition toPhys (addr : Z) : Z := u64 (addr - MMAP_IO_BASE).
Definition toVirt (addr : Z) : Z := u64 (addr + MMAP_IO_BASE).
Definition toVirtRange (r : Range) : Range := mk_Range (toVirt (start r)) (toVirt (end_ r)).

(** * Entries *)

(** The packed bit fields, from the lowest bit on. *)
Record Page := mk_Page {
  _present : bool;
  _writeable : bool;
  _user : bool;
  _write_through : bool;
  _cache_disabled : bool;
  _accessed : bool;
  _dirty : bool;
  _huge_page : bool;
  _global : bool;
  _available : Z;
  _address : Z
}.

#[global] Instance Page_eq_dec : EqDecision Page.
Proof. solve_decision. Defined.

(** [Page{}] *)
Definition Page_empty : Page :=
  mk_Page false false false false false false false false false 0 0.

(** [address()] and [address(addr)]; [_address] has 52 bits. *)
Definition address (p : Page) : Z := u64 (Z.shiftl (_address p) 12).
Definition set_address (p : Page) (addr : Z) : Page :=
  mk_Page (_present p) (_writeable p) (_user p) (_write_through p) (_cache_disabled p) (_accessed p)
    (_dirty p) (_huge_page p) (_global p) (_available p) (wrapu 52 (Z.shiftr addr 12)).

(** The five writes [PageTable::map] makes to an entry above the leaves, but
    for the address. *)
Definition set_flags (p : Page) (present writeable user write_through cache_disabled : bool) : Page :=
  mk_Page present writeable user write_through cache_disabled (_accessed p) (_dirty p)
    (_huge_page p) (_global p) (_available p) (_address p).

(** kernel/generic/paging.hpp; its constructor leaves the fields as they are. *)
Record PageFlags := mk_PageFlags {
  f_present : bool;
  f_writeable : bool;
  f_executable : bool;
  f_user : bool;
  f_write_through : bool;
  f_cache_disable : bool
}.

Definition page_create (flags : PageFlags) (addr : Z) : Page :=
  set_address
    (mk_Page true (f_writeable flags) (f_user flags) (f_write_through flags) (f_cache_disable flags)
       false false false false 0 0) addr.

(** * Memory *)

(** The page tables and the allocator they come from. *)
Record mem := mk_mem { tables : gmap Z (list Page); pmm : Pmm.Pmm }.

Definition set_table (a : Z) (l : list Page) (m : mem) : mem :=
  mk_mem (<[a := l]> (tables m)) (pmm m).
Definition set_pmm (m : mem) (p : Pmm.Pmm) : mem := mk_mem (tables m) p.

(** [entries[i]] of the table at [t], read and written. *)
Definition page (m : mem) (t i : Z) : ctl Page :=
  l ← deref (tables m !! t); deref (aget l i).
Definition set_page (t i : Z) (p : Page) (m : mem) : ctl mem :=
  l ← deref (tables m !! t); l ← deref (aset l i p); Ret (set_table t l m).

(** * PageTable<level> *)

Definition index (level : nat) (addr : Z) : Z :=
  let shift := 12 + (Z.of_nat level - 1) * 9 in
  Z.shiftr (Z.land addr (Z.shiftl 0x1ff shift)) shift.

(** [fill] and [clear] *)
Definition fill (t : Z) (p : Page) (m : mem) : mem := set_table t (replicate PAGE_TABLE_SIZE p) m.
Definition clear (t : Z) (m : mem) : mem := fill t Page_empty m.

(** The entry of [map] above the leaves, made to lead to a table. *)
Definition map_entry (t i : Z) (new : Page) (m : mem) : ctl (result unit * mem) :=
  entry ← page m t i;
  if negb (_present entry) then
    '(r, p) ← Pmm.allocate (pmm m) 1 false;
    let m := set_pmm m p in
    match r with
    | Error e => Ret (Error e, m)
    | Value addr =>
        m ← set_page t i
              (set_address (set_flags entry true (_writeable new) (_user new) (_write_through new)
                              (_cache_disabled new)) addr) (clear addr m);
        Ret (Value tt, m)
    end
  else
    m ← set_page t i
          (set_flags entry true (_writeable new || _writeable entry) (_user new || _user entry)
             (_write_through new || _write_through entry)
             (_cache_disabled new || _cache_disabled entry)) m;
    Ret (Value tt, m).

Fixpoint table_map (level : nat) (t vaddr : Z) (new : Page) (m : mem) : ctl (result unit * mem) :=
  match level with
  | O => Trap
  | 1%nat => m ← set_page t (index 1 vaddr) new m; Ret (Value tt, m)
  | S below =>
      '(r, m) ← map_entry t (index level vaddr) new m;
      match r with
      | Error e => Ret (Error e, m)
      | Value _ =>
          entry ← page m t (index level vaddr);
          table_map below (address entry) vaddr new m
      end
  end.

(** Is one of the 512 entries of the table at [t] present? *)
Definition any_present (m : mem) (t : Z) : ctl bool :=
  l ← deref (tables m !! t); Ret (existsb _present (take PAGE_TABLE_SIZE l)).

(** The error of the [Pmm] is not looked at. *)
Fixpoint table_unmap (level : nat) (t vaddr : Z) (user : bool) (m : mem) : ctl (result unit * mem) :=
  match level with
  | O => Trap
  | 1%nat => m ← set_page t (index 1 vaddr) Page_empty m; Ret (Value tt, m)
  | S below =>
      let i := index level vaddr in
      entry ← page m t i;
      if negb (_present entry) then Ret (Error "Page not present", m)
      else if user && negb (_user entry) then Ret (Error "Page not user accessible", m)
      else
        '(r, m) ← table_unmap below (address entry) vaddr user m;
        match r with
        | Error e => Ret (Error e, m)
        | Value _ =>
            entry ← page m t i;
            b ← any_present m (address entry);
            if (b : bool) then Ret (Value tt, m)
            else
              '(_, p) ← Pmm.release (pmm m) (address entry) 1;
              m ← set_page t i Page_empty (set_pmm m p);
              Ret (Value tt, m)
        end
  end.

(** The three tests [_verify] and [physical_addr] make on each entry. *)
Definition page_error (p : Page) : option string :=
  if negb (_present p) then Some "Page not present"%string
  else if negb (_user p) then Some "Page not user accessible"%string
  else if negb (_writeable p) then Some "Page is not writable"%string
  else None.

Fixpoint _verify (level : nat) (t addr : Z) (m : mem) : ctl (result unit) :=
  match level with
  | O => Trap
  | S below =>
      p ← page m t (index level addr);
      match page_error p with
      | Some e => Ret (Error e)
      | None => match below with O => Ret (Value tt) | _ => _verify below (address p) addr m end
      end
  end.

Fixpoint physical_addr (level : nat) (t addr : Z) (m : mem) : ctl (result Z) :=
  match level with
  | O => Trap
  | S below =>
      p ← page m t (index level addr);
      match page_error p with
      | Some e => Ret (Error e)
      | None =>
          match below with
          | O => Ret (Value (u64 (address p + addr mod PAGE_SIZE)))
          | _ => physical_addr below (address p) addr m
          end
      end
  end.

(** The loop of [verify], over the [n] pages from [i] on. *)
Fixpoint verify_loop (n : nat) (level : nat) (t i : Z) (m : mem) : ctl (result unit) :=
  match n with
  | O => Ret (Value tt)
  | S n =>
      r ← _verify level t i m;
      match r with
      | Error e => Ret (Error e)
      | Value _ => verify_loop n level t (u64 (i + PAGE_SIZE)) m
      end
  end.

Definition table_verify (level : nat) (t vaddr size : Z) (m : mem) : ctl (result unit) :=
  let begin := alignDown vaddr PAGE_SIZE in
  let end_ := alignUp (u64 (begin + size)) PAGE_SIZE in
  verify_loop (Z.to_nat ((end_ - begin) / PAGE_SIZE)) level t begin m.

(** * VmmSpace *)

(** The loop of [map], over the [n] pages [i], [i + 1], ... of the range. *)
Fixpoint map_loop (n : nat) (self virt phys i : Z) (flags : PageFlags) (m : mem) :
    ctl (result unit * mem) :=
  match n with
  | O => Ret (Value tt, m)
  | S n =>
      '(r, m) ← table_map 4 self (u64 (virt + i)) (page_create flags (u64 (phys + i))) m;
      match r with
      | Error e => Ret (Error e, m)
      | Value _ => map_loop n self virt phys (i + PAGE_SIZE) flags m
      end
  end.

Definition map (self : Z) (virt phys : Range) (flags : PageFlags) (m : mem) : ctl (result unit * mem) :=
  if negb (len virt =? len phys)
  then Ret (Error "Virtual and physical ranges must be of equal length", m)
  else if negb (len virt mod PAGE_SIZE =? 0)
  then Ret (Error "Virtual and physical ranges must be page aligned", m)
  else map_loop (Z.to_nat (len virt / PAGE_SIZE)) self (start virt) (start phys) 0 flags m.

Fixpoint unmap_loop (n : nat) (self virt i : Z) (user : bool) (m : mem) : ctl (result unit * mem) :=
  match n with
  | O => Ret (Value tt, m)
  | S n =>
      '(r, m) ← table_unmap 4 self (u64 (virt + i)) user m;
      match r with
      | Error e => Ret (Error e, m)
      | Value _ => unmap_loop n self virt (i + PAGE_SIZE) user m
      end
  end.

Definition unmap (self : Z) (virt : Range) (user : bool) (m : mem) : ctl (result unit * mem) :=
  if negb (len virt mod PAGE_SIZE =? 0) || negb (start virt mod PAGE_SIZE =? 0)
  then Ret (Error "Virtual and physical ranges must be page aligned", m)
  else unmap_loop (Z.to_nat (len virt / PAGE_SIZE)) self (start virt) 0 user m.

(** [kernel_root]: [kernel_space]. The entries from 255 on are those of the
    kernel. *)
Definition create (kernel_root : Z) (empty : bool) (m : mem) : ctl (result Z * mem) :=
  '(r, p) ← Pmm.allocate (pmm m) 1 true;
  let m := set_pmm m p in
  match r with
  | Error e => Ret (Error e, m)
  | Value root =>
      if empty then Ret (Value root, clear root m)
      else
        l ← deref (tables m !! kernel_root);
        Ret (Value root,
             set_table root (replicate 255 Page_empty ++ take (PAGE_TABLE_SIZE - 255) (drop 255 l)) m)
  end.

Definition verify (self virt size : Z) (m : mem) : ctl (result unit) := table_verify 4 self virt size m.

Definition get_phys (self virt : Z) (m : mem) : ctl (result Z) := physical_addr 4 self virt m.

(** * kernel/generic/paging.cpp: the address space of the kernel *)

Section kernel_space.
Context (kernel_virtual_base kernel_physical_base : Z).

(** kernel/generic/mem.hpp *)
Definition toKernel (addr : Z) : Z := u64 (u64 (addr + kernel_virtual_base) - kernel_physical_base).
Definition toKernelRange (r : Range) : Range := from_begin_len (toKernel (start r)) (len r).

(** [flags]: what the fields of a [PageFlags] the code does not set hold. *)
Context (write_through cache_disable executable : bool).

Definition kernel_flags : PageFlags :=
  mk_PageFlags true true executable false write_through cache_disable.

Fixpoint kernel_map_loop (self : Z) (l : list Pmm.MemoryMap) (m : mem) : ctl (result unit * mem) :=
  match l with
  | [] => Ret (Value tt, m)
  | entry :: l =>
      let entry_phys := Pmm.mm_range entry in
      '(r, m) ← map self (toVirtRange entry_phys) entry_phys kernel_flags m;
      match r with
      | Error e => Ret (Error e, m)
      | Value _ =>
          '(r, m) ← (if bool_decide (Pmm.mm_type entry = Pmm.KERNEL_AND_MODULES) &&
                        (start entry_phys <? 2 ^ 32)
                     then map self (toKernelRange entry_phys) entry_phys kernel_flags m
                     else Ret (Value tt, m));
          match r with
          | Error e => Ret (Error e, m)
          | Value _ => kernel_map_loop self l m
          end
      end
  end.

(** The result of the first [map] is not looked at. *)
Definition kernel_initialize (ctx : Pmm.MachineContext) (m : mem) : ctl (result Z * mem) :=
  '(r, m) ← create 0 true m;
  match r with
  | Error e => Ret (Error e, m)
  | Value self =>
      '(_, m) ← map self (mk_Range (toVirt 0x1000) (toVirt 0x100000000))
                  (mk_Range 0x1000 0x100000000) kernel_flags m;
      '(r, m) ← kernel_map_loop self (Pmm._memory_map ctx) m;
      match r with
      | Error e => Ret (Error e, m)
      | Value _ => Ret (Value self, m)
      end
  end.
End kernel_space.
