(* ===== verification/PagingSpec.v ===== *)
(** Page tables implement a map: from pages to frames and rights, one map for
    each address space, with the kernel half shared. *)

From stdpp Require Import gmap.
From S2P Require Import Prelude Range.
From S2P Require Pmm.
From S2P Require Import Paging.

(** * Entries *)

Lemma address_set_address p a : (4096 | a) -> 0 <= a < 2 ^ 64 -> address (set_address p a) = a.
Proof.
  intros [q ->] Ha. unfold address, set_address. cbn [_address].
  rewrite Z.shiftr_div_pow2, Z.shiftl_mul_pow2 by lia. change (2 ^ 12) with 4096.
  rewrite Z.div_mul by lia. rewrite (wrapu_small 52) by lia. rewrite wrapu_small; lia.
Qed.

Lemma index_div level a : (0 < level)%nat -> 0 <= a ->
  index level a = (a / 2 ^ (12 + 9 * (Z.of_nat level - 1))) mod 512.
Proof.
  intros Hl Ha. unfold index. replace ((Z.of_nat level - 1) * 9) with (9 * (Z.of_nat level - 1)) by lia.
  set (k := 12 + _). assert (0 <= k) as Hk by lia.
  rewrite Z.shiftr_land, Z.shiftr_shiftl_l, Z.sub_diag, Z.shiftl_0_r by lia.
  rewrite Z.shiftr_div_pow2 by lia. change 0x1ff with (Z.ones 9). by rewrite Z.land_ones by lia.
Qed.

Lemma index_range level a : (0 < level)%nat -> 0 <= a -> 0 <= index level a < 512.
Proof. intros. rewrite index_div by done. apply Z.mod_pos_bound. lia. Qed.

(** * The walk *)

(** [entries[i]] of the table at [t]. *)
Definition entry (m : mem) (t i : Z) : option Page := l ← tables m !! t; aget l i.

Lemma page_entry m t i : page m t i = deref (entry m t i).
Proof. unfold page, entry. by destruct (tables m !! t). Qed.

(** The leaf the processor finds for [va], from a table of the given level. *)
Fixpoint mapping (level : nat) (t va : Z) (m : mem) : option Page :=
  match level with
  | O => None
  | S below =>
      p ← entry m t (index level va);
      if _present p then match below with O => Some p | _ => mapping below (address p) va m end
      else None
  end.

Lemma mapping_1 t va m :
  mapping 1 t va m = (p ← entry m t (index 1 va); if _present p then Some p else None).
Proof. done. Qed.

Lemma mapping_S l t va m :
  mapping (S (S l)) t va m =
    (p ← entry m t (index (S (S l)) va); if _present p then mapping (S l) (address p) va m else None).
Proof. done. Qed.

Lemma mapping_set_pmm l t va m p : mapping l t va (set_pmm m p) = mapping l t va m.
Proof.
  revert t. induction l as [|[|l] IH]; intros t; [done|done|]. rewrite !mapping_S.
  change (entry (set_pmm m p)) with (entry m). destruct (entry m t _) as [q|]; [|done].
  cbn [mbind option_bind]. destruct (_present q); [apply IH|done].
Qed.

#[local] Opaque mapping.

Lemma mapping_present level t va m p : mapping level t va m = Some p -> _present p = true.
Proof.
  revert t. induction level as [|[|l] IH]; intros t; [done|rewrite mapping_1|rewrite mapping_S].
  - destruct (entry m t _) as [q|]; [|done]. simpl. destruct (_present q) eqn:E; [|done].
    by intros [= <-].
  - destruct (entry m t _) as [q|]; [|done]. simpl. destruct (_present q); [|done]. apply IH.
Qed.

(** * What a table is for *)

(** The address space it belongs to, its level, and the indices that lead to
    it. The tables of the kernel half belong to the kernel space. *)
Record role := mk_role { owner : Z; level : nat; path : list Z }.

#[global] Instance role_eq_dec : EqDecision role.
Proof. solve_decision. Defined.

Section roles.
Context (kr : Z).

Definition home (r : role) (i : Z) : Z := if bool_decide (level r = 4%nat /\ 255 <= i) then kr else owner r.

Definition child_role (r : role) (i : Z) : role :=
  mk_role (home r i) (pred (level r)) (path r ++ [i]).

(** [p] gives at least the rights of [q]. *)
Definition dominates (p q : Page) : Prop :=
  (_user q = true -> _user p = true) /\ (_writeable q = true -> _writeable p = true).

Definition is_root (roles : gmap Z role) (t : Z) : Prop := roles !! t = Some (mk_role t 4 []).

Record mem_wf (roles : gmap Z role) (m : mem) : Prop := mk_mem_wf {
  wf_pmm : Pmm.pmm_wf (pmm m);
  wf_table : forall t r, roles !! t = Some r ->
    (1 <= level r <= 4)%nat /\ exists l, tables m !! t = Some l /\ length l = PAGE_TABLE_SIZE;
  wf_used : forall t r, roles !! t = Some r ->
    Pmm.pmm_page (pmm m) t = Some true /\ (4096 | t) /\ 0 <= t < 2 ^ 64;
  wf_root : forall t r, roles !! t = Some r -> level r = 4%nat -> r = mk_role t 4 [];
  wf_child : forall t r i p, roles !! t = Some r -> (2 <= level r)%nat -> entry m t i = Some p ->
    _present p = true -> roles !! address p = Some (child_role r i);
  wf_parent : forall t r, roles !! t = Some r -> (level r < 4)%nat -> exists t0 r0 i p,
    roles !! t0 = Some r0 /\ owner r0 = owner r /\ (2 <= level r0)%nat /\ child_role r0 i = r /\
    entry m t0 i = Some p /\ _present p = true /\ address p = t;
  wf_inj : forall t t' r, roles !! t = Some r -> roles !! t' = Some r -> t = t';
  wf_rights : forall t r i p j q, roles !! t = Some r -> (2 <= level r)%nat -> home r i <> kr ->
    entry m t i = Some p -> _present p = true -> entry m (address p) j = Some q ->
    _present q = true -> dominates p q
}.

(** ** Writing an entry *)

Record wrote (t i : Z) (p : Page) (m m' : mem) : Prop := mk_wrote {
  wrote_entry : forall t' j, entry m' t' j = if decide (t' = t /\ j = i) then Some p else entry m t' j;
  wrote_tables : forall t' l, tables m !! t' = Some l ->
    exists l', tables m' !! t' = Some l' /\ length l' = length l;
  wrote_pmm : pmm m' = pmm m
}.

Lemma entry_known roles m t r i :
  mem_wf roles m -> roles !! t = Some r -> 0 <= i < 512 -> exists p, entry m t i = Some p.
Proof.
  intros Hwf Ht Hi. destruct (wf_table _ _ Hwf t r Ht) as (_ & l & Hl & Hlen). unfold entry. rewrite Hl.
  apply aget_in_range. rewrite Hlen. unfold PAGE_TABLE_SIZE. lia.
Qed.

Lemma entry_index m t i p : entry m t i = Some p -> 0 <= i.
Proof. unfold entry. destruct (tables m !! t); [|done]. simpl. intros H%aget_Some_range. lia. Qed.

Lemma set_page_wrote m t i p l :
  tables m !! t = Some l -> length l = PAGE_TABLE_SIZE -> 0 <= i < 512 ->
  exists m', set_page t i p m = Ret m' /\ wrote t i p m m'.
Proof.
  intros Hl Hlen Hi. assert (0 <= i < zlen l) as Hi' by (rewrite Hlen; unfold PAGE_TABLE_SIZE; lia).
  exists (set_table t (<[Z.to_nat i := p]> l) m). split.
  { unfold set_page. rewrite Hl. cbn [deref mbind ctl_bind]. by rewrite aset_in_range. }
  split; [| |done].
  - intros t' j. unfold entry, set_table. cbn [tables]. destruct (decide (t' = t)) as [->|Ht].
    + rewrite lookup_insert_eq, Hl. cbn [mbind option_bind].
      rewrite (aget_aset l _ i j p (aset_in_range l i p Hi')).
      destruct (decide (j = i)); [rewrite decide_True by done|rewrite decide_False by naive_solver]; done.
    + rewrite lookup_insert_ne by done. by rewrite decide_False by naive_solver.
  - intros t' l' Hl'. unfold set_table. cbn [tables]. destruct (decide (t' = t)) as [->|Ht].
    + rewrite lookup_insert_eq. eexists. split; [done|]. rewrite length_insert. congruence.
    + rewrite lookup_insert_ne by done. by exists l'.
Qed.

Lemma set_page_known roles m t r i p :
  mem_wf roles m -> roles !! t = Some r -> 0 <= i < 512 ->
  exists m', set_page t i p m = Ret m' /\ wrote t i p m m'.
Proof.
  intros Hwf Ht Hi. destruct (wf_table _ _ Hwf t r Ht) as (_ & l & Hl & Hlen).
  by eapply set_page_wrote.
Qed.

(** The entries that lead to [t] give at least the rights of [q]. *)
Definition parents_allow (roles : gmap Z role) (m : mem) (t : Z) (q : Page) : Prop :=
  forall t0 r0 j p, roles !! t0 = Some r0 -> (2 <= level r0)%nat -> home r0 j <> kr ->
    entry m t0 j = Some p -> _present p = true -> address p = t -> dominates p q.

Lemma dominates_refl p : dominates p p.
Proof. by split. Qed.

Lemma dominates_trans p q r : dominates p q -> dominates q r -> dominates p r.
Proof. unfold dominates. naive_solver. Qed.

(** A table and the tables its entries lead to are not the same. *)
Lemma child_ne roles m t r i p :
  mem_wf roles m -> roles !! t = Some r -> (2 <= level r)%nat -> entry m t i = Some p ->
  _present p = true -> address p <> t.
Proof.
  intros Hwf Ht Hl Hp Hpr E. pose proof (wf_child _ _ Hwf t r i p Ht Hl Hp Hpr) as Hc.
  rewrite E in Hc. rewrite Ht in Hc. injection Hc as Hc. rewrite Hc in Hl. simpl in Hl.
  assert (level r = pred (level r)) by (by rewrite Hc at 1). lia.
Qed.

(** An entry is written that leads, if it does, where the one before led. *)
Lemma wf_wrote roles m m' t r i p' :
  mem_wf roles m -> roles !! t = Some r -> wrote t i p' m m' ->
  ((2 <= level r)%nat -> exists p, entry m t i = Some p /\ _present p = true /\ _present p' = true /\
     address p' = address p /\ dominates p' p) ->
  (_present p' = true -> parents_allow roles m t p') ->
  mem_wf roles m'.
Proof.
  intros Hwf Ht Hw Hup Hpar. destruct Hw as [He Htab Hpmm]. pose proof Hwf as [W1 W2 W3 W4 W5 W6 W7 W8].
  assert (forall t1 r1 j p1, roles !! t1 = Some r1 -> (2 <= level r1)%nat -> entry m' t1 j = Some p1 ->
    _present p1 = true -> exists p, entry m t1 j = Some p /\ _present p = true /\ address p1 = address p /\
      dominates p1 p) as Hold.
  { intros t1 r1 j p1 H1 Hl Hp Hpr. rewrite He in Hp. case_decide as Hd.
    - destruct Hd as [-> ->]. assert (r1 = r) as -> by congruence. injection Hp as <-.
      destruct (Hup Hl) as (p & ? & ? & ? & ? & ?). by exists p.
    - exists p1. split_and!; [done|done|done|apply dominates_refl]. }
  split; rewrite ?Hpmm; try done.
  - intros t1 r1 H1. destruct (W2 t1 r1 H1) as (? & l & Hl & Hlen). split; [done|].
    destruct (Htab t1 l Hl) as (l' & ? & ?). exists l'. split; [done|congruence].
  - intros t1 r1 j p1 H1 Hl Hp Hpr. destruct (Hold _ _ _ _ H1 Hl Hp Hpr) as (p & ? & ? & -> & _).
    by apply (W5 t1 r1 j).
  - intros t1 r1 H1 Hl. destruct (W6 t1 r1 H1 Hl) as (t0 & r0 & j & p & ? & ? & ? & ? & Hp & ? & ?).
    destruct (decide (t0 = t /\ j = i)) as [[-> ->]|Hd].
    + assert (r0 = r) as -> by congruence. destruct (Hup ltac:(done)) as (p0 & Hp0 & ? & ? & ? & ?).
      assert (p0 = p) as -> by congruence. exists t, r, i, p'. rewrite He, decide_True by done.
      split_and!; [done..|congruence].
    + exists t0, r0, j, p. rewrite He, decide_False by done. done.
  - intros t1 r1 j p1 k q H1 Hl Hh Hp Hpr Hq Hqr.
    destruct (Hold _ _ _ _ H1 Hl Hp Hpr) as (p & Hp0 & Hpr0 & Ha & Hd). rewrite He in Hq.
    case_decide as Hdec.
    + destruct Hdec as [Hat ->]. injection Hq as <-. rewrite He in Hp. case_decide as Hd2.
      * destruct Hd2 as [-> ->]. exfalso. apply (child_ne roles m t r1 i p); try done. congruence.
      * eapply Hpar; [done|exact H1|done|exact Hh|exact Hp|done|done].
    + eapply dominates_trans; [exact Hd|]. rewrite Ha in Hq. by eapply (W8 t1 r1 j p).
Qed.

(** ** Where a walk ends *)

Fixpoint indices (level : nat) (va : Z) : list Z :=
  match level with O => [] | S l => index (S l) va :: indices l va end.

(** The place in the leaves of its address space that [va] names. *)
Definition slot (r : role) (va : Z) : Z * list Z :=
  (home r (index (level r) va), path r ++ indices (level r) va).

Lemma home_below r i : level r <> 4%nat -> home r i = owner r.
Proof. intros H. unfold home. by rewrite bool_decide_eq_false_2 by naive_solver. Qed.

Lemma slot_child r va :
  (2 <= level r <= 4)%nat -> slot (child_role r (index (level r) va)) va = slot r va.
Proof.
  intros Hl. unfold slot, child_role. rewrite home_below by (simpl; lia). cbn [owner level path].
  f_equal. destruct (level r) as [|l]; [lia|]. simpl. by rewrite <- app_assoc.
Qed.

(** A walk by induction on what is left of it. *)
Lemma mapping_agree roles m m' :
  mem_wf roles m ->
  (forall t r i, roles !! t = Some r -> (2 <= level r)%nat -> forall va,
     index (level r) va = i -> (forall p, entry m t i = Some p -> _present p = true ->
       mapping (pred (level r)) (address p) va m' = mapping (pred (level r)) (address p) va m) ->
     mapping (level r) t va m' = mapping (level r) t va m) ->
  forall l t r va, roles !! t = Some r -> level r = l ->
    (forall t1 r1, roles !! t1 = Some r1 -> level r1 = 1%nat -> slot r1 va = slot r va ->
       mapping 1 t1 va m' = mapping 1 t1 va m) ->
    mapping l t va m' = mapping l t va m.
Proof.
  intros Hwf Hstep l. induction l as [|[|l] IH]; intros t r va Ht Hl H1; [done|by apply (H1 t r)|].
  rewrite <- Hl. apply (Hstep t r (index (level r) va)); [done|lia|done|].
  intros p Hp Hpr. rewrite Hl. cbn [pred].
  destruct (wf_table _ _ Hwf t r Ht) as [Hlev _].
  eapply IH; [eapply wf_child; [exact Hwf|exact Ht|lia|exact Hp|done]|simpl; lia|].
  intros t1 r1 Ht1 Hr1 Hs. apply (H1 t1 r1); [done|done|]. rewrite Hs. apply slot_child. lia.
Qed.

Lemma mapping_level t r va m : (2 <= level r)%nat ->
  mapping (level r) t va m =
    (p ← entry m t (index (level r) va);
     if _present p then mapping (pred (level r)) (address p) va m else None).
Proof. intros H. destruct (level r) as [|[|l]]; [lia|lia|]. by rewrite mapping_S. Qed.

(** An entry above the leaves is written that leads where the one before led. *)
Lemma mapping_raise roles m m' t i p p' l t' r' va :
  mem_wf roles m -> is_Some (roles !! t) -> wrote t i p' m m' -> entry m t i = Some p ->
  _present p' = _present p -> address p' = address p ->
  (forall r, roles !! t = Some r -> (2 <= level r)%nat) ->
  roles !! t' = Some r' -> level r' = l -> mapping l t' va m' = mapping l t' va m.
Proof.
  intros Hwf [r Ht] Hw Hp Hpr Ha Hlev. pose proof (wrote_entry _ _ _ _ _ Hw) as He.
  intros Ht' Hl'. eapply mapping_agree; [exact Hwf| |exact Ht'|exact Hl'|].
  - intros t1 r1 j Ht1 Hl1 va1 Hj Hrec. rewrite !mapping_level by done. rewrite Hj, He.
    case_decide as Hd.
    + destruct Hd as [-> ->]. rewrite Hp. cbn [mbind option_bind]. rewrite Hpr, Ha.
      destruct (_present p) eqn:E; [|done]. by apply Hrec.
    + destruct (entry m t1 j) as [q|]; [|done]. cbn [mbind option_bind].
      destruct (_present q) eqn:E; [|done]. by apply Hrec.
  - intros t1 r1 Ht1 Hr1 _. rewrite !mapping_1, He. rewrite decide_False; [done|].
    intros [-> _]. specialize (Hlev r1 Ht1). lia.
Qed.

(** A leaf is written. *)
Lemma mapping_leaf roles m m' t r i p' l t' r' va :
  mem_wf roles m -> roles !! t = Some r -> level r = 1%nat -> wrote t i p' m m' ->
  roles !! t' = Some r' -> level r' = l -> slot r' va <> (owner r, path r ++ [i]) ->
  mapping l t' va m' = mapping l t' va m.
Proof.
  intros Hwf Ht Hr Hw Ht' Hl' Hs. pose proof (wrote_entry _ _ _ _ _ Hw) as He.
  eapply mapping_agree; [exact Hwf| |exact Ht'|exact Hl'|].
  - intros t1 r1 j Ht1 Hl1 va1 Hj Hrec. rewrite !mapping_level by done. rewrite Hj, He.
    rewrite decide_False.
    2:{ intros [-> _]. rewrite Ht in Ht1. injection Ht1 as <-. lia. }
    destruct (entry m t1 j) as [q|]; [|done]. cbn [mbind option_bind].
    destruct (_present q) eqn:E; [|done]. by apply Hrec.
  - intros t1 r1 Ht1 Hr1 Hsl. rewrite !mapping_1, He. rewrite decide_False; [done|].
    intros [-> E]. apply Hs. rewrite <- Hsl. assert (r1 = r) as -> by congruence.
    unfold slot. rewrite home_below by lia. rewrite Hr. simpl. by rewrite E.
Qed.

(** *** A table is linked in or taken out *)

Definition blank (m : mem) (a : Z) : Prop :=
  forall j p, entry m a j = Some p -> _present p = false.

Lemma mapping_blank l a va m : blank m a -> mapping l a va m = None.
Proof.
  intros Hb. destruct l as [|[|l]]; [done|rewrite mapping_1|rewrite mapping_S];
    (destruct (entry m a _) as [q|] eqn:E; [|done]); simpl; by rewrite (Hb _ _ E).
Qed.

(** The two memories differ in whether [t] leads to a blank table. *)
Lemma mapping_link roles m m' t i p0 p l t' r' va :
  mem_wf roles m ->
  (forall t1 r1 j, roles !! t1 = Some r1 -> ~ (t1 = t /\ j = i) -> entry m' t1 j = entry m t1 j) ->
  entry m t i = Some p0 -> _present p0 = false ->
  entry m' t i = Some p -> blank m' (address p) ->
  (forall r, roles !! t = Some r -> (2 <= level r)%nat) ->
  roles !! t' = Some r' -> level r' = l -> mapping l t' va m' = mapping l t' va m.
Proof.
  intros Hwf He Hp0 Hpr0 Hp Hb Hlev Ht' Hl'.
  eapply mapping_agree; [exact Hwf| |exact Ht'|exact Hl'|].
  - intros t1 r1 j Ht1 Hl1 va1 Hj Hrec. rewrite !mapping_level by done. rewrite Hj.
    destruct (decide (t1 = t /\ j = i)) as [[-> ->]|Hd].
    + rewrite Hp0, Hp. cbn [mbind option_bind]. rewrite Hpr0, (mapping_blank _ _ _ _ Hb).
      by destruct (_present p).
    + rewrite (He t1 r1 j Ht1 Hd). destruct (entry m t1 j) as [q|]; [|done].
      cbn [mbind option_bind]. destruct (_present q) eqn:E; [|done]. by apply Hrec.
  - intros t1 r1 Ht1 Hr1 _. rewrite !mapping_1. rewrite (He t1 r1); [done|done|].
    intros [-> _]. specialize (Hlev r1 Ht1). lia.
Qed.

(** ** Taking a page for a table, and giving it back *)

Lemma unused_table roles m a : mem_wf roles m -> Pmm.pmm_page (pmm m) a <> Some true -> roles !! a = None.
Proof.
  intros Hwf Ha. destruct (roles !! a) as [r|] eqn:E; [|done].
  by destruct (wf_used _ _ Hwf a r E) as [? _].
Qed.

(** The allocator changes, but not under the tables. *)
Lemma wf_set_pmm roles m p :
  mem_wf roles m -> Pmm.pmm_wf p ->
  (forall t r, roles !! t = Some r -> Pmm.pmm_page p t = Pmm.pmm_page (pmm m) t) ->
  mem_wf roles (set_pmm m p).
Proof.
  intros [W1 W2 W3 W4 W5 W6 W7 W8] Hp Hsame. split; try done.
  intros t r Ht. simpl. rewrite (Hsame t r Ht). by apply W3 in Ht.
Qed.

(** The result of making entry [i] of [t] lead to the new table [a]. *)
Record linked (roles : gmap Z role) (t : Z) (r : role) (i a : Z) (p : Page) (m m' : mem) : Prop := mk_linked {
  linked_entry : forall t' j, entry m' t' j =
    if decide (t' = t /\ j = i) then Some p
    else if decide (t' = a) then aget (replicate PAGE_TABLE_SIZE Page_empty) j else entry m t' j;
  linked_wf : mem_wf (<[a := child_role r i]> roles) m';
  linked_fresh : roles !! a = None
}.

Lemma aget_replicate {A} n (x y : A) j : aget (replicate n x) j = Some y -> y = x.
Proof.
  unfold aget. destruct (j <? 0); [done|]. intros [? _]%lookup_replicate. done.
Qed.

Lemma entry_clear t a j m :
  entry (clear a m) t j = if decide (t = a) then aget (replicate PAGE_TABLE_SIZE Page_empty) j else entry m t j.
Proof.
  unfold entry, clear, fill, set_table. cbn [tables]. case_decide as E.
  - subst. by rewrite lookup_insert_eq.
  - by rewrite lookup_insert_ne.
Qed.

(** No table has the role of the table to come. *)
Lemma child_role_free roles m t r i p0 t1 :
  mem_wf roles m -> roles !! t = Some r -> (2 <= level r)%nat -> home r i = owner r ->
  entry m t i = Some p0 -> _present p0 = false -> roles !! t1 <> Some (child_role r i).
Proof.
  intros Hwf Ht Hl Hh Hp0 Hpr Ht1. destruct (wf_table _ _ Hwf t r Ht) as [Hlev _].
  destruct (wf_parent _ _ Hwf t1 _ Ht1) as (t0 & r0 & j & p & Ht0 & Ho & Hl0 & Hc & Hp & Hpp & _).
  { simpl. lia. }
  assert (r0 = r /\ j = i) as [-> ->].
  { unfold child_role in Hc, Ho. cbn [owner level path] in *. injection Hc as _ Hlv Hpa.
    apply app_inj_2 in Hpa as [Hpa [= ->]]; [|done]. split; [|done].
    destruct r0, r; cbn [owner level path] in *. rewrite Hh in Ho. f_equal; [done|lia|done]. }
  rewrite (wf_inj _ _ Hwf t0 t r Ht0 Ht) in Hp. congruence.
Qed.

Lemma link_table roles m m' t r i a p0 p p' :
  mem_wf roles m -> roles !! t = Some r -> (2 <= level r)%nat -> home r i = owner r ->
  entry m t i = Some p0 -> _present p0 = false ->
  Pmm.pmm_wf p' -> (4096 | a) -> 0 <= a < 2 ^ 64 -> Pmm.pmm_page (pmm m) a = Some false ->
  (forall x, Pmm.pmm_page p' x =
     if Pmm.in_run a 1 x then Some true else Pmm.pmm_page (pmm m) x) ->
  _present p = true -> address p = a -> parents_allow roles m t p ->
  wrote t i p (clear a (set_pmm m p')) m' ->
  linked roles t r i a p m m'.
Proof.
  intros Hwf Ht Hl Hh Hp0 Hpr0 Hpw Hal Hra Hfree Hpages Hpr Ha Hpar Hw.
  assert (roles !! a = None) as Hfresh by (eapply unused_table; [done|congruence]).
  assert (t <> a) as Hta by congruence.
  destruct Hw as [He Htab Hpm]. assert (forall t' j, entry m' t' j =
    if decide (t' = t /\ j = i) then Some p
    else if decide (t' = a) then aget (replicate PAGE_TABLE_SIZE Page_empty) j else entry m t' j) as He'.
  { intros t' j. rewrite He, entry_clear. done. }
  split; [exact He'| |done]. pose proof Hwf as [W1 W2 W3 W4 W5 W6 W7 W8].
  destruct (W2 t r Ht) as [Hlev _].
  assert (forall t1 r1 j q, roles !! t1 = Some r1 -> ~ (t1 = t /\ j = i) -> entry m' t1 j = Some q ->
    entry m t1 j = Some q) as Hold.
  { intros t1 r1 j q H1 Hd Hq. rewrite He', decide_False in Hq by done.
    rewrite decide_False in Hq by congruence. done. }
  assert (forall j q, entry m' a j = Some q -> q = Page_empty) as Hempty.
  { intros j q Hq. rewrite He', decide_False, decide_True in Hq by naive_solver.
    by apply aget_replicate in Hq. }
  split.
  - rewrite Hpm. done.
  - intros t1 r1 [[<- <-]|[Hne H1]]%lookup_insert_Some.
    + split; [simpl; lia|]. destruct (Htab a (replicate PAGE_TABLE_SIZE Page_empty)) as (l & ? & E).
      { unfold clear, fill, set_table. simpl. by rewrite lookup_insert_eq. }
      exists l. split; [done|]. by rewrite E, length_replicate.
    + destruct (W2 t1 r1 H1) as (? & l & Hl1 & Hlen). split; [done|].
      destruct (Htab t1 l) as (l' & ? & E).
      { unfold clear, fill, set_table. simpl. by rewrite lookup_insert_ne. }
      exists l'. split; [done|congruence].
  - rewrite Hpm. cbn [pmm clear fill set_table set_pmm]. intros t1 r1 [[<- <-]|[Hne H1]]%lookup_insert_Some.
    + rewrite Hpages. by rewrite (proj2 (Pmm.in_run_1 a a Hal Hal) eq_refl).
    + destruct (W3 t1 r1 H1) as (Hu & Hd & ?). rewrite Hpages. split; [|done].
      destruct (Pmm.in_run a 1 t1) eqn:E; [done|done].
  - intros t1 r1 [[<- <-]|[Hne H1]]%lookup_insert_Some; [simpl; lia|]. by apply W4.
  - intros t1 r1 j q [[<- <-]|[Hne H1]]%lookup_insert_Some Hl1 Hq Hqp.
    + by rewrite (Hempty j q Hq) in Hqp.
    + destruct (decide (t1 = t /\ j = i)) as [[-> ->]|Hd].
      * rewrite He', decide_True in Hq by done. injection Hq as <-. assert (r1 = r) as -> by congruence.
        rewrite Ha. apply lookup_insert_eq.
      * apply (Hold t1 r1) in Hq; [|done..]. pose proof (W5 t1 r1 j q H1 Hl1 Hq Hqp) as Hc.
        rewrite lookup_insert_ne; [done|]. intros E. rewrite <- E in Hc. congruence.
  - intros t1 r1 [[<- <-]|[Hne H1]]%lookup_insert_Some Hl1.
    + exists t, r, i, p. rewrite lookup_insert_ne by done. split; [done|]. split; [by rewrite <- Hh|].
      split; [done|]. split; [done|]. by rewrite He', decide_True.
    + destruct (W6 t1 r1 H1 Hl1) as (t0 & r0 & j & q & H0 & Ho & Hl0 & Hc & Hq & Hqp & Haq).
      assert (~ (t0 = t /\ j = i)) as Hd by (intros [-> ->]; congruence).
      exists t0, r0, j, q. rewrite lookup_insert_ne by congruence. split_and!; try done.
      rewrite He', decide_False by done. rewrite decide_False by congruence. done.
  - intros t1 t2 r1 [[<- <-]|[Hne H1]]%lookup_insert_Some [[E H2]|[Hne2 H2]]%lookup_insert_Some;
      [done| | |by eapply W7].
    + by apply (child_role_free roles m t r i p0 t2) in H2.
    + subst. by apply (child_role_free roles m t r i p0 t1) in H1.
  - intros t1 r1 j q k q2 [[<- <-]|[Hne H1]]%lookup_insert_Some Hl1 Hh1 Hq Hqp Hq2 Hq2p.
    { by rewrite (Hempty j q Hq) in Hqp. }
    destruct (decide (t1 = t /\ j = i)) as [[-> ->]|Hd].
    + rewrite He', decide_True in Hq by done. injection Hq as <-. rewrite Ha in Hq2.
      by rewrite (Hempty k q2 Hq2) in Hq2p.
    + apply (Hold t1 r1) in Hq; [|done..]. pose proof (W5 t1 r1 j q H1 Hl1 Hq Hqp) as Hc.
      destruct (decide (address q = t /\ k = i)) as [[Hqt ->]|Hd2].
      * rewrite Hqt, He', decide_True in Hq2 by done. injection Hq2 as <-.
        by eapply (Hpar t1 r1 j q).
      * apply (Hold _ _ _ _ Hc) in Hq2; [|done]. by eapply (W8 t1 r1 j q).
Qed.

(** Outside of the kernel half one entry leads to each table. *)
Lemma parent_unique roles m t r i p t1 r1 j q :
  mem_wf roles m -> roles !! t = Some r -> (2 <= level r)%nat -> home r i <> kr ->
  entry m t i = Some p -> _present p = true ->
  roles !! t1 = Some r1 -> (2 <= level r1)%nat -> entry m t1 j = Some q -> _present q = true ->
  address q = address p -> t1 = t /\ j = i /\ q = p.
Proof.
  intros Hwf Ht Hl Hh Hp Hpr Ht1 Hl1 Hq Hqr E.
  pose proof (wf_child _ _ Hwf t r i p Ht Hl Hp Hpr) as Hc.
  pose proof (wf_child _ _ Hwf t1 r1 j q Ht1 Hl1 Hq Hqr) as Hc1.
  rewrite E, Hc in Hc1. injection Hc1 as Ho Hlv Hpa. apply app_inj_2 in Hpa as [Hpa [= <-]]; [|done].
  assert (owner r1 = owner r) as Hoo.
  { revert Ho Hh. unfold home. repeat case_bool_decide; congruence || intuition lia. }
  assert (r1 = r) as ->.
  { destruct r, r1; cbn [owner level path] in *. f_equal; [done|lia|done]. }
  rewrite (wf_inj _ _ Hwf t1 t r Ht1 Ht) in *. split; [done|]. split; [done|]. congruence.
Qed.

Lemma unlink_table roles m m' t r i p p' :
  mem_wf roles m -> roles !! t = Some r -> (2 <= level r)%nat -> home r i <> kr ->
  entry m t i = Some p -> _present p = true -> blank m (address p) ->
  Pmm.pmm_wf p' -> (4096 | address p) ->
  (forall x, Pmm.pmm_page p' x =
     if Pmm.in_run (address p) 1 x then Some false else Pmm.pmm_page (pmm m) x) ->
  wrote t i Page_empty (set_pmm m p') m' ->
  mem_wf (delete (address p) roles) m'.
Proof.
  intros Hwf Ht Hl Hh Hp Hpr Hb Hpw Hal Hpages [He Htab Hpm].
  set (a := address p) in *. pose proof Hwf as [W1 W2 W3 W4 W5 W6 W7 W8].
  pose proof (child_ne roles m t r i p Hwf Ht Hl Hp Hpr) as Hat. fold a in Hat.
  assert (forall t1 j q, entry m' t1 j = Some q -> _present q = true ->
    entry m t1 j = Some q /\ ~ (t1 = t /\ j = i)) as Hold.
  { intros t1 j q Hq Hqr. rewrite He in Hq. case_decide as Hd; [injection Hq as <-; done|done]. }
  split.
  - by rewrite Hpm.
  - intros t1 r1 [Hne H1]%lookup_delete_Some. destruct (W2 t1 r1 H1) as (? & l & Hl1 & Hlen).
    split; [done|]. destruct (Htab t1 l Hl1) as (l' & ? & ?). exists l'. split; [done|congruence].
  - rewrite Hpm. cbn [pmm set_pmm]. intros t1 r1 [Hne H1]%lookup_delete_Some.
    destruct (W3 t1 r1 H1) as (Hu & Hd & ?). rewrite Hpages. split; [|done].
    destruct (Pmm.in_run a 1 t1) eqn:E; [|done].
    apply Pmm.in_run_1 in E; [congruence|done|done].
  - intros t1 r1 [_ H1]%lookup_delete_Some. by apply W4.
  - intros t1 r1 j q [Hne H1]%lookup_delete_Some Hl1 Hq Hqr.
    destruct (Hold _ _ _ Hq Hqr) as [Hq' Hd]. rewrite lookup_delete_ne; [by apply (W5 t1 r1 j)|].
    intros E. apply Hd.
    destruct (parent_unique roles m t r i p t1 r1 j q) as (-> & -> & _); done.
  - intros t1 r1 [Hne H1]%lookup_delete_Some Hl1.
    destruct (W6 t1 r1 H1 Hl1) as (t0 & r0 & j & q & H0 & Ho & Hl0 & Hc & Hq & Hqr & Haq).
    assert (t0 <> a) as Ht0.
    { intros ->. rewrite (Hb j q Hq) in Hqr. done. }
    exists t0, r0, j, q. rewrite lookup_delete_ne by done. split_and!; try done.
    rewrite He, decide_False; [done|]. intros [-> ->]. apply Hne. unfold a. congruence.
  - intros t1 t2 r1 [_ H1]%lookup_delete_Some [_ H2]%lookup_delete_Some. by eapply W7.
  - intros t1 r1 j q k q2 [_ H1]%lookup_delete_Some Hl1 Hh1 Hq Hqr Hq2 Hq2r.
    apply Hold in Hq as [Hq _]; [|done]. apply Hold in Hq2 as [Hq2 _]; [|done].
    by eapply (W8 t1 r1 j q).
Qed.

(** * Mapping a page *)

(** What [map_entry] does to the entry on the way to the leaf of [new]. *)
Lemma map_entry_spec roles m t r va new :
  mem_wf roles m -> roles !! t = Some r -> (2 <= level r)%nat -> 0 <= va ->
  home r (index (level r) va) = owner r -> parents_allow roles m t new ->
  returns (fun '(res, m') => exists roles', roles ⊆ roles' /\ mem_wf roles' m' /\
      (forall t0 r0 va0, roles !! t0 = Some r0 ->
         mapping (level r0) t0 va0 m' = mapping (level r0) t0 va0 m) /\
      (forall t0 r0 j, roles !! t0 = Some r0 -> t0 <> t -> entry m' t0 j = entry m t0 j) /\
      match res with
      | Error _ => Pmm.full (pmm m')
      | Value _ => exists p, entry m' t (index (level r) va) = Some p /\ _present p = true /\
          dominates p new
      end)
    (map_entry t (index (level r) va) new m).
Proof.
  intros Hwf Ht Hl Hva Hh Hpar. set (i := index (level r) va) in *.
  assert (0 <= i < 512) as Hi by (apply index_range; [lia|done]).
  destruct (entry_known roles m t r i Hwf Ht Hi) as [p0 Hp0].
  unfold map_entry. rewrite page_entry, Hp0. cbn [deref mbind ctl_bind].
  destruct (_present p0) eqn:Hpr0; cbn [negb].
  - set (p' := set_flags _ _ _ _ _ _).
    destruct (set_page_known roles m t r i p' Hwf Ht Hi) as (m' & -> & Hw). cbn [mbind ctl_bind returns].
    assert (dominates p' p0 /\ dominates p' new) as [Hd0 Hdn].
    { unfold dominates, p'. simpl. split; split; intros ->; by rewrite ?orb_true_r. }
    assert (mem_wf roles m') as Hwf'.
    { eapply wf_wrote; [exact Hwf|exact Ht|exact Hw| |].
      - intros _. by exists p0.
      - intros _ t0 r0 j p H0 Hl0 Hh0 Hp Hpr Ha. destruct (Hpar t0 r0 j p H0 Hl0 Hh0 Hp Hpr Ha) as [Hu Hwr].
        rewrite <- Ha in Hp0. destruct (wf_rights _ _ Hwf t0 r0 j p i p0 H0 Hl0 Hh0 Hp Hpr Hp0 Hpr0) as [Hu0 Hw0].
        unfold dominates, p'. simpl. split; intros [?|?]%orb_true_iff; auto. }
    exists roles. split; [done|]. split; [done|]. split.
    + intros t0 r0 va0 H0. eapply (mapping_raise roles m m' t i p0 p');
        [exact Hwf|by eexists|exact Hw|exact Hp0|by rewrite Hpr0|done| |exact H0|done].
      intros r1 Hr1. assert (r1 = r) as -> by congruence. done.
    + split; [|exists p'; by rewrite (wrote_entry _ _ _ _ _ Hw), decide_True by done].
      intros t0 r0 j _ Hne. by rewrite (wrote_entry _ _ _ _ _ Hw), decide_False by naive_solver.
  - destruct (Pmm.allocate_one (pmm m) false (wf_pmm _ _ Hwf)) as (res & pm & -> & Hpw & Hres).
    cbn [mbind ctl_bind]. destruct res as [a|e].
    + destruct Hres as (Hal & Hra & Hfree & Hpages). set (p' := set_address _ _).
      destruct (wf_table _ _ Hwf t r Ht) as (_ & lt & Hlt & Hlen).
      assert (t <> a) as Hta.
      { intros ->. rewrite (unused_table roles m a Hwf) in Ht; [done|congruence]. }
      destruct (set_page_wrote (clear a (set_pmm m pm)) t i p' lt) as (m' & -> & Hw); [|done|done|].
      { unfold clear, fill, set_table. cbn [tables]. by rewrite lookup_insert_ne. }
      cbn [mbind ctl_bind returns].
      assert (address p' = a) as Ha by (by apply address_set_address).
      assert (linked roles t r i a p' m m') as [Hle Hlw Hlf].
      { eapply link_table; try done. }
      exists (<[a := child_role r i]> roles). split; [by apply insert_subseteq|]. split; [done|]. split.
      * intros t0 r0 va0 H0. eapply (mapping_link roles m m' t i p0 p'); try done.
        -- intros t1 r1 j H1 Hd. rewrite Hle, decide_False by done. rewrite decide_False by congruence. done.
        -- by rewrite Hle, decide_True.
        -- rewrite Ha. intros j q. rewrite Hle, decide_False, decide_True by naive_solver.
           intros ->%aget_replicate. done.
        -- intros r1 Hr1. assert (r1 = r) as -> by congruence. done.
      * split; [|exists p'; by rewrite Hle, decide_True by done].
        intros t0 r0 j H0 Hne. rewrite Hle, decide_False by naive_solver.
        by rewrite decide_False by congruence.
    + cbn [returns]. exists roles. split; [done|].
      destruct Hres as [Hfull Hsame].
      split; [by apply wf_set_pmm|]. split; [|done]. intros. apply mapping_set_pmm.
Qed.

Lemma table_map_1 t va new m :
  table_map 1 t va new m = (m ← set_page t (index 1 va) new m; Ret (Value tt, m)).
Proof. done. Qed.

Lemma table_map_S l t va new m :
  table_map (S (S l)) t va new m =
    ('(r, m) ← map_entry t (index (S (S l)) va) new m;
     match r with
     | Error e => Ret (Error e, m)
     | Value _ => p ← page m t (index (S (S l)) va); table_map (S l) (address p) va new m
     end).
Proof. done. Qed.

#[local] Opaque table_map.

(** The page of [va] in the space of the table with role [r] is mapped by [p];
    every other page keeps its mapping. *)
Definition maps_page (roles : gmap Z role) (r : role) (va : Z) (m m' : mem) : Prop :=
  forall t0 r0 va0, roles !! t0 = Some r0 -> slot r0 va0 <> slot r va ->
    mapping (level r0) t0 va0 m' = mapping (level r0) t0 va0 m.

Definition same_pages (roles : gmap Z role) (m m' : mem) : Prop :=
  forall t0 r0 va0, roles !! t0 = Some r0 -> mapping (level r0) t0 va0 m' = mapping (level r0) t0 va0 m.

Lemma table_map_spec l : forall roles m t r va new,
  mem_wf roles m -> roles !! t = Some r -> level r = S l -> 0 <= va ->
  home r (index (level r) va) = owner r -> parents_allow roles m t new -> _present new = true ->
  returns (fun '(res, m') => exists roles', roles ⊆ roles' /\ mem_wf roles' m' /\
      (forall t0 r0 j, roles !! t0 = Some r0 -> (level r < level r0)%nat -> entry m' t0 j = entry m t0 j) /\
      match res with
      | Error _ => same_pages roles m m' /\ Pmm.full (pmm m')
      | Value _ => maps_page roles r va m m' /\ mapping (level r) t va m' = Some new
      end) (table_map (S l) t va new m).
Proof.
  induction l as [|l IH]; intros roles m t r va new Hwf Ht Hl Hva Hh Hpar Hnew.
  - rewrite table_map_1.
    destruct (set_page_known roles m t r (index 1 va) new Hwf Ht) as (m' & -> & Hw);
      [apply index_range; [lia|done]|].
    cbn [mbind ctl_bind returns]. exists roles. split; [done|].
    split; [|split; [|split]].
    + eapply wf_wrote; [exact Hwf|exact Ht|exact Hw|rewrite Hl; lia|done].
    + intros t0 r0 j H0 Hlt. rewrite (wrote_entry _ _ _ _ _ Hw), decide_False; [done|].
      intros [-> _]. assert (r0 = r) as -> by congruence. lia.
    + intros t0 r0 va0 H0 Hs. eapply (mapping_leaf roles m m' t r (index 1 va) new); try done.
      intros E. apply Hs. rewrite E. unfold slot. rewrite home_below by lia. by rewrite Hl.
    + rewrite Hl, mapping_1, (wrote_entry _ _ _ _ _ Hw), decide_True by done. simpl. by rewrite Hnew.
  - rewrite table_map_S. rewrite <- Hl. eapply returns_bind.
    { apply (map_entry_spec roles m t r va new Hwf Ht ltac:(lia) Hva Hh Hpar). }
    intros [res m1] (roles1 & Hsub & Hwf1 & Hsame & Hfr & Hres).
    assert (forall t0 r0 j, roles !! t0 = Some r0 -> (level r < level r0)%nat ->
      entry m1 t0 j = entry m t0 j) as Hfr1.
    { intros t0 r0 j H0 Hlt. apply (Hfr t0 r0 j H0). intros ->. assert (r0 = r) as -> by congruence. lia. }
    destruct res as [[]|e].
    2:{ cbn [returns]. exists roles1. done. }
    destruct Hres as (p & Hp & Hpr & Hd). rewrite page_entry, Hp. cbn [deref mbind ctl_bind].
    pose proof (lookup_weaken _ _ _ _ Ht Hsub) as Ht1.
    pose proof (wf_child _ _ Hwf1 t r _ p Ht1 ltac:(lia) Hp Hpr) as Hc.
    destruct (wf_table _ _ Hwf1 t r Ht1) as [Hlev _].
    eapply returns_impl.
    { apply (IH roles1 m1 (address p) _ va new Hwf1 Hc); [simpl; lia|done|..|done].
      - rewrite home_below by (simpl; lia). done.
      - intros t0 r0 j q H0 Hl0 Hh0 Hq Hqr Ha.
        assert (home r (index (level r) va) <> kr) as Hhr.
        { pose proof (wf_child _ _ Hwf1 t0 r0 j q H0 Hl0 Hq Hqr) as Hc0. rewrite Ha, Hc in Hc0.
          injection Hc0 as Ho _ _. congruence. }
        destruct (parent_unique roles1 m1 t r _ p t0 r0 j q Hwf1 Ht1 ltac:(lia) Hhr Hp Hpr H0 Hl0 Hq Hqr Ha)
          as (_ & _ & ->). exact Hd. }
    intros [res m2] (roles2 & Hsub2 & Hwf2 & Hfr2 & Hres2). exists roles2.
    split; [by etrans|]. split; [done|]. split.
    { intros t0 r0 j H0 Hlt. rewrite (Hfr2 t0 r0); [by eapply Hfr1|by eapply lookup_weaken|simpl; lia]. }
    destruct res as [[]|e].
    + destruct Hres2 as [Hm Hv]. unfold maps_page in *. rewrite slot_child in Hm by lia. split.
      * intros t0 r0 va0 H0 Hs. rewrite Hm; [by apply Hsame|by eapply lookup_weaken|done].
      * rewrite mapping_level by lia. rewrite (Hfr2 t r), Hp by (done || simpl; lia).
        cbn [mbind option_bind]. rewrite Hpr. exact Hv.
    + destruct Hres2 as [Hres2 Hfull]. split; [|done].
      intros t0 r0 va0 H0. rewrite Hres2; [by apply Hsame|by eapply lookup_weaken].
Qed.

(** * Unmapping a page *)

Lemma table_unmap_1 t va user m :
  table_unmap 1 t va user m = (m ← set_page t (index 1 va) Page_empty m; Ret (Value tt, m)).
Proof. done. Qed.

Lemma table_unmap_S l t va user m :
  table_unmap (S (S l)) t va user m =
    (let i := index (S (S l)) va in
     p ← page m t i;
     if negb (_present p) then Ret (Error "Page not present", m)
     else if user && negb (_user p) then Ret (Error "Page not user accessible", m)
     else
       '(r, m) ← table_unmap (S l) (address p) va user m;
       match r with
       | Error e => Ret (Error e, m)
       | Value _ =>
           p ← page m t i;
           b ← any_present m (address p);
           if (b : bool) then Ret (Value tt, m)
           else
             '(_, pm) ← Pmm.release (pmm m) (address p) 1;
             m ← set_page t i Page_empty (set_pmm m pm);
             Ret (Value tt, m)
       end).
Proof. done. Qed.

#[local] Opaque table_unmap.

Lemma any_present_spec roles m t r : mem_wf roles m -> roles !! t = Some r ->
  exists b, any_present m t = Ret b /\ (b = false -> blank m t).
Proof.
  intros Hwf Ht. destruct (wf_table _ _ Hwf t r Ht) as (_ & l & Hl & Hlen).
  unfold any_present. rewrite Hl. eexists. split; [done|]. intros Hb j p. unfold entry.
  rewrite Hl. cbn [mbind option_bind]. rewrite take_ge in Hb by lia. intros Hp.
  destruct (_present p) eqn:E; [|done]. rewrite <- Hb. symmetry. apply existsb_exists.
  exists p. split; [|done]. apply list_elem_of_In. unfold aget in Hp. case_match; [done|].
  by eapply list_elem_of_lookup_2.
Qed.

(** The tables of [roles'] are those of [roles], but for some below [level]. *)
Definition shrinks (lev : nat) (roles roles' : gmap Z role) : Prop :=
  roles' ⊆ roles /\ forall t r, roles !! t = Some r -> (lev <= level r)%nat -> roles' !! t = Some r.

Lemma table_unmap_spec l : forall roles m t r va user,
  mem_wf roles m -> roles !! t = Some r -> level r = S l -> 0 <= va ->
  home r (index (level r) va) = owner r -> owner r <> kr ->
  returns (fun '(res, m') => exists roles', shrinks (level r) roles roles' /\ mem_wf roles' m' /\
      (forall t0 r0 j, roles !! t0 = Some r0 -> (level r < level r0)%nat -> entry m' t0 j = entry m t0 j) /\
      match res with
      | Error _ => same_pages roles' m m'
      | Value _ => maps_page roles' r va m m' /\ mapping (level r) t va m' = None
      end) (table_unmap (S l) t va user m).
Proof.
  induction l as [|l IH]; intros roles m t r va user Hwf Ht Hl Hva Hh Hu.
  - rewrite table_unmap_1.
    destruct (set_page_known roles m t r (index 1 va) Page_empty Hwf Ht) as (m' & -> & Hw);
      [apply index_range; [lia|done]|].
    cbn [mbind ctl_bind returns]. exists roles. split; [done|].
    split; [|split; [|split]].
    + eapply wf_wrote; [exact Hwf|exact Ht|exact Hw|rewrite Hl; lia|done].
    + intros t0 r0 j H0 Hlt. rewrite (wrote_entry _ _ _ _ _ Hw), decide_False; [done|].
      intros [-> _]. assert (r0 = r) as -> by congruence. lia.
    + intros t0 r0 va0 H0 Hs. eapply (mapping_leaf roles m m' t r (index 1 va)); try done.
      intros E. apply Hs. rewrite E. unfold slot. rewrite home_below by lia. by rewrite Hl.
    + rewrite Hl, mapping_1, (wrote_entry _ _ _ _ _ Hw), decide_True by done. done.
  - rewrite table_unmap_S, <- Hl. cbn zeta. set (i := index (level r) va) in *.
    assert (0 <= i < 512) as Hi by (apply index_range; [lia|done]).
    destruct (entry_known roles m t r i Hwf Ht Hi) as [p Hp].
    rewrite page_entry, Hp. cbn [deref mbind ctl_bind].
    destruct (_present p) eqn:Hpr; cbn [negb]; [|by exists roles].
    destruct (user && negb (_user p)); [by exists roles|].
    pose proof (wf_child _ _ Hwf t r _ p Ht ltac:(lia) Hp Hpr) as Hc.
    destruct (wf_table _ _ Hwf t r Ht) as [Hlev _].
    eapply returns_bind.
    { apply (IH roles m (address p) _ va user Hwf Hc); [simpl; lia|done| |by cbn [owner child_role]; rewrite Hh].
      by rewrite home_below by (simpl; lia). }
    intros [res m1] (roles1 & [Hsub Hkeep] & Hwf1 & Hfr & Hres). cbn [level child_role] in Hfr, Hkeep.
    assert (roles1 !! t = Some r) as Ht1 by (apply Hkeep; [done|lia]).
    assert (shrinks (level r) roles roles1) as Hshr.
    { split; [done|]. intros t0 r0 H0 Hle. apply Hkeep; [done|lia]. }
    assert (forall t0 r0 j, roles !! t0 = Some r0 -> (level r < level r0)%nat ->
      entry m1 t0 j = entry m t0 j) as Hfr1.
    { intros t0 r0 j H0 Hlt. apply (Hfr t0 r0 j H0). lia. }
    destruct res as [[]|e]; [|by exists roles1]. destruct Hres as [Hm Hv].
    assert (maps_page roles1 r va m m1) as Hm1.
    { intros t0 r0 va0 H0 Hs. apply Hm; [done|]. unfold i. rewrite slot_child by lia. exact Hs. }
    rewrite page_entry, (Hfr t r), Hp by (done || lia). cbn [deref mbind ctl_bind].
    assert (entry m1 t i = Some p) as Hp1 by (rewrite (Hfr t r); [done..|lia]).
    assert (roles1 !! address p = Some (child_role r i)) as Hc1 by (apply (wf_child _ _ Hwf1 t r i p Ht1); [lia|done..]).
    destruct (any_present_spec roles1 m1 _ _ Hwf1 Hc1) as (b & -> & Hb). cbn [mbind ctl_bind].
    destruct b.
    + exists roles1. split; [done|]. split; [done|]. split; [done|]. split; [done|].
      rewrite mapping_level by lia. fold i. rewrite Hp1. cbn [mbind option_bind]. rewrite Hpr. exact Hv.
    + destruct (wf_used _ _ Hwf1 _ _ Hc1) as (Hused & Hal & _). specialize (Hb eq_refl).
      destruct (Pmm.release_one (pmm m1) (address p) (wf_pmm _ _ Hwf1) Hal Hused) as (pm & -> & Hpw & Hpages).
      cbn [mbind ctl_bind]. destruct (wf_table _ _ Hwf1 t r Ht1) as (_ & lt & Hlt & Hlen).
      destruct (set_page_wrote (set_pmm m1 pm) t i Page_empty lt Hlt Hlen Hi) as (m2 & -> & Hw).
      cbn [mbind ctl_bind returns].
      assert (home r i <> kr) as Hhr by congruence.
      pose proof (unlink_table roles1 m1 m2 t r i p pm Hwf1 Ht1 ltac:(lia) Hhr Hp1 Hpr Hb Hpw Hal Hpages Hw) as Hwf2.
      assert (forall t0 r0 va0, delete (address p) roles1 !! t0 = Some r0 ->
        mapping (level r0) t0 va0 m2 = mapping (level r0) t0 va0 m1) as Hsame.
      { intros t0 r0 va0 H0. symmetry.
        eapply (mapping_link (delete (address p) roles1) m2 m1 t i Page_empty p); try done.
        - intros t1 r1 j _ Hd. by rewrite (wrote_entry _ _ _ _ _ Hw), decide_False.
        - by rewrite (wrote_entry _ _ _ _ _ Hw), decide_True.
        - intros r1 [_ Hr1]%lookup_delete_Some. assert (r1 = r) as -> by congruence. lia. }
      exists (delete (address p) roles1). split; [|split; [done|split; [|split]]].
      * split; [etrans; [apply delete_subseteq|apply Hsub]|]. intros t0 r0 H0 Hle.
        rewrite lookup_delete_ne; [by apply Hshr|]. intros <-. rewrite Hc in H0. injection H0 as <-.
        simpl in Hle. lia.
      * intros t0 r0 j H0 Hlt0. rewrite (wrote_entry _ _ _ _ _ Hw), decide_False.
        -- by eapply Hfr1.
        -- intros [-> _]. assert (r0 = r) as -> by congruence. lia.
      * intros t0 r0 va0 H0 Hs. rewrite Hsame by done. apply lookup_delete_Some in H0 as [_ H0].
        by apply Hm1.
      * rewrite mapping_level by lia. fold i. rewrite (wrote_entry _ _ _ _ _ Hw), decide_True by done. done.
Qed.

(** * Address spaces *)

(** The number of the page [va] is in, and the space whose tables map it. *)
Definition page_of (va : Z) : Z := va / 4096 mod 2 ^ 36.
Definition home_of (self va : Z) : Z := if bool_decide (255 <= index 4 va) then kr else self.

Lemma indices_eq va va' : 0 <= va -> 0 <= va' -> indices 4 va = indices 4 va' <-> page_of va = page_of va'.
Proof.
  intros Hva Hva'. cbn [indices]. rewrite !index_div by lia. unfold page_of.
  change (2 ^ (12 + 9 * (Z.of_nat 4 - 1))) with (4096 * 512 * 512 * 512).
  change (2 ^ (12 + 9 * (Z.of_nat 3 - 1))) with (4096 * 512 * 512).
  change (2 ^ (12 + 9 * (Z.of_nat 2 - 1))) with (4096 * 512).
  change (2 ^ (12 + 9 * (Z.of_nat 1 - 1))) with 4096.
  change (2 ^ 36) with (512 * 512 * 512 * 512). rewrite <- !Z.div_div by lia.
  generalize (va / 4096) (va' / 4096). intros x y. split.
  - intros [= H4 H3 H2 H1]. Z.to_euclidean_division_equations. lia.
  - intros H. assert (exists k, x = y + (512 * 512 * 512 * 512) * k) as [k ->].
    { exists (x / (512 * 512 * 512 * 512) - y / (512 * 512 * 512 * 512)).
      Z.to_euclidean_division_equations. lia. }
    f_equal; [|f_equal; [|f_equal; [|f_equal]]]; Z.to_euclidean_division_equations; lia.
Qed.

Lemma slot_root self va :
  slot (mk_role self 4 []) va = (home_of self va, indices 4 va).
Proof.
  unfold slot, home, home_of. cbn [level owner path app]. f_equal.
  do 2 case_bool_decide; intuition lia.
Qed.

Lemma index_4_below va : 0 <= va < 255 * 2 ^ 39 -> index 4 va < 255.
Proof.
  intros Hva. rewrite index_div by lia. change (2 ^ (12 + 9 * (Z.of_nat 4 - 1))) with (2 ^ 39).
  assert (0 <= va / 2 ^ 39 < 255) by (split; [apply Z.div_pos; lia|apply Z.div_lt_upper_bound; lia]).
  rewrite Z.mod_small; lia.
Qed.

(** The end of what belongs to each space alone. *)
Definition user_top : Z := 255 * 2 ^ 39.

Lemma home_of_user self va : 0 <= va < user_top -> home_of self va = self.
Proof. intros H%index_4_below. unfold home_of. by rewrite bool_decide_eq_false_2 by lia. Qed.

Lemma root_allows roles m self p : mem_wf roles m -> is_root roles self -> parents_allow roles m self p.
Proof.
  intros Hwf Hr t0 r0 j q H0 Hl0 _ Hq Hqr Ha.
  pose proof (wf_child _ _ Hwf t0 r0 j q H0 Hl0 Hq Hqr) as Hc. rewrite Ha, Hr in Hc.
  injection Hc as _ Hlv _. destruct (wf_table _ _ Hwf t0 r0 H0) as [? _]. lia.
Qed.

(** The leaf for [va] in the space [self]. *)
Definition leaf (m : mem) (self va : Z) : option Page := mapping 4 self va m.

(** Every page but that of [va] in [self] has the same leaf. *)
Definition only_page (roles : gmap Z role) (self va : Z) (m m' : mem) : Prop :=
  forall s va', is_root roles s -> 0 <= va' ->
    ~ (home_of s va' = home_of self va /\ page_of va' = page_of va) -> leaf m' s va' = leaf m s va'.

Definition same_leaves (roles : gmap Z role) (m m' : mem) : Prop :=
  forall s va', is_root roles s -> leaf m' s va' = leaf m s va'.

Lemma space_map_page roles m self va new :
  mem_wf roles m -> is_root roles self -> 0 <= va -> home_of self va = self -> _present new = true ->
  returns (fun '(res, m') => exists roles', roles ⊆ roles' /\ mem_wf roles' m' /\
      match res with
      | Error _ => same_leaves roles m m' /\ Pmm.full (pmm m')
      | Value _ => only_page roles self va m m' /\ leaf m' self va = Some new
      end) (table_map 4 self va new m).
Proof.
  intros Hwf Hr Hva Hh Hnew. eapply returns_impl.
  { apply (table_map_spec 3 roles m self _ va new Hwf Hr); [done|done| |by eapply root_allows|done].
    cbn [level owner]. rewrite <- Hh at 2. unfold home, home_of. cbn [level owner].
    do 2 case_bool_decide; intuition lia. }
  intros [res m'] (roles' & Hsub & Hwf' & _ & H). exists roles'. split; [done|]. split; [done|].
  destruct res as [|e].
  - destruct H as [Hm Hv]. split; [|exact Hv]. intros s va' Hs Hva' Hd.
    apply (Hm s (mk_role s 4 []) va' Hs). rewrite !slot_root. intros E. apply Hd.
    split; [exact (f_equal fst E)|]. apply indices_eq; [done|done|exact (f_equal snd E)].
  - destruct H as [H Hfull]. split; [|done]. intros s va' Hs. by apply (H s (mk_role s 4 []) va').
Qed.

Lemma space_unmap_page roles m self va user :
  mem_wf roles m -> is_root roles self -> self <> kr -> 0 <= va -> home_of self va = self ->
  returns (fun '(res, m') => exists roles', shrinks 4 roles roles' /\ mem_wf roles' m' /\
      match res with
      | Error _ => same_leaves roles m m'
      | Value _ => only_page roles self va m m' /\ leaf m' self va = None
      end) (table_unmap 4 self va user m).
Proof.
  intros Hwf Hr Hk Hva Hh. eapply returns_impl.
  { apply (table_unmap_spec 3 roles m self _ va user Hwf Hr); [done|done| |done].
    cbn [level owner]. rewrite <- Hh at 2. unfold home, home_of. cbn [level owner].
    do 2 case_bool_decide; intuition lia. }
  intros [res m'] (roles' & Hsub & Hwf' & _ & H). exists roles'. split; [done|]. split; [done|].
  destruct res as [|e].
  - destruct H as [Hm Hv]. split; [|exact Hv]. intros s va' Hs Hva' Hd.
    apply (Hm s (mk_role s 4 []) va'); [by apply Hsub|]. rewrite !slot_root. intros E. apply Hd.
    split; [exact (f_equal fst E)|]. apply indices_eq; [done|done|exact (f_equal snd E)].
  - intros s va' Hs. apply (H s (mk_role s 4 []) va'). by apply Hsub.
Qed.
End roles.
