(* ===== verification/PagingRanges.v ===== *)
(** What the operations of [VmmSpace] do to the pages of the address spaces. *)

From stdpp Require Import gmap.
From S2P Require Import Prelude Range.
From S2P Require Pmm.
From S2P Require Import Paging PagingSpec.

Section spaces.
Context (kr : Z).

(** [leaf] only looks at the page. *)
Lemma mapping_indices l t va va' m : indices l va = indices l va' -> mapping l t va m = mapping l t va' m.
Proof.
  revert t. induction l as [|l IH]; intros t; [done|]. cbn [indices]. intros E.
  injection E as E1 E2. cbn [mapping]. rewrite E1. destruct (entry m t _) as [p|]; [|done].
  cbn [mbind option_bind]. destruct (_present p); [|done]. destruct l; [done|by apply IH].
Qed.

Lemma leaf_page m s va va' : 0 <= va -> 0 <= va' -> page_of va = page_of va' -> leaf m s va = leaf m s va'.
Proof. intros H H' E. apply mapping_indices. by apply indices_eq. Qed.

Lemma page_of_user va : 0 <= va < user_top -> page_of va = va / 4096.
Proof.
  intros Hva. unfold page_of, user_top in *. apply Z.mod_small.
  split; [apply Z.div_pos; lia|apply Z.div_lt_upper_bound; lia].
Qed.

(** The page of [va] in [s] is one of the [n] pages of [self] from [first]. *)
Definition in_pages (self first n s va : Z) : Prop :=
  home_of kr s va = self /\ first <= page_of va < first + n.

Lemma map_loop_spec n : forall roles m self virt phys i flags,
  mem_wf kr roles m -> is_root roles self -> 0 <= virt -> 0 <= i ->
  virt + i + 4096 * Z.of_nat n <= user_top ->
  returns (fun '(res, m') => exists roles', roles ⊆ roles' /\ mem_wf kr roles' m' /\
      (forall s va, is_root roles s -> 0 <= va ->
         ~ in_pages self ((virt + i) / 4096) (Z.of_nat n) s va -> leaf m' s va = leaf m s va) /\
      match res with
      | Error _ => Pmm.full (pmm m')
      | Value _ => forall j, 0 <= j < Z.of_nat n ->
          leaf m' self (virt + i + 4096 * j) = Some (page_create flags (u64 (phys + (i + 4096 * j))))
      end) (map_loop n self virt phys i flags m).
Proof.
  induction n as [|n IH]; intros roles m self virt phys i flags Hwf Hr Hv Hi Ht.
  { cbn [map_loop returns]. exists roles. split; [done|]. split; [done|]. split; [done|]. lia. }
  assert (user_top < 2 ^ 48) as Htop by reflexivity.
  assert (u64 (virt + i) = virt + i) as Hva by (apply wrapu_small; lia).
  cbn [map_loop]. rewrite Hva. unfold PAGE_SIZE.
  assert (home_of kr self (virt + i) = self) as Hh by (apply home_of_user; lia).
  eapply returns_bind.
  { by apply (space_map_page kr roles m self (virt + i) (page_create flags (u64 (phys + i))) Hwf Hr); [lia| |]. }
  assert (page_of (virt + i) = (virt + i) / 4096) as Hp by (apply page_of_user; lia).
  intros [res m1] (roles1 & Hsub & Hwf1 & Hres). destruct res as [[]|e].
  2:{ cbn [returns]. destruct Hres as [Hs Hf]. exists roles1. split; [done|]. split; [done|]. split; [|done].
      intros s va Hs' _ _. by apply Hs. }
  destruct Hres as [Ho Hl].
  assert (is_root roles1 self) as Hr1 by (by eapply lookup_weaken).
  assert ((virt + (i + 4096)) / 4096 = (virt + i) / 4096 + 1) as Hnext.
  { rewrite Z.add_assoc. apply (Z.div_add (virt + i) 1 4096). lia. }
  eapply returns_impl.
  { apply (IH roles1 m1 self virt phys (i + 4096) flags Hwf1 Hr1 Hv); lia. }
  intros [res m2] (roles2 & Hsub2 & Hwf2 & Hfr & Hres2). exists roles2.
  split; [by etrans|]. split; [done|]. rewrite Hnext in Hfr. split.
  - intros s va Hs Hva0 Hout. rewrite Hfr; [apply Ho; [done|done|]|by eapply lookup_weaken|done|].
    + rewrite Hh, Hp. intros [E1 E2]. apply Hout. split; [done|lia].
    + intros [E1 E2]. apply Hout. split; [done|lia].
  - destruct res as [[]|e]; [|done]. intros j Hj. destruct (decide (j = 0)) as [->|Hj0].
    + replace (virt + i + 4096 * 0) with (virt + i) by lia. replace (i + 4096 * 0) with i by lia.
      rewrite Hfr; [exact Hl|done|lia|]. intros [_ E]. rewrite Hp in E. lia.
    + specialize (Hres2 (j - 1) ltac:(lia)).
      replace (virt + i + 4096 * j) with (virt + (i + 4096) + 4096 * (j - 1)) by lia.
      rewrite Hres2. do 3 f_equal. lia.
Qed.

Lemma unmap_loop_spec n : forall roles m self virt i user,
  mem_wf kr roles m -> is_root roles self -> self <> kr -> 0 <= virt -> 0 <= i ->
  virt + i + 4096 * Z.of_nat n <= user_top ->
  returns (fun '(res, m') => exists roles', shrinks 4 roles roles' /\ mem_wf kr roles' m' /\
      (forall s va, is_root roles s -> 0 <= va ->
         ~ in_pages self ((virt + i) / 4096) (Z.of_nat n) s va -> leaf m' s va = leaf m s va) /\
      match res with
      | Error _ => True
      | Value _ => forall j, 0 <= j < Z.of_nat n -> leaf m' self (virt + i + 4096 * j) = None
      end) (unmap_loop n self virt i user m).
Proof.
  induction n as [|n IH]; intros roles m self virt i user Hwf Hr Hk Hv Hi Ht.
  { cbn [unmap_loop returns]. exists roles. split; [done|]. split; [done|]. split; [done|]. lia. }
  assert (user_top < 2 ^ 48) as Htop by reflexivity.
  assert (u64 (virt + i) = virt + i) as Hva by (apply wrapu_small; lia).
  cbn [unmap_loop]. rewrite Hva. unfold PAGE_SIZE.
  assert (home_of kr self (virt + i) = self) as Hh by (apply home_of_user; lia).
  eapply returns_bind.
  { by apply (space_unmap_page kr roles m self (virt + i) user Hwf Hr Hk); [lia|]. }
  assert (page_of (virt + i) = (virt + i) / 4096) as Hp by (apply page_of_user; lia).
  intros [res m1] (roles1 & Hshr & Hwf1 & Hres).
  assert (forall s, is_root roles s -> is_root roles1 s) as Hroots.
  { intros s Hs. by apply Hshr. }
  destruct res as [[]|e].
  2:{ cbn [returns]. exists roles1. split; [done|]. split; [done|]. split; [|done].
      intros s va Hs' _ _. by apply Hres. }
  destruct Hres as [Ho Hl].
  assert ((virt + (i + 4096)) / 4096 = (virt + i) / 4096 + 1) as Hnext.
  { rewrite Z.add_assoc. apply (Z.div_add (virt + i) 1 4096). lia. }
  eapply returns_impl.
  { apply (IH roles1 m1 self virt (i + 4096) user Hwf1 (Hroots _ Hr) Hk Hv); lia. }
  intros [res m2] (roles2 & Hshr2 & Hwf2 & Hfr & Hres2). exists roles2.
  split; [|split; [done|]].
  { destruct Hshr as [A1 A2], Hshr2 as [B1 B2]. split; [by etrans|]. intros t r H1 H2.
    apply B2; [by apply A2|done]. }
  rewrite Hnext in Hfr. split.
  - intros s va Hs Hva0 Hout. rewrite Hfr; [apply Ho; [done|done|]|by apply Hroots|done|].
    + rewrite Hh, Hp. intros [E1 E2]. apply Hout. split; [done|lia].
    + intros [E1 E2]. apply Hout. split; [done|lia].
  - destruct res as [[]|e]; [|done]. intros j Hj. destruct (decide (j = 0)) as [->|Hj0].
    + replace (virt + i + 4096 * 0) with (virt + i) by lia.
      rewrite Hfr; [exact Hl|by apply Hroots|lia|]. intros [_ E]. rewrite Hp in E. lia.
    + specialize (Hres2 (j - 1) ltac:(lia)).
      by replace (virt + i + 4096 * j) with (virt + (i + 4096) + 4096 * (j - 1)) by lia.
Qed.

(** ** Rights *)

(** The page [va] is in, where a task may write. *)
Definition granted (o : option Page) : option Page :=
  p ← o; if _user p && _writeable p then Some p else None.

(** The entries on the way to a leaf give its rights. *)
Lemma rights_down l : forall roles m t r va p q,
  mem_wf kr roles m -> roles !! t = Some r -> level r = l -> home kr r (index l va) <> kr ->
  entry m t (index l va) = Some p -> mapping l t va m = Some q -> dominates p q.
Proof.
  induction l as [|[|l] IH]; intros roles m t r va p q Hwf Ht Hl Hh Hp Hq; [done| |].
  - rewrite mapping_1, Hp in Hq. simpl in Hq. destruct (_present p); [|done].
    injection Hq as <-. apply dominates_refl.
  - rewrite mapping_S, Hp in Hq. cbn [mbind option_bind] in Hq. destruct (_present p) eqn:Hpr; [|done].
    rewrite <- Hl in Hp, Hh.
    pose proof (wf_child _ _ _ Hwf t r _ p Ht ltac:(lia) Hp Hpr) as Hc.
    destruct (wf_table _ _ _ Hwf t r Ht) as [Hlev _].
    assert (exists p1, entry m (address p) (index (S l) va) = Some p1 /\ _present p1 = true) as (p1 & Hp1 & Hpr1).
    { destruct l; [rewrite mapping_1 in Hq|rewrite mapping_S in Hq];
        (destruct (entry m (address p) _) as [p1|]; [|done]); simpl in Hq;
        (destruct (_present p1) eqn:E; [|done]); by exists p1. }
    eapply dominates_trans.
    + eapply (wf_rights _ _ _ Hwf t r _ p _ p1); [done|lia|exact Hh|exact Hp|done|exact Hp1|done].
    + eapply (IH roles m (address p) _ va p1 q); [done|exact Hc|simpl; lia| |done|done].
      rewrite home_below by (simpl; lia). exact Hh.
Qed.

Lemma page_error_None p : page_error p = None <-> _present p = true /\ _user p = true /\ _writeable p = true.
Proof. unfold page_error. destruct (_present p), (_user p), (_writeable p); simpl; naive_solver. Qed.

(** A walk that tests the rights of each entry, as [_verify] and
    [physical_addr] do, finds out about the leaf. *)
Lemma walk_checked {A} (walk : nat -> Z -> ctl (result A)) (found : Page -> A) roles m va :
  mem_wf kr roles m -> 0 <= va ->
  (forall l t, walk (S l) t =
     (p ← page m t (index (S l) va);
      match page_error p with
      | Some e => Ret (Error e)
      | None => match l with O => Ret (Value (found p)) | _ => walk l (address p) end
      end)) ->
  forall l t r, roles !! t = Some r -> level r = l -> home kr r (index l va) <> kr ->
  exists res, walk l t = Ret res /\
    match granted (mapping l t va m) with
    | Some p => res = Value (found p)
    | None => is_error res = true
    end.
Proof.
  intros Hwf Hva Hwalk l. induction l as [|l IH]; intros t r Ht Hl Hh.
  { destruct (wf_table _ _ _ Hwf t r Ht). lia. }
  destruct (entry_known kr roles m t r (index (S l) va) Hwf Ht) as [p Hp]; [apply index_range; [lia|done]|].
  rewrite Hwalk, page_entry, Hp. cbn [deref mbind ctl_bind].
  destruct (page_error p) as [e|] eqn:Ee.
  - eexists. split; [done|]. destruct (mapping (S l) t va m) as [q|] eqn:Eq; [|done].
    pose proof (rights_down (S l) roles m t r va p q Hwf Ht Hl Hh Hp Eq) as [Hu Hw].
    cbn [granted mbind option_bind]. destruct (_user q && _writeable q) eqn:Er; [|done].
    apply andb_true_iff in Er as [?%Hu ?%Hw].
    assert (_present p = true) as Hpr.
    { destruct l; [rewrite mapping_1, Hp in Eq|rewrite mapping_S, Hp in Eq]; simpl in Eq; by destruct (_present p). }
    assert (page_error p = None) as En by by apply page_error_None. by rewrite En in Ee.
  - apply page_error_None in Ee as (Hpr & Hu & Hw). destruct l as [|l].
    + eexists. split; [done|]. rewrite mapping_1, Hp. simpl. rewrite Hpr. simpl. by rewrite Hu, Hw.
    + rewrite mapping_S, Hp. cbn [mbind option_bind]. rewrite Hpr.
      rewrite <- Hl in Hp, Hh. destruct (wf_table _ _ _ Hwf t r Ht) as [Hlev _].
      pose proof (wf_child _ _ _ Hwf t r _ p Ht ltac:(lia) Hp Hpr) as Hc.
      eapply (IH (address p)); [exact Hc|simpl; lia|]. rewrite home_below by (simpl; lia). exact Hh.
Qed.

Lemma home_root self va : home_of kr self va = self -> self <> kr -> home kr (mk_role self 4 []) (index 4 va) <> kr.
Proof.
  intros Hh Hk. unfold home, home_of in *. cbn [level owner].
  revert Hh. repeat case_bool_decide; naive_solver.
Qed.

Lemma get_phys_checked roles m self va :
  mem_wf kr roles m -> is_root roles self -> self <> kr -> 0 <= va -> home_of kr self va = self ->
  exists res, get_phys self va m = Ret res /\
    match granted (leaf m self va) with
    | Some p => res = Value (u64 (address p + va mod 4096))
    | None => is_error res = true
    end.
Proof.
  intros Hwf Hr Hk Hva Hh.
  apply (walk_checked (fun l t => physical_addr l t va m) (fun p => u64 (address p + va mod 4096)) roles m va
           Hwf Hva ltac:(done) 4 self _ Hr); [done|by apply home_root].
Qed.

Lemma verify_page_checked roles m self va :
  mem_wf kr roles m -> is_root roles self -> self <> kr -> 0 <= va -> home_of kr self va = self ->
  exists res, _verify 4 self va m = Ret res /\
    match granted (leaf m self va) with Some _ => res = Value tt | None => is_error res = true end.
Proof.
  intros Hwf Hr Hk Hva Hh.
  apply (walk_checked (fun l t => _verify l t va m) (fun _ => tt) roles m va Hwf Hva ltac:(done) 4 self _ Hr);
    [done|by apply home_root].
Qed.

(** The loop of [verify] succeeds on pages that are all granted, and only on
    those. *)
Lemma verify_loop_checked n : forall roles m self va,
  mem_wf kr roles m -> is_root roles self -> self <> kr -> 0 <= va -> va + 4096 * Z.of_nat n <= user_top ->
  exists res, verify_loop n 4 self va m = Ret res /\
    (res = Value tt <-> forall j, 0 <= j < Z.of_nat n -> is_Some (granted (leaf m self (va + 4096 * j)))).
Proof.
  induction n as [|n IH]; intros roles m self va Hwf Hr Hk Hva Ht.
  { eexists. split; [done|]. split; [lia|done]. }
  assert (user_top < 2 ^ 48) as Htop by reflexivity.
  destruct (verify_page_checked roles m self va Hwf Hr Hk Hva) as (res & E & Hres);
    [apply home_of_user; lia|].
  cbn [verify_loop]. rewrite E. cbn [mbind ctl_bind].
  destruct (granted (leaf m self va)) as [p|] eqn:Eg.
  - subst res. unfold PAGE_SIZE. rewrite (wrapu_small 64 (va + 4096)) by lia.
    destruct (IH roles m self (va + 4096) Hwf Hr Hk) as (res & E2 & Hres2); [lia..|].
    exists res. split; [done|]. rewrite Hres2. split; intros H j Hj.
    + destruct (decide (j = 0)) as [->|]; [rewrite Z.mul_0_r, Z.add_0_r, Eg; by eexists|].
      replace (va + 4096 * j) with (va + 4096 + 4096 * (j - 1)) by lia. apply H. lia.
    + replace (va + 4096 + 4096 * j) with (va + 4096 * (j + 1)) by lia. apply H. lia.
  - destruct res as [|e]; [done|]. eexists. split; [done|]. split; [done|]. intros H.
    specialize (H 0 ltac:(lia)). rewrite Z.mul_0_r, Z.add_0_r, Eg in H. by destruct H.
Qed.
End spaces.
