(* ===== verification/VmmSpaceSpec.v ===== *)
(** The contract of [VmmSpace]: an address space is a map from pages to frames
    and rights, that [map] extends, [unmap] reduces, [get_phys] and [verify]
    look up, and [create] starts with the kernel half alone. *)

From stdpp Require Import gmap.
From S2P Require Import Prelude Range.
From S2P Require Bitmap Pmm.
From S2P Require Import Paging PagingSpec PagingRanges.

Section contract.
Context (kr : Z).

(** The page of [va] in [s] is a page of the range [virt] of [self]. *)
Definition in_range (self : Z) (virt : Range) (s va : Z) : Prop :=
  home_of kr s va = self /\ start virt <= 4096 * page_of va < end_ virt.

Definition user_range (virt : Range) : Prop :=
  0 <= start virt <= end_ virt /\ end_ virt <= user_top /\ start virt mod 4096 = 0.

Lemma in_range_pages self virt s va :
  user_range virt -> len virt mod 4096 = 0 ->
  in_range self virt s va <->
  in_pages kr self (start virt / 4096) (Z.of_nat (Z.to_nat (len virt / 4096))) s va.
Proof.
  intros (Hr & Ht & Hs) Hl. assert (user_top < 2 ^ 48) as Htop by reflexivity.
  unfold len in *. rewrite wrapu_small in * by lia. unfold in_range, in_pages.
  assert (0 <= (end_ virt - start virt) / 4096) by (apply Z.div_pos; lia).
  rewrite Z2Nat.id by done. generalize (page_of va). intros x.
  apply and_iff_compat_l. Z.to_euclidean_division_equations. lia.
Qed.

Lemma range_page virt va :
  user_range virt -> len virt mod 4096 = 0 -> start virt <= 4096 * page_of va < end_ virt ->
  exists j, 0 <= j < Z.of_nat (Z.to_nat (len virt / 4096)) /\
    start virt + 0 + 4096 * j = 4096 * page_of va.
Proof.
  intros (Hr & Ht & Hs) Hl Hx. assert (user_top < 2 ^ 48) as Htop by reflexivity.
  unfold len in *. rewrite wrapu_small in * by lia. revert Hx. generalize (page_of va). intros x Hx.
  exists (x - start virt / 4096). rewrite Z2Nat.id by (apply Z.div_pos; lia).
  Z.to_euclidean_division_equations. lia.
Qed.

Lemma range_size virt :
  user_range virt -> len virt mod 4096 = 0 ->
  start virt + 0 + 4096 * Z.of_nat (Z.to_nat (len virt / 4096)) = end_ virt.
Proof.
  intros (Hr & Ht & Hs) Hl. assert (user_top < 2 ^ 48) as Htop by reflexivity.
  unfold len in *. rewrite wrapu_small in * by lia. rewrite Z2Nat.id by (apply Z.div_pos; lia).
  Z.to_euclidean_division_equations. lia.
Qed.

(** The leaf of an address is that of the first address of its page. *)
Lemma leaf_page_start m s va : 0 <= va -> leaf m s va = leaf m s (4096 * page_of va).
Proof.
  intros Hva. assert (0 <= page_of va < 2 ^ 36) by (apply Z.mod_pos_bound; lia).
  apply leaf_page; [done|lia|]. unfold page_of at 2.
  rewrite Z.mul_comm, Z.div_mul, Z.mod_small by lia. done.
Qed.

(** A range of user addresses, which may start inside a page, and the same range from
    the start of that page. *)
Definition user_span (virt : Range) : Prop := 0 <= start virt <= end_ virt /\ end_ virt <= user_top.
Definition page_range (virt : Range) : Range :=
  mk_Range (start virt / 4096 * 4096) (start virt / 4096 * 4096 + (end_ virt - start virt)).

Lemma user_range_span virt : user_range virt -> user_span virt.
Proof. by intros (? & ? & _). Qed.

Lemma page_range_user virt :
  user_span virt -> user_range (page_range virt) /\ len (page_range virt) = len virt /\
    start virt / 4096 = start (page_range virt) / 4096.
Proof.
  intros [Hv Ht]. assert (user_top < 2 ^ 48) as Htop by reflexivity.
  unfold page_range, user_range, len. cbn [start end_]. rewrite Z.div_mul, Z.mod_mul by lia.
  pose proof (Z.div_mod (start virt) 4096). pose proof (Z.mod_pos_bound (start virt) 4096).
  assert (0 <= start virt / 4096) by (apply Z.div_pos; lia).
  split_and!; try lia; done || (f_equal; lia).
Qed.

Lemma page_range_aligned virt : start virt mod 4096 = 0 -> page_range virt = virt.
Proof.
  intros Ha. destruct virt as [a b]. unfold page_range. cbn [start end_] in *.
  pose proof (Z.div_mod a 4096). f_equal; lia.
Qed.

Lemma map_range_spec roles m self virt phys flags :
  mem_wf kr roles m -> is_root roles self -> user_span virt ->
  let pages := page_range virt in
  exists res m' roles', map self virt phys flags m = Ret (res, m') /\
    roles ⊆ roles' /\ mem_wf kr roles' m' /\
    (forall s va, is_root roles s -> 0 <= va -> ~ in_range self pages s va -> leaf m' s va = leaf m s va) /\
    match res with
    | Value _ => len virt = len phys /\ len virt mod 4096 = 0 /\
        forall va, 0 <= va -> in_range self pages self va ->
        leaf m' self va = Some (page_create flags (u64 (start phys + (4096 * page_of va - start pages))))
    | Error _ => len virt <> len phys \/ len virt mod 4096 <> 0 \/ Pmm.full (pmm m')
    end.
Proof.
  intros Hwf Hr Hv pages. unfold map. unfold PAGE_SIZE.
  destruct (Z.eqb_spec (len virt) (len phys)) as [El|]; cbn [negb].
  2:{ eexists _, m, roles. do 3 (split; [done|]). split; [done|]. by left. }
  destruct (Z.eqb_spec (len virt mod 4096) 0) as [Em|]; cbn [negb].
  2:{ eexists _, m, roles. do 3 (split; [done|]). split; [done|]. right. by left. }
  destruct (page_range_user virt Hv) as (Hu & Hlen & Hst). fold pages in Hu, Hlen, Hst.
  assert (start virt + 4096 * Z.of_nat (Z.to_nat (len virt / 4096)) = end_ virt) as Hsz.
  { assert (user_top < 2 ^ 48) as Htop by reflexivity. destruct Hv as [Hv Ht]. unfold len in *.
    rewrite (wrapu_small 64 (end_ virt - start virt)) in * by lia. rewrite Z2Nat.id by (apply Z.div_pos; lia).
    pose proof (Z.div_mod (end_ virt - start virt) 4096). lia. }
  destruct Hv as [Hv1 Hv2].
  pose proof (map_loop_spec kr (Z.to_nat (len virt / 4096)) roles m self (start virt) (start phys) 0 flags
    Hwf Hr ltac:(lia) ltac:(lia) ltac:(lia)) as H.
  apply returns_iff in H as ([res m'] & E & roles' & Hsub & Hwf' & Hfr & Hres).
  exists res, m', roles'. split; [exact E|]. split; [done|]. split; [done|].
  rewrite <- Hlen in Em, Hfr, Hres. split.
  - intros s va Hs Hva Hout. apply Hfr; [done|done|]. rewrite Z.add_0_r, Hst.
    by rewrite <- (in_range_pages self pages s va Hu Em).
  - destruct res as [[]|e]; [|by right; right]. split; [done|]. split; [by rewrite <- Hlen|].
    intros va Hva [_ Hin]. destruct (range_page pages va Hu Em Hin) as (j & Hj & Ej).
    specialize (Hres j Hj).
    rewrite (leaf_page m' self (start virt + 0 + 4096 * j) (4096 * page_of va)) in Hres.
    + rewrite leaf_page_start, Hres by done. do 4 f_equal. lia.
    + lia.
    + assert (0 <= page_of va < 2 ^ 36) by (apply Z.mod_pos_bound; lia). lia.
    + rewrite <- Ej. unfold page_of. f_equal.
      replace (start virt + 0 + 4096 * j) with (start virt + j * 4096) by lia.
      replace (start pages + 0 + 4096 * j) with (start pages + j * 4096) by lia.
      by rewrite !Z.div_add, Hst by lia.
Qed.

Lemma unmap_range_spec roles m self virt user :
  mem_wf kr roles m -> is_root roles self -> self <> kr -> user_range virt ->
  exists res m' roles', unmap self virt user m = Ret (res, m') /\
    shrinks 4 roles roles' /\ mem_wf kr roles' m' /\
    (forall s va, is_root roles s -> 0 <= va -> ~ in_range self virt s va -> leaf m' s va = leaf m s va) /\
    (res = Value tt -> forall va, 0 <= va -> in_range self virt self va -> leaf m' self va = None).
Proof.
  intros Hwf Hr Hk Hv. unfold unmap, PAGE_SIZE. pose proof Hv as (Hv1 & Hv2 & ->).
  destruct (Z.eqb_spec (len virt mod 4096) 0) as [Em|]; cbn [negb orb Z.eqb].
  2:{ eexists _, m, roles. do 3 (split; [done|]). split; done. }
  pose proof (range_size virt Hv Em) as Hsz.
  pose proof (unmap_loop_spec kr (Z.to_nat (len virt / 4096)) roles m self (start virt) 0 user
    Hwf Hr Hk ltac:(lia) ltac:(lia) ltac:(lia)) as H.
  apply returns_iff in H as ([res m'] & E & roles' & Hsub & Hwf' & Hfr & Hres).
  exists res, m', roles'. split; [exact E|]. split; [done|]. split; [done|]. split.
  - intros s va Hs Hva Hout. apply Hfr; [done|done|]. rewrite Z.add_0_r.
    by rewrite <- (in_range_pages self virt s va Hv Em).
  - intros -> va Hva [_ Hin]. destruct (range_page virt va Hv Em Hin) as (j & Hj & Ej).
    specialize (Hres j Hj). rewrite Ej in Hres. by rewrite leaf_page_start, Hres by done.
Qed.

(** ** A new space *)

Lemma mapping_same_entries roles m m' l t r va :
  mem_wf kr roles m -> (forall t1 r1 j, roles !! t1 = Some r1 -> entry m' t1 j = entry m t1 j) ->
  roles !! t = Some r -> level r = l -> mapping l t va m' = mapping l t va m.
Proof.
  intros Hwf He Ht Hl. eapply mapping_agree; [exact Hwf| |exact Ht|exact Hl|].
  - intros t1 r1 j H1 Hl1 va1 Hj Hrec. rewrite !mapping_level by done. rewrite Hj, (He t1 r1 j H1).
    destruct (entry m t1 j) as [q|]; [|done]. cbn [mbind option_bind].
    destruct (_present q) eqn:E; [|done]. by apply Hrec.
  - intros t1 r1 H1 _ _. by rewrite !mapping_1, (He t1 r1).
Qed.
End contract.

(** A page becomes the top table of a space: its entries below 255 are empty,
    the others those of the kernel space. *)
Lemma add_root kr roles m a p lst :
  mem_wf kr roles m -> Pmm.pmm_wf p -> (4096 | a) -> 0 <= a < 2 ^ 64 ->
  Pmm.pmm_page (pmm m) a = Some false ->
  (forall x, Pmm.pmm_page p x = if Pmm.in_run a 1 x then Some true else Pmm.pmm_page (pmm m) x) ->
  length lst = PAGE_TABLE_SIZE ->
  (forall j q, aget lst j = Some q -> _present q = true ->
     255 <= j /\ is_root roles kr /\ entry m kr j = Some q) ->
  mem_wf kr (<[a := mk_role a 4 []]> roles) (set_table a lst (set_pmm m p)) /\ roles !! a = None.
Proof.
  intros Hwf Hpw Hal Hra Hfree Hpages Hlen Hl.
  assert (roles !! a = None) as Hfresh by (eapply unused_table; [exact Hwf|congruence]). split; [|done].
  pose proof Hwf as [W1 W2 W3 W4 W5 W6 W7 W8].
  assert (forall t j, entry (set_table a lst (set_pmm m p)) t j =
    if decide (t = a) then aget lst j else entry m t j) as He.
  { intros t j. unfold entry, set_table. cbn [tables]. case_decide as E.
    - subst. by rewrite lookup_insert_eq.
    - by rewrite lookup_insert_ne. }
  assert (forall t r j, roles !! t = Some r -> entry (set_table a lst (set_pmm m p)) t j = entry m t j) as Hold.
  { intros t r j Ht. rewrite He, decide_False; [done|]. congruence. }
  assert (forall t r j q, roles !! t = Some r -> (2 <= level r)%nat -> entry m t j = Some q ->
    _present q = true -> address q <> a) as Hna.
  { intros t r j q Ht Hlv Hq Hqr E. pose proof (W5 t r j q Ht Hlv Hq Hqr) as Hc. congruence. }
  split.
  - done.
  - intros t r [[<- <-]|[Hne Ht]]%lookup_insert_Some.
    + split; [simpl; lia|]. exists lst. simpl. by rewrite lookup_insert_eq.
    + destruct (W2 t r Ht) as (? & l & ? & ?). split; [done|]. exists l. simpl. by rewrite lookup_insert_ne.
  - intros t r [[<- <-]|[Hne Ht]]%lookup_insert_Some; simpl; rewrite Hpages.
    + by rewrite (proj2 (Pmm.in_run_1 a a Hal Hal) eq_refl).
    + destruct (W3 t r Ht) as (Hu & Hd & ?). split; [|done]. by destruct (Pmm.in_run a 1 t).
  - intros t r [[<- <-]|[Hne Ht]]%lookup_insert_Some; [done|]. by apply W4.
  - intros t r j q [[<- <-]|[Hne Ht]]%lookup_insert_Some Hlv Hq Hqr.
    + rewrite He, decide_True in Hq by done. destruct (Hl j q Hq Hqr) as (Hj & Hk & Hkq).
      rewrite lookup_insert_ne by (apply not_eq_sym; by eapply (Hna kr)).
      rewrite (W5 kr _ j q Hk ltac:(simpl; lia) Hkq Hqr). unfold child_role, home. cbn [owner level path].
      by rewrite bool_decide_eq_true_2.
    + rewrite (Hold t r) in Hq by done.
      rewrite lookup_insert_ne by (apply not_eq_sym; by eapply Hna). by apply (W5 t r j).
  - intros t r [[<- <-]|[Hne Ht]]%lookup_insert_Some Hlv; [simpl in Hlv; lia|].
    destruct (W6 t r Ht Hlv) as (t0 & r0 & j & q & H0 & ? & ? & ? & Hq & ?).
    exists t0, r0, j, q. rewrite lookup_insert_ne by congruence. by rewrite (Hold t0 r0).
  - intros t1 t2 r [[<- <-]|[Hne H1]]%lookup_insert_Some [[E H2]|[Hne2 H2]]%lookup_insert_Some;
      [done| | |by eapply W7].
    + by injection (W4 t2 _ H2 eq_refl) as <-.
    + subst r. by injection (W4 t1 _ H1 eq_refl) as ->.
  - intros t r j q k q2 [[<- <-]|[Hne Ht]]%lookup_insert_Some Hlv Hh Hq Hqr Hq2 Hq2r.
    + rewrite He, decide_True in Hq by done. destruct (Hl j q Hq Hqr) as (Hj & _).
      destruct Hh. unfold home. cbn [level]. by rewrite bool_decide_eq_true_2.
    + rewrite (Hold t r) in Hq by done. rewrite (Hold (address q) (child_role kr r j)) in Hq2 by by apply (W5 t r j).
      by eapply (W8 t r j q).
Qed.

(** [create] adds a space whose own half is empty. *)
Lemma create_spec kr roles m empty :
  mem_wf kr roles m -> (empty = false -> is_root roles kr) ->
  exists res m', create kr empty m = Ret (res, m') /\
    match res with
    | Error _ => Pmm.full (pmm m') /\ mem_wf kr roles m' /\ same_leaves roles m m'
    | Value root => roles !! root = None /\ mem_wf kr (<[root := mk_role root 4 []]> roles) m' /\
        (forall a, is_root roles a -> forall va, leaf m' a va = leaf m a va) /\
        forall va, 0 <= va -> leaf m' root va =
          if negb empty && (255 <=? index 4 va) then leaf m kr va else None
    end.
Proof.
  intros Hwf Hkr. unfold create.
  destruct (Pmm.allocate_one (pmm m) true (wf_pmm _ _ _ Hwf)) as (res & p & -> & Hpw & Hres).
  cbn [mbind ctl_bind]. destruct res as [a|e].
  2:{ eexists _, _. split; [done|]. destruct Hres as [Hf Hs]. split; [done|].
      split; [by apply wf_set_pmm|]. intros s va _. apply mapping_set_pmm. }
  destruct Hres as (Hal & Hra & Hfree & Hpages).
  assert (exists lst, (if empty then Ret (Value a, clear a (set_pmm m p))
       else l ← deref (tables (set_pmm m p) !! kr);
            Ret (Value a, set_table a (replicate 255 Page_empty ++ take (PAGE_TABLE_SIZE - 255) (drop 255 l)) (set_pmm m p)))
     = Ret (Value a, set_table a lst (set_pmm m p)) /\ length lst = PAGE_TABLE_SIZE /\
     forall j, 0 <= j < 512 -> aget lst j = if negb empty && (255 <=? j) then entry m kr j else Some Page_empty)
    as (lst & -> & Hlen & Hl).
  { destruct empty; cbn [negb andb].
    - exists (replicate PAGE_TABLE_SIZE Page_empty). split; [done|]. split; [done|]. intros j Hj.
      rewrite aget_lookup by lia. apply lookup_replicate_2. unfold PAGE_TABLE_SIZE. lia.
    - destruct (wf_table _ _ _ Hwf kr _ (Hkr eq_refl)) as (_ & l & Hlk & Hlen). cbn [tables set_pmm].
      rewrite Hlk. eexists. split; [done|]. unfold PAGE_TABLE_SIZE in *. 
      split; [rewrite length_app, length_replicate, length_take, length_drop; lia|].
      intros j Hj. unfold entry. rewrite Hlk. cbn [mbind option_bind]. rewrite !aget_lookup by lia.
      destruct (Z.leb_spec 255 j).
      + rewrite lookup_app_r by (rewrite length_replicate; lia). rewrite length_replicate, lookup_take_lt, lookup_drop by lia.
        f_equal. lia.
      + rewrite lookup_app_l by (rewrite length_replicate; lia). apply lookup_replicate_2. lia. }
  eexists _, _. split; [done|].
  assert (forall j q, aget lst j = Some q -> _present q = true ->
     negb empty = true /\ 255 <= j /\ entry m kr j = Some q) as Hq.
  { intros j q Hq Hqr. pose proof (aget_Some_range _ _ _ Hq) as Hj. rewrite Hlen in Hj.
    unfold PAGE_TABLE_SIZE in Hj. rewrite Hl in Hq by lia.
    destruct (negb empty); cbn [andb] in Hq; [|by injection Hq as <-].
    destruct (Z.leb_spec 255 j); [done|by injection Hq as <-]. }
  destruct (add_root kr roles m a p lst Hwf Hpw Hal Hra Hfree Hpages Hlen) as [Hwf' Hfresh].
  { intros j q H1 H2. destruct (Hq j q H1 H2) as (? & ? & ?). split; [done|]. split; [|done].
    apply Hkr. by destruct empty. }
  set (m' := set_table a lst (set_pmm m p)) in *. split; [done|]. split; [done|].
  assert (forall t1 r1 j, roles !! t1 = Some r1 -> entry m' t1 j = entry m t1 j) as He.
  { intros t1 r1 j H1. unfold entry, m', set_table. cbn [tables]. rewrite lookup_insert_ne; [done|congruence]. }
  split.
  - intros s Hs va. by apply (mapping_same_entries kr roles m m' 4 s _ va Hwf He Hs).
  - intros va Hva. pose proof (index_range 4 va ltac:(lia) Hva) as Hi. unfold leaf. rewrite !mapping_S.
    assert (entry m' a (index 4 va) = aget lst (index 4 va)) as ->.
    { unfold entry, m', set_table. cbn [tables]. by rewrite lookup_insert_eq. }
    rewrite Hl by done. destruct (negb empty && (255 <=? index 4 va)) eqn:E; [|done].
    apply andb_true_iff in E as [Ee E]. assert (is_root roles kr) as Hk by (apply Hkr; by destruct empty).
    destruct (entry m kr (index 4 va)) as [q|] eqn:Eq; [|done]. cbn [mbind option_bind].
    destruct (_present q) eqn:Eqr; [|done].
    pose proof (wf_child _ _ _ Hwf kr _ _ q Hk ltac:(simpl; lia) Eq Eqr) as Hc.
    eapply mapping_same_entries; [exact Hwf|exact He|exact Hc|done].
Qed.

(** ** The contract *)

(** C23: [VmmSpace::map] of a range of user addresses gives each page, from the one
    the range starts in and for as many as its length has, the frame at the same
    offset in the physical range, with the rights of the flags, and leaves every other
    page of every address space as it was; it fails only when the lengths differ, are
    not a number of pages, or no page of memory is left for a table. (The start is not
    tested: a range that starts inside a page is mapped from the start of that page,
    and the page its end lies in is not mapped.) *)
Theorem map_installs_range kr roles m self virt phys flags :
  mem_wf kr roles m -> is_root roles self -> user_span virt ->
  let pages := page_range virt in
  exists res m' roles', map self virt phys flags m = Ret (res, m') /\
    roles ⊆ roles' /\ mem_wf kr roles' m' /\
    (forall s va, is_root roles s -> 0 <= va -> ~ in_range kr self pages s va -> leaf m' s va = leaf m s va) /\
    match res with
    | Value _ => len virt = len phys /\ len virt mod 4096 = 0 /\
        forall va, 0 <= va -> in_range kr self pages self va ->
        leaf m' self va = Some (page_create flags (u64 (start phys + (4096 * page_of va - start pages))))
    | Error _ => len virt <> len phys \/ len virt mod 4096 <> 0 \/ Pmm.full (pmm m')
    end.
Proof. apply map_range_spec. Qed.

(** C24: [VmmSpace::unmap] of a range of user addresses that succeeds leaves no page
    of the range mapped; whether it succeeds or not, every page outside of the
    range, in every address space, is mapped as before, and the tables it gives
    back to the [Pmm] are those that map nothing. *)
Theorem unmap_removes_range kr roles m self virt user :
  mem_wf kr roles m -> is_root roles self -> self <> kr -> user_range virt ->
  exists res m' roles', unmap self virt user m = Ret (res, m') /\
    shrinks 4 roles roles' /\ mem_wf kr roles' m' /\
    (forall s va, is_root roles s -> 0 <= va -> ~ in_range kr self virt s va -> leaf m' s va = leaf m s va) /\
    (res = Value tt -> forall va, 0 <= va -> in_range kr self virt self va -> leaf m' self va = None).
Proof. apply unmap_range_spec. Qed.

(** [VmmSpace::get_phys] of a user address finds the physical address the page
    tables give it when the page is one a task may write, and fails when it is
    not: the test of the rights of every entry on the way amounts to the rights
    of the leaf. *)
Theorem get_phys_finds_granted kr roles m self va :
  mem_wf kr roles m -> is_root roles self -> self <> kr -> 0 <= va < user_top ->
  exists res, get_phys self va m = Ret res /\
    match granted (leaf m self va) with
    | Some p => res = Value (u64 (address p + va mod 4096))
    | None => is_error res = true
    end.
Proof.
  intros Hwf Hr Hk Hva. eapply get_phys_checked; [done..|lia|by apply home_of_user].
Qed.

(** The bounds of the loop of [verify]. *)
Lemma verify_bounds va size :
  0 <= va -> 0 <= size -> va + size + 8192 <= user_top ->
  alignDown va PAGE_SIZE = va / 4096 * 4096 /\
  (alignUp (u64 (alignDown va PAGE_SIZE + size)) PAGE_SIZE - alignDown va PAGE_SIZE) / PAGE_SIZE = (size + 4095) / 4096.
Proof.
  intros Hva Hsz Ht. assert (user_top < 2 ^ 48) as Htop by reflexivity. unfold PAGE_SIZE.
  change 4096 with (2 ^ 12) at 1. rewrite alignDown_pow2 by lia. split; [done|].
  assert (alignDown va 4096 = va / 4096 * 4096) as -> by (apply (alignDown_pow2 va 12); lia).
  assert (va / 4096 * 4096 <= va) by (Z.to_euclidean_division_equations; lia).
  assert (0 <= va / 4096 * 4096) by (Z.to_euclidean_division_equations; lia).
  rewrite wrapu_small by lia.
  assert (alignUp (va / 4096 * 4096 + size) 4096 = (va / 4096 * 4096 + size + 4096 - 1) / 4096 * 4096) as ->
    by (apply (alignUp_pow2 (va / 4096 * 4096 + size) 12); lia).
  Z.to_euclidean_division_equations. lia.
Qed.

Lemma verify_spec kr roles m self va size :
  mem_wf kr roles m -> is_root roles self -> self <> kr -> 0 <= va -> 0 <= size ->
  va + size + 8192 <= user_top ->
  exists res, verify self va size m = Ret res /\
    (res = Value tt <->
     forall x, va / 4096 * 4096 <= x < va / 4096 * 4096 + (size + 4095) / 4096 * 4096 ->
       is_Some (granted (leaf m self x))).
Proof.
  intros Hwf Hr Hk Hva Hsz Ht. unfold verify, table_verify.
  destruct (verify_bounds va size Hva Hsz Ht) as [Hd Hn]. rewrite Hn, Hd.
  assert (0 <= (size + 4095) / 4096) as Hn0 by (apply Z.div_pos; lia).
  destruct (verify_loop_checked kr (Z.to_nat ((size + 4095) / 4096)) roles m self (va / 4096 * 4096) Hwf Hr Hk)
    as (res & E & Hres).
  - apply Z.mul_nonneg_nonneg; [apply Z.div_pos; lia|lia].
  - rewrite Z2Nat.id by done. Z.to_euclidean_division_equations. lia.
  - exists res. split; [exact E|]. rewrite Hres, Z2Nat.id by done. split; intros H x Hx.
    + assert (0 <= va / 4096) by (apply Z.div_pos; lia).
      rewrite (leaf_page m self x (va / 4096 * 4096 + 4096 * (x / 4096 - va / 4096))); [apply H| |..].
      * Z.to_euclidean_division_equations. lia.
      * lia.
      * Z.to_euclidean_division_equations. lia.
      * unfold page_of. f_equal. Z.to_euclidean_division_equations. lia.
    + apply H. lia.
Qed.

(** [VmmSpace::verify] looks at the pages of as many bytes as the size, rounded
    up, counted from the start of the first page and not from the address: it
    accepts an object that crosses into a page that is not mapped. *)
Theorem verify_looks_from_page_start kr roles m self va size :
  mem_wf kr roles m -> is_root roles self -> self <> kr -> 0 <= va -> 0 <= size ->
  va + size + 8192 <= user_top ->
  exists res, verify self va size m = Ret res /\
    (res = Value tt <->
     forall x, va / 4096 * 4096 <= x < va / 4096 * 4096 + (size + 4095) / 4096 * 4096 ->
       is_Some (granted (leaf m self x))).
Proof. apply verify_spec. Qed.

(** [VmmSpace::create] takes one page for the top table; the new space maps
    nothing below entry 255 and what the kernel space maps from there on, and
    no other space changes. *)
Theorem create_shares_kernel kr roles m :
  mem_wf kr roles m -> is_root roles kr ->
  exists res m', create kr false m = Ret (res, m') /\
    match res with
    | Error _ => Pmm.full (pmm m') /\ mem_wf kr roles m' /\ same_leaves roles m m'
    | Value root => roles !! root = None /\ mem_wf kr (<[root := mk_role root 4 []]> roles) m' /\
        (forall a, is_root roles a -> forall va, leaf m' a va = leaf m a va) /\
        forall va, 0 <= va -> leaf m' root va = if 255 <=? index 4 va then leaf m kr va else None
    end.
Proof. intros Hwf Hk. by apply create_spec. Qed.

(** * Witnesses *)

(** Sixty-four free pages from 0x8000. *)
Definition free_pmm : Pmm.Pmm :=
  Pmm.mk_Pmm (Range.mk_Range 32768 36864)
    [Pmm.mk_PmmSection (Range.mk_Range 32768 (32768 + 64 * 4096)) (Bitmap.Bitmap_of (replicate 8 0))] 0
    (Pmm.mk_MachineContext []).

Lemma free_pmm_wf : Pmm.pmm_wf free_pmm.
Proof.
  split; [|by split; [constructor|]]. apply Forall_singleton.
  split; [split; simpl; [repeat constructor; lia|lia]|]. split; [simpl; lia|].
  split; [by exists 8|]. split; [reflexivity|simpl; lia].
Qed.

Definition after {A} (c : ctl (result A * mem)) (m : mem) : mem :=
  match c with Ret (_, m') => m' | _ => m end.

(** The kernel space, then a space, then two pages in it. *)
Definition no_space : mem := mk_mem ∅ free_pmm.
Definition kernel_space : mem := after (create 0 true no_space) no_space.
Definition one_space : mem := after (create 32768 false kernel_space) kernel_space.
Definition user_flags : PageFlags := mk_PageFlags true true false true false false.
Definition two_pages : Range := Range.mk_Range 0x400000 0x402000.
Definition two_frames : Range := Range.mk_Range 0x100000 0x102000.
Definition mapped_space : mem := after (map 36864 two_pages two_frames user_flags one_space) one_space.

Definition kernel_roles : gmap Z role := {[ 32768 := mk_role 32768 4 [] ]}.
Definition one_roles : gmap Z role := <[36864 := mk_role 36864 4 []]> kernel_roles.

Lemma no_space_wf kr : mem_wf kr ∅ no_space.
Proof. split; try done. exact free_pmm_wf. Qed.

Lemma kernel_space_wf : mem_wf 32768 kernel_roles kernel_space.
Proof.
  destruct (create_spec 32768 ∅ no_space true (no_space_wf _) ltac:(done)) as (res & m' & E & H).
  assert (create 32768 true no_space = create 0 true no_space) as E0 by reflexivity.
  unfold kernel_space. rewrite <- E0, E. cbn [after].
  assert (exists r, create 32768 true no_space = Ret (Value 32768, r)) as [r Er] by (eexists; vm_compute; reflexivity).
  rewrite E in Er. injection Er as -> _. apply H.
Qed.

Lemma one_space_wf : mem_wf 32768 one_roles one_space /\ is_root one_roles 36864.
Proof.
  split; [|apply lookup_insert_eq].
  destruct (create_spec 32768 kernel_roles kernel_space false kernel_space_wf) as (res & m' & E & H);
    [intros _; apply lookup_insert_eq|].
  unfold one_space. rewrite E. cbn [after].
  assert (exists r, create 32768 false kernel_space = Ret (Value 36864, r)) as [r Er]
    by (eexists; vm_compute; reflexivity).
  rewrite E in Er. injection Er as -> _. apply H.
Qed.

Lemma two_pages_user : user_range two_pages.
Proof. split; [simpl; lia|]. split; [unfold user_top; simpl; lia|reflexivity]. Qed.

Lemma mapped_space_wf : exists roles, mem_wf 32768 roles mapped_space /\ is_root roles 36864.
Proof.
  destruct one_space_wf as [Hwf Hr].
  destruct (map_range_spec 32768 one_roles one_space 36864 two_pages two_frames user_flags Hwf Hr
    (user_range_span _ two_pages_user))
    as (res & m' & roles' & E & Hsub & Hwf' & _).
  exists roles'. unfold mapped_space. rewrite E. split; [done|]. by eapply lookup_weaken.
Qed.

Lemma map_installs_range_witness :
  exists m', map 36864 two_pages two_frames user_flags one_space = Ret (Value tt, m') /\
    leaf m' 36864 0x401234 = Some (page_create user_flags 0x101000) /\
    leaf m' 36864 0x402000 = None.
Proof.
  destruct one_space_wf as [Hwf Hr].
  destruct (map_installs_range 32768 one_roles one_space 36864 two_pages two_frames user_flags Hwf Hr
    (user_range_span _ two_pages_user))
    as (res & m' & roles' & E & _ & _ & Hout & Hin).
  destruct res as [[]|e].
  - exists m'. split; [exact E|]. destruct Hin as (_ & _ & Hin). split.
    + rewrite Hin; [reflexivity|discriminate|]. split; [reflexivity|]. split; [discriminate|reflexivity].
    + rewrite Hout; [reflexivity|exact Hr|discriminate|]. intros [_ [_ H]]. discriminate H.
  - exfalso. assert (forall r, map 36864 two_pages two_frames user_flags one_space = Ret r ->
      is_error (fst r) = false) as Hok by (intros r; vm_compute; intros [= <-]; reflexivity).
    specialize (Hok _ E). discriminate Hok.
Defined.

Lemma unmap_removes_range_witness :
  exists m', unmap 36864 two_pages true mapped_space = Ret (Value tt, m') /\
    leaf mapped_space 36864 0x401234 = Some (page_create user_flags 0x101000) /\
    leaf m' 36864 0x401234 = None.
Proof.
  destruct mapped_space_wf as (roles & Hwf & Hr).
  destruct (unmap_removes_range 32768 roles mapped_space 36864 two_pages true Hwf Hr ltac:(done) two_pages_user)
    as (res & m' & roles' & E & _ & _ & _ & Hin).
  assert (res = Value tt) as ->.
  { assert (forall r, unmap 36864 two_pages true mapped_space = Ret r -> fst r = Value tt) as Hok
      by (intros r; vm_compute; intros [= <-]; reflexivity). exact (Hok _ E). }
  exists m'. split; [exact E|]. split; [vm_compute; reflexivity|].
  apply Hin; [reflexivity|discriminate|]. split; [reflexivity|]. split; [discriminate|reflexivity].
Defined.

Lemma get_phys_finds_granted_witness :
  get_phys 36864 0x401234 mapped_space = Ret (Value 0x101234) /\
  exists e, get_phys 36864 0x402000 mapped_space = Ret (Error e).
Proof.
  destruct mapped_space_wf as (roles & Hwf & Hr). split.
  - destruct (get_phys_finds_granted 32768 roles mapped_space 36864 0x401234 Hwf Hr ltac:(done)) as (res & -> & H).
    { split; [discriminate|reflexivity]. }
    f_equal. exact H.
  - destruct (get_phys_finds_granted 32768 roles mapped_space 36864 0x402000 Hwf Hr ltac:(done)) as (res & -> & H).
    { split; [discriminate|reflexivity]. }
    assert (leaf mapped_space 36864 0x402000 = None) as El by (vm_compute; reflexivity).
    rewrite El in H. destruct res as [x|e]; [discriminate H|]. by exists e.
Defined.

(** A structure of sixteen bytes, eight of them on a page that is not mapped. *)
Lemma verify_looks_from_page_start_witness :
  verify 36864 0x401ff8 16 mapped_space = Ret (Value tt) /\ leaf mapped_space 36864 (0x401ff8 + 8) = None.
Proof.
  split; [|vm_compute; reflexivity]. destruct mapped_space_wf as (roles & Hwf & Hr).
  destruct (verify_looks_from_page_start 32768 roles mapped_space 36864 0x401ff8 16 Hwf Hr ltac:(done))
    as (res & -> & H); [discriminate|discriminate|discriminate|].
  f_equal. apply H. intros x Hx. rewrite (leaf_page _ _ x 0x401ff8); [by vm_compute; eexists| |done|].
  - change (0x401ff8 / 4096 * 4096) with 0x401000 in Hx. lia.
  - unfold page_of. f_equal. change (0x401ff8 / 4096 * 4096) with 0x401000 in Hx.
    change (0x401ff8 / 4096) with 0x401. change ((16 + 4095) / 4096 * 4096) with 4096 in Hx.
    Z.to_euclidean_division_equations. lia.
Defined.

Lemma create_shares_kernel_witness :
  exists m', create 32768 false kernel_space = Ret (Value 36864, m') /\ leaf m' 36864 0x400000 = None.
Proof.
  destruct (create_shares_kernel 32768 kernel_roles kernel_space kernel_space_wf) as (res & m' & E & H);
    [apply lookup_insert_eq|].
  assert (res = Value 36864) as ->.
  { assert (forall r, create 32768 false kernel_space = Ret r -> fst r = Value 36864) as Hok
      by (intros r; vm_compute; intros [= <-]; reflexivity). exact (Hok _ E). }
  exists m'. split; [exact E|]. destruct H as (_ & _ & _ & H). rewrite H by discriminate. reflexivity.
Defined.
