(* ===== verification/Vec.v ===== *)
(** libcore/ds/vec.hpp: the growable array.

    [_slots] is the allocated storage ([None] for a slot that holds no object),
    its length is [_capacity]. Every operation that allocates makes one
    [malloc]/[realloc] call; its success is the Boolean [ok], so the theorems
    hold for every behaviour of the allocator. A C++ element type is a plain
    type here: moved-from objects keep their value until they are destroyed or
    overwritten. *)

From stdpp Require Import sorting.
From S2P Require Import Prelude.

Record Vec (A : Type) := mk_Vec { _slots : list (option A); _count : Z }.
Arguments mk_Vec {A} _ _.
Arguments _slots {A} _.
Arguments _count {A} _.

Section vec.
Context {A : Type}.
Implicit Types v other : Vec A.

Definition _capacity v : Z := zlen (_slots v).
Definition empty : Vec A := mk_Vec [] 0.
Definition len v : Z := _count v.

(** [_data[i]] as a value, and writing or destroying it. *)
Definition slot_get v (i : Z) : ctl A := o ← deref (aget (_slots v) i); deref o.
Definition slot_set v (i : Z) (x : option A) : ctl (Vec A) :=
  s ← deref (aset (_slots v) i x); Ret (mk_Vec s (_count v)).

Definition reserve (ok : bool) (capacity : Z) v : result unit * Vec A :=
  let ncap := Z.max capacity 8 in
  if (_capacity v =? 0) && (0 <? ncap) then
    if ok then (Value tt, mk_Vec (replicate (Z.to_nat (ncap * 2)) None) (_count v))
    else (Error "unable to allocate memory", v)
  else if _capacity v <? ncap then
    if ok then
      (Value tt, mk_Vec (_slots v ++ replicate (Z.to_nat (ncap * 2 - _capacity v)) None) (_count v))
    else (Error "unable to reallocate memory", v)
  else (Value tt, v).

Definition push (ok : bool) (value : A) v : ctl (result unit * Vec A) :=
  match reserve ok (_count v + 1) v with
  | (Error m, v) => Ret (Error m, v)
  | (Value _, v) =>
      v ← slot_set v (_count v) (Some value);
      Ret (Value tt, mk_Vec (_slots v) (_count v + 1))
  end.

(** [for (i ..; n more; i++) _data[base + i] = xs[i]] *)
Fixpoint place (base : Z) (xs : list A) v : ctl (Vec A) :=
  match xs with
  | [] => Ret v
  | x :: xs => v ← slot_set v base (Some x); place (base + 1) xs v
  end.

(** The first [_count] elements, read one by one. *)
Fixpoint read_from (i : Z) (n : nat) v : ctl (list A) :=
  match n with
  | O => Ret []
  | S n => x ← slot_get v i; xs ← read_from (i + 1) n v; Ret (x :: xs)
  end.
Definition elements v : ctl (list A) := read_from 0 (Z.to_nat (_count v)) v.

(** [~T()] on the elements, then [_count = 0]. *)
Fixpoint destroy_from (i : Z) (n : nat) v : ctl (Vec A) :=
  match n with
  | O => Ret v
  | S n => v ← slot_set v i None; destroy_from (i + 1) n v
  end.
Definition clear v : ctl (Vec A) :=
  v ← destroy_from 0 (Z.to_nat (_count v)) v; Ret (mk_Vec (_slots v) 0).

Definition release v : ctl (Vec A) :=
  if _capacity v =? 0 then Ret v
  else v ← clear v; Ret (mk_Vec [] (_count v)).

(** [operator+=(const Vec &)]: the result of [reserve] is not looked at. *)
Definition append (ok : bool) v other : ctl (Vec A) :=
  let v := snd (reserve ok (_count v + _count other) v) in
  xs ← elements other;
  v ← place (_count v) xs v;
  Ret (mk_Vec (_slots v) (_count v + _count other)).

(** [soft_add]: the elements move, the other vector is cleared. *)
Definition soft_add (ok : bool) v rhs : ctl (Vec A * Vec A) :=
  v ← append ok v rhs;
  rhs ← clear rhs;
  Ret (v, rhs).

(** [operator+=(Vec &&)]: the other vector's storage is freed. *)
Definition append_move (ok : bool) v other : ctl (Vec A * Vec A) :=
  v ← append ok v other;
  Ret (v, empty).

Definition move_assign v other : Vec A * Vec A := (other, v).

Definition copy (ok : bool) other : ctl (Vec A) :=
  if _count other =? 0 then Ret empty
  else if negb ok then Trap
  else
    xs ← elements other;
    v ← place 0 xs (mk_Vec (replicate (length (_slots other)) None) 0);
    Ret (mk_Vec (_slots v) (_count other)).

(** [operator=(const Vec &)] for two different vectors. *)
Definition copy_assign (ok : bool) v other : ctl (Vec A) :=
  v ← clear v;
  if _count other =? 0 then Ret v
  else
    let v := snd (reserve ok (_count other) v) in
    xs ← elements other;
    v ← place 0 xs v;
    Ret (mk_Vec (_slots v) (_count other)).

Definition push_elements (ok : bool) v arr : ctl (result unit * Vec A) :=
  match reserve ok (_count v + len arr) v with
  | (Error m, v) => Ret (Error m, v)
  | (Value _, v) =>
      xs ← elements arr;
      v ← place (_count v) xs v;
      Ret (Value tt, mk_Vec (_slots v) (_count v + len arr))
  end.

Definition last v : ctl A := slot_get v (_count v - 1).

(** [operator[]] (the index is a [size_t]). *)
Definition index v (i : Z) : ctl A := if len v <=? i then Trap else slot_get v i.
Definition index_set v (i : Z) (x : A) : ctl (Vec A) :=
  if len v <=? i then Trap else slot_set v i (Some x).

Definition pop v : ctl (A * Vec A) :=
  if 0 <? _count v then
    let c := _count v - 1 in
    x ← slot_get v c;
    v ← slot_set v c None;
    Ret (x, mk_Vec (_slots v) c)
  else Trap.

(** [for (i; i < _count - 1; i++) _data[i] = move(_data[i + 1])], [n] times. *)
Fixpoint shift_down (i : Z) (n : nat) v : ctl (Vec A) :=
  match n with
  | O => Ret v
  | S n => x ← slot_get v (i + 1); v ← slot_set v i (Some x); shift_down (i + 1) n v
  end.

Definition pop_at (id : Z) v : ctl (A * Vec A) :=
  if _count v <=? id then Trap
  else
    value ← slot_get v id;
    v ← shift_down id (Z.to_nat (_count v - 1 - id)) v;
    v ← slot_set v (_count v - 1) None;
    Ret (value, mk_Vec (_slots v) (_count v - 1)).

(** [_data[i] = x]: an assignment, also where the slot holds no object. *)
Definition slot_assign (plain : bool) v (i : Z) (x : A) : ctl (Vec A) :=
  o ← deref (aget (_slots v) i); assign_over plain o;; slot_set v i (Some x).

(** [for (i = _count; i > id; i--) _data[i] = move(_data[i - 1])], [n] times: the
    first slot assigned to is the one after the last element. *)
Fixpoint shift_up (plain : bool) (i : Z) (n : nat) v : ctl (Vec A) :=
  match n with
  | O => Ret v
  | S n => x ← slot_get v (i - 1); v ← slot_assign plain v i x; shift_up plain (i - 1) n v
  end.

Definition insert (plain ok : bool) (id : Z) (el : A) v : ctl (result unit * Vec A) :=
  let id := if _count v <? id then _count v - 1 else id in
  let '(r, v) := if _count v =? _capacity v then reserve ok (_capacity v * 2) v
                 else (Value tt, v) in
  match r with
  | Error m => Ret (Error m, v)
  | Value _ =>
      v ← shift_up plain (_count v) (Z.to_nat (_count v - id)) v;
      v ← slot_set v id (Some el);
      Ret (Value tt, mk_Vec (_slots v) (_count v + 1))
  end.

Definition with_capacity (ok : bool) (capacity : Z) : result (Vec A) :=
  match reserve ok capacity empty with
  | (Value _, v) => Value v
  | (Error m, _) => Error m
  end.

Fixpoint contain_loop `{EqDecision A} (value : A) (i : Z) (n : nat) v : ctl bool :=
  match n with
  | O => Ret false
  | S n => x ← slot_get v i; if decide (x = value) then Ret true else contain_loop value (i + 1) n v
  end.
Definition contain `{EqDecision A} (value : A) v : ctl bool :=
  contain_loop value 0 (Z.to_nat (_count v)) v.

(** ** Ordered operations, for a comparison [AminusB a b < 0] *)

Variable AminusB : A -> A -> Z.

(** The binary search of [add_sorted]; [mid] is computed with the truncating
    division of C. *)
Fixpoint search (fuel : nat) (el : A) (l r : Z) v : ctl Z :=
  let mid := l + Z.quot (r - l) 2 in
  if r <? l then Ret mid
  else match fuel with
  | O => NoFuel
  | S fuel =>
      x ← slot_get v mid;
      if AminusB el x <? 0 then search fuel el l (mid - 1) v
      else search fuel el (mid + 1) r v
  end.

(** The [Result] of [insert] is dropped. *)
Definition add_sorted (plain ok : bool) (el : A) v : ctl (Vec A) :=
  mid ← search (Z.to_nat (_count v)) el 0 (_count v - 1) v;
  '(_, v) ← insert plain ok mid el v;
  Ret v.

Definition swap (i j : Z) v : ctl (Vec A) :=
  x ← slot_get v i;
  y ← slot_get v j;
  v ← slot_set v i (Some y);
  slot_set v j (Some x).

Definition INT_MAX : Z := 2 ^ 31 - 1.

(** [for (int j = l; j < r; j++)], [n = r - j] steps left; [j] overflowing an
    [int] is undefined. *)
Fixpoint partition (pivot : A) (sI j : Z) (n : nat) v : ctl (Z * Vec A) :=
  match n with
  | O => Ret (sI, v)
  | S n =>
      if INT_MAX <? j then Trap
      else
        x ← slot_get v j;
        if AminusB x pivot <? 0
        then v ← swap (sI + 1) j v; partition pivot (sI + 1) (j + 1) n v
        else partition pivot sI (j + 1) n v
  end.

Fixpoint quick_sort (fuel : nat) (l r : Z) v : ctl (Vec A) :=
  if r <=? l then Ret v
  else match fuel with
  | O => NoFuel
  | S fuel =>
      let r := Z.min (_count v - 1) r in
      pivot ← slot_get v r;
      '(sI, v) ← partition pivot (l - 1) l (Z.to_nat (r - l)) v;
      v ← swap (sI + 1) r v;
      v ← quick_sort fuel l sI v;
      quick_sort fuel (sI + 2) r v
  end.
End vec.

(** Correctness of [fc::Vec]: every operation refines the same operation on
    the list of elements, and the ordered operations sort. *)

(** [vrep v l]: the vector holds exactly [l], its other slots are raw. *)
Definition vrep {A} (v : Vec A) (l : list A) : Prop :=
  exists k, v = mk_Vec ((Some <$> l) ++ replicate k None) (zlen l).

Section rep.
Context {A : Type}.
Implicit Types (v : Vec A) (l : list A).

Lemma vrep_intro l k : vrep (mk_Vec ((Some <$> l) ++ replicate k None) (zlen l)) l.
Proof. by exists k. Qed.

Lemma vrep_count v l : vrep v l -> _count v = zlen l.
Proof. by intros [k ->]. Qed.

Lemma vrep_capacity v l : vrep v l -> zlen l <= _capacity v.
Proof.
  intros [k ->]. unfold _capacity. simpl.
  rewrite length_app, length_fmap, length_replicate. lia.
Qed.

Lemma vrep_empty : vrep (@empty A) [].
Proof. by exists O. Qed.

Lemma slot_get_rep v l i : vrep v l -> 0 <= i < zlen l ->
  slot_get v i = deref (l !! Z.to_nat i).
Proof.
  intros [k ->] Hi. unfold slot_get. simpl. rewrite aget_lookup by lia.
  rewrite lookup_app_l by len_lia. rewrite list_lookup_fmap.
  destruct (l !! Z.to_nat i); done.
Qed.

Lemma slot_get_mid v l1 x l2 i :
  vrep v (l1 ++ x :: l2) -> i = zlen l1 -> slot_get v i = Ret x.
Proof.
  intros Hv ->. erewrite slot_get_rep by (try done; rewrite length_app; simpl; lia).
  by rewrite list_lookup_middle by lia.
Qed.

(** Storage seen as a list of optional elements. *)
Lemma slot_set_mid c s1 o s2 i x :
  i = zlen s1 -> slot_set (mk_Vec (s1 ++ o :: s2) c) i x = Ret (mk_Vec (s1 ++ x :: s2) c : Vec A).
Proof.
  intros ->. unfold slot_set. simpl.
  rewrite aset_in_range by len_lia. simpl.
  rewrite Nat2Z.id, insert_app_r_alt by lia. by rewrite Nat.sub_diag.
Qed.

Lemma slot_set_elem v l1 x l2 i y :
  vrep v (l1 ++ x :: l2) -> i = zlen l1 ->
  exists v', slot_set v i (Some y) = Ret v' /\ vrep v' (l1 ++ y :: l2).
Proof.
  intros [k ->] ->. rewrite !fmap_app, fmap_cons, <- app_assoc. simpl app.
  erewrite slot_set_mid by len_lia.
  eexists. split; [done|]. exists k. rewrite fmap_app, fmap_cons, <- app_assoc.
  f_equal. rewrite !length_app. done.
Qed.

(** [reserve] changes nothing but the raw tail, and makes room. *)
Lemma reserve_rep ok c v l :
  vrep v l ->
  match reserve ok c v with
  | (Value _, v') => vrep v' l /\ c <= _capacity v'
  | (Error _, v') => v' = v
  end.
Proof.
  intros [k ->]. unfold reserve, _capacity. simpl.
  rewrite length_app, length_fmap, length_replicate.
  case_Z; simpl; try lia; destruct ok; try done; simpl.
  - destruct l; [|simpl in *; lia]. destruct k; [|simpl in *; lia].
    split; [by eexists|]. rewrite length_replicate. lia.
  - rewrite <- app_assoc, <- replicate_add. split; [by eexists|].
    rewrite length_app, length_fmap, length_replicate. lia.
  - split; [by eexists|]. rewrite length_app, length_fmap, length_replicate. lia.
  - split; [by eexists|]. rewrite length_app, length_fmap, length_replicate. lia.
Qed.

Lemma reserve_min ok c v u v' : reserve ok c v = (Value u, v') -> 8 <= _capacity v'.
Proof.
  unfold reserve. case_Z; simpl; intros E; try (destruct ok; simplify_eq);
    simplify_eq; unfold _capacity in *; simpl in *; len_lia.
Qed.

(** Placing [xs] after the elements, when there is room. *)
Lemma place_rep xs : forall l k c,
  (length xs <= k)%nat ->
  place (zlen l) xs (mk_Vec ((Some <$> l) ++ replicate k None) c)
    = Ret (mk_Vec ((Some <$> (l ++ xs)) ++ replicate (k - length xs) None) c : Vec A).
Proof.
  induction xs as [|x xs IH]; intros l k c Hk; simpl.
  { rewrite app_nil_r, Nat.sub_0_r. done. }
  destruct k as [|k]; simpl in Hk; [lia|]. simpl replicate.
  rewrite slot_set_mid by len_lia. simpl.
  specialize (IH (l ++ [x]) k c). forward IH by lia.
  rewrite fmap_app, <- app_assoc in IH. simpl in IH.
  replace (zlen l + 1) with (zlen (l ++ [x])) by len_lia.
  rewrite IH. by rewrite <- app_assoc.
Qed.

Lemma read_from_rep v l2 : forall l1,
  vrep v (l1 ++ l2) -> read_from (zlen l1) (length l2) v = Ret l2.
Proof.
  induction l2 as [|x l2 IH]; intros l1 Hv; simpl; [done|].
  rewrite (slot_get_mid v l1 x l2) by done. simpl.
  specialize (IH (l1 ++ [x])). rewrite <- app_assoc in IH. simpl in IH.
  forward IH by done. rewrite length_app in IH. simpl in IH.
  replace (zlen l1 + 1) with (Z.of_nat (length l1 + 1)) by lia. by rewrite IH.
Qed.

Lemma elements_rep v l : vrep v l -> elements v = Ret l.
Proof.
  intros Hv. unfold elements. rewrite (vrep_count _ _ Hv), Nat2Z.id.
  by apply (read_from_rep v l []).
Qed.

Lemma destroy_rep l : forall n k c,
  destroy_from (Z.of_nat n) (length l)
    (mk_Vec (replicate n None ++ (Some <$> l) ++ replicate k None) c)
  = Ret (mk_Vec (replicate (n + length l + k) None) c : Vec A).
Proof.
  induction l as [|x l IH]; intros n k c; simpl.
  { by rewrite <- replicate_add, Nat.add_0_r. }
  rewrite slot_set_mid by len_lia. simpl.
  specialize (IH (S n) k c). rewrite replicate_S_end, <- app_assoc in IH.
  replace (Z.of_nat n + 1) with (Z.of_nat (S n)) by lia.
  etransitivity; [exact IH|]. do 3 f_equal. lia.
Qed.

Lemma clear_rep v l : vrep v l -> exists v', clear v = Ret v' /\ vrep v' [] /\
  _capacity v' = _capacity v.
Proof.
  intros [k ->]. unfold clear. simpl. rewrite Nat2Z.id.
  pose proof (destroy_rep l 0 k (zlen l)) as H. change (Z.of_nat 0) with 0 in H.
  simpl app in H. rewrite H. simpl.
  eexists. split; [done|]. split; [by eexists|].
  unfold _capacity. simpl. rewrite length_app, length_fmap, !length_replicate. done.
Qed.

Lemma room_after v l c :
  vrep v l -> c <= _capacity v ->
  exists k, v = mk_Vec ((Some <$> l) ++ replicate k None) (zlen l) /\ c <= zlen l + Z.of_nat k.
Proof.
  intros [k ->] Hc. exists k. split; [done|]. unfold _capacity in Hc. simpl in Hc.
  rewrite length_app, length_fmap, length_replicate in Hc. lia.
Qed.

Lemma push_rep ok x v l :
  vrep v l ->
  (exists v', push ok x v = Ret (Value tt, v') /\ vrep v' (l ++ [x])) \/
  (ok = false /\ exists m, push ok x v = Ret (Error m, v)).
Proof.
  intros Hv. unfold push. pose proof (reserve_rep ok (_count v + 1) v l Hv) as Hr.
  pose proof (vrep_count _ _ Hv) as Hc.
  destruct (reserve ok (_count v + 1) v) as [[[]|m] v'] eqn:E.
  - left. destruct Hr as [Hv' Hcap]. rewrite (vrep_count _ _ Hv').
    destruct (room_after _ _ _ Hv' Hcap) as (k & -> & Hk).
    destruct k as [|k]; [lia|]. simpl replicate.
    rewrite slot_set_mid by len_lia. simpl. eexists. split; [done|].
    exists k. rewrite fmap_app, <- app_assoc. f_equal. rewrite length_app. simpl. lia.
  - right. subst v'. split; [|by eauto]. destruct ok; [|done].
    unfold reserve in E. repeat case_match; done.
Qed.

Lemma append_rep v l other l' :
  vrep v l -> vrep other l' ->
  exists v', append true v other = Ret v' /\ vrep v' (l ++ l').
Proof.
  intros Hv Ho. unfold append.
  pose proof (reserve_rep true (_count v + _count other) v l Hv) as Hr.
  destruct (reserve true _ v) as [[[]|m] v'] eqn:E.
  2:{ unfold reserve in E. repeat case_match; done. }
  simpl. rewrite (elements_rep _ _ Ho). simpl. destruct Hr as [Hv' Hcap].
  destruct (room_after _ _ _ Hv' Hcap) as (k & -> & Hk).
  rewrite (vrep_count _ _ Hv), (vrep_count _ _ Ho) in *.
  simpl _count. rewrite place_rep by lia. simpl. eexists. split; [done|].
  eexists. f_equal. rewrite length_app. lia.
Qed.

Lemma soft_add_rep v l other l' :
  vrep v l -> vrep other l' ->
  exists v' o', soft_add true v other = Ret (v', o') /\ vrep v' (l ++ l') /\ vrep o' [].
Proof.
  intros Hv Ho. unfold soft_add. destruct (append_rep _ _ _ _ Hv Ho) as (v' & -> & ?).
  simpl. destruct (clear_rep _ _ Ho) as (o' & -> & ? & _). simpl. by eauto 10.
Qed.

Lemma pop_rep v l x : vrep v (l ++ [x]) -> exists v', pop v = Ret (x, v') /\ vrep v' l.
Proof.
  intros Hv. unfold pop. pose proof (vrep_count _ _ Hv) as Hc.
  rewrite length_app in Hc. simpl in Hc. rewrite (proj2 (Z.ltb_lt _ _)) by lia.
  rewrite (slot_get_mid v l x []) by (done || lia). simpl.
  destruct Hv as [k ->]. rewrite fmap_app, <- app_assoc. simpl.
  rewrite slot_set_mid by len_lia. simpl.
  eexists. split; [done|]. exists (S k). simpl. f_equal. rewrite length_app. simpl. lia.
Qed.

(** The shift loop closes the gap left at [l1]. *)
Lemma shift_down_rep l2 : forall l1 x v,
  vrep v (l1 ++ x :: l2) ->
  exists v', shift_down (zlen l1) (length l2) v = Ret v' /\
    exists y, vrep v' (l1 ++ l2 ++ [y]).
Proof.
  induction l2 as [|y l2 IH]; intros l1 x v Hv; simpl.
  { exists v. split; [done|]. by exists x. }
  rewrite (slot_get_mid v (l1 ++ [x]) y l2).
  2:{ by rewrite <- app_assoc. } 2:{ rewrite length_app. simpl. lia. }
  simpl. destruct (slot_set_elem v l1 x (y :: l2) (zlen l1) y Hv eq_refl) as (v1 & -> & Hv1).
  simpl. destruct (IH (l1 ++ [y]) y v1) as (v2 & E & z & Hv2).
  { by rewrite <- app_assoc. }
  replace (zlen l1 + 1) with (zlen (l1 ++ [y])) by len_lia.
  rewrite E. exists v2. split; [done|]. exists z. by rewrite <- app_assoc in Hv2.
Qed.

Lemma pop_at_rep v l1 x l2 :
  vrep v (l1 ++ x :: l2) ->
  exists v', pop_at (zlen l1) v = Ret (x, v') /\ vrep v' (l1 ++ l2).
Proof.
  intros Hv. unfold pop_at. pose proof (vrep_count _ _ Hv) as Hc.
  rewrite length_app in Hc. simpl in Hc. rewrite (proj2 (Z.leb_gt _ _)) by lia.
  rewrite (slot_get_mid v l1 x l2) by done. simpl.
  destruct (shift_down_rep l2 l1 x v Hv) as (v1 & E & y & [k ->]).
  replace (Z.to_nat _) with (length l2) by lia. rewrite E. simpl.
  rewrite app_assoc, fmap_app, <- app_assoc. simpl.
  rewrite slot_set_mid by len_lia. simpl.
  eexists. split; [done|]. exists (S k). simpl. f_equal. rewrite !length_app. simpl. lia.
Qed.

Lemma slot_get_st c s1 x s2 i :
  i = zlen s1 -> slot_get (mk_Vec (s1 ++ Some x :: s2) c : Vec A) i = Ret x.
Proof.
  intros ->. unfold slot_get. simpl. rewrite aget_nat, lookup_app_r by lia.
  by rewrite Nat.sub_diag.
Qed.

(** The shift loop opens a gap: the storage after the elements is arbitrary. *)
Lemma slot_assign_mid plain c s1 o s2 i x :
  i = zlen s1 -> plain = true \/ is_Some o ->
  slot_assign plain (mk_Vec (s1 ++ o :: s2) c) i x = Ret (mk_Vec (s1 ++ Some x :: s2) c : Vec A).
Proof.
  intros -> Ho. unfold slot_assign. cbn [_slots]. rewrite aget_lookup, Nat2Z.id, list_lookup_middle by lia.
  cbn [deref mbind ctl_bind].
  assert (assign_over plain o = Ret tt) as -> by (destruct Ho as [->|[z ->]]; [by destruct o|done]).
  by apply slot_set_mid.
Qed.

Lemma shift_up_rep plain c l2 : forall l1 x y t, plain = true \/ is_Some y ->
  shift_up plain (zlen (l1 ++ x :: l2)) (S (length l2))
    (mk_Vec ((Some <$> (l1 ++ x :: l2)) ++ y :: t) c)
  = Ret (mk_Vec ((Some <$> (l1 ++ x :: x :: l2)) ++ t) c : Vec A).
Proof.
  induction l2 as [|z l2 IH] using rev_ind; intros l1 x y t Hy.
  - rewrite fmap_app, <- app_assoc. simpl.
    rewrite slot_get_st by len_lia. simpl.
    rewrite cons_middle, app_assoc.
    rewrite slot_assign_mid by (len_lia || done). simpl.
    by rewrite fmap_app, <- !app_assoc.
  - set (L := l1 ++ x :: l2).
    assert (l1 ++ x :: l2 ++ [z] = L ++ [z]) as EL by (unfold L; by rewrite <- app_assoc).
    rewrite EL. replace (length (l2 ++ [z])) with (S (length l2)) by len_lia.
    remember (S (length l2)) as n eqn:Hn. simpl.
    rewrite fmap_app, <- app_assoc. simpl.
    rewrite slot_get_st by len_lia. simpl.
    replace ((Some <$> L) ++ Some z :: y :: t) with (((Some <$> L) ++ [Some z]) ++ y :: t)
      by by rewrite <- app_assoc.
    rewrite slot_assign_mid by (len_lia || done). simpl. rewrite <- app_assoc. simpl.
    replace (zlen (L ++ [z]) - 1) with (zlen L) by len_lia.
    unfold L. rewrite IH by (right; by eexists). do 2 f_equal.
    rewrite (cons_middle (Some z)), app_assoc. f_equal.
    rewrite !fmap_app. simpl. rewrite fmap_app. simpl. by rewrite <- app_assoc.
Qed.

Lemma insert_rep plain ok v l1 l2 el :
  vrep v (l1 ++ l2) -> plain = true \/ l2 = [] ->
  (exists v', insert plain ok (zlen l1) el v = Ret (Value tt, v') /\ vrep v' (l1 ++ el :: l2)) \/
  (ok = false /\ exists m, insert plain ok (zlen l1) el v = Ret (Error m, v)).
Proof.
  intros Hv Hp. unfold insert. pose proof (vrep_count _ _ Hv) as Hc.
  rewrite length_app in Hc. rewrite (proj2 (Z.ltb_ge _ _)) by lia.
  assert (forall v', vrep v' (l1 ++ l2) -> zlen (l1 ++ l2) + 1 <= _capacity v' ->
    exists v'', (v1 ← shift_up plain (_count v') (Z.to_nat (_count v' - zlen l1)) v';
                 v1 ← slot_set v1 (zlen l1) (Some el);
                 Ret (Value tt, mk_Vec (_slots v1) (_count v1 + 1))) = Ret (Value tt, v'')
      /\ vrep v'' (l1 ++ el :: l2)) as Hroom.
  { intros v' Hv' Hcap. destruct (room_after _ _ _ Hv' Hcap) as (k & -> & Hk).
    destruct k as [|k]; [lia|]. simpl replicate. simpl _count.
    replace (Z.to_nat _) with (length l2) by len_lia.
    destruct l2 as [|x l2].
    - rewrite app_nil_r. simpl. rewrite slot_set_mid by len_lia. simpl.
      eexists. split; [done|]. exists k. rewrite fmap_app, <- app_assoc. f_equal.
      rewrite length_app. simpl. lia.
    - simpl length. rewrite shift_up_rep by (left; by destruct Hp). simpl.
      rewrite fmap_app, <- app_assoc. simpl.
      rewrite slot_set_mid by len_lia. simpl.
      eexists. split; [done|]. exists k. rewrite fmap_app, <- app_assoc. f_equal.
      rewrite !length_app. simpl. lia. }
  pose proof (reserve_rep ok (_capacity v * 2) v _ Hv) as Hr.
  pose proof (vrep_capacity _ _ Hv) as Hcap. rewrite length_app in Hcap.
  destruct (Z.eqb_spec (_count v) (_capacity v)).
  - destruct (reserve ok (_capacity v * 2) v) as [[[]|m] v'] eqn:E.
    + left. destruct Hr as [Hv' Hcap'].
      pose proof (reserve_min _ _ _ _ _ E) as H8.
      replace (_count v) with (_count v') in *.
      2:{ rewrite (vrep_count _ _ Hv'), length_app. lia. }
      apply Hroom; [done|]. rewrite length_app. lia.
    + right. subst v'. split; [|by eauto]. destruct ok; [|done].
      unfold reserve in E. repeat case_match; done.
  - left. apply Hroom; [done|]. rewrite length_app. lia.
Qed.

(** A type that is not plain: the first assignment is to a slot without an object. *)
Lemma insert_raw v l1 l2 el : vrep v (l1 ++ l2) -> l2 <> [] -> insert false true (zlen l1) el v = Trap.
Proof.
  intros Hv Hne. unfold insert. pose proof (vrep_count _ _ Hv) as Hc. rewrite length_app in Hc.
  rewrite (proj2 (Z.ltb_ge _ _)) by lia.
  assert (exists v', (if _count v =? _capacity v then reserve true (_capacity v * 2) v else (Value tt, v)) = (Value tt, v') /\
    vrep v' (l1 ++ l2) /\ zlen (l1 ++ l2) + 1 <= _capacity v') as (v'&->&Hv'&Hcap).
  { pose proof (reserve_rep true (_capacity v * 2) v _ Hv) as Hr.
    pose proof (vrep_capacity _ _ Hv) as Hcap. rewrite length_app in Hcap.
    destruct (Z.eqb_spec (_count v) (_capacity v)); [|exists v; split; [done|]; split; [done|]; rewrite length_app; lia].
    destruct (reserve true (_capacity v * 2) v) as [[[]|m] v'] eqn:E; [|unfold reserve in E; repeat case_match; done].
    destruct Hr as [Hv' Hcap']. pose proof (reserve_min _ _ _ _ _ E). exists v'. split; [done|]. split; [done|]. rewrite length_app. lia. }
  destruct (room_after _ _ _ Hv' Hcap) as (k & -> & Hk). destruct k as [|k]; [lia|]. cbn [_count replicate].
  destruct l2 as [|x l2 _] using rev_ind; [done|]. rewrite (app_assoc l1).
  replace (Z.to_nat (zlen ((l1 ++ l2) ++ [x]) - zlen l1)) with (S (length l2)) by len_lia. cbn [shift_up].
  rewrite (slot_get_mid _ (l1 ++ l2) x [] _ (vrep_intro _ (S k))) by len_lia. cbn [mbind ctl_bind].
  unfold slot_assign. cbn [_slots].
  by rewrite aget_lookup, Nat2Z.id, (list_lookup_middle _ _ None) by (len_lia || lia).
Qed.

Lemma swap_rep v l1 x l2 y l3 i j :
  vrep v (l1 ++ x :: l2 ++ y :: l3) -> i = zlen l1 -> j = zlen l1 + 1 + zlen l2 ->
  exists v', swap i j v = Ret v' /\ vrep v' (l1 ++ y :: l2 ++ x :: l3).
Proof.
  intros Hv Hi Hj. unfold swap. rewrite (slot_get_mid v l1 x _ i Hv Hi). simpl.
  rewrite (slot_get_mid v (l1 ++ x :: l2) y l3 j).
  2:{ by rewrite <- app_assoc. } 2:{ rewrite length_app. simpl. lia. }
  simpl. destruct (slot_set_elem v l1 x _ i y Hv Hi) as (v1 & -> & Hv1). simpl.
  destruct (slot_set_elem v1 (l1 ++ y :: l2) y l3 j x) as (v2 & -> & Hv2).
  { by rewrite <- app_assoc. } { rewrite length_app. simpl. lia. }
  exists v2. by rewrite <- app_assoc in Hv2.
Qed.

Lemma swap_self_rep v l1 x l2 i :
  vrep v (l1 ++ x :: l2) -> i = zlen l1 ->
  exists v', swap i i v = Ret v' /\ vrep v' (l1 ++ x :: l2).
Proof.
  intros Hv Hi. unfold swap. rewrite (slot_get_mid v l1 x _ i Hv Hi). simpl.
  destruct (slot_set_elem v l1 x _ i x Hv Hi) as (v1 & -> & Hv1). simpl.
  exact (slot_set_elem v1 l1 x l2 i x Hv1 Hi).
Qed.
End rep.

(** * Ordered operations *)

Section ordered.
Context {A : Type} (AminusB : A -> A -> Z).

Definition less (a b : A) : Prop := AminusB a b < 0.
Definition not_after (a b : A) : Prop := ~ less b a.

Hypothesis less_trans : forall a b c, less a b -> less b c -> less a c.
Hypothesis less_asym : forall a b, less a b -> ~ less b a.

(** One partition pass: [a] below the pivot, [b] not below it, [rest] not
    seen yet. *)
Lemma partition_spec (pre post : list A) p rest : forall a b v,
  vrep v (pre ++ (a ++ b ++ rest) ++ post) ->
  Forall (fun x => less x p) a -> Forall (fun x => not_after p x) b ->
  zlen (pre ++ (a ++ b ++ rest) ++ post) <= INT_MAX + 1 ->
  exists a' b' v',
    partition AminusB p (zlen pre + zlen a - 1) (zlen pre + zlen a + zlen b) (length rest) v
      = Ret (zlen pre + zlen a' - 1, v') /\
    vrep v' (pre ++ (a' ++ b') ++ post) /\ a' ++ b' ≡ₚ a ++ b ++ rest /\
    Forall (fun x => less x p) a' /\ Forall (fun x => not_after p x) b'.
Proof.
  induction rest as [|x rest IH]; intros a b v Hv Ha Hb Hint; simpl.
  { exists a, b, v. rewrite app_nil_r in Hv. by rewrite app_nil_r. }
  rewrite (proj2 (Z.ltb_ge _ _)) by (revert Hint; len_simpl; lia).
  rewrite (slot_get_mid v (pre ++ a ++ b) x (rest ++ post)).
  2:{ rewrite <- !app_assoc in *. done. } 2:{ len_lia. }
  simpl. destruct (Z.ltb_spec (AminusB x p) 0) as [Hx|Hx].
  - destruct b as [|y b].
    + destruct (swap_self_rep v (pre ++ a) x (rest ++ post) (zlen pre + zlen a - 1 + 1))
        as (v1 & E & Hv1); [by rewrite <- !app_assoc in *|len_lia|].
      replace (zlen pre + zlen a + zlen (@nil A)) with (zlen pre + zlen a - 1 + 1) by len_lia.
      rewrite E. simpl. destruct (IH (a ++ [x]) [] v1) as (a' & b' & v' & E' & Hv' & Hp & ?).
      { by rewrite <- !app_assoc in *. } { apply Forall_app; auto. } { done. }
      { rewrite <- !app_assoc in *. done. }
      exists a', b', v'. split_and!; try tauto.
      * rewrite <- E'. f_equal; len_lia.
      * rewrite Hp, <- app_assoc. done.
    + destruct (swap_rep v (pre ++ a) y b x (rest ++ post)
        (zlen pre + zlen a - 1 + 1) (zlen pre + zlen a + zlen (y :: b)))
        as (v1 & E & Hv1); [by rewrite <- !app_assoc in *|len_lia|len_lia|].
      rewrite E. simpl. apply Forall_cons_1 in Hb as [Hy Hb].
      destruct (IH (a ++ [x]) (b ++ [y]) v1) as (a' & b' & v' & E' & Hv' & Hp & ?).
      { rewrite <- !app_assoc in *. done. } { apply Forall_app; auto. }
      { apply Forall_app; auto. } { revert Hint. len_simpl. lia. }
      exists a', b', v'. split_and!; try tauto.
      * rewrite <- E'. f_equal; len_lia.
      * rewrite Hp. rewrite <- !app_assoc. simpl.
        apply Permutation_app_head. rewrite <- !Permutation_middle. apply Permutation_swap.
  - destruct (IH a (b ++ [x]) v) as (a' & b' & v' & E' & Hv' & Hp & ?).
    { rewrite <- !app_assoc in *. done. } { done. }
    { apply Forall_app. split; [done|]. constructor; [|done]. unfold not_after, less. lia. }
    { revert Hint. len_simpl. lia. }
    exists a', b', v'. split_and!; try tauto.
    * rewrite <- E'. f_equal; len_lia.
    * rewrite Hp. by rewrite <- !app_assoc.
Qed.
(** The pivot brought between the two halves. *)
Lemma place_pivot v (pre a b post : list A) p r :
  vrep v (pre ++ (a ++ b) ++ p :: post) -> r = zlen pre + zlen a + zlen b ->
  exists v' b', swap (zlen pre + zlen a - 1 + 1) r v = Ret v' /\ b' ≡ₚ b /\
    vrep v' (pre ++ (a ++ p :: b') ++ post).
Proof.
  intros Hv ->. destruct b as [|y b].
  - destruct (swap_self_rep v (pre ++ a) p post (zlen pre + zlen a - 1 + 1))
      as (v' & E & Hv'); [by rewrite app_nil_r, <- !app_assoc in *|len_lia|].
    exists v', []. replace (zlen pre + zlen a + zlen (@nil A)) with (zlen pre + zlen a - 1 + 1) by len_lia.
    split_and!; [done|done|]. by rewrite <- !app_assoc in *.
  - destruct (swap_rep v (pre ++ a) y b p post (zlen pre + zlen a - 1 + 1)
      (zlen pre + zlen a + zlen (y :: b))) as (v' & E & Hv');
      [by rewrite <- !app_assoc in *|len_lia|len_lia|].
    exists v', (b ++ [y]). split_and!; [done| |].
    + rewrite Permutation_app_comm. done.
    + rewrite <- !app_assoc in *. simpl. by rewrite <- app_assoc.
Qed.

Lemma StronglySorted_halves (a b : list A) p :
  StronglySorted not_after a -> StronglySorted not_after b ->
  Forall (fun x => less x p) a -> Forall (fun x => not_after p x) b ->
  StronglySorted not_after (a ++ p :: b).
Proof.
  intros Ha Hb Hap Hpb. induction Ha as [|x a Ha IH Hx]; simpl; [by constructor|].
  apply Forall_cons_1 in Hap as [Hxp Hap]. constructor; [by apply IH|].
  apply Forall_app. split; [done|]. constructor; [by apply less_asym|].
  rewrite Forall_forall in *. intros y Hy Hyx. apply (Hpb y Hy). by apply (less_trans y x p).
Qed.

Lemma quick_sort_spec fuel : forall pre mid post v,
  vrep v (pre ++ mid ++ post) -> (length mid <= fuel)%nat ->
  zlen (pre ++ mid ++ post) <= INT_MAX + 1 ->
  exists mid' v', quick_sort AminusB fuel (zlen pre) (zlen pre + zlen mid - 1) v = Ret v' /\
    vrep v' (pre ++ mid' ++ post) /\ mid' ≡ₚ mid /\ StronglySorted not_after mid'.
Proof.
  induction fuel as [|fuel IH]; intros pre mid post v Hv Hf Hint; simpl.
  { destruct mid; [|simpl in Hf; lia]. rewrite (proj2 (Z.leb_le _ _)) by len_lia.
    exists [], v. split_and!; done || constructor. }
  destruct (Z.leb_spec (zlen pre + zlen mid - 1) (zlen pre)) as [Hle|Hgt].
  { exists mid, v. split_and!; try done. destruct mid as [|x [|y mid]];
      [constructor|by repeat constructor|simpl in Hle; lia]. }
  destruct mid as [|p m _] using rev_ind; [simpl in Hgt; lia|].
  rewrite (vrep_count _ _ Hv). rewrite Z.min_r by len_lia.
  rewrite <- app_assoc in Hv. simpl in Hv.
  rewrite (slot_get_mid v (pre ++ m) p post) by (rewrite <- ?app_assoc; (done || len_lia)).
  simpl. destruct (partition_spec pre (p :: post) p m [] [] v) as (a & b & v1 & E & Hv1 & Hp & Ha & Hb);
    [done|done|done|revert Hint; len_simpl; lia|].
  replace (Z.to_nat _) with (length m) by len_lia.
  change (zlen (@nil A)) with 0 in E. rewrite !Z.add_0_r in E. rewrite E. simpl. apply Permutation_length in Hp as Hpl. rewrite !length_app in Hpl. simpl in Hpl.
  destruct (place_pivot v1 pre a b post p (zlen pre + zlen (m ++ [p]) - 1))
    as (v2 & b1 & E2 & Hb1 & Hv2); [done|len_lia|].
  rewrite E2. simpl. apply Permutation_length in Hb1 as Hbl.
  destruct (IH pre a ((p :: b1) ++ post) v2) as (a' & v3 & E3 & Hv3 & Ha' & Hsa).
  { by rewrite <- app_assoc in Hv2. } { revert Hf. len_simpl. lia. }
  { revert Hint. len_simpl. lia. }
  rewrite E3. simpl. apply Permutation_length in Ha' as Hal.
  destruct (IH (pre ++ a' ++ [p]) b1 post v3) as (b' & v4 & E4 & Hv4 & Hb' & Hsb).
  { rewrite <- !app_assoc. done. } { revert Hf. len_simpl. lia. }
  { revert Hint. len_simpl. lia. }
  exists (a' ++ p :: b'), v4. split_and!.
  - rewrite <- E4. f_equal; len_lia.
  - rewrite <- !app_assoc in *. done.
  - rewrite Ha', Hb', Hb1, <- Permutation_middle, Hp. simpl.
    by rewrite <- Permutation_cons_append.
  - apply StronglySorted_halves; [done..| |].
    + by rewrite Ha'.
    + by rewrite Hb', Hb1.
Qed.

Lemma StronglySorted_before (l : list A) :
  StronglySorted not_after l ->
  forall i j x y, (i < j)%nat -> l !! i = Some x -> l !! j = Some y -> not_after x y.
Proof.
  induction 1 as [|z l Hl IH Hz]; intros i j x y Hij Hi Hj; [done|].
  destruct j as [|j]; [lia|]. destruct i as [|i]; simpl in *.
  - simplify_eq. rewrite Forall_forall in Hz. apply Hz. by eapply list_elem_of_lookup_2.
  - eapply IH; [|done..]. lia.
Qed.

(** Needed by the binary search only: [less] is a weak order. *)
Hypothesis less_weak : forall a b c, less a c -> less a b \/ less b c.

(** The binary search keeps: nothing before [l] is greater than [el],
    everything after [r] is. *)
Lemma search_spec el xs v : vrep v xs -> StronglySorted not_after xs ->
  forall fuel l r, 0 <= l -> r < zlen xs -> l <= r + 1 -> r + 1 - l <= Z.of_nat fuel ->
  (forall i x, 0 <= i < l -> xs !! Z.to_nat i = Some x -> ~ less el x) ->
  (forall i x, r < i -> xs !! Z.to_nat i = Some x -> less el x) ->
  exists m, search AminusB fuel el l r v = Ret m /\ 0 <= m <= zlen xs /\
    (forall i x, 0 <= i < m -> xs !! Z.to_nat i = Some x -> ~ less el x) /\
    (forall i x, m <= i -> xs !! Z.to_nat i = Some x -> less el x).
Proof.
  intros Hv Hs. induction fuel as [|fuel IH]; intros l r Hl Hr Hlr Hf Hlo Hhi; simpl.
  - rewrite (proj2 (Z.ltb_lt _ _)) by lia. assert (r = l - 1) as -> by lia.
    replace (l - 1 - l) with (-1) by lia. change (Z.quot (-1) 2) with 0. rewrite Z.add_0_r.
    exists l. split; [done|]. split; [lia|]. split; [done|]. intros i x Hi. apply Hhi. lia.
  - destruct (Z.ltb_spec r l) as [Hlt|Hge].
    { assert (r = l - 1) as -> by lia.
      replace (l - 1 - l) with (-1) by lia. change (Z.quot (-1) 2) with 0. rewrite Z.add_0_r.
      exists l. split; [done|]. split; [lia|]. split; [done|]. intros i x Hi. apply Hhi. lia. }
    rewrite Z.quot_div_nonneg by lia. set (mid := l + (r - l) / 2).
    assert (l <= mid <= r) as Hmid.
    { unfold mid. pose proof (Z.div_pos (r - l) 2). pose proof (Z.div_le_upper_bound (r - l) 2 (r - l)). lia. }
    rewrite (slot_get_rep v xs) by (done || lia).
    destruct (lookup_lt_is_Some_2 xs (Z.to_nat mid)) as [y Hy]; [lia|]. rewrite Hy. simpl.
    pose proof (StronglySorted_before xs Hs) as Hord.
    destruct (Z.ltb_spec (AminusB el y) 0) as [Hy1|Hy1]; apply IH; try lia; try done.
    + intros i x Hi Hx. destruct (decide (i = mid)) as [->|]; [by simplify_eq|].
      assert (not_after y x) as Hyx by (eapply (Hord (Z.to_nat mid) (Z.to_nat i)); (done || lia)).
      destruct (less_weak el x y) as [?|?]; done.
    + intros i x Hi Hx. destruct (decide (i = mid)) as [->|]; [simplify_eq; unfold less; lia|].
      assert (not_after x y) as Hxy by (eapply (Hord (Z.to_nat i) (Z.to_nat mid)); (done || lia)).
      intros Hel. destruct (less_weak el y x Hel) as [?|?]; [unfold less in *; lia|done].
Qed.

Lemma insert_sorted el xs1 xs2 :
  StronglySorted not_after (xs1 ++ xs2) ->
  Forall (fun x => ~ less el x) xs1 -> Forall (fun x => less el x) xs2 ->
  StronglySorted not_after (xs1 ++ el :: xs2).
Proof.
  intros Hs H1 H2. induction xs1 as [|x xs1 IH]; simpl in *.
  - constructor; [done|]. eapply Forall_impl; [exact H2|]. intros y. apply less_asym.
  - apply StronglySorted_inv in Hs as [Hs Hx]. apply Forall_cons_1 in H1 as [Hel H1].
    constructor; [by apply IH|]. rewrite Forall_app, Forall_cons in *. tauto.
Qed.

Lemma add_sorted_spec ok el xs v :
  vrep v xs -> StronglySorted not_after xs ->
  (exists v' xs', add_sorted AminusB true ok el v = Ret v' /\ vrep v' xs' /\
     xs' ≡ₚ el :: xs /\ StronglySorted not_after xs') \/
  (ok = false /\ add_sorted AminusB true ok el v = Ret v).
Proof.
  intros Hv Hs. unfold add_sorted. rewrite (vrep_count _ _ Hv), Nat2Z.id.
  destruct (search_spec el xs v Hv Hs (length xs) 0 (zlen xs - 1)) as (m & -> & Hm & Hlo & Hhi);
    [lia..| | |].
  { intros i x Hi. lia. }
  { intros i x Hi Hx. apply lookup_lt_Some in Hx. lia. }
  simpl. set (n := Z.to_nat m). pose proof (take_drop n xs) as Hsplit.
  assert (m = zlen (take n xs)) as Hlen by (rewrite length_take; lia).
  rewrite <- Hsplit in Hv, Hs. rewrite Hlen.
  destruct (insert_rep true ok v (take n xs) (drop n xs) el Hv (or_introl eq_refl)) as [(v' & -> & Hv')|(-> & msg & ->)];
    simpl; [left|right; done].
  exists v', (take n xs ++ el :: drop n xs). split_and!; [done|done| |].
  - rewrite <- Permutation_middle. by rewrite Hsplit.
  - apply insert_sorted; [done| |]; apply Forall_forall; intros x Hx;
      apply list_elem_of_lookup in Hx as [i Hi].
    + pose proof (lookup_lt_Some _ _ _ Hi) as Hlt. rewrite length_take in Hlt.
      rewrite lookup_take_lt in Hi by lia. apply (Hlo (Z.of_nat i)); [lia|]. by rewrite Nat2Z.id.
    + rewrite lookup_drop in Hi. apply (Hhi (Z.of_nat (n + i))); [lia|]. by rewrite Nat2Z.id.
Qed.
End ordered.

(** * Properties *)

(** C34: [quick_sort] over the whole of a vector of at most 2^31 elements, with a
    comparison whose "below" is transitive and asymmetric, ends (with fuel its count,
    which bounds the depth of the recursion), makes no access outside the vector,
    leaves a permutation of the elements and puts no element before one that compares
    below it. *)
Theorem vec_quick_sort_sorts {A} (AminusB : A -> A -> Z) (v : Vec A) (l : list A) :
  (forall a b c, less AminusB a b -> less AminusB b c -> less AminusB a c) ->
  (forall a b, less AminusB a b -> ~ less AminusB b a) ->
  vrep v l -> zlen l <= INT_MAX + 1 ->
  exists l' v', quick_sort AminusB (length l) 0 (_count v - 1) v = Ret v' /\
    vrep v' l' /\ l' ≡ₚ l /\ StronglySorted (not_after AminusB) l'.
Proof.
  intros Htr Has Hv Hn.
  destruct (quick_sort_spec AminusB Htr Has (length l) [] l [] v) as (l' & v' & E & ? & ? & ?).
  - by rewrite app_nil_r.
  - done.
  - rewrite app_nil_r. done.
  - rewrite (vrep_count _ _ Hv). exists l', v'. rewrite app_nil_r in *. done.
Qed.

(** [add_sorted] on an ordered vector ends, whatever the allocator does:
    either the vector stays ordered and gains exactly the new element, placed
    after every element that does not compare above it, or the allocation
    failed and nothing changes. *)
Theorem vec_add_sorted_keeps_order {A} (AminusB : A -> A -> Z) (ok : bool) (el : A)
    (v : Vec A) (l : list A) :
  (forall a b, less AminusB a b -> ~ less AminusB b a) ->
  (forall a b c, less AminusB a c -> less AminusB a b \/ less AminusB b c) ->
  vrep v l -> StronglySorted (not_after AminusB) l ->
  (exists v' l', add_sorted AminusB true ok el v = Ret v' /\ vrep v' l' /\ l' ≡ₚ el :: l /\
     StronglySorted (not_after AminusB) l') \/
  (ok = false /\ add_sorted AminusB true ok el v = Ret v).
Proof. intros Has Hco Hv Hs. by apply add_sorted_spec. Qed.


(** * Witnesses *)

Definition sub_order (a b : Z) : Z := a - b.

Lemma sub_order_trans a b c :
  less sub_order a b -> less sub_order b c -> less sub_order a c.
Proof. unfold less, sub_order. lia. Qed.

Lemma sub_order_cotrans a b c :
  less sub_order a c -> less sub_order a b \/ less sub_order b c.
Proof. unfold less, sub_order. lia. Qed.

Lemma sub_order_asym a b : less sub_order a b -> ~ less sub_order b a.
Proof. unfold less, sub_order. lia. Qed.

Lemma vec_quick_sort_sorts_witness :
  exists l' v', quick_sort sub_order 3 0 2 (mk_Vec [Some 3; Some 1; Some 2; None] 3) = Ret v' /\
    vrep v' l' /\ l' ≡ₚ [3; 1; 2] /\ StronglySorted (not_after sub_order) l'.
Proof.
  apply (vec_quick_sort_sorts sub_order (mk_Vec [Some 3; Some 1; Some 2; None] 3) [3; 1; 2]
           sub_order_trans sub_order_asym); [by exists 1%nat|done].
Defined.

Lemma vec_add_sorted_keeps_order_witness :
  (exists v' l', add_sorted sub_order true false 2 (mk_Vec [Some 1; Some 3; None] 2) = Ret v' /\
     vrep v' l' /\ l' ≡ₚ [2; 1; 3] /\ StronglySorted (not_after sub_order) l') \/
  (false = false /\ add_sorted sub_order true false 2 (mk_Vec [Some 1; Some 3; None] 2)
     = Ret (mk_Vec [Some 1; Some 3; None] 2)).
Proof.
  apply (vec_add_sorted_keeps_order sub_order false 2 (mk_Vec [Some 1; Some 3; None] 2) [1; 3]
           sub_order_asym sub_order_cotrans); [by exists 1%nat|].
  repeat constructor; unfold not_after, less, sub_order; lia.
Defined.

