(* ===== verification/Ring.v ===== *)
(** libcore/ds/ring.hpp (the growable FIFO of the IPC endpoints) and
    libcore/ds/pcring.hpp (the bounded producer/consumer ring in shared
    memory).

    Both keep a circular buffer: slots ([None] for one that holds no object),
    the index of the first element, the index after the last one, and the
    number of elements. [circ] relates such a buffer to the queue it holds and
    is shared by the proofs of the two classes. *)

From S2P Require Import Prelude.

Section circ.
Context {A : Type}.

Definition circ (s : list (option A)) (h t n : Z) (q : list A) : Prop :=
  0 <= h < zlen s /\ t = (h + n) mod zlen s /\ n = zlen q /\ n <= zlen s /\
  forall i x, q !! i = Some x -> aget s ((h + Z.of_nat i) mod zlen s) = Some (Some x).

Lemma circ_tail_range s h t n q : circ s h t n q -> 0 <= t < zlen s.
Proof. intros (? & -> & _). apply Z.mod_pos_bound. lia. Qed.

(** Different offsets below the capacity are different slots. *)
Lemma mod_offset_inj c h a b :
  0 < c -> 0 <= a < c -> 0 <= b < c -> (h + a) mod c = (h + b) mod c -> a = b.
Proof.
  intros Hc Ha Hb E. pose proof (Z.div_mod (h + a) c). pose proof (Z.div_mod (h + b) c).
  assert (a - b = c * ((h + a) / c - (h + b) / c)) as E' by lia.
  assert ((h + a) / c - (h + b) / c = 0) by nia. nia.
Qed.

Lemma circ_push s s' h t n q x :
  circ s h t n q -> n < zlen s -> aset s t (Some x) = Some s' ->
  circ s' h ((t + 1) mod zlen s') (n + 1) (q ++ [x]).
Proof.
  intros (Hh & Ht & Hn & Hle & Hq) Hlt Hs. rewrite (aset_length _ _ _ _ Hs) in *.
  unfold circ. rewrite (aset_length _ _ _ _ Hs). split_and!; try lia.
  - subst t. rewrite Zplus_mod_idemp_l. f_equal. lia.
  - len_lia.
  - intros i y Hi. rewrite (aget_aset _ _ _ _ _ Hs). subst t.
    apply lookup_app_Some in Hi as [Hi|[Hlen Hi]].
    + pose proof (lookup_lt_Some _ _ _ Hi). rewrite decide_False; [by apply Hq|].
      intros E. apply mod_offset_inj in E; lia.
    + apply list_lookup_singleton_Some in Hi as [Hi ->].
      rewrite decide_True; [done|]. f_equal. lia.
Qed.

Lemma circ_head s h t n x q : circ s h t n (x :: q) -> aget s h = Some (Some x).
Proof.
  intros (Hh & _ & _ & _ & Hq). specialize (Hq O x eq_refl).
  change (Z.of_nat 0) with 0 in Hq. rewrite Z.add_0_r, Z.mod_small in Hq by lia. done.
Qed.

Lemma circ_pop s s' h t n x q o :
  circ s h t n (x :: q) -> aset s h o = Some s' ->
  circ s' ((h + 1) mod zlen s') t (n - 1) q.
Proof.
  intros (Hh & Ht & Hn & Hle & Hq) Hs. unfold circ. rewrite (aset_length _ _ _ _ Hs).
  simpl in Hn. split_and!; try lia.
  - apply Z.mod_pos_bound. lia.
  - apply Z.mod_pos_bound. lia.
  - rewrite Zplus_mod_idemp_l. rewrite Ht. f_equal. lia.
  - intros i y Hi. rewrite (aget_aset _ _ _ _ _ Hs). pose proof (lookup_lt_Some _ _ _ Hi).
    rewrite Zplus_mod_idemp_l. specialize (Hq (S i) y Hi).
    replace (h + 1 + Z.of_nat i) with (h + Z.of_nat (S i)) by lia.
    rewrite decide_False; [done|]. intros E.
    assert ((h + Z.of_nat (S i)) mod zlen s = (h + 0) mod zlen s) as E'
      by (rewrite E, Z.add_0_r, Z.mod_small; lia).
    apply mod_offset_inj in E'; lia.
Qed.
End circ.

(** * fc::Ring *)

Module Ring.
Record Ring (A : Type) := mk_Ring {
  _data : list (option A);  (* its length is [_capacity] *)
  _head : Z;
  _tail : Z;
  _len : Z
}.
Arguments mk_Ring {A} _ _ _ _.
Arguments _data {A} _.
Arguments _head {A} _.
Arguments _tail {A} _.
Arguments _len {A} _.

Section ops.
Context {A : Type}.
Implicit Types r : Ring A.

Definition _capacity r : Z := zlen (_data r).
Definition empty : Ring A := mk_Ring [] 0 0 0.
Definition len r : Z := _len r.

(** [for (i = capacity - 1; i >= _head + delta; i--) _data[i] =
    move(_data[i - delta])], [n] times: assignments, the first of them to slots that
    the reallocation has just made and that hold no object. *)
Fixpoint move_up (plain : bool) (s : list (option A)) (delta i : Z) (n : nat) : ctl (list (option A)) :=
  match n with
  | O => Ret s
  | S n =>
      o ← deref (aget s (i - delta));
      old ← deref (aget s i);
      assign_over plain old;;
      s ← deref (aset s i o);
      move_up plain s delta (i - 1) n
  end.

(** [take()] on a failed allocation is an [unreachable$()]. *)
Definition resize (plain ok : bool) (capacity : Z) r : ctl (Ring A) :=
  if capacity <=? _capacity r then Ret r
  else if negb ok then Trap
  else if _capacity r =? 0 then
    Ret (mk_Ring (replicate (Z.to_nat capacity) None) (_head r) (_tail r) (_len r))
  else
    let delta_cap := capacity - _capacity r in
    let s := _data r ++ replicate (Z.to_nat delta_cap) None in
    if _head r <? _tail r then Ret (mk_Ring s (_head r) (_tail r) (_len r))
    else
      s ← move_up plain s delta_cap (capacity - 1) (Z.to_nat (capacity - (_head r + delta_cap)));
      Ret (mk_Ring s (capacity - _capacity r + _head r) (_tail r) (_len r)).

Definition push (plain ok : bool) (value : A) r : ctl (Ring A) :=
  r ← (if _capacity r <=? len r + 1
       then resize plain ok ((len r + 2) + (len r + 2) / 2) r else Ret r);
  s ← deref (aset (_data r) (_tail r) (Some value));
  Ret (mk_Ring s (_head r) ((_tail r + 1) mod _capacity r) (_len r + 1)).

Definition pop r : ctl (A * Ring A) :=
  if len r =? 0 then Trap
  else
    o ← deref (aget (_data r) (_head r));
    value ← deref o;
    s ← deref (aset (_data r) (_head r) None);
    Ret (value, mk_Ring s ((_head r + 1) mod _capacity r) (_tail r) (_len r - 1)).

Definition head r : ctl A := o ← deref (aget (_data r) (_head r)); deref o.

Definition back r : ctl A :=
  o ← deref (aget (_data r) ((_tail r - 1 + _capacity r) mod _capacity r)); deref o.

(** The copy constructor. *)
Fixpoint copy_loop (rhs : Ring A) (s : list (option A)) (i : Z) (n : nat) :
    ctl (list (option A)) :=
  match n with
  | O => Ret s
  | S n =>
      let final_idx := (i + _head rhs) mod _capacity rhs in
      o ← deref (aget (_data rhs) i);
      x ← deref o;
      s ← deref (aset s final_idx (Some x));
      copy_loop rhs s (i + 1) n
  end.
Definition copy (ok : bool) (rhs : Ring A) : ctl (Ring A) :=
  if negb ok then Trap
  else
    s ← copy_loop rhs (replicate (length (_data rhs)) None) 0 (Z.to_nat (_len rhs));
    Ret (mk_Ring s (_head rhs) (_tail rhs) (_len rhs)).

(** The move constructor: the new ring and what is left of the other. *)
Definition move (other : Ring A) : Ring A * Ring A := (other, empty).

(** * Invariant *)

Definition rrep r (q : list A) : Prop :=
  (_capacity r = 0 /\ q = [] /\ _head r = 0 /\ _tail r = 0 /\ _len r = 0) \/
  (circ (_data r) (_head r) (_tail r) (_len r) q /\ _len r < _capacity r).

(** A ring that only [push] and [pop] have been used on. *)
Definition ring_ok r (q : list A) : Prop :=
  rrep r q /\ (_capacity r = 0 \/ 3 <= _capacity r).

Lemma rrep_empty : rrep empty [].
Proof. by left. Qed.

Lemma rrep_len r q : rrep r q -> _len r = zlen q.
Proof. intros [(_ & -> & _ & _ & ->)|[(_ & _ & ? & _) _]]; done. Qed.

Lemma move_up_spec delta n : forall (s : list (option A)) i,
  0 < delta -> i < zlen s -> 0 <= i - Z.of_nat n + 1 - delta ->
  exists s', move_up true s delta i n = Ret s' /\ length s' = length s /\
    forall j, aget s' j =
      if decide (i - Z.of_nat n < j <= i) then aget s (j - delta) else aget s j.
Proof.
  induction n as [|n IH]; intros s i Hd Hi Hlo; simpl.
  { exists s. split_and!; [done|done|]. intros. by rewrite decide_False by lia. }
  destruct (aget_in_range s (i - delta)) as [o Ho]; [lia|]. rewrite Ho. simpl.
  destruct (aget_in_range s i) as [old Hold]; [lia|]. rewrite Hold. simpl.
  assert (assign_over true old = Ret tt) as -> by by destruct old. simpl.
  rewrite aset_in_range by lia. simpl.
  set (s1 := <[Z.to_nat i := o]> s).
  assert (aset s i o = Some s1) as Hs1 by by apply aset_in_range; lia.
  destruct (IH s1 (i - 1)) as (s' & -> & Hl & Hg); [done|unfold s1; len_lia|lia|].
  exists s'. split_and!; [done|by rewrite Hl; unfold s1; len_lia|].
  intros j. rewrite Hg, !(aget_aset _ _ _ _ _ Hs1).
  repeat case_decide; subst; try lia; done.
Qed.

(** The elements go round the end of the storage: growth moves them up. *)
Definition wrapped r : bool := negb (_capacity r =? 0) && negb (_head r <? _tail r).

(** Growing a non-empty ring keeps its contents. *)
Lemma resize_rrep plain c r q :
  rrep r q -> (q = [] -> _capacity r = 0) -> plain = true \/ wrapped r = false ->
  exists r', resize plain true c r = Ret r' /\ rrep r' q /\ c <= _capacity r' /\
    (_capacity r = 0 -> 0 < c -> 0 < _capacity r').
Proof.
  intros Hr Hne Hp. unfold resize.
  destruct (Z.leb_spec c (_capacity r)) as [|Hc]; [exists r; split_and!; (done || lia)|].
  simpl. destruct (Z.eqb_spec (_capacity r) 0) as [H0|H0].
  - destruct Hr as [(_ & -> & Hh & Ht & Hl)|[Hcirc Hlt]].
    2:{ unfold _capacity in *. destruct Hcirc as (? & _). lia. }
    eexists. split; [done|]. unfold _capacity in *. simpl. rewrite length_replicate.
    split_and!; [|lia|lia]. right. rewrite Hh, Ht, Hl. split; [|unfold _capacity; simpl; len_lia].
    unfold circ. simpl. rewrite length_replicate. split_and!; try done; simpl; lia.
  - destruct Hr as [(? & _)|[Hcirc Hlt]]; [done|].
    pose proof Hcirc as (Hh & Ht & Hn & Hle & Hq).
    assert (0 < _len r) as Hpos.
    { destruct q; [by destruct H0; apply Hne|]. rewrite Hn. simpl. lia. }
    unfold _capacity in *. set (cap := zlen (_data r)) in *.
    set (s := _data r ++ replicate _ None).
    assert (zlen s = c) as Hs by (unfold s, cap in *; len_lia).
    assert (forall k, 0 <= k < cap -> aget s k = aget (_data r) k) as Hlow.
    { intros k Hk. unfold s. rewrite aget_app by lia. by rewrite (proj2 (Z.ltb_lt _ _)) by (unfold cap in *; lia). }
    destruct (Z.ltb_spec (_head r) (_tail r)) as [Hht|Hht].
    + eexists. split; [done|]. simpl. split_and!; [|lia|lia]. right.
      unfold _capacity. simpl. split; [|lia].
      assert (_head r + _len r < cap) as Hnw.
      { destruct (Z.lt_ge_cases (_head r + _len r) cap); [done|].
        rewrite Ht in Hht. replace (_head r + _len r) with (_head r + _len r - cap + 1 * cap) in Hht by lia.
        rewrite Z.mod_add, Z.mod_small in Hht by lia. lia. }
      rewrite Z.mod_small in Ht by lia.
      unfold circ. simpl. rewrite Hs. split_and!; try lia.
      * rewrite Z.mod_small by lia. done.
      * intros i x Hi. pose proof (lookup_lt_Some _ _ _ Hi). specialize (Hq i x Hi).
        rewrite Z.mod_small in Hq |- * by lia. by rewrite Hlow by lia.
    + assert (plain = true) as ->.
      { destruct Hp as [Hp|Hp]; [done|]. revert Hp. unfold wrapped, _capacity. fold cap. case_Z; simpl; (done || lia). }
      destruct (move_up_spec (c - cap) (Z.to_nat (c - (_head r + (c - cap)))) s (c - 1))
        as (s' & E & Hl & Hg); [lia|lia|lia|].
      rewrite E. simpl. eexists. split; [done|]. simpl.
      assert (zlen s' = c) as Hs' by lia.
      split_and!; [|lia|lia]. right. unfold _capacity. simpl. split; [|lia].
      assert (cap <= _head r + _len r) as Hw.
      { destruct (Z.lt_ge_cases (_head r + _len r) cap); [|done].
        rewrite Ht, Z.mod_small in Hht by lia. lia. }
      assert (_tail r = _head r + _len r - cap) as Ht'.
      { rewrite Ht. replace (_head r + _len r) with (_head r + _len r - cap + 1 * cap) at 1 by lia.
        rewrite Z.mod_add, Z.mod_small by lia. done. }
      fold cap. unfold circ. simpl. rewrite Hs'. split_and!; try lia.
      * rewrite Ht'. replace (c - cap + _head r + _len r) with (_head r + _len r - cap + 1 * c) by lia.
        rewrite Z.mod_add, Z.mod_small by lia. done.
      * intros i x Hi. pose proof (lookup_lt_Some _ _ _ Hi). specialize (Hq i x Hi).
        rewrite Hg. destruct (Z.lt_ge_cases (_head r + Z.of_nat i) cap).
        -- rewrite Z.mod_small in Hq by lia. rewrite Z.mod_small by lia.
           rewrite decide_True by lia.
           replace (c - cap + _head r + Z.of_nat i - (c - cap)) with (_head r + Z.of_nat i) by lia.
           by rewrite Hlow by lia.
        -- replace (_head r + Z.of_nat i) with (_head r + Z.of_nat i - cap + 1 * cap) in Hq by lia.
           rewrite Z.mod_add, Z.mod_small in Hq by lia.
           replace (c - cap + _head r + Z.of_nat i) with (_head r + Z.of_nat i - cap + 1 * c) by lia.
           rewrite Z.mod_add, Z.mod_small by lia. rewrite decide_False by lia.
           by rewrite Hlow by lia.
Qed.

(** [push] grows a ring that is full but for one slot. *)
Definition moves r : bool := (_capacity r <=? len r + 1) && wrapped r.

Lemma push_rrep plain x r q :
  rrep r q -> (_capacity r = 0 \/ 3 <= _capacity r) -> plain = true \/ moves r = false ->
  exists r', push plain true x r = Ret r' /\ rrep r' (q ++ [x]) /\ 3 <= _capacity r'.
Proof.
  intros Hr Hcap Hp. unfold push, len. pose proof (rrep_len _ _ Hr) as Hl.
  assert (exists r1, (if _capacity r <=? _len r + 1
       then resize plain true ((_len r + 2) + (_len r + 2) / 2) r else Ret r) = Ret r1 /\
     rrep r1 q /\ 3 <= _capacity r1 /\ _len r1 + 1 < _capacity r1) as (r1 & -> & Hr1 & Hc1 & Hl1).
  { assert (0 <= (_len r + 2) / 2) by (apply Z.div_pos; lia).
    assert (1 <= (_len r + 2) / 2) by (apply Z.div_le_lower_bound; lia).
    destruct (Z.leb_spec (_capacity r) (_len r + 1)).
    - destruct (resize_rrep plain ((_len r + 2) + (_len r + 2) / 2) r q Hr) as (r1 & -> & Hr1 & Hc1 & _).
      { intros ->. simpl in Hl. lia. }
      { destruct Hp as [Hp|Hp]; [by left|right]. unfold moves, len in Hp.
        by rewrite (proj2 (Z.leb_le (_capacity r) (_len r + 1))) in Hp by lia. }
      exists r1. rewrite (rrep_len _ _ Hr1). split_and!; (done || lia).
    - exists r. split_and!; try done; lia. }
  simpl. destruct Hr1 as [(? & _)|[Hcirc Hlt]]; [lia|]. unfold _capacity in *.
  pose proof (circ_tail_range _ _ _ _ _ Hcirc) as Htr.
  pose proof (aset_in_range (_data r1) (_tail r1) (Some x) Htr) as Hset. rewrite Hset. simpl.
  eexists. split; [done|]. pose proof (circ_push _ _ _ _ _ _ _ Hcirc Hlt Hset) as Hc'.
  rewrite length_insert in Hc'. split; [right|]; unfold _capacity; simpl; rewrite length_insert; [|lia].
  split; [|lia]. done.
Qed.

(** For another type the growth of a ring whose elements go round the end assigns to
    the last of the new slots. *)
Lemma push_moves x r q :
  rrep r q -> moves r = true -> push false true x r = Trap.
Proof.
  intros Hr Hm. unfold moves, wrapped in Hm. apply andb_true_iff in Hm as [Hf Hw].
  apply andb_true_iff in Hw as [H0 Ht]. unfold push. rewrite Hf.
  apply Z.leb_le in Hf. apply negb_true_iff, Z.eqb_neq in H0. apply negb_true_iff in Ht.
  destruct Hr as [(? & _)|[(Hh & _ & Hn & _ & _) Hlt]]; [done|]. unfold resize, len in *.
  set (c := _len r + 2 + (_len r + 2) / 2). assert (1 <= (_len r + 2) / 2) by (apply Z.div_le_lower_bound; lia).
  rewrite (proj2 (Z.leb_gt c _)) by (unfold c; lia). cbn [negb]. rewrite (proj2 (Z.eqb_neq _ _) H0), Ht.
  unfold _capacity in *. set (cap := zlen (_data r)) in *.
  destruct (Z.to_nat (c - (_head r + (c - cap)))) as [|n] eqn:En; [lia|]. cbn [move_up].
  destruct (aget_in_range (_data r ++ replicate (Z.to_nat (c - cap)) None) (c - 1 - (c - cap))) as [o ->];
    [rewrite length_app, length_replicate; unfold cap in *; lia|]. cbn [deref mbind ctl_bind].
  assert (aget (_data r ++ replicate (Z.to_nat (c - cap)) None) (c - 1) = Some None) as ->; [|done].
  rewrite aget_app by lia. rewrite (proj2 (Z.ltb_ge _ _)) by (unfold cap, c in *; lia).
  rewrite aget_lookup by (unfold cap, c in *; lia). apply lookup_replicate_2. unfold cap, c in *. lia.
Qed.

(** Two elements wait at least. *)
Lemma moves_len r q : ring_ok r q -> moves r = true -> 2 <= zlen q.
Proof.
  intros [Hr Hc] Hm. rewrite <- (rrep_len _ _ Hr). unfold moves, wrapped, len in Hm.
  apply andb_true_iff in Hm as [Hf Hw]. apply andb_true_iff in Hw as [H0 _].
  apply Z.leb_le in Hf. apply negb_true_iff, Z.eqb_neq in H0. lia.
Qed.

Lemma pop_rrep x r q :
  rrep r (x :: q) ->
  exists r', pop r = Ret (x, r') /\ rrep r' q /\ _capacity r' = _capacity r.
Proof.
  intros Hr. pose proof (rrep_len _ _ Hr) as Hl. unfold pop, len.
  rewrite (proj2 (Z.eqb_neq _ _)) by (simpl in Hl; lia).
  destruct Hr as [(_ & ? & _)|[Hcirc Hlt]]; [done|]. unfold _capacity in *.
  pose proof Hcirc as (Hh & _). rewrite (circ_head _ _ _ _ _ _ Hcirc). simpl.
  pose proof (aset_in_range (_data r) (_head r) None Hh) as Hset. rewrite Hset. simpl.
  eexists. split; [done|]. pose proof (circ_pop _ _ _ _ _ _ _ _ Hcirc Hset) as Hc'.
  rewrite length_insert in Hc'. split; [right|]; unfold _capacity; simpl; rewrite length_insert; [|done].
  split; [done|lia].
Qed.

Lemma head_rrep x r q : rrep r (x :: q) -> head r = Ret x.
Proof.
  intros [(_ & ? & _)|[Hcirc _]]; [done|]. unfold head.
  by rewrite (circ_head _ _ _ _ _ _ Hcirc).
Qed.

End ops.
End Ring.

(** * fc::PCRing

    Producers and consumers on several CPUs share the ring. Each attempt of
    [produce] / [consume] holds the lock from its test to its update, so it is
    one step; an attempt that finds the ring full (empty) releases the lock,
    pauses and is tried again: [None]. *)

Module PCRing.
Record PCRing (A : Type) := mk_PCRing {
  _data : list (option A);
  _head : Z;
  _tail : Z;
  _capacity : Z;
  _len : Z
}.
Arguments mk_PCRing {A} _ _ _ _ _.
Arguments _data {A} _.
Arguments _head {A} _.
Arguments _tail {A} _.
Arguments _capacity {A} _.
Arguments _len {A} _.

(** [create_from_mem] on a buffer of [byte_length] bytes: the capacity is
    what is left after the header ([sizeof(PCRing)]), in elements. *)
Definition create {A} (sizeof_PCRing sizeof_T byte_length : Z) : PCRing A :=
  let capacity := u64 (byte_length - sizeof_PCRing) / sizeof_T in
  mk_PCRing (replicate (Z.to_nat capacity) None) 0 0 capacity 0.

Section ops.
Context {A : Type}.
Implicit Types r : PCRing A.

Definition len r : Z := _len r.

Definition produce_attempt (value : A) r : ctl (option (PCRing A)) :=
  if len r <? _capacity r then
    s ← deref (aset (_data r) (_tail r) (Some value));
    Ret (Some (mk_PCRing s (_head r) ((_tail r + 1) mod _capacity r) (_capacity r) (_len r + 1)))
  else Ret None.

(** The body shared by [consume] and [try_consume]. *)
Definition take_head r : ctl (A * PCRing A) :=
  o ← deref (aget (_data r) (_head r));
  value ← deref o;
  s ← deref (aset (_data r) (_head r) None);
  Ret (value, mk_PCRing s ((_head r + 1) mod _capacity r) (_tail r) (_capacity r) (_len r - 1)).

Definition consume_attempt r : ctl (option (A * PCRing A)) :=
  if negb (len r =? 0) then p ← take_head r; Ret (Some p) else Ret None.

Definition try_consume r : ctl (result A * PCRing A) :=
  if len r =? 0 then Ret (Error "no data", r)
  else '(x, r) ← take_head r; Ret (Value x, r).

Definition dirty_head r : ctl A := o ← deref (aget (_data r) (_head r)); deref o.
Definition dirty_back r : ctl A :=
  o ← deref (aget (_data r) ((_tail r - 1 + _capacity r) mod _capacity r)); deref o.

(** A run of the ring: what was produced and what was consumed so far. *)
Record run := mk_run { ring : PCRing A; produced : list A; consumed : list A }.

(** Interleaved steps of any number of producers and consumers. *)
Inductive step : run -> run -> Prop :=
| step_produce x r r' p c :
    produce_attempt x r = Ret (Some r') ->
    step (mk_run r p c) (mk_run r' (p ++ [x]) c)
| step_consume x r r' p c :
    consume_attempt r = Ret (Some (x, r')) ->
    step (mk_run r p c) (mk_run r' p (c ++ [x]))
| step_try_consume x r r' p c :
    try_consume r = Ret (Value x, r') ->
    step (mk_run r p c) (mk_run r' p (c ++ [x]))
| step_spin r p c : step (mk_run r p c) (mk_run r p c).

Inductive reachable (init : PCRing A) : run -> Prop :=
| reachable_init : reachable init (mk_run init [] [])
| reachable_step s t : reachable init s -> step s t -> reachable init t.

(** * Invariant *)

Definition prep r (q : list A) : Prop :=
  _capacity r = zlen (_data r) /\ circ (_data r) (_head r) (_tail r) (_len r) q.

Definition run_inv (s : run) : Prop :=
  exists q, prep (ring s) q /\ produced s = consumed s ++ q.

Lemma take_head_prep r x q :
  prep r (x :: q) -> exists r', take_head r = Ret (x, r') /\ prep r' q.
Proof.
  intros [Hc Hq]. unfold take_head. rewrite (circ_head _ _ _ _ _ _ Hq). simpl.
  pose proof Hq as (Hh & _). pose proof (aset_in_range (_data r) (_head r) None Hh) as Hs.
  rewrite Hs. simpl. eexists. split; [done|]. split; simpl; [by rewrite length_insert|].
  rewrite Hc. pose proof (circ_pop _ _ _ _ _ _ _ _ Hq Hs) as H. by rewrite length_insert in H.
Qed.

Lemma prep_nonempty r q : prep r q -> _len r <> 0 -> exists x q', q = x :: q'.
Proof. intros [_ (_ & _ & Hn & _)] Hne. destruct q; [done|by eauto]. Qed.

Lemma produce_prep x r r' q :
  prep r q -> produce_attempt x r = Ret (Some r') -> prep r' (q ++ [x]).
Proof.
  intros [Hc Hq]. unfold produce_attempt, len. destruct (Z.ltb_spec (_len r) (_capacity r)) as [Hlt|]; [|done].
  rewrite Hc in Hlt. pose proof (circ_tail_range _ _ _ _ _ Hq) as Ht.
  pose proof (aset_in_range (_data r) (_tail r) (Some x) Ht) as Hs. rewrite Hs. simpl.
  intros [= <-]. split; simpl; [by rewrite length_insert|]. rewrite Hc.
  pose proof (circ_push _ _ _ _ _ _ _ Hq Hlt Hs) as H. by rewrite length_insert in H.
Qed.

Lemma consume_prep x r r' q :
  prep r q -> (consume_attempt r = Ret (Some (x, r')) \/ try_consume r = Ret (Value x, r')) ->
  exists q', q = x :: q' /\ prep r' q'.
Proof.
  intros Hr Hor. destruct (decide (_len r = 0)) as [E|E].
  { unfold consume_attempt, try_consume, len in Hor. rewrite E in Hor. simpl in Hor.
    by destruct Hor. }
  destruct (prep_nonempty _ _ Hr E) as (y & q' & ->).
  destruct (take_head_prep _ _ _ Hr) as (r1 & Ht & Hr1).
  unfold consume_attempt, try_consume, len in Hor.
  rewrite (proj2 (Z.eqb_neq _ _) E), Ht in Hor. simpl in Hor.
  destruct Hor; simplify_eq; by eauto.
Qed.

Lemma step_inv s t : run_inv s -> step s t -> run_inv t.
Proof.
  intros (q & Hr & Hp) Hst. inversion Hst; subst; simpl in *.
  - exists (q ++ [x]). simpl. split; [by eapply produce_prep|]. by rewrite app_assoc, <- Hp.
  - destruct (consume_prep x r r' q Hr) as (q' & -> & ?); [by left|].
    exists q'. simpl. by rewrite <- app_assoc.
  - destruct (consume_prep x r r' q Hr) as (q' & -> & ?); [by right|].
    exists q'. simpl. by rewrite <- app_assoc.
  - by exists q.
Qed.

Lemma reachable_inv init s : prep init [] -> reachable init s -> run_inv s.
Proof.
  intros Hi. induction 1 as [|s t _ IH Hst]; [by exists []|by eapply step_inv].
Qed.
End ops.

Lemma create_prep A hdr sz n :
  0 < sz -> hdr + sz <= n < 2 ^ 64 -> 0 <= hdr -> prep (create (A := A) hdr sz n) [].
Proof.
  intros Hsz Hn Hh. unfold create, prep, circ. simpl. rewrite length_replicate.
  rewrite wrapu_small by lia.
  assert (1 <= (n - hdr) / sz) by (apply Z.div_le_lower_bound; lia).
  split; [lia|]. split_and!; try lia; [|done]. by rewrite Z.mod_0_l by lia.
Qed.
End PCRing.

(** * Properties *)

(** C36: used through [push] and [pop], [fc::Ring] is a FIFO queue whatever the
    wrap-around and growth: [push] appends, [pop] and [head] return the oldest
    element, and [pop] on an empty ring executes [unreachable$()]. This holds of
    [push] for element types whose assignment does not look at what it replaces, and
    for any type as long as the ring does not grow while its elements go round the end
    of the storage ([moves]); for any other type that growth assigns to slots that
    hold no object, always. *)
Theorem ring_fifo {A} (plain : bool) (r : Ring.Ring A) (q : list A) (x : A) :
  Ring.ring_ok r q ->
  (if plain || negb (Ring.moves r)
   then exists r', Ring.push plain true x r = Ret r' /\ Ring.ring_ok r' (q ++ [x])
   else Ring.push plain true x r = Trap) /\
  match q with
  | [] => Ring.pop r = Trap
  | y :: q' => Ring.head r = Ret y /\ exists r', Ring.pop r = Ret (y, r') /\ Ring.ring_ok r' q'
  end.
Proof.
  intros [Hr Hc]. split.
  - destruct (plain || negb (Ring.moves r)) eqn:E.
    + destruct (Ring.push_rrep plain x r q Hr Hc) as (r' & E' & ? & ?).
      { apply orb_true_iff in E as [E|E]; [by left|right]. by apply negb_true_iff. }
      exists r'. split; [done|]. split; [done|lia].
    + apply orb_false_iff in E as [-> E]. apply negb_false_iff in E. by eapply Ring.push_moves.
  - destruct q as [|y q'].
    + unfold Ring.pop, Ring.len. by rewrite (Ring.rrep_len _ _ Hr).
    + split; [by eapply Ring.head_rrep|].
      destruct (Ring.pop_rrep y r q' Hr) as (r' & E & ? & Hcap). exists r'.
      split; [done|]. split; [done|lia].
Qed.

(** C37: in every interleaving of producers and consumers on a [PCRing] created
    over a large enough buffer, the consumed elements are a prefix of the
    produced ones, in order, and the ring never holds more than its capacity. *)
Theorem pcring_fifo_under_interleaving {A} (hdr sz n : Z) (s : PCRing.run (A := A)) :
  0 < sz -> 0 <= hdr -> hdr + sz <= n < 2 ^ 64 ->
  PCRing.reachable (PCRing.create hdr sz n) s ->
  (exists q, PCRing.produced s = PCRing.consumed s ++ q /\
     PCRing._len (PCRing.ring s) = zlen q) /\
  0 <= PCRing._len (PCRing.ring s) <= PCRing._capacity (PCRing.ring s).
Proof.
  intros Hsz Hh Hn Hs.
  destruct (PCRing.reachable_inv _ s (PCRing.create_prep A hdr sz n Hsz Hn Hh) Hs)
    as (q & [Hc (_ & _ & Hl & Hle & _)] & Hp).
  split; [by exists q|]. lia.
Qed.

(** The copy constructor reads the source's slots from index 0 instead of
    from its head: the ring holding only 2 at slot 1 (after pushing 1 and 2 and
    popping 1) cannot be copied, a destroyed slot is read. *)
Theorem ring_copy_ignores_head :
  exists r r2 r3 : Ring.Ring Z,
    (r ← Ring.push true true 1 Ring.empty; Ring.push true true 2 r) = Ret r /\
    Ring.pop r = Ret (1, r2) /\ Ring.rrep r2 [2] /\ Ring.copy true r2 = Trap /\
    Ring.copy true r = Ret r3 /\ Ring.rrep r3 [1; 2].
Proof.
  eexists _, _, _. split_and!; [reflexivity|reflexivity| |reflexivity|reflexivity|].
  - right. split; [|done]. unfold circ. split_and!; try done; try (simpl; lia).
    intros [|i] x Hx; simpl in Hx; by simplify_eq.
  - right. split; [|done]. unfold circ. split_and!; try done; try (simpl; lia).
    intros [|[|i]] x Hx; simpl in Hx; by simplify_eq.
Qed.

(** Five operations are enough: one element taken and three more waiting. *)
Example five_operations_move :
  (r ← Ring.push false true 1 Ring.empty; '(_, r) ← (r ← Ring.push false true 2 r; Ring.pop r);
   r ← Ring.push false true 3 r; Ring.push false true 4 r) = Trap.
Proof. vm_compute. reflexivity. Qed.

(** * Witnesses *)

Lemma ring_fifo_witness :
  Ring.ring_ok (@Ring.empty Z) [] /\
  (exists r', Ring.push false true 7 (@Ring.empty Z) = Ret r' /\ Ring.ring_ok r' ([] ++ [7])).
Proof.
  assert (Ring.ring_ok (@Ring.empty Z) []) as H by (split; [by left|by left]).
  split; [exact H|]. exact (proj1 (ring_fifo false Ring.empty [] 7 H)).
Defined.

Lemma pcring_fifo_under_interleaving_witness :
  exists s : PCRing.run (A := Z), PCRing.reachable (PCRing.create 40 8 64) s /\
    PCRing.produced s = [7; 8] /\ PCRing.consumed s = [7] /\
    (exists q, PCRing.produced s = PCRing.consumed s ++ q /\
       PCRing._len (PCRing.ring s) = zlen q) /\
    0 <= PCRing._len (PCRing.ring s) <= PCRing._capacity (PCRing.ring s).
Proof.
  assert (exists s : PCRing.run (A := Z), PCRing.reachable (PCRing.create 40 8 64) s /\
    PCRing.produced s = [7; 8] /\ PCRing.consumed s = [7]) as (s & Hs & Hp & Hc).
  { eexists. split; [|split].
    - eapply PCRing.reachable_step; [eapply PCRing.reachable_step;
        [eapply PCRing.reachable_step; [apply PCRing.reachable_init|]|]|].
      + eapply (PCRing.step_produce 7). vm_compute. reflexivity.
      + eapply (PCRing.step_produce 8). vm_compute. reflexivity.
      + eapply (PCRing.step_consume 7). vm_compute. reflexivity.
    - reflexivity.
    - reflexivity. }
  exists s. split; [done|]. split; [done|]. split; [done|].
  apply (pcring_fifo_under_interleaving 40 8 64 s); (lia || done).
Defined.
