(* ===== verification/UMap.v ===== *)
(** libcore/ds/umap.hpp: the hash map of the kernel's asset tables, of the IPC
    connection tables and of the services.

    A bucket is the list of its entries in [Vec] order (Vec.v proves that
    [push], [pop] and [pop(i)] of [fc::Vec] are the list operations used here).
    The [Result] of the [push] calls is dropped by the code: the model is that
    of runs where the allocations succeed. [ndebug] says whether the build
    defines NDEBUG. *)

From stdpp Require Import gmap.
From S2P Require Import Prelude.

(** * Hashing *)

(** The [Hashable] concept: [fc::hash] at a key type, a [size_t]. *)
Class Hashable (K : Type) := {
  hash : K -> Z;
  hash_range : forall k, 0 <= hash k < 2 ^ 64
}.

(** [hash(size_t)], also [AssetHandle::hash]: the identity on 64 bits. *)
#[export] Program Instance Hashable_size_t : Hashable Z := {| hash := wrapu 64 |}.
Next Obligation. intros k. by apply wrapu_range. Qed.

(** [hash(Str)]: the characters are signed. *)
Definition hash_str (str_hash : list Z) : Z :=
  fold_left (fun hash c =>
    u64 (u64 (u64 (c + u64 (Z.shiftl hash 6)) + u64 (Z.shiftl hash 16)) - hash)) str_hash 0.

#[export] Program Instance Hashable_Str : Hashable (list Z) := {| hash := hash_str |}.
Next Obligation.
  intros l. unfold hash_str.
  destruct l as [|c l _] using rev_ind; [done|].
  rewrite fold_left_app. by apply wrapu_range.
Qed.

Section umap.
Context {K V : Type} `{EqDecision K} `{Hashable K} (ndebug : bool).

Record UMap := mk_UMap { _buckets : list (list (K * V)); _count : Z }.
Implicit Types m : UMap.

Definition empty : UMap := mk_UMap [] 0.
Definition count m : Z := _count m.

Definition contained_hash (key : K) (buckets : list (list (K * V))) : Z :=
  hash key mod zlen buckets.

(** The first entry of a bucket with the key. *)
Fixpoint bucket_find (key : K) (b : list (K * V)) : option V :=
  match b with
  | [] => None
  | (k, v) :: b => if decide (k = key) then Some v else bucket_find key b
  end.

(** [entry.value = value] on the first entry with the key. *)
Fixpoint bucket_replace (key : K) (value : V) (b : list (K * V)) : option (list (K * V)) :=
  match b with
  | [] => None
  | (k, v) :: b =>
      if decide (k = key) then Some ((k, value) :: b)
      else b' ← bucket_replace key value b; Some ((k, v) :: b')
  end.

(** The first entry with the key, and the bucket after [pop(i)]. *)
Fixpoint bucket_take (key : K) (b : list (K * V)) : option (V * list (K * V)) :=
  match b with
  | [] => None
  | (k, v) :: b =>
      if decide (k = key) then Some (v, b)
      else '(x, b') ← bucket_take key b; Some (x, (k, v) :: b')
  end.

(** [buckets[h].push(entry)] *)
Definition push_entry (e : K * V) (buckets : list (list (K * V))) : ctl (list (list (K * V))) :=
  let h := contained_hash (fst e) buckets in
  b ← deref (aget buckets h);
  deref (aset buckets h (b ++ [e])).

Fixpoint push_entries (es : list (K * V)) (buckets : list (list (K * V))) :
    ctl (list (list (K * V))) :=
  match es with
  | [] => Ret buckets
  | e :: es => buckets ← push_entry e buckets; push_entries es buckets
  end.

(** Every old bucket is emptied from its back. *)
Definition maybe_rehash m : ctl UMap :=
  if zlen (_buckets m) =? 0 then Trap
  else if _count m / zlen (_buckets m) <? 4 then Ret m
  else
    buckets ← push_entries (concat (reverse <$> _buckets m))
                (replicate (2 * length (_buckets m))%nat []);
    Ret (mk_UMap buckets (_count m)).

Definition insert (key : K) (value : V) m : ctl UMap :=
  let buckets := if zlen (_buckets m) =? 0 then replicate 16 [] else _buckets m in
  let h := contained_hash key buckets in
  b ← deref (aget buckets h);
  match (if ndebug then bucket_replace key value b else None) with
  | Some b' =>
      buckets ← deref (aset buckets h b');
      Ret (mk_UMap buckets (_count m))
  | None =>
      buckets ← push_entry (key, value) buckets;
      maybe_rehash (mk_UMap buckets (_count m + 1))
  end.

Definition moveOut (key : K) m : ctl (V * UMap) :=
  if zlen (_buckets m) =? 0 then Trap
  else
    let h := contained_hash key (_buckets m) in
    if zlen (_buckets m) <=? h then Trap
    else
      b ← deref (aget (_buckets m) h);
      match bucket_take key b with
      | Some (v, b') =>
          buckets ← deref (aset (_buckets m) h b');
          Ret (v, mk_UMap buckets (_count m - 1))
      | None => Trap
      end.

Definition remove (key : K) m : ctl UMap :=
  if zlen (_buckets m) =? 0 then Ret m
  else
    let h := contained_hash key (_buckets m) in
    if zlen (_buckets m) <=? h then Ret m
    else
      b ← deref (aget (_buckets m) h);
      match bucket_take key b with
      | Some (_, b') =>
          buckets ← deref (aset (_buckets m) h b');
          Ret (mk_UMap buckets (_count m - 1))
      | None => Ret m
      end.

Definition clear m : UMap := mk_UMap [] 0.

(** [find]: the reference it returns is the stored value. *)
Definition find (key : K) m : ctl (option V) :=
  if zlen (_buckets m) =? 0 then Ret None
  else
    b ← deref (aget (_buckets m) (contained_hash key (_buckets m)));
    Ret (bucket_find key b).

(** [operator[]]: a missing key is an [unreachable$()]. *)
Definition at_ (key : K) m : ctl V :=
  if zlen (_buckets m) =? 0 then Trap
  else
    b ← deref (aget (_buckets m) (contained_hash key (_buckets m)));
    deref (bucket_find key b).

Definition has (key : K) m : ctl bool :=
  if zlen (_buckets m) =? 0 then Ret false
  else
    b ← deref (aget (_buckets m) (contained_hash key (_buckets m)));
    Ret (bool_decide (is_Some (bucket_find key b))).

(** ** Iteration: (bucket, index in it); [None] is [end()]. *)

Fixpoint first_nonempty (bs : list (list (K * V))) (group : nat) : option (nat * nat) :=
  match bs with
  | [] => None
  | b :: bs => match b with [] => first_nonempty bs (S group) | _ => Some (group, O) end
  end.

Definition begin m : option (nat * nat) := first_nonempty (_buckets m) 0.

Definition next m (it : nat * nat) : option (nat * nat) :=
  let '(group, ingroup) := it in
  if decide (S ingroup < length (default [] (_buckets m !! group)))%nat
  then Some (group, S ingroup)
  else first_nonempty (drop (S group) (_buckets m)) (S group).

Definition entry m (it : nat * nat) : option (K * V) :=
  b ← _buckets m !! fst it; b !! snd it.

(** [for (auto &e : map)], with [fuel] elements at most. *)
Fixpoint iterate (fuel : nat) m (it : option (nat * nat)) : ctl (list (K * V)) :=
  match it with
  | None => Ret []
  | Some it =>
      match fuel with
      | O => NoFuel
      | S fuel => e ← deref (entry m it); es ← iterate fuel m (next m it); Ret (e :: es)
      end
  end.
Definition elements m : ctl (list (K * V)) :=
  iterate (length (concat (_buckets m))) m (begin m).
End umap.
Arguments UMap K V : clear implicits.

(** [fc::UMap] refines a finite map ([gmap]) over its keys, across growth. *)

Section spec.
Context {K V : Type} `{EqDecision K} `{!Countable K} `{Hashable K}.
Implicit Types (m : UMap K V) (M : gmap K V) (bs : list (list (K * V))).

(** The buckets hold exactly the pairs of [M], each in the bucket of its key,
    no key twice. *)
Definition buckets_rep bs M : Prop :=
  (forall h b k v, bs !! h = Some b -> (k, v) ∈ b -> Z.of_nat h = contained_hash k bs) /\
  (forall k v, M !! k = Some v <-> exists h b, bs !! h = Some b /\ (k, v) ∈ b) /\
  (forall h b, bs !! h = Some b -> NoDup (fst <$> b)).

Definition umap_rep m M : Prop :=
  _count m = Z.of_nat (size M) /\
  (_buckets m = [] /\ M = ∅ \/ _buckets m <> [] /\ buckets_rep (_buckets m) M).

Lemma contained_hash_range k bs : bs <> [] -> 0 <= contained_hash k bs < zlen bs.
Proof. intros. apply Z.mod_pos_bound. destruct bs; simpl; [done|lia]. Qed.

Lemma contained_hash_length k bs bs' :
  length bs = length bs' -> contained_hash k bs = contained_hash k bs'.
Proof. unfold contained_hash. by intros ->. Qed.

(** ** One bucket *)

Lemma bucket_find_Some k v (b : list (K * V)) :
  NoDup (fst <$> b) -> bucket_find k b = Some v <-> (k, v) ∈ b.
Proof.
  induction b as [|[k' v'] b IH]; simpl; intros Hnd.
  { split; [done|by intros ?%not_elem_of_nil]. }
  apply NoDup_cons in Hnd as [Hni Hnd]. rewrite elem_of_cons. case_decide as E.
  - subst. split; [intros [= ->]; by left|]. intros [[= <-]|Hin]; [done|].
    destruct Hni. apply list_elem_of_fmap. by exists (k, v).
  - rewrite IH by done. split; [by right|]. intros [[= -> ->]|]; done.
Qed.

Lemma bucket_find_None k (b : list (K * V)) :
  bucket_find k b = None <-> k ∉ (fst <$> b).
Proof.
  induction b as [|[k' v'] b IH]; simpl; [split; [intros _; apply not_elem_of_nil|done]|].
  rewrite not_elem_of_cons. case_decide; [naive_solver|]. rewrite IH. naive_solver.
Qed.

Lemma bucket_take_spec k (b : list (K * V)) :
  match bucket_take k b with
  | Some (v, b') => exists b1 b2, b = b1 ++ (k, v) :: b2 /\ b' = b1 ++ b2
  | None => k ∉ (fst <$> b)
  end.
Proof.
  induction b as [|[k' v'] b IH]; simpl; [apply not_elem_of_nil|].
  case_decide as E; [subst; by exists [], b|].
  destruct (bucket_take k b) as [[v b']|]; simpl.
  - destruct IH as (b1 & b2 & -> & ->). by exists ((k', v') :: b1), b2.
  - rewrite not_elem_of_cons. naive_solver.
Qed.

Lemma bucket_replace_spec k v (b : list (K * V)) :
  match bucket_replace k v b with
  | Some b' => exists b1 b2 v0, b = b1 ++ (k, v0) :: b2 /\ b' = b1 ++ (k, v) :: b2
  | None => k ∉ (fst <$> b)
  end.
Proof.
  induction b as [|[k' v'] b IH]; simpl; [apply not_elem_of_nil|].
  case_decide as E; [subst; by exists [], b, v'|].
  destruct (bucket_replace k v b) as [b'|]; simpl.
  - destruct IH as (b1 & b2 & v0 & -> & ->). by exists ((k', v') :: b1), b2, v0.
  - rewrite not_elem_of_cons. naive_solver.
Qed.

(** ** The bucket of a key *)

Lemma buckets_lookup bs M k :
  bs <> [] -> buckets_rep bs M ->
  exists b, aget bs (contained_hash k bs) = Some b /\ NoDup (fst <$> b) /\
    (forall v, (k, v) ∈ b <-> M !! k = Some v) /\
    bucket_find k b = M !! k.
Proof.
  intros Hne (Hh & HM & Hnd). pose proof (contained_hash_range k bs Hne) as Hr.
  destruct (aget_in_range bs (contained_hash k bs) Hr) as [b Hb]. exists b.
  rewrite aget_lookup in Hb by lia.
  assert (forall v, (k, v) ∈ b <-> M !! k = Some v) as Hiff.
  { intros v. rewrite HM. split; [by eauto|]. intros (h & b' & Hb' & Hin).
    pose proof (Hh _ _ _ _ Hb' Hin) as E. rewrite <- E, Nat2Z.id in Hb.
    by simplify_eq. }
  rewrite aget_lookup by lia. split_and!; [done|by eapply Hnd|done|].
  destruct (M !! k) as [v|] eqn:E.
  - apply bucket_find_Some; [by eapply Hnd|]. by apply Hiff.
  - apply bucket_find_None. rewrite list_elem_of_fmap. intros ([k' v] & -> & Hin).
    apply Hiff in Hin. simpl in Hin. congruence.
Qed.

(** Rewriting the bucket of [k] so that it holds the pairs of [M'], which
    differs from [M] at [k] only. *)
Lemma buckets_update bs M M' k b b' :
  bs <> [] -> buckets_rep bs M -> aget bs (contained_hash k bs) = Some b ->
  NoDup (fst <$> b') ->
  (forall k', k' <> k -> M' !! k' = M !! k') ->
  (forall k' v, (k', v) ∈ b' <->
     if decide (k' = k) then M' !! k = Some v else (k', v) ∈ b) ->
  exists bs', aset bs (contained_hash k bs) b' = Some bs' /\ length bs' = length bs /\
    buckets_rep bs' M'.
Proof.
  intros Hne (Hh & HM & Hnd) Hb Hnd' HMk Hin.
  pose proof (contained_hash_range k bs Hne) as Hr.
  pose proof (aset_in_range bs _ b' Hr) as Hset. set (h0 := Z.to_nat (contained_hash k bs)) in *.
  exists (<[h0 := b']> bs). split; [done|]. split; [apply length_insert|].
  assert (forall k, contained_hash k (<[h0 := b']> bs) = contained_hash k bs) as Hch
    by (intros; apply contained_hash_length, length_insert).
  assert (bs !! h0 = Some b) as Hb0 by (rewrite aget_lookup in Hb by lia; done).
  assert (h0 < length bs)%nat as Hlt by (unfold h0; lia).
  split_and!.
  - intros h bb k' v Hbb Hkv. rewrite Hch. apply list_lookup_insert_Some in Hbb
      as [(<- & <- & _)|(Hneq & Hbb)]; [|by eapply Hh].
    apply Hin in Hkv. case_decide as E; [subst; unfold h0; lia|].
    by eapply Hh.
  - intros k' v. destruct (decide (k' = k)) as [->|Hk].
    + split.
      * intros HMv. exists h0, b'. split; [by apply list_lookup_insert_eq|].
        apply Hin. by rewrite decide_True.
      * intros (h & bb & Hbb & Hkv). apply list_lookup_insert_Some in Hbb
          as [(<- & <- & _)|(Hneq & Hbb)].
        -- apply Hin in Hkv. by rewrite decide_True in Hkv.
        -- pose proof (Hh _ _ _ _ Hbb Hkv). unfold h0 in Hneq. lia.
    + rewrite HMk by done. rewrite HM. split.
      * intros (h & bb & Hbb & Hkv). destruct (decide (h = h0)) as [->|].
        -- exists h0, b'. split; [by apply list_lookup_insert_eq|]. apply Hin.
           rewrite decide_False by done. by simplify_eq.
        -- exists h, bb. by rewrite list_lookup_insert_ne.
      * intros (h & bb & Hbb & Hkv). apply list_lookup_insert_Some in Hbb
          as [(<- & <- & _)|(Hneq & Hbb)]; [|by eauto].
        apply Hin in Hkv. rewrite decide_False in Hkv by done. by eauto.
  - intros h bb Hbb. apply list_lookup_insert_Some in Hbb as [(<- & <- & _)|(? & ?)]; [done|].
    by eapply Hnd.
Qed.

Lemma push_entry_rep bs M k v :
  bs <> [] -> buckets_rep bs M -> M !! k = None ->
  exists bs', push_entry (k, v) bs = Ret bs' /\ length bs' = length bs /\
    buckets_rep bs' (<[k := v]> M).
Proof.
  intros Hne Hrep HMk. unfold push_entry. simpl fst.
  destruct (buckets_lookup bs M k Hne Hrep) as (b & Hb & Hnd & Hin & Hf). rewrite Hb. simpl.
  destruct (buckets_update bs M (<[k := v]> M) k b (b ++ [(k, v)])) as (bs' & -> & ? & ?); try done.
  - rewrite fmap_app. simpl. apply NoDup_app. split_and!; [done| |apply NoDup_singleton].
    intros x Hx ->%list_elem_of_singleton. rewrite HMk in Hf. by apply bucket_find_None in Hf.
  - intros k' Hk. by rewrite lookup_insert_ne.
  - intros k' v'. rewrite elem_of_app, list_elem_of_singleton. case_decide as E.
    + subst. rewrite lookup_insert_eq, Hin, HMk. split; [by intros [|[= ->]]|].
      intros [= ->]. by right.
    + assert ((k', v') <> (k, v)) by congruence. rewrite ?elem_of_app, ?elem_of_cons. tauto.
  - simpl. by eauto.
Qed.

Lemma replicate_rep n : buckets_rep (replicate n []) ∅.
Proof.
  split_and!.
  - intros h b k v [-> _]%lookup_replicate ?%not_elem_of_nil. done.
  - intros k v. rewrite lookup_empty. split; [done|].
    intros (h & b & [-> _]%lookup_replicate & ?%not_elem_of_nil). done.
  - intros h b [-> _]%lookup_replicate. constructor.
Qed.

(** ** Growth *)

Lemma push_entries_rep es : forall bs M,
  bs <> [] -> buckets_rep bs M -> NoDup (fst <$> es) ->
  (forall k, k ∈ (fst <$> es) -> M !! k = None) ->
  exists bs', push_entries es bs = Ret bs' /\ length bs' = length bs /\
    buckets_rep bs' (list_to_map es ∪ M).
Proof.
  induction es as [|[k v] es IH]; intros bs M Hne Hrep Hnd Hfresh; simpl.
  { exists bs. by rewrite (left_id_L ∅ (∪)). }
  simpl in Hnd, Hfresh. apply NoDup_cons in Hnd as [Hk Hnd].
  destruct (push_entry_rep bs M k v Hne Hrep) as (bs1 & -> & Hl1 & Hrep1).
  { apply Hfresh. set_solver. }
  simpl. destruct (IH bs1 (<[k := v]> M)) as (bs2 & -> & Hl2 & Hrep2); try done.
  { destruct bs1, bs; done. }
  { intros k' Hk'. rewrite lookup_insert_ne by (by intros ->). apply Hfresh. set_solver. }
  exists bs2. split; [done|]. split; [congruence|].
  rewrite <- insert_union_l. rewrite insert_union_r; [done|].
  by apply not_elem_of_list_to_map_1.
Qed.

Lemma rehash_entries bs M :
  buckets_rep bs M ->
  NoDup (fst <$> concat (reverse <$> bs)) /\
  (forall k v, (k, v) ∈ concat (reverse <$> bs) <-> M !! k = Some v).
Proof.
  intros (Hh & HM & Hnd). split.
  - assert (forall off l, (forall h b, l !! h = Some b -> bs !! (off + h)%nat = Some b) ->
      NoDup (fst <$> concat (reverse <$> l))) as Hgen.
    { intros off l. revert off. induction l as [|b l IH]; intros off Hl; simpl; [constructor|].
      rewrite fmap_app. apply NoDup_app. split_and!.
      - rewrite fmap_reverse, reverse_Permutation. eapply Hnd, (Hl O). done.
      - intros k Hk1 Hk2. rewrite fmap_reverse, elem_of_reverse in Hk1.
        apply list_elem_of_fmap in Hk1 as ([k1 v1] & -> & Hin1).
        apply list_elem_of_fmap in Hk2 as ([k2 v2] & E & Hin2). simpl in E. subst k2.
        apply list_elem_of_In, in_concat in Hin2 as (c & Hc & Hin2).
        apply list_elem_of_In, list_elem_of_fmap in Hc as (b2 & -> & Hb2).
        apply list_elem_of_In in Hin2. rewrite elem_of_reverse in Hin2.
        apply list_elem_of_lookup in Hb2 as [h Hh2].
        pose proof (Hh _ _ _ _ (Hl O b eq_refl) Hin1) as E1.
        pose proof (Hh _ _ _ _ (Hl (S h) b2 Hh2) Hin2) as E2. lia.
      - apply (IH (S off)). intros h b' Hb'. specialize (Hl (S h) b' Hb').
        by rewrite Nat.add_succ_r in Hl. }
    by apply (Hgen O).
  - intros k v. rewrite HM. rewrite list_elem_of_In, in_concat. split.
    + intros (c & Hc & Hin). apply list_elem_of_In, list_elem_of_fmap in Hc as (b & -> & Hb).
      apply list_elem_of_In in Hin. rewrite elem_of_reverse in Hin.
      apply list_elem_of_lookup in Hb as [h Hh2]. eauto.
    + intros (h & b & Hb & Hin). exists (reverse b). split.
      * apply list_elem_of_In, list_elem_of_fmap. exists b. split; [done|].
        by eapply list_elem_of_lookup_2.
      * by apply list_elem_of_In, elem_of_reverse.
Qed.

Lemma maybe_rehash_rep m M :
  _buckets m <> [] -> umap_rep m M ->
  exists m', maybe_rehash m = Ret m' /\ umap_rep m' M /\ _buckets m' <> [].
Proof.
  intros Hne [Hc [[? _]|[_ Hrep]]]; [done|]. unfold maybe_rehash.
  assert (0 < length (_buckets m))%nat by (destruct (_buckets m); simpl; [done|lia]).
  rewrite (proj2 (Z.eqb_neq _ _)) by lia.
  destruct (Z.ltb_spec (_count m / zlen (_buckets m)) 4).
  { exists m. split; [done|]. split; [|done]. split; [done|by right]. }
  destruct (rehash_entries _ _ Hrep) as [Hnd Hin].
  assert (replicate (2 * length (_buckets m)) ([] : list (K * V)) <> []) as Hne'.
  { destruct (length (_buckets m)); [lia|done]. }
  destruct (push_entries_rep (concat (reverse <$> _buckets m))
    (replicate (2 * length (_buckets m)) []) ∅) as (bs & -> & Hl & Hrep'); try done.
  { apply replicate_rep. }
  simpl. eexists. split; [done|]. simpl.
  assert (bs <> []) by (intros ->; destruct (length (_buckets m)); simpl in Hl; lia).
  split; [|done]. split; [done|right]. split; [done|]. simpl.
  replace M with (list_to_map (concat (reverse <$> _buckets m)) ∪ ∅ : gmap K V); [done|].
  rewrite (right_id_L ∅ (∪)). apply map_eq. intros k. apply option_eq. intros v.
  rewrite <- Hin. symmetry. by apply elem_of_list_to_map.
Qed.

(** ** Operations *)

Lemma umap_insert_rep nd k v m M :
  umap_rep m M -> (nd = true \/ M !! k = None) ->
  exists m', insert nd k v m = Ret m' /\ umap_rep m' (<[k := v]> M).
Proof.
  intros [Hc Hb] Hnd. unfold insert.
  set (bs := if zlen (_buckets m) =? 0 then _ else _).
  assert (bs <> [] /\ buckets_rep bs M) as [Hne Hrep].
  { unfold bs. destruct Hb as [[E ->]|[Hne Hrep]].
    - rewrite E. simpl. split; [done|]. apply (replicate_rep 16).
    - rewrite (proj2 (Z.eqb_neq _ _)); [done|]. destruct (_buckets m); simpl; [done|lia]. }
  clearbody bs. destruct (buckets_lookup bs M k Hne Hrep) as (b & Hbk & Hndb & Hin & Hf).
  rewrite Hbk. simpl. pose proof (bucket_replace_spec k v b) as Hbr.
  destruct (if nd then bucket_replace k v b else None) as [b'|] eqn:E.
  - destruct nd; [|done]. rewrite E in Hbr. destruct Hbr as (b1 & b2 & v0 & -> & ->).
    assert (M !! k = Some v0) as HMk by (apply Hin; set_solver).
    rewrite fmap_app, fmap_cons in Hndb. simpl in Hndb.
    destruct (buckets_update bs M (<[k := v]> M) k (b1 ++ (k, v0) :: b2) (b1 ++ (k, v) :: b2))
      as (bs' & -> & Hl & Hrep'); try done.
    + by rewrite fmap_app, fmap_cons.
    + intros k' ?. by rewrite lookup_insert_ne.
    + intros k' v'. rewrite !elem_of_app, !elem_of_cons. apply NoDup_app in Hndb as (_ & Hn1 & Hn2).
      apply NoDup_cons in Hn2 as [Hn2 _]. case_decide as E'.
      * subst. rewrite lookup_insert_eq. split.
        -- intros [Hx|[[= ->]|Hx]]; [|done|].
           ++ destruct (Hn1 k); [|set_solver]. apply list_elem_of_fmap. by exists (k, v').
           ++ destruct Hn2. apply list_elem_of_fmap. by exists (k, v').
        -- intros [= ->]. right. by left.
      * assert ((k', v') <> (k, v)) by congruence.
        assert ((k', v') <> (k, v0)) by congruence. rewrite ?elem_of_app, ?elem_of_cons. tauto.
    + simpl. eexists. split; [done|]. split; simpl.
      * by rewrite Hc, map_size_insert_Some.
      * right. split; [|done]. destruct bs', bs; done.
  - assert (M !! k = None) as HMk.
    { destruct nd; [|by destruct Hnd]. rewrite E in Hbr. rewrite <- Hf.
      by apply bucket_find_None. }
    destruct (push_entry_rep bs M k v Hne Hrep HMk) as (bs' & -> & Hl & Hrep'). simpl.
    assert (bs' <> []) by (destruct bs', bs; done).
    destruct (maybe_rehash_rep (mk_UMap bs' (_count m + 1)) (<[k := v]> M)) as (m' & -> & ? & _);
      [done| |by eauto].
    split; [|by right]. simpl. rewrite map_size_insert_None by done. lia.
Qed.

Lemma take_rep k m M v :
  umap_rep m M -> M !! k = Some v ->
  exists b b' bs', _buckets m <> [] /\
    aget (_buckets m) (contained_hash k (_buckets m)) = Some b /\
    bucket_take k b = Some (v, b') /\
    aset (_buckets m) (contained_hash k (_buckets m)) b' = Some bs' /\
    umap_rep (mk_UMap bs' (_count m - 1)) (delete k M).
Proof.
  intros [Hc [[_ ->]|[Hne Hrep]]] HMk; [by rewrite lookup_empty in HMk|].
  destruct (buckets_lookup _ M k Hne Hrep) as (b & Hbk & Hndb & Hin & Hf).
  pose proof (bucket_take_spec k b) as Ht. destruct (bucket_take k b) as [[v0 b']|] eqn:E.
  2:{ apply bucket_find_None in Ht. congruence. }
  destruct Ht as (b1 & b2 & -> & ->).
  assert (v0 = v) as ->. { assert (M !! k = Some v0) by (apply Hin; set_solver). congruence. }
  rewrite fmap_app, fmap_cons in Hndb. simpl in Hndb.
  apply NoDup_app in Hndb as (Hn0 & Hn1 & Hn2). apply NoDup_cons in Hn2 as [Hn2 Hn3].
  destruct (buckets_update (_buckets m) M (delete k M) k (b1 ++ (k, v) :: b2) (b1 ++ b2))
    as (bs' & Hset & Hl & Hrep'); try done.
  - rewrite fmap_app. apply NoDup_app. split_and!; [done| |done]. intros x Hx1 Hx2.
    apply (Hn1 x Hx1). set_solver.
  - intros k' ?. by rewrite lookup_delete_ne.
  - intros k' v'. rewrite !elem_of_app. case_decide as E'.
    + subst. rewrite lookup_delete_eq. split; [|done]. intros [Hx|Hx].
      * destruct (Hn1 k); [|set_solver]. apply list_elem_of_fmap. by exists (k, v').
      * destruct Hn2. apply list_elem_of_fmap. by exists (k, v').
    + assert ((k', v') <> (k, v)) by congruence. rewrite ?elem_of_app, ?elem_of_cons. tauto.
  - exists (b1 ++ (k, v) :: b2), (b1 ++ b2), bs'. split_and!; try done.
    split; simpl.
    + rewrite Hc, map_size_delete_Some by eauto.
      assert (size M <> 0%nat) by (apply map_size_ne_0_lookup; eauto). lia.
    + right. split; [|done]. destruct bs', (_buckets m); done.
Qed.

Lemma find_rep k m M : umap_rep m M -> find k m = Ret (M !! k).
Proof.
  intros [Hc [[E ->]|[Hne Hrep]]]; unfold find.
  - by rewrite E, lookup_empty.
  - rewrite (proj2 (Z.eqb_neq _ _)) by (destruct (_buckets m); simpl; [done|lia]).
    destruct (buckets_lookup _ M k Hne Hrep) as (b & -> & _ & _ & <-). done.
Qed.

Lemma has_rep k m M : umap_rep m M -> has k m = Ret (bool_decide (is_Some (M !! k))).
Proof.
  intros Hm. pose proof (find_rep k m M Hm) as Hf. unfold has. unfold find in Hf.
  destruct (Z.eqb_spec (zlen (_buckets m)) 0); [by injection Hf as <-|].
  destruct (aget _ _) as [b|]; [|done]. simpl in *. by injection Hf as ->.
Qed.

Lemma at_rep k m M : umap_rep m M -> at_ k m = deref (M !! k).
Proof.
  intros Hm. pose proof (find_rep k m M Hm) as Hf. unfold at_. unfold find in Hf.
  destruct (Z.eqb_spec (zlen (_buckets m)) 0); [by injection Hf as <-|].
  destruct (aget _ _) as [b|]; [|done]. simpl in *. by injection Hf as ->.
Qed.

Lemma moveOut_rep k m M x :
  umap_rep m M -> M !! k = Some x ->
  exists m', moveOut k m = Ret (x, m') /\ remove k m = Ret m' /\ umap_rep m' (delete k M).
Proof.
  intros Hm Hx. destruct (take_rep k m M x Hm Hx) as (b0 & b' & bs' & Hne & E1 & E2 & E3 & ?).
  unfold moveOut, remove. pose proof (aget_Some_range _ _ _ E1).
  rewrite (proj2 (Z.eqb_neq _ _)) by lia. rewrite (proj2 (Z.leb_gt _ _)) by lia.
  rewrite E1. simpl. rewrite E2. simpl. rewrite E3. simpl. by eauto.
Qed.

Lemma moveOut_rep_None k m M :
  umap_rep m M -> M !! k = None -> moveOut k m = Trap /\ remove k m = Ret m.
Proof.
  intros Hm Hx. pose proof (find_rep k m M Hm) as Hf. unfold moveOut, remove. unfold find in Hf.
  destruct (Z.eqb_spec (zlen (_buckets m)) 0); [done|].
  destruct (aget _ _) as [b|] eqn:Hb; [|done]. pose proof (aget_Some_range _ _ _ Hb).
  rewrite (proj2 (Z.leb_gt _ _)) by lia. simpl in *. injection Hf as Hf. rewrite Hx in Hf.
  apply bucket_find_None in Hf. pose proof (bucket_take_spec k b) as Ht.
  destruct (bucket_take k b) as [[y b']|]; [|done]. destruct Ht as (b1 & b2 & -> & _).
  destruct Hf. rewrite fmap_app, fmap_cons. set_solver.
Qed.

(** [insert] has no fuel to run out of, whatever the table. *)
Lemma push_entries_ends es : forall bs : list (list (K * V)),
  ends (fun _ => True) (push_entries es bs).
Proof.
  induction es as [|e es IH]; intros bs; simpl; [done|]. unfold push_entry.
  destruct (aget _ _); simpl; [|done]. destruct (aset _ _ _); simpl; [apply IH|done].
Qed.

Lemma insert_ends nd k v m : ends (fun _ => True) (insert nd k v m).
Proof.
  unfold insert. destruct (aget _ _) as [b|]; simpl; [|done].
  destruct (if nd then _ else _) as [b'|].
  - by destruct (aset _ _ _).
  - unfold push_entry. simpl. destruct (aget _ _); simpl; [|done].
    destruct (aset _ _ _); simpl; [|done]. unfold maybe_rehash.
    destruct (_ =? 0); [done|]. destruct (_ <? 4); [done|].
    eapply ends_bind; [apply push_entries_ends|]. done.
Qed.

(** The stored entries, in any order. *)
Lemma umap_rep_perm m M : umap_rep m M -> concat (_buckets m) ≡ₚ map_to_list M.
Proof.
  intros [_ [[-> ->]|[_ Hrep]]]; [by rewrite map_to_list_empty|].
  assert (concat (_buckets m) ≡ₚ concat (reverse <$> _buckets m)) as ->.
  { clear. induction (_buckets m) as [|b l IH]; simpl; [done|]. by rewrite reverse_Permutation, <- IH. }
  destruct (rehash_entries _ _ Hrep) as [Hnd Hin]. apply NoDup_Permutation.
  - by apply NoDup_fmap_1 in Hnd.
  - apply NoDup_map_to_list.
  - intros [k v]. rewrite Hin, elem_of_map_to_list. done.
Qed.

(** ** Iteration *)

(** The iterator at position [p] of the concatenated buckets. *)
Definition at_pos bs (it : nat * nat) (es : list (K * V)) : Prop :=
  exists b, bs !! fst it = Some b /\ (snd it < length b)%nat /\
    es = drop (snd it) b ++ concat (drop (S (fst it)) bs).

Definition opt_pos bs (it : option (nat * nat)) (es : list (K * V)) : Prop :=
  match it with Some it => at_pos bs it es | None => es = [] end.

Lemma first_nonempty_pos bs : forall g,
  opt_pos bs (first_nonempty (drop g bs) g) (concat (drop g bs)).
Proof.
  intros g. remember (drop g bs) as l eqn:E. revert g E.
  induction l as [|b l IH]; intros g E; simpl; [done|].
  assert (drop (S g) bs = l) as E' by (rewrite <- Nat.add_1_r, <- drop_drop, <- E; done).
  assert (bs !! g = Some b) as Hb.
  { pose proof (lookup_drop bs g 0) as Hd. rewrite <- E, Nat.add_0_r in Hd. done. }
  destruct b as [|e b]; [by apply IH|]. simpl. exists (e :: b). simpl.
  split_and!; [done|lia|]. by rewrite E'.
Qed.

Lemma next_pos bs c it e es :
  at_pos bs it (e :: es) -> entry (mk_UMap bs c) it = Some e /\
    opt_pos bs (next (mk_UMap bs c) it) es.
Proof.
  destruct it as [g i]. intros (b & Hb & Hi & He). simpl in *.
  destruct (lookup_lt_is_Some_2 b i Hi) as [x Hx].
  rewrite (drop_S b x i Hx) in He. simpl in He. injection He as <- Hes.
  unfold entry. simpl. rewrite Hb. simpl. split; [done|]. case_decide as Hlt.
  - exists b. by simpl.
  - rewrite (drop_ge b) in Hes by lia. simpl in Hes. rewrite Hes.
    destruct bs as [|b0 bs]; [done|]. apply (first_nonempty_pos (b0 :: bs) (S g)).
Qed.

Lemma iterate_spec bs c es : forall fuel it,
  (length es <= fuel)%nat -> opt_pos bs it es -> iterate fuel (mk_UMap bs c) it = Ret es.
Proof.
  induction es as [|e es IH]; intros fuel it Hf Hp.
  - destruct it as [[g i]|]; [|by destruct fuel].
    destruct Hp as (b & _ & Hi & He). simpl in *. symmetry in He.
    apply app_eq_nil in He as [He _]. apply (f_equal length) in He.
    rewrite length_drop in He. simpl in He. lia.
  - destruct it as [it|]; [|done]. destruct fuel as [|fuel]; [simpl in Hf; lia|].
    destruct (next_pos bs c it e es Hp) as [He Hn]. simpl. rewrite He. simpl.
    rewrite (IH fuel) by (done || (simpl in Hf; lia)). done.
Qed.

Lemma elements_concat m : elements m = Ret (concat (_buckets m)).
Proof.
  destruct m as [bs c]. unfold elements. apply iterate_spec; [done|].
  unfold begin. simpl. pose proof (first_nonempty_pos bs 0) as H0. by rewrite drop_0 in H0.
Qed.
End spec.

(** * Properties *)

(** C32: [fc::UMap] is a finite map: from a map representing [M], and through
    every growth of the table, [insert] stores (replacing, in an NDEBUG build;
    for a fresh key, in any build), [find]/[has]/[operator[]] read, [moveOut]
    and [remove] delete, and none of them fails an access. *)
Theorem umap_refines_map {K V} `{EqDecision K} `{!Countable K} `{Hashable K}
    (nd : bool) (m : UMap K V) (M : gmap K V) (k : K) (v : V) :
  umap_rep m M ->
  (nd = true \/ M !! k = None ->
     exists m', insert nd k v m = Ret m' /\ umap_rep m' (<[k := v]> M)) /\
  find k m = Ret (M !! k) /\
  has k m = Ret (bool_decide (is_Some (M !! k))) /\
  at_ k m = deref (M !! k) /\
  match M !! k with
  | Some x => exists m', moveOut k m = Ret (x, m') /\ remove k m = Ret m' /\
      umap_rep m' (delete k M)
  | None => moveOut k m = Trap /\ remove k m = Ret m
  end.
Proof.
  intros Hm. split; [by apply umap_insert_rep|]. split; [by apply find_rep|].
  split; [by apply has_rep|]. split; [by apply at_rep|].
  destruct (M !! k) as [x|] eqn:Hx; [by apply moveOut_rep|by apply (moveOut_rep_None k m M)].
Qed.

(** Iterating over a [UMap] ends and visits every pair of the map exactly
    once (the fuel is the number of stored entries). *)
Theorem umap_iteration_visits_once {K V} `{EqDecision K} `{!Countable K} `{Hashable K}
    (m : UMap K V) (M : gmap K V) :
  umap_rep m M ->
  exists es, elements m = Ret es /\ es ≡ₚ map_to_list M.
Proof.
  intros Hm. exists (concat (_buckets m)). split; [apply elements_concat|by apply umap_rep_perm].
Qed.

(** Without NDEBUG an insert on a key already present does not replace:
    the old value is still the one found, and the count grows. *)
Theorem umap_debug_insert_shadowed :
  exists m : UMap Z Z,
    (m ← insert false 7 1 empty; insert false 7 2 m) = Ret m /\
    find 7 m = Ret (Some 1) /\ count m = 2.
Proof. eexists. split_and!; reflexivity. Qed.

(** * Witnesses *)

Lemma empty_umap_rep : umap_rep (K := Z) (V := Z) empty ∅.
Proof. split; [by rewrite map_size_empty|by left]. Qed.

Lemma umap_refines_map_witness :
  umap_rep (K := Z) (V := Z) empty ∅ /\
  (exists m' : UMap Z Z, insert true 3 4 empty = Ret m' /\ umap_rep m' (<[3 := 4]> ∅)) /\
  find 3 (empty : UMap Z Z) = Ret ((∅ : gmap Z Z) !! 3).
Proof.
  split; [exact empty_umap_rep|].
  destruct (umap_refines_map true (empty : UMap Z Z) ∅ 3 4 empty_umap_rep) as (Hi & Hf & _).
  split; [by apply Hi; left|exact Hf].
Defined.

Lemma umap_iteration_visits_once_witness :
  exists es, elements (empty : UMap Z Z) = Ret es /\ es ≡ₚ map_to_list (∅ : gmap Z Z).
Proof. apply (umap_iteration_visits_once (empty : UMap Z Z) ∅). exact empty_umap_rep. Defined.
