(* ===== verification/LinkedList.v ===== *)
(** libcore/ds/linked_list.hpp: the singly linked list.

    The nodes of all the lists are in one store, a map from addresses to nodes;
    an access through the null pointer or to a node that has been freed traps.
    [malloc] is the address it returns, an argument of [push]. A list refines the
    list of its elements, as long as [+=] is not given an empty list. *)

From stdpp Require Import gmap.
From S2P Require Import Prelude.

(** * The class *)

Definition nullptr : Z := 0.

Section linked_list.
Context {T : Type}.

Record Node := mk_Node { next : Z; data : T }.
Record LinkedList := mk_LinkedList { head : Z; tail : Z; _count : Z }.

Abbreviation store := (gmap Z Node).

Definition LinkedList_init : LinkedList := mk_LinkedList nullptr nullptr 0.

Definition node (st : store) (p : Z) : ctl Node := deref (st !! p).

(** [p->next = n] *)
Definition set_next (p n : Z) (st : store) : ctl store :=
  x ← node st p; Ret (<[p := mk_Node n (data x)]> st).

(** The new node is written to: [malloc] must have given an address. *)
Definition push (p : Z) (v : T) (st : store) (l : LinkedList) : ctl (store * LinkedList) :=
  if p =? nullptr then Trap
  else
    let st := <[p := mk_Node nullptr v]> st in
    st ← if negb (tail l =? nullptr) then set_next (tail l) p st else Ret st;
    Ret (st, mk_LinkedList (if head l =? nullptr then p else head l) p (u64 (_count l + 1))).

Definition free (p : Z) (st : store) : ctl store := _ ← node st p; Ret (delete p st).

Definition pop_front (st : store) (l : LinkedList) : ctl (T * store * LinkedList) :=
  if head l =? nullptr then Trap
  else
    x ← node st (head l);
    st ← free (head l) st;
    Ret (data x, st,
      mk_LinkedList (next x) (if tail l =? head l then nullptr else tail l) (u64 (_count l - 1))).

(** [i] nodes after [prev], as far as there are nodes. *)
Fixpoint walk (i : nat) (prev : Z) (st : store) : ctl Z :=
  match i with
  | O => Ret prev
  | S i => if prev =? nullptr then Ret nullptr else x ← node st prev; walk i (next x) st
  end.

(** [None] is [Storage<T>::empty()]. The loop makes no more turns than there are
    nodes: the number of its turns is bounded by the size of the store. *)
Definition remove (idx : Z) (st : store) (l : LinkedList) : ctl (option T * store * LinkedList) :=
  if idx =? 0 then '(v, st, l) ← pop_front st l; Ret (Some v, st, l)
  else
    prev ← walk (Z.to_nat (Z.min (idx - 1) (Z.of_nat (S (size st))))) (head l) st;
    if prev =? nullptr then Ret (None, st, l)
    else
      p ← node st prev;
      if next p =? nullptr then Ret (None, st, l)
      else
        let victim := next p in
        x ← node st victim;
        st ← set_next prev (next x) st;
        st ← if victim =? tail l then set_next prev nullptr st else Ret st;
        st ← free victim st;
        Ret (Some (data x), st,
          mk_LinkedList (head l) (if victim =? tail l then prev else tail l) (u64 (_count l - 1))).

(** [this += std::move(other)], and what is left of [other]. *)
Definition append (st : store) (l other : LinkedList) : ctl (store * LinkedList * LinkedList) :=
  if negb (tail l =? nullptr) then
    st ← set_next (tail l) (head other) st;
    Ret (st, mk_LinkedList (head l) (tail other) (u64 (_count l + _count other)), LinkedList_init)
  else Ret (st, other, LinkedList_init).

(** [fuel]: more than the nodes of the list. *)
Fixpoint release_loop (fuel : nat) (p : Z) (st : store) : ctl store :=
  match fuel with
  | O => NoFuel
  | S fuel =>
      if p =? nullptr then Ret st
      else x ← node st p; st ← free p st; release_loop fuel (next x) st
  end.

Definition release (st : store) (l : LinkedList) : ctl (store * LinkedList) :=
  st ← release_loop (S (size st)) (head l) st; Ret (st, LinkedList_init).

(** [for (auto &v : list)] *)
Fixpoint iterate (fuel : nat) (p : Z) (st : store) : ctl (list T) :=
  match fuel with
  | O => NoFuel
  | S fuel =>
      if p =? nullptr then Ret []
      else x ← node st p; rest ← iterate fuel (next x) st; Ret (data x :: rest)
  end.

Definition elements (st : store) (l : LinkedList) : ctl (list T) := iterate (S (size st)) (head l) st.

(** [first()], [last()] *)
Definition first (st : store) (l : LinkedList) : ctl T := x ← node st (head l); Ret (data x).
Definition last_ (st : store) (l : LinkedList) : ctl T := x ← node st (tail l); Ret (data x).

(** * What a list holds *)

(** The nodes from [p] to [q], with their addresses. *)
Fixpoint lseg (st : store) (p : Z) (l : list (Z * T)) (q : Z) : Prop :=
  match l with
  | [] => p = q
  | (a, v) :: l => p = a /\ a <> nullptr /\ exists n, st !! a = Some (mk_Node n v) /\ lseg st n l q
  end.

Definition last_addr (l : list (Z * T)) : Z := default nullptr (last l.*1).

(** [l] holds the nodes [ns]. *)
Record holds (st : store) (l : LinkedList) (ns : list (Z * T)) : Prop := mk_holds {
  h_chain : lseg st (head l) ns nullptr;
  h_nodup : NoDup ns.*1;
  h_tail : tail l = last_addr ns;
  h_count : _count l = zlen ns;
  h_size : zlen ns < 2 ^ 64
}.

Lemma lseg_app st p l1 l2 q : lseg st p (l1 ++ l2) q <-> exists m, lseg st p l1 m /\ lseg st m l2 q.
Proof.
  revert p. induction l1 as [|[a v] l1 IH]; intros p; simpl; [naive_solver|].
  setoid_rewrite IH. naive_solver.
Qed.

Lemma lseg_frame st st' p l q :
  (forall a, a ∈ l.*1 -> st' !! a = st !! a) -> lseg st p l q -> lseg st' p l q.
Proof.
  revert p. induction l as [|[a v] l IH]; intros p H; simpl; [done|].
  intros (-> & Ha & n & Hn & Hl). split_and!; [done..|]. exists n. split.
  - rewrite H; [done|]. by left.
  - apply IH; [|done]. intros b Hb. apply H. by right.
Qed.

Lemma lseg_insert st p l q a x : a ∉ l.*1 -> lseg st p l q -> lseg (<[a := x]> st) p l q.
Proof. intros Ha. apply lseg_frame. intros b Hb. rewrite lookup_insert_ne; [done|]. by intros ->. Qed.

Lemma lseg_delete st p l q a : a ∉ l.*1 -> lseg st p l q -> lseg (delete a st) p l q.
Proof. intros Ha. apply lseg_frame. intros b Hb. rewrite lookup_delete_ne; [done|]. by intros ->. Qed.

Lemma lseg_addr st p l q a : lseg st p l q -> a ∈ l.*1 -> a <> nullptr /\ is_Some (st !! a).
Proof.
  revert p. induction l as [|[b v] l IH]; intros p; simpl; [by intros _ ?%elem_of_nil|].
  intros (-> & Hb & n & Hn & Hl) [->|Ha]%elem_of_cons; [eauto|by eapply IH].
Qed.

Lemma lseg_size st p l q : NoDup l.*1 -> lseg st p l q -> (length l <= size st)%nat.
Proof.
  intros Hnd H. rewrite <- (length_fmap fst), <- size_dom, <- (size_list_to_set (C := gset Z) l.*1) by done.
  apply subseteq_size. intros a Ha%elem_of_list_to_set. apply elem_of_dom.
  by eapply lseg_addr.
Qed.

Lemma last_addr_app l x : last_addr (l ++ [x]) = x.1.
Proof. unfold last_addr. rewrite fmap_app. simpl. by rewrite last_snoc. Qed.

Lemma last_addr_cons a v l : last_addr ((a, v) :: l) = default a (last l.*1).
Proof. unfold last_addr. rewrite fmap_cons, last_cons. simpl. by destruct (last l.*1). Qed.

Lemma last_addr_mid l1 m v l2 : last_addr (l1 ++ (m, v) :: l2) = default m (last l2.*1).
Proof.
  unfold last_addr. rewrite fmap_app, fmap_cons, last_app, last_cons. simpl. by destruct (last l2.*1).
Qed.

(** The last address is that of a node. *)
Lemma last_addr_in a l : default a (last (l : list (Z * T)).*1) = a -> a ∉ l.*1 -> l = [].
Proof.
  intros E H. destruct l as [|[c w] l _] using rev_ind; [done|]. rewrite fmap_app in E, H. simpl in E.
  rewrite last_snoc in E. simpl in E. subst c. destruct H. apply elem_of_app. right. by left.
Qed.

Lemma head_cases st l ns : holds st l ns -> head l = match ns with [] => nullptr | x :: _ => x.1 end.
Proof. intros [H _ _ _ _]. destruct ns as [|[a v] ns]; [done|]. by destruct H as [-> _]. Qed.

(** The end of a list that is not empty. *)
Lemma holds_last st l ns : holds st l ns -> ns <> [] ->
  exists ns' v, ns = ns' ++ [(tail l, v)] /\ tail l <> nullptr /\ tail l ∉ ns'.*1 /\
    st !! tail l = Some (mk_Node nullptr v) /\ lseg st (head l) ns' (tail l).
Proof.
  intros [Hc Hnd Ht _ _] Hne. destruct ns as [|x ns' _] using rev_ind; [done|]. clear Hne.
  destruct x as [a v]. rewrite last_addr_app in Ht. simpl in Ht. subst a.
  exists ns', v. apply lseg_app in Hc as (m & H1 & -> & H2 & n & H3 & ->).
  rewrite fmap_app in Hnd. apply NoDup_app in Hnd as (_ & Hd & _).
  split_and!; try done. intros Hin. apply (Hd _ Hin). by left.
Qed.

(** ** The operations *)

Lemma push_holds p v st l ns :
  holds st l ns -> p <> nullptr -> st !! p = None -> zlen ns + 1 < 2 ^ 64 ->
  exists st' l', push p v st l = Ret (st', l') /\ holds st' l' (ns ++ [(p, v)]) /\
    (forall a, a <> p -> a ∉ ns.*1 -> st' !! a = st !! a).
Proof.
  intros H Hp Hfresh Hsz. unfold push. rewrite (proj2 (Z.eqb_neq _ _) Hp).
  assert (Hin : p ∉ ns.*1).
  { intros Hin. destruct (lseg_addr _ _ _ _ _ (h_chain _ _ _ H) Hin) as [_ [? E]]. congruence. }
  assert (Hcount : u64 (_count l + 1) = zlen (ns ++ [(p, v)])).
  { rewrite (h_count _ _ _ H), wrapu_small; len_lia. }
  destruct (decide (ns = [])) as [->|Hne].
  - rewrite (h_tail _ _ _ H), (head_cases _ _ _ H). simpl. eexists _, _. split; [done|]. split.
    + split; simpl; rewrite ?Hcount; try done; [|by apply NoDup_singleton].
      split_and!; try done. exists nullptr. split; [apply lookup_insert_eq|done].
    + intros a Ha _. by apply lookup_insert_ne.
  - destruct (holds_last _ _ _ H Hne) as (ns' & w & -> & Ht0 & Htin & Ht & Hc).
    rewrite (proj2 (Z.eqb_neq _ _) Ht0). simpl.
    assert (tail l <> p) by (intros E; rewrite E in Ht; congruence).
    unfold set_next, node. rewrite lookup_insert_ne, Ht by done. simpl.
    rewrite (head_cases _ _ _ H).
    replace (match ns' ++ [(tail l, w)] with [] => nullptr | x :: _ => x.1 end =? nullptr) with false.
    2: { symmetry. apply Z.eqb_neq. destruct ns' as [|[b u] ns']; simpl; [done|].
         destruct Hc as (_ & Hb & _). done. }
    eexists _, _. split; [done|]. rewrite fmap_app in Hin. apply not_elem_of_app in Hin as [Hin1 Hin2].
    split; [split; simpl|].
    + apply lseg_app. exists p. split.
      * apply lseg_app. exists (tail l). split.
        -- rewrite <- (head_cases _ _ _ H). apply lseg_insert; [done|]. by apply lseg_insert.
        -- split_and!; try done. exists p. split; [apply lookup_insert_eq|done].
      * split_and!; try done. exists nullptr. split; [|done].
        rewrite lookup_insert_ne by done. apply lookup_insert_eq.
    + rewrite fmap_app. apply NoDup_app. split_and!; [apply H| |by apply NoDup_singleton].
      intros a Ha ->%list_elem_of_singleton. rewrite fmap_app in Ha. by apply elem_of_app in Ha as [?|?].
    + by rewrite last_addr_app.
    + done.
    + revert Hsz. len_simpl. lia.
    + intros a Ha1 Ha2. rewrite fmap_app in Ha2. apply not_elem_of_app in Ha2 as [_ Ha2].
      rewrite !lookup_insert_ne; [done|by intros ->|]. intros <-. apply Ha2. by left.
Qed.

Lemma pop_front_holds st l a v ns :
  holds st l ((a, v) :: ns) ->
  exists l', pop_front st l = Ret (v, delete a st, l') /\ holds (delete a st) l' ns.
Proof.
  intros H. unfold pop_front. pose proof (head_cases _ _ _ H) as Hh. simpl in Hh. rewrite Hh.
  destruct H as [(_ & Ha & n & Hn & Hc) [Hnd1 Hnd2]%NoDup_cons Ht Hcnt Hsz]. simpl in *.
  rewrite (proj2 (Z.eqb_neq _ _) Ha). unfold free, node. rewrite Hn. simpl.
  eexists. split; [done|]. split; simpl; try done.
  - by apply lseg_delete.
  - rewrite Ht, last_addr_cons. unfold last_addr. destruct (last ns.*1) as [z|] eqn:El; simpl.
    + rewrite (proj2 (Z.eqb_neq _ _)); [done|]. intros ->. apply Hnd1.
      apply last_Some in El as [l' El]. change (a ∈ ns.*1). rewrite El. apply elem_of_app. right. by left.
    + by rewrite Z.eqb_refl.
  - rewrite Hcnt, wrapu_small; lia.
  - lia.
Qed.

Lemma pop_front_empty st l : holds st l [] -> pop_front st l = Trap.
Proof. intros H. unfold pop_front. by rewrite (head_cases _ _ _ H). Qed.

Lemma walk_nodes st n : forall p ns q,
  lseg st p ns q -> (n <= length ns)%nat -> q = nullptr \/ n = length ns ->
  exists m, walk n p st = Ret m /\ lseg st p (take n ns) m /\ lseg st m (drop n ns) q.
Proof.
  induction n as [|n IH]; intros p ns q H Hn Hq; simpl.
  - by exists p.
  - destruct ns as [|[a v] ns]; simpl in *; [lia|]. destruct H as (-> & Ha & k & Hk & H).
    rewrite (proj2 (Z.eqb_neq _ _) Ha). unfold node. rewrite Hk. simpl.
    destruct (IH k ns q H) as (m & E & H1 & H2); [lia|destruct Hq; auto|].
    exists m. split_and!; eauto.
Qed.

Lemma lseg_at st p l1 m v l2 q : lseg st p (l1 ++ (m, v) :: l2) q -> walk (length l1) p st = Ret m.
Proof.
  intros H. destruct (walk_nodes st (length l1) p l1 m) as (m' & E & _ & H2).
  - apply lseg_app in H as (m' & H1 & -> & _). done.
  - done.
  - by right.
  - rewrite drop_all in H2. simpl in H2. by subst.
Qed.

(** The node [b] between [m] and [l2] is unlinked. *)
Lemma unlink st p l1 m v0 b v n l2 :
  lseg st p (l1 ++ (m, v0) :: (b, v) :: l2) nullptr -> NoDup (l1 ++ (m, v0) :: (b, v) :: l2).*1 ->
  st !! b = Some (mk_Node n v) ->
  lseg (delete b (<[m := mk_Node n v0]> st)) p (l1 ++ (m, v0) :: l2) nullptr.
Proof.
  intros H Hnd Hb. rewrite fmap_app in Hnd. apply NoDup_app in Hnd as (_ & Hd & Hnd).
  apply NoDup_cons in Hnd as [Hm Hnd]. apply NoDup_cons in Hnd as [Hb2 _].
  apply lseg_app in H as (m' & H1 & -> & Hm0 & n' & Hm' & -> & Hb0 & n2 & E & H2). rewrite Hb in E. injection E as <-.
  assert (m <> b) by (intros ->; apply Hm; by left).
  apply lseg_app. exists m. split.
  - apply lseg_delete; [intros X; apply (Hd _ X); right; by left|].
    apply lseg_insert; [intros X; apply (Hd _ X); by left|done].
  - split_and!; try done. exists n. split.
    + rewrite lookup_delete_ne by done. apply lookup_insert_eq.
    + apply lseg_delete; [done|]. apply lseg_insert; [|done]. intros X. apply Hm. by right.
Qed.

Lemma NoDup_skip (l1 : list Z) m b l2 : NoDup (l1 ++ m :: b :: l2) -> NoDup (l1 ++ m :: l2).
Proof. rewrite !NoDup_app, !NoDup_cons. set_solver. Qed.

Lemma walk_end st n : forall p ns, lseg st p ns nullptr -> (length ns <= n)%nat -> walk n p st = Ret nullptr.
Proof.
  induction n as [|n IH]; intros p ns H Hn; destruct ns as [|[a v] ns]; simpl in *; try lia; subst; try done.
  destruct H as (-> & Ha & k & Hk & H). rewrite (proj2 (Z.eqb_neq _ _) Ha). unfold node. rewrite Hk. simpl.
  apply (IH _ ns); [done|lia].
Qed.

Lemma remove_holds st l l1 m v0 b v l2 :
  holds st l (l1 ++ (m, v0) :: (b, v) :: l2) ->
  exists st' l', remove (zlen l1 + 1) st l = Ret (Some v, st', l') /\ holds st' l' (l1 ++ (m, v0) :: l2) /\
    st' !! b = None.
Proof.
  intros H. destruct H as [Hc Hnd Ht Hcnt Hsz]. unfold remove.
  pose proof (lseg_size _ _ _ _ Hnd Hc) as Hlen. revert Hlen. len_simpl. simpl. intros Hlen.
  replace (zlen l1 + 1 =? 0) with false by lia. rewrite Z.min_l by lia.
  replace (Z.to_nat (zlen l1 + 1 - 1)) with (length l1) by lia.
  rewrite (lseg_at _ _ _ _ _ _ _ Hc). simpl.
  pose proof Hc as (m' & _ & -> & Hm0 & n' & Hm & -> & Hb0 & n & Hb & Hl2)%lseg_app.
  rewrite (proj2 (Z.eqb_neq _ _) Hm0). unfold node. rewrite Hm. simpl.
  rewrite (proj2 (Z.eqb_neq _ _) Hb0). rewrite Hb. simpl.
  unfold set_next, free, node. rewrite Hm. simpl.
  assert (D : m <> b /\ b ∉ l2.*1).
  { rewrite fmap_app in Hnd. apply NoDup_app in Hnd as (_ & _ & [X [Y _]%NoDup_cons]%NoDup_cons).
    split; [|done]. intros ->. apply X. by left. }
  destruct D as [Hmb Hbl].
  change ((m, v0) :: (b, v) :: l2) with ([(m, v0)] ++ (b, v) :: l2) in Ht.
  rewrite app_assoc, last_addr_mid in Ht. rewrite Ht.
  assert (E : (if b =? default b (last l2.*1)
       then x ← deref (<[m := mk_Node n v0]> st !! m); Ret (<[m := mk_Node nullptr (data x)]> (<[m := mk_Node n v0]> st))
       else Ret (<[m := mk_Node n v0]> st)) = Ret (<[m := mk_Node n v0]> st)).
  { destruct (Z.eqb_spec b (default b (last l2.*1))) as [Eb|]; [|done].
    rewrite (last_addr_in b l2) in Hl2 by done. simpl in Hl2. subst n.
    rewrite lookup_insert_eq. simpl. by rewrite insert_insert_eq. }
  rewrite E. simpl. rewrite lookup_insert_ne, Hb by done. simpl.
  eexists _, _. split; [done|]. split; [split; simpl|apply lookup_delete_eq].
  - by apply unlink with v.
  - rewrite fmap_app in *. by apply NoDup_skip with b.
  - rewrite last_addr_mid. destruct (Z.eqb_spec b (default b (last l2.*1))) as [Eb|Eb].
    + by rewrite (last_addr_in b l2).
    + by destruct (last l2.*1).
  - rewrite Hcnt, wrapu_small; revert Hsz; len_simpl; simpl; lia.
  - revert Hsz. len_simpl. simpl. lia.
Qed.

Lemma iterate_elements st fuel : forall p ns,
  lseg st p ns nullptr -> (length ns < fuel)%nat -> iterate fuel p st = Ret ns.*2.
Proof.
  induction fuel as [|fuel IH]; intros p ns H Hf; simpl; [lia|].
  destruct ns as [|[a v] ns]; simpl in H; [by subst|].
  destruct H as (-> & Ha & k & Hk & H). rewrite (proj2 (Z.eqb_neq _ _) Ha). unfold node. rewrite Hk. simpl.
  rewrite (IH k ns); [done|done|]. simpl in Hf. lia.
Qed.

Lemma release_loop_frees fuel : forall p ns st,
  lseg st p ns nullptr -> NoDup ns.*1 -> (length ns < fuel)%nat ->
  release_loop fuel p st = Ret (foldr delete st (reverse ns.*1)).
Proof.
  induction fuel as [|fuel IH]; intros p ns st H Hnd Hf; simpl; [lia|].
  destruct ns as [|[a v] ns]; simpl in H; [by subst|].
  destruct H as (-> & Ha & k & Hk & H). rewrite (proj2 (Z.eqb_neq _ _) Ha). unfold free, node. rewrite Hk. simpl.
  apply NoDup_cons in Hnd as [Hnd1 Hnd2]. rewrite (IH k ns); [|by apply lseg_delete|done|simpl in Hf; lia].
  rewrite reverse_cons, foldr_app. done.
Qed.

(** [remove], by the index. *)
Lemma remove_at st l ns idx v :
  holds st l ns -> 0 <= idx -> ns.*2 !! Z.to_nat idx = Some v ->
  exists st' l', remove idx st l = Ret (Some v, st', l') /\ holds st' l' (delete (Z.to_nat idx) ns).
Proof.
  intros H Hidx Hv. rewrite list_lookup_fmap in Hv.
  destruct (ns !! Z.to_nat idx) as [[b w]|] eqn:Hb; [|done]. injection Hv as ->.
  destruct (decide (idx = 0)) as [->|Hne].
  - destruct ns as [|x ns]; [done|]. injection Hb as ->.
    destruct (pop_front_holds _ _ _ _ _ H) as (l' & E & H'). unfold remove. simpl. rewrite E. simpl. by eexists _, l'.
  - destruct (Z.to_nat idx) as [|k] eqn:Ek; [lia|].
    assert (Hk : is_Some (ns !! k)) by (apply lookup_lt_is_Some_2; apply lookup_lt_Some in Hb; lia).
    destruct Hk as [[m v0] Hm].
    assert (E : ns = take k ns ++ (m, v0) :: (b, v) :: drop (S (S k)) ns).
    { rewrite <- (take_drop_middle _ _ _ Hm) at 1. by rewrite <- (drop_S _ _ _ Hb). }
    pose proof (lookup_lt_Some _ _ _ Hm) as Hlk.
    assert (Ez : idx = zlen (take k ns) + 1) by (rewrite length_take; lia).
    assert (Ed : delete (S k) ns = take k ns ++ (m, v0) :: drop (S (S k)) ns).
    { rewrite delete_take_drop, (take_S_r _ _ _ Hm). by rewrite <- app_assoc. }
    rewrite Ed, Ez. rewrite E in H.
    destruct (remove_holds _ _ _ _ _ _ _ _ H) as (st' & l' & Er & H' & _). by exists st', l'.
Qed.

Lemma remove_beyond st l ns idx :
  holds st l ns -> 0 < idx -> zlen ns <= idx -> remove idx st l = Ret (None, st, l).
Proof.
  intros [Hc Hnd _ _ _] Hi Hn. unfold remove. rewrite (proj2 (Z.eqb_neq _ _)) by lia.
  pose proof (lseg_size _ _ _ _ Hnd Hc) as Hlen.
  destruct (decide (zlen ns = idx)) as [E|E].
  - destruct ns as [|x ns' _] using rev_ind; [simpl in *; lia|]. destruct x as [m v].
    revert E Hn Hlen. len_simpl. simpl. intros E Hn Hlen.
    rewrite Z.min_l by lia. replace (Z.to_nat (idx - 1)) with (length ns') by lia.
    rewrite (lseg_at _ _ _ _ _ _ _ Hc). simpl.
    apply lseg_app in Hc as (m' & _ & -> & Hm0 & n & Hm & ->). rewrite (proj2 (Z.eqb_neq _ _) Hm0).
    unfold node. by rewrite Hm.
  - rewrite (walk_end _ _ _ ns) by (done || lia). done.
Qed.

Lemma holds_init st : holds st LinkedList_init [].
Proof. split; try done. by constructor. Qed.

Lemma append_holds st l other ns1 ns2 :
  holds st l ns1 -> holds st other ns2 -> NoDup (ns1 ++ ns2).*1 -> zlen (ns1 ++ ns2) < 2 ^ 64 ->
  ns1 = [] \/ ns2 <> [] ->
  exists st' l', append st l other = Ret (st', l', LinkedList_init) /\ holds st' l' (ns1 ++ ns2).
Proof.
  intros H1 H2 Hnd Hsz Hne. unfold append. destruct (decide (ns1 = [])) as [->|H1n].
  { rewrite (h_tail _ _ _ H1). by exists st, other. }
  destruct Hne as [|H2n]; [done|].
  destruct (holds_last _ _ _ H1 H1n) as (ns & v & -> & Ht0 & Htin & Ht & Hc).
  rewrite (proj2 (Z.eqb_neq _ _) Ht0). unfold set_next, node. simpl. rewrite Ht. simpl.
  eexists _, _. split; [done|]. rewrite fmap_app in Hnd. pose proof Hnd as (_ & Hd & _)%NoDup_app.
  split; simpl.
  - rewrite <- app_assoc. apply lseg_app. exists (tail l). split; [by apply lseg_insert|].
    split_and!; try done. exists (head other). split; [apply lookup_insert_eq|].
    apply lseg_insert; [|apply H2]. intros X. apply (Hd (tail l)); [|done].
    rewrite fmap_app. apply elem_of_app. right. by left.
  - by rewrite fmap_app.
  - rewrite (h_tail _ _ _ H2). unfold last_addr. rewrite fmap_app, last_app.
    destruct (last ns2.*1) eqn:E; [done|]. apply last_None in E. by destruct ns2.
  - rewrite (h_count _ _ _ H1), (h_count _ _ _ H2), wrapu_small; revert Hsz; len_simpl; lia.
  - done.
Qed.

Lemma foldr_delete_lookup (st : gmap Z Node) ks a : foldr delete st ks !! a = if decide (a ∈ ks) then None else st !! a.
Proof.
  induction ks as [|k ks IH]; simpl; [done|]. destruct (decide (a = k)) as [->|Hne].
  - rewrite lookup_delete_eq. rewrite decide_True by (by left). done.
  - rewrite lookup_delete_ne, IH by done. case_decide as D1; case_decide as D2; try done.
    + destruct D2. by right.
    + by apply elem_of_cons in D2 as [?|?].
Qed.

Lemma release_frees st l ns :
  holds st l ns -> exists st', release st l = Ret (st', LinkedList_init) /\
    forall a, st' !! a = if decide (a ∈ ns.*1) then None else st !! a.
Proof.
  intros [Hc Hnd _ _ _]. unfold release. pose proof (lseg_size _ _ _ _ Hnd Hc).
  rewrite (release_loop_frees _ _ ns) by (done || lia). simpl. eexists. split; [done|].
  intros a. rewrite foldr_delete_lookup. by rewrite (decide_ext (a ∈ reverse ns.*1) (a ∈ ns.*1)) by apply elem_of_reverse.
Qed.

Lemma elements_holds st l ns : holds st l ns -> elements st l = Ret ns.*2.
Proof.
  intros [Hc Hnd _ _ _]. unfold elements. pose proof (lseg_size _ _ _ _ Hnd Hc).
  apply iterate_elements; [done|lia].
Qed.

End linked_list.

Arguments LinkedList_init : clear implicits.

(** C35: [fc::LinkedList] implements a list. When the nodes of a list hold the
    elements [vs], iteration gives [vs]; [push] adds at the end, at a fresh
    address; [pop_front] takes the first element and frees its node, and executes
    [unreachable$] on an empty list; [remove] takes the element at its index, or leaves
    the list as it is for an index after 0 that is beyond the end, but [remove(0)] of an
    empty list is [pop_front] and executes [unreachable$] as well; [+=] of a list that is not empty joins the two; and
    [release] frees the nodes of the list and no other. *)
Theorem linked_list_refines_list {T} st l (ns : list (Z * T)) :
  holds st l ns ->
  elements st l = Ret ns.*2 /\
  (forall p v, p <> nullptr -> st !! p = None -> zlen ns + 1 < 2 ^ 64 ->
     exists st' l', push p v st l = Ret (st', l') /\ holds st' l' (ns ++ [(p, v)])) /\
  (forall idx v, 0 <= idx -> ns.*2 !! Z.to_nat idx = Some v ->
     exists st' l', remove idx st l = Ret (Some v, st', l') /\ holds st' l' (delete (Z.to_nat idx) ns)) /\
  (forall idx, 0 < idx -> zlen ns <= idx -> remove idx st l = Ret (None, st, l)) /\
  (ns = [] -> pop_front st l = Trap /\ remove 0 st l = Trap) /\
  (forall a v ns', ns = (a, v) :: ns' ->
     exists l', pop_front st l = Ret (v, delete a st, l') /\ holds (delete a st) l' ns') /\
  (forall other ns2, holds st other ns2 -> NoDup (ns ++ ns2).*1 -> zlen (ns ++ ns2) < 2 ^ 64 ->
     ns = [] \/ ns2 <> [] ->
     exists st' l', append st l other = Ret (st', l', LinkedList_init) /\ holds st' l' (ns ++ ns2)) /\
  (exists st', release st l = Ret (st', LinkedList_init) /\
     forall a, st' !! a = if decide (a ∈ ns.*1) then None else st !! a).
Proof.
  intros H. split_and!.
  - by apply elements_holds.
  - intros p v Hp Hf Hs. destruct (push_holds p v st l ns H Hp Hf Hs) as (st' & l' & E & H' & _). by exists st', l'.
  - intros idx v. by apply remove_at.
  - intros idx. by apply remove_beyond.
  - intros ->. pose proof (pop_front_empty _ _ H) as E. split; [done|]. unfold remove. simpl. by rewrite E.
  - intros a v ns' ->. by apply pop_front_holds.
  - intros other ns2. by apply append_holds.
  - by apply release_frees.
Qed.

(** Two elements, pushed on an empty list. *)
Lemma two_pushed : exists st l, push 16 7 ∅ LinkedList_init ≫= (fun '(st, l) => push 32 9 st l) = Ret (st, l) /\
  holds st l [(16, 7); (32, 9)].
Proof.
  destruct (push_holds 16 7 ∅ LinkedList_init []) as (st & l & -> & H & F); [apply holds_init|done..|].
  destruct (push_holds 32 9 st l [(16, 7)] H) as (st' & l' & E & H' & _); [done| |done|].
  - rewrite F; [done|done|]. by apply not_elem_of_nil.
  - by exists st', l'.
Qed.

Lemma linked_list_refines_list_witness :
  exists st l, holds st l [(16, 7); (32, 9)] /\ elements st l = Ret [7; 9] /\
    exists st' l', remove 1 st l = Ret (Some 9, st', l') /\ holds st' l' [(16, 7)].
Proof.
  destruct two_pushed as (st & l & _ & H). exists st, l. split; [done|].
  destruct (linked_list_refines_list st l _ H) as (E & _ & R & _). split; [done|]. by apply (R 1 9).
Defined.

(** [+=] of an empty list makes the tail null: the next element pushed is counted
    but not linked. *)
Lemma append_empty_loses_the_tail {T} st l (ns : list (Z * T)) p v :
  holds st l ns -> ns <> [] -> p <> nullptr -> st !! p = None -> zlen ns + 1 < 2 ^ 64 ->
  exists st1 l1 st2 l2, append st l LinkedList_init = Ret (st1, l1, LinkedList_init) /\ push p v st1 l1 = Ret (st2, l2) /\
    _count l2 = zlen ns + 1 /\ elements st2 l2 = Ret ns.*2.
Proof.
  intros H Hne Hp Hf Hsz. pose proof (holds_last _ _ _ H Hne) as (ns' & w & E & Ht0 & Htin & Ht & Hc).
  unfold append. rewrite (proj2 (Z.eqb_neq _ _) Ht0). unfold set_next, node. simpl. rewrite Ht. simpl.
  assert (Es : <[tail l := mk_Node nullptr w]> st = st) by (by apply insert_id). rewrite Es.
  eexists _, _, _, _. split; [done|]. unfold push. rewrite (proj2 (Z.eqb_neq _ _) Hp). simpl. split; [done|].
  assert (Hh : head l <> nullptr).
  { rewrite (head_cases _ _ _ H). destruct ns as [|[a u] ns0]; [done|]. simpl.
    by destruct (h_chain _ _ _ H) as (_ & Ha & _). }
  rewrite (proj2 (Z.eqb_neq _ _) Hh). split.
  - simpl. rewrite (h_count _ _ _ H), Z.add_0_r, (wrapu_small 64 (zlen ns)), wrapu_small by lia. done.
  - assert (C : lseg (<[p := mk_Node nullptr v]> st) (head l) ns nullptr).
    { apply lseg_insert; [|apply H]. intros X.
      destruct (lseg_addr _ _ _ _ _ (h_chain _ _ _ H) X) as [_ [? Y]]. congruence. }
    unfold elements. cbn [head]. pose proof (lseg_size _ _ _ _ (h_nodup _ _ _ H) C).
    apply iterate_elements; [done|lia].
Qed.
