(* ===== verification/CMem.v ===== *)
(** The memory the C library works on: one byte per mapped address. A read or
    a write of an address that is not mapped is an access outside every object
    and traps. Pointers are addresses; equality of [char]s is equality of
    bytes, and [s8] gives the signed value of a byte where the sign matters. *)

From stdpp Require Import gmap.
From S2P Require Import Prelude.

Abbreviation mem := (gmap Z Z).

Definition load (m : mem) (a : Z) : ctl Z := deref (m !! a).

Definition store (m : mem) (a v : Z) : ctl mem :=
  match m !! a with Some _ => Ret (<[a := u8 v]> m) | None => Trap end.

(** Enough fuel for a loop that reads another mapped address at each turn. *)
Definition mem_fuel (m : mem) : nat := S (size m).
#[global] Arguments mem_fuel : simpl never.

(** [bytes_at m a l]: the bytes [l] are stored from [a]. *)
Fixpoint bytes_at (m : mem) (a : Z) (l : list Z) : Prop :=
  match l with
  | [] => True
  | b :: l => m !! a = Some b /\ bytes_at m (a + 1) l
  end.

(** [cstr m a l]: a NUL-terminated string at [a] with the characters [l]. *)
Fixpoint cstr (m : mem) (a : Z) (l : list Z) : Prop :=
  match l with
  | [] => m !! a = Some 0
  | b :: l => m !! a = Some b /\ b <> 0 /\ cstr m (a + 1) l
  end.

(** [out a n x]: the address [x] is not one of the [n] from [a]. *)
Definition outside (a n x : Z) : Prop := x < a \/ a + n <= x.

(** * Lemmas *)

Lemma load_Some m a b : m !! a = Some b -> load m a = Ret b.
Proof. intros E. unfold load. by rewrite E. Qed.

Lemma store_Some m a b v : m !! a = Some b -> store m a v = Ret (<[a := u8 v]> m).
Proof. intros E. unfold store. by rewrite E. Qed.

Lemma store_Ret m a v m' :
  store m a v = Ret m' -> is_Some (m !! a) /\ m' = <[a := u8 v]> m.
Proof. unfold store. destruct (m !! a); naive_solver. Qed.

Lemma bytes_at_lookup m l : forall a,
  bytes_at m a l <-> forall i b, l !! i = Some b -> m !! (a + Z.of_nat i) = Some b.
Proof.
  induction l as [|b l IH]; intros a; simpl; [naive_solver|]. rewrite IH. split.
  - intros [Hb Hl] [|i] c Hi; simpl in Hi.
    + rewrite Z.add_0_r. congruence.
    + rewrite <- (Hl i c Hi). f_equal. lia.
  - intros H. split.
    + rewrite <- (H O b eq_refl). f_equal. lia.
    + intros i c Hi. rewrite <- (H (S i) c Hi). f_equal. lia.
Qed.

Lemma bytes_at_app m l1 l2 : forall a,
  bytes_at m a (l1 ++ l2) <-> bytes_at m a l1 /\ bytes_at m (a + zlen l1) l2.
Proof.
  induction l1 as [|b l1 IH]; intros a; simpl.
  - rewrite Z.add_0_r. naive_solver.
  - rewrite IH. replace (a + 1 + zlen l1) with (a + Z.of_nat (S (length l1))) by lia. naive_solver.
Qed.

(** A write outside a block leaves the block. *)
Lemma bytes_at_insert m x v l : forall a,
  outside a (zlen l) x -> bytes_at (<[x := v]> m) a l <-> bytes_at m a l.
Proof.
  induction l as [|b l IH]; intros a Hx; simpl; [done|].
  unfold outside in *. simpl in Hx. rewrite lookup_insert_ne by lia.
  by rewrite IH by lia.
Qed.

Lemma cstr_bytes m l : forall a,
  cstr m a l <-> bytes_at m a (l ++ [0]) /\ Forall (fun b => b <> 0) l.
Proof.
  induction l as [|b l IH]; intros a; simpl.
  - split; [|naive_solver]. intros. by repeat constructor.
  - rewrite IH, Forall_cons. naive_solver.
Qed.

Lemma cstr_insert m x v l a :
  outside a (zlen l + 1) x -> cstr (<[x := v]> m) a l <-> cstr m a l.
Proof.
  intros Hx. rewrite !cstr_bytes, bytes_at_insert; [done|].
  rewrite length_app. simpl. unfold outside in *. lia.
Qed.

Lemma cstr_app m l1 l2 a : cstr m a (l1 ++ l2) -> cstr m (a + zlen l1) l2.
Proof.
  rewrite !cstr_bytes, <- app_assoc, bytes_at_app, Forall_app. naive_solver.
Qed.

(** A block is no longer than the memory. *)
Lemma bytes_at_size m l a : bytes_at m a l -> (length l <= size m)%nat.
Proof.
  intros Hl. assert (length l = size (list_to_set ((fun i => a + Z.of_nat i) <$> seq 0 (length l)) : gset Z)) as E.
  { rewrite size_list_to_set; [by rewrite length_fmap, length_seq|].
    apply NoDup_fmap_2; [|apply NoDup_seq]. intros i j. lia. }
  rewrite E. rewrite <- size_dom. apply subseteq_size. intros x Hx.
  apply elem_of_list_to_set, list_elem_of_fmap in Hx as (i & -> & Hi).
  apply elem_of_seq in Hi. apply elem_of_dom.
  rewrite bytes_at_lookup in Hl. destruct (lookup_lt_is_Some_2 l i) as [b Hb]; [lia|].
  exists b. by apply Hl.
Qed.

Lemma cstr_fuel m l a : cstr m a l -> (length l < size m)%nat.
Proof. intros [Hl _]%cstr_bytes. apply bytes_at_size in Hl. rewrite length_app in Hl. simpl in Hl. lia. Qed.

(** A block of [n] mapped addresses, by what it holds. *)
Lemma bytes_at_exists m a n :
  (forall i, a <= i < a + Z.of_nat n -> is_Some (m !! i)) ->
  exists l, length l = n /\ bytes_at m a l.
Proof.
  revert a. induction n as [|n IH]; intros a H; [by exists []|].
  destruct (H a) as [b Hb]; [lia|].
  destruct (IH (a + 1)) as (l & Hl & Hm); [intros; apply H; lia|].
  exists (b :: l). simpl. split; [lia|done].
Qed.

(** * Scans of memory

    [avail m a] addresses from [a] up are mapped: a scan that moves up at each
    turn takes at most that many turns, whatever the memory holds. *)

Definition avail (m : mem) (a : Z) : nat := size (filter (fun x => a <= x) (dom m)).

Lemma avail_le m a : (avail m a < mem_fuel m)%nat.
Proof.
  unfold avail, mem_fuel. rewrite <- size_dom.
  pose proof (subseteq_size (filter (fun x => a <= x) (dom m)) (dom m)) as H.
  forward H by (intros x; rewrite elem_of_filter; by intros [_ ?]). lia.
Qed.

Lemma avail_step m a b : m !! a = Some b -> (avail m (a + 1) < avail m a)%nat.
Proof.
  intros Ha. apply subset_size. split.
  - intros x. rewrite !elem_of_filter. intros [? ?]. split; [lia|done].
  - intros H. specialize (H a). rewrite !elem_of_filter in H.
    destruct H as [? _]; [|lia]. split; [lia|]. apply elem_of_dom. by exists b.
Qed.

Lemma avail_dom m m' a : dom m = dom m' -> avail m a = avail m' a.
Proof. unfold avail. by intros ->. Qed.

Lemma avail_mono m a b : a <= b -> (avail m b <= avail m a)%nat.
Proof.
  intros H. apply subseteq_size. intros x. rewrite !elem_of_filter. intros [? ?]. split; [lia|done].
Qed.

Lemma mem_fuel_dom m m' : dom m = dom m' -> mem_fuel m = mem_fuel m'.
Proof. unfold mem_fuel. intros E. by rewrite <- !size_dom, E. Qed.

Lemma ends_load m a : ends (fun b => m !! a = Some b) (load m a).
Proof. unfold load. destruct (m !! a); done. Qed.

Lemma ends_store m a v :
  ends (fun m' => dom m' = dom m /\ forall x, x <> a -> m' !! x = m !! x) (store m a v).
Proof.
  unfold store. destruct (m !! a) eqn:E; [|done]. simpl. split.
  - rewrite dom_insert_L. apply subseteq_union_1_L, singleton_subseteq_l, elem_of_dom. by exists z.
  - intros x Hx. by rewrite lookup_insert_ne by done.
Qed.

(** * Concrete memories *)

(** The bytes [l] at [a], and nothing else. *)
Fixpoint block (a : Z) (l : list Z) : mem :=
  match l with
  | [] => ∅
  | b :: l => <[a := b]> (block (a + 1) l)
  end.

Lemma block_below a l x : x < a -> block a l !! x = None.
Proof.
  revert a. induction l as [|b l IH]; intros a Hx; simpl; [apply lookup_empty|].
  rewrite lookup_insert_ne by lia. apply IH. lia.
Qed.

Lemma block_outside a l x : outside a (zlen l) x -> block a l !! x = None.
Proof.
  revert a. induction l as [|b l IH]; intros a Hx; simpl; [apply lookup_empty|].
  unfold outside in *. simpl in Hx. rewrite lookup_insert_ne by lia. apply IH. lia.
Qed.

Lemma bytes_at_block a l : bytes_at (block a l) a l.
Proof.
  revert a. induction l as [|b l IH]; intros a; simpl; [done|].
  split; [apply lookup_insert_eq|]. apply bytes_at_insert; [unfold outside; lia|apply IH].
Qed.

#[export] Hint Resolve load_Some store_Some : wing.
