(* ===== verification/LibcString.v ===== *)
(** libc/ctype.c, libc/string.c and libc/strings.c over the byte memory of
    CMem.v. A pointer result that can be NULL is an option. A loop that scans
    memory takes [mem_fuel] turns at most, one per mapped address: the lemmas
    of LibcStringSpec.v show that this is always enough on terminated strings. *)

From S2P Require Import Prelude CMem.

(** * libc/ctype.c *)

Definition isalpha (c : Z) : bool := ((65 <=? c) && (c <=? 90)) || ((97 <=? c) && (c <=? 122)).
Definition isalnum (c : Z) : bool := isalpha c || ((48 <=? c) && (c <=? 57)).
Definition isspace (c : Z) : bool :=
  (c =? 32) || (c =? 9) || (c =? 10) || (c =? 11) || (c =? 12) || (c =? 13).
Definition toupper (c : Z) : Z := if (97 <=? c) && (c <=? 122) then c - (97 - 65) else c.
Definition tolower (c : Z) : Z := if (65 <=? c) && (c <=? 90) then c + (97 - 65) else c.

(** * libc/string.c: blocks *)

(** [while (n--) *d++ = *s++] *)
Fixpoint copy_up (n : nat) (d s : Z) (m : mem) : ctl mem :=
  match n with
  | O => Ret m
  | S n => b ← load m s; m ← store m d b; copy_up n (d + 1) (s + 1) m
  end.

(** [while (n--) *(--d) = *(--s)] *)
Fixpoint copy_down (n : nat) (d s : Z) (m : mem) : ctl mem :=
  match n with
  | O => Ret m
  | S n =>
      let d := d - 1 in
      let s := s - 1 in
      b ← load m s; m ← store m d b; copy_down n d s m
  end.

Definition memcpy (dest src n : Z) (m : mem) : ctl (Z * mem) :=
  m ← copy_up (Z.to_nat n) dest src m; Ret (dest, m).

Fixpoint set_loop (n : nat) (p c : Z) (m : mem) : ctl mem :=
  match n with
  | O => Ret m
  | S n => m ← store m p c; set_loop n (p + 1) c m
  end.

Definition memset (s c n : Z) (m : mem) : ctl (Z * mem) :=
  m ← set_loop (Z.to_nat n) s c m; Ret (s, m).

Definition memmove (dest src n : Z) (m : mem) : ctl (Z * mem) :=
  m ← (if dest <? src then copy_up (Z.to_nat n) dest src m
       else copy_down (Z.to_nat n) (dest + n) (src + n) m);
  Ret (dest, m).

(** * libc/string.c: strings *)

Fixpoint strlen_loop (fuel : nat) (m : mem) (s len : Z) : ctl Z :=
  match fuel with
  | O => NoFuel
  | S fuel =>
      b ← load m (s + len);
      if b =? 0 then Ret len else strlen_loop fuel m s (len + 1)
  end.
Definition strlen (m : mem) (s : Z) : ctl Z := strlen_loop (mem_fuel m) m s 0.

Fixpoint strchr_loop (fuel : nat) (m : mem) (s c : Z) : ctl (option Z) :=
  match fuel with
  | O => NoFuel
  | S fuel =>
      b ← load m s;
      if b =? 0 then Ret (if c =? 0 then Some s else None)
      else if b =? u8 c then Ret (Some s) else strchr_loop fuel m (s + 1) c
  end.
Definition strchr (m : mem) (s c : Z) : ctl (option Z) := strchr_loop (mem_fuel m) m s c.

Fixpoint strrchr_loop (fuel : nat) (m : mem) (s c : Z) (last : option Z) : ctl (option Z) :=
  match fuel with
  | O => NoFuel
  | S fuel =>
      b ← load m s;
      if b =? 0 then Ret (if c =? 0 then Some s else last)
      else strrchr_loop fuel m (s + 1) c (if b =? u8 c then Some s else last)
  end.
Definition strrchr (m : mem) (s c : Z) : ctl (option Z) :=
  strrchr_loop (mem_fuel m) m s c None.

(** The inner loop of strtok_r, strpbrk, strspn and strcspn: is [b] one of the
    characters of the string at [set]? *)
Fixpoint member_loop (fuel : nat) (m : mem) (set b : Z) : ctl bool :=
  match fuel with
  | O => NoFuel
  | S fuel =>
      d ← load m set;
      if d =? 0 then Ret false
      else if b =? d then Ret true else member_loop fuel m (set + 1) b
  end.
Definition member (m : mem) (set b : Z) : ctl bool := member_loop (mem_fuel m) m set b.

Fixpoint strpbrk_loop (fuel : nat) (m : mem) (s accept : Z) : ctl (option Z) :=
  match fuel with
  | O => NoFuel
  | S fuel =>
      b ← load m s;
      if b =? 0 then Ret None
      else
        found ← member m accept b;
        if found : bool then Ret (Some s) else strpbrk_loop fuel m (s + 1) accept
  end.
Definition strpbrk (m : mem) (s accept : Z) : ctl (option Z) :=
  strpbrk_loop (mem_fuel m) m s accept.

(** [strspn] stops at the first character outside [set] ([want = true]),
    [strcspn] at the first one in it ([want = false]). *)
Fixpoint span_loop (fuel : nat) (want : bool) (m : mem) (s set count : Z) : ctl Z :=
  match fuel with
  | O => NoFuel
  | S fuel =>
      b ← load m s;
      if b =? 0 then Ret count
      else
        found ← member m set b;
        if eqb found want then span_loop fuel want m (s + 1) set (count + 1) else Ret count
  end.
Definition strspn (m : mem) (s accept : Z) : ctl Z := span_loop (mem_fuel m) true m s accept 0.
Definition strcspn (m : mem) (s reject : Z) : ctl Z := span_loop (mem_fuel m) false m s reject 0.

(** Skips the leading delimiters of [strtok_r]. *)
Fixpoint skip_delim (fuel : nat) (m : mem) (s delim : Z) : ctl Z :=
  match fuel with
  | O => NoFuel
  | S fuel =>
      b ← load m s;
      if b =? 0 then Ret s
      else
        is_delim ← member m delim b;
        if is_delim : bool then skip_delim fuel m (s + 1) delim else Ret s
  end.

(** The token, the memory, and what [*saveptr] becomes. *)
Definition strtok_r (str : option Z) (delim : Z) (saveptr : option Z) (m : mem) :
    ctl (option Z * mem * option Z) :=
  match (match str with Some s => Some s | None => saveptr end) with
  | None => Ret (None, m, saveptr)
  | Some str_b =>
      str_b ← skip_delim (mem_fuel m) m str_b delim;
      b ← load m str_b;
      if b =? 0 then Ret (None, m, None)
      else
        bprk ← strpbrk m str_b delim;
        match bprk with
        | Some p => m ← store m p 0; Ret (Some str_b, m, Some (p + 1))
        | None => Ret (Some str_b, m, None)
        end
  end.

(** [strtok]: [save_ptr] is a static of the file, threaded here. *)
Definition strtok (str : option Z) (delim : Z) (save_ptr : option Z) (m : mem) :
    ctl (option Z * mem * option Z) := strtok_r str delim save_ptr m.

(** First loop of [strncpy] from index [i], [k] indices left below [n]; then the
    rest is filled with zeros. *)
Fixpoint strncpy_loop (k : nat) (dest src i : Z) (m : mem) : ctl mem :=
  match k with
  | O => Ret m
  | S k' =>
      b ← load m (src + i);
      if b =? 0 then set_loop k (dest + i) 0 m
      else m ← store m (dest + i) b; strncpy_loop k' dest src (i + 1) m
  end.
Definition strncpy (dest src n : Z) (m : mem) : ctl (Z * mem) :=
  m ← strncpy_loop (Z.to_nat n) dest src 0 m; Ret (dest, m).

Fixpoint strcpy_loop (fuel : nat) (d src : Z) (m : mem) : ctl mem :=
  match fuel with
  | O => NoFuel
  | S fuel =>
      b ← load m src;
      if b =? 0 then store m d 0
      else m ← store m d b; strcpy_loop fuel (d + 1) (src + 1) m
  end.
Definition strcpy (dest src : Z) (m : mem) : ctl (Z * mem) :=
  m ← strcpy_loop (mem_fuel m) dest src m; Ret (dest, m).

(** [malloc] is a parameter: the pointer it returns and the memory after it. *)
Definition strdup (malloc : Z -> mem -> option Z * mem) (s : Z) (m : mem) :
    ctl (option Z * mem) :=
  len ← strlen m s;
  match malloc (len + 1) m with
  | (None, m) => Ret (None, m)
  | (Some dup, m) => '(_, m) ← memcpy dup s (len + 1) m; Ret (Some dup, m)
  end.

Fixpoint strcmp_loop (fuel : nat) (m : mem) (s1 s2 : Z) : ctl Z :=
  match fuel with
  | O => NoFuel
  | S fuel =>
      b1 ← load m s1;
      if b1 =? 0 then b2 ← load m s2; Ret (s8 b1 - s8 b2)
      else
        b2 ← load m s2;
        if b1 =? b2 then strcmp_loop fuel m (s1 + 1) (s2 + 1) else Ret (s8 b1 - s8 b2)
  end.
Definition strcmp (m : mem) (s1 s2 : Z) : ctl Z := strcmp_loop (mem_fuel m) m s1 s2.

Fixpoint strncmp_loop (k : nat) (m : mem) (s1 s2 : Z) : ctl Z :=
  match k with
  | O => Ret 0
  | S k =>
      b1 ← load m s1;
      b2 ← load m s2;
      if negb (b1 =? b2) then Ret (u8 b1 - u8 b2)
      else if b1 =? 0 then Ret 0 else strncmp_loop k m (s1 + 1) (s2 + 1)
  end.
Definition strncmp (m : mem) (s1 s2 n : Z) : ctl Z := strncmp_loop (Z.to_nat n) m s1 s2.

(** Runs along [h_sub] and [n]; [true] when the needle is used up. *)
Fixpoint match_loop (fuel : nat) (m : mem) (h_sub n : Z) : ctl bool :=
  match fuel with
  | O => NoFuel
  | S fuel =>
      h ← load m h_sub;
      c ← load m n;
      if (h =? 0) || (c =? 0) || negb (h =? c) then Ret (c =? 0)
      else match_loop fuel m (h_sub + 1) (n + 1)
  end.

Fixpoint strstr_loop (fuel : nat) (m : mem) (h needle : Z) : ctl (option Z) :=
  match fuel with
  | O => NoFuel
  | S fuel =>
      b ← load m h;
      if b =? 0 then Ret None
      else
        found ← match_loop (mem_fuel m) m h needle;
        if found : bool then Ret (Some h) else strstr_loop fuel m (h + 1) needle
  end.
Definition strstr (m : mem) (haystack needle : Z) : ctl (option Z) :=
  b ← load m needle;
  if b =? 0 then Ret None else strstr_loop (mem_fuel m) m haystack needle.

(** * libc/strings.c *)

(** [if (c >= 'A' && c <= 'Z') c += 'a' - 'A'] on a [char]. *)
Definition lower_char (c : Z) : Z := if (65 <=? c) && (c <=? 90) then s8 (c + (97 - 65)) else c.

Fixpoint strcasecmp_loop (fuel : nat) (m : mem) (s1 s2 : Z) : ctl Z :=
  match fuel with
  | O => NoFuel
  | S fuel =>
      b1 ← load m s1;
      if b1 =? 0 then b2 ← load m s2; Ret (u8 b1 - u8 b2)
      else
        b2 ← load m s2;
        if b2 =? 0 then Ret (u8 b1 - u8 b2)
        else
          let c1 := lower_char (s8 b1) in
          let c2 := lower_char (s8 b2) in
          if negb (c1 =? c2) then Ret (u8 c1 - u8 c2)
          else strcasecmp_loop fuel m (s1 + 1) (s2 + 1)
  end.
Definition strcasecmp (m : mem) (s1 s2 : Z) : ctl Z := strcasecmp_loop (mem_fuel m) m s1 s2.

Fixpoint strncasecmp_loop (k : nat) (m : mem) (s1 s2 : Z) : ctl Z :=
  match k with
  | O => Ret 0
  | S k =>
      b1 ← load m s1;
      b2 ← load m s2;
      if (b1 =? 0) || (b2 =? 0) then Ret (u8 b1 - u8 b2)
      else
        let c1 := lower_char (s8 b1) in
        let c2 := lower_char (s8 b2) in
        if negb (c1 =? c2) then Ret (u8 c1 - u8 c2)
        else strncasecmp_loop k m (s1 + 1) (s2 + 1)
  end.
Definition strncasecmp (m : mem) (s1 s2 n : Z) : ctl Z :=
  strncasecmp_loop (Z.to_nat n) m s1 s2.
