(* ===== verification/LibcStringSpec.v ===== *)
(** Correctness of the C library's block and string routines: copies on
    overlapping blocks, and each string routine as a function of the list of
    characters of its arguments. *)

From stdpp Require Import gmap.
From S2P Require Import Prelude CMem LibcString.

#[local] Arguments Z.eqb !_ !_ : simpl nomatch.

(** * Blocks *)

Definition mem_ok (m : mem) : Prop := forall a b, m !! a = Some b -> 0 <= b < 256.

Definition mapped (m : mem) (a n : Z) : Prop := forall x, a <= x < a + n -> is_Some (m !! x).

(** [copied m m' d s n]: [m'] is [m] with the [n] bytes from [s] also at [d]. *)
Definition copied (m m' : mem) (d s n : Z) : Prop :=
  forall x, m' !! x = if decide (d <= x < d + n) then m !! (s + (x - d)) else m !! x.

Lemma store_byte m a b v : mem_ok m -> m !! a = Some b -> 0 <= v < 256 ->
  exists m', store m a v = Ret m' /\ m' = <[a := v]> m /\ mem_ok m'.
Proof.
  intros Hm Ha Hv. rewrite (store_Some _ _ _ _ Ha). rewrite wrapu_small by lia.
  eexists. split; [done|]. split; [done|]. intros x y [[_ <-]|[_ Hy]]%lookup_insert_Some; [lia|by eapply Hm].
Qed.

Lemma mapped_insert m x v a n : mapped m a n -> mapped (<[x := v]> m) a n.
Proof. intros H y Hy. apply lookup_insert_is_Some. destruct (decide (x = y)); [by left|right; auto]. Qed.

Lemma copy_up_spec n : forall d s m,
  mem_ok m -> mapped m s (Z.of_nat n) -> mapped m d (Z.of_nat n) ->
  (d <= s \/ s + Z.of_nat n <= d) ->
  exists m', copy_up n d s m = Ret m' /\ mem_ok m' /\ copied m m' d s (Z.of_nat n).
Proof.
  induction n as [|n IH]; intros d s m Hm Hs Hd Hov; simpl.
  { exists m. split_and!; [done..|]. intros x. by rewrite decide_False by lia. }
  destruct (Hs s) as [b Hb]; [lia|]. rewrite (load_Some _ _ _ Hb). simpl.
  destruct (Hd d) as [c Hc]; [lia|].
  destruct (store_byte m d c b Hm Hc (Hm _ _ Hb)) as (m1 & -> & Em1 & Hm1). simpl.
  destruct (IH (d + 1) (s + 1) m1) as (m' & -> & Hm' & Hcp); [done| | |lia|].
  { rewrite Em1. apply mapped_insert. intros x Hx. apply Hs. lia. }
  { rewrite Em1. apply mapped_insert. intros x Hx. apply Hd. lia. }
  exists m'. split_and!; [done..|]. intros x. rewrite (Hcp x), Em1.
  destruct (decide (d + 1 <= x < d + 1 + Z.of_nat n)).
  - rewrite decide_True by lia. rewrite lookup_insert_ne by lia. f_equal. lia.
  - destruct (decide (x = d)) as [->|].
    + rewrite decide_True by lia. rewrite lookup_insert_eq. rewrite <- Hb. f_equal. lia.
    + rewrite decide_False by lia. by rewrite lookup_insert_ne by lia.
Qed.

Lemma copy_down_spec n : forall d s m,
  mem_ok m -> mapped m (s - Z.of_nat n) (Z.of_nat n) -> mapped m (d - Z.of_nat n) (Z.of_nat n) ->
  s <= d ->
  exists m', copy_down n d s m = Ret m' /\ mem_ok m' /\
    copied m m' (d - Z.of_nat n) (s - Z.of_nat n) (Z.of_nat n).
Proof.
  induction n as [|n IH]; intros d s m Hm Hs Hd Hov; simpl.
  { exists m. split_and!; [done..|]. intros x. by rewrite decide_False by lia. }
  destruct (Hs (s - 1)) as [b Hb]; [lia|]. rewrite (load_Some _ _ _ Hb). simpl.
  destruct (Hd (d - 1)) as [c Hc]; [lia|].
  destruct (store_byte m (d - 1) c b Hm Hc (Hm _ _ Hb)) as (m1 & -> & Em1 & Hm1). simpl.
  destruct (IH (d - 1) (s - 1) m1) as (m' & -> & Hm' & Hcp); [done| | |lia|].
  { rewrite Em1. apply mapped_insert. intros x Hx. apply Hs. lia. }
  { rewrite Em1. apply mapped_insert. intros x Hx. apply Hd. lia. }
  exists m'. split_and!; [done..|]. intros x. rewrite (Hcp x), Em1.
  destruct (decide (d - 1 - Z.of_nat n <= x < d - 1 - Z.of_nat n + Z.of_nat n)).
  - rewrite decide_True by lia. rewrite lookup_insert_ne by lia. f_equal. lia.
  - destruct (decide (x = d - 1)) as [->|].
    + rewrite decide_True by lia. rewrite lookup_insert_eq. rewrite <- Hb. f_equal. lia.
    + rewrite decide_False by lia. by rewrite lookup_insert_ne by lia.
Qed.

Lemma memmove_copies d s n m :
  0 <= n -> mem_ok m -> mapped m s n -> mapped m d n ->
  exists m', memmove d s n m = Ret (d, m') /\ mem_ok m' /\ copied m m' d s n.
Proof.
  intros Hn Hm Hs Hd. unfold memmove. rewrite <- (Z2Nat.id n) in Hs, Hd by lia.
  destruct (Z.ltb_spec d s).
  - destruct (copy_up_spec (Z.to_nat n) d s m) as (m' & -> & ? & Hc); [done..|lia|].
    rewrite Z2Nat.id in Hc by lia. by exists m'.
  - destruct (copy_down_spec (Z.to_nat n) (d + n) (s + n) m) as (m' & -> & ? & Hc); [done| | |lia|].
    { intros x Hx. apply Hs. lia. } { intros x Hx. apply Hd. lia. }
    rewrite !Z2Nat.id in Hc by lia. exists m'. split_and!; [done..|].
    intros x. rewrite (Hc x). replace (d + n - n) with d by lia. by replace (s + n - n) with s by lia.
Qed.

Lemma set_loop_spec n : forall p c m,
  mapped m p (Z.of_nat n) ->
  exists m', set_loop n p c m = Ret m' /\
    forall x, m' !! x = if decide (p <= x < p + Z.of_nat n) then Some (u8 c) else m !! x.
Proof.
  induction n as [|n IH]; intros p c m Hp; simpl.
  { exists m. split; [done|]. intros. by rewrite decide_False by lia. }
  destruct (Hp p) as [b Hb]; [lia|]. rewrite (store_Some _ _ _ _ Hb). simpl.
  destruct (IH (p + 1) c (<[p := u8 c]> m)) as (m' & -> & Hm').
  { apply mapped_insert. intros x Hx. apply Hp. lia. }
  exists m'. split; [done|]. intros x. rewrite Hm'.
  destruct (decide (x = p)) as [->|].
  - rewrite decide_False, lookup_insert_eq, decide_True by lia. done.
  - rewrite lookup_insert_ne by lia. repeat case_decide; (done || lia).
Qed.

(** * Strings as lists *)

(** The rests of two strings after their common prefix. *)
Fixpoint after_common (l1 l2 : list Z) : list Z * list Z :=
  match l1, l2 with
  | x :: l1', y :: l2' => if decide (x = y) then after_common l1' l2' else (l1, l2)
  | _, _ => (l1, l2)
  end.

(** The character a string continues with: 0 at its end. *)
Definition first_char (l : list Z) : Z := match l with [] => 0 | x :: _ => x end.

Lemma after_common_eq l1 l2 : after_common l1 l2 = ([], []) <-> l1 = l2.
Proof.
  revert l2. induction l1 as [|x l1 IH]; intros [|y l2]; simpl; [naive_solver..|].
  case_decide; [subst; rewrite IH; naive_solver|naive_solver].
Qed.

Lemma after_common_split l1 l2 :
  exists p, l1 = p ++ fst (after_common l1 l2) /\ l2 = p ++ snd (after_common l1 l2).
Proof.
  revert l2. induction l1 as [|x l1 IH]; intros [|y l2]; simpl; [by exists []..|].
  case_decide; [subst|by exists []]. destruct (IH l2) as (p & H1 & H2).
  exists (y :: p). simpl. by rewrite <- H1, <- H2.
Qed.

Lemma after_common_heads l1 l2 :
  Forall (fun b => b <> 0) l1 -> Forall (fun b => b <> 0) l2 -> l1 <> l2 ->
  first_char (fst (after_common l1 l2)) <> first_char (snd (after_common l1 l2)).
Proof.
  revert l2. induction l1 as [|x l1 IH]; intros [|y l2]; simpl; intros H1 H2 Hne;
    rewrite ?Forall_cons in H1; rewrite ?Forall_cons in H2; [done|destruct H2; congruence|destruct H1; congruence|].
  destruct H1 as [? ?], H2 as [? ?].
  case_decide; subst; [apply IH; congruence|done].
Qed.

(** * One scan at a time *)

Lemma strlen_loop_spec m l : forall fuel s k,
  cstr m (s + k) l -> (length l < fuel)%nat -> strlen_loop fuel m s k = Ret (k + zlen l).
Proof.
  induction l as [|b l IH]; intros [|fuel] s k Hl Hf; simpl in *; try lia.
  - rewrite (load_Some _ _ _ Hl). simpl. f_equal. lia.
  - destruct Hl as (Hb & Hne & Hl). rewrite (load_Some _ _ _ Hb). simpl.
    rewrite (proj2 (Z.eqb_neq _ _) Hne). rewrite (IH fuel s (k + 1)); [f_equal; lia| |lia].
    by replace (s + (k + 1)) with (s + k + 1) by lia.
Qed.

Lemma strlen_spec m s l : cstr m s l -> strlen m s = Ret (zlen l).
Proof.
  intros Hl. unfold strlen. rewrite (strlen_loop_spec m l); [done| |].
  - by rewrite Z.add_0_r.
  - apply cstr_fuel in Hl. unfold mem_fuel. lia.
Qed.

Lemma member_loop_spec m set b D : forall fuel,
  cstr m set D -> (length D < fuel)%nat ->
  member_loop fuel m set b = Ret (bool_decide (b ∈ D)).
Proof.
  revert set. induction D as [|d D IH]; intros set [|fuel] Hl Hf; simpl in *; try lia.
  - rewrite (load_Some _ _ _ Hl). done.
  - destruct Hl as (Hd & Hne & Hl). rewrite (load_Some _ _ _ Hd). simpl.
    rewrite (proj2 (Z.eqb_neq _ _) Hne). destruct (Z.eqb_spec b d) as [->|Hb].
    + rewrite bool_decide_eq_true_2; [done|]. by left.
    + rewrite (IH (set + 1)) by (done || lia). f_equal. apply bool_decide_ext.
      rewrite elem_of_cons. naive_solver.
Qed.

Lemma member_spec m set b D : cstr m set D -> member m set b = Ret (bool_decide (b ∈ D)).
Proof.
  intros Hl. apply (member_loop_spec m set b D); [done|].
  apply cstr_fuel in Hl. unfold mem_fuel. lia.
Qed.

(** Length of the longest prefix whose characters satisfy [P]. *)
Fixpoint prefix_len (P : Z -> bool) (l : list Z) : nat :=
  match l with
  | [] => 0
  | b :: l => if P b then S (prefix_len P l) else 0
  end.

Lemma prefix_len_le P l : (prefix_len P l <= length l)%nat.
Proof. induction l as [|b l IH]; simpl; [done|]. destruct (P b); lia. Qed.

Lemma prefix_len_take P l : Forall (fun b => P b = true) (take (prefix_len P l) l).
Proof. induction l as [|b l IH]; simpl; [done|]. destruct (P b) eqn:E; simpl; by constructor. Qed.

Lemma prefix_len_stop P l b : l !! prefix_len P l = Some b -> P b = false.
Proof. induction l as [|c l IH]; simpl; [done|]. destruct (P c) eqn:E; simpl; naive_solver. Qed.

Lemma prefix_len_ext P Q l : (forall b, P b = Q b) -> prefix_len P l = prefix_len Q l.
Proof. intros E. induction l as [|b l IH]; simpl; [done|]. by rewrite E, IH. Qed.

Lemma span_loop_spec m set D want l : forall fuel s count,
  cstr m set D -> cstr m s l -> (length l < fuel)%nat ->
  span_loop fuel want m s set count
    = Ret (count + Z.of_nat (prefix_len (fun b => eqb (bool_decide (b ∈ D)) want) l)).
Proof.
  intros fuel s count HD. revert fuel s count.
  induction l as [|b l IH]; intros [|fuel] s count Hl Hf; simpl in *; try lia.
  - rewrite (load_Some _ _ _ Hl). simpl. f_equal. lia.
  - destruct Hl as (Hb & Hne & Hl). rewrite (load_Some _ _ _ Hb). simpl.
    rewrite (proj2 (Z.eqb_neq _ _) Hne), (member_spec _ _ _ _ HD). simpl.
    destruct (eqb _ want); simpl; [rewrite IH by (done || lia)|]; f_equal; lia.
Qed.

Lemma skip_delim_spec m delim D l : forall fuel s,
  cstr m delim D -> cstr m s l -> (length l < fuel)%nat ->
  skip_delim fuel m s delim = Ret (s + Z.of_nat (prefix_len (fun b => bool_decide (b ∈ D)) l)).
Proof.
  intros fuel s HD. revert fuel s.
  induction l as [|b l IH]; intros [|fuel] s Hl Hf; simpl in *; try lia.
  - rewrite (load_Some _ _ _ Hl). simpl. f_equal. lia.
  - destruct Hl as (Hb & Hne & Hl). rewrite (load_Some _ _ _ Hb). simpl.
    rewrite (proj2 (Z.eqb_neq _ _) Hne), (member_spec _ _ _ _ HD). simpl.
    destruct (bool_decide _); simpl; [rewrite IH by (done || lia)|]; f_equal; lia.
Qed.

(** The address of the character a scan stopped at, NULL at the end. *)
Definition found_at (s : Z) (k : nat) (l : list Z) : option Z :=
  if decide (k < length l)%nat then Some (s + Z.of_nat k) else None.

Lemma found_at_S s k b l : found_at s (S k) (b :: l) = found_at (s + 1) k l.
Proof. unfold found_at. simpl. repeat case_decide; try lia; [f_equal; lia|done]. Qed.

Lemma strpbrk_loop_spec m accept D l : forall fuel s,
  cstr m accept D -> cstr m s l -> (length l < fuel)%nat ->
  strpbrk_loop fuel m s accept
    = Ret (found_at s (prefix_len (fun b => negb (bool_decide (b ∈ D))) l) l).
Proof.
  intros fuel s HD. revert fuel s.
  induction l as [|b l IH]; intros [|fuel] s Hl Hf; simpl in *; try lia.
  - by rewrite (load_Some _ _ _ Hl).
  - destruct Hl as (Hb & Hne & Hl). rewrite (load_Some _ _ _ Hb). simpl.
    rewrite (proj2 (Z.eqb_neq _ _) Hne), (member_spec _ _ _ _ HD). simpl.
    destruct (bool_decide _); simpl.
    + unfold found_at. destruct (decide _); [by rewrite Z.add_0_r|simpl in *; lia].
    + rewrite IH by (done || lia). by rewrite found_at_S.
Qed.

Lemma strchr_loop_spec m c l : forall fuel s,
  cstr m s l -> (length l < fuel)%nat ->
  strchr_loop fuel m s c =
    let k := prefix_len (fun b => negb (b =? u8 c)) l in
    Ret (if decide (k < length l)%nat then Some (s + Z.of_nat k)
         else if c =? 0 then Some (s + zlen l) else None).
Proof.
  induction l as [|b l IH]; intros [|fuel] s Hl Hf; simpl in *; try lia.
  - rewrite (load_Some _ _ _ Hl). simpl. by rewrite Z.add_0_r.
  - destruct Hl as (Hb & Hne & Hl). rewrite (load_Some _ _ _ Hb). simpl.
    rewrite (proj2 (Z.eqb_neq _ _) Hne). destruct (Z.eqb_spec b (u8 c)); simpl.
    + by rewrite Z.add_0_r.
    + rewrite IH by (done || lia). simpl. repeat case_decide; try lia.
      * do 2 f_equal. lia.
      * destruct (c =? 0); do 2 f_equal; lia.
Qed.

(** * Comparisons *)

Lemma strcmp_loop_spec m l1 : forall l2 fuel s1 s2,
  cstr m s1 l1 -> cstr m s2 l2 -> (length l1 < fuel)%nat ->
  strcmp_loop fuel m s1 s2 =
    let '(r1, r2) := after_common l1 l2 in Ret (s8 (first_char r1) - s8 (first_char r2)).
Proof.
  induction l1 as [|x l1 IH]; intros l2 [|fuel] s1 s2 H1 H2 Hf; simpl in *; try lia.
  - rewrite (load_Some _ _ _ H1). simpl. destruct l2 as [|y l2]; simpl in *.
    + by rewrite (load_Some _ _ _ H2).
    + destruct H2 as (H2 & _). by rewrite (load_Some _ _ _ H2).
  - destruct H1 as (Hx & Hne & H1). rewrite (load_Some _ _ _ Hx). simpl.
    rewrite (proj2 (Z.eqb_neq _ _) Hne). destruct l2 as [|y l2]; simpl in *.
    + rewrite (load_Some _ _ _ H2). simpl. by rewrite (proj2 (Z.eqb_neq _ _) Hne).
    + destruct H2 as (Hy & Hney & H2). rewrite (load_Some _ _ _ Hy). simpl.
      destruct (Z.eqb_spec x y), (decide (x = y)); try done. apply IH; (done || lia).
Qed.

Lemma strncmp_loop_spec m l1 : forall l2 k s1 s2,
  mem_ok m -> cstr m s1 l1 -> cstr m s2 l2 ->
  strncmp_loop k m s1 s2 =
    let '(r1, r2) := after_common (take k l1) (take k l2) in
    Ret (first_char r1 - first_char r2).
Proof.
  intros l2 k s1 s2 Hm. revert l1 l2 s1 s2.
  induction k as [|k IH]; intros l1 l2 s1 s2 H1 H2; simpl; [done|].
  destruct l1 as [|x l1], l2 as [|y l2]; simpl in *.
  - by rewrite (load_Some _ _ _ H1), (load_Some _ _ _ H2).
  - destruct H2 as (Hy & Hney & H2). rewrite (load_Some _ _ _ H1), (load_Some _ _ _ Hy). simpl.
    rewrite (proj2 (Z.eqb_neq _ _)) by done. simpl. by rewrite (wrapu_small 8 y) by (by eapply Hm).
  - destruct H1 as (Hx & Hne & H1). rewrite (load_Some _ _ _ Hx), (load_Some _ _ _ H2). simpl.
    rewrite (proj2 (Z.eqb_neq _ _) Hne). simpl. by rewrite (wrapu_small 8 x) by (by eapply Hm).
  - destruct H1 as (Hx & Hne & H1), H2 as (Hy & Hney & H2).
    rewrite (load_Some _ _ _ Hx), (load_Some _ _ _ Hy). simpl.
    destruct (Z.eqb_spec x y), (decide (x = y)); try done; simpl.
    + rewrite (proj2 (Z.eqb_neq _ _) Hne). by apply IH.
    + by rewrite !(wrapu_small 8) by (by eapply Hm).
Qed.

(** * Substrings *)

Lemma match_loop_spec m w : forall l fuel h n,
  cstr m h l -> cstr m n w -> (length w < fuel)%nat ->
  match_loop fuel m h n = Ret (bool_decide (w `prefix_of` l)).
Proof.
  induction w as [|c w IH]; intros l [|fuel] h n Hl Hw Hf; simpl in Hf, Hw; try lia;
    cbn [match_loop].
  - rewrite bool_decide_eq_true_2 by apply prefix_nil.
    destruct l as [|b l]; simpl in Hl; [|destruct Hl as [Hl _]];
      rewrite (load_Some _ _ _ Hl); cbn; rewrite (load_Some _ _ _ Hw); cbn;
      by rewrite ?orb_true_r.
  - destruct Hw as (Hc & Hcne & Hw). destruct l as [|b l]; simpl in Hl.
    + rewrite (load_Some _ _ _ Hl). cbn [mbind ctl_bind]. rewrite (load_Some _ _ _ Hc). cbn [mbind ctl_bind].
      rewrite (proj2 (Z.eqb_neq _ _) Hcne), bool_decide_eq_false_2; [done|].
      apply prefix_nil_not.
    + destruct Hl as (Hb & Hbne & Hl). rewrite (load_Some _ _ _ Hb). cbn [mbind ctl_bind].
      rewrite (load_Some _ _ _ Hc). cbn [mbind ctl_bind].
      rewrite (proj2 (Z.eqb_neq _ _) Hcne), (proj2 (Z.eqb_neq _ _) Hbne). cbn [mbind ctl_bind].
      destruct (Z.eqb_spec b c) as [->|Hbc]; simpl.
      * rewrite (IH l) by (done || lia). f_equal. apply bool_decide_ext. split.
        -- apply prefix_cons.
        -- apply prefix_cons_inv_2.
      * rewrite bool_decide_eq_false_2; [done|]. intros Hp%prefix_cons_inv_1. congruence.
Qed.

(** The first offset at which [w] occurs in [l]. *)
Fixpoint find_sub (w l : list Z) : option nat :=
  match l with
  | [] => None
  | b :: l' => if bool_decide (w `prefix_of` l) then Some O else S <$> find_sub w l'
  end.

Lemma find_sub_spec w l : w <> [] ->
  match find_sub w l with
  | Some k => w `prefix_of` drop k l /\ forall j, (j < k)%nat -> ~ w `prefix_of` drop j l
  | None => forall j, ~ w `prefix_of` drop j l
  end.
Proof.
  intros Hw. induction l as [|b l IH]; simpl.
  { intros j. destruct j; simpl; destruct w; try done; apply prefix_nil_not. }
  case_bool_decide as Hp; [split; [done|lia]|]. destruct (find_sub w l) as [k|]; simpl.
  - destruct IH as [? IH]. split; [done|]. intros [|j] Hj; [done|]. apply IH. lia.
  - intros [|j]; [done|]. apply IH.
Qed.

Lemma strstr_loop_spec m needle w l : cstr m needle w -> forall fuel h,
  cstr m h l -> (length l < fuel)%nat ->
  strstr_loop fuel m h needle = Ret ((fun k => h + Z.of_nat k) <$> find_sub w l).
Proof.
  intros Hw. pose proof (cstr_fuel _ _ _ Hw) as Hwf.
  induction l as [|b l IH]; intros [|fuel] h Hl Hf; simpl in Hf; try lia;
    cbn [strstr_loop find_sub].
  - by rewrite (load_Some _ _ _ Hl).
  - pose proof Hl as (Hb & Hne & Hl'). rewrite (load_Some _ _ _ Hb). cbn [mbind ctl_bind].
    rewrite (proj2 (Z.eqb_neq _ _) Hne).
    rewrite (match_loop_spec m w (b :: l)); [|exact Hl|exact Hw|unfold mem_fuel; lia].
    cbn [mbind ctl_bind].
    case_bool_decide as Hp; simpl; [by rewrite Z.add_0_r|].
    rewrite (IH fuel (h + 1)) by (done || lia). f_equal.
    destruct (find_sub w l); simpl; [f_equal; lia|done].
Qed.

(** * Copies of strings *)

Lemma cstr_ext m m' l : forall a,
  (forall x, a <= x <= a + zlen l -> m' !! x = m !! x) -> cstr m a l -> cstr m' a l.
Proof.
  induction l as [|b l IH]; intros a He; simpl in *; [by rewrite He by lia|].
  intros (Hb & Hne & Hl). rewrite He by lia. split_and!; [done..|].
  apply IH; [|done]. intros x Hx. apply He. lia.
Qed.

(** Cutting a string with a NUL. *)
Lemma cstr_take m a l k :
  cstr m a l -> (k <= length l)%nat -> cstr (<[a + Z.of_nat k := 0]> m) a (take k l).
Proof.
  intros Hl Hk. rewrite <- (take_drop k l) in Hl. apply cstr_bytes in Hl as [Hb Hn].
  rewrite <- app_assoc, bytes_at_app in Hb. destruct Hb as [Hb _]. apply Forall_app in Hn as [Hn _].
  apply cstr_bytes. split; [|done].
  assert (zlen (take k l) = Z.of_nat k) as E by (rewrite length_take; lia).
  apply bytes_at_app. rewrite E. split; [apply bytes_at_insert; [unfold outside; lia|done]|].
  simpl. by rewrite lookup_insert_eq.
Qed.

Lemma cstr_drop m a l k : cstr m a l -> (k <= length l)%nat -> cstr m (a + Z.of_nat k) (drop k l).
Proof.
  intros Hl Hk. rewrite <- (take_drop k l) in Hl. apply cstr_app in Hl.
  by replace (zlen (take k l)) with (Z.of_nat k) in Hl by (rewrite length_take; lia).
Qed.

Lemma strcpy_loop_spec l : forall fuel d s m,
  mem_ok m -> cstr m s l -> mapped m d (zlen l + 1) -> (length l < fuel)%nat ->
  (d + zlen l < s \/ s + zlen l < d) ->
  exists m', strcpy_loop fuel d s m = Ret m' /\ copied m m' d s (zlen l + 1).
Proof.
  induction l as [|b l IH]; intros [|fuel] d s m Hm Hl Hd Hf Hdis; simpl in *; try lia.
  - rewrite (load_Some _ _ _ Hl). simpl. destruct (Hd d) as [c Hc]; [lia|].
    rewrite (store_Some _ _ _ _ Hc). eexists. split; [done|]. intros x. case_decide.
    + assert (x = d) as -> by lia. rewrite lookup_insert_eq.
      by replace (s + (d - d)) with s by lia.
    + by rewrite lookup_insert_ne by lia.
  - destruct Hl as (Hb & Hne & Hl). rewrite (load_Some _ _ _ Hb). simpl.
    rewrite (proj2 (Z.eqb_neq _ _) Hne). destruct (Hd d) as [c Hc]; [lia|].
    destruct (store_byte m d c b Hm Hc (Hm _ _ Hb)) as (m1 & -> & Em1 & Hm1). simpl.
    destruct (IH fuel (d + 1) (s + 1) m1) as (m' & -> & Hcp); [done| | |lia|lia|].
    { rewrite Em1. apply cstr_insert; [unfold outside; lia|done]. }
    { rewrite Em1. apply mapped_insert. intros x Hx. apply Hd. lia. }
    exists m'. split; [done|]. intros x. rewrite (Hcp x), Em1.
    destruct (decide (d + 1 <= x < d + 1 + (zlen l + 1))).
    + rewrite decide_True by lia. rewrite lookup_insert_ne by lia. f_equal. lia.
    + destruct (decide (x = d)) as [->|].
      * rewrite decide_True by lia. rewrite lookup_insert_eq, <- Hb. f_equal. lia.
      * rewrite decide_False by lia. by rewrite lookup_insert_ne by lia.
Qed.

Lemma copied_cstr m m' d s l : copied m m' d s (zlen l + 1) -> cstr m s l -> cstr m' d l.
Proof.
  intros Hc. assert (forall x, d <= x < d + (zlen l + 1) -> m' !! x = m !! (s + (x - d))) as H.
  { intros x Hx. rewrite (Hc x). by rewrite decide_True by lia. }
  clear Hc. revert d s H. induction l as [|b l IH]; intros d s H; simpl in *.
  - rewrite H by lia. by replace (s + (d - d)) with s by lia.
  - intros (Hb & Hne & Hl). rewrite H by lia. replace (s + (d - d)) with s by lia.
    split_and!; [done..|]. apply (IH (d + 1) (s + 1)); [|done].
    intros x Hx. rewrite H by lia. f_equal. lia.
Qed.

Lemma strncpy_loop_spec k : forall d s i l m,
  mem_ok m -> cstr m (s + i) l -> mapped m (d + i) (Z.of_nat k) ->
  (d + i + Z.of_nat k <= s + i \/ s + i + zlen l < d + i) ->
  exists m', strncpy_loop k d s i m = Ret m' /\
    bytes_at m' (d + i) (take k (l ++ replicate k 0)) /\
    forall x, outside (d + i) (Z.of_nat k) x -> m' !! x = m !! x.
Proof.
  induction k as [|k IH]; intros d s i l m Hm Hl Hd Hdis; [by exists m|].
  cbn [strncpy_loop]. destruct l as [|b l].
  - simpl in Hl. rewrite (load_Some _ _ _ Hl). cbn [mbind ctl_bind].
    change (0 =? 0) with true. cbn iota.
    destruct (set_loop_spec (S k) (d + i) 0 m Hd) as (m' & -> & Hm').
    exists m'. split; [done|]. split.
    + rewrite app_nil_l, take_ge by (by rewrite length_replicate).
      apply bytes_at_lookup. intros j b [-> Hj]%lookup_replicate. rewrite Hm'.
      by rewrite decide_True by lia.
    + intros x Hx. rewrite Hm'. unfold outside in Hx. by rewrite decide_False by lia.
  - simpl in Hl. destruct Hl as (Hb & Hne & Hl). rewrite (load_Some _ _ _ Hb). cbn [mbind ctl_bind].
    rewrite (proj2 (Z.eqb_neq _ _) Hne). destruct (Hd (d + i)) as [c Hc]; [lia|].
    destruct (store_byte m (d + i) c b Hm Hc (Hm _ _ Hb)) as (m1 & -> & Em1 & Hm1).
    cbn [mbind ctl_bind].
    rewrite length_cons in Hdis. destruct (IH d s (i + 1) l m1) as (m' & -> & Hby & Hout).
    + done.
    + rewrite Em1. replace (s + (i + 1)) with (s + i + 1) by lia.
      apply cstr_insert; [unfold outside; lia|done].
    + rewrite Em1. apply mapped_insert. intros x Hx. apply Hd. lia.
    + lia.
    + exists m'. split; [done|]. replace (d + (i + 1)) with (d + i + 1) in * by lia. split.
      * simpl. split.
        { rewrite Hout by (unfold outside; lia). by rewrite Em1, lookup_insert_eq. }
        { replace (take k (l ++ 0 :: replicate k 0)) with (take k (l ++ replicate k 0)); [done|].
          rewrite !take_app. f_equal. apply list_eq. intros j.
          change (0 :: replicate k 0) with (replicate (S k) 0).
          rewrite !take_replicate. f_equal. f_equal. lia. }
      * intros x Hx. rewrite Hout by (unfold outside in *; lia).
        rewrite Em1, lookup_insert_ne; [done|unfold outside in *; lia].
Qed.

(** * Case-insensitive comparison *)

Definition same_letter (x y : Z) : bool := lower_char (s8 x) =? lower_char (s8 y).

Fixpoint after_common_letters (l1 l2 : list Z) : list Z * list Z :=
  match l1, l2 with
  | x :: l1', y :: l2' => if same_letter x y then after_common_letters l1' l2' else (l1, l2)
  | _, _ => (l1, l2)
  end.

Lemma s8_byte x : 0 <= x < 256 -> s8 x = if x <? 128 then x else x - 256.
Proof.
  intros Hx. unfold wraps. change (2 ^ (8 - 1)) with 128. change (2 ^ 8) with 256.
  destruct (Z.ltb_spec x 128); [rewrite Z.mod_small by lia; lia|].
  replace (x + 128) with ((x - 128) + 1 * 256) by lia. rewrite Z.mod_add, Z.mod_small by lia. lia.
Qed.

(** On a byte, the inlined lower-casing is [tolower]. *)
Lemma lower_char_byte x : 0 <= x < 256 -> lower_char (s8 x) = s8 (tolower x).
Proof.
  intros Hx. rewrite (s8_byte x) by done. unfold lower_char, tolower.
  destruct (Z.leb_spec 65 x), (Z.leb_spec x 90), (Z.ltb_spec x 128); cbn [andb]; try lia;
    case_Z; cbn [andb]; rewrite ?s8_byte by lia; case_Z; lia.
Qed.

Lemma same_letter_iff x y :
  0 <= x < 256 -> 0 <= y < 256 -> same_letter x y = true <-> tolower x = tolower y.
Proof.
  intros Hx Hy. unfold same_letter. rewrite Z.eqb_eq, !lower_char_byte by done.
  assert (forall z, 0 <= z < 256 -> 0 <= tolower z < 256) as Ht
    by (intros; unfold tolower; case_Z; simpl; lia).
  pose proof (Ht x Hx). pose proof (Ht y Hy). split; [|congruence].
  rewrite !s8_byte by done. case_Z; lia.
Qed.

Lemma tolower_byte x : 0 <= x < 256 -> 0 <= tolower x < 256.
Proof. intros. unfold tolower. case_Z; simpl; lia. Qed.

Lemma u8_s8 x : 0 <= x < 256 -> u8 (s8 x) = x.
Proof.
  intros Hx. rewrite s8_byte by done. unfold wrapu. change (2 ^ 8) with 256.
  destruct (Z.ltb_spec x 128); [by apply Z.mod_small|].
  replace (x - 256) with (x + (-1) * 256) by lia. rewrite Z.mod_add by lia. by apply Z.mod_small.
Qed.

(** The sign of a comparison, after lower-casing both strings. *)
Definition nocase_sign (l1 l2 : list Z) : Z :=
  let '(r1, r2) := after_common (tolower <$> l1) (tolower <$> l2) in
  Z.sgn (first_char r1 - first_char r2).

Lemma nocase_sign_cons x y l1 l2 :
  nocase_sign (x :: l1) (y :: l2) =
    if decide (tolower x = tolower y) then nocase_sign l1 l2
    else Z.sgn (tolower x - tolower y).
Proof. unfold nocase_sign. rewrite !fmap_cons. simpl. by case_decide. Qed.

Lemma tolower_pos x : 0 < x < 256 -> 0 < tolower x.
Proof. intros. unfold tolower. case_Z; simpl; lia. Qed.

(** One turn of both case-insensitive loops on two characters. *)
Lemma nocase_step x y :
  0 <= x < 256 -> 0 <= y < 256 ->
  (lower_char (s8 x) =? lower_char (s8 y)) = bool_decide (tolower x = tolower y) /\
  u8 (lower_char (s8 x)) - u8 (lower_char (s8 y)) = tolower x - tolower y.
Proof.
  intros Hx Hy. pose proof (tolower_byte x Hx). pose proof (tolower_byte y Hy). split.
  - fold (same_letter x y). apply eq_true_iff_eq. rewrite bool_decide_eq_true. by apply same_letter_iff.
  - by rewrite !lower_char_byte, !u8_s8.
Qed.

Lemma strcasecmp_loop_spec m l1 : forall l2 fuel s1 s2,
  mem_ok m -> cstr m s1 l1 -> cstr m s2 l2 -> (length l1 < fuel)%nat ->
  exists v, strcasecmp_loop fuel m s1 s2 = Ret v /\ Z.sgn v = nocase_sign l1 l2.
Proof.
  induction l1 as [|x l1 IH]; intros l2 [|fuel] s1 s2 Hm H1 H2 Hf; simpl in H1, Hf; try lia;
    cbn [strcasecmp_loop].
  - rewrite (load_Some _ _ _ H1). cbn [mbind ctl_bind]. change (0 =? 0) with true. cbn iota.
    destruct l2 as [|y l2]; simpl in H2.
    + rewrite (load_Some _ _ _ H2). by exists 0.
    + destruct H2 as (Hy & Hne & _). rewrite (load_Some _ _ _ Hy). eexists. split; [done|].
      pose proof (Hm _ _ Hy). pose proof (tolower_pos y). rewrite wrapu_small, wrapu_small by lia.
      unfold nocase_sign. rewrite fmap_cons. simpl. rewrite !Z.sgn_neg by lia. done.
  - destruct H1 as (Hx & Hne & H1). rewrite (load_Some _ _ _ Hx). cbn [mbind ctl_bind].
    rewrite (proj2 (Z.eqb_neq _ _) Hne). pose proof (Hm _ _ Hx) as Hxb.
    destruct l2 as [|y l2]; simpl in H2.
    + rewrite (load_Some _ _ _ H2). eexists. split; [done|].
      pose proof (tolower_pos x). rewrite wrapu_small, wrapu_small by lia.
      unfold nocase_sign. rewrite fmap_cons. simpl. rewrite !Z.sgn_pos by lia. done.
    + destruct H2 as (Hy & Hney & H2). rewrite (load_Some _ _ _ Hy). cbn [mbind ctl_bind].
      rewrite (proj2 (Z.eqb_neq _ _) Hney). pose proof (Hm _ _ Hy) as Hyb.
      destruct (nocase_step x y Hxb Hyb) as [-> ->]. rewrite nocase_sign_cons.
      case_bool_decide; [rewrite decide_True by done|rewrite decide_False by done]; cbn [negb].
      * apply IH; (done || lia).
      * by eexists.
Qed.

Lemma strncasecmp_loop_spec m k : forall l1 l2 s1 s2,
  mem_ok m -> cstr m s1 l1 -> cstr m s2 l2 ->
  exists v, strncasecmp_loop k m s1 s2 = Ret v /\ Z.sgn v = nocase_sign (take k l1) (take k l2).
Proof.
  induction k as [|k IH]; intros l1 l2 s1 s2 Hm H1 H2; [by exists 0|]. cbn [strncasecmp_loop].
  destruct l1 as [|x l1], l2 as [|y l2]; simpl in H1, H2.
  - rewrite (load_Some _ _ _ H1). cbn [mbind ctl_bind]. rewrite (load_Some _ _ _ H2). by exists 0.
  - destruct H2 as (Hy & Hne & _). rewrite (load_Some _ _ _ H1). cbn [mbind ctl_bind].
    rewrite (load_Some _ _ _ Hy). eexists. split; [done|].
    pose proof (Hm _ _ Hy). pose proof (tolower_pos y). rewrite wrapu_small, wrapu_small by lia.
    unfold nocase_sign. rewrite firstn_cons, fmap_cons. simpl. rewrite !Z.sgn_neg by lia. done.
  - destruct H1 as (Hx & Hne & _). rewrite (load_Some _ _ _ Hx). cbn [mbind ctl_bind].
    rewrite (load_Some _ _ _ H2). cbn [mbind ctl_bind]. rewrite orb_true_r. eexists. split; [done|].
    pose proof (Hm _ _ Hx). pose proof (tolower_pos x). rewrite wrapu_small, wrapu_small by lia.
    unfold nocase_sign. rewrite firstn_cons, fmap_cons. simpl. rewrite !Z.sgn_pos by lia. done.
  - destruct H1 as (Hx & Hne & H1), H2 as (Hy & Hney & H2).
    rewrite (load_Some _ _ _ Hx). cbn [mbind ctl_bind]. rewrite (load_Some _ _ _ Hy).
    cbn [mbind ctl_bind].
    rewrite (proj2 (Z.eqb_neq _ _) Hne), (proj2 (Z.eqb_neq _ _) Hney). cbn [orb].
    destruct (nocase_step x y (Hm _ _ Hx) (Hm _ _ Hy)) as [-> ->].
    rewrite !firstn_cons, nocase_sign_cons.
    case_bool_decide; [rewrite decide_True by done|rewrite decide_False by done]; cbn [negb].
    + by apply IH.
    + by eexists.
Qed.

(** Characters of a string, and of what is left of two of them. *)
Lemma cstr_byte_range m l : forall a, mem_ok m -> cstr m a l -> Forall (fun b => 0 <= b < 256) l.
Proof.
  induction l as [|b l IH]; intros a Hm; simpl; [by constructor|].
  intros (Hb & _ & Hl). constructor; [by eapply Hm|by eapply IH].
Qed.

Lemma after_common_range l1 l2 :
  Forall (fun b => 0 <= b < 256) l1 -> Forall (fun b => 0 <= b < 256) l2 ->
  0 <= first_char (fst (after_common l1 l2)) < 256 /\ 0 <= first_char (snd (after_common l1 l2)) < 256.
Proof.
  intros H1 H2. destruct (after_common_split l1 l2) as (p & E1 & E2).
  rewrite E1 in H1. rewrite E2 in H2. apply Forall_app in H1 as [_ H1], H2 as [_ H2].
  split; [destruct H1|destruct H2]; simpl; (done || lia).
Qed.

Lemma s8_inj x y : 0 <= x < 256 -> 0 <= y < 256 -> s8 x = s8 y -> x = y.
Proof. intros Hx Hy E. rewrite <- (u8_s8 x Hx), <- (u8_s8 y Hy). by rewrite E. Qed.

(** * Properties *)

(** [memmove] copies the [n] bytes at [src] to [dest] as they were before
    the call, however the two blocks overlap, and changes no other byte. *)
Theorem memmove_handles_overlap (dest src n : Z) (m : mem) :
  0 <= n -> mem_ok m -> mapped m src n -> mapped m dest n ->
  exists m', memmove dest src n m = Ret (dest, m') /\
    forall x, m' !! x = if decide (dest <= x < dest + n) then m !! (src + (x - dest)) else m !! x.
Proof.
  intros Hn Hm Hs Hd. destruct (memmove_copies dest src n m Hn Hm Hs Hd) as (m' & E & _ & Hc).
  by exists m'.
Qed.

(** The scanning routines end on terminated strings and are functions of
    their characters: [strlen] is the length, [strspn]/[strcspn] the length of
    the longest prefix inside / outside the set, [strpbrk] the address of the
    first character of the set, [strchr] that of the first occurrence of [c]
    (the terminator for 0). *)
Theorem string_scans_correct (m : mem) (s set c : Z) (l D : list Z) :
  cstr m s l -> cstr m set D ->
  let inside := fun b => bool_decide (b ∈ D) in
  strlen m s = Ret (zlen l) /\
  strspn m s set = Ret (Z.of_nat (prefix_len inside l)) /\
  strcspn m s set = Ret (Z.of_nat (prefix_len (fun b => negb (inside b)) l)) /\
  strpbrk m s set = Ret (found_at s (prefix_len (fun b => negb (inside b)) l) l) /\
  strchr m s c = Ret (match found_at s (prefix_len (fun b => negb (b =? u8 c)) l) l with
                      | Some p => Some p
                      | None => if c =? 0 then Some (s + zlen l) else None
                      end).
Proof.
  intros Hl HD inside. assert (length l < mem_fuel m)%nat as Hf
    by (apply cstr_fuel in Hl; unfold mem_fuel; lia).
  split; [by apply strlen_spec|]. unfold strspn, strcspn, strpbrk, strchr.
  rewrite !(span_loop_spec m set D _ l) by done. split_and!.
  - f_equal. rewrite Z.add_0_l. f_equal. apply prefix_len_ext. intros b. unfold inside.
    by destruct (bool_decide _).
  - done.
  - by rewrite (strpbrk_loop_spec m set D l).
  - rewrite (strchr_loop_spec m c l) by done. simpl. f_equal. unfold found_at. by case_decide.
Qed.

(** [strcmp] returns 0 exactly on equal strings, otherwise the difference
    of the first characters that differ, as signed chars; [strncmp] the same
    on the first [n] characters as unsigned chars. *)
Theorem string_compare_correct (m : mem) (s1 s2 n : Z) (l1 l2 : list Z) :
  mem_ok m -> cstr m s1 l1 -> cstr m s2 l2 -> 0 <= n ->
  (exists v, strcmp m s1 s2 = Ret v /\ (v = 0 <-> l1 = l2) /\
     let '(r1, r2) := after_common l1 l2 in v = s8 (first_char r1) - s8 (first_char r2)) /\
  (exists v, strncmp m s1 s2 n = Ret v /\ (v = 0 <-> take (Z.to_nat n) l1 = take (Z.to_nat n) l2) /\
     let '(r1, r2) := after_common (take (Z.to_nat n) l1) (take (Z.to_nat n) l2) in
     v = first_char r1 - first_char r2).
Proof.
  intros Hm H1 H2 Hn. pose proof (proj2 (proj1 (cstr_bytes m l1 s1) H1)) as Hn1.
  pose proof (proj2 (proj1 (cstr_bytes m l2 s2) H2)) as Hn2.
  pose proof (cstr_byte_range m l1 s1 Hm H1) as Hr1. pose proof (cstr_byte_range m l2 s2 Hm H2) as Hr2.
  split.
  - unfold strcmp. rewrite (strcmp_loop_spec m l1 l2) by
      (done || (apply cstr_fuel in H1; unfold mem_fuel; lia)).
    pose proof (after_common_heads l1 l2 Hn1 Hn2) as Hne.
    pose proof (after_common_eq l1 l2) as Heq. pose proof (after_common_range l1 l2 Hr1 Hr2) as [R1 R2].
    destruct (after_common l1 l2) as [r1 r2]. simpl in *. eexists. split; [done|]. split; [|done].
    destruct (decide (l1 = l2)) as [E|E].
    + injection (proj2 Heq E) as -> ->. split; [done|]. intros _. simpl. lia.
    + split; [|done]. intros Hv. exfalso. apply (Hne E). apply s8_inj; [done..|lia].
  - unfold strncmp. rewrite (strncmp_loop_spec m l1 l2) by done. set (k := Z.to_nat n).
    assert (Forall (fun b => b <> 0) (take k l1)) as Hk1 by by apply Forall_take.
    assert (Forall (fun b => b <> 0) (take k l2)) as Hk2 by by apply Forall_take.
    pose proof (after_common_heads _ _ Hk1 Hk2) as Hne.
    pose proof (after_common_eq (take k l1) (take k l2)) as Heq.
    destruct (after_common (take k l1) (take k l2)) as [r1 r2]. simpl in *.
    eexists. split; [done|]. split; [|done]. destruct (decide (take k l1 = take k l2)) as [E|E].
    + injection (proj2 Heq E) as -> ->. split; [done|]. intros _. simpl. lia.
    + split; [|done]. intros Hv. exfalso. apply (Hne E). lia.
Qed.

(** [strcasecmp] and [strncasecmp] return a number whose sign is that of
    the comparison of the lower-cased strings. *)
Theorem string_nocase_compare_correct (m : mem) (s1 s2 n : Z) (l1 l2 : list Z) :
  mem_ok m -> cstr m s1 l1 -> cstr m s2 l2 ->
  (exists v, strcasecmp m s1 s2 = Ret v /\ Z.sgn v = nocase_sign l1 l2) /\
  (exists v, strncasecmp m s1 s2 n = Ret v /\
     Z.sgn v = nocase_sign (take (Z.to_nat n) l1) (take (Z.to_nat n) l2)).
Proof.
  intros Hm H1 H2. split; [|by apply strncasecmp_loop_spec].
  apply strcasecmp_loop_spec; try done. apply cstr_fuel in H1. unfold mem_fuel. lia.
Qed.

(** [strstr] with a needle that is not empty returns the address of its
    first occurrence, NULL when there is none; with the empty needle it
    returns NULL (the C standard asks for the haystack). *)
Theorem strstr_first_occurrence (m : mem) (haystack needle : Z) (l w : list Z) :
  cstr m haystack l -> cstr m needle w ->
  exists r, strstr m haystack needle = Ret r /\
    (w = [] -> r = None) /\
    (w <> [] ->
      match r with
      | Some a => exists k, a = haystack + Z.of_nat k /\ w `prefix_of` drop k l /\
          forall j, (j < k)%nat -> ~ w `prefix_of` drop j l
      | None => forall j, ~ w `prefix_of` drop j l
      end).
Proof.
  intros Hl Hw. unfold strstr. destruct w as [|c w].
  - simpl in Hw. rewrite (load_Some _ _ _ Hw). by exists None.
  - pose proof Hw as (Hc & Hne & _). rewrite (load_Some _ _ _ Hc). cbn [mbind ctl_bind].
    rewrite (proj2 (Z.eqb_neq _ _) Hne), (strstr_loop_spec m needle (c :: w) l Hw)
      by (done || (apply cstr_fuel in Hl; unfold mem_fuel; lia)).
    eexists. split; [done|]. split; [done|]. intros _.
    pose proof (find_sub_spec (c :: w) l) as H. destruct (find_sub _ l); simpl; [|by apply H].
    eexists. split; [done|]. by apply H.
Qed.

(** One call of [strtok_r] skips the leading delimiters; if only
    delimiters are left it returns NULL and ends the tokenisation, otherwise
    it returns the longest delimiter-free run that follows, now terminated by
    a NUL, and leaves in [*saveptr] the string after the delimiter that ended
    it (NULL at the end of the string); the delimiters are not changed. *)
Theorem strtok_r_takes_token (m : mem) (s delim : Z) (saveptr : option Z) (l D : list Z) :
  cstr m s l -> cstr m delim D ->
  (delim + zlen D < s \/ s + zlen l < delim) ->
  let rest := drop (prefix_len (fun b => bool_decide (b ∈ D)) l) l in
  let t := s + Z.of_nat (prefix_len (fun b => bool_decide (b ∈ D)) l) in
  let k := prefix_len (fun b => negb (bool_decide (b ∈ D))) rest in
  (rest = [] -> strtok_r (Some s) delim saveptr m = Ret (None, m, None)) /\
  (rest <> [] -> exists m' save',
     strtok_r (Some s) delim saveptr m = Ret (Some t, m', save') /\
     cstr m' t (take k rest) /\ take k rest <> [] /\ cstr m' delim D /\
     match save' with
     | Some p => (k < length rest)%nat /\ p = t + Z.of_nat k + 1 /\ cstr m' p (drop (S k) rest)
     | None => k = length rest
     end).
Proof.
  intros Hl HD Hdis rest t k. unfold strtok_r.
  rewrite (skip_delim_spec m delim D l) by (done || (apply cstr_fuel in Hl; unfold mem_fuel; lia)).
  fold t. cbn [mbind ctl_bind]. pose proof (prefix_len_le (fun b => bool_decide (b ∈ D)) l) as Hp.
  assert (cstr m t rest) as Hrest by by apply cstr_drop.
  assert (zlen rest = zlen l - (t - s)) as Hlen by (unfold rest, t; rewrite length_drop; lia).
  split.
  - intros E. rewrite E in Hrest. simpl in Hrest. by rewrite (load_Some _ _ _ Hrest).
  - intros Hne. destruct rest as [|b r] eqn:Er; [done|].
    pose proof Hrest as (Hb & Hbne & _). rewrite (load_Some _ _ _ Hb). cbn [mbind ctl_bind].
    rewrite (proj2 (Z.eqb_neq _ _) Hbne).
    unfold strpbrk. rewrite (strpbrk_loop_spec m delim D (b :: r))
      by (done || (apply cstr_fuel in Hrest; unfold mem_fuel; lia)).
    fold k. cbn [mbind ctl_bind].
    assert (take k (b :: r) <> []) as Htok.
    { unfold k. simpl. pose proof (prefix_len_stop (fun b => bool_decide (b ∈ D)) l b) as Hs.
      rewrite <- (Nat.add_0_r (prefix_len _ l)), <- lookup_drop in Hs. fold rest in Hs.
      rewrite Er in Hs. simpl in Hs. rewrite Hs by done. done. }
    pose proof (prefix_len_le (fun b => negb (bool_decide (b ∈ D))) (b :: r)) as Hk. fold k in Hk.
    unfold found_at. case_decide as Hlt.
    + destruct (lookup_lt_is_Some_2 (b :: r) k Hlt) as [c Hc].
      assert (m !! (t + Z.of_nat k) = Some c) as Hmc
        by (apply cstr_bytes in Hrest as [Hby _]; apply bytes_at_app in Hby as [Hby _];
            by eapply bytes_at_lookup in Hby).
      rewrite (store_Some _ _ _ _ Hmc). cbn [mbind ctl_bind]. change (u8 0) with 0.
      eexists _, _. split; [done|]. split_and!.
      * apply cstr_take; [done|lia].
      * done.
      * apply cstr_insert; [unfold outside; lia|done].
      * done.
      * done.
      * apply cstr_insert; [unfold outside; lia|].
        replace (t + Z.of_nat k + 1) with (t + Z.of_nat (S k)) by lia. apply cstr_drop; [done|lia].
    + assert (k = length (b :: r)) as -> by lia. eexists _, _. split; [done|].
      rewrite take_ge by done. done.
Qed.

(** * Witnesses *)

(** Memories given by their bytes are checked by evaluation. *)
Lemma mem_ok_block a l : Forall (fun b => 0 <= b < 256) l -> mem_ok (block a l).
Proof.
  revert a. induction l as [|b l IH]; intros a Hl x y; simpl; [by rewrite lookup_empty|].
  apply Forall_cons in Hl as [Hb Hl]. intros [[_ <-]|[_ Hy]]%lookup_insert_Some; [done|by eapply IH].
Qed.

Lemma mapped_block a l n : n <= zlen l -> mapped (block a l) a n.
Proof.
  intros Hn x Hx. pose proof (bytes_at_block a l) as Hb. rewrite bytes_at_lookup in Hb.
  destruct (lookup_lt_is_Some_2 l (Z.to_nat (x - a))) as [b Hl]; [lia|].
  exists b. rewrite <- (Hb _ _ Hl). f_equal. lia.
Qed.

Lemma mapped_sub m a n a' n' : mapped m a n -> a <= a' -> a' + n' <= a + n -> mapped m a' n'.
Proof. intros H ? ? x Hx. apply H. lia. Qed.

(** "a,bc" at 16, then "," at 21 and "bc" at 23. *)
Definition sample : mem := block 16 [97; 44; 98; 99; 0; 44; 0; 98; 99; 0].

Lemma sample_ok : mem_ok sample.
Proof. apply mem_ok_block. repeat constructor; lia. Qed.

Lemma sample_text : cstr sample 16 [97; 44; 98; 99].
Proof. by vm_compute. Qed.

Lemma sample_delim : cstr sample 21 [44].
Proof. by vm_compute. Qed.

Lemma sample_needle : cstr sample 23 [98; 99].
Proof. by vm_compute. Qed.

Lemma memmove_handles_overlap_witness :
  mapped sample 16 4 /\ mapped sample 17 4 /\
  exists m', memmove 17 16 4 sample = Ret (17, m') /\
    forall x, m' !! x = if decide (17 <= x < 17 + 4) then sample !! (16 + (x - 17)) else sample !! x.
Proof.
  assert (mapped sample 16 10) as H by (apply mapped_block; simpl; lia).
  assert (mapped sample 16 4 /\ mapped sample 17 4) as [H1 H2]
    by (split; apply (mapped_sub _ _ _ _ _ H); lia).
  split; [exact H1|]. split; [exact H2|].
  apply (memmove_handles_overlap 17 16 4 sample); [lia|exact sample_ok|exact H1|exact H2].
Defined.

Lemma string_scans_correct_witness :
  strlen sample 16 = Ret 4 /\ strcspn sample 16 21 = Ret 1 /\ strchr sample 16 44 = Ret (Some 17).
Proof.
  destruct (string_scans_correct sample 16 21 44 [97; 44; 98; 99] [44] sample_text sample_delim)
    as (H1 & _ & H3 & _ & H5). split; [exact H1|]. split; [exact H3|exact H5].
Defined.

Lemma string_compare_correct_witness :
  exists v, strcmp sample 16 23 = Ret v /\ (v = 0 <-> [97; 44; 98; 99] = [98; 99]).
Proof.
  destruct (string_compare_correct sample 16 23 2 [97; 44; 98; 99] [98; 99] sample_ok
              sample_text sample_needle) as [(v & E & H & _) _]; [lia|].
  exists v. split; [exact E|exact H].
Defined.

Lemma string_nocase_compare_correct_witness :
  exists v, strcasecmp sample 18 23 = Ret v /\ Z.sgn v = nocase_sign [98; 99] [98; 99].
Proof.
  assert (cstr sample 18 [98; 99]) as H by by vm_compute.
  exact (proj1 (string_nocase_compare_correct sample 18 23 2 _ _ sample_ok H sample_needle)).
Defined.

Lemma strstr_first_occurrence_witness :
  exists r, strstr sample 16 23 = Ret r /\ ([98; 99] = [] -> r = None) /\
    ([98; 99] <> [] ->
      match r with
      | Some a => exists k, a = 16 + Z.of_nat k /\ [98; 99] `prefix_of` drop k [97; 44; 98; 99] /\
          forall j, (j < k)%nat -> ~ [98; 99] `prefix_of` drop j [97; 44; 98; 99]
      | None => forall j, ~ [98; 99] `prefix_of` drop j [97; 44; 98; 99]
      end).
Proof.
  exact (strstr_first_occurrence sample 16 23 [97; 44; 98; 99] [98; 99] sample_text sample_needle).
Defined.

Lemma strtok_r_takes_token_witness :
  exists m' save', strtok_r (Some 16) 21 None sample = Ret (Some 16, m', save') /\
    cstr m' 16 [97].
Proof.
  assert (21 + zlen [44] < 16 \/ 16 + zlen [97; 44; 98; 99] < 21) as Hd by (right; simpl; lia).
  destruct (strtok_r_takes_token sample 16 21 None [97; 44; 98; 99] [44] sample_text sample_delim Hd)
    as [_ H].
  destruct H as (m' & save' & E & Ht & _); [discriminate|].
  exists m', save'. split; [exact E|exact Ht].
Defined.
