(* ===== verification/LibcStdlib.v ===== *)
(** libc/stdlib.c (number parsing and the allocation wrappers), libc/math.c,
    libc/locale.c and the UTF-8 decoding of libc/wchar.c. Signed overflow is
    undefined in C: it traps. *)

From stdpp Require Import gmap.
From S2P Require Import Prelude CMem LibcString.

(** * libc/math.c *)

Definition INT_MIN : Z := - 2 ^ 31.
Definition LONG_MIN : Z := - 2 ^ 63.

Definition abs_ (j : Z) : ctl Z := if j <? 0 then if j =? INT_MIN then Trap else Ret (- j) else Ret j.
Definition labs_ (j : Z) : ctl Z := if j <? 0 then if j =? LONG_MIN then Trap else Ret (- j) else Ret j.

(** * libc/stdlib.c *)

(** [calloc] over an allocator: [malloc size m] is the pointer and the memory. *)
Definition calloc (malloc : Z -> mem -> option Z * mem) (nmemb size : Z) (m : mem) :
    ctl (option Z * mem) :=
  let total_size := u64 (nmemb * size) in
  match malloc total_size m with
  | (None, m) => Ret (None, m)
  | (Some ptr, m) => '(_, m) ← memset ptr 0 total_size m; Ret (Some ptr, m)
  end.

(** [while (isspace( *s)) s++] *)
Fixpoint skip_space (fuel : nat) (m : mem) (s : Z) : ctl Z :=
  match fuel with
  | O => NoFuel
  | S fuel => b ← load m s; if isspace b then skip_space fuel m (s + 1) else Ret s
  end.

(** The value of a character as a digit, [None] where the loop breaks. *)
Definition digit_of (b : Z) : option Z :=
  if (48 <=? b) && (b <=? 57) then Some (b - 48)
  else if (97 <=? b) && (b <=? 122) then Some (b - 97 + 10)
  else if (65 <=? b) && (b <=? 90) then Some (b - 65 + 10)
  else None.

(** The digits from [s]: the value and the first address not consumed. *)
Fixpoint digits_loop (fuel : nat) (m : mem) (base result s : Z) : ctl (Z * Z) :=
  match fuel with
  | O => NoFuel
  | S fuel =>
      b ← load m s;
      match digit_of b with
      | None => Ret (result, s)
      | Some digit =>
          if base <=? digit then Ret (result, s)
          else
            let result := result * base + digit in
            if LONG_MAX <? result then Trap else digits_loop fuel m base result (s + 1)
      end
  end.

(** [if ( *s == '0') ...]: what the prefix does to [s] and to [base]. *)
Definition number_prefix (m : mem) (s base : Z) : ctl (Z * Z) :=
  b ← load m s;
  if b =? 48 then
    let s := s + 1 in
    c ← load m s;
    if ((c =? 120) || (c =? 88)) && ((base =? 0) || (base =? 16)) then Ret (s + 1, 16)
    else if ((c =? 98) || (c =? 66)) && ((base =? 0) || (base =? 2)) then Ret (s + 1, 2)
    else if base =? 0 then Ret (s, 8)
    else Ret (s, base)
  else Ret (s, base).

(** The value and what is stored in [*endptr] when it is not NULL. *)
Definition strtoll (m : mem) (nptr base : Z) : ctl (Z * Z) :=
  if (base <? 2) || (36 <? base) then Ret (0, nptr)
  else
    s ← skip_space (mem_fuel m) m nptr;
    b ← load m s;
    let '(sign, s) := if b =? 45 then (-1, s + 1)
                      else if b =? 43 then (1, s + 1) else (1, s) in
    '(s, base) ← number_prefix m s base;
    let base := if base =? 0 then 10 else base in
    let start := s in
    '(result, s) ← digits_loop (mem_fuel m) m base 0 s;
    Ret (sign * result, if s =? start then nptr else s).

Definition strtol (m : mem) (nptr base : Z) : ctl (Z * Z) := strtoll m nptr base.

Definition atoi (m : mem) (str : Z) : ctl Z :=
  '(v, _) ← strtol m str 10; Ret (s32 v).

(** * libc/locale.c *)

Inductive encoding := LC_WOS_UTF8.

Definition getencoding : encoding := LC_WOS_UTF8.

(** "en_US.UTF-8", "C" and "POSIX" are the string constants at [en_US], [C]
    and [POSIX]. *)
Definition setlocale (m : mem) (en_US C POSIX locale : Z) : ctl (option Z) :=
  r ← strcmp m locale en_US;
  if r =? 0 then Ret (Some locale)
  else
    r ← strcmp m locale C;
    if r =? 0 then Ret (Some locale)
    else
      r ← strcmp m locale POSIX;
      if r =? 0 then Ret (Some locale) else Ret None.

(** * libc/wchar.c *)

Definition SIZE_ERR : Z := SIZE_MAX.  (* (size_t)-1 *)

(** [( *str & mask) == value], and the low bits of a byte. *)
Definition marked (mask value b : Z) : bool := Z.land b mask =? value.

(** The number of bytes read, and [*res] when it is assigned. *)
Definition _utf8ToCodePoint (m : mem) (str len : Z) : ctl (Z * option Z) :=
  if len =? 0 then Ret (0, None)
  else
    b0 ← load m str;
    if marked 128 0 b0 then Ret (1, Some (s8 b0))
    else if marked 224 192 b0 then
      if len =? 1 then Ret (SIZE_ERR, None)
      else
        b1 ← load m (str + 1);
        if negb (marked 192 128 b1) then Ret (SIZE_ERR, None)
        else Ret (2, Some (Z.lor (Z.shiftl (Z.land b0 31) 6) (Z.land b1 63)))
    else if marked 240 224 b0 then
      if len <? 3 then Ret (SIZE_ERR, None)
      else
        b1 ← load m (str + 1);
        if negb (marked 192 128 b1) then Ret (SIZE_ERR, None)
        else
          b2 ← load m (str + 2);
          if negb (marked 192 128 b2) then Ret (SIZE_ERR, None)
          else Ret (3, Some (Z.lor (Z.lor (Z.shiftl (Z.land b0 15) 12)
                                      (Z.shiftl (Z.land b1 63) 6)) (Z.land b2 63)))
    else if marked 248 240 b0 then
      if len <? 4 then Ret (SIZE_ERR, None)
      else
        b1 ← load m (str + 1);
        if negb (marked 192 128 b1) then Ret (SIZE_ERR, None)
        else
          b2 ← load m (str + 2);
          if negb (marked 192 128 b2) then Ret (SIZE_ERR, None)
          else
            b3 ← load m (str + 3);
            if negb (marked 192 128 b3) then Ret (SIZE_ERR, None)
            else Ret (4, Some (Z.lor (Z.lor (Z.lor (Z.shiftl (Z.land b0 7) 18)
                                                   (Z.shiftl (Z.land b1 63) 12))
                                            (Z.shiftl (Z.land b2 63) 6)) (Z.land b3 63)))
    else Ret (SIZE_ERR, None).

(** [mbrtowc]: the count, the wide character stored in [*pwc] when it is not
    NULL, and the conversion state. With [n = 0] and [pwc] not NULL the
    uninitialised [codepoint] is stored: a trap. *)
Definition mbrtowc (m : mem) (want : bool) (s : option Z) (n : Z) (ps : option Z) :
    ctl (Z * option Z * option Z) :=
  match getencoding with
  | LC_WOS_UTF8 =>
      match s with
      | None => Ret (0, None, match ps with Some _ => Some 0 | None => None end)
      | Some s =>
          '(bytes_read, codepoint) ← _utf8ToCodePoint m s n;
          if bytes_read =? SIZE_ERR then Ret (SIZE_ERR, None, ps)
          else if want then c ← deref codepoint; Ret (bytes_read, Some c, ps)
          else Ret (bytes_read, None, ps)
      end
  end.

Definition mbrlen (m : mem) (s : option Z) (n : Z) (ps : option Z) : ctl (Z * option Z) :=
  '(r, _, st) ← mbrtowc m false s n (Some (default 0 ps));
  Ret (r, match ps with Some _ => st | None => None end).

(** The wide characters stored (in order), the final value of [*s] and the
    count; the terminator is stored when [l > 0] is left. *)
Fixpoint mbsrtowcs_loop (fuel : nat) (m : mem) (s l cnt : Z) (ps : option Z) (acc : list Z) :
    ctl (Z * Z * Z * list Z) :=
  match fuel with
  | O => NoFuel
  | S fuel =>
      if negb (1 <? l) then Ret (cnt, s, l, acc)
      else
        b ← load m s;
        if b =? 0 then Ret (cnt, s, l, acc)
        else
          '(bytes_read, wc, ps) ← mbrtowc m true (Some s) (l - 1) ps;
          if bytes_read =? SIZE_ERR then Ret (SIZE_ERR, s, 0, acc)
          else if bytes_read =? 0 then Ret (cnt, s, l, acc)
          else
            c ← deref wc;
            mbsrtowcs_loop fuel m (s + bytes_read) (l - 1) (cnt + 1) ps (acc ++ [c])
  end.
Definition mbsrtowcs (m : mem) (s l : Z) (ps : option Z) : ctl (Z * Z * list Z) :=
  '(cnt, s, l, acc) ← mbsrtowcs_loop (mem_fuel m) m s l 0 ps [];
  if cnt =? SIZE_ERR then Ret (SIZE_ERR, s, acc)
  else Ret (cnt, s, if 0 <? l then acc ++ [0] else acc).

(** [wcs] is the array of wide characters. *)
Fixpoint wcschr_loop (wcs : list Z) (wc i : Z) : ctl (option Z) :=
  match wcs with
  | [] => Trap
  | c :: wcs =>
      if c =? 0 then Ret None
      else if c =? wc then Ret (Some i) else wcschr_loop wcs wc (i + 1)
  end.
Definition wcschr (wcs : list Z) (wc : Z) : ctl (option Z) := wcschr_loop wcs wc 0.

Definition iswspace (wc : Z) : bool :=
  (wc =? 32) || (wc =? 9) || (wc =? 10) || (wc =? 11) || (wc =? 12) || (wc =? 13).

(** Number parsing and UTF-8 decoding: what [strtoll] reads, where it stops,
    when it overflows, and the round trip of the UTF-8 decoder. *)

(** * strtoll *)

Definition is_digit (base d : Z) : Prop := exists v, digit_of d = Some v /\ v < base.

(** The value of the digits [ds] after [acc]. *)
Definition digits_value (base acc : Z) (ds : list Z) : Z :=
  fold_left (fun acc d => acc * base + default 0 (digit_of d)) ds acc.

Lemma digit_of_range d v : digit_of d = Some v -> 0 <= v < 36 /\ 48 <= d <= 122.
Proof. unfold digit_of. case_Z; simpl; intros; simplify_eq; lia. Qed.

Lemma digits_value_cons base acc d ds :
  digits_value base acc (d :: ds) = digits_value base (acc * base + default 0 (digit_of d)) ds.
Proof. done. Qed.

Lemma digits_value_ge base acc ds :
  1 <= base -> 0 <= acc -> Forall (is_digit base) ds -> acc <= digits_value base acc ds.
Proof.
  intros Hb Ha Hds. revert acc Ha. induction Hds as [|d ds (v & Hv & _) _ IH]; intros acc Ha; [done|].
  rewrite digits_value_cons, Hv. simpl. apply digit_of_range in Hv as [? _].
  specialize (IH (acc * base + v)). nia.
Qed.

(** The character at which the digits end. *)
Definition stops (base c : Z) : Prop :=
  match digit_of c with Some v => base <= v | None => True end.

Lemma digits_loop_spec m base c ds : forall fuel acc s,
  2 <= base -> bytes_at m s (ds ++ [c]) -> Forall (is_digit base) ds -> stops base c ->
  (length ds < fuel)%nat -> 0 <= acc <= LONG_MAX ->
  digits_loop fuel m base acc s =
    if digits_value base acc ds <=? LONG_MAX
    then Ret (digits_value base acc ds, s + zlen ds) else Trap.
Proof.
  induction ds as [|d ds IH]; intros [|fuel] acc s Hb Hm Hds Hc Hf Ha; simpl in Hf; try lia.
  - destruct Hm as [Hm _]. cbn [digits_loop]. rewrite (load_Some _ _ _ Hm). cbn [mbind ctl_bind].
    change (digits_value base acc []) with acc. rewrite (proj2 (Z.leb_le _ _)) by lia.
    unfold stops in Hc. rewrite Z.add_0_r. destruct (digit_of c) as [v|]; [|done].
    by rewrite (proj2 (Z.leb_le _ _) Hc).
  - destruct Hm as [Hm Hml]. apply Forall_cons in Hds as [(v & Hv & Hlt) Hds].
    cbn [digits_loop]. rewrite (load_Some _ _ _ Hm). cbn [mbind ctl_bind].
    rewrite digits_value_cons, Hv, (proj2 (Z.leb_gt _ _) Hlt). cbn [default].
    pose proof (digit_of_range _ _ Hv) as [Hv0 _].
    destruct (Z.ltb_spec LONG_MAX (acc * base + v)) as [Hov|Hov].
    + pose proof (digits_value_ge base (acc * base + v) ds) as H.
      rewrite (proj2 (Z.leb_gt _ _)); [done|]. simpl. unfold LONG_MAX in *. specialize (H ltac:(lia) ltac:(nia) Hds). lia.
    + simpl. rewrite IH by (done || nia). by replace (s + 1 + zlen ds) with (s + Z.of_nat (S (length ds))) by lia.
Qed.

Lemma skip_space_spec m b ws : forall fuel s,
  bytes_at m s (ws ++ [b]) -> Forall (fun w => isspace w = true) ws -> isspace b = false ->
  (length ws < fuel)%nat -> skip_space fuel m s = Ret (s + zlen ws).
Proof.
  induction ws as [|w ws IH]; intros [|fuel] s Hm Hws Hb Hf; simpl in Hf; try lia;
    destruct Hm as [Hm Hml]; cbn [skip_space]; rewrite (load_Some _ _ _ Hm); cbn [mbind ctl_bind].
  - rewrite Hb. by rewrite Z.add_0_r.
  - apply Forall_cons in Hws as [Hw Hws]. rewrite Hw, IH by (done || lia).
    f_equal. len_lia.
Qed.

Lemma digit_not_space base d : is_digit base d -> isspace d = false.
Proof.
  intros (v & Hv & _). apply digit_of_range in Hv as [_ Hd]. unfold isspace. case_Z; simpl; (done || lia).
Qed.

(** An optional sign. *)
Definition sign_value (sg : list Z) : option Z :=
  match sg with
  | [] => Some 1
  | [c] => if c =? 45 then Some (-1) else if c =? 43 then Some 1 else None
  | _ => None
  end.

Lemma sign_chars sg sign : sign_value sg = Some sign ->
  sg = [] /\ sign = 1 \/ sg = [45] /\ sign = -1 \/ sg = [43] /\ sign = 1.
Proof.
  destruct sg as [|c [|]]; simpl; [naive_solver| |done]. case_Z; intros; simplify_eq; auto.
Qed.

Lemma number_prefix_none m s base b : m !! s = Some b -> b <> 48 -> number_prefix m s base = Ret (s, base).
Proof.
  intros Hb Hne. unfold number_prefix. rewrite (load_Some _ _ _ Hb). cbn [mbind ctl_bind].
  by rewrite (proj2 (Z.eqb_neq _ _) Hne).
Qed.

Lemma digit_head d : 48 <= d <= 122 -> (d =? 45) = false /\ (d =? 43) = false.
Proof. intros. split; apply Z.eqb_neq; lia. Qed.

Lemma strtoll_number (m : mem) (nptr base sign d c : Z) (ws sg ds : list Z) :
  2 <= base <= 36 -> bytes_at m nptr (ws ++ sg ++ (d :: ds) ++ [c]) ->
  Forall (fun w => isspace w = true) ws -> sign_value sg = Some sign ->
  d <> 48 -> Forall (is_digit base) (d :: ds) -> stops base c ->
  strtoll m nptr base =
    if digits_value base 0 (d :: ds) <=? LONG_MAX
    then Ret (sign * digits_value base 0 (d :: ds),
              nptr + zlen ws + zlen sg + zlen (d :: ds))
    else Trap.
Proof.
  intros Hb Hm Hws Hsg Hd Hds Hc. pose proof (bytes_at_size _ _ _ Hm) as Hsz.
  rewrite !length_app in Hsz. apply bytes_at_app in Hm as Hm'. destruct Hm' as [Hmw Hms].
  apply bytes_at_app in Hms as Hm'. destruct Hm' as [Hmg Hmd].
  pose proof (proj1 (Forall_cons _ _ _) Hds) as [[v [Hv Hlt]] _].
  pose proof (digit_of_range _ _ Hv) as [_ Hdr].
  unfold strtoll. rewrite (proj2 (Z.ltb_ge base 2)), (proj2 (Z.ltb_ge 36 base)) by lia. cbn [orb].
  assert (exists b r, sg ++ d :: ds ++ [c] = b :: r /\ isspace b = false /\
            (b = 45 /\ sg = [45] /\ sign = -1 \/ b = 43 /\ sg = [43] /\ sign = 1 \/
             b = d /\ sg = [] /\ sign = 1)) as (b & r & E & Hsp & Hcase).
  { destruct (sign_chars _ _ Hsg) as [[-> ->]|[[-> ->]|[-> ->]]]; eexists _, _; (split; [done|]).
    - split; [|auto]. apply (digit_not_space base). by eexists.
    - split; [done|]. by left.
    - split; [done|]. right; by left. }
  rewrite (skip_space_spec m b ws) with (fuel := mem_fuel m); try done.
  2:{ apply bytes_at_app. split; [done|]. simpl app in Hms. rewrite E in Hms. simpl in *. naive_solver. }
  all: try (unfold mem_fuel; lia).
  cbn [mbind ctl_bind]. simpl app in Hms. rewrite E in Hms. destruct Hms as [Hb0 _].
  rewrite (load_Some _ _ _ Hb0). cbn [mbind ctl_bind].
  assert ((if b =? 45 then (-1, nptr + zlen ws + 1)
           else if b =? 43 then (1, nptr + zlen ws + 1) else (1, nptr + zlen ws))
          = (sign, nptr + zlen ws + zlen sg)) as ->.
  { destruct (digit_head d Hdr) as [D1 D2].
    destruct Hcase as [(-> & -> & ->)|[(-> & -> & ->)|(-> & -> & ->)]]; [done|done|].
    rewrite D1, D2. simpl. by rewrite Z.add_0_r. }
  set (p := nptr + zlen ws + zlen sg) in *. destruct Hmd as [Hmd0 Hmd].
  rewrite (number_prefix_none m p base d Hmd0 Hd). cbn [mbind ctl_bind].
  rewrite (proj2 (Z.eqb_neq base 0)) by lia.
  rewrite (digits_loop_spec m base c (d :: ds));
    [|lia|by split|done|done|unfold mem_fuel; simpl in *; lia|unfold LONG_MAX; lia].
  destruct (_ <=? LONG_MAX); [|done]. cbn [mbind ctl_bind].
  rewrite (proj2 (Z.eqb_neq _ p)) by len_lia. f_equal.
Qed.

(** * UTF-8 *)

(** The shortest encoding of a code point. *)
Definition utf8_encode (c : Z) : list Z :=
  if c <? 2 ^ 7 then [c]
  else if c <? 2 ^ 11 then [192 + c / 2 ^ 6; 128 + c mod 2 ^ 6]
  else if c <? 2 ^ 16 then [224 + c / 2 ^ 12; 128 + (c / 2 ^ 6) mod 2 ^ 6; 128 + c mod 2 ^ 6]
  else [240 + c / 2 ^ 18; 128 + (c / 2 ^ 12) mod 2 ^ 6; 128 + (c / 2 ^ 6) mod 2 ^ 6; 128 + c mod 2 ^ 6].

(** The four lead-byte classes and the continuation bytes. *)
Lemma lead_class (b : Z) : 0 <= b < 256 ->
  marked 128 0 b = (b <? 128) /\
  (128 <= b -> marked 224 192 b = (b / 32 =? 6)) /\
  (128 <= b -> b / 32 <> 6 -> marked 240 224 b = (b / 16 =? 14)) /\
  (128 <= b -> b / 32 <> 6 -> b / 16 <> 14 -> marked 248 240 b = (b / 8 =? 30)).
Proof.
  intros Hb.
  pose proof (byte_forall (fun b => eqb (marked 128 0 b) (b <? 128)) ltac:(by vm_compute) b Hb) as H1.
  pose proof (byte_forall (fun b => eqb (marked 224 192 b) (b / 32 =? 6)) ltac:(by vm_compute) b Hb) as H2.
  pose proof (byte_forall (fun b => eqb (marked 240 224 b) (b / 16 =? 14)) ltac:(by vm_compute) b Hb) as H3.
  pose proof (byte_forall (fun b => eqb (marked 248 240 b) (b / 8 =? 30)) ltac:(by vm_compute) b Hb) as H4.
  by rewrite eqb_true_iff in H1, H2, H3, H4.
Qed.

Lemma continuation_mark x : 0 <= x < 64 -> marked 192 128 (128 + x) = true /\ Z.land (128 + x) 63 = x.
Proof.
  intros Hx. pose proof (byte_forall (fun b => implb (b / 64 =? 2)
    (marked 192 128 b && (Z.land b 63 =? b - 128))) ltac:(by vm_compute) (128 + x)) as H.
  forward H by lia. cbv beta in H.
  rewrite (proj2 (Z.eqb_eq ((128 + x) / 64) 2)) in H
    by (Z.to_euclidean_division_equations; lia).
  cbn [implb] in H. apply andb_true_iff in H as [H1 H2%Z.eqb_eq]. split; [done|lia].
Qed.

Lemma lead_bits k x : 0 <= k -> 0 <= x < 2 ^ k -> forall base, (2 ^ k | base) -> Z.land (base + x) (Z.ones k) = x.
Proof.
  intros Hk Hx base [q ->]. rewrite Z.land_ones by lia. rewrite Z.add_comm, Z.mod_add by lia.
  by apply Z.mod_small.
Qed.

(** The bit fields of the four patterns, joined. *)
Lemma join2 a b : 0 <= b < 2 ^ 6 -> Z.lor (Z.shiftl a 6) b = a * 2 ^ 6 + b.
Proof. intros. by apply lor_shiftl_add. Qed.

Lemma join3 a b c : 0 <= b < 2 ^ 6 -> 0 <= c < 2 ^ 6 ->
  Z.lor (Z.lor (Z.shiftl a 12) (Z.shiftl b 6)) c = a * 2 ^ 12 + b * 2 ^ 6 + c.
Proof.
  intros Hb Hc. rewrite <- Z.lor_assoc, join2 by done.
  rewrite lor_shiftl_add by lia. lia.
Qed.

Lemma join4 a b c d : 0 <= b < 2 ^ 6 -> 0 <= c < 2 ^ 6 -> 0 <= d < 2 ^ 6 ->
  Z.lor (Z.lor (Z.lor (Z.shiftl a 18) (Z.shiftl b 12)) (Z.shiftl c 6)) d
    = a * 2 ^ 18 + b * 2 ^ 12 + c * 2 ^ 6 + d.
Proof.
  intros Hb Hc Hd. rewrite <- !Z.lor_assoc, (Z.lor_assoc (Z.shiftl b 12)), join3 by done.
  rewrite lor_shiftl_add by lia. lia.
Qed.

Lemma utf8_decode_encode m a n c :
  0 <= c < 2 ^ 21 -> bytes_at m a (utf8_encode c) -> zlen (utf8_encode c) <= n ->
  _utf8ToCodePoint m a n = Ret (zlen (utf8_encode c), Some c).
Proof.
  intros Hc. unfold utf8_encode, _utf8ToCodePoint. set (x := c mod 2 ^ 6).
  assert (0 <= x < 2 ^ 6) as Hx by (apply Z.mod_pos_bound; lia).
  assert (0 <= (c / 2 ^ 6) mod 2 ^ 6 < 2 ^ 6) as Hy by (apply Z.mod_pos_bound; lia).
  assert (0 <= (c / 2 ^ 12) mod 2 ^ 6 < 2 ^ 6) as Hz by (apply Z.mod_pos_bound; lia).
  set (y := (c / 2 ^ 6) mod 2 ^ 6) in *. set (z := (c / 2 ^ 12) mod 2 ^ 6) in *.
  destruct (continuation_mark x Hx) as [Mx Lx]. destruct (continuation_mark y Hy) as [My Ly].
  destruct (continuation_mark z Hz) as [Mz Lz].
  destruct (Z.ltb_spec c (2 ^ 7)); [|destruct (Z.ltb_spec c (2 ^ 11)); [|destruct (Z.ltb_spec c (2 ^ 16))]];
    simpl; intros Hm Hn; rewrite (proj2 (Z.eqb_neq n 0)) by lia.
  - destruct Hm as [Hm _]. rewrite (load_Some _ _ _ Hm). cbn [mbind ctl_bind].
    destruct (lead_class c) as (-> & _); [lia|]. rewrite (proj2 (Z.ltb_lt _ _)) by lia.
    by rewrite wraps_small by lia.
  - destruct Hm as (B0 & B1 & _). set (w := c / 2 ^ 6) in *.
    assert (c = w * 2 ^ 6 + x /\ 2 <= w < 32) as [Ec Hw] by (unfold w, x; split;
      [rewrite Z.mul_comm; by apply Z.div_mod|Z.to_euclidean_division_equations; lia]).
    clearbody w x y z. rewrite (load_Some _ _ _ B0). cbn [mbind ctl_bind].
    destruct (lead_class (192 + w)) as (E1 & E2 & _); [lia|]. rewrite E1, E2 by lia.
    rewrite (proj2 (Z.ltb_ge _ _)), (proj2 (Z.eqb_eq _ _)) by (Z.to_euclidean_division_equations; lia).
    rewrite (proj2 (Z.eqb_neq n 1)) by lia. rewrite (load_Some _ _ _ B1). cbn [mbind ctl_bind].
    rewrite Mx, Lx. cbn [negb]. rewrite (lead_bits 5 w) by (done || lia || by exists 6).
    rewrite join2 by done. by rewrite <- Ec.
  - destruct Hm as (B0 & B1 & B2 & _). set (w := c / 2 ^ 12) in *.
    replace (a + 1 + 1) with (a + 2) in B2 by lia.
    assert (c = w * 2 ^ 12 + y * 2 ^ 6 + x /\ 0 <= w < 16) as [Ec Hw] by (unfold w, x, y;
      Z.to_euclidean_division_equations; lia).
    clearbody w x y z. rewrite (load_Some _ _ _ B0). cbn [mbind ctl_bind].
    destruct (lead_class (224 + w)) as (E1 & E2 & E3 & _); [lia|].
    rewrite E1, E2, E3 by (Z.to_euclidean_division_equations; lia).
    rewrite (proj2 (Z.ltb_ge _ _)), (proj2 (Z.eqb_neq _ 6)), (proj2 (Z.eqb_eq _ 14))
      by (Z.to_euclidean_division_equations; lia).
    rewrite (proj2 (Z.ltb_ge n 3)) by lia. rewrite (load_Some _ _ _ B1). cbn [mbind ctl_bind].
    rewrite My. cbn [negb]. rewrite (load_Some _ _ _ B2). cbn [mbind ctl_bind].
    rewrite Mx. cbn [negb]. rewrite Lx, Ly, (lead_bits 4 w) by (done || lia || by exists 14).
    rewrite join3 by done. by rewrite <- Ec.
  - destruct Hm as (B0 & B1 & B2 & B3 & _). set (w := c / 2 ^ 18) in *.
    replace (a + 1 + 1) with (a + 2) in B2 by lia.
    replace (a + 1 + 1 + 1) with (a + 3) in B3 by lia.
    assert (c = w * 2 ^ 18 + z * 2 ^ 12 + y * 2 ^ 6 + x /\ 0 <= w < 8) as [Ec Hw]
      by (unfold w, x, y, z; Z.to_euclidean_division_equations; lia).
    clearbody w x y z. rewrite (load_Some _ _ _ B0). cbn [mbind ctl_bind].
    destruct (lead_class (240 + w)) as (E1 & E2 & E3 & E4); [lia|].
    rewrite E1, E2, E3, E4 by (Z.to_euclidean_division_equations; lia).
    rewrite (proj2 (Z.ltb_ge _ _)), (proj2 (Z.eqb_neq _ 6)), (proj2 (Z.eqb_neq _ 14)),
      (proj2 (Z.eqb_eq _ 30)) by (Z.to_euclidean_division_equations; lia).
    rewrite (proj2 (Z.ltb_ge n 4)) by lia. rewrite (load_Some _ _ _ B1). cbn [mbind ctl_bind].
    rewrite Mz. cbn [negb]. rewrite (load_Some _ _ _ B2). cbn [mbind ctl_bind].
    rewrite My. cbn [negb]. rewrite (load_Some _ _ _ B3). cbn [mbind ctl_bind].
    rewrite Mx. cbn [negb]. rewrite Lx, Ly, Lz, (lead_bits 3 w) by (done || lia || by exists 30).
    rewrite join4 by done. by rewrite <- Ec.
Qed.

(** * Properties *)

(** [strtoll] on white space, an optional sign and digits of the base (the
    first one not 0) that end at a character that is not a digit: it ends, and
    either returns the signed value of the digits and stores the address after
    the last one, or, when the value does not fit in a [long long], the
    multiplication overflows (undefined behaviour). *)
Theorem strtoll_reads_number (m : mem) (nptr base sign d c : Z) (ws sg ds : list Z) :
  2 <= base <= 36 -> bytes_at m nptr (ws ++ sg ++ (d :: ds) ++ [c]) ->
  Forall (fun w => isspace w = true) ws -> sign_value sg = Some sign ->
  d <> 48 -> Forall (is_digit base) (d :: ds) -> stops base c ->
  strtoll m nptr base =
    if digits_value base 0 (d :: ds) <=? LONG_MAX
    then Ret (sign * digits_value base 0 (d :: ds),
              nptr + zlen ws + zlen sg + zlen (d :: ds))
    else Trap.
Proof. apply strtoll_number. Qed.

(** on the string "0" in a base that takes no prefix, [strtoll] returns 0
    but stores [nptr] in [*endptr], as it does when there is no digit. *)
Theorem strtoll_zero_not_consumed (m : mem) (nptr base c : Z) :
  2 <= base <= 36 -> base <> 2 -> base <> 16 -> bytes_at m nptr [48; c] -> stops base c ->
  strtoll m nptr base = Ret (0, nptr).
Proof.
  intros Hb H2 H16 (Hm0 & Hm1 & _) Hc. unfold strtoll.
  rewrite (proj2 (Z.ltb_ge base 2)), (proj2 (Z.ltb_ge 36 base)) by lia. cbn [orb].
  assert (skip_space (mem_fuel m) m nptr = Ret nptr) as ->.
  { unfold mem_fuel. cbn [skip_space]. rewrite (load_Some _ _ _ Hm0). done. }
  cbn [mbind ctl_bind]. rewrite (load_Some _ _ _ Hm0). cbn [mbind ctl_bind].
  change (48 =? 45) with false. change (48 =? 43) with false. cbn iota beta.
  unfold number_prefix. rewrite (load_Some _ _ _ Hm0). cbn [mbind ctl_bind].
  change (48 =? 48) with true. cbn iota. rewrite (load_Some _ _ _ Hm1). cbn [mbind ctl_bind].
  rewrite (proj2 (Z.eqb_neq base 0)), (proj2 (Z.eqb_neq base 16)), (proj2 (Z.eqb_neq base 2)) by lia.
  rewrite !andb_false_r. cbn [mbind ctl_bind]. rewrite (proj2 (Z.eqb_neq base 0)) by lia.
  rewrite (digits_loop_spec m base c []); try done; [|lia|unfold mem_fuel; simpl; lia].
  change (digits_value base 0 []) with 0. simpl zlen. rewrite Z.add_0_r.
  change (0 <=? LONG_MAX) with true. cbn [mbind ctl_bind].
  rewrite Z.eqb_refl, Z.mul_0_r. done.
Qed.

(** decoding the UTF-8 encoding of any code point below 2^21 with
    [mbrtowc] gives that code point back and the length of the encoding, and a
    continuation byte in first position is refused. *)
Theorem utf8_round_trip (m : mem) (a n c : Z) (ps : option Z) :
  0 <= c < 2 ^ 21 -> bytes_at m a (utf8_encode c) -> zlen (utf8_encode c) <= n ->
  mbrtowc m true (Some a) n ps = Ret (zlen (utf8_encode c), Some c, ps) /\
  forall b, 128 <= b < 192 -> mbrtowc (<[a := b]> m) true (Some a) n ps = Ret (SIZE_ERR, None, ps).
Proof.
  intros Hc Hm Hn. unfold mbrtowc. cbn [getencoding].
  rewrite (utf8_decode_encode m a n c Hc Hm Hn). cbn [mbind ctl_bind].
  assert (1 <= zlen (utf8_encode c) <= 4) as Hl
    by (unfold utf8_encode; repeat case_match; simpl; lia).
  rewrite (proj2 (Z.eqb_neq _ SIZE_ERR)) by (unfold SIZE_ERR, SIZE_MAX; lia). split; [done|].
  intros b Hb. unfold _utf8ToCodePoint. rewrite (proj2 (Z.eqb_neq n 0)) by lia.
  rewrite (load_Some _ a b) by apply lookup_insert_eq. cbn [mbind ctl_bind].
  destruct (lead_class b) as (E1 & E2 & E3 & E4); [lia|]. rewrite E1, E2, E3, E4
    by (Z.to_euclidean_division_equations; lia).
  rewrite (proj2 (Z.ltb_ge _ _)), (proj2 (Z.eqb_neq _ 6)), (proj2 (Z.eqb_neq _ 14)),
    (proj2 (Z.eqb_neq _ 30)) by (Z.to_euclidean_division_equations; lia). done.
Qed.

(** [mbsrtowcs] gives the room left in wide characters to the decoder as a
    number of bytes: with room for one character and the terminator, a
    character encoded on two bytes is refused. *)
Theorem mbsrtowcs_room_is_bytes :
  bytes_at (block 16 [195; 169; 0]) 16 (utf8_encode 233 ++ [0]) /\
  mbsrtowcs (block 16 [195; 169; 0]) 16 2 None = Ret (SIZE_ERR, 16, []) /\
  mbsrtowcs (block 16 [195; 169; 0]) 16 3 None = Ret (1, 18, [233; 0]).
Proof. by vm_compute. Qed.

(** * Witnesses *)

(** " -42;" and "0;" *)
Lemma strtoll_reads_number_witness :
  strtoll (block 16 [32; 45; 52; 50; 59]) 16 10 = Ret (-42, 20).
Proof.
  rewrite (strtoll_reads_number (block 16 [32; 45; 52; 50; 59]) 16 10 (-1) 52 59 [32] [45] [50]).
  - reflexivity.
  - lia.
  - by vm_compute.
  - repeat constructor.
  - reflexivity.
  - lia.
  - repeat constructor; eexists; (split; [reflexivity|lia]).
  - exact I.
Defined.

Lemma strtoll_zero_not_consumed_witness : strtoll (block 16 [48; 59]) 16 10 = Ret (0, 16).
Proof.
  apply (strtoll_zero_not_consumed (block 16 [48; 59]) 16 10 59); [lia|lia|lia|by vm_compute|exact I].
Defined.

Lemma utf8_round_trip_witness :
  mbrtowc (block 16 [226; 130; 172]) true (Some 16) 4 None = Ret (3, Some 8364, None).
Proof.
  apply (utf8_round_trip (block 16 [226; 130; 172]) 16 4 8364 None);
    [lia|by vm_compute|by vm_compute].
Defined.
