(* ===== verification/LibcPrint.v ===== *)
(** libc/printer.c and the formatting entry points of libc/stdio.c.

    [fwrite] and [fgetc] (libc/stdio_fs.cpp) are parameters over an abstract
    [FILE]. A [va_list] is the list of the 64-bit slots of the arguments;
    taking one more than there is traps. Signed overflow of a width or of a
    precision, and writes outside the 64-byte scratch buffer of
    [print_integer], are undefined: they trap. *)

From S2P Require Import Prelude CMem LibcString LibcStdlib.

Section printer.
Context {FILE : Type} (fwrite : list Z -> FILE -> FILE).

(** * libc/printer.h *)

Inductive PrintTarget :=
| ToFile (file : FILE)
| ToBuffer (len buf cursor : Z).

(** A target and the memory. *)
Definition pstate : Type := PrintTarget * mem.

(** * print_part *)

Fixpoint read_bytes (n : nat) (m : mem) (a : Z) : ctl (list Z) :=
  match n with
  | O => Ret []
  | S n => b ← load m a; l ← read_bytes n m (a + 1); Ret (b :: l)
  end.

Fixpoint store_bytes (l : list Z) (a : Z) (m : mem) : ctl mem :=
  match l with
  | [] => Ret m
  | b :: l => m ← store m a b; store_bytes l (a + 1) m
  end.

(** The bytes at [data]: in memory, or in a local array. *)
Inductive source := InMem (a : Z) | Local (l : list Z).

Definition fetch (data : source) (n : Z) (m : mem) : ctl (list Z) :=
  match data with
  | InMem a => read_bytes (Z.to_nat n) m a
  | Local l => if n <=? zlen l then Ret (take (Z.to_nat n) l) else Trap
  end.

Definition print_part (data : source) (data_len : Z) (st : pstate) : ctl (Z * pstate) :=
  let '(targ, m) := st in
  match targ with
  | ToFile file =>
      d ← fetch data data_len m;
      Ret (s32 data_len, (ToFile (fwrite d file), m))
  | ToBuffer len buf cursor =>
      let data_len := if len <=? u64 (cursor + data_len)
                      then u64 (u64 (len - cursor) - 1) else data_len in
      if 0 <? data_len then
        d ← fetch data data_len m;
        m ← store_bytes d (buf + cursor) m;
        Ret (s32 data_len, (ToBuffer len buf (u64 (cursor + data_len)), m))
      else Ret (s32 data_len, (targ, m))
  end.

(** * print_integer *)

Record PrintIntegerFlags := mk_flags {
  base : Z;
  uppercase : bool;
  is_signed : bool;
  pad_char : Z;
  width : Z;
  precision : Z
}.

(** [*ptr = c; ptr--] in the scratch buffer. *)
Definition put (c : Z) (buf : list Z) (ptr : Z) : ctl (list Z * Z) :=
  buf ← deref (aset buf ptr c); Ret (buf, ptr - 1).

Definition digit_char (up : bool) (digit : Z) : Z :=
  if digit <? 10 then 48 + digit else (if up then 65 else 97) + (digit - 10).

(** [while (value > 0)] *)
Fixpoint put_digits (fuel : nat) (b : Z) (up : bool) (value : Z) (buf : list Z) (ptr cnt : Z) :
    ctl (list Z * Z * Z) :=
  match fuel with
  | O => NoFuel
  | S fuel =>
      if negb (0 <? value) then Ret (buf, ptr, cnt)
      else
        '(buf, ptr) ← put (digit_char up (value mod b)) buf ptr;
        put_digits fuel b up (value / b) buf ptr (cnt + 1)
  end.

(** [n] times [*ptr = c; ptr--]. *)
Fixpoint put_n (n : nat) (c : Z) (buf : list Z) (ptr : Z) : ctl (list Z * Z) :=
  match n with
  | O => Ret (buf, ptr)
  | S n => '(buf, ptr) ← put c buf ptr; put_n n c buf ptr
  end.

(** [strlen] inside the scratch buffer. *)
Fixpoint local_strlen (l : list Z) : ctl Z :=
  match l with
  | [] => Trap
  | b :: l => if b =? 0 then Ret 0 else n ← local_strlen l; Ret (n + 1)
  end.

(** The text of the number: [ptr + 1] at the end. *)
Definition format_integer (value : Z) (flags : PrintIntegerFlags) : ctl (list Z) :=
  let buf := replicate 64 0 in
  let ptr := 62 in
  let negative := is_signed flags && (s64 value <? 0) in
  value ← (if negative
           then if s64 value =? LONG_MIN then Trap else Ret (u64 (- s64 value))
           else Ret value);
  '(buf, ptr, digit_count) ←
    (if value =? 0 then '(buf, ptr) ← put 48 buf ptr; Ret (buf, ptr, 1)
     else put_digits 65 (base flags) (uppercase flags) value buf ptr 0);
  '(buf, ptr) ← put_n (Z.to_nat (precision flags - digit_count)) 48 buf ptr;
  '(buf, ptr) ← (if negative then put 45 buf ptr else Ret (buf, ptr));
  len ← local_strlen (drop (Z.to_nat (ptr + 1)) buf);
  '(buf, ptr) ← put_n (Z.to_nat (width flags - len)) (pad_char flags) buf ptr;
  len ← local_strlen (drop (Z.to_nat (ptr + 1)) buf);
  Ret (take (Z.to_nat len) (drop (Z.to_nat (ptr + 1)) buf)).

Definition print_integer (value : Z) (flags : PrintIntegerFlags) (st : pstate) :
    ctl (Z * pstate) :=
  text ← format_integer value flags;
  print_part (Local text) (zlen text) st.

(** * print_impl *)

(** [while ( *p && *p != '%') p++] *)
Fixpoint skip_literal (fuel : nat) (m : mem) (p : Z) : ctl Z :=
  match fuel with
  | O => NoFuel
  | S fuel =>
      b ← load m p;
      if (b =? 0) || (b =? 37) then Ret p else skip_literal fuel m (p + 1)
  end.

(** The flag characters: '-', '+', ' ', '#' and '0'. *)
Fixpoint skip_flags (fuel : nat) (m : mem) (p pad : Z) : ctl (Z * Z) :=
  match fuel with
  | O => NoFuel
  | S fuel =>
      b ← load m p;
      if (b =? 45) || (b =? 43) || (b =? 32) || (b =? 35) || (b =? 48)
      then skip_flags fuel m (p + 1) (if b =? 48 then 48 else pad)
      else Ret (p, pad)
  end.

Definition INT_MAX : Z := 2 ^ 31 - 1.

(** [while ( *p >= '0' && *p <= '9') v = v * 10 + ( *p - '0')] on an [int]. *)
Fixpoint read_number (fuel : nat) (m : mem) (p v : Z) : ctl (Z * Z) :=
  match fuel with
  | O => NoFuel
  | S fuel =>
      b ← load m p;
      if (48 <=? b) && (b <=? 57) then
        let v := v * 10 + (b - 48) in
        if INT_MAX <? v then Trap else read_number fuel m (p + 1) v
      else Ret (p, v)
  end.

Definition va_arg (va : list Z) : ctl (Z * list Z) :=
  match va with [] => Trap | a :: va => Ret (a, va) end.

Definition set_int (flags : PrintIntegerFlags) (b : Z) (up sg : bool) : PrintIntegerFlags :=
  mk_flags b up sg (pad_char flags) (width flags) (precision flags).

(** [l += r] for an [int] [r]. *)
Definition add_len (l r : Z) : Z := u64 (l + r).

(** A case of the switch that prints an integer taken from the arguments. *)
Definition print_arg (conv : Z -> Z) (flags : PrintIntegerFlags) (va : list Z) (l : Z) (st : pstate) :
    ctl (list Z * Z * pstate) :=
  '(a, va) ← va_arg va;
  '(r, st) ← print_integer (u64 (conv a)) flags st;
  Ret (va, add_len l r, st).

(** The switch on [*p] after '%': the new [p], arguments, [l] and target. *)
Definition print_directive (flags : PrintIntegerFlags) (p : Z) (va : list Z) (l : Z) (st : pstate) :
    ctl (Z * list Z * Z * pstate) :=
  let m := snd st in
  c ← load m p;
  if c =? 115 (* s *) then
    '(str, va) ← va_arg va;
    len ← strlen m str;
    let len := if (0 <=? precision flags) && (precision flags <? len) then precision flags else len in
    '(r, st) ← print_part (InMem str) len st;
    Ret (p + 1, va, add_len l r, st)
  else if c =? 99 (* c *) then
    '(a, va) ← va_arg va;
    '(r, st) ← print_part (Local [u8 a]) 1 st;
    Ret (p + 1, va, add_len l r, st)
  else if c =? 37 (* % *) then
    '(r, st) ← print_part (Local [37]) 1 st;
    Ret (p + 1, va, add_len l r, st)
  else if (c =? 100) || (c =? 105) (* d i *) then
    '(va, l, st) ← print_arg s32 flags va l st; Ret (p + 1, va, l, st)
  else if c =? 117 (* u *) then
    '(va, l, st) ← print_arg u32 (set_int flags 10 false false) va l st; Ret (p + 1, va, l, st)
  else if (c =? 88) || (c =? 120) (* X x *) then
    '(va, l, st) ← print_arg u32 (set_int flags 16 (c =? 88) false) va l st;
    Ret (p + 1, va, l, st)
  else if c =? 112 (* p *) then
    '(ptr, va) ← va_arg va;
    '(r, st) ← print_part (Local [48; 120]) 2 st;
    let l := add_len l r in
    '(r, st) ← print_integer ptr (set_int flags 16 false false) st;
    Ret (p + 1, va, add_len l r, st)
  else if c =? 108 (* l *) then
    let p := p + 1 in
    c ← load (snd st) p;
    if (c =? 100) || (c =? 105) then
      '(va, l, st) ← print_arg s64 flags va l st; Ret (p + 1, va, l, st)
    else if c =? 117 then
      '(va, l, st) ← print_arg u64 (set_int flags 10 false false) va l st; Ret (p + 1, va, l, st)
    else if (c =? 120) || (c =? 88) then
      '(va, l, st) ← print_arg u64 (set_int flags 16 (c =? 88) false) va l st;
      Ret (p + 1, va, l, st)
    else Ret (p, va, l, st)
  else Ret (p + 1, va, l, st).

(** What follows a '%': flags, width, precision, then the switch. *)
Definition print_spec (p : Z) (va : list Z) (l : Z) (st : pstate) : ctl (Z * list Z * Z * pstate) :=
  let m := snd st in
  let fuel := mem_fuel m in
  '(p, pad) ← skip_flags fuel m p 32;
  '(p, width) ← read_number fuel m p 0;
  c ← load m p;
  '(p, precision) ← (if c =? 46 then read_number fuel m (p + 1) 0 else Ret (p, -1));
  print_directive (mk_flags 10 false true pad width precision) p va l st.

Fixpoint print_loop (fuel : nat) (p : Z) (va : list Z) (l : Z) (st : pstate) : ctl (Z * pstate) :=
  match fuel with
  | O => NoFuel
  | S fuel =>
      c ← load (snd st) p;
      if c =? 0 then Ret (l, st)
      else
        let start := p in
        p ← skip_literal (mem_fuel (snd st)) (snd st) p;
        '(l, st) ← (if start <? p then
                      '(r, st) ← print_part (InMem start) (p - start) st;
                      Ret (add_len l r, st)
                    else Ret (l, st));
        c ← load (snd st) p;
        if negb (c =? 37) then Ret (l, st)
        else
          '(p, va, l, st) ← print_spec (p + 1) va l st;
          print_loop fuel p va l st
  end.

(** The NUL at the cursor of a buffer, then the result as an [int]. *)
Definition print_impl (targ : PrintTarget) (fmt : Z) (va : list Z) (m : mem) :
    ctl (Z * pstate) :=
  '(l, (targ, m)) ← print_loop (mem_fuel m) fmt va 0 (targ, m);
  m ← match targ with
      | ToBuffer len buf cursor => if cursor <? len then store m (buf + cursor) 0 else Ret m
      | ToFile _ => Ret m
      end;
  Ret (s32 l, (targ, m)).

(** * libc/stdio.c *)

Definition vsnprintf (s n format : Z) (arg : list Z) (m : mem) : ctl (Z * pstate) :=
  print_impl (ToBuffer n s 0) format arg m.

Definition snprintf (s n format : Z) (lst : list Z) (m : mem) : ctl (Z * pstate) :=
  print_impl (ToBuffer n s 0) format lst m.

Definition vfprintf (stream : FILE) (format : Z) (arg : list Z) (m : mem) : ctl (Z * pstate) :=
  print_impl (ToFile stream) format arg m.

Definition fprintf (stream : FILE) (format : Z) (lst : list Z) (m : mem) : ctl (Z * pstate) :=
  print_impl (ToFile stream) format lst m.

Definition printf (stdout : FILE) (format : Z) (lst : list Z) (m : mem) : ctl (Z * pstate) :=
  print_impl (ToFile stdout) format lst m.

(** [sprintf] leaves [len] and [cursor] uninitialised: they are what the stack
    held. *)
Definition sprintf (stack_len stack_cursor s format : Z) (lst : list Z) (m : mem) :
    ctl (Z * pstate) :=
  print_impl (ToBuffer stack_len s stack_cursor) format lst m.

(** [sscanf] calls [print_impl], on the string it should read. *)
Definition sscanf (stack_len stack_cursor str format : Z) (lst : list Z) (m : mem) :
    ctl (Z * pstate) :=
  print_impl (ToBuffer stack_len str stack_cursor) format lst m.

Definition putchar (c : Z) (stdout : FILE) : Z * FILE := (c, fwrite [u8 c] stdout).
Definition fputc (c : Z) (stream : FILE) : Z * FILE := (c, fwrite [u8 c] stream).
Definition putc (c : Z) (stream : FILE) : Z * FILE := (c, fwrite [u8 c] stream).

Definition fputs (str : Z) (stream : FILE) (m : mem) : ctl (Z * FILE) :=
  len ← strlen m str;
  d ← read_bytes (Z.to_nat len) m str;
  Ret (s32 len, fwrite d stream).

(** [fgetc]: the character, [None] for EOF. *)
Fixpoint fgets_loop (fgetc : FILE -> option Z * FILE) (k : nat) (str i : Z) (stream : FILE) (m : mem) :
    ctl (Z * FILE * mem) :=
  match k with
  | O => Ret (i, stream, m)
  | S k =>
      match fgetc stream with
      | (None, stream) => Ret (i, stream, m)
      | (Some c, stream) =>
          m ← store m (str + i) c;
          if c =? 10 then Ret (i + 1, stream, m) else fgets_loop fgetc k str (i + 1) stream m
      end
  end.
Definition fgets (fgetc : FILE -> option Z * FILE) (str n : Z) (stream : FILE) (m : mem) :
    ctl (Z * FILE * mem) :=
  '(i, stream, m) ← fgets_loop fgetc (Z.to_nat (u64 (n - 1))) str 0 stream m;
  m ← store m (str + i) 0;
  Ret (str, stream, m).
End printer.

Arguments ToFile {FILE} file.
Arguments ToBuffer {FILE} len buf cursor.
