(* ===== verification/LibcPrintSpec.v ===== *)
(** Correctness of the formatting routines: the text of an integer, the
    bounds of a buffer target, and the end of the format loop. *)

From stdpp Require Import gmap.
From S2P Require Import Prelude CMem LibcString LibcStdlib LibcPrint.

(** * The scratch buffer of print_integer

    It always holds a text [T] against its end, the pointer before it. *)

Definition scratch (T : list Z) : list Z * Z :=
  (replicate (63 - length T) 0 ++ T ++ [0], 62 - zlen T).

Lemma put_scratch c T :
  (length T <= 63)%nat ->
  put c (fst (scratch T)) (snd (scratch T)) =
    if decide (length T = 63)%nat then Trap else Ret (scratch (c :: T)).
Proof.
  intros HT. unfold put, scratch. cbn [fst snd]. case_decide as H63.
  - rewrite aset_out by lia. done.
  - rewrite aset_in_range by (len_simpl; simpl; lia). cbn [deref mbind ctl_bind].
    replace (Z.to_nat (62 - zlen T)) with (length (replicate (62 - length T) 0%Z))
      by (rewrite length_replicate; lia).
    replace (63 - length T)%nat with (62 - length T + 1)%nat by lia.
    rewrite replicate_add, <- app_assoc. simpl app.
    rewrite insert_app_r_alt by lia. rewrite Nat.sub_diag. simpl.
    do 2 f_equal. lia.
Qed.

Lemma put_n_scratch c n : forall T,
  (length T <= 63)%nat ->
  put_n n c (fst (scratch T)) (snd (scratch T)) =
    if decide (n + length T <= 63)%nat then Ret (scratch (replicate n c ++ T)) else Trap.
Proof.
  induction n as [|n IH]; intros T HT; cbn [put_n].
  - rewrite decide_True by lia. done.
  - rewrite put_scratch by done. destruct (decide (length T = 63)%nat).
    { rewrite decide_False by lia. done. }
    cbn [mbind ctl_bind]. destruct (scratch (c :: T)) as [b p] eqn:E.
    specialize (IH (c :: T)). rewrite E in IH. cbn [fst snd] in IH. rewrite IH by (simpl; lia).
    rewrite !length_cons. 
    assert (replicate n c ++ c :: T = replicate (S n) c ++ T) as ->
      by (rewrite replicate_S_end, <- app_assoc; done).
    repeat case_decide; (done || lia).
Qed.

(** The digits of [value] in front of [T]. *)
Fixpoint digits_text (fuel : nat) (b : Z) (up : bool) (value : Z) (T : list Z) : list Z :=
  match fuel with
  | O => T
  | S fuel =>
      if negb (0 <? value) then T
      else digits_text fuel b up (value / b) (digit_char up (value mod b) :: T)
  end.

Lemma digits_text_app fuel b up : forall v T,
  digits_text fuel b up v T = digits_text fuel b up v [] ++ T.
Proof.
  induction fuel as [|fuel IH]; intros v T; simpl; [done|].
  destruct (0 <? v); simpl; [|done]. rewrite IH, (IH _ [_]), <- app_assoc. done.
Qed.

Lemma digit_char_of b up d : 2 <= b <= 36 -> 0 <= d < b ->
  digit_of (digit_char up d) = Some d /\ (digit_char up d = 48 -> d = 0).
Proof.
  intros Hb Hd. unfold digit_of, digit_char. destruct (Z.ltb_spec d 10); [|destruct up];
    case_Z; simpl; split; intros; (lia || (f_equal; lia)).
Qed.

(** A fuel that is enough for 64-bit values in base [b]. *)
Lemma digits_text_spec b up fuel : forall v,
  2 <= b <= 36 -> 0 <= v < 2 ^ Z.of_nat fuel ->
  let ds := digits_text fuel b up v [] in
  digits_value b 0 ds = v /\ Forall (is_digit b) ds /\
  (0 < v -> exists d ds', ds = d :: ds' /\ d <> 48) /\
  (v = 0 -> ds = []).
Proof.
  induction fuel as [|fuel IH]; intros v Hb Hv; cbv zeta.
  { simpl in *. split_and!; [change (digits_value b 0 []) with 0; lia|constructor|lia|done]. }
  cbn [digits_text]. destruct (Z.ltb_spec 0 v) as [H0|H0]; cbn [negb].
  2:{ split_and!; [change (digits_value b 0 []) with 0; lia|constructor|lia|done]. }
  rewrite digits_text_app. destruct (IH (v / b)) as (E & Hd & Hpos & Hz); [done| |].
  { rewrite Nat2Z.inj_succ, Z.pow_succ_r in Hv by lia. split; [apply Z.div_pos; lia|].
    apply Z.div_lt_upper_bound; nia. }
  pose proof (Z.mod_pos_bound v b ltac:(lia)) as Hm.
  destruct (digit_char_of b up (v mod b) Hb Hm) as [Hdg H48].
  split_and!; [| | |lia].
  - unfold digits_value in *. rewrite fold_left_app, E. simpl. rewrite Hdg. simpl.
    rewrite Z.mul_comm. symmetry. apply Z.div_mod. lia.
  - apply Forall_app. split; [done|]. apply Forall_singleton. exists (v mod b). split; [done|lia].
  - intros _. destruct (decide (v / b = 0)) as [Ez|Ez].
    + rewrite (Hz Ez). eexists _, _. split; [done|]. intros E48. specialize (H48 E48).
      pose proof (Z.div_mod v b ltac:(lia)). nia.
    + destruct Hpos as (d & ds' & -> & Hne); [|by eexists _, _].
      pose proof (Z.div_pos v b ltac:(lia) ltac:(lia)). lia.
Qed.

Lemma put_digits_scratch b up fuel : forall v T,
  2 <= b -> 0 <= v < 2 ^ Z.of_nat fuel -> (length T <= 63)%nat ->
  put_digits (S fuel) b up v (fst (scratch T)) (snd (scratch T)) (zlen T) =
    let T' := digits_text (S fuel) b up v T in
    if decide (length T' <= 63)%nat
    then Ret (fst (scratch T'), snd (scratch T'), zlen T') else Trap.
Proof.
  induction fuel as [|fuel IH]; intros v T Hb Hv HT; cbv zeta.
  - assert (v = 0) as -> by (simpl in Hv; lia). cbn [put_digits digits_text].
    change (0 <? 0) with false. cbn [negb]. by rewrite decide_True by lia.
  - remember (S fuel) as f eqn:Ef. cbn [put_digits digits_text].
    destruct (Z.ltb_spec 0 v); cbn [negb]; [|by rewrite decide_True by lia].
    rewrite put_scratch by done. destruct (decide (length T = 63)%nat) as [E|E].
    { rewrite decide_False; [done|]. rewrite digits_text_app, length_app. simpl. lia. }
    cbn [mbind ctl_bind]. set (T1 := digit_char up (v mod b) :: T).
    specialize (IH (v / b) T1 Hb). cbv zeta in IH.
    replace (zlen T1) with (zlen T + 1) in IH by (unfold T1; simpl; lia).
    destruct (scratch T1) as [bf p] eqn:Es. cbn [fst snd] in IH. apply IH; [|unfold T1; simpl; lia].
    rewrite Ef, Nat2Z.inj_succ, Z.pow_succ_r in Hv by lia.
    split; [apply Z.div_pos; lia|]. apply Z.div_lt_upper_bound; [lia|]. rewrite Ef in *. nia.
Qed.

Lemma local_strlen_spec T rest : Forall (fun b => b <> 0) T -> local_strlen (T ++ 0 :: rest) = Ret (zlen T).
Proof.
  induction 1 as [|b T Hb _ IH]; [done|]. simpl app. cbn [local_strlen].
  rewrite (proj2 (Z.eqb_neq _ _) Hb), IH. cbn [mbind ctl_bind]. f_equal. rewrite length_cons. lia.
Qed.

Lemma drop_scratch T : (length T <= 63)%nat ->
  drop (Z.to_nat (snd (scratch T) + 1)) (fst (scratch T)) = T ++ [0].
Proof.
  intros HT. unfold scratch. cbn [fst snd].
  replace (Z.to_nat (62 - zlen T + 1)) with (length (replicate (63 - length T) 0))
    by (rewrite length_replicate; lia).
  by rewrite drop_app_length.
Qed.

(** The text of a number, as the manual of printf says it. *)
Definition negative (v : Z) (flags : PrintIntegerFlags) : bool := is_signed flags && (s64 v <? 0).

Definition magnitude (v : Z) (flags : PrintIntegerFlags) : Z :=
  if negative v flags then - s64 v else v.

Definition number_digits (v : Z) (flags : PrintIntegerFlags) : list Z :=
  let mag := magnitude v flags in
  if mag =? 0 then [48] else digits_text 65 (base flags) (uppercase flags) mag [].

Definition number_body (v : Z) (flags : PrintIntegerFlags) : list Z :=
  let ds := number_digits v flags in
  (if negative v flags then [45] else [])
    ++ replicate (Z.to_nat (precision flags - zlen ds)) 48 ++ ds.

Definition number_text (v : Z) (flags : PrintIntegerFlags) : list Z :=
  let body := number_body v flags in
  replicate (Z.to_nat (width flags - zlen body)) (pad_char flags) ++ body.

(** What a call of [print_integer] can be given. *)
Definition flags_ok (v : Z) (flags : PrintIntegerFlags) : Prop :=
  2 <= base flags <= 36 /\ 0 < pad_char flags < 256 /\ 0 <= v < 2 ^ 64 /\
  (negative v flags = true -> s64 v <> LONG_MIN).

Lemma magnitude_range v flags : flags_ok v flags -> 0 <= magnitude v flags < 2 ^ 64.
Proof.
  intros (_ & _ & Hv & _). unfold magnitude. destruct (negative v flags) eqn:E; [|done].
  apply andb_true_iff in E as [_ E%Z.ltb_lt]. pose proof (wraps_range 64 v ltac:(lia)). lia.
Qed.

Lemma number_digits_nonzero v flags :
  flags_ok v flags -> Forall (is_digit (base flags)) (number_digits v flags).
Proof.
  intros Hok. pose proof (magnitude_range _ _ Hok) as Hm. destruct Hok as (Hb & _).
  unfold number_digits. case_match.
  - apply Forall_singleton. exists 0. split; [done|lia].
  - apply digits_text_spec; [done|]. lia.
Qed.

Lemma digit_ne_0 b d : is_digit b d -> d <> 0.
Proof. intros (v & Hv & _). apply digit_of_range in Hv as [_ ?]. lia. Qed.

Lemma number_body_nonzero v flags :
  flags_ok v flags -> Forall (fun b => b <> 0) (number_body v flags).
Proof.
  intros Hok. unfold number_body. apply Forall_app. split.
  - destruct (negative _ _); [by apply Forall_singleton|constructor].
  - apply Forall_app. split; [by apply Forall_replicate|].
    eapply Forall_impl; [by apply number_digits_nonzero|]. intros d. apply digit_ne_0.
Qed.

(** [format_integer] after its digits, on any digits [ds]. *)
Lemma format_tail ds (neg : bool) flags :
  (length ds <= 63)%nat -> 0 < pad_char flags -> Forall (fun b => b <> 0) ds ->
  let body := (if neg then [45] else [])
    ++ replicate (Z.to_nat (precision flags - zlen ds)) 48 ++ ds in
  let text := replicate (Z.to_nat (width flags - zlen body)) (pad_char flags) ++ body in
  ('(buf, ptr) ← put_n (Z.to_nat (precision flags - zlen ds)) 48 (fst (scratch ds)) (snd (scratch ds));
   '(buf, ptr) ← (if neg then put 45 buf ptr else Ret (buf, ptr));
   len ← local_strlen (drop (Z.to_nat (ptr + 1)) buf);
   '(buf, ptr) ← put_n (Z.to_nat (width flags - len)) (pad_char flags) buf ptr;
   len ← local_strlen (drop (Z.to_nat (ptr + 1)) buf);
   Ret (take (Z.to_nat len) (drop (Z.to_nat (ptr + 1)) buf)))
  = if decide (length text <= 63)%nat then Ret text else Trap.
Proof.
  intros Hds Hpad Hnz body text. rewrite put_n_scratch by done.
  set (z := Z.to_nat (precision flags - zlen ds)) in *.
  assert (length text = Z.to_nat (width flags - zlen body) + length body)%nat as Ht
    by (unfold text; len_lia).
  assert (length body = (if neg then 1 else 0) + (z + length ds))%nat as Hb
    by (unfold body; destruct neg; len_lia).
  destruct (decide (z + length ds <= 63)%nat) as [H1|H1].
  2:{ cbn [mbind ctl_bind]. rewrite decide_False by lia. done. }
  set (T1 := replicate z 48 ++ ds). assert (length T1 = z + length ds)%nat as Hl1 by (unfold T1; len_lia).
  cbn [mbind ctl_bind]. destruct (scratch T1) as [b1 p1] eqn:E1.
  assert ((if neg then put 45 b1 p1 else Ret (b1, p1))
          = if decide (length body <= 63)%nat then Ret (scratch body) else Trap) as ->.
  { destruct neg.
    - pose proof (put_scratch 45 T1) as Hp. rewrite E1 in Hp. cbn [fst snd] in Hp.
      rewrite Hp by lia. case_decide; case_decide; try lia; done.
    - rewrite decide_True by lia. by rewrite <- E1. }
  destruct (decide (length body <= 63)%nat) as [H2|H2].
  2:{ rewrite decide_False by lia. done. }
  cbn [mbind ctl_bind]. destruct (scratch body) as [b2 p2] eqn:E2.
  pose proof (drop_scratch body H2) as D2. rewrite E2 in D2. cbn [fst snd] in D2. rewrite D2.
  assert (Forall (fun b => b <> 0) body) as Hbn.
  { unfold body. apply Forall_app. split; [destruct neg; [by apply Forall_singleton|constructor]|].
    apply Forall_app. split; [by apply Forall_replicate|done]. }
  rewrite (local_strlen_spec body []) by done. cbn [mbind ctl_bind].
  pose proof (put_n_scratch (pad_char flags) (Z.to_nat (width flags - zlen body)) body H2) as Hp.
  rewrite E2 in Hp. cbn [fst snd] in Hp. rewrite Hp. fold text.
  destruct (decide (length text <= 63)%nat) as [H3|H3].
  2:{ rewrite decide_False by lia. done. }
  rewrite decide_True by lia. cbn [mbind ctl_bind]. destruct (scratch text) as [b3 p3] eqn:E3.
  pose proof (drop_scratch text H3) as D3. rewrite E3 in D3. cbn [fst snd] in D3. rewrite D3.
  rewrite (local_strlen_spec text []).
  2:{ unfold text. apply Forall_app. split; [apply Forall_replicate; lia|done]. }
  cbn [mbind ctl_bind]. by rewrite Nat2Z.id, take_app_length.
Qed.

Lemma format_integer_text v flags :
  flags_ok v flags ->
  format_integer v flags =
    if decide (length (number_text v flags) <= 63)%nat then Ret (number_text v flags) else Trap.
Proof.
  intros Hok. pose proof (magnitude_range _ _ Hok) as Hm.
  pose proof (number_digits_nonzero _ _ Hok) as Hnd.
  destruct Hok as (Hb & Hpad & Hv & Hmin). unfold format_integer. cbv zeta. fold (negative v flags).
  assert ((if negative v flags
           then if s64 v =? LONG_MIN then Trap else Ret (u64 (- s64 v)) else Ret v)
          = Ret (magnitude v flags)) as ->.
  { unfold magnitude in *. destruct (negative v flags); [|done].
    rewrite (proj2 (Z.eqb_neq _ _)) by auto. by rewrite wrapu_small. }
  cbn [mbind ctl_bind].
  assert ((if magnitude v flags =? 0
           then '(buf, ptr) ← put 48 (replicate 64 0) 62; Ret (buf, ptr, 1)
           else put_digits 65 (base flags) (uppercase flags) (magnitude v flags) (replicate 64 0) 62 0)
          = if decide (length (number_digits v flags) <= 63)%nat
            then Ret (fst (scratch (number_digits v flags)), snd (scratch (number_digits v flags)),
                      zlen (number_digits v flags)) else Trap) as ->.
  { unfold number_digits. destruct (magnitude v flags =? 0); [done|].
    apply (put_digits_scratch (base flags) (uppercase flags) 64 _ []); [lia|done|simpl; lia]. }
  destruct (decide (length (number_digits v flags) <= 63)%nat) as [Hl|Hl].
  - cbn [mbind ctl_bind]. apply format_tail; [done|lia|].
    eapply Forall_impl; [exact Hnd|]. intros d. apply digit_ne_0.
  - rewrite decide_False; [done|]. unfold number_text, number_body. len_lia.
Qed.

(** * Scans of the format *)

Ltac scan_load :=
  eapply ends_bind; [apply ends_load|]; intros ? ?; cbv beta.

Lemma skip_literal_ends m fuel : forall p,
  (avail m p < fuel)%nat -> ends (fun q => p <= q) (skip_literal fuel m p).
Proof.
  induction fuel as [|fuel IH]; intros p Hf; [lia|]. cbn [skip_literal]. scan_load.
  destruct (_ || _); [simpl; lia|]. eapply ends_impl; [apply IH|simpl; lia].
  pose proof (avail_step m p a H). lia.
Qed.

Lemma skip_literal_room m fuel : forall p q, skip_literal fuel m p = Ret q -> q <= p + Z.of_nat fuel.
Proof.
  induction fuel as [|fuel IH]; intros p q; [done|]. cbn [skip_literal].
  destruct (load m p); cbn [mbind ctl_bind]; [|done..]. destruct (_ || _); [intros [= ->]; lia|].
  intros E. apply IH in E. lia.
Qed.

Lemma skip_flags_ends m fuel : forall p pad,
  (avail m p < fuel)%nat -> pad = 32 \/ pad = 48 ->
  ends (fun '(q, pad) => p <= q /\ (pad = 32 \/ pad = 48)) (skip_flags fuel m p pad).
Proof.
  induction fuel as [|fuel IH]; intros p pad Hf Hp; [lia|]. cbn [skip_flags]. scan_load.
  destruct (_ || _); [|simpl; split; [lia|done]].
  eapply ends_impl; [apply IH|intros [q pd]; simpl; intros [? ?]; split; [lia|done]].
  - pose proof (avail_step m p a H). lia.
  - destruct (_ =? _); auto.
Qed.

Lemma read_number_ends m fuel : forall p v,
  (avail m p < fuel)%nat -> ends (fun '(q, _) => p <= q) (read_number fuel m p v).
Proof.
  induction fuel as [|fuel IH]; intros p v Hf; [lia|]. cbn [read_number]. scan_load.
  destruct (_ && _); [|simpl; lia]. cbv zeta. destruct (_ <? _); [done|].
  eapply ends_impl; [apply IH|intros [q ?]; simpl; lia].
  pose proof (avail_step m p a H). lia.
Qed.

Lemma strlen_loop_ends m fuel : forall s k,
  (avail m (s + k) < fuel)%nat -> ends (fun n => k <= n) (strlen_loop fuel m s k).
Proof.
  induction fuel as [|fuel IH]; intros s k Hf; [lia|]. cbn [strlen_loop]. scan_load.
  destruct (_ =? 0); [simpl; lia|]. eapply ends_impl; [apply IH|simpl; lia].
  pose proof (avail_step m (s + k) a H). replace (s + (k + 1)) with (s + k + 1) by lia. lia.
Qed.

Lemma strlen_ends m s : ends (fun n => 0 <= n) (strlen m s).
Proof. apply strlen_loop_ends. rewrite Z.add_0_r. apply avail_le. Qed.

(** * Writes of a buffer target *)

Section bounds.
Context {FILE : Type} (fwrite : list Z -> FILE -> FILE).
Implicit Types st : @pstate FILE.

(** Every address outside [buf .. buf + len) is as in [m0], and the cursor is
    inside the buffer. *)
Definition confined (m0 : mem) (len buf : Z) st : Prop :=
  exists cursor m, st = (ToBuffer len buf cursor, m) /\ 0 <= cursor < len /\ dom m = dom m0 /\
    forall x, outside buf len x -> m !! x = m0 !! x.

Lemma read_bytes_ends m n : forall a, ends (fun l => length l = n /\ bytes_at m a l) (read_bytes n m a).
Proof.
  induction n as [|n IH]; intros a; cbn [read_bytes]; [done|]. scan_load.
  eapply ends_bind; [apply IH|]. intros l [Hl Hm]. simpl. split; [lia|done].
Qed.

Lemma fetch_ends data n m : 0 <= n ->
  ends (fun l => zlen l = n /\ (forall a, data = InMem a -> (length l <= size m)%nat)
                 /\ (forall d, data = Local d -> n <= zlen d)) (fetch data n m).
Proof.
  intros Hn. unfold fetch. destruct data as [a|d].
  - eapply ends_impl; [apply read_bytes_ends|]. intros l [Hl Hm]. cbv beta.
    split; [lia|]. split; [|done]. intros b [= ->]. by eapply bytes_at_size.
  - destruct (Z.leb_spec n (zlen d)); [|done]. simpl. split; [rewrite length_take; lia|].
    split; [done|]. intros d' [= ->]. done.
Qed.

Lemma store_bytes_ends l : forall a m,
  ends (fun m' => dom m' = dom m /\ forall x, outside a (zlen l) x -> m' !! x = m !! x)
    (store_bytes l a m).
Proof.
  induction l as [|b l IH]; intros a m; cbn [store_bytes]; [done|].
  eapply ends_bind; [apply ends_store|]. intros m1 [Hd Ho].
  eapply ends_impl; [apply IH|]. cbv beta. intros m2 [Hd2 Ho2]. split; [congruence|].
  intros x Hx. unfold outside in *. rewrite length_cons in Hx. rewrite Ho2 by lia. apply Ho. lia.
Qed.

(** What a caller gives as [data_len]. *)
Definition small (m0 : mem) : Prop := Z.of_nat (size m0) < 2 ^ 62.

Lemma print_part_ends m0 len buf data n st :
  small m0 -> len <= 2 ^ 62 -> 0 <= n -> (forall d, data = Local d -> zlen d <= 64) ->
  confined m0 len buf st ->
  ends (fun '(_, st') => confined m0 len buf st') (print_part fwrite data n st).
Proof.
  intros Hm0 Hlen Hn Hd (cur & m & -> & Hcur & Hdom & Hout). unfold print_part.
  set (k := if len <=? u64 (cur + n) then u64 (u64 (len - cur) - 1) else n).
  assert (0 <= k /\ (k = len - cur - 1 \/ (k = n /\ u64 (cur + n) < len))) as [Hk0 Hk].
  { unfold k. rewrite (wrapu_small 64 (len - cur)), (wrapu_small 64 (len - cur - 1)) by lia.
    destruct (Z.leb_spec len (u64 (cur + n))); lia. }
  destruct (Z.ltb_spec 0 k) as [Hpos|]; [|simpl; by exists cur, m].
  eapply ends_bind; [by apply fetch_ends|]. intros l (Hl & Hmem & Hloc). cbv beta.
  assert (k < len - cur) as Hfit.
  { destruct Hk as [->|[-> Hw]]; [lia|]. rewrite wrapu_small in Hw; [lia|].
    unfold small in Hm0. destruct data as [a|d].
    - specialize (Hmem a eq_refl). rewrite <- size_dom, Hdom, size_dom in Hmem. lia.
    - specialize (Hd d eq_refl). specialize (Hloc d eq_refl). lia. }
  eapply ends_bind; [apply store_bytes_ends|]. intros m' [Hdm Hom]. simpl.
  exists (u64 (cur + k)), m'. rewrite wrapu_small by lia. split; [done|]. split; [lia|].
  split; [congruence|]. intros x Hx. unfold outside in *. rewrite Hom by (rewrite Hl; lia). by apply Hout.
Qed.

Lemma format_integer_ends v flags :
  2 <= base flags <= 36 -> 0 < pad_char flags < 256 -> 0 <= v < 2 ^ 64 ->
  ends (fun text => zlen text <= 63) (format_integer v flags).
Proof.
  intros Hb Hp Hv. destruct (decide (negative v flags = true /\ s64 v = LONG_MIN)) as [[Hn Hmin]|Hno].
  - unfold format_integer. cbv zeta. fold (negative v flags). rewrite Hn, Hmin. done.
  - rewrite format_integer_text; [case_decide; simpl; [lia|done]|].
    split_and!; try lia. intros Hn E. by apply Hno.
Qed.

Lemma print_integer_ends m0 len buf v flags st :
  small m0 -> len <= 2 ^ 62 -> 2 <= base flags <= 36 -> 0 < pad_char flags < 256 -> 0 <= v < 2 ^ 64 ->
  confined m0 len buf st ->
  ends (fun '(_, st') => confined m0 len buf st') (print_integer fwrite v flags st).
Proof.
  intros Hm0 Hlen Hb Hp Hv Hst. unfold print_integer.
  eapply ends_bind; [by apply format_integer_ends|]. intros text Ht.
  apply print_part_ends; [done..|lia| |done]. intros d [= ->]. lia.
Qed.

(** * The format loop *)

Definition slots (va : list Z) : Prop := Forall (fun a => 0 <= a < 2 ^ 64) va.

Lemma va_arg_ends va : slots va -> ends (fun '(a, va') => 0 <= a < 2 ^ 64 /\ slots va') (va_arg va).
Proof. destruct 1; simpl; done. Qed.

Definition good_flags (flags : PrintIntegerFlags) : Prop :=
  2 <= base flags <= 36 /\ 0 < pad_char flags < 256.

(** The outcome of a directive: [p] has moved past [q]. *)
Definition directive_ok (m0 : mem) (len buf q : Z) (r : Z * list Z * Z * @pstate FILE) : Prop :=
  let '(p, va, _, st) := r in q < p /\ slots va /\ confined m0 len buf st.

Section loop.
Context (m0 : mem) (len buf : Z) (Hm0 : small m0) (Hlen : len <= 2 ^ 62).

Lemma print_arg_ends conv flags va l st :
  good_flags flags -> slots va -> confined m0 len buf st ->
  ends (fun '(va', _, st') => slots va' /\ confined m0 len buf st')
    (print_arg fwrite conv flags va l st).
Proof.
  intros [Hb Hp] Hva Hst. unfold print_arg.
  eapply ends_bind; [by apply va_arg_ends|]. intros [a va'] [Ha Hva'].
  eapply ends_bind; [apply (print_integer_ends m0 len buf)|intros [r st'] Hst'; done]; try done.
  by apply wrapu_range.
Qed.

(** An integer case of the switch. *)
Lemma integer_case_ends conv flags p q va l st :
  q < p -> good_flags flags -> slots va -> confined m0 len buf st ->
  ends (directive_ok m0 len buf q)
    ('(va, l, st) ← print_arg fwrite conv flags va l st; Ret (p, va, l, st)).
Proof.
  intros Hq Hf Hva Hst. eapply ends_bind; [by apply print_arg_ends|].
  intros [[va' l'] st'] [? ?]. done.
Qed.

(** A case that prints part of a text. *)
Lemma text_case_ends data n p q va l st :
  q < p -> 0 <= n -> (forall d, data = Local d -> zlen d <= 64) -> slots va ->
  confined m0 len buf st ->
  ends (directive_ok m0 len buf q)
    ('(r, st) ← print_part fwrite data n st; Ret (p, va, add_len l r, st)).
Proof.
  intros Hq Hn Hd Hva Hst. eapply ends_bind; [by eapply print_part_ends|].
  intros [r st'] ?. done.
Qed.

Lemma print_directive_ends flags p va l st :
  good_flags flags -> slots va -> confined m0 len buf st ->
  ends (directive_ok m0 len buf p) (print_directive fwrite flags p va l st).
Proof.
  intros Hf Hva Hst. assert (forall b up sg, 2 <= b <= 36 -> good_flags (set_int flags b up sg)) as Hset
    by (intros; split; [done|apply Hf]).
  assert (forall (l0 d : list Z), zlen l0 <= 64 -> Local l0 = Local d -> zlen d <= 64) as Hloc
    by (intros l0 d Hl [= <-]; done).
  unfold print_directive. cbv zeta. scan_load.
  destruct (_ =? 115).
  { eapply ends_bind; [by apply va_arg_ends|]. intros [str va'] [_ Hva'].
    eapply ends_bind; [apply strlen_ends|]. cbv beta. intros n Hn.
    apply text_case_ends; try done; [lia|].
    destruct (Z.leb_spec 0 (precision flags)); destruct (_ <? n); simpl; lia. }
  destruct (_ =? 99).
  { eapply ends_bind; [by apply va_arg_ends|]. intros [c va'] [_ Hva'].
    apply text_case_ends; try done; [lia|]. intros d. by apply Hloc. }
  destruct (_ =? 37).
  { apply text_case_ends; try done; [lia|]. intros d. by apply Hloc. }
  destruct (_ || _); [apply integer_case_ends; (done || lia)|].
  destruct (_ =? 117); [apply integer_case_ends; try done; [lia|apply Hset; lia]|].
  destruct (_ || _); [apply integer_case_ends; try done; [lia|apply Hset; lia]|].
  destruct (_ =? 112).
  { eapply ends_bind; [by apply va_arg_ends|]. intros [ptr va'] [Hptr Hva'].
    eapply ends_bind; [eapply (print_part_ends m0 len buf); [done..|lia| |done]|].
    { intros d. by apply Hloc. }
    intros [r st1] Hst1. eapply ends_bind; [apply (print_integer_ends m0 len buf); [done|done|simpl; lia|apply Hf|done|done]|].
    intros [r2 st2] Hst2. simpl. split; [lia|done]. }
  destruct (_ =? 108); [|simpl; split; [lia|done]].
  scan_load. destruct (_ || _); [apply integer_case_ends; (done || lia)|].
  destruct (_ =? 117); [apply integer_case_ends; try done; [lia|apply Hset; lia]|].
  destruct (_ || _); [apply integer_case_ends; try done; [lia|apply Hset; lia]|].
  simpl. split; [lia|done].
Qed.

Lemma print_spec_ends p va l st :
  slots va -> confined m0 len buf st ->
  ends (directive_ok m0 len buf p) (print_spec fwrite p va l st).
Proof.
  intros Hva Hst. unfold print_spec. cbv zeta.
  eapply ends_bind; [apply skip_flags_ends; [apply avail_le|by left]|]. intros [p1 pad] [Hp1 Hpad].
  eapply ends_bind; [apply read_number_ends, avail_le|]. intros [p2 w] Hp2. scan_load.
  apply (ends_bind (fun '(p3, _) => p2 <= p3)).
  { destruct (_ =? 46); [|simpl; lia].
    eapply ends_impl; [apply read_number_ends, avail_le|]. intros [? ?]. cbv beta iota. lia. }
  intros [p3 pr] Hp3. eapply ends_impl; [apply print_directive_ends; [|done..]|].
  - split; simpl; [lia|]. destruct Hpad; lia.
  - intros [[[p4 va4] l4] st4] (? & ? & ?). split; [lia|done].
Qed.

Lemma print_loop_ends fuel : forall p va l st,
  (avail m0 p < fuel)%nat -> slots va -> confined m0 len buf st ->
  ends (fun '(_, st') => confined m0 len buf st') (print_loop fwrite fuel p va l st).
Proof.
  induction fuel as [|fuel IH]; intros p va l st Hf Hva Hst; [lia|]. cbn [print_loop].
  assert (dom (snd st) = dom m0) as Hdom by by destruct Hst as (? & ? & -> & _ & ? & _).
  scan_load. destruct (_ =? 0); [done|]. pose proof (avail_step _ _ _ H) as Hlt.
  rewrite !(avail_dom _ _ _ Hdom) in Hlt.
  eapply ends_bind; [apply skip_literal_ends, avail_le|]. cbv beta. intros p1 Hp1.
  apply (ends_bind (fun '(_, st') => confined m0 len buf st')).
  { destruct (Z.ltb_spec p p1); [|done].
    eapply ends_bind; [eapply (print_part_ends m0 len buf); [done|done|lia|intros ? ?; discriminate|done]|]. intros [? ?] ?. done. }
  intros [l1 st1] Hst1. scan_load. destruct (negb _); [done|].
  eapply ends_bind; [by apply print_spec_ends|]. intros [[[p2 va2] l2] st2] (Hp2 & Hva2 & Hst2).
  apply IH; [|done..]. pose proof (avail_mono m0 (p + 1) p2). lia.
Qed.
End loop.
End bounds.

(** * Properties *)

(** for every integer but the least [long], [print_integer] prints the
    digits of the absolute value in the base (their value is that number, the
    first one is not 0 unless it is the only one), zeros up to the precision,
    the sign, and the padding up to the width; a text longer than the 63
    characters of its scratch buffer overflows it. *)
Theorem print_integer_prints_number (v : Z) (flags : PrintIntegerFlags) :
  flags_ok v flags ->
  format_integer v flags =
    (if decide (length (number_text v flags) <= 63)%nat then Ret (number_text v flags) else Trap) /\
  number_text v flags =
    replicate (Z.to_nat (width flags - zlen (number_body v flags))) (pad_char flags) ++
    (if negative v flags then [45] else []) ++
    replicate (Z.to_nat (precision flags - zlen (number_digits v flags))) 48 ++
    number_digits v flags /\
  digits_value (base flags) 0 (number_digits v flags) = magnitude v flags /\
  Forall (is_digit (base flags)) (number_digits v flags) /\
  (magnitude v flags <> 0 -> exists d ds, number_digits v flags = d :: ds /\ d <> 48).
Proof.
  intros Hok. split; [by apply format_integer_text|]. split; [done|].
  pose proof (magnitude_range _ _ Hok) as Hm. pose proof (number_digits_nonzero _ _ Hok) as Hd.
  destruct Hok as (Hb & _). unfold number_digits in *.
  destruct (digits_text_spec (base flags) (uppercase flags) 65 (magnitude v flags) Hb) as (H1 & _ & H2 & _);
    [lia|].
  destruct (Z.eqb_spec (magnitude v flags) 0) as [E|E]; [|split_and!; [done..|]; intros _; apply H2; lia].
  rewrite E. split_and!; [done..|]. lia.
Qed.

(** what [print_integer] prints for a number other than 0, in a decimal or
    other signed conversion with no padding but spaces, [strtoll] reads back:
    the same number, up to the end of the text. *)
Theorem print_then_parse (v : Z) (flags : PrintIntegerFlags) (m : mem) (a c : Z) :
  flags_ok v flags -> is_signed flags = true -> pad_char flags = 32 ->
  precision flags <= 1 -> s64 v <> 0 -> (length (number_text v flags) <= 63)%nat ->
  bytes_at m a (number_text v flags ++ [c]) -> stops (base flags) c ->
  exists text, format_integer v flags = Ret text /\
    strtoll m a (base flags) = Ret (s64 v, a + zlen text).
Proof.
  intros Hok Hs Hpad Hprec Hne Hlen Hm Hc. exists (number_text v flags).
  rewrite format_integer_text, decide_True by done. split; [done|].
  pose proof (magnitude_range _ _ Hok) as Hmag. pose proof (number_digits_nonzero _ _ Hok) as Hd.
  destruct Hok as (Hb & _ & Hv & Hmin). pose proof (wraps_range 64 v ltac:(lia)) as Hw.
  assert (magnitude v flags <> 0 /\ magnitude v flags <= LONG_MAX /\
          (if negative v flags then -1 else 1) * magnitude v flags = s64 v) as (Hnz & Hmax & Hval).
  { unfold magnitude, negative in *. rewrite Hs in *. cbn [andb] in *.
    destruct (Z.ltb_spec (s64 v) 0) as [Hlt|Hge].
    - specialize (Hmin eq_refl). unfold LONG_MIN, LONG_MAX in *. lia.
    - assert (s64 v = v) as E; [|unfold LONG_MAX; lia].
      apply wraps_small; [lia|]. destruct (decide (v < 2 ^ 63)); [lia|exfalso].
      unfold wraps in Hge. replace (v + 2 ^ (64 - 1)) with ((v - 2 ^ 63) + 1 * 2 ^ 64) in Hge by lia.
      rewrite Z.mod_add, Z.mod_small in Hge by lia. lia. }
  destruct (digits_text_spec (base flags) (uppercase flags) 65 (magnitude v flags) Hb) as (H1 & _ & H2 & _);
    [lia|]. destruct H2 as (d & ds & Eds & Hd48); [lia|].
  unfold number_text, number_body, number_digits in *.
  rewrite (proj2 (Z.eqb_neq _ _) Hnz) in *. rewrite Eds in *.
  assert (Z.to_nat (precision flags - zlen (d :: ds)) = 0)%nat as Hz by (rewrite length_cons; lia).
  rewrite Hz in *. cbn [replicate app] in *.
  set (sg := if negative v flags then [45] else []) in *.
  set (ws := replicate _ (pad_char flags)) in *.
  rewrite (strtoll_number m a (base flags) (if negative v flags then -1 else 1) d c ws sg ds);
    [|done| | |by unfold sg; destruct (negative v flags)|done|done|done].
  - rewrite H1. rewrite (proj2 (Z.leb_le _ _)) by done. rewrite Hval. do 2 f_equal.
    rewrite !length_app. lia.
  - by rewrite <- !app_assoc in Hm.
  - unfold ws. rewrite Hpad. by apply Forall_replicate.
Qed.

(** C38: whatever the format and the arguments, [snprintf] with a buffer of [n] bytes,
    at least one and at most 2^62, ends (or reaches an undefined access) and writes only inside these
    bytes, which then hold a NUL at the cursor. With [n] = 0 it copies 2^64 - 1 bytes
    over what is at the buffer, from the first character on
    ([snprintf_without_room_overruns]). *)
Theorem snprintf_stays_in_buffer {FILE} (fwrite : list Z -> FILE -> FILE) (s n format : Z)
    (lst : list Z) (m : mem) :
  small m -> 0 < n <= 2 ^ 62 -> slots lst ->
  match snprintf fwrite s n format lst m with
  | Ret (_, (targ, m')) => exists cursor, targ = ToBuffer n s cursor /\ 0 <= cursor < n /\
      m' !! (s + cursor) = Some 0 /\ dom m' = dom m /\
      forall x, x < s \/ s + n <= x -> m' !! x = m !! x
  | Trap => True
  | NoFuel => False
  end.
Proof.
  intros Hm Hn Hva. unfold snprintf, print_impl.
  assert (confined m n s (@ToBuffer FILE n s 0, m)) as Hst by (by exists 0, m; split_and!; [|lia|lia| |]).
  pose proof (print_loop_ends fwrite m n s Hm ltac:(lia) (mem_fuel m) format lst 0 _ (avail_le _ _) Hva Hst) as H.
  destruct (print_loop _ _ _ _ _ _) as [[l st]| |]; [|done|done]. simpl in H.
  destruct H as (cur & m1 & -> & Hcur & Hdom & Hout). cbn [mbind ctl_bind].
  rewrite (proj2 (Z.ltb_lt _ _)) by lia. unfold store.
  destruct (m1 !! (s + cur)) eqn:E; [|done]. cbn [mbind ctl_bind].
  exists cur. split_and!; [done|lia|lia|by rewrite lookup_insert_eq| |].
  - rewrite dom_insert_L, <- Hdom. apply subseteq_union_1_L, singleton_subseteq_l, elem_of_dom. by exists z.
  - intros x Hx. rewrite lookup_insert_ne by lia. by apply Hout.
Qed.

(** A buffer of no byte: [len - cursor - 1] is 2^64 - 1 bytes, of whatever is to be
    printed. *)
Lemma print_part_without_room {FILE} (fwrite : list Z -> FILE -> FILE) data n s (m : mem) :
  small m -> (forall d, data = Local d -> zlen d <= 64) ->
  0 <= n < 2 ^ 64 -> print_part fwrite data n (ToBuffer 0 s 0, m) = Trap.
Proof.
  intros Hm Hd Hn. unfold print_part. rewrite (proj2 (Z.leb_le 0 _)) by (apply Z.mod_pos_bound; lia).
  assert (exists k, u64 (u64 (0 - 0) - 1) = k /\ 2 ^ 63 < k) as (k & -> & Hk) by (eexists; split; [reflexivity|]; by vm_compute).
  rewrite (proj2 (Z.ltb_lt 0 k)) by lia. pose proof (fetch_ends data k m ltac:(lia)) as H.
  destruct (fetch data k m) as [l| |]; [exfalso|done|done]. destruct H as (Hl & Hmem & Hloc). unfold small in Hm.
  destruct data as [a|d]; [specialize (Hmem a eq_refl)|specialize (Hd d eq_refl); specialize (Hloc d eq_refl)]; lia.
Qed.

(** [snprintf] with no room: a first character that is printed as it is makes it copy
    2^64 - 1 bytes to the buffer. *)
Theorem snprintf_without_room_overruns {FILE} (fwrite : list Z -> FILE -> FILE) (s format c : Z)
    (lst : list Z) (m : mem) :
  small m -> m !! format = Some c -> c <> 0 -> c <> 37 -> snprintf fwrite s 0 format lst m = Trap.
Proof.
  intros Hm Hc H0 H37. unfold snprintf, print_impl.
  pose proof (avail_step m format c Hc) as Hs. pose proof (avail_le m format) as Hle.
  assert (exists fuel, mem_fuel m = S fuel /\ fuel = size m) as (fuel & Ef & Hfuel) by (by eexists).
  rewrite Ef in *. cbn [print_loop snd]. rewrite (load_Some _ _ _ Hc). cbn [mbind ctl_bind]. rewrite (proj2 (Z.eqb_neq c 0)) by done.
  rewrite Ef. cbn [skip_literal]. rewrite (load_Some _ _ _ Hc). cbn [mbind ctl_bind].
  rewrite (proj2 (Z.eqb_neq c 0)), (proj2 (Z.eqb_neq c 37)) by done. cbn [orb].
  pose proof (skip_literal_ends m fuel (format + 1) ltac:(lia)) as H.
  pose proof (skip_literal_room m fuel (format + 1)) as Hr.
  destruct (skip_literal fuel m (format + 1)) as [p| |]; [|done|done]. cbn [mbind ctl_bind]. simpl in H.
  rewrite (proj2 (Z.ltb_lt format p)) by lia. rewrite print_part_without_room; [done|done|done|].
  specialize (Hr p eq_refl). unfold small in Hm. lia.
Qed.

(** A format that ends in '%' is read past its terminator: the switch's
    default case skips the NUL. *)
Theorem printf_trailing_percent_overruns {FILE} (fwrite : list Z -> FILE -> FILE) (stdout : FILE)
    (format : Z) (m : mem) :
  m !! format = Some 37 -> m !! (format + 1) = Some 0 -> m !! (format + 2) = None ->
  printf fwrite stdout format [] m = Trap.
Proof.
  intros H0 H1 H2. unfold printf, print_impl.
  assert (exists n, mem_fuel m = S (S n)) as [n Hn].
  { pose proof (avail_step m format 37 H0). pose proof (avail_le m format). 
    destruct (mem_fuel m) as [|[|n]]; [lia|lia|by exists n]. }
  rewrite Hn. cbn [print_loop snd]. rewrite (load_Some _ _ _ H0). cbn [mbind ctl_bind].
  change (37 =? 0) with false. cbn iota. rewrite Hn. cbn [skip_literal].
  rewrite (load_Some _ _ _ H0). cbn [mbind ctl_bind].
  change ((37 =? 0) || (37 =? 37)) with true. cbn iota. cbn [mbind ctl_bind].
  rewrite Z.ltb_irrefl. cbn [mbind ctl_bind snd]. rewrite (load_Some _ _ _ H0). cbn [mbind ctl_bind].
  change (negb (37 =? 37)) with false. cbn iota. unfold print_spec. cbn [snd]. rewrite Hn.
  cbn [skip_flags]. rewrite (load_Some _ _ _ H1). cbn [mbind ctl_bind].
  change ((0 =? 45) || (0 =? 43) || (0 =? 32) || (0 =? 35) || (0 =? 48)) with false. cbn iota.
  cbn [mbind ctl_bind read_number]. rewrite (load_Some _ _ _ H1). cbn [mbind ctl_bind].
  change ((48 <=? 0) && (0 <=? 57)) with false. cbn iota. cbn [mbind ctl_bind].
  rewrite (load_Some _ _ _ H1). cbn [mbind ctl_bind]. change (0 =? 46) with false. cbn iota.
  cbn [mbind ctl_bind]. unfold print_directive. cbn [snd]. rewrite (load_Some _ _ _ H1).
  cbn [mbind ctl_bind]. cbn -[load print_loop]. replace (format + 1 + 1) with (format + 2) by lia.
  cbn [print_loop snd]. unfold load. by rewrite H2.
Qed.

(** [sscanf] does not scan: it formats into the string it is given. With
    the stack slots of its target holding a length 8 and a cursor 0, scanning
    "9" with the format "x" leaves "x" in the string and stores nothing. *)
Theorem sscanf_overwrites_input {FILE} (fwrite : list Z -> FILE -> FILE) :
  let m := block 16 [57; 0; 120; 0] in
  match sscanf fwrite 8 0 16 18 [] m with
  | Ret (_, (_, m')) => m' !! 16 = Some 120
  | _ => False
  end.
Proof. by vm_compute. Qed.

(** * Witnesses *)

Definition sample_flags : PrintIntegerFlags := mk_flags 10 false true 32 5 (-1).

(** -42 as a 64-bit value *)
Lemma sample_flags_ok : flags_ok (2 ^ 64 - 42) sample_flags.
Proof. split_and!; simpl; try lia. by vm_compute. Qed.

Lemma print_integer_prints_number_witness :
  flags_ok (2 ^ 64 - 42) sample_flags /\
  format_integer (2 ^ 64 - 42) sample_flags = Ret [32; 32; 45; 52; 50].
Proof.
  split; [exact sample_flags_ok|].
  rewrite (proj1 (print_integer_prints_number (2 ^ 64 - 42) sample_flags sample_flags_ok)).
  by vm_compute.
Defined.

Lemma print_then_parse_witness :
  exists text, format_integer (2 ^ 64 - 42) sample_flags = Ret text /\
    strtoll (block 16 [32; 32; 45; 52; 50; 0]) 16 10 = Ret (s64 (2 ^ 64 - 42), 16 + zlen text).
Proof.
  apply (print_then_parse (2 ^ 64 - 42) sample_flags (block 16 [32; 32; 45; 52; 50; 0]) 16 0);
    [exact sample_flags_ok|reflexivity|reflexivity|simpl; lia|vm_compute; discriminate
    |vm_compute; lia|by vm_compute|exact I].
Defined.

Lemma snprintf_stays_in_buffer_witness :
  match snprintf (fun _ (f : unit) => f) 32 4 16 [2 ^ 64 - 42]
          (block 16 [37; 53; 100; 0; 9; 9; 9; 9; 9; 9; 9; 9; 9; 9; 9; 9; 7; 7; 7; 7; 7]) with
  | Ret (_, (targ, m')) => exists cursor, targ = ToBuffer 4 32 cursor /\ 0 <= cursor < 4 /\
      m' !! (32 + cursor) = Some 0 /\ m' !! 36 = Some 7
  | _ => False
  end.
Proof.
  pose proof (snprintf_stays_in_buffer (fun _ (f : unit) => f) 32 4 16 [2 ^ 64 - 42]
    (block 16 [37; 53; 100; 0; 9; 9; 9; 9; 9; 9; 9; 9; 9; 9; 9; 9; 7; 7; 7; 7; 7])) as H.
  assert (small (block 16 [37; 53; 100; 0; 9; 9; 9; 9; 9; 9; 9; 9; 9; 9; 9; 9; 7; 7; 7; 7; 7])) as Hs
    by by vm_compute.
  specialize (H Hs ltac:(lia) ltac:(apply Forall_singleton; lia)).
  assert (exists r cur m', snprintf (fun _ (f : unit) => f) 32 4 16 [2 ^ 64 - 42]
    (block 16 [37; 53; 100; 0; 9; 9; 9; 9; 9; 9; 9; 9; 9; 9; 9; 9; 7; 7; 7; 7; 7])
    = Ret (r, (ToBuffer 4 32 cur, m'))) as (r & cur & m' & E) by (eexists _, _, _; vm_compute; reflexivity).
  rewrite E in *. destruct H as (c & Ht & Hc & H0 & _ & Ho). exists c.
  split; [exact Ht|]. split; [exact Hc|]. split; [exact H0|].
  rewrite Ho by (right; lia). reflexivity.
Defined.

Lemma printf_trailing_percent_overruns_witness :
  printf (fun l f => f ++ l) [] 16 [] (block 16 [37; 0]) = Trap.
Proof.
  apply (printf_trailing_percent_overruns (fun l f => f ++ l) [] 16 (block 16 [37; 0])); reflexivity.
Defined.
