(* ===== verification/Bytes.v ===== *)
(** Structures in byte buffers: little-endian integers of a fixed number of bytes,
    read one after the other or at an offset, and parts of a buffer read and
    replaced. An access outside the buffer traps. *)

From S2P Require Import Prelude.

(** * Integers *)

(** The bytes of an integer, lowest first. *)
Fixpoint int_bytes (n : nat) (v : Z) : list Z :=
  match n with O => [] | S n => v mod 256 :: int_bytes n (v / 256) end.

Fixpoint int_of_bytes (l : list Z) : Z :=
  match l with [] => 0 | b :: l => b + 256 * int_of_bytes l end.

Definition byte (b : Z) : Prop := 0 <= b < 256.

Lemma length_int_bytes n v : length (int_bytes n v) = n.
Proof. revert v. induction n; intros v; simpl; [done|by rewrite IHn]. Qed.

Lemma int_bytes_byte n v : Forall byte (int_bytes n v).
Proof.
  revert v. induction n as [|n IH]; intros v; simpl; constructor; [|apply IH].
  apply Z.mod_pos_bound. lia.
Qed.

Lemma int_of_bytes_range l : Forall byte l -> 0 <= int_of_bytes l < 256 ^ zlen l.
Proof.
  induction 1 as [|b l Hb _ IH]; [simpl; lia|].
  cbn [int_of_bytes length]. rewrite Nat2Z.inj_succ, Z.pow_succ_r by lia. unfold byte in Hb. lia.
Qed.

Lemma int_of_int_bytes n v : 0 <= v < 256 ^ Z.of_nat n -> int_of_bytes (int_bytes n v) = v.
Proof.
  revert v. induction n as [|n IH]; intros v Hv; [simpl in *; lia|].
  rewrite Nat2Z.inj_succ, Z.pow_succ_r in Hv by lia. cbn [int_bytes int_of_bytes].
  rewrite IH by (split; [apply Z.div_pos|apply Z.div_lt_upper_bound]; lia).
  pose proof (Z.div_mod v 256). lia.
Qed.

Lemma int_bytes_of_bytes l : Forall byte l -> int_bytes (length l) (int_of_bytes l) = l.
Proof.
  induction 1 as [|b l Hb _ IH]; [done|]. cbn [int_of_bytes length int_bytes].
  unfold byte in Hb. replace (b + 256 * int_of_bytes l) with (int_of_bytes l * 256 + b) by lia.
  rewrite Z.add_comm, Z.mod_add, Z.div_add, Z.mod_small, Z.div_small by lia. by rewrite Z.add_0_l, IH.
Qed.

(** * Structures, field by field *)

(** The integer in the first [n] bytes, and the bytes after it. *)
Definition get_int (n : nat) (l : list Z) : Z * list Z := (int_of_bytes (take n l), drop n l).
Definition get_bytes (n : nat) (l : list Z) : list Z * list Z := (take n l, drop n l).

Lemma get_int_app n v l : 0 <= v < 256 ^ Z.of_nat n -> get_int n (int_bytes n v ++ l) = (v, l).
Proof.
  intros. unfold get_int.
  rewrite take_app_length', drop_app_length' by (by rewrite length_int_bytes). by rewrite int_of_int_bytes.
Qed.

Lemma get_bytes_app n bs l : length bs = n -> get_bytes n (bs ++ l) = (bs, l).
Proof. intros. unfold get_bytes. by rewrite take_app_length', drop_app_length'. Qed.

(** [n] integers of [w] bytes. *)
Fixpoint get_ints (n w : nat) (l : list Z) : list Z * list Z :=
  match n with
  | O => ([], l)
  | S n => let '(v, l) := get_int w l in let '(vs, l) := get_ints n w l in (v :: vs, l)
  end.

Definition ints_bytes (w : nat) (vs : list Z) : list Z := concat (map (int_bytes w) vs).

Lemma length_ints_bytes w vs : length (ints_bytes w vs) = (length vs * w)%nat.
Proof.
  unfold ints_bytes. induction vs as [|v vs IH]; [done|]. simpl. by rewrite length_app, length_int_bytes, IH.
Qed.

Lemma get_ints_app n w vs l :
  length vs = n -> Forall (fun v => 0 <= v < 256 ^ Z.of_nat w) vs ->
  get_ints n w (ints_bytes w vs ++ l) = (vs, l).
Proof.
  intros <- H. unfold ints_bytes. induction H as [|v vs Hv _ IH]; [done|]. cbn [map concat length get_ints].
  rewrite <- app_assoc, get_int_app by done. by rewrite IH.
Qed.

Lemma ints_bytes_byte w vs : Forall byte (ints_bytes w vs).
Proof. induction vs as [|v vs IH]; [constructor|]. apply Forall_app. split; [apply int_bytes_byte|done]. Qed.

(** The integers in a buffer, written back. *)
Lemma ints_bytes_get_ints n w : forall l, Forall byte l -> length l = (n * w)%nat ->
  ints_bytes w (fst (get_ints n w l)) = l.
Proof.
  induction n as [|n IH]; intros l Hl Hn; [by destruct l|]. cbn [get_ints get_int].
  assert (length (take w l) = w) as Hw by (rewrite length_take; lia).
  specialize (IH (drop w l) (Forall_drop _ _ _ Hl)). unfold get_int in *.
  destruct (get_ints n w (drop w l)) as [vs r]. cbn [fst] in *. unfold ints_bytes in *. cbn [map concat].
  rewrite IH by (rewrite length_drop; lia). rewrite <- Hw at 1. rewrite int_bytes_of_bytes by by apply Forall_take.
  apply take_drop.
Qed.

(** The [n]-byte integer at an offset. *)
Definition int_at (l : list Z) (off : Z) (n : nat) : Z := int_of_bytes (take n (drop (Z.to_nat off) l)).

(** * Parts of a buffer *)

(** [memcpy] of [n] bytes from [off]. *)
Definition slice (l : list Z) (off n : Z) : ctl (list Z) :=
  if (0 <=? off) && (0 <=? n) && (off + n <=? zlen l)
  then Ret (take (Z.to_nat n) (drop (Z.to_nat off) l)) else Trap.

(** [memcpy] of [bs] to [off]. *)
Definition splice (l : list Z) (off : Z) (bs : list Z) : ctl (list Z) :=
  if (0 <=? off) && (off + zlen bs <=? zlen l)
  then Ret (take (Z.to_nat off) l ++ bs ++ drop (Z.to_nat off + length bs) l) else Trap.

Definition part (l : list Z) (off n : Z) : list Z := take (Z.to_nat n) (drop (Z.to_nat off) l).
Definition patch (l : list Z) (off : Z) (bs : list Z) : list Z :=
  take (Z.to_nat off) l ++ bs ++ drop (Z.to_nat off + length bs) l.

Lemma slice_in l off n : 0 <= off -> 0 <= n -> off + n <= zlen l -> slice l off n = Ret (part l off n).
Proof.
  intros. unfold slice, part.
  destruct (Z.leb_spec 0 off), (Z.leb_spec 0 n), (Z.leb_spec (off + n) (zlen l)); simpl; (done || lia).
Qed.

Lemma slice_Ret l off n bs : slice l off n = Ret bs -> 0 <= off /\ 0 <= n /\ off + n <= zlen l /\ bs = part l off n.
Proof.
  unfold slice, part.
  destruct (Z.leb_spec 0 off), (Z.leb_spec 0 n), (Z.leb_spec (off + n) (zlen l)); simpl; try done.
  intros [= <-]. done.
Qed.

Lemma splice_in l off bs : 0 <= off -> off + zlen bs <= zlen l -> splice l off bs = Ret (patch l off bs).
Proof.
  intros. unfold splice, patch.
  destruct (Z.leb_spec 0 off), (Z.leb_spec (off + zlen bs) (zlen l)); simpl; (done || lia).
Qed.

Lemma splice_Ret l off bs l' :
  splice l off bs = Ret l' -> 0 <= off /\ off + zlen bs <= zlen l /\ l' = patch l off bs.
Proof.
  unfold splice, patch.
  destruct (Z.leb_spec 0 off), (Z.leb_spec (off + zlen bs) (zlen l)); simpl; try done.
  intros [= <-]. done.
Qed.

Lemma length_part l off n : 0 <= off -> 0 <= n -> off + n <= zlen l -> length (part l off n) = Z.to_nat n.
Proof. intros. unfold part. rewrite length_take, length_drop. lia. Qed.

Lemma length_patch l off bs : 0 <= off -> off + zlen bs <= zlen l -> length (patch l off bs) = length l.
Proof. intros. unfold patch. rewrite !length_app, length_take, length_drop. lia. Qed.

Lemma part_lookup l off n i :
  0 <= off -> part l off n !! i = if decide (Z.of_nat i < n) then l !! (Z.to_nat off + i)%nat else None.
Proof.
  intros. unfold part. case_decide.
  - rewrite lookup_take_lt by lia. apply lookup_drop.
  - apply lookup_take_ge. lia.
Qed.

Lemma patch_lookup l off bs i :
  0 <= off -> off + zlen bs <= zlen l ->
  patch l off bs !! i =
  if decide (off <= Z.of_nat i < off + zlen bs) then bs !! (i - Z.to_nat off)%nat else l !! i.
Proof.
  intros Ho Hb. unfold patch. case_decide as Hd.
  - rewrite lookup_app_r by (rewrite length_take; lia). rewrite length_take, lookup_app_l by lia. f_equal. lia.
  - destruct (decide (Z.of_nat i < off)).
    + rewrite lookup_app_l by (rewrite length_take; lia). by rewrite lookup_take_lt by lia.
    + rewrite lookup_app_r by (rewrite length_take; lia). rewrite length_take, lookup_app_r by lia.
      rewrite lookup_drop. f_equal. lia.
Qed.

Lemma part_part l o1 n1 o2 n2 :
  0 <= o1 -> 0 <= o2 -> 0 <= n2 -> o2 + n2 <= n1 -> part (part l o1 n1) o2 n2 = part l (o1 + o2) n2.
Proof.
  intros. apply list_eq. intros i. rewrite !part_lookup by lia.
  case_decide; [|done]. rewrite decide_True by lia. f_equal. lia.
Qed.

Lemma part_patch_same l off bs :
  0 <= off -> off + zlen bs <= zlen l -> part (patch l off bs) off (zlen bs) = bs.
Proof.
  intros Ho Hb. apply list_eq. intros i. rewrite part_lookup by lia. case_decide as Hd.
  - rewrite patch_lookup, decide_True by lia. f_equal. lia.
  - symmetry. apply lookup_ge_None_2. lia.
Qed.

Lemma part_patch_other l off bs o n :
  0 <= off -> off + zlen bs <= zlen l -> 0 <= o -> o + n <= off \/ off + zlen bs <= o ->
  part (patch l off bs) o n = part l o n.
Proof.
  intros Ho Hb Hp Hd. apply list_eq. intros i. rewrite !part_lookup by lia. case_decide; [|done].
  rewrite patch_lookup, decide_False by lia. done.
Qed.

Lemma part_all l : part l 0 (zlen l) = l.
Proof. unfold part. rewrite Nat2Z.id. apply take_ge. simpl. lia. Qed.

Lemma part_app l o n1 n2 :
  0 <= o -> 0 <= n1 -> 0 <= n2 -> part l o n1 ++ part l (o + n1) n2 = part l o (n1 + n2).
Proof.
  intros. unfold part. rewrite Z2Nat.inj_add, Z2Nat.inj_add by lia.
  rewrite <- drop_drop. apply take_take_drop.
Qed.

(** Two parts replaced, the second after the first. *)
Lemma patch_patch (l : list Z) o o' b1 b2 :
  o' = o + zlen b1 -> 0 <= o -> o' + zlen b2 <= zlen l -> patch (patch l o b1) o' b2 = patch l o (b1 ++ b2).
Proof.
  intros -> Ho Hl. apply list_eq. intros i.
  rewrite !patch_lookup by (rewrite ?length_patch, ?length_app; lia). rewrite length_app.
  repeat case_decide; try lia; try done.
  - rewrite lookup_app_r by lia. f_equal. lia.
  - rewrite lookup_app_l by lia. done.
Qed.

Lemma part_one l off x : 0 <= off -> l !! Z.to_nat off = Some x -> part l off 1 = [x].
Proof. intros Ho Hx. unfold part. change (Z.to_nat 1) with 1%nat. by rewrite (drop_S _ x). Qed.

Lemma part_byte l off n : Forall byte l -> Forall byte (part l off n).
Proof. intros. by apply Forall_take, Forall_drop. Qed.

Lemma patch_byte l off bs : Forall byte l -> Forall byte bs -> Forall byte (patch l off bs).
Proof.
  intros. apply Forall_app. split; [by apply Forall_take|]. apply Forall_app. split; [done|by apply Forall_drop].
Qed.
