(* ===== verification/Monads.v ===== *)
(** Operations that may fail on a state: an operation that returns [fc::Result]
    is an [M S A], where [S] is what it may change; the bind of [M] is [try$]. The
    theorems about them are triples ([succeeds]), taken apart by [m_step]. *)

From S2P Require Import Prelude.

(** * Fallible operations on a state *)

Definition M (S A : Type) : Type := S -> ctl (result A * S).

#[global] Instance M_ret {S} : MRet (M S) := fun A a s => Ret (Value a, s).
#[global] Instance M_bind {S} : MBind (M S) := fun A B f m s =>
  match m s with
  | Ret (Value a, s') => f a s'
  | Ret (Error e, s') => Ret (Error e, s')
  | Trap => Trap
  | NoFuel => NoFuel
  end.

Definition fail {S A} (e : string) : M S A := fun s => Ret (Error e, s).
Definition lift {S A} (c : ctl A) : M S A := fun s => match c with Ret a => Ret (Value a, s) | Trap => Trap | NoFuel => NoFuel end.
Definition get {S} : M S S := fun s => Ret (Value s, s).
Definition put {S} (s : S) : M S unit := fun _ => Ret (Value tt, s).
Definition out_of_fuel {S A} : M S A := fun _ => NoFuel.

(** A call whose result is not looked at. *)
Definition ignore {S A} (m : M S A) : M S unit := fun s =>
  match m s with Ret (_, s') => Ret (Value tt, s') | Trap => Trap | NoFuel => NoFuel end.

(** A call that does not touch the object beside the state. *)
Definition beside {S T A} (m : M S A) : M (T * S) A := fun '(t, s) =>
  match m s with Ret (r, s') => Ret (r, (t, s')) | Trap => Trap | NoFuel => NoFuel end.

Definition quot {S} (a b : Z) : M S Z := if b =? 0 then lift Trap else mret (a / b).
Definition rem {S} (a b : Z) : M S Z := if b =? 0 then lift Trap else mret (a mod b).

(** * Operations that succeed *)

(** [m] returns a value, and the value and the state satisfy [Q]. *)
Definition succeeds {S A} (m : M S A) (s : S) (Q : A -> S -> Prop) : Prop :=
  match m s with Ret (Value a, s') => Q a s' | _ => False end.

Section succeeds.
Context {S : Type}.
Implicit Types s : S.

Lemma succeeds_ret {A} (a : A) s (Q : A -> S -> Prop) : Q a s -> succeeds (mret a) s Q.
Proof. done. Qed.

Lemma succeeds_bind {A B} (m : M S A) (f : A -> M S B) s Q :
  succeeds m s (fun a s' => succeeds (f a) s' Q) -> succeeds (m ≫= f) s Q.
Proof. unfold succeeds, mbind, M_bind. by destruct (m s) as [[[] ?]| |]. Qed.

Lemma succeeds_mono {A} (m : M S A) s (P Q : A -> S -> Prop) :
  succeeds m s P -> (forall a s', P a s' -> Q a s') -> succeeds m s Q.
Proof. unfold succeeds. destruct (m s) as [[[] ?]| |]; naive_solver. Qed.

Lemma succeeds_get s Q : Q s s -> succeeds get s Q.
Proof. done. Qed.

Lemma succeeds_put s s' (Q : unit -> S -> Prop) : Q tt s' -> succeeds (put s') s Q.
Proof. done. Qed.

Lemma succeeds_lift {A} (c : ctl A) (a : A) s (Q : A -> S -> Prop) : c = Ret a -> Q a s -> succeeds (lift c) s Q.
Proof. intros ->. done. Qed.

Lemma succeeds_quot a b s (Q : Z -> S -> Prop) : b <> 0 -> Q (a / b) s -> succeeds (quot a b) s Q.
Proof. intros. unfold quot. by destruct (Z.eqb_spec b 0). Qed.

Lemma succeeds_rem a b s (Q : Z -> S -> Prop) : b <> 0 -> Q (a mod b) s -> succeeds (rem a b) s Q.
Proof. intros. unfold rem. by destruct (Z.eqb_spec b 0). Qed.

Lemma succeeds_beside {T A} (m : M S A) (t : T) s (Q : A -> T * S -> Prop) :
  succeeds m s (fun a s' => Q a (t, s')) -> succeeds (beside m) (t, s) Q.
Proof. unfold succeeds, beside. by destruct (m s) as [[[] ?]| |]. Qed.

Lemma succeeds_Ret {A} (m : M S A) s Q : succeeds m s Q <-> exists a s', m s = Ret (Value a, s') /\ Q a s'.
Proof.
  unfold succeeds. split; [|by intros (a&s'&->&?)].
  destruct (m s) as [[[] ?]| |]; naive_solver.
Qed.
End succeeds.

Lemma succeeds_ignore {S A} (m : M S A) (s : S) (Q : unit -> S -> Prop) :
  succeeds m s (fun _ s' => Q tt s') -> succeeds (ignore m) s Q.
Proof. unfold succeeds, ignore. by destruct (m s) as [[[] ?]| |]. Qed.

(** One step of an operation. *)
Ltac m_step :=
  match goal with
  | |- succeeds (mret _) _ _ => apply succeeds_ret
  | |- succeeds (_ ≫= _) _ _ => apply succeeds_bind
  | |- succeeds get _ _ => apply succeeds_get
  | |- succeeds (put _) _ _ => apply succeeds_put
  | |- succeeds (beside _) _ _ => apply succeeds_beside
  | |- succeeds (quot _ _) _ _ => apply succeeds_quot
  | |- succeeds (rem _ _) _ _ => apply succeeds_rem
  end; cbv beta.
Ltac m_steps := repeat m_step.
