(* ===== verification/Elf.v ===== *)
(** libelf/elf.hpp: the headers of an ELF file and the checks of the loader, over
    the byte memory of CMem.v. A structure is read at its address, field by field
    in the byte order of the processor; reading memory that is not mapped traps.
    The address arithmetic wraps around as [uintptr_t] does. *)

From stdpp Require Import gmap.
From S2P Require Import Prelude Range Bytes CMem.

(** * Structures *)

Definition CLASS_64 : Z := 2.
Definition ENC_LITTLE_ENDIAN : Z := 1.
Definition ElfType_NONE : Z := 0.
Definition HEADER_LOAD : Z := 1.

Record Elf64Header := mk_Elf64Header {
  magic : list Z;
  elf_class : Z;
  ordering : Z;
  version : Z;
  os_abi : Z;
  abi_version : Z;
  type : Z;
  machine : Z;
  version2 : Z;
  entry_point_ : Z;
  program_header_offset : Z;
  section_header_offset : Z;
  flags : Z;
  header_size : Z;
  program_header_size : Z;
  program_header_count : Z;
  section_header_size : Z;
  section_header_count : Z;
  section_name_index : Z
}.

Definition sizeof_Elf64Header : Z := 64.

Record Elf64ProgramHeader := mk_Elf64ProgramHeader {
  ph_type : Z;
  ph_flags : Z;
  file_offset : Z;
  virt_addr : Z;
  phys_addr : Z;
  file_size : Z;
  mem_size : Z;
  ph_align : Z
}.

Record Elf64SectionHeader := mk_Elf64SectionHeader {
  sh_name : Z;
  sh_type : Z;
  sh_flags : Z;
  sh_virt_addr : Z;
  sh_file_offset : Z;
  sh_file_size : Z;
  sh_link : Z;
  sh_info : Z;
  sh_addralign : Z;
  sh_entsize : Z
}.

(** An unsigned integer of [n] bytes at [a]. *)
Fixpoint read_int (m : mem) (a : Z) (n : nat) : ctl Z :=
  match n with
  | O => Ret 0
  | S n => b ← load m a; r ← read_int m (u64 (a + 1)) n; Ret (b + 256 * r)
  end.

(** [n] bytes at [a]. *)
Fixpoint read_bytes (m : mem) (a : Z) (n : nat) : ctl (list Z) :=
  match n with
  | O => Ret []
  | S n => b ← load m a; r ← read_bytes m (u64 (a + 1)) n; Ret (b :: r)
  end.

(** The header at [a]. *)
Definition read_header (m : mem) (a : Z) : ctl Elf64Header :=
  let field off n := read_int m (u64 (a + off)) n in
  mg ← read_bytes m a 4;
  cl ← field 4 1%nat; ord ← field 5 1%nat; ver ← field 6 1%nat; abi ← field 7 1%nat; abiv ← field 8 1%nat;
  _ ← read_bytes m (u64 (a + 9)) 7;
  ty ← field 16 2%nat; mach ← field 18 2%nat; ver2 ← field 20 4%nat;
  entry ← field 24 8%nat; pho ← field 32 8%nat; sho ← field 40 8%nat; fl ← field 48 4%nat;
  hs ← field 52 2%nat; phs ← field 54 2%nat; phc ← field 56 2%nat;
  shs ← field 58 2%nat; shc ← field 60 2%nat; sni ← field 62 2%nat;
  Ret (mk_Elf64Header mg cl ord ver abi abiv ty mach ver2 entry pho sho fl hs phs phc shs shc sni).

Definition read_program_header (m : mem) (a : Z) : ctl Elf64ProgramHeader :=
  let field off n := read_int m (u64 (a + off)) n in
  ty ← field 0 4%nat; fl ← field 4 4%nat; off ← field 8 8%nat; va ← field 16 8%nat; pa ← field 24 8%nat;
  fs ← field 32 8%nat; ms ← field 40 8%nat; al ← field 48 8%nat;
  Ret (mk_Elf64ProgramHeader ty fl off va pa fs ms al).

Definition read_section_header (m : mem) (a : Z) : ctl Elf64SectionHeader :=
  let field off n := read_int m (u64 (a + off)) n in
  nm ← field 0 4%nat; ty ← field 4 4%nat; fl ← field 8 8%nat; va ← field 16 8%nat; off ← field 24 8%nat;
  fs ← field 32 8%nat; lk ← field 40 4%nat; inf ← field 44 4%nat; al ← field 48 8%nat; es ← field 56 8%nat;
  Ret (mk_Elf64SectionHeader nm ty fl va off fs lk inf al es).

(** * The loader *)

Record ElfLoader := mk_ElfLoader { _range : Range; _header : Elf64Header }.

Definition ELF_MAGIC : list Z := [0x7f; 69; 76; 70].

Definition verify (l : ElfLoader) : result unit :=
  let h := _header l in
  if negb (bool_decide (magic h = ELF_MAGIC)) then Error "invalid ELF magic number"
  else if negb (elf_class h =? CLASS_64) then Error "unsupported ELF class"
  else if negb (ordering h =? ENC_LITTLE_ENDIAN) then Error "unsupported data encoding"
  else if type h =? ElfType_NONE then Error "invalid ELF type"
  else Value tt.

Definition load_elf (m : mem) (range : Range) : ctl (result ElfLoader) :=
  if len range <? sizeof_Elf64Header then Ret (Error "range too small to contain ELF header")
  else
    h ← read_header m (start range);
    let loader := mk_ElfLoader range h in
    if negb (bool_decide (magic h = ELF_MAGIC)) then Ret (Error "invalid ELF magic number")
    else Ret (try! _ <- verify loader;; Value loader).

Definition section_count (l : ElfLoader) : Z := section_header_count (_header l).
Definition program_count (l : ElfLoader) : Z := program_header_count (_header l).
Definition entry_point (l : ElfLoader) : Z := entry_point_ (_header l).

Definition section_header (m : mem) (l : ElfLoader) (index : Z) : ctl (result Elf64SectionHeader) :=
  if section_count l <=? index then Ret (Error "index out of range")
  else
    h ← read_section_header m
      (u64 (start (_range l) + section_header_offset (_header l) + index * section_header_size (_header l)));
    Ret (Value h).

(** The index is compared with the number of sections. *)
Definition program_header (m : mem) (l : ElfLoader) (index : Z) : ctl (result Elf64ProgramHeader) :=
  if section_count l <=? index then Ret (Error "index out of range")
  else
    h ← read_program_header m
      (u64 (start (_range l) + program_header_offset (_header l) + index * program_header_size (_header l)));
    Ret (Value h).

(** * What the loader reads *)

Lemma read_int_bytes m n : forall a v,
  0 <= v < 256 ^ Z.of_nat n -> 0 <= a -> a + Z.of_nat n <= 2 ^ 64 -> bytes_at m a (int_bytes n v) ->
  read_int m a n = Ret v.
Proof.
  induction n as [|n IH]; intros a v Hv Ha Hb H; simpl; [f_equal; lia|].
  destruct H as [H1 H2]. rewrite (load_Some _ _ _ H1). simpl.
  destruct n as [|n]; [simpl in *; f_equal; rewrite Z.mod_small; lia|].
  rewrite wrapu_small by lia. rewrite (IH (a + 1) (v / 256)).
  - simpl. f_equal. pose proof (Z.div_mod v 256). lia.
  - rewrite Nat2Z.inj_succ, Z.pow_succ_r in Hv by lia. split; [apply Z.div_pos; lia|].
    apply Z.div_lt_upper_bound; lia.
  - lia.
  - lia.
  - done.
Qed.

Lemma read_bytes_at m l : forall a,
  0 <= a -> a + zlen l <= 2 ^ 64 -> bytes_at m a l -> read_bytes m a (length l) = Ret l.
Proof.
  induction l as [|b l IH]; intros a Ha Hb H; simpl; [done|].
  destruct H as [H1 H2]. rewrite (load_Some _ _ _ H1). simpl in *.
  destruct l as [|c l]; [done|]. rewrite wrapu_small by (simpl in *; lia). rewrite IH; [done|lia|simpl in *; lia|done].
Qed.

(** ** Encoding *)

Definition header_bytes (h : Elf64Header) (padding : list Z) : list Z :=
  magic h ++ int_bytes 1 (elf_class h) ++ int_bytes 1 (ordering h) ++ int_bytes 1 (version h) ++
  int_bytes 1 (os_abi h) ++ int_bytes 1 (abi_version h) ++ padding ++
  int_bytes 2 (type h) ++ int_bytes 2 (machine h) ++ int_bytes 4 (version2 h) ++
  int_bytes 8 (entry_point_ h) ++ int_bytes 8 (program_header_offset h) ++ int_bytes 8 (section_header_offset h) ++
  int_bytes 4 (flags h) ++ int_bytes 2 (header_size h) ++ int_bytes 2 (program_header_size h) ++
  int_bytes 2 (program_header_count h) ++ int_bytes 2 (section_header_size h) ++
  int_bytes 2 (section_header_count h) ++ int_bytes 2 (section_name_index h).

(** Every field fits its width. *)
Definition header_fits (h : Elf64Header) : Prop :=
  length (magic h) = 4%nat /\
  Forall (fun v => 0 <= v < 256) [elf_class h; ordering h; version h; os_abi h; abi_version h] /\
  Forall (fun v => 0 <= v < 2 ^ 16) [type h; machine h; header_size h; program_header_size h;
    program_header_count h; section_header_size h; section_header_count h; section_name_index h] /\
  Forall (fun v => 0 <= v < 2 ^ 32) [version2 h; flags h] /\
  Forall (fun v => 0 <= v < 2 ^ 64) [entry_point_ h; program_header_offset h; section_header_offset h].

Definition program_header_bytes (h : Elf64ProgramHeader) : list Z :=
  int_bytes 4 (ph_type h) ++ int_bytes 4 (ph_flags h) ++ int_bytes 8 (file_offset h) ++ int_bytes 8 (virt_addr h) ++
  int_bytes 8 (phys_addr h) ++ int_bytes 8 (file_size h) ++ int_bytes 8 (mem_size h) ++ int_bytes 8 (ph_align h).

Definition program_header_fits (h : Elf64ProgramHeader) : Prop :=
  Forall (fun v => 0 <= v < 2 ^ 32) [ph_type h; ph_flags h] /\
  Forall (fun v => 0 <= v < 2 ^ 64) [file_offset h; virt_addr h; phys_addr h; file_size h; mem_size h; ph_align h].

(** The fields that the bytes of a structure are split into. *)
Ltac split_bytes :=
  repeat match goal with
  | F : Forall _ (_ :: _) |- _ => apply Forall_cons in F as [? F]
  | H : bytes_at _ _ (_ ++ _) |- _ =>
      apply bytes_at_app in H as [? H]; rewrite ?length_int_bytes in H; rewrite <- ?Z.add_assoc in H
  end.

(** The integer [v] is where the structure has it. *)
Ltac read_field v :=
  match goal with |- (read_int ?m ?y ?n ≫= _) = _ => rewrite (read_int_bytes m n y v) end;
    [cbn [mbind ctl_bind]|simpl Z.pow; lia|lia|simpl; lia
    |match goal with H : bytes_at _ ?x (int_bytes ?n v) |- bytes_at _ ?y (int_bytes ?n v) =>
       replace y with x by lia; exact H end].

Lemma read_program_header_bytes m a h :
  program_header_fits h -> 0 <= a -> a + 56 <= 2 ^ 64 -> bytes_at m a (program_header_bytes h) ->
  read_program_header m a = Ret h.
Proof.
  intros [F1 F2] Ha Hb H. unfold program_header_bytes in H. split_bytes.
  unfold read_program_header. rewrite !wrapu_small by lia.
  read_field (ph_type h). read_field (ph_flags h). read_field (file_offset h). read_field (virt_addr h).
  read_field (phys_addr h). read_field (file_size h). read_field (mem_size h). read_field (ph_align h).
  by destruct h.
Qed.

Lemma read_header_bytes m a h padding :
  header_fits h -> length padding = 7%nat -> 0 <= a -> a + 64 <= 2 ^ 64 -> bytes_at m a (header_bytes h padding) ->
  read_header m a = Ret h.
Proof.
  intros (F0 & F1 & F2 & F3 & F4) Hp Ha Hb H. unfold header_bytes in H. split_bytes.
  assert (Em : read_bytes m a 4 = Ret (magic h)) by (rewrite <- F0; apply read_bytes_at; done || lia).
  assert (Ep : read_bytes m (a + 9) 7 = Ret padding).
  { rewrite <- Hp. apply read_bytes_at; [lia|lia|].
    match goal with H : bytes_at _ ?x padding |- bytes_at _ ?y padding => replace y with x by lia; exact H end. }
  unfold read_header. rewrite !wrapu_small by lia. rewrite Em. cbn [mbind ctl_bind].
  read_field (elf_class h). read_field (ordering h). read_field (version h). read_field (os_abi h).
  read_field (abi_version h). rewrite Ep. cbn [mbind ctl_bind].
  read_field (type h). read_field (machine h). read_field (version2 h). read_field (entry_point_ h).
  read_field (program_header_offset h). read_field (section_header_offset h). read_field (flags h).
  read_field (header_size h). read_field (program_header_size h). read_field (program_header_count h).
  read_field (section_header_size h). read_field (section_header_count h). read_field (section_name_index h).
  by destruct h.
Qed.

(** The loader reads the header a file starts with, field by field, and accepts
    it exactly when it has the magic number, is of class 64, little-endian and of
    some type; what is too small for a header is refused without being read. *)
Theorem load_accepts_valid_headers m range h padding :
  header_fits h -> length padding = 7%nat -> Range.wf range -> bytes_at m (start range) (header_bytes h padding) ->
  load_elf m range =
    if end_ range - start range <? 64 then Ret (Error "range too small to contain ELF header")
    else if bool_decide (magic h = ELF_MAGIC) then
      Ret (if negb (elf_class h =? CLASS_64) then Error "unsupported ELF class"
           else if negb (ordering h =? ENC_LITTLE_ENDIAN) then Error "unsupported data encoding"
           else if type h =? ElfType_NONE then Error "invalid ELF type"
           else Value (mk_ElfLoader range h))
    else Ret (Error "invalid ELF magic number").
Proof.
  intros Hf Hp [Hr1 Hr2] H. unfold load_elf, len, sizeof_Elf64Header. rewrite wrapu_small by lia.
  destruct (Z.ltb_spec (end_ range - start range) 64); [done|].
  rewrite (read_header_bytes _ _ h padding) by (done || lia). cbn [mbind ctl_bind].
  unfold verify. cbn [_header]. case_bool_decide; cbn [negb]; [|done].
  destruct (elf_class h =? CLASS_64); cbn [negb]; [|done].
  destruct (ordering h =? ENC_LITTLE_ENDIAN); cbn [negb]; [|done].
  by destruct (type h =? ElfType_NONE).
Qed.

Definition sample_header : Elf64Header :=
  mk_Elf64Header ELF_MAGIC 2 1 1 0 0 2 62 1 0x400000 64 0 0 64 56 1 64 0 0.

(** A header alone, from address 4096 on. *)
Definition sample_file : mem := list_to_map (zip (seqZ 4096 64) (header_bytes sample_header (replicate 7 0))).

Lemma load_accepts_valid_headers_witness :
  load_elf sample_file (mk_Range 4096 8192) = Ret (Value (mk_ElfLoader (mk_Range 4096 8192) sample_header)).
Proof.
  rewrite (load_accepts_valid_headers _ _ sample_header (replicate 7 0)).
  - reflexivity.
  - split; [done|]. split_and!; repeat (apply Forall_cons; split; [split; vm_compute; done|]); constructor.
  - done.
  - split; simpl; lia.
  - vm_compute. repeat split.
Defined.

(** The program headers of a file are refused from the index of the first section
    that does not exist on: a file without sections, which is valid, cannot be
    loaded. *)
Lemma program_headers_counted_as_sections m l i :
  section_count l <= i -> program_header m l i = Ret (Error "index out of range").
Proof. intros H. unfold program_header. by rewrite (proj2 (Z.leb_le _ _) H). Qed.

Lemma program_header_reads m l i h :
  let a := start (_range l) + program_header_offset (_header l) + i * program_header_size (_header l) in
  i < section_count l -> program_header_fits h -> 0 <= a -> a + 56 <= 2 ^ 64 ->
  bytes_at m a (program_header_bytes h) -> program_header m l i = Ret (Value h).
Proof.
  intros a Hi Hf Ha Hb H. unfold program_header. rewrite (proj2 (Z.leb_gt _ _) Hi).
  fold a. rewrite (wrapu_small 64 a) by lia. by rewrite (read_program_header_bytes _ _ h).
Qed.
