(* ===== verification/Liballoc.v ===== *)
(** liballoc/liballoc.c, the kernel and user heap, over the page allocator of
    iol/mem.h.

    A major block is a record with the list of its minor blocks, the heap is
    the list of majors from [l_memRoot]: the [prev]/[next] links are the order
    of these lists. Headers are kept apart from the bytes of the blocks, so a
    minor that is listed is one whose header holds LIBALLOC_MAGIC. The lock is
    held for the whole of each operation. DEBUG and INFO are not defined. *)

From stdpp Require Import gmap.
From S2P Require Import Prelude CMem LibcString.

(** * The page allocator (liballoc_alloc, liballoc_free)

    [regions w] are the page runs handed out and not given back. *)

Class PageAllocator (W : Type) := {
  page_alloc : Z -> W -> option Z * W;
  page_free : Z -> Z -> W -> W;
  regions : W -> list (Z * Z);
  page_alloc_Some : forall n w a w', 0 < n -> page_alloc n w = (Some a, w') ->
    0 < a /\ a + 4096 * n < 2 ^ 64 /\ regions w' = (a, n) :: regions w /\
    forall b k, (b, k) ∈ regions w -> a + 4096 * n <= b \/ b + 4096 * k <= a;
  page_alloc_None : forall n w w', page_alloc n w = (None, w') -> regions w' = regions w;
  page_free_regions : forall a n w, (a, n) ∈ regions w ->
    regions w ≡ₚ (a, n) :: regions (page_free a n w)
}.

(** * Data *)

Definition ALIGNMENT : Z := 16.
Definition ALIGN_INFO : Z := 16.
Definition sizeof_major : Z := 40.
Definition sizeof_minor : Z := 40.
Definition l_pageSize : Z := 4096.
Definition l_pageCount : Z := 16.

Record minor := mk_minor { min_addr : Z; min_size : Z; min_req : Z }.

Record major := mk_major {
  maj_addr : Z;
  maj_pages : Z;
  maj_size : Z;
  maj_usage : Z;
  maj_minors : list minor
}.

Section liballoc.
Context {W : Type} `{PageAllocator W}.

(** [align_info] is the char that ALIGN stores before a pointer. *)
Record heap := mk_heap {
  majors : list major;
  l_bestBet : option Z;
  l_allocated : Z;
  l_inuse : Z;
  l_warningCount : Z;
  align_info : gmap Z Z;
  world : W
}.

Definition set_majors (h : heap) (l : list major) : heap :=
  mk_heap l (l_bestBet h) (l_allocated h) (l_inuse h) (l_warningCount h) (align_info h) (world h).
Definition set_bestBet (h : heap) (b : option Z) : heap :=
  mk_heap (majors h) b (l_allocated h) (l_inuse h) (l_warningCount h) (align_info h) (world h).
Definition warn (h : heap) : heap :=
  mk_heap (majors h) (l_bestBet h) (l_allocated h) (l_inuse h) (l_warningCount h + 1)
    (align_info h) (world h).

(** The macro ALIGN: the pointer and the char stored. *)
Definition ALIGN (ptr : Z) : Z * Z :=
  let ptr := ptr + ALIGN_INFO in
  let diff := Z.land ptr (ALIGNMENT - 1) in
  if negb (diff =? 0) then (ptr + (ALIGNMENT - diff), (ALIGNMENT - diff) + ALIGN_INFO)
  else (ptr, diff + ALIGN_INFO).

Definition UNALIGN (h : heap) (ptr : Z) : ctl Z :=
  diff ← deref (align_info h !! ptr);
  Ret (if diff <? ALIGNMENT + ALIGN_INFO then ptr - diff else ptr).

(** * allocate_new_page *)

Definition pages_for (size : Z) : Z :=
  let st := u32 (u32 (size + sizeof_major) + sizeof_minor) in
  let st := if st mod l_pageSize =? 0 then st / l_pageSize else st / l_pageSize + 1 in
  if st <? l_pageCount then l_pageCount else st.

Definition allocate_new_page (size : Z) (h : heap) : option major * heap :=
  let st := pages_for (u32 size) in
  match page_alloc st (world h) with
  | (None, w) =>
      (None, mk_heap (majors h) (l_bestBet h) (l_allocated h) (l_inuse h)
               (l_warningCount h + 1) (align_info h) w)
  | (Some a, w) =>
      let maj := mk_major a st (u32 (st * l_pageSize)) sizeof_major [] in
      (Some maj, mk_heap (majors h) (l_bestBet h) (u64 (l_allocated h + maj_size maj)) (l_inuse h)
                   (l_warningCount h) (align_info h) w)
  end.

(** * malloc *)

(** Cases 4.1 and 4.2: a gap of [size + sizeof_minor] after a minor. *)
Fixpoint place_after (maj_end size req : Z) (l : list minor) : option (list minor * Z) :=
  match l with
  | [] => None
  | min :: l =>
      let next := match l with [] => maj_end | nxt :: _ => min_addr nxt end in
      let diff := u64 (u64 (u64 (next - min_addr min) - sizeof_minor) - min_size min) in
      let a := min_addr min + sizeof_minor + min_size min in
      if u64 (size + sizeof_minor) <=? diff then Some (min :: mk_minor a (u32 size) (u32 req) :: l, a)
      else
        match place_after maj_end size req l with
        | Some (l, a) => Some (min :: l, a)
        | None => None
        end
  end.

(** Cases 2, 3 and 4: the minors with the new one, and its address. *)
Definition place (maj : major) (size req : Z) : option (list minor * Z) :=
  match maj_minors maj with
  | [] =>
      let a := maj_addr maj + sizeof_major in
      Some ([mk_minor a (u32 size) (u32 req)], a)
  | first :: _ =>
      let diff := u64 (u64 (min_addr first - maj_addr maj) - sizeof_major) in
      if u64 (size + sizeof_minor) <=? diff then
        let a := maj_addr maj + sizeof_major in
        Some (mk_minor a (u32 size) (u32 req) :: maj_minors maj, a)
      else place_after (maj_addr maj + maj_size maj) size req (maj_minors maj)
  end.

(** The new minor is in place in the major of index [i]: usage, statistics and
    the aligned pointer. *)
Definition place_done (h : heap) (i : nat) (maj : major) (l : list minor) (a size : Z) :
    Z * heap :=
  let maj := mk_major (maj_addr maj) (maj_pages maj) (maj_size maj)
               (u32 (maj_usage maj + u64 (size + sizeof_minor))) l in
  let '(p, info) := ALIGN (a + sizeof_minor) in
  (p, mk_heap (<[i := maj]> (majors h)) (l_bestBet h) (l_allocated h) (u64 (l_inuse h + size))
        (l_warningCount h) (<[p := info]> (align_info h)) (world h)).

(** What case 1 or 5 does about the major after [i]: hop to it, start again
    from the root, or append a new one ([None]: out of memory). *)
Inductive hop := Hop (i : nat) (startedBet : bool) | Appended (i : nat) | NoMemory.

Definition next_major (h : heap) (i : nat) (startedBet : bool) (size : Z) : hop * heap :=
  if decide (S i < length (majors h))%nat then (Hop (S i) startedBet, h)
  else if startedBet then (Hop 0 false, h)
  else
    match allocate_new_page size h with
    | (None, h) => (NoMemory, h)
    | (Some maj, h) => (Appended (S i), set_majors h (majors h ++ [maj]))
    end.

(** Cases 2 to 5 on the major of index [i]. *)
Definition try_place (again : nat -> bool -> Z -> heap -> ctl (option Z * heap))
    (h : heap) (i : nat) (startedBet : bool) (bestSize size req : Z) : ctl (option Z * heap) :=
  match majors h !! i with
  | None => Trap
  | Some maj =>
      match place maj size req with
      | Some (l, a) => let '(p, h) := place_done h i maj l a size in Ret (Some p, h)
      | None =>
          match next_major h i startedBet size with
          | (Hop i startedBet, h) => again i startedBet bestSize h
          | (Appended i, h) => again i startedBet bestSize h
          | (NoMemory, h) => Ret (None, h)
          end
      end
  end.

Fixpoint malloc_loop (fuel : nat) (size req : Z) (i : nat) (startedBet : bool) (bestSize : Z)
    (h : heap) : ctl (option Z * heap) :=
  match fuel with
  | O => NoFuel
  | S fuel =>
      match majors h !! i with
      | None => Ret (None, h)
      | Some maj =>
          let diff := u32 (maj_size maj - maj_usage maj) in
          let '(h, bestSize) := if bestSize <? diff then (set_bestBet h (Some (maj_addr maj)), diff)
                                else (h, bestSize) in
          if diff <? u64 (size + sizeof_minor) then
            match next_major h i startedBet size with
            | (Hop i startedBet, h) => malloc_loop fuel size req i startedBet bestSize h
            | (Appended i, h) =>
                try_place (malloc_loop fuel size req) h i startedBet bestSize size req
            | (NoMemory, h) => Ret (None, h)
            end
          else try_place (malloc_loop fuel size req) h i startedBet bestSize size req
      end
  end.

Definition find_major (a : Z) (l : list major) : option (nat * major) :=
  list_find (fun m => maj_addr m = a) l.

Definition malloc_fuel (h : heap) : nat := 2 * length (majors h) + 4.

(** From "bounce through every major" on: the start at the best bet. *)
Definition malloc_search (size req : Z) (h : heap) : ctl (option Z * heap) :=
  match l_bestBet h with
  | Some b =>
      '(i, m) ← deref (find_major b (majors h));
      let bestSize := u32 (maj_size m - maj_usage m) in
      if u64 (size + sizeof_minor) <? bestSize
      then malloc_loop (malloc_fuel h) size req i true bestSize h
      else malloc_loop (malloc_fuel h) size req 0 false bestSize h
  | None => malloc_loop (malloc_fuel h) size req 0 false 0 h
  end.

Definition kmalloc (req_size : Z) (h : heap) : ctl (option Z * heap) :=
  let size := u64 (req_size + (ALIGNMENT + ALIGN_INFO)) in
  if size =? 0 then
    let size := 1 + (ALIGNMENT + ALIGN_INFO) in
    let h := warn h in
    match majors h with
    | [] =>
        match allocate_new_page size h with
        | (None, h) => Ret (None, h)
        | (Some maj, h) => malloc_search size 1 (set_majors h [maj])
        end
    | _ => malloc_search size 1 h
    end
  else
    match majors h with
    | [] =>
        match allocate_new_page size h with
        | (None, h) => Ret (None, h)
        | (Some maj, h) => malloc_search size req_size (set_majors h [maj])
        end
    | _ => malloc_search size req_size h
    end.

(** * free *)

(** The live minor whose header is at [a]: its major and its place in it. *)
Fixpoint find_minor (a : Z) (i : nat) (l : list major) : option (nat * major * nat * minor) :=
  match l with
  | [] => None
  | maj :: l =>
      match list_find (fun m => min_addr m = a) (maj_minors maj) with
      | Some (k, m) => Some (i, maj, k, m)
      | None => find_minor a (S i) l
      end
  end.

(** A header that does not hold LIBALLOC_MAGIC (freed, or never allocated) is
    an [unreachable$()]. *)
Definition kfree (ptr : option Z) (h : heap) : ctl heap :=
  match ptr with
  | None => Ret (warn h)
  | Some ptr =>
      ptr ← UNALIGN h ptr;
      '(i, maj, k, min) ← deref (find_minor (ptr - sizeof_minor) 0 (majors h));
      let l := delete k (maj_minors maj) in
      let maj' := mk_major (maj_addr maj) (maj_pages maj) (maj_size maj)
                    (u32 (maj_usage maj - (min_size min + sizeof_minor))) l in
      let inuse := u64 (l_inuse h - min_size min) in
      match l with
      | [] =>
          let bet := match l_bestBet h with
                     | Some b => if b =? maj_addr maj then None else Some b
                     | None => None
                     end in
          Ret (mk_heap (delete i (majors h)) bet (u64 (l_allocated h - maj_size maj)) inuse
                 (l_warningCount h) (align_info h) (page_free (maj_addr maj) (maj_pages maj) (world h)))
      | _ =>
          let ms := <[i := maj']> (majors h) in
          let h := mk_heap ms (l_bestBet h) (l_allocated h) inuse (l_warningCount h)
                     (align_info h) (world h) in
          match l_bestBet h with
          | None => Ret h
          | Some b =>
              '(_, bm) ← deref (find_major b ms);
              let bestSize := s32 (maj_size bm - maj_usage bm) in
              let majSize := s32 (maj_size maj' - maj_usage maj') in
              Ret (if bestSize <? majSize then set_bestBet h (Some (maj_addr maj)) else h)
          end
      end
  end.

(** * calloc and realloc

    The bytes they clear or copy are given as a pair of the block(s) and the
    count, next to the pointer. A NULL from malloc is written through. *)

Definition kcalloc (nobj size : Z) (h : heap) : ctl (Z * Z * heap) :=
  let real_size := s32 (u64 (nobj * size)) in
  '(p, h) ← kmalloc (u64 real_size) h;
  p ← deref p;
  Ret (p, u64 real_size, h).

(** The pointer returned and, when the block moved, the copy made:
    (destination, source, bytes). *)
Definition krealloc (p : option Z) (size : Z) (h : heap) :
    ctl (option Z * option (Z * Z * Z) * heap) :=
  if size =? 0 then h ← kfree p h; Ret (None, None, h)
  else
    match p with
    | None => '(q, h) ← kmalloc size h; Ret (q, None, h)
    | Some p =>
        ptr ← UNALIGN h p;
        '(i, maj, k, min) ← deref (find_minor (ptr - sizeof_minor) 0 (majors h));
        let real_size := min_req min in
        if size <=? real_size then
          let l := <[k := mk_minor (min_addr min) (min_size min) (u32 size)]> (maj_minors maj) in
          let maj := mk_major (maj_addr maj) (maj_pages maj) (maj_size maj) (maj_usage maj) l in
          Ret (Some p, None, set_majors h (<[i := maj]> (majors h)))
        else
          '(q, h) ← kmalloc size h;
          q ← deref q;
          h ← kfree (Some p) h;
          Ret (Some q, Some (q, p, real_size), h)
    end.
End liballoc.

(** * The block helpers, on the byte memory *)

Definition liballoc_memset (s c n : Z) (m : mem) : ctl (Z * mem) :=
  m ← set_loop (Z.to_nat n) s c m; Ret (s, m).

(** The loop on [unsigned int]s: [n] words. *)
Fixpoint copy_words (n : nat) (d s : Z) (m : mem) : ctl mem :=
  match n with
  | O => Ret m
  | S n =>
      b0 ← load m s; b1 ← load m (s + 1); b2 ← load m (s + 2); b3 ← load m (s + 3);
      m ← store m d b0; m ← store m (d + 1) b1; m ← store m (d + 2) b2; m ← store m (d + 3) b3;
      copy_words n (d + 4) (s + 4) m
  end.

Definition liballoc_memcpy (s1 s2 n : Z) (m : mem) : ctl (Z * mem) :=
  m ← copy_words (Z.to_nat (n / 4)) s1 s2 m;
  m ← copy_up (Z.to_nat (n mod 4)) (s1 + 4 * (n / 4)) (s2 + 4 * (n / 4)) m;
  Ret (s1, m).
