(* ===== verification/LiballocSpec.v ===== *)
(** Correctness of the heap: the invariant of its block lists, what malloc and
    free do to the set of live blocks, and the end of the search loop. *)

From stdpp Require Import gmap.
From S2P Require Import Prelude CMem LibcString Liballoc.

(** * Address spans *)

(** [(a, n)] is the span [a .. a + n). *)
Definition apart (x y : Z * Z) : Prop := fst x + snd x <= fst y \/ fst y + snd y <= fst x.

Fixpoint apart_all (l : list (Z * Z)) : Prop :=
  match l with
  | [] => True
  | x :: l => Forall (apart x) l /\ apart_all l
  end.

Lemma apart_sym x y : apart x y -> apart y x.
Proof. unfold apart. tauto. Qed.

Lemma apart_all_app l1 l2 :
  apart_all (l1 ++ l2) <->
  apart_all l1 /\ apart_all l2 /\ forall x y, x ∈ l1 -> y ∈ l2 -> apart x y.
Proof.
  induction l1 as [|x l1 IH]; simpl.
  - split; [intros ?; split_and!; [done..|]; by intros ? ? ?%not_elem_of_nil|tauto].
  - rewrite Forall_app, IH, !Forall_forall. split.
    + intros ((H1 & H2) & H3 & H4 & H5). split_and!; try done.
      intros a b [->|Ha]%elem_of_cons Hb; auto.
    + intros ((H1 & H2) & H3 & H4). split_and!; try done.
      * intros b Hb. apply H4; [left|done].
      * intros a b Ha Hb. apply H4; [by right|done].
Qed.

Lemma apart_all_perm l l' : l ≡ₚ l' -> apart_all l -> apart_all l'.
Proof.
  induction 1 as [|x l l' Hp IH|x y l|l1 l2 l3 _ IH1 _ IH2]; simpl; try tauto.
  - intros [H1 H2]. split; [by rewrite <- Hp|auto].
  - rewrite !Forall_cons. intros ([H1 H2] & H3 & H4). split_and!; try done; by apply apart_sym.
Qed.

Lemma apart_all_elem l x y : apart_all l -> x ∈ l -> y ∈ l -> x <> y -> apart x y.
Proof.
  induction l as [|z l IH]; [by intros _ ?%not_elem_of_nil|]. intros [Hz Hl] Hx Hy Hne.
  rewrite Forall_forall in Hz. apply elem_of_cons in Hx as [->|Hx], Hy as [->|Hy]; [done|auto| |auto].
  apply apart_sym. auto.
Qed.

Lemma NoDup_fmap_fst_unique (l : list (Z * Z)) x y :
  NoDup (fst <$> l) -> x ∈ l -> y ∈ l -> fst x = fst y -> x = y.
Proof.
  induction l as [|z l IH]; [by intros _ ?%not_elem_of_nil|]. rewrite fmap_cons.
  intros [Hz Hl]%NoDup_cons Hx Hy E.
  apply elem_of_cons in Hx as [->|Hx], Hy as [->|Hy]; [done| | |auto]; exfalso; apply Hz.
  - rewrite E. by apply list_elem_of_fmap_2.
  - rewrite <- E. by apply list_elem_of_fmap_2.
Qed.

(** * Alignment *)

Definition user_ptr (a : Z) : Z := fst (ALIGN (a + sizeof_minor)).

Lemma ALIGN_spec x : 0 <= x ->
  (16 | fst (ALIGN x)) /\ x + 16 <= fst (ALIGN x) <= x + 31 /\
  snd (ALIGN x) = fst (ALIGN x) - x.
Proof.
  intros Hx. unfold ALIGN, ALIGN_INFO, ALIGNMENT. change (16 - 1) with (Z.ones 4).
  rewrite Z.land_ones by lia. change (2 ^ 4) with 16.
  pose proof (Z.mod_pos_bound (x + 16) 16 ltac:(lia)) as Hm.
  pose proof (Z.div_mod (x + 16) 16 ltac:(lia)) as Hd.
  destruct (Z.eqb_spec ((x + 16) mod 16) 0) as [E|E]; cbn [negb fst snd].
  - split; [exists ((x + 16) / 16); lia|lia].
  - split; [exists ((x + 16) / 16 + 1); lia|lia].
Qed.

Lemma user_ptr_spec a : 0 <= a ->
  (16 | user_ptr a) /\ a + 56 <= user_ptr a <= a + 71.
Proof.
  intros Ha. unfold user_ptr, sizeof_minor. destruct (ALIGN_spec (a + 40)) as (H1 & H2 & _); [lia|].
  split; [done|lia].
Qed.

(** * Invariant *)

(** Minors in address order from [lo] to [hi], each with room for its header,
    its alignment and its bytes. *)
Fixpoint chain (lo hi : Z) (l : list minor) : Prop :=
  match l with
  | [] => lo <= hi
  | m :: l =>
      lo <= min_addr m /\ 0 <= min_req m /\ min_req m + 32 <= min_size m /\
      chain (min_addr m + sizeof_minor + min_size m) hi l
  end.

Definition used (l : list minor) : Z :=
  fold_right (fun m n => min_size m + sizeof_minor + n) 0 l.

Definition major_wf (M : major) : Prop :=
  0 < maj_addr M /\ maj_addr M + maj_size M < 2 ^ 64 /\
  maj_size M = 4096 * maj_pages M /\ 0 < maj_pages M /\ maj_size M < 2 ^ 32 /\
  chain (maj_addr M + sizeof_major) (maj_addr M + maj_size M) (maj_minors M) /\
  maj_usage M = sizeof_major + used (maj_minors M).

Definition minor_span (m : minor) : Z * Z := (min_addr m, sizeof_minor + min_size m).
Definition user_block (m : minor) : Z * Z := (user_ptr (min_addr m), min_req m).

Lemma chain_le lo hi l : chain lo hi l -> lo + used l <= hi.
Proof.
  revert lo. induction l as [|m l IH]; intros lo; simpl; [lia|].
  intros (? & ? & ? & H). apply IH in H. unfold sizeof_minor in *. lia.
Qed.

Lemma used_nonneg lo hi l : chain lo hi l -> 0 <= used l.
Proof.
  revert lo. induction l as [|m l IH]; intros lo; simpl; [lia|].
  intros (? & ? & ? & H). apply IH in H. unfold sizeof_minor. lia.
Qed.

Lemma chain_elem lo hi l m : chain lo hi l -> m ∈ l ->
  lo <= min_addr m /\ min_addr m + sizeof_minor + min_size m <= hi /\
  0 <= min_req m /\ min_req m + 32 <= min_size m.
Proof.
  revert lo. induction l as [|x l IH]; intros lo Hc Hm; [by apply not_elem_of_nil in Hm|].
  destruct Hc as (H1 & H2 & H3 & Hc). pose proof (chain_le _ _ _ Hc) as Hle.
  pose proof (used_nonneg _ _ _ Hc).
  apply elem_of_cons in Hm as [->|Hm]; [unfold sizeof_minor in *; lia|].
  destruct (IH _ Hc Hm) as (? & ? & ? & ?). unfold sizeof_minor in *. lia.
Qed.

Lemma chain_spans lo hi l : chain lo hi l -> apart_all (minor_span <$> l).
Proof.
  revert lo. induction l as [|m l IH]; intros lo; simpl; [done|].
  intros (H1 & H2 & H3 & Hc). split; [|by eapply IH]. apply Forall_fmap, Forall_forall.
  intros x Hx. destruct (chain_elem _ _ _ _ Hc Hx) as (? & _). left. simpl. lia.
Qed.

(** Replacing the middle of a chain. *)
Lemma chain_insert lo hi l1 l2 a size req :
  chain lo hi (l1 ++ l2) -> 0 <= req -> req + 32 <= size ->
  match rev l1 with
  | [] => lo <= a
  | m :: _ => min_addr m + sizeof_minor + min_size m <= a
  end ->
  match l2 with
  | [] => a + sizeof_minor + size <= hi
  | m :: _ => a + sizeof_minor + size <= min_addr m
  end ->
  chain lo hi (l1 ++ mk_minor a size req :: l2).
Proof.
  revert lo. induction l1 as [|m l1 IH]; intros lo Hc Hr Hs H1 H2; simpl in *.
  - split_and!; [done..|]. destruct l2 as [|x l2]; simpl in *; [done|]. naive_solver.
  - destruct Hc as (? & ? & ? & Hc). split_and!; [done..|]. apply IH; [done..| |done].
    destruct (rev l1) as [|y r] eqn:E; simpl in H1; [|done].
    by destruct l1 as [|? ? _] using rev_ind; [|rewrite rev_app_distr in E].
Qed.

Lemma chain_delete lo hi l k m :
  chain lo hi l -> l !! k = Some m -> chain lo hi (delete k l) /\
  used l = min_size m + sizeof_minor + used (delete k l).
Proof.
  revert lo k. induction l as [|x l IH]; intros lo [|k] Hc Hk; simpl in *; simplify_eq.
  - destruct Hc as (? & ? & ? & Hc). split; [|done]. clear IH.
    destruct l as [|y l]; simpl in *; unfold sizeof_minor in *; [lia|].
    destruct Hc as (? & ? & ? & Hc). split_and!; [lia|done..].
  - destruct Hc as (? & ? & ? & Hc). destruct (IH _ _ Hc Hk) as [H3 H4].
    split; [done|]. rewrite H4. lia.
Qed.

Lemma used_app l1 l2 : used (l1 ++ l2) = used l1 + used l2.
Proof. induction l1 as [|m l1 IH]; simpl; [done|]. rewrite IH. lia. Qed.

(** * Placing a minor *)

Section place.
Context (size req : Z) (Hreq : 0 <= req) (Hsz : req + 32 <= size) (Hsize : size < 2 ^ 32).

Lemma need_small : u64 (size + sizeof_minor) = size + sizeof_minor.
Proof. apply wrapu_small. unfold sizeof_minor. lia. Qed.

Lemma place_after_spec hi l : forall lo l' a,
  0 <= lo -> hi < 2 ^ 64 -> chain lo hi l ->
  place_after hi size req l = Some (l', a) ->
  exists l1 l2, l = l1 ++ l2 /\ l1 <> [] /\ l' = l1 ++ mk_minor a size req :: l2 /\ chain lo hi l'.
Proof.
  induction l as [|m l IH]; intros lo l' a Hlo Hhi Hc; [done|]. cbn [place_after]. cbv zeta. rewrite need_small.
  pose proof Hc as (H1 & H2 & H3 & Hc').
  set (next := match l with [] => hi | nxt :: _ => min_addr nxt end).
  assert (min_addr m + sizeof_minor + min_size m <= next <= hi) as Hn.
  { unfold next. destruct l as [|x l]; [simpl in Hc'; lia|].
    destruct (chain_elem _ _ _ x Hc') as (? & ? & ? & ?); [by left|].
    unfold sizeof_minor in *. lia. }
  unfold sizeof_minor in *.
  rewrite (wrapu_small 64 (next - min_addr m)), (wrapu_small 64 (next - min_addr m - 40)),
    (wrapu_small 64 (next - min_addr m - 40 - min_size m)) by lia.
  rewrite (wrapu_small 32 size), (wrapu_small 32 req) by lia.
  destruct (Z.leb_spec (size + 40) (next - min_addr m - 40 - min_size m)) as [Hfit|].
  - intros [= <- <-]. exists [m], l. split_and!; [done..|].
    apply (chain_insert lo hi [m] l); [done|lia|lia|simpl; unfold sizeof_minor; lia|].
    unfold next in *. destruct l; unfold sizeof_minor; lia.
  - destruct (place_after hi size req l) as [[l0 a0]|] eqn:E; [|done]. intros [= <- <-].
    destruct (IH (min_addr m + 40 + min_size m) l0 a0 ltac:(lia) Hhi Hc' eq_refl) as (l1 & l2 & -> & _ & -> & Hc2).
    exists (m :: l1), l2. split_and!; [done..|]. simpl. split_and!; done.
Qed.

Lemma place_spec M l a :
  major_wf M -> (maj_minors M = [] -> size + sizeof_minor + sizeof_major <= maj_size M) ->
  place M size req = Some (l, a) ->
  exists l1 l2, maj_minors M = l1 ++ l2 /\ l = l1 ++ mk_minor a size req :: l2 /\
    chain (maj_addr M + sizeof_major) (maj_addr M + maj_size M) l.
Proof.
  intros (Ha & Hend & _ & _ & _ & Hc & _) Hroom. unfold place. rewrite need_small.
  destruct (maj_minors M) as [|m ms] eqn:Em.
  - intros [= <- <-]. exists [], []. rewrite (wrapu_small 32 size), (wrapu_small 32 req) by lia.
    split_and!; [done..|]. simpl. specialize (Hroom eq_refl). unfold sizeof_major, sizeof_minor in *. lia.
  - pose proof Hc as (H1 & H2 & H3 & _).
    destruct (chain_elem _ _ _ m Hc) as (_ & H4 & _); [by left|].
    unfold sizeof_major, sizeof_minor in *.
    rewrite (wrapu_small 64 (min_addr m - maj_addr M)), (wrapu_small 64 (min_addr m - maj_addr M - 40)) by lia.
    destruct (Z.leb_spec (size + 40) (min_addr m - maj_addr M - 40)) as [Hfit|].
    + intros [= <- <-]. exists [], (m :: ms). rewrite (wrapu_small 32 size), (wrapu_small 32 req) by lia.
      split_and!; [done..|]. apply (chain_insert _ _ [] (m :: ms)); [done|lia|lia|simpl; lia|].
      unfold sizeof_minor. lia.
    + intros E. apply (place_after_spec _ _ (maj_addr M + 40)) in E; [|lia|lia|done].
      destruct E as (l1 & l2 & E1 & _ & E2 & E3). by exists l1, l2.
Qed.
End place.

(** * The heap *)

Section heap.
Context {W : Type} `{PageAllocator W}.
Implicit Types h : heap (W := W).

Definition major_span (M : major) : Z * Z := (maj_addr M, maj_size M).
Definition major_region (M : major) : Z * Z := (maj_addr M, maj_pages M).

(** The blocks the users of the heap hold: pointer and requested size. *)
Definition major_blocks (M : major) : list (Z * Z) := user_block <$> maj_minors M.
Definition blocks_of (l : list major) : list (Z * Z) := concat (major_blocks <$> l).
Definition blocks h : list (Z * Z) := blocks_of (majors h).

Definition heap_wf h : Prop :=
  Forall major_wf (majors h) /\
  apart_all (major_span <$> majors h) /\
  major_region <$> majors h ≡ₚ regions (world h) /\
  (forall b, l_bestBet h = Some b -> exists M, M ∈ majors h /\ maj_addr M = b) /\
  (forall M m, M ∈ majors h -> m ∈ maj_minors M ->
     align_info h !! user_ptr (min_addr m) = Some (user_ptr (min_addr m) - (min_addr m + sizeof_minor))).

Lemma blocks_of_app l1 l2 : blocks_of (l1 ++ l2) = blocks_of l1 ++ blocks_of l2.
Proof. unfold blocks_of. by rewrite fmap_app, concat_app. Qed.

Lemma list_insert_split {A} (l : list A) i M M' :
  l !! i = Some M -> exists l1 l2, l = l1 ++ M :: l2 /\ <[i := M']> l = l1 ++ M' :: l2.
Proof.
  intros Hi. exists (take i l), (drop (S i) l). split; [by rewrite take_drop_middle|].
  rewrite insert_take_drop; [done|]. by eapply lookup_lt_Some.
Qed.

(** All the minors of the heap are apart. *)
Lemma minor_spans_apart l :
  Forall major_wf l -> apart_all (major_span <$> l) ->
  apart_all (minor_span <$> concat (maj_minors <$> l)).
Proof.
  induction l as [|M l IH]; [done|]. intros HF [Ha Hap]. apply Forall_cons in HF as [HM HF].
  rewrite fmap_cons. simpl concat. rewrite fmap_app. apply apart_all_app. split_and!.
  - destruct HM as (_ & _ & _ & _ & _ & Hc & _). by eapply chain_spans.
  - by apply IH.
  - intros x y (m & -> & Hm)%list_elem_of_fmap (m' & -> & Hm')%list_elem_of_fmap.
    apply list_elem_of_In, in_concat in Hm' as (ms & Hms & Hin).
    apply list_elem_of_In, list_elem_of_fmap in Hms as (M' & -> & HM').
    rewrite Forall_fmap, Forall_forall in Ha. specialize (Ha M' HM').
    rewrite Forall_forall in HF. specialize (HF M' HM').
    destruct HM as (_ & _ & _ & _ & _ & Hc & _), HF as (_ & _ & _ & _ & _ & Hc' & _).
    apply list_elem_of_In in Hin.
    destruct (chain_elem _ _ _ _ Hc Hm) as (? & ? & ? & ?).
    destruct (chain_elem _ _ _ _ Hc' Hin) as (? & ? & ? & ?).
    unfold apart, major_span, minor_span, sizeof_major, sizeof_minor in *. simpl in *. lia.
Qed.

Lemma user_block_inside m : 0 <= min_addr m -> min_req m + 32 <= min_size m ->
  fst (minor_span m) < fst (user_block m) /\
  fst (user_block m) + snd (user_block m) < fst (minor_span m) + snd (minor_span m).
Proof.
  intros Ha Hr. destruct (user_ptr_spec (min_addr m) Ha) as [_ Hp].
  unfold user_block, minor_span, sizeof_minor. simpl. lia.
Qed.

Definition live_minors h : list minor := concat (maj_minors <$> majors h).

Lemma live_minor_inv h m : m ∈ live_minors h <-> exists M, M ∈ majors h /\ m ∈ maj_minors M.
Proof.
  unfold live_minors. rewrite list_elem_of_In, in_concat. split.
  - intros (ms & Hms & Hin). apply list_elem_of_In, list_elem_of_fmap in Hms as (M & -> & HM).
    exists M. split; [done|]. by apply list_elem_of_In.
  - intros (M & HM & Hm). exists (maj_minors M). rewrite <- !list_elem_of_In. split; [|done].
    apply list_elem_of_fmap. by exists M.
Qed.

Lemma live_minor_ok h m : Forall major_wf (majors h) -> m ∈ live_minors h ->
  0 < min_addr m /\ 0 <= min_req m /\ min_req m + 32 <= min_size m.
Proof.
  intros HF (M & HM & Hm)%live_minor_inv. rewrite Forall_forall in HF.
  destruct (HF M HM) as (? & _ & _ & _ & _ & Hc & _).
  destruct (chain_elem _ _ _ _ Hc Hm) as (? & ? & ? & ?). unfold sizeof_major in *. lia.
Qed.

Lemma blocks_live h : blocks h = user_block <$> live_minors h.
Proof.
  unfold blocks, blocks_of, live_minors. induction (majors h) as [|M l IH]; [done|].
  rewrite !fmap_cons. simpl. by rewrite fmap_app, IH.
Qed.

(** Live blocks do not overlap, and their pointers differ. *)
Lemma blocks_apart h :
  Forall major_wf (majors h) -> apart_all (major_span <$> majors h) ->
  apart_all (blocks h) /\ NoDup (fst <$> blocks h).
Proof.
  intros HF Hsp. pose proof (minor_spans_apart _ HF Hsp) as Hap.
  fold (live_minors h) in Hap. rewrite blocks_live.
  assert (forall m, m ∈ live_minors h -> 0 < min_addr m /\ 0 <= min_req m /\ min_req m + 32 <= min_size m)
    as Hok by (intros; by apply (live_minor_ok h)).
  induction (live_minors h) as [|m l IH]; [by repeat constructor|].
  rewrite fmap_cons in Hap. destruct Hap as [Ha Hap].
  destruct IH as [IH1 IH2]; [done|intros; apply Hok; by right|].
  assert (forall x, x ∈ l -> apart (user_block m) (user_block x) /\ fst (user_block m) <> fst (user_block x))
    as Hx.
  { intros x Hin. rewrite Forall_fmap, Forall_forall in Ha. specialize (Ha x Hin).
    destruct (Hok m) as (? & ? & ?); [by left|]. destruct (Hok x) as (? & ? & ?); [by right|].
    destruct (user_block_inside m) as [? ?]; [lia|lia|].
    destruct (user_block_inside x) as [? ?]; [lia|lia|].
    unfold apart in *. simpl in *. lia. }
  rewrite !fmap_cons. split.
  - split; [|done]. apply Forall_fmap, Forall_forall. intros x Hin. by apply Hx.
  - constructor; [|done]. intros ([p n] & E & Hin)%list_elem_of_fmap.
    apply list_elem_of_fmap in Hin as (x & E' & Hin). destruct (Hx x Hin) as [_ Hne].
    apply Hne. rewrite <- E'. exact E.
Qed.

Lemma heap_wf_bestBet h b :
  heap_wf h -> (forall a, b = Some a -> exists M, M ∈ majors h /\ maj_addr M = a) ->
  heap_wf (set_bestBet h b).
Proof. intros (H1 & H2 & H3 & _ & H5) Hb. split_and!; done. Qed.

(** * New pages *)

Lemma pages_for_spec size : 0 <= size -> size + 8192 < 2 ^ 32 ->
  size + sizeof_major + sizeof_minor <= 4096 * pages_for size < 2 ^ 32 /\ 0 < pages_for size.
Proof.
  intros H0 H1. unfold pages_for, l_pageSize, l_pageCount, sizeof_major, sizeof_minor. cbv zeta.
  rewrite (wrapu_small 32 (size + 40)), (wrapu_small 32 (size + 40 + 40)) by lia.
  pose proof (Z.div_mod (size + 40 + 40) 4096 ltac:(lia)) as Hd.
  pose proof (Z.mod_pos_bound (size + 40 + 40) 4096 ltac:(lia)) as Hm.
  destruct (Z.eqb_spec ((size + 40 + 40) mod 4096) 0); case_Z; lia.
Qed.

Lemma allocate_new_page_spec size h :
  heap_wf h -> 0 <= size -> size + 8192 < 2 ^ 32 ->
  match allocate_new_page size h with
  | (None, h') => heap_wf h' /\ majors h' = majors h
  | (Some M, h') => heap_wf (set_majors h' (majors h ++ [M])) /\ majors h' = majors h /\
      major_wf M /\ maj_minors M = [] /\ size + sizeof_major + sizeof_minor <= maj_size M /\
      maj_usage M = sizeof_major
  end.
Proof.
  intros (H1 & H2 & H3 & H4 & H5) H0 Hs. unfold allocate_new_page.
  rewrite (wrapu_small 32 size) by lia. destruct (pages_for_spec size H0 Hs) as [Hp Hpos].
  destruct (page_alloc (pages_for size) (world h)) as [[a|] w] eqn:E.
  - apply page_alloc_Some in E as (Ha & Hend & Hreg & Hdis); [|done].
    unfold l_pageSize. rewrite Z.mul_comm. rewrite (wrapu_small 32 (4096 * _)) by lia. cbn [set_majors majors maj_minors].
    assert (major_wf (mk_major a (pages_for size) (4096 * pages_for size) sizeof_major [])) as HM.
    { unfold sizeof_major, sizeof_minor in *. split_and!; simpl; unfold sizeof_major; lia. }
    split_and!; [|done|done|done|simpl; lia|done]. split_and!; simpl.
    + apply Forall_app. split; [done|]. by apply Forall_singleton.
    + rewrite fmap_app. apply apart_all_app. split_and!; [done|by repeat constructor|].
      intros x y (M & -> & HM')%list_elem_of_fmap ->%list_elem_of_singleton.
      destruct (Hdis (maj_addr M) (maj_pages M)) as [Hd|Hd].
      { rewrite <- H3. apply list_elem_of_fmap. by exists M. }
      * right. simpl. rewrite Forall_forall in H1. destruct (H1 M HM') as (_ & _ & ? & _). lia.
      * left. simpl. rewrite Forall_forall in H1. destruct (H1 M HM') as (_ & _ & ? & _). lia.
    + rewrite fmap_app, Hreg, <- H3. simpl. by rewrite Permutation_app_comm.
    + intros b Hb. destruct (H4 b Hb) as (M & ? & ?). exists M. split; [|done]. apply elem_of_app. by left.
    + intros M m [HM'| ->%list_elem_of_singleton]%elem_of_app Hm; [by apply (H5 M)|].
      by apply not_elem_of_nil in Hm.
  - apply page_alloc_None in E. cbn [majors]. split; [|done]. split_and!; simpl; try done. by rewrite E.
Qed.

(** * malloc *)

Definition malloc_post (B : list (Z * Z)) (req : Z) (r : option Z) h : Prop :=
  heap_wf h /\
  match r with
  | Some p => (16 | p) /\ 0 < p /\ blocks h ≡ₚ (p, req) :: B
  | None => blocks h = B
  end.

Section malloc.
Context (size req : Z) (Hreq : 0 <= req) (Hsz : req + 32 <= size) (Hsize : size + 8192 < 2 ^ 32).

(** A major block replaced by one at the same place. *)
Lemma insert_major_elem (l : list major) i M M' N : l !! i = Some M -> N ∈ <[i := M']> l -> N = M' \/ N ∈ l.
Proof.
  intros Hi HN. apply list_elem_of_lookup_1 in HN as [j HN].
  apply list_lookup_insert_Some in HN as [(_ & <- & _)|[_ HN]]; [by left|right; by eapply list_elem_of_lookup_2].
Qed.

Lemma insert_major_addr (l : list major) i M M' N :
  l !! i = Some M -> maj_addr M' = maj_addr M -> N ∈ l -> exists N', N' ∈ <[i := M']> l /\ maj_addr N' = maj_addr N.
Proof.
  intros Hi Ha HN. apply list_elem_of_lookup_1 in HN as [j HN]. destruct (decide (i = j)) as [<-|Hne].
  - exists M'. split; [|congruence]. eapply list_elem_of_lookup_2. apply list_lookup_insert_eq.
    by eapply lookup_lt_Some.
  - exists N. split; [|done]. eapply list_elem_of_lookup_2. by rewrite list_lookup_insert_ne.
Qed.

Lemma fmap_insert_same {A B} (f : A -> B) (l : list A) i x y :
  l !! i = Some x -> f y = f x -> f <$> <[i := y]> l = f <$> l.
Proof. intros Hi E. rewrite list_fmap_insert, E. apply list_insert_id. by rewrite list_lookup_fmap, Hi. Qed.

Lemma replace_major_wf h i M M' alloc inuse warnings :
  heap_wf h -> majors h !! i = Some M -> major_wf M' -> maj_addr M' = maj_addr M -> maj_pages M' = maj_pages M ->
  major_span M' = major_span M -> (forall m, m ∈ maj_minors M' -> m ∈ maj_minors M) ->
  heap_wf (mk_heap (<[i := M']> (majors h)) (l_bestBet h) alloc inuse warnings (align_info h) (world h)).
Proof.
  intros (H1 & H2 & H3 & H4 & H5) Hi HM Ha Hp Hs Hm. split_and!; simpl; try done.
  - by apply Forall_insert.
  - by rewrite (fmap_insert_same _ _ _ M).
  - rewrite (fmap_insert_same _ _ _ M); [done|done|]. unfold major_region. by rewrite Ha, Hp.
  - intros b Hb. destruct (H4 b Hb) as (N & HN & <-). by apply (insert_major_addr _ i M).
  - intros N m HN Hmn. destruct (insert_major_elem _ _ _ _ _ Hi HN) as [->|HN']; [|by apply (H5 N)].
    apply (H5 M); [by eapply list_elem_of_lookup_2|by apply Hm].
Qed.

(** The blocks of the other major blocks stay. *)
Lemma blocks_of_insert l i M M' :
  l !! i = Some M -> exists k1 k2, blocks_of l = k1 ++ major_blocks M ++ k2 /\
    blocks_of (<[i := M']> l) = k1 ++ major_blocks M' ++ k2.
Proof.
  intros Hi. destruct (list_insert_split l i M M' Hi) as (k1 & k2 & E1 & E2).
  exists (blocks_of k1), (blocks_of k2). rewrite E2, E1 at 1. by rewrite !blocks_of_app.
Qed.

(** The pointer of the new block is recorded, and those of the others stay. *)
Lemma place_pointer_info h h' M' l1 l2 a N m :
  heap_wf h -> Forall major_wf (majors h') -> apart_all (major_span <$> majors h') ->
  M' ∈ majors h' -> maj_minors M' = l1 ++ mk_minor a size req :: l2 -> 0 < a ->
  (forall N, N ∈ majors h' -> N = M' \/ N ∈ majors h) ->
  (exists M, M ∈ majors h /\ maj_minors M = l1 ++ l2) ->
  N ∈ majors h' -> m ∈ maj_minors N ->
  <[user_ptr a := user_ptr a - (a + sizeof_minor)]> (align_info h) !! user_ptr (min_addr m) =
    Some (user_ptr (min_addr m) - (min_addr m + sizeof_minor)).
Proof.
  intros (_ & _ & _ & _ & H5) F' S' HM' Hms Ha Hold (M & HM & Hm) HN Hmn.
  destruct (decide (min_addr m = a)) as [<-|Hne]; [by rewrite lookup_insert_eq|].
  assert (m ∈ live_minors h') as Lm by (apply live_minor_inv; by exists N).
  assert (mk_minor a size req ∈ live_minors h') as La.
  { apply live_minor_inv. exists M'. split; [done|]. rewrite Hms. apply elem_of_app; right; by left. }
  assert (user_ptr (min_addr m) <> user_ptr a) as Hp.
  { destruct (live_minor_ok h' m F' Lm) as (? & ? & ?). destruct (live_minor_ok h' _ F' La) as (? & ? & ?).
    destruct (user_block_inside m) as [? ?]; [lia|lia|].
    destruct (user_block_inside (mk_minor a size req)) as [? ?]; [simpl in *; lia|simpl in *; lia|].
    assert (apart (minor_span m) (minor_span (mk_minor a size req))) as Hap.
    { eapply apart_all_elem; [by apply (minor_spans_apart (majors h') F')| | |].
      - apply list_elem_of_fmap. by exists m.
      - apply list_elem_of_fmap. by exists (mk_minor a size req).
      - unfold minor_span. simpl. congruence. }
    unfold apart in Hap. simpl in *. lia. }
  rewrite lookup_insert_ne by done. destruct (Hold N HN) as [->|HN']; [|by apply (H5 N)].
  apply (H5 M); [done|]. rewrite Hm. rewrite Hms in Hmn.
  apply elem_of_app in Hmn as [?|[->|?]%elem_of_cons]; [apply elem_of_app; by left|done|apply elem_of_app; by right].
Qed.

Lemma place_done_spec h i M l1 l2 a :
  heap_wf h -> majors h !! i = Some M -> maj_minors M = l1 ++ l2 ->
  chain (maj_addr M + sizeof_major) (maj_addr M + maj_size M) (l1 ++ mk_minor a size req :: l2) ->
  let '(p, h') := place_done h i M (l1 ++ mk_minor a size req :: l2) a size in
  malloc_post (blocks h) req (Some p) h'.
Proof.
  intros Hwf Hi Hm Hc. pose proof Hwf as (H1 & H2 & H3 & H4 & H5). unfold place_done.
  pose proof (Forall_lookup_1 _ _ _ _ H1 Hi) as (M1 & M2 & M3 & M4 & M5 & M6 & M7).
  rewrite (need_small size req) by lia. set (M' := mk_major _ _ _ _ _).
  assert (major_wf M') as HM'.
  { unfold M'. split_and!; simpl; try done. rewrite M7, Hm. apply chain_le in Hc as Hle.
    pose proof (used_nonneg _ _ _ M6) as Hu. rewrite Hm in Hu. rewrite used_app in *. simpl in *.
    unfold sizeof_major, sizeof_minor in *. rewrite used_app. simpl. unfold sizeof_minor. rewrite wrapu_small by lia. lia. }
  assert (min_ok : 0 < a).
  { destruct (chain_elem _ _ _ (mk_minor a size req) Hc) as (? & _); [apply elem_of_app; right; by left|].
    unfold sizeof_major in *. simpl in *. lia. }
  destruct (ALIGN_spec (a + sizeof_minor)) as (A1 & A2 & A3); [unfold sizeof_minor; lia|].
  fold (user_ptr a) in A1, A2, A3.
  destruct (ALIGN (a + sizeof_minor)) as [p info] eqn:EA.
  assert (p = user_ptr a) as -> by (unfold user_ptr; by rewrite EA). cbn [fst snd] in A3. subst info.
  set (h' := mk_heap _ _ _ _ _ _ _).
  assert (Forall major_wf (majors h')) as F' by by apply Forall_insert.
  assert (major_span <$> majors h' = major_span <$> majors h) as S' by by apply (fmap_insert_same _ _ _ M).
  assert (M' ∈ majors h') as HM'in.
  { eapply list_elem_of_lookup_2. apply list_lookup_insert_eq. by eapply lookup_lt_Some. }
  split; [split_and!; try done|].
  - by rewrite S'.
  - unfold h'. cbn [majors world]. by rewrite (fmap_insert_same _ _ _ M).
  - intros b Hb. destruct (H4 b Hb) as (N & HN & <-). by apply (insert_major_addr _ i M).
  - intros N m HN Hmn. apply (place_pointer_info h h' M' l1 l2 a N m); try done.
    + by rewrite S'.
    + intros N' HN'. exact (insert_major_elem _ i M M' N' Hi HN').
    + exists M. split; [by eapply list_elem_of_lookup_2|done].
  - split; [done|]. split; [unfold sizeof_minor in *; lia|].
    destruct (blocks_of_insert _ i M M' Hi) as (k1 & k2 & E1 & E2).
    unfold blocks, h'. cbn [majors]. rewrite E1, E2. unfold major_blocks, M'. cbn [maj_minors].
    rewrite Hm, !fmap_app, fmap_cons. unfold user_block at 2. cbn [min_addr min_req].
    rewrite <- !app_assoc. simpl. by rewrite !Permutation_middle.
Qed.

(** Placing in a major that [place] accepts. *)
Lemma try_place_some again h i st bs M l a :
  heap_wf h -> majors h !! i = Some M ->
  (maj_minors M = [] -> size + sizeof_minor + sizeof_major <= maj_size M) ->
  place M size req = Some (l, a) ->
  exists p h', try_place again h i st bs size req = Ret (Some p, h') /\
    malloc_post (blocks h) req (Some p) h'.
Proof.
  intros Hwf Hi Hroom Hpl. unfold try_place. rewrite Hi, Hpl.
  pose proof (Forall_lookup_1 _ _ _ _ (proj1 Hwf) Hi) as HM.
  destruct (place_spec size req Hreq Hsz ltac:(lia) M l a HM Hroom Hpl) as (l1 & l2 & Em & -> & Hc).
  pose proof (place_done_spec h i M l1 l2 a Hwf Hi Em Hc) as Hd.
  destruct (place_done _ _ _ _ _ _) as [p h']. by eexists _, _.
Qed.

Lemma place_empty M : maj_minors M = [] -> is_Some (place M size req).
Proof. intros E. unfold place. rewrite E. by eexists. Qed.

(** A major that has just been appended. *)
Definition fresh_major h i : Prop :=
  exists M, majors h !! i = Some M /\ maj_minors M = [] /\
    size + sizeof_major + sizeof_minor <= maj_size M /\ maj_usage M = sizeof_major.

Lemma try_place_fresh again h i st bs :
  heap_wf h -> fresh_major h i ->
  exists p h', try_place again h i st bs size req = Ret (Some p, h') /\
    malloc_post (blocks h) req (Some p) h'.
Proof.
  intros Hwf (M & Hi & Em & Hs & _). destruct (place_empty M Em) as [[l a] Hpl].
  apply (try_place_some again h i st bs M l a); try done.
Qed.

Lemma malloc_loop_fresh fuel h i st bs :
  heap_wf h -> fresh_major h i -> (0 < fuel)%nat ->
  exists p h', malloc_loop fuel size req i st bs h = Ret (Some p, h') /\
    malloc_post (blocks h) req (Some p) h'.
Proof.
  intros Hwf Hf Hfuel. destruct fuel as [|fuel]; [lia|]. cbn [malloc_loop].
  pose proof Hf as (M & Hi & Em & Hs & Hu). rewrite Hi. cbv zeta.
  pose proof (Forall_lookup_1 _ _ _ _ (proj1 Hwf) Hi) as (M1 & M2 & M3 & M4 & M5 & _).
  rewrite (need_small size req) by lia. unfold sizeof_major, sizeof_minor in *. rewrite Hu. rewrite (wrapu_small 32) by lia.
  destruct (bs <? maj_size M - 40).
  - rewrite (proj2 (Z.ltb_ge _ _)) by lia.
    apply (try_place_fresh _ (set_bestBet h (Some (maj_addr M)))); [|done].
    apply heap_wf_bestBet; [done|]. intros a [= <-]. exists M. split; [|done].
    by eapply list_elem_of_lookup_2.
  - rewrite (proj2 (Z.ltb_ge _ _)) by lia. by apply try_place_fresh.
Qed.

(** The three outcomes of a hop. *)
Lemma next_major_spec h i st :
  heap_wf h -> (i < length (majors h))%nat ->
  match next_major h i st size with
  | (Hop j st', h') => h' = h /\
      ((j = S i /\ st' = st /\ S i < length (majors h))%nat \/
       (j = O /\ st = true /\ st' = false /\ S i = length (majors h))%nat)
  | (Appended j, h') => heap_wf h' /\ fresh_major h' j /\ blocks h' = blocks h
  | (NoMemory, h') => heap_wf h' /\ blocks h' = blocks h
  end.
Proof.
  intros Hwf Hi. unfold next_major. case_decide; [split; [done|by left]|].
  destruct st; [split; [done|right; split_and!; (done || lia)]|].
  pose proof (allocate_new_page_spec size h Hwf ltac:(lia) Hsize) as Ha.
  destruct (allocate_new_page size h) as [[M|] h1].
  - destruct Ha as (Hw & Hm & HM & Em & Hs & Hu). rewrite Hm in *. split; [done|]. split.
    + exists M. simpl. split_and!; try done. rewrite lookup_app_r by lia.
      by replace (S i - length (majors h))%nat with O by lia.
    + unfold blocks. simpl. rewrite blocks_of_app. unfold blocks_of at 2. simpl. unfold major_blocks.
      rewrite Em. simpl. by rewrite app_nil_r.
  - destruct Ha as [Hw Hm]. split; [done|]. unfold blocks. by rewrite Hm.
Qed.

(** Turns the search may still take from the major [i]. *)
Definition turns (n i : nat) (st : bool) : nat := (n - i) + (if st then n + 1 else 1).

Lemma malloc_loop_spec fuel : forall h i st bs,
  heap_wf h -> (i < length (majors h))%nat -> (turns (length (majors h)) i st <= fuel)%nat ->
  exists r h', malloc_loop fuel size req i st bs h = Ret (r, h') /\ malloc_post (blocks h) req r h'.
Proof.
  induction fuel as [|fuel IH]; intros h i st bs Hwf Hi Hf; [unfold turns in Hf; lia|].
  cbn [malloc_loop]. destruct (lookup_lt_is_Some_2 _ _ Hi) as [M HM]. rewrite HM. cbv zeta.
  rewrite (need_small size req) by lia. set (diff := u32 _).
  assert (exists h1 bs1, (if bs <? diff then (set_bestBet h (Some (maj_addr M)), diff) else (h, bs)) = (h1, bs1) /\
            heap_wf h1 /\ majors h1 = majors h) as (h1 & bs1 & -> & Hwf1 & Hmaj).
  { destruct (bs <? diff); eexists _, _; split_and!; try done.
    apply heap_wf_bestBet; [done|]. intros a [= <-]. exists M. split; [|done].
    by eapply list_elem_of_lookup_2. }
  assert (blocks h1 = blocks h) as Hbl by (unfold blocks; by rewrite Hmaj).
  rewrite <- Hbl. clear Hbl. rewrite <- Hmaj in *. clear Hmaj Hwf.
  (* after a hop that neither placed nor appended *)
  assert (forall j st', (j = S i /\ st' = st /\ S i < length (majors h1))%nat \/
            (j = O /\ st = true /\ st' = false /\ S i = length (majors h1))%nat ->
          exists r h', malloc_loop fuel size req j st' bs1 h1 = Ret (r, h') /\
            malloc_post (blocks h1) req r h') as Hhop.
  { intros j st' Hj. apply IH; [done| |]; unfold turns in *;
      destruct Hj as [(-> & -> & ?)|(-> & -> & -> & ?)]; try lia; destruct st; lia. }
  pose proof (next_major_spec h1 i st Hwf1 Hi) as Hn.
  pose proof (Forall_lookup_1 _ _ _ _ (proj1 Hwf1) HM) as HMwf.
  destruct (Z.ltb_spec diff (size + sizeof_minor)) as [Hlt|Hge].
  - destruct (next_major h1 i st size) as [[j st'|j|] h2].
    + destruct Hn as [-> Hj]. by apply Hhop.
    + destruct Hn as (Hw2 & Hfr & <-). destruct (try_place_fresh (malloc_loop fuel size req) h2 j st bs1 Hw2 Hfr)
        as (p & h' & ? & ?). by exists (Some p), h'.
    + destruct Hn as [Hw2 Hb]. by exists None, h2.
  - assert (maj_minors M = [] -> size + sizeof_minor + sizeof_major <= maj_size M) as Hroom.
    { intros Em. destruct HMwf as (? & ? & ? & ? & ? & Hc & Hu). rewrite Em in *. simpl in *.
      unfold diff in Hge. unfold sizeof_major, sizeof_minor in *. rewrite Hu in Hge.
      rewrite wrapu_small in Hge by lia. lia. }
    destruct (place M size req) as [[l a]|] eqn:Hpl.
    + destruct (try_place_some (malloc_loop fuel size req) h1 i st bs1 M l a Hwf1 HM Hroom Hpl)
        as (p & h' & ? & ?). by exists (Some p), h'.
    + unfold try_place. rewrite HM, Hpl. destruct (next_major h1 i st size) as [[j st'|j|] h2].
      * destruct Hn as [-> Hj]. by apply Hhop.
      * destruct Hn as (Hw2 & Hfr & <-).
        destruct (malloc_loop_fresh fuel h2 j st bs1 Hw2 Hfr) as (p & h' & ? & ?);
          [unfold turns in Hf; destruct st; lia|]. by exists (Some p), h'.
      * destruct Hn as [Hw2 Hb]. by exists None, h2.
Qed.

Lemma malloc_search_spec h :
  heap_wf h -> majors h <> [] ->
  exists r h', malloc_search size req h = Ret (r, h') /\ malloc_post (blocks h) req r h'.
Proof.
  intros Hwf Hne. assert (0 < length (majors h))%nat as Hlen by (destruct (majors h); simpl; [done|lia]).
  assert (forall bs, exists r h', malloc_loop (malloc_fuel h) size req 0 false bs h = Ret (r, h') /\
            malloc_post (blocks h) req r h') as H0.
  { intros bs. apply malloc_loop_spec; [done|done|]. unfold turns, malloc_fuel. lia. }
  unfold malloc_search. destruct (l_bestBet h) as [b|] eqn:Eb; [|apply H0].
  destruct Hwf as (H1 & H2 & H3 & H4 & H5). destruct (H4 b Eb) as (M & HM & Hb).
  unfold find_major. destruct (list_find_elem_of (fun m => maj_addr m = b) (majors h) M HM Hb) as [[i m] Ef].
  rewrite Ef. cbn [deref mbind ctl_bind]. cbv zeta.
  destruct (_ <? _); [|apply H0]. apply malloc_loop_spec; [done| |].
  - apply list_find_Some in Ef as (Ef & _). by eapply lookup_lt_Some.
  - unfold turns, malloc_fuel. lia.
Qed.
End malloc.

Lemma kmalloc_spec h req :
  heap_wf h -> 0 <= req < 2 ^ 31 ->
  exists r h', kmalloc req h = Ret (r, h') /\ malloc_post (blocks h) req r h'.
Proof.
  intros Hwf Hr. unfold kmalloc, ALIGNMENT, ALIGN_INFO. rewrite wrapu_small by lia. cbv zeta.
  rewrite (proj2 (Z.eqb_neq _ _)) by lia. destruct (majors h) as [|M0 ms] eqn:Em.
  - pose proof (allocate_new_page_spec (req + (16 + 16)) h Hwf ltac:(lia) ltac:(lia)) as Ha.
    destruct (allocate_new_page _ h) as [[M|] h1].
    + destruct Ha as (Hw & Hm & _ & Emm & _). rewrite Em in Hw. simpl app in Hw.
      destruct (malloc_search_spec (req + (16 + 16)) req ltac:(lia) ltac:(lia) ltac:(lia)
                  (set_majors h1 [M]) Hw ltac:(done)) as (r & h' & -> & Hp).
      exists r, h'. split; [done|].
      replace (blocks h) with (blocks (set_majors h1 [M])); [done|].
      unfold blocks. rewrite Em. unfold blocks_of. simpl. unfold major_blocks. by rewrite Emm.
    + destruct Ha as [Hw Hm]. exists None, h1. split; [done|]. split; [done|]. unfold blocks. by rewrite Hm.
  - apply malloc_search_spec; [lia|lia|lia|done|by rewrite Em].
Qed.

(** * free *)

Lemma find_minor_Some a l : forall i j M k m,
  find_minor a i l = Some (j, M, k, m) ->
  (i <= j)%nat /\ l !! (j - i)%nat = Some M /\ maj_minors M !! k = Some m /\ min_addr m = a.
Proof.
  induction l as [|N l IH]; intros i j M k m; simpl; [done|].
  destruct (list_find _ _) as [[k' m']|] eqn:E.
  - intros [= <- <- <- <-]. apply list_find_Some in E as (E1 & E2 & _).
    rewrite Nat.sub_diag. split_and!; (done || lia).
  - intros (? & E1 & ? & ?)%IH. split_and!; try done; [lia|].
    by replace (j - i)%nat with (S (j - S i))%nat by lia.
Qed.

Lemma find_minor_None a l : forall i M m,
  find_minor a i l = None -> M ∈ l -> m ∈ maj_minors M -> min_addr m <> a.
Proof.
  induction l as [|N l IH]; intros i M m; [by intros _ ?%not_elem_of_nil|]. simpl.
  destruct (list_find _ _) as [[k' m']|] eqn:E; [done|]. intros Hn [->|HM]%elem_of_cons Hm.
  - apply list_find_None in E. rewrite Forall_forall in E. by apply E.
  - by eapply IH.
Qed.

(** The pointer of a live block leads back to its header. *)
Lemma UNALIGN_live h m :
  heap_wf h -> m ∈ live_minors h -> UNALIGN h (user_ptr (min_addr m)) = Ret (min_addr m + sizeof_minor).
Proof.
  intros (H1 & _ & _ & _ & H5) Hm. apply live_minor_inv in Hm as Hm'. destruct Hm' as (M & HM & Hin).
  destruct (live_minor_ok h m H1 Hm) as (? & ? & ?).
  destruct (user_ptr_spec (min_addr m)) as [_ Hp]; [lia|].
  unfold UNALIGN, ALIGNMENT, ALIGN_INFO. rewrite (H5 M m HM Hin). cbn [deref mbind ctl_bind].
  unfold sizeof_minor in *. rewrite (proj2 (Z.ltb_lt _ _)) by lia. f_equal. lia.
Qed.

Lemma blocks_of_delete l i M : l !! i = Some M -> blocks_of l ≡ₚ major_blocks M ++ blocks_of (delete i l).
Proof.
  intros Hi. rewrite <- (take_drop_middle l i M Hi) at 1. rewrite delete_take_drop, !blocks_of_app.
  unfold blocks_of at 2. rewrite fmap_cons. simpl concat. fold (blocks_of (drop (S i) l)).
  rewrite !app_assoc. apply Permutation_app_tail. apply Permutation_app_comm.
Qed.

Lemma major_delete_wf M k m :
  major_wf M -> maj_minors M !! k = Some m ->
  major_wf (mk_major (maj_addr M) (maj_pages M) (maj_size M)
              (u32 (maj_usage M - (min_size m + sizeof_minor))) (delete k (maj_minors M))).
Proof.
  intros (M1 & M2 & M3 & M4 & M5 & M6 & M7) Hk. destruct (chain_delete _ _ _ _ _ M6 Hk) as [Hc Hu].
  split_and!; simpl; try done. pose proof (used_nonneg _ _ _ Hc) as Hn. apply chain_le in Hc.
  unfold sizeof_major, sizeof_minor in *. rewrite M7, Hu, wrapu_small by lia. lia.
Qed.

(** A major block whose last minor block is freed goes back to the system. *)
Lemma delete_major_wf h i M alloc inuse warnings :
  heap_wf h -> majors h !! i = Some M ->
  let bet := match l_bestBet h with
             | Some b => if b =? maj_addr M then None else Some b
             | None => None
             end in
  heap_wf (mk_heap (delete i (majors h)) bet alloc inuse warnings (align_info h)
             (page_free (maj_addr M) (maj_pages M) (world h))).
Proof.
  intros (H1 & H2 & H3 & H4 & H5) Hi bet. pose proof (delete_Permutation _ _ _ Hi) as Hperm.
  split_and!; simpl.
  - rewrite Hperm in H1. by apply Forall_cons in H1 as [_ H1].
  - apply (apart_all_perm _ (major_span M :: (major_span <$> delete i (majors h)))) in H2; [by destruct H2|].
    exact (fmap_Permutation major_span _ _ Hperm).
  - rewrite Hperm in H3. rewrite fmap_cons in H3.
    assert ((maj_addr M, maj_pages M) ∈ regions (world h)) as Hr by (rewrite <- H3; by left).
    apply page_free_regions in Hr. rewrite Hr in H3. by apply Permutation_cons_inv in H3.
  - intros b Hb. unfold bet in Hb. destruct (l_bestBet h) as [b'|] eqn:Ebb; [|done].
    destruct (Z.eqb_spec b' (maj_addr M)) as [|Hne]; [done|]. injection Hb as ->.
    destruct (H4 b eq_refl) as (N & HN & HNb). exists N. split; [|done].
    rewrite Hperm in HN. apply elem_of_cons in HN as [->|HN]; [done|done].
  - intros N x HN Hx. apply (H5 N x); [|done]. rewrite Hperm. by right.
Qed.

(** The header the pointer leads to. *)
Lemma find_minor_block h m0 :
  heap_wf h -> m0 ∈ live_minors h -> exists i M k m,
    find_minor (min_addr m0) 0 (majors h) = Some (i, M, k, m) /\ majors h !! i = Some M /\
    maj_minors M !! k = Some m /\ user_block m = user_block m0.
Proof.
  intros Hwf Hm0. pose proof Hwf as (H1 & H2 & _). destruct (blocks_apart h H1 H2) as [_ Hnd].
  destruct (find_minor (min_addr m0) 0 (majors h)) as [[[[i M] k] m]|] eqn:E.
  2:{ exfalso. apply live_minor_inv in Hm0 as (M & HM & Hm). by apply (find_minor_None _ _ _ M m0 E HM Hm). }
  exists i, M, k, m. split; [done|]. apply find_minor_Some in E as (_ & Hi & Hk & Ea).
  rewrite Nat.sub_0_r in Hi. split; [done|]. split; [done|].
  assert (m ∈ live_minors h) as Hm by (apply live_minor_inv; exists M; split; by eapply list_elem_of_lookup_2).
  eapply (NoDup_fmap_fst_unique (blocks h)); [done| | |unfold user_block; simpl; by rewrite Ea];
    rewrite blocks_live; apply list_elem_of_fmap; eauto.
Qed.

Lemma kfree_spec h p n :
  heap_wf h -> (p, n) ∈ blocks h ->
  exists h', kfree (Some p) h = Ret h' /\ heap_wf h' /\ blocks h ≡ₚ (p, n) :: blocks h' /\
    align_info h' = align_info h.
Proof.
  intros Hwf Hin. rewrite blocks_live in Hin. apply list_elem_of_fmap in Hin as (m0 & [= -> ->] & Hm0).
  unfold kfree. rewrite (UNALIGN_live h m0 Hwf Hm0). cbn [mbind ctl_bind].
  replace (min_addr m0 + sizeof_minor - sizeof_minor) with (min_addr m0) by lia.
  destruct (find_minor_block h m0 Hwf Hm0) as (i & M & k & m & -> & Hi & Hk & Eb).
  cbn [deref mbind ctl_bind]. cbv zeta. fold (user_block m0). rewrite <- Eb.
  pose proof (major_delete_wf M k m (Forall_lookup_1 _ _ _ _ (proj1 Hwf) Hi) Hk) as HM'.
  set (M' := mk_major _ _ _ _ _) in *. pose proof (delete_Permutation _ _ _ Hk) as Hpk.
  assert (major_blocks M ≡ₚ user_block m :: (user_block <$> delete k (maj_minors M))) as Hmb
    by exact (fmap_Permutation user_block _ _ Hpk).
  destruct (delete k (maj_minors M)) as [|m1 ms] eqn:Ed.
  - eexists. split; [done|]. split; [by apply delete_major_wf|split; [|done]].
    unfold blocks. simpl. rewrite (blocks_of_delete _ _ _ Hi). by rewrite Hmb.
  - assert (heap_wf (mk_heap (<[i := M']> (majors h)) (l_bestBet h) (l_allocated h)
      (l_inuse h - min_size m) (l_warningCount h) (align_info h) (world h))) as Hw.
    { apply (replace_major_wf _ _ M); try done. intros x Hx. rewrite Hpk. by right. }
    assert (blocks_of (majors h) ≡ₚ user_block m :: blocks_of (<[i := M']> (majors h))) as Hblk.
    { destruct (blocks_of_insert _ i M M' Hi) as (k1 & k2 & E1 & E2). rewrite E1, E2, Hmb.
      change (major_blocks M') with (user_block <$> m1 :: ms). rewrite <- app_comm_cons.
      symmetry. apply Permutation_middle. }
    cbn [l_bestBet]. destruct (l_bestBet h) as [b|] eqn:Ebb; [|by eexists].
    pose proof Hwf as (_ & _ & _ & H4 & _). destruct (H4 b Ebb) as (N & HN & HNb).
    destruct (insert_major_addr _ i M M' N Hi eq_refl HN) as (N' & HN' & HNb').
    destruct (list_find_elem_of (fun m => maj_addr m = b) _ N' HN' ltac:(congruence)) as [[j N2] Ej].
    unfold find_major. rewrite Ej. cbn [deref mbind ctl_bind].
    eexists. split; [done|]. destruct (_ <? _); [|done]. split; [|done].
    apply heap_wf_bestBet; [done|]. intros a [= <-]. exists M'. split; [|done].
    eapply list_elem_of_lookup_2. simpl. apply list_lookup_insert_eq. by eapply lookup_lt_Some.
Qed.
End heap.

(** * Properties *)

(** C28: [malloc] of less than 2^31 bytes ends on every well-formed heap and keeps it
    well-formed. Either it returns NULL and no live block changes, or it returns a
    pointer aligned on 16 bytes and the live blocks gain exactly [req] bytes there;
    the live blocks, the new one included, never overlap and have different pointers.
    The bound is one on the request: sizes are narrowed to 32 bits, and a request of
    2^32 bytes gets a block of 16 pages ([large_request_gets_small_block]). *)
Theorem malloc_gives_fresh_block {W} `{PageAllocator W} (h : heap (W := W)) (req : Z) :
  heap_wf h -> 0 <= req < 2 ^ 31 ->
  exists r h', kmalloc req h = Ret (r, h') /\ heap_wf h' /\
    apart_all (blocks h') /\ NoDup (fst <$> blocks h') /\
    match r with
    | Some p => (16 | p) /\ 0 < p /\ blocks h' ≡ₚ (p, req) :: blocks h
    | None => blocks h' = blocks h
    end.
Proof.
  intros Hwf Hr. destruct (kmalloc_spec h req Hwf Hr) as (r & h' & E & Hw & Hp).
  exists r, h'. pose proof Hw as (H1 & H2 & _). destruct (blocks_apart h' H1 H2) as [Ha Hn].
  split_and!; done.
Qed.

(** [free] on the pointer of a live block ends, removes exactly that
    block and keeps the heap well-formed; freeing the pointer again stops at
    the check of the magic number. *)
Theorem free_removes_block {W} `{PageAllocator W} (h : heap (W := W)) (p n : Z) :
  heap_wf h -> (p, n) ∈ blocks h ->
  exists h', kfree (Some p) h = Ret h' /\ heap_wf h' /\ blocks h ≡ₚ (p, n) :: blocks h' /\
    kfree (Some p) h' = Trap.
Proof.
  intros Hwf Hin. destruct (kfree_spec h p n Hwf Hin) as (h' & E & Hw & Hb & Hal).
  exists h'. split_and!; try done.
  pose proof Hwf as (H1 & H2 & _). destruct (blocks_apart h H1 H2) as [_ Hnd].
  rewrite Hb in Hnd. rewrite fmap_cons in Hnd. apply NoDup_cons in Hnd as [Hp _]. cbn [fst] in Hp.
  pose proof Hin as Hin'. rewrite blocks_live in Hin'.
  apply list_elem_of_fmap in Hin' as (m & [= -> ->] & Hm).
  unfold kfree. assert (UNALIGN h' (user_ptr (min_addr m)) = Ret (min_addr m + sizeof_minor)) as ->.
  { rewrite <- (UNALIGN_live h m Hwf Hm). unfold UNALIGN. by rewrite Hal. }
  cbn [mbind ctl_bind]. replace (min_addr m + sizeof_minor - sizeof_minor) with (min_addr m) by lia.
  destruct (find_minor (min_addr m) 0 (majors h')) as [[[[i M] k] m']|] eqn:Ef; [|done].
  exfalso. apply Hp. apply find_minor_Some in Ef as (_ & Hi & Hk & Ea).
  rewrite blocks_live. apply list_elem_of_fmap. exists (user_block m').
  split; [unfold user_block; simpl; by rewrite Ea|]. apply list_elem_of_fmap_2.
  apply live_minor_inv. exists M. split; by eapply list_elem_of_lookup_2.
Qed.

(** * Witnesses *)

(** A page allocator: the regions given out; a new one is above all of them. *)
Definition top (w : list (Z * Z)) : Z := fold_right (fun '(a, n) t => Z.max (a + 4096 * n) t) 4096 w.

Fixpoint take_out (r : Z * Z) (w : list (Z * Z)) : list (Z * Z) :=
  match w with
  | [] => []
  | x :: w => if decide (x = r) then w else x :: take_out r w
  end.

Lemma top_above w a n : (a, n) ∈ w -> a + 4096 * n <= top w.
Proof.
  induction w as [|[b k] w IH]; [by intros ?%not_elem_of_nil|]. simpl.
  intros [[= -> ->]|Hin]%elem_of_cons; [lia|]. apply IH in Hin. lia.
Qed.

Lemma top_pos w : 4096 <= top w.
Proof. induction w as [|[b k] w IH]; simpl; lia. Qed.

Lemma take_out_perm r w : r ∈ w -> w ≡ₚ r :: take_out r w.
Proof.
  induction w as [|x w IH]; [by intros ?%not_elem_of_nil|]. simpl.
  case_decide as E; [by subst|]. intros [->|Hin]%elem_of_cons; [done|].
  rewrite (IH Hin) at 1. apply Permutation_swap.
Qed.

#[local] Program Instance stack_of_pages : PageAllocator (list (Z * Z)) := {|
  page_alloc n w := if top w + 4096 * n <? 2 ^ 64 then (Some (top w), (top w, n) :: w) else (None, w);
  page_free a n w := take_out (a, n) w;
  regions w := w
|}.
Next Obligation.
  intros n w a w' Hn. cbv beta. destruct (Z.ltb_spec (top w + 4096 * n) (2 ^ 64)) as [Hlt|]; [|done].
  intros [= <- <-]. pose proof (top_pos w). split_and!; [lia|lia|done|].
  intros b k Hin. right. by apply top_above.
Qed.
Next Obligation. intros n w w'. cbv beta. destruct (_ <? _); [done|]. by intros [= <-]. Qed.
Next Obligation. intros a n w. apply take_out_perm. Qed.

Definition no_heap : heap (W := list (Z * Z)) := mk_heap [] None 0 0 0 ∅ [].

Lemma no_heap_wf : heap_wf no_heap.
Proof.
  split_and!; simpl; try done; [by intros M m ?%not_elem_of_nil].
Qed.

Lemma malloc_gives_fresh_block_witness :
  heap_wf no_heap /\
  exists r h', kmalloc 100 no_heap = Ret (r, h') /\ heap_wf h' /\
    apart_all (blocks h') /\ NoDup (fst <$> blocks h') /\
    match r with
    | Some p => (16 | p) /\ 0 < p /\ blocks h' ≡ₚ (p, 100) :: blocks no_heap
    | None => blocks h' = blocks no_heap
    end.
Proof.
  split; [exact no_heap_wf|]. apply (malloc_gives_fresh_block no_heap 100 no_heap_wf). lia.
Defined.

(** A request of 4 GiB succeeds: the size of the pages to ask for and the size in the
    header are the low 32 bits of what is asked for. The pointer is in the second major
    the call appends, of 64 KiB, and the header says that 0 bytes were requested. *)
Lemma large_request_gets_small_block :
  exists h' M0 M, kmalloc (2 ^ 32) no_heap = Ret (Some 69728, h') /\ majors h' = [M0; M] /\
    maj_addr M = 69632 /\ maj_size M = 65536 /\ maj_minors M = [mk_minor 69672 32 0].
Proof. eexists _, _, _. split; [vm_compute; reflexivity|]. repeat split; reflexivity. Qed.

(** The heap after the first allocation; 4192 is the pointer it returned. *)
Definition one_block : heap (W := list (Z * Z)) :=
  match kmalloc 100 no_heap with Ret (_, h) => h | _ => no_heap end.

Lemma one_block_wf : heap_wf one_block.
Proof.
  destruct (kmalloc_spec no_heap 100 no_heap_wf ltac:(lia)) as (r & h' & E & Hw & _).
  unfold one_block. by rewrite E.
Qed.

Lemma free_removes_block_witness :
  exists h', kfree (Some 4192) one_block = Ret h' /\ heap_wf h' /\
    blocks one_block ≡ₚ (4192, 100) :: blocks h' /\ kfree (Some 4192) h' = Trap.
Proof.
  apply (free_removes_block one_block 4192 100 one_block_wf).
  replace (blocks one_block) with [(4192, 100)] by (vm_compute; reflexivity). by left.
Defined.
