(* ===== verification/IpcTypes.v ===== *)
(** wingos-headers/asset.h and wingos-headers/ipc.h: asset kinds and handles,
    and the messages tasks exchange. A handle is its 64-bit [_id]. *)

From S2P Require Import Prelude Range.

(** * asset.h *)

Inductive AssetKind :=
| OBJECT_KIND_UNKNOWN | OBJECT_KIND_MEMORY | OBJECT_KIND_MAPPING | OBJECT_KIND_SPACE
| OBJECT_KIND_TASK | OBJECT_KIND_SIGNAL_ENDPOINT | OBJECT_KIND_SIGNAL_ATTACHED
| OBJECT_KIND_IPC_ENDPOINT | OBJECT_KIND_IPC_CONNECTION | OBJECT_KIND_IPC_RETURN_TASK
| OBJECT_KIND_VM | OBJECT_KIND_VM_MAPPING.

#[global] Instance AssetKind_eq_dec : EqDecision AssetKind.
Proof. solve_decision. Defined.

(** The value of the enumerator, which user space sees. *)
Definition AssetKind_value (k : AssetKind) : Z :=
  match k with
  | OBJECT_KIND_UNKNOWN => 0
  | OBJECT_KIND_MEMORY => 1000
  | OBJECT_KIND_MAPPING => 2000
  | OBJECT_KIND_SPACE => 3000
  | OBJECT_KIND_TASK => 4000
  | OBJECT_KIND_SIGNAL_ENDPOINT => 5000
  | OBJECT_KIND_SIGNAL_ATTACHED => 6000
  | OBJECT_KIND_IPC_ENDPOINT => 7000
  | OBJECT_KIND_IPC_CONNECTION => 8000
  | OBJECT_KIND_IPC_RETURN_TASK => 9000
  | OBJECT_KIND_VM => 10000
  | OBJECT_KIND_VM_MAPPING => 11000
  end.

Definition ASSET_MAPPING_FLAG_READ : Z := 1.
Definition ASSET_MAPPING_FLAG_WRITE : Z := 2.
Definition ASSET_MAPPING_FLAG_EXECUTE : Z := 4.

Definition ASSET_HANDLE_ID_INVALID : Z := u64 (-1).
Definition ASSET_HANDLE_ID_SELF_SPACE : Z := 0.

(** [AssetHandle::invalid()], [AssetHandle::selfSpace()]. *)
Definition invalid : Z := ASSET_HANDLE_ID_INVALID.
Definition selfSpace : Z := ASSET_HANDLE_ID_SELF_SPACE.

(** OBJECT_KIND_VM_MAPPING has no case of its own. *)
Definition assetKind2Str (kind : AssetKind) : string :=
  match kind with
  | OBJECT_KIND_UNKNOWN => "UNKNOWN"
  | OBJECT_KIND_MEMORY => "MEMORY"
  | OBJECT_KIND_MAPPING => "MAPPING"
  | OBJECT_KIND_SPACE => "SPACE"
  | OBJECT_KIND_TASK => "TASK"
  | OBJECT_KIND_IPC_ENDPOINT => "IPC_SERVER"
  | OBJECT_KIND_IPC_CONNECTION => "IPC_CONNECTION"
  | OBJECT_KIND_IPC_RETURN_TASK => "IPC_RETURN_TASK"
  | OBJECT_KIND_SIGNAL_ENDPOINT => "SIGNAL_ENDPOINT"
  | OBJECT_KIND_SIGNAL_ATTACHED => "SIGNAL_ATTACHED"
  | OBJECT_KIND_VM => "VM"
  | _ => "INVALID_KIND"
  end.

(** * ipc.h *)

Definition MAX_IPC_BUFFER_SIZE : Z := 112.
Definition IPC_MESSAGE_ARGUMENTS_COUNT : Z := 6.

(** [data] and [asset_handle] are one union of two 64-bit integers. *)
Record IpcData := mk_IpcData {
  is_asset : bool;
  copy_asset : bool;
  _reserved_is_mapping : bool;
  data : Z
}.
Definition IpcData_init : IpcData := mk_IpcData false false false 0.

#[global] Instance IpcData_eq_dec : EqDecision IpcData.
Proof. solve_decision. Defined.

(** [IpcMessageArguments]: an array of six [IpcData]. *)
Definition IpcMessageArguments_init : list IpcData :=
  replicate (Z.to_nat IPC_MESSAGE_ARGUMENTS_COUNT) IpcData_init.

(** [buffer] is the array of MAX_IPC_BUFFER_SIZE / 8 words. *)
Record IpcMessage := mk_IpcMessage {
  arguments : list IpcData;
  port : Z;
  len : Z;
  is_null : bool;
  interrupted : bool;
  buffer : list Z
}.

#[global] Instance IpcMessage_eq_dec : EqDecision IpcMessage.
Proof. solve_decision. Defined.

(** The constructor leaves the buffer as it finds it. *)
Definition IpcMessage_init (memory : list Z) : IpcMessage :=
  mk_IpcMessage IpcMessageArguments_init 0 0 false false memory.

Definition buffer_words : nat := Z.to_nat (MAX_IPC_BUFFER_SIZE / 8).

(** [for (i = 0; i < n; i++) dst[i] = src[i]] *)
Fixpoint copy_words (dst src : list Z) (i : Z) (n : nat) : ctl (list Z) :=
  match n with
  | O => Ret dst
  | S n =>
      w ← deref (aget src i);
      dst ← deref (aset dst i w);
      copy_words dst src (i + 1) n
  end.

Definition words_of_len (len : Z) : nat := Z.to_nat (alignUp len 8 / 8).

(** [operator=(IpcMessage &&)] on two different objects; the move constructor
    and [IpcMessage::copy] are the same copy into fresh memory. *)
Definition assign_message (dst other : IpcMessage) : ctl IpcMessage :=
  b ← copy_words (buffer dst) (buffer other) 0 (words_of_len (len other));
  Ret (mk_IpcMessage (arguments other) (port other) (len other) (is_null other)
         (interrupted other) b).

Definition copy_message (memory : list Z) (other : IpcMessage) : ctl IpcMessage :=
  assign_message (IpcMessage_init memory) other.

Definition set_arguments (m : IpcMessage) (a : list IpcData) : IpcMessage :=
  mk_IpcMessage a (port m) (len m) (is_null m) (interrupted m) (buffer m).
Definition set_port (m : IpcMessage) (p : Z) : IpcMessage :=
  mk_IpcMessage (arguments m) p (len m) (is_null m) (interrupted m) (buffer m).
Definition set_is_null (m : IpcMessage) (b : bool) : IpcMessage :=
  mk_IpcMessage (arguments m) (port m) (len m) b (interrupted m) (buffer m).
Definition set_interrupted (m : IpcMessage) (b : bool) : IpcMessage :=
  mk_IpcMessage (arguments m) (port m) (len m) (is_null m) b (buffer m).

(** [arg(id, val)]: the asset flags stay as they are. *)
Definition arg_set (id val : Z) (m : IpcMessage) : ctl IpcMessage :=
  d ← deref (aget (arguments m) id);
  a ← deref (aset (arguments m) id
               (mk_IpcData (is_asset d) (copy_asset d) (_reserved_is_mapping d) (u64 val)));
  Ret (set_arguments m a).

Definition set_handle (copy : bool) (id val : Z) (m : IpcMessage) : ctl IpcMessage :=
  d ← deref (aget (arguments m) id);
  a ← deref (aset (arguments m) id (mk_IpcData true copy (_reserved_is_mapping d) (u64 val)));
  Ret (set_arguments m a).
Definition move_handle (id val : Z) (m : IpcMessage) : ctl IpcMessage := set_handle false id val m.
Definition copy_handle (id val : Z) (m : IpcMessage) : ctl IpcMessage := set_handle true id val m.

Definition arg (id : Z) (m : IpcMessage) : ctl Z :=
  d ← deref (aget (arguments m) id);
  if is_asset d then Trap else Ret (data d).

Definition asset_arg (id : Z) (m : IpcMessage) : ctl Z :=
  d ← deref (aget (arguments m) id);
  if is_asset d then Ret (data d) else Trap.

(** A message as its C++ type has it. *)
Definition msg_wf (m : IpcMessage) : Prop :=
  length (arguments m) = Z.to_nat IPC_MESSAGE_ARGUMENTS_COUNT /\
  length (buffer m) = buffer_words /\ 0 <= len m < 2 ^ 16.

(** * Lemmas *)

Lemma words_of_len_val l : 0 <= l < 2 ^ 16 -> words_of_len l = Z.to_nat ((l + 7) / 8).
Proof.
  intros Hl. unfold words_of_len, alignUp. rewrite (wrapu_small 64 (l + 8)) by lia.
  destruct (Z.eq_dec l 0) as [->|]; [done|].
  rewrite (wrapu_small 64 (l + 8 - 1)) by lia.
  replace (u64 (Z.lnot (u64 (8 - 1)))) with (Z.ldiff (Z.ones 64) (Z.ones 3)) by done.
  f_equal.
  replace (l + 8 - 1) with (l + 7) by lia.
  assert (Z.land (l + 7) (Z.ldiff (Z.ones 64) (Z.ones 3)) = (l + 7) / 8 * 8) as ->.
  { assert ((l + 7) / 8 * 8 = Z.shiftl (Z.shiftr (l + 7) 3) 3) as ->
      by by rewrite Z.shiftl_mul_pow2, Z.shiftr_div_pow2.
    rewrite <- Z.ldiff_ones_r by lia. apply Z.bits_inj'. intros k Hk.
    rewrite Z.land_spec, !Z.ldiff_spec, !Z.testbit_ones_nonneg by lia.
    destruct (Z.ltb_spec k 64), (Z.ltb_spec k 3); rewrite ?andb_true_r, ?andb_false_r; try done.
    rewrite Z.bits_above_log2; [done|lia|]. apply Z.log2_lt_pow2; [lia|].
    assert (2 ^ 17 <= 2 ^ k) by (apply Z.pow_le_mono_r; lia). lia. }
  by rewrite Z.div_mul.
Qed.

Lemma copy_words_spec n : forall dst src i,
  0 <= i -> i + Z.of_nat n <= zlen dst -> i + Z.of_nat n <= zlen src ->
  copy_words dst src i n =
    Ret (take (Z.to_nat i) dst ++ take n (drop (Z.to_nat i) src) ++ drop (Z.to_nat i + n) dst).
Proof.
  induction n as [|n IH]; intros dst src i Hi Hd Hs; simpl.
  - by rewrite Nat.add_0_r, take_drop.
  - destruct (aget_in_range src i) as [w Hw]; [lia|]. rewrite Hw. simpl.
    rewrite aset_in_range by lia. simpl.
    rewrite IH by len_lia. f_equal. rewrite aget_lookup in Hw by lia.
    replace (Z.to_nat (i + 1)) with (S (Z.to_nat i)) by lia.
    rewrite (drop_S src w (Z.to_nat i)) by done. simpl.
    rewrite (take_S_r _ _ w) by (rewrite list_lookup_insert_eq by lia; done).
    rewrite take_insert_ge by lia. rewrite <- app_assoc. simpl. f_equal. f_equal. f_equal.
    rewrite drop_insert_lt by lia. f_equal. lia.
Qed.

Lemma copy_words_overrun n : forall dst src i,
  0 <= i -> zlen dst < i + Z.of_nat n -> i <= zlen dst -> copy_words dst src i n = Trap.
Proof.
  induction n as [|n IH]; intros dst src i Hi Hd Hi2; [lia|]. simpl.
  destruct (aget src i); simpl; [|done].
  destruct (decide (i < zlen dst)).
  - rewrite aset_in_range by lia. simpl. apply IH; len_lia.
  - rewrite aset_out by lia. done.
Qed.

(** C14: copying a message keeps its arguments, port, flags and length and the
    first [len] bytes of its buffer (rounded up to words) as long as [len] is
    at most the 112 bytes of the buffer; a longer [len], which user space is
    free to store, makes the copy run past the buffer. *)
Theorem message_copy_bounded_by_len (memory : list Z) (m : IpcMessage) :
  msg_wf m -> length memory = buffer_words ->
  (len m <= MAX_IPC_BUFFER_SIZE ->
     exists c, copy_message memory m = Ret c /\ msg_wf c /\
       arguments c = arguments m /\
       port c = port m /\ len c = len m /\ is_null c = is_null m /\
       interrupted c = interrupted m /\
       buffer c = take (words_of_len (len m)) (buffer m) ++ drop (words_of_len (len m)) memory) /\
  (MAX_IPC_BUFFER_SIZE < len m -> copy_message memory m = Trap).
Proof.
  intros (Ha & Hb & Hl) Hm. unfold copy_message, assign_message. unfold buffer_words in *.
  change (Z.to_nat (MAX_IPC_BUFFER_SIZE / 8)) with 14%nat in *.
  unfold MAX_IPC_BUFFER_SIZE. pose proof (words_of_len_val (len m) Hl) as Hw.
  simpl (buffer (IpcMessage_init memory)). split; intros Hle.
  - assert ((len m + 7) / 8 < 15) by (apply Z.div_lt_upper_bound; lia).
    assert (words_of_len (len m) <= 14)%nat by (rewrite Hw; lia).
    rewrite copy_words_spec by lia. change (Z.to_nat 0) with O. simpl.
    rewrite drop_0. eexists. split; [done|]. simpl.
    split; [|done]. split; [done|]. split; [|done]. simpl. len_simpl. unfold buffer_words.
    change (Z.to_nat (MAX_IPC_BUFFER_SIZE / 8)) with 14%nat. lia.
  - rewrite copy_words_overrun; [done|lia| |lia].
    assert (14 < words_of_len (len m))%nat; [|lia]. rewrite Hw.
    assert (15 <= (len m + 7) / 8) by (apply Z.div_le_lower_bound; lia). lia.
Qed.

(** ** Witness *)

Lemma message_copy_bounded_by_len_witness :
  copy_message (replicate 14 0)
    (mk_IpcMessage IpcMessageArguments_init 3 113 false false (seqZ 0 14)) = Trap.
Proof.
  apply (message_copy_bounded_by_len (replicate 14 0)
    (mk_IpcMessage IpcMessageArguments_init 3 113 false false (seqZ 0 14)));
    [|done|done]. split_and!; [done..|simpl; lia].
Defined.
