(* ===== verification/KObject.v ===== *)
(** kernel/generic/asset_types.hpp, asset.hpp, ipc_asset.hpp, signal_asset.hpp
    and the reference counting of asset.cpp: the kernel objects (assets), the
    counted references to them, and the state the kernel keeps.

    An object is known by its address ([nullptr] is 0); [heap] maps the address
    of every object that has been created and not deleted to its contents. The
    fields of an [AssetRef] are those of the C++ struct. A function that returns
    an [AssetRef] hands one counted reference to its caller, who drops it
    ([drop], the destructor) or stores it; a copy constructor and the destructor
    of the copy at the end of one expression cancel out and are not written.

    The kernel is entered by one task at a time here: taking a lock that is
    already held can only end in the [unreachable$()] of [fc::Lock::lock]. *)

From stdpp Require Import gmap.
From S2P Require Import Prelude UMap.
From S2P Require Pmm Paging Range Ring.
From S2P Require Import IpcTypes.

(** * References and objects *)

Record AssetRef := mk_AssetRef {
  asset : Z;
  handle : Z;
  write : bool;
  read : bool;
  share : bool
}.

#[global] Instance AssetRef_eq_dec : EqDecision AssetRef.
Proof. solve_decision. Defined.

Definition nullptr : Z := 0.

(** The default constructor. *)
Definition AssetRef_init : AssetRef := mk_AssetRef nullptr invalid true true true.

(** What a move leaves behind. *)
Definition AssetRef_moved : AssetRef := mk_AssetRef nullptr invalid false false false.

Definition set_handle (r : AssetRef) (h : Z) : AssetRef :=
  mk_AssetRef (asset r) h (write r) (read r) (share r).

(** signal_asset.hpp *)
Inductive WaiterKind := WAITER_KIND_ASYNC | WAITER_KIND_SYNC.

Record Waiter := mk_Waiter { w_task : AssetRef; w_kind : WaiterKind; attachement : AssetRef }.

(** ipc_asset.hpp: [kernel_mem_msg] and [floating_msg] point to the message
    through the kernel's view of physical memory: they are physical addresses. *)
Record IpcSyncMsgEntry := mk_IpcSyncMsgEntry {
  kernel_mem_msg : Z;
  callee : AssetRef;
  is_call : bool;
  s_added_tick : Z
}.

Record IpcAsyncMsgEntry := mk_IpcAsyncMsgEntry { target_msg : IpcMessage; a_added_tick : Z }.

Record IpcEndpoint := mk_IpcEndpoint {
  tick : Z;
  async_queue : Ring.Ring.Ring IpcAsyncMsgEntry;
  last_async_msg_tick : Z;
  sync_queue : Ring.Ring.Ring IpcSyncMsgEntry;
  last_sync_msg_tick : Z;
  target_message_space : AssetRef;
  awaiting_server : AssetRef;
  uuid : Z;
  last_port : Z
}.

Definition IpcEndpoint_init : IpcEndpoint :=
  mk_IpcEndpoint 1 Ring.Ring.empty LONG_MAX Ring.Ring.empty LONG_MAX
    AssetRef_init AssetRef_init 0 16.

(** space.hpp: [vmm_space] is the [_self] of the [VmmSpace], the address of its
    top page table. vm.hpp: [vms] and [last_uid] of kernel/x86_64/vm.cpp number
    the virtual machines. *)
Record Space := mk_Space {
  uid : Z;
  alloc_uid : Z;
  vmm_space : Z;
  assets : UMap Z AssetRef
}.

Definition Space_init : Space := mk_Space 0 0 0 UMap.empty.

(** task.hpp: [blocked] is the value of the [BlockMutex] of the scheduler
    block; [_space_owner] is not counted. *)
Inductive TaskState :=
| TASK_NONE | TASK_EMBRYO | TASK_IDLE | TASK_RUNNING | TASK_DELETABLE | TASK_ZOMBIE.

Record Task := mk_Task {
  _uid : Z;
  _state : TaskState;
  blocked : bool;
  _space_owner : Z;
  signaled : bool;
  signaled_by : Z
}.

(** One constructor per class derived from [Asset]. *)
Inductive asset_data :=
| AssetMemory (size addr : Z) (allocated : bool)
| AssetMapping (start end_ : Z) (physical_mem : AssetRef) (writable executable : bool)
| AssetSpace (s : Space)
| AssetTask (t : Task)
| SignalEndpoint (_counter : Z) (_awaiters : list Waiter)
| SignalAttached (endpoint : AssetRef)
| AssetIpcEndpoint (e : IpcEndpoint)
| IpcEndpointConnection (connection_to : AssetRef) (port : Z)
| IpcMessageReturnTask (target : AssetRef) (floating_msg : Z)
| AssetVm (unique_vm_id : Z)
| AssetVmMapping (memory : AssetRef).

(** [kind], which each constructor passes to that of [Asset]. *)
Definition kind (d : asset_data) : AssetKind :=
  match d with
  | AssetMemory _ _ _ => OBJECT_KIND_MEMORY
  | AssetMapping _ _ _ _ _ => OBJECT_KIND_MAPPING
  | AssetSpace _ => OBJECT_KIND_SPACE
  | AssetTask _ => OBJECT_KIND_TASK
  | SignalEndpoint _ _ => OBJECT_KIND_SIGNAL_ENDPOINT
  | SignalAttached _ => OBJECT_KIND_SIGNAL_ATTACHED
  | AssetIpcEndpoint _ => OBJECT_KIND_IPC_ENDPOINT
  | IpcEndpointConnection _ _ => OBJECT_KIND_IPC_CONNECTION
  | IpcMessageReturnTask _ _ => OBJECT_KIND_IPC_RETURN_TASK
  | AssetVm _ => OBJECT_KIND_VM
  | AssetVmMapping _ => OBJECT_KIND_VM_MAPPING
  end.

Record Asset := mk_Asset { lock : bool; ref_count : Z; content : asset_data }.

Definition Asset_init (d : asset_data) : Asset := mk_Asset false 0 d.

(** The elements of a ring from its head. *)
Definition ring_contents {A} (r : Ring.Ring.Ring A) : list A :=
  omap (fun k => mjoin (aget (Ring.Ring._data r)
                   ((Ring.Ring._head r + Z.of_nat k) mod Ring.Ring._capacity r)))
    (seq 0 (Z.to_nat (Ring.Ring._len r))).

(** The counted references of an object, in the order its destruction drops
    them. *)
Definition fields (d : asset_data) : list AssetRef :=
  match d with
  | AssetMemory _ _ _ | AssetTask _ | AssetVm _ => []
  | AssetMapping _ _ m _ _ => [m]
  | AssetSpace s => snd <$> concat (_buckets (assets s))
  | SignalEndpoint _ l => concat ((fun w => [attachement w; w_task w]) <$> l)
  | SignalAttached e => [e]
  | AssetIpcEndpoint e =>
      awaiting_server e :: target_message_space e :: (callee <$> ring_contents (sync_queue e))
  | IpcEndpointConnection c _ => [c]
  | IpcMessageReturnTask t _ => [t]
  | AssetVmMapping m => [m]
  end.

(** The object with those references moved out. *)
Definition strip (d : asset_data) : asset_data :=
  match d with
  | AssetMemory _ _ _ | AssetTask _ | AssetVm _ => d
  | AssetMapping s e _ w x => AssetMapping s e AssetRef_moved w x
  | AssetSpace s => AssetSpace (mk_Space (uid s) (alloc_uid s) (vmm_space s) UMap.empty)
  | SignalEndpoint c _ => SignalEndpoint c []
  | SignalAttached _ => SignalAttached AssetRef_moved
  | AssetIpcEndpoint e =>
      AssetIpcEndpoint (mk_IpcEndpoint (tick e) (async_queue e) (last_async_msg_tick e)
        Ring.Ring.empty (last_sync_msg_tick e) AssetRef_moved AssetRef_moved (uuid e) (last_port e))
  | IpcEndpointConnection _ p => IpcEndpointConnection AssetRef_moved p
  | IpcMessageReturnTask _ m => IpcMessageReturnTask AssetRef_moved m
  | AssetVmMapping _ => AssetVmMapping AssetRef_moved
  end.

(** * The machine below *)

(** What the kernel core uses of the rest of the kernel: where [new] puts an
    object (an address no live object has: what [malloc] promises), the page
    tables ([VmmSpace], Paging.v), which take their pages from the [Pmm] and
    never give it back in disorder, and the translation the processor makes of a
    virtual address. [get_phys] finds no address the processor would not.
    [stack_words] is what the buffer of a message built on the stack holds before
    it is written, [task_memory] what the fields of a new task that no
    constructor sets hold ([signaled], [_space_owner]), [flags_memory] what the
    fields of a [PageFlags] no call sets hold; [ndebug] says whether the build
    defines NDEBUG. *)
Class Machine := {
  new_addr : gset Z -> Z;
  new_addr_fresh : forall s, new_addr s ∉ s /\ new_addr s <> nullptr;
  PageTables : Type;
  vmm_create : bool -> PageTables -> Pmm.Pmm -> ctl (result Z * PageTables * Pmm.Pmm);
  vmm_create_pmm : forall b t p, Pmm.pmm_wf p ->
    ends (fun '(_, _, p') => Pmm.pmm_wf p') (vmm_create b t p);
  vmm_map : Z -> Range.Range -> Range.Range -> Paging.PageFlags -> PageTables -> Pmm.Pmm ->
    ctl (result unit * PageTables * Pmm.Pmm);
  vmm_map_pmm : forall v r q f t p, Pmm.pmm_wf p ->
    ends (fun '(_, _, p') => Pmm.pmm_wf p') (vmm_map v r q f t p);
  vmm_verify : Z -> Z -> Z -> PageTables -> ctl (result unit);
  vmm_verify_ends : forall v a n t, vmm_verify v a n t <> NoFuel;
  get_phys : Z -> Z -> PageTables -> ctl (result Z);
  get_phys_ends : forall v a t, get_phys v a t <> NoFuel;
  translate : Z -> PageTables -> Z -> option Z;
  get_phys_translate : forall v t a p, get_phys v a t = Ret (Value p) -> translate v t a = Some p;
  kernel_virtual_base : Z;
  stack_words : list Z;
  stack_words_length : length stack_words = buffer_words;
  task_memory : bool * Z;
  flags_memory : Paging.PageFlags;
  ndebug : bool
}.

(** * Kernel state *)

Section kernel.
Context `{M : Machine}.

(** [_spaces] holds uncounted pointers; [task_list] counts one reference for
    each of its tasks; [registered_servers] is the table of ipc_registry.cpp;
    [messages] is the memory messages lie in, by physical address. The locks of
    the global tables are held for the whole body of each function that uses
    them. *)
Record kernel := mk_kernel {
  heap : gmap Z Asset;
  _spaces : list (Z * Z);
  _space_id : Z;
  task_list : list Z;
  next_uid : Z;
  registered_servers : list (Z * AssetRef);
  next_free_ipc_server_handle : Z;
  _internal_signal_map : UMap Z AssetRef;
  vms : UMap Z Z;
  last_uid : Z;
  pmm : Pmm.Pmm;
  page_tables : PageTables;
  messages : gmap Z IpcMessage
}.

Definition with_heap (f : gmap Z Asset -> gmap Z Asset) (k : kernel) : kernel :=
  mk_kernel (f (heap k)) (_spaces k) (_space_id k) (task_list k) (next_uid k)
    (registered_servers k) (next_free_ipc_server_handle k) (_internal_signal_map k)
    (vms k) (last_uid k) (pmm k) (page_tables k) (messages k).
Definition with_spaces (l : list (Z * Z)) (i : Z) (k : kernel) : kernel :=
  mk_kernel (heap k) l i (task_list k) (next_uid k)
    (registered_servers k) (next_free_ipc_server_handle k) (_internal_signal_map k)
    (vms k) (last_uid k) (pmm k) (page_tables k) (messages k).
Definition with_tasks (l : list Z) (i : Z) (k : kernel) : kernel :=
  mk_kernel (heap k) (_spaces k) (_space_id k) l i
    (registered_servers k) (next_free_ipc_server_handle k) (_internal_signal_map k)
    (vms k) (last_uid k) (pmm k) (page_tables k) (messages k).
Definition with_servers (l : list (Z * AssetRef)) (i : Z) (k : kernel) : kernel :=
  mk_kernel (heap k) (_spaces k) (_space_id k) (task_list k) (next_uid k)
    l i (_internal_signal_map k) (vms k) (last_uid k) (pmm k) (page_tables k) (messages k).
Definition with_signals (m : UMap Z AssetRef) (k : kernel) : kernel :=
  mk_kernel (heap k) (_spaces k) (_space_id k) (task_list k) (next_uid k)
    (registered_servers k) (next_free_ipc_server_handle k) m
    (vms k) (last_uid k) (pmm k) (page_tables k) (messages k).
Definition with_vms (m : UMap Z Z) (i : Z) (k : kernel) : kernel :=
  mk_kernel (heap k) (_spaces k) (_space_id k) (task_list k) (next_uid k)
    (registered_servers k) (next_free_ipc_server_handle k) (_internal_signal_map k)
    m i (pmm k) (page_tables k) (messages k).
Definition with_pmm (p : Pmm.Pmm) (k : kernel) : kernel :=
  mk_kernel (heap k) (_spaces k) (_space_id k) (task_list k) (next_uid k)
    (registered_servers k) (next_free_ipc_server_handle k) (_internal_signal_map k)
    (vms k) (last_uid k) p (page_tables k) (messages k).
Definition with_page_tables (t : PageTables) (k : kernel) : kernel :=
  mk_kernel (heap k) (_spaces k) (_space_id k) (task_list k) (next_uid k)
    (registered_servers k) (next_free_ipc_server_handle k) (_internal_signal_map k)
    (vms k) (last_uid k) (pmm k) t (messages k).
Definition with_messages (m : gmap Z IpcMessage) (k : kernel) : kernel :=
  mk_kernel (heap k) (_spaces k) (_space_id k) (task_list k) (next_uid k)
    (registered_servers k) (next_free_ipc_server_handle k) (_internal_signal_map k)
    (vms k) (last_uid k) (pmm k) (page_tables k) m.

(** Kernel code: a state transformer that may not return. *)
Definition K (A : Type) : Type := kernel -> ctl (A * kernel).

#[global] Instance K_ret : MRet K := fun A a k => Ret (a, k).
#[global] Instance K_bind : MBind K := fun A B f m k =>
  match m k with Ret (a, k') => f a k' | Trap => Trap | NoFuel => NoFuel end.

Definition lift {A} (c : ctl A) : K A :=
  fun k => match c with Ret a => Ret (a, k) | Trap => Trap | NoFuel => NoFuel end.
Definition trap {A} : K A := fun _ => Trap.
Definition gets {A} (f : kernel -> A) : K A := fun k => Ret (f k, k).
Definition modify (f : kernel -> kernel) : K unit := fun k => Ret (tt, f k).

(** [try$(m)] once the locals of the function have been dropped on error. *)
Definition ktry {A B} (m : K (result A)) (f : A -> K (result B)) : K (result B) :=
  r ← m; match r with Value a => f a | Error e => mret (Error e) end.

(** ** Objects *)

(** An access through a pointer: to no live object, anything can happen. *)
Definition get_asset (p : Z) : K Asset :=
  a ← gets (fun k => heap k !! p); lift (deref a).
Definition set_asset (p : Z) (a : Asset) : K unit := modify (with_heap <[p := a]>).

Definition get_content (p : Z) : K asset_data := a ← get_asset p; mret (content a).
Definition set_content (p : Z) (d : asset_data) : K unit :=
  a ← get_asset p; set_asset p (mk_Asset (lock a) (ref_count a) d).

Definition lock_asset (p : Z) : K unit :=
  a ← get_asset p;
  if lock a then trap else set_asset p (mk_Asset true (ref_count a) (content a)).
Definition unlock_asset (p : Z) : K unit :=
  a ← get_asset p;
  if lock a then set_asset p (mk_Asset false (ref_count a) (content a)) else trap.

(** [AssetRef::lock], [AssetRef::unlock]. *)
Definition lock_ref (r : AssetRef) : K unit :=
  if asset r =? nullptr then mret tt else lock_asset (asset r).
Definition unlock_ref (r : AssetRef) : K unit :=
  if asset r =? nullptr then mret tt else unlock_asset (asset r).

(** An operation on the page tables. *)
Definition on_tables {A} (f : PageTables -> Pmm.Pmm -> ctl (A * PageTables * Pmm.Pmm)) : K A :=
  t ← gets page_tables;
  p ← gets pmm;
  '(a, t, p) ← lift (f t p);
  modify (fun k => with_pmm p (with_page_tables t k));;
  mret a.

(** [PageFlags().user(true)...present(true)]: the other two fields are not set. *)
Definition user_flags (executable writable : bool) : Paging.PageFlags :=
  Paging.mk_PageFlags true writable executable true
    (Paging.f_write_through flags_memory) (Paging.f_cache_disable flags_memory).

(** The object as a given class; [casted] on the wrong class has no meaning. *)
Definition get_space (p : Z) : K Space :=
  d ← get_content p; match d with AssetSpace s => mret s | _ => trap end.
Definition set_space (p : Z) (s : Space) : K unit := set_content p (AssetSpace s).
Definition get_task (p : Z) : K Task :=
  d ← get_content p; match d with AssetTask t => mret t | _ => trap end.
Definition set_task (p : Z) (t : Task) : K unit := set_content p (AssetTask t).
Definition get_endpoint (p : Z) : K IpcEndpoint :=
  d ← get_content p; match d with AssetIpcEndpoint e => mret e | _ => trap end.
Definition set_endpoint (p : Z) (e : IpcEndpoint) : K unit := set_content p (AssetIpcEndpoint e).

(** [new T(...)] *)
Definition new_asset (d : asset_data) : K Z :=
  p ← gets (fun k => new_addr (dom (heap k)));
  set_asset p (Asset_init d);; mret p.

(** ** Reference counting *)

Fixpoint for_each {A} (f : A -> K unit) (l : list A) : K unit :=
  match l with
  | [] => mret tt
  | x :: l => f x;; for_each f l
  end.

(** An object that has been deleted has no count: owning it, which only a pointer that
    is not counted can lead to (a task's to its space), is undefined. *)
Definition own (p : Z) : K unit :=
  if p =? nullptr then mret tt
  else
    a ← get_asset p;
    set_asset p (mk_Asset (lock a) (u64 (ref_count a + 1)) (content a)).

(** The physical memory of a memory object goes back to the Pmm; its error is
    not looked at. *)
Definition release_pages (d : asset_data) : K unit :=
  match d with
  | AssetMemory size addr true =>
      p ← gets pmm;
      '(_, p) ← lift (Pmm.release p addr (size / 4096));
      modify (with_pmm p)
  | _ => mret tt
  end.

(** [deref], with the destruction of the object when its last reference goes.
    [delete] comes last; each nested destruction has one object less whose
    count is not zero, so that many levels are enough ([deref]). *)
Fixpoint deref_n (fuel : nat) (p : Z) : K unit :=
  match fuel with
  | O => fun _ => NoFuel
  | S fuel =>
      if p =? nullptr then mret tt
      else
        a ← get_asset p;
        set_asset p (mk_Asset (lock a) (u64 (ref_count a - 1)) (content a));;
        if ref_count a =? 0 then mret tt
        else if ref_count a =? 1 then
          lock_asset p;;
          release_pages (content a);;
          set_content p (strip (content a));;
          for_each (fun r => deref_n fuel (asset r)) (fields (content a));;
          modify (with_heap (delete p))
        else mret tt
  end.

Definition deref (p : Z) : K unit :=
  n ← gets (fun k => size (heap k)); deref_n (S n) p.

(** [Asset::release]: takes and gives back the lock of the object. *)
Definition release (p : Z) : K unit :=
  if p =? nullptr then mret tt else lock_asset p;; unlock_asset p.

(** ** AssetRef *)

(** [AssetRef(asset_value, handle_value)] *)
Definition make_ref (p h : Z) : K AssetRef := own p;; mret (mk_AssetRef p h true true true).

(** The copy constructors. *)
Definition copy_ref (r : AssetRef) : K AssetRef := own (asset r);; mret r.

(** The destructor, [release_ref]. *)
Definition drop (r : AssetRef) : K unit := deref (asset r).

(** [asset->kind], [as<T>()] and [casted<T>()]. *)
Definition kind_of (r : AssetRef) : K AssetKind := d ← get_content (asset r); mret (kind d).

Definition as_ (t : AssetKind) (p : Z) : K (result Z) :=
  d ← get_content p;
  if decide (kind d = t) then mret (Value p) else mret (Error "invalid cast").

Definition casted (t : AssetKind) (r : AssetRef) : K AssetRef :=
  t' ← kind_of r; if decide (t' = t) then mret r else trap.
End kernel.
#[global] Typeclasses Opaque K.
