(* ===== verification/IpcRegistry.v ===== *)
(** kernel/generic/ipc_registry.cpp: the table of published IPC endpoints.
    [ipc_server_lock] is held for the whole body of each function. A
    [RegisteredServer] is a pair; [pop] forgets its pointer and never deletes
    it, so the reference in it is not dropped. *)

From stdpp Require Import gmap.
From S2P Require Import Prelude UMap.
From S2P Require Import IpcTypes KObject.

Section registry.
Context `{M : Machine}.

Definition push_server (h : Z) (r : AssetRef) : K unit :=
  modify (fun k => with_servers (registered_servers k ++ [(h, r)])
                     (next_free_ipc_server_handle k) k).

Definition register_server (h : Z) (server : AssetRef) : K unit :=
  r ← copy_ref server; push_server h r.

(** [next_free_ipc_server_handle++] *)
Definition get_next_ipc_server_handle : K Z :=
  h ← gets next_free_ipc_server_handle;
  modify (fun k => with_servers (registered_servers k) (u64 (h + 1)) k);;
  mret h.

Definition create_registered_server : K Z :=
  h ← get_next_ipc_server_handle; push_server h AssetRef_init;; mret h.

Definition publish_server (endpoint : AssetRef) (is_root : bool) : K Z :=
  h ← (if is_root then mret 0 else get_next_ipc_server_handle);
  r ← copy_ref endpoint;
  push_server h r;;
  mret h.

Fixpoint find_server (l : list (Z * AssetRef)) (h : Z) : option AssetRef :=
  match l with
  | [] => None
  | (h', r) :: l => if h' =? h then Some r else find_server l h
  end.

Definition query_server (h : Z) : K (result AssetRef) :=
  l ← gets registered_servers;
  match find_server l h with
  | Some r => server ← copy_ref r; mret (Value server)
  | None => mret (Error "server not found")
  end.

(** The table without the first entry that has the handle and whose endpoint
    is attached with [space_handle]; reading an endpoint that was never set is
    an access through a null pointer. *)
Fixpoint unregister_loop (l : list (Z * AssetRef)) (h space_handle : Z) :
    K (list (Z * AssetRef)) :=
  match l with
  | [] => mret []
  | (h', r) :: l =>
      found ← (if h' =? h
               then e ← get_endpoint (asset r);
                    mret (handle (target_message_space e) =? space_handle)
               else mret false);
      if (found : bool) then mret l
      else l' ← unregister_loop l h space_handle; mret ((h', r) :: l')
  end.

Definition unregister_server (h space_handle : Z) : K unit :=
  l ← gets registered_servers;
  l ← unregister_loop l h space_handle;
  modify (fun k => with_servers l (next_free_ipc_server_handle k) k).
End registry.
