(* ===== verification/Space.v ===== *)
(** kernel/generic/space.hpp, space.cpp, the [create_*] functions of asset.cpp
    and kernel/x86_64/vm.cpp: the table of handles of a space and the creation,
    transfer and release of the objects in it. A space is given by its address
    ([this]). *)

From stdpp Require Import gmap.
From S2P Require Import Prelude Range UMap.
From S2P Require Pmm.
From S2P Require Import IpcTypes KObject IpcRegistry.

Section space.
Context `{M : Machine}.

(** ** The table of a space *)

Definition set_alloc_uid (s : Space) (h : Z) : Space :=
  mk_Space (uid s) h (vmm_space s) (assets s).
Definition set_assets (s : Space) (m : UMap Z AssetRef) : Space :=
  mk_Space (uid s) (alloc_uid s) (vmm_space s) m.

(** [++alloc_uid] *)
Definition next_handle (this : Z) : K Z :=
  s ← get_space this;
  let nhandle := u64 (alloc_uid s + 1) in
  set_space this (set_alloc_uid s nhandle);; mret nhandle.

(** [assets.insert(h, ref)], [assets.has(h)], [assets.moveOut(h)] *)
Definition assets_insert (this h : Z) (r : AssetRef) : K unit :=
  s ← get_space this;
  m ← lift (UMap.insert ndebug h r (assets s));
  set_space this (set_assets s m).
Definition assets_has (this h : Z) : K bool :=
  s ← get_space this; lift (UMap.has h (assets s)).
Definition assets_moveOut (this h : Z) : K AssetRef :=
  s ← get_space this;
  '(v, m) ← lift (UMap.moveOut h (assets s));
  set_space this (set_assets s m);; mret v.

(** ** Lookup *)

(** [by_handle(handle)], which [by_handle_ptr] and [by_handle<Asset>] repeat. *)
Definition by_handle (this h : Z) : K (result AssetRef) :=
  lock_asset this;;
  found ← assets_has this h;
  if (found : bool) then
    s ← get_space this;
    r ← lift (UMap.at_ h (assets s));
    r ← copy_ref r;
    unlock_asset this;; mret (Value r)
  else unlock_asset this;; mret (Error "asset not found").

(** [by_handle<T>(handle)] *)
Definition by_handle_as (t : AssetKind) (this h : Z) : K (result AssetRef) :=
  ktry (by_handle this h) (fun found =>
  lock_ref found;;
  t' ← kind_of found;
  if decide (t' = t) then unlock_ref found;; r ← casted t found; mret (Value r)
  else unlock_ref found;; drop found;; mret (Error "asset kind mismatch")).

Definition by_index (this index : Z) : K (result AssetRef) :=
  lock_asset this;;
  s ← get_space this;
  es ← lift (UMap.elements (assets s));
  match aget es index with
  | Some (_, r) => r ← copy_ref r; unlock_asset this;; mret (Value r)
  | None => unlock_asset this;; mret (Error "index > asset.len()")
  end.

(** The first asset of kind [t] that satisfies [fn], in iteration order. *)
Fixpoint by_fn_loop (t : AssetKind) (fn : asset_data -> bool) (es : list (Z * AssetRef)) :
    K (option AssetRef) :=
  match es with
  | [] => mret None
  | (_, r) :: es =>
      d ← get_content (asset r);
      if decide (kind d = t) then
        if fn d then mret (Some r) else by_fn_loop t fn es
      else by_fn_loop t fn es
  end.
Definition by_fn (t : AssetKind) (this : Z) (fn : asset_data -> bool) : K (result AssetRef) :=
  lock_asset this;;
  s ← get_space this;
  es ← lift (UMap.elements (assets s));
  o ← by_fn_loop t fn es;
  match o with
  | Some r => r ← copy_ref r; unlock_asset this;; mret (Value r)
  | None => unlock_asset this;; mret (Error "not found")
  end.

(** ** Insertion and removal *)

(** [add_asset]: the object stays locked. *)
Definition add_asset (this res : Z) : K (result AssetRef) :=
  lock_asset res;;
  lock_asset this;;
  nhandle ← next_handle this;
  ref ← make_ref res nhandle;
  r ← copy_ref ref;
  assets_insert this nhandle r;;
  unlock_asset this;;
  mret (Value ref).

(** [allocate_asset<T>(args...)]: the constructor copies the references it is
    given. *)
Definition allocate_asset (this : Z) (d : asset_data) : K (result AssetRef) :=
  for_each (fun r => own (asset r)) (fields d);;
  res ← new_asset d;
  add_asset this res.

Definition _asset_remove (this h : Z) : K AssetRef :=
  lock_asset this;;
  found ← assets_has this h;
  if (found : bool) then v ← assets_moveOut this h; unlock_asset this;; mret v
  else unlock_asset this;; trap.

Definition asset_release (this : Z) (ref : AssetRef) : K unit :=
  if asset ref =? nullptr then mret tt
  else
    release (asset ref);;
    res ← _asset_remove this (handle ref);
    drop res.

Definition asset_release_by_handle (this h : Z) : K unit :=
  v ← _asset_remove this h; release (asset v);; drop v.

(** ** Transfer *)

Definition lock_both (from to : Z) : K unit :=
  let first := if from <? to then from else to in
  let second := if from <? to then to else from in
  lock_asset first;; if first =? second then mret tt else lock_asset second.
Definition unlock_both (from to : Z) : K unit :=
  let first := if from <? to then from else to in
  let second := if from <? to then to else from in
  (if first =? second then mret tt else unlock_asset second);; unlock_asset first.

Definition asset_move (from to : Z) (a : AssetRef) : K (result AssetRef) :=
  if (from =? nullptr) || (to =? nullptr) then mret (Error "from or to space is null")
  else if asset a =? nullptr then mret (Error "asset is null")
  else
    lock_both from to;;
    found ← assets_has from (handle a);
    if (found : bool) then
      v ← assets_moveOut from (handle a);
      nhandle ← next_handle to;
      let v := set_handle v nhandle in
      r ← copy_ref v;
      assets_insert to nhandle r;;
      unlock_both from to;;
      mret (Value v)
    else unlock_both from to;; mret (Error "asset not found in source space").

(** The new reference has every right, whatever those of [a]. *)
Definition asset_copy (to : Z) (a : AssetRef) : K (result AssetRef) :=
  if to =? nullptr then mret (Error "from or to space is null")
  else if asset a =? nullptr then mret (Error "asset is null")
  else
    lock_asset (asset a);;
    lock_asset to;;
    nhandle ← next_handle to;
    nref ← make_ref (asset a) nhandle;
    r ← copy_ref nref;
    assets_insert to nhandle r;;
    unlock_asset to;;
    unlock_asset (asset a);;
    mret (Value nref).

(** ** Creation of objects *)

(** The memory-map entry the range of a fixed-address object lies in; only an
    entry of type FREE is marked, and the size in bytes is passed as the page
    count. *)
Definition own_fixed (addr size : Z) : K unit :=
  p ← gets pmm;
  match List.find (fun m => (Range.start (Pmm.mm_range m) <=? addr) &&
                            (u64 (addr + size) <=? Range.end_ (Pmm.mm_range m)))
          (Pmm._memory_map (Pmm._context p)) with
  | Some m =>
      if Pmm.is_free m then
        '(_, p) ← lift (Pmm.own p addr size); modify (with_pmm p)
      else mret tt
  | None => mret tt
  end.

Definition from_bytes_ceil (bytes : Z) : Z := u64 (u64 (bytes + 4096) - 1) / 4096.

Definition create_memory (this size addr : Z) (lower_half : bool) : K (result AssetRef) :=
  if size =? 0 then mret (Error "size must be greater than 0")
  else if negb (addr =? 0) && (kernel_virtual_base <? u64 (addr + size))
  then mret (Error "addr must be lower than kernel virtual base")
  else
    ktry (allocate_asset this (AssetMemory size addr (addr =? 0))) (fun ptr =>
    if addr =? 0 then
      p ← gets pmm;
      '(res, p) ← lift (Pmm.allocate p (from_bytes_ceil size) lower_half);
      modify (with_pmm p);;
      match res with
      | Error _ =>
          unlock_asset (asset ptr);;
          v ← _asset_remove this (handle ptr);
          drop v;; drop ptr;;
          mret (Error "unable to allocate memory")
      | Value a =>
          set_content (asset ptr) (AssetMemory size a true);;
          unlock_asset (asset ptr);; mret (Value ptr)
      end
    else
      own_fixed addr size;;
      set_content (asset ptr) (AssetMemory size addr false);;
      unlock_asset (asset ptr);; mret (Value ptr)).

(** An error return of [create_mapping] drops its reference to the mapping;
    all but the last leave the mapping in the table of the space. *)
Definition mapping_error (ptr physical_mem : AssetRef) (m : string) : K (result AssetRef) :=
  unlock_asset (asset ptr);; unlock_ref physical_mem;; drop ptr;; mret (Error m).

Definition create_mapping (this start end_ : Z) (physical_mem : AssetRef)
    (writable executable : bool) : K (result AssetRef) :=
  lock_ref physical_mem;;
  ktry (allocate_asset this (AssetMapping start end_ physical_mem writable executable)) (fun ptr =>
  if end_ <=? start
  then mapping_error ptr physical_mem "asset_create_mapping: start must be less than end"
  else
    t ← kind_of physical_mem;
    if decide (t <> OBJECT_KIND_MEMORY)
    then mapping_error ptr physical_mem "asset_create_mapping: physical_mem must be a memory asset"
    else if kernel_virtual_base <=? start
    then mapping_error ptr physical_mem
           "asset_create_mapping: start must be less than kernel virtual base"
    else
      s ← get_space this;
      d ← get_content (asset physical_mem);
      let '(addr, size) := match d with AssetMemory size addr _ => (addr, size) | _ => (0, 0) end in
      res ← on_tables (vmm_map (vmm_space s) (mk_Range start end_) (mk_Range addr (u64 (size + addr)))
                         (user_flags executable writable));
      if is_error res then
        unlock_asset (asset ptr);;
        v ← _asset_remove this (handle ptr);
        drop v;;
        unlock_ref physical_mem;;
        drop ptr;; mret (Error "unable to map physical memory")
      else
        unlock_asset (asset ptr);;
        unlock_ref physical_mem;;
        mret (Value ptr)).

(** *** Tasks *)

Definition userspace_stack_base : Z := 0xcc0000000.
Definition userspace_stack_size : Z := 16384 * 2.

Definition _task_allocate : K Z :=
  u ← gets next_uid;
  task ← new_asset (AssetTask (mk_Task u TASK_EMBRYO false (snd task_memory) (fst task_memory) invalid));
  own task;;
  modify (fun k => with_tasks (task_list k ++ [task]) (u64 (u + 1)) k);;
  mret task.

(** [context] is the outcome of [CpuContext::create_empty]. *)
Definition task_create (context : result unit) : K (result Z) :=
  task ← _task_allocate;
  match context with
  | Error e => mret (Error e)
  | Value _ => mret (Value task)
  end.

(** [prepared] is the outcome of [CpuContext::prepare] and [stack] the physical
    range of the stack it has allocated. *)
Definition _initialize (p : Z) (user : bool) (prepared : result unit) (stack : Range)
    (target_vspace : Z) : K (result unit) :=
  match prepared with
  | Error e => mret (Error e)
  | Value _ =>
      t ← get_task p;
      set_task p (mk_Task (_uid t) TASK_IDLE (blocked t) (_space_owner t) (signaled t)
                    (signaled_by t));;
      (if user then
         on_tables (vmm_map target_vspace
           (mk_Range (userspace_stack_base - userspace_stack_size) userspace_stack_base)
           stack (user_flags false true));; mret tt
       else mret tt);;
      mret (Value tt)
  end.

Definition create_task (this : Z) (user : bool) (context prepared : result unit) (stack : Range) :
    K (result AssetRef) :=
  r ← task_create context;
  task ← lift (unwrap r);
  ktry (add_asset this task) (fun ptr =>
  t ← get_task (asset ptr);
  set_task (asset ptr) (mk_Task (_uid t) (_state t) (blocked t) this (signaled t) (signaled_by t));;
  own (asset ptr);;
  s ← get_space this;
  res ← _initialize (asset ptr) user prepared stack (vmm_space s);
  if is_error res then
    unlock_asset (asset ptr);;
    v ← _asset_remove this (handle ptr);
    drop v;; drop ptr;; mret (Error "unable to initialize task asset")
  else unlock_asset (asset ptr);; mret (Value ptr)).

(** *** IPC and signal objects: each is owned once more than it is referenced. *)

Definition finish (ptr : AssetRef) : K (result AssetRef) :=
  own (asset ptr);; unlock_asset (asset ptr);; mret (Value ptr).

Definition create_ipc_return_task (this : Z) (task : AssetRef) : K (result AssetRef) :=
  ktry (allocate_asset this (IpcMessageReturnTask task nullptr)) finish.

Definition create_signal_endpoint (this : Z) : K (result AssetRef) :=
  ktry (allocate_asset this (SignalEndpoint 0 [])) finish.

Definition create_attached_signal (this : Z) (attached_to : AssetRef) : K (result AssetRef) :=
  ktry (allocate_asset this (SignalAttached attached_to)) finish.

Definition create_ipc_endpoint (this : Z) (publish is_root : bool) : K (result AssetRef) :=
  ktry (allocate_asset this (AssetIpcEndpoint IpcEndpoint_init)) (fun ptr =>
  sp ← make_ref this 0;
  e ← get_endpoint (asset ptr);
  set_endpoint (asset ptr)
    (mk_IpcEndpoint (tick e) (async_queue e) (last_async_msg_tick e) (sync_queue e)
       (last_sync_msg_tick e) sp (awaiting_server e) (uuid e) 16);;
  u ← (if publish then publish_server ptr is_root else get_next_ipc_server_handle);
  e ← get_endpoint (asset ptr);
  set_endpoint (asset ptr)
    (mk_IpcEndpoint (tick e) (async_queue e) (last_async_msg_tick e) (sync_queue e)
       (last_sync_msg_tick e) (target_message_space e) (awaiting_server e) u (last_port e));;
  finish ptr).

(** The [port] of a new connection has no value before it is set. *)
Definition create_ipc_connection (this : Z) (endpoint : AssetRef) : K (result AssetRef) :=
  ktry (allocate_asset this (IpcEndpointConnection AssetRef_init 0)) (fun send_ptr =>
  own (asset send_ptr);;
  r ← copy_ref endpoint;
  set_content (asset send_ptr) (IpcEndpointConnection r 0);;
  lock_ref r;;
  e ← get_endpoint (asset endpoint);
  set_content (asset send_ptr) (IpcEndpointConnection r (last_port e));;
  set_endpoint (asset endpoint)
    (mk_IpcEndpoint (tick e) (async_queue e) (last_async_msg_tick e) (sync_queue e)
       (last_sync_msg_tick e) (target_message_space e) (awaiting_server e) (uuid e)
       (s64 (last_port e + 1)));;
  unlock_ref r;;
  unlock_asset (asset send_ptr);;
  mret (Value send_ptr)).

(** *** Virtual machines: the objects stay locked. *)

Definition create_registered_vm : K (result Z) :=
  u ← gets last_uid;
  m ← gets vms;
  m ← lift (UMap.insert ndebug u u m);
  modify (with_vms m (u64 (u + 1)));;
  mret (Value u).

Definition create_vm (this : Z) : K (result AssetRef) :=
  ktry (allocate_asset this (AssetVm 0)) (fun vm =>
  ktry create_registered_vm (fun u =>
  set_content (asset vm) (AssetVm u);; mret (Value vm))).

Definition create_vm_mapping (this : Z) (physical_mem : AssetRef) : K (result AssetRef) :=
  ktry (allocate_asset this (AssetVmMapping AssetRef_init)) (fun vm_map =>
  r ← copy_ref physical_mem;
  set_content (asset vm_map) (AssetVmMapping r);;
  mret (Value vm_map)).

(** *** Spaces *)

Definition create_root : K AssetRef :=
  root_space ← new_asset (AssetSpace Space_init);
  vspace ← on_tables (vmm_create false);
  v ← lift (unwrap vspace);
  set_space root_space (mk_Space 0 16 v UMap.empty);;
  aref ← make_ref root_space 0;
  r ← copy_ref aref;
  assets_insert root_space selfSpace r;;
  modify (fun k => with_spaces (_spaces k ++ [(root_space, 0)]) (_space_id k) k);;
  a ← get_asset root_space;
  set_asset root_space (mk_Asset (lock a) 99999 (content a));;
  mret aref.

Definition create_space (this : Z) : K (result AssetRef) :=
  ktry (allocate_asset this (AssetSpace Space_init)) (fun ptr =>
  let asset := asset ptr in
  vspace ← on_tables (vmm_create false);
  match vspace with
  | Error e =>
      unlock_asset asset;;
      asset_release this ptr;;
      drop ptr;; mret (Error e)
  | Value v =>
      id ← gets _space_id;
      modify (fun k => with_spaces (_spaces k ++ [(asset, id)]) (u64 (id + 1)) k);;
      s ← get_space asset;
      set_space asset (mk_Space id (u64 (16 + u64 (10000 * id))) v (assets s));;
      unlock_asset asset;;
      r ← make_ref asset 0;
      assets_insert asset selfSpace r;;
      mret (Value ptr)
  end).

(** The space is not owned by [_spaces]: nothing says that it is still there. *)
Definition global_space_by_handle (id : Z) : K (result AssetRef) :=
  l ← gets _spaces;
  match List.find (fun e => snd e =? id) l with
  | Some (sp, _) => r ← make_ref sp (u64 (-1)); mret (Value r)
  | None => mret (Error "Space not found")
  end.
End space.
