(* ===== verification/Ipc.v ===== *)
(** kernel/generic/ipc.cpp and the operations of ipc_asset.hpp: sending,
    receiving and replying through IPC endpoints.

    A message buffer is given by its address in the address space of the running
    task; [message_at] finds it in physical memory the way the processor does.
    A function stops at [block_current_task()]: what it does before and after
    are two definitions, between which other tasks run. *)

From stdpp Require Import gmap.
From S2P Require Import Prelude Range UMap.
From S2P Require Ring.
From S2P Require Import IpcTypes KObject IpcRegistry Space.

Section ipc.
Context `{M : Machine}.

(** ** Messages in memory *)

(** [current]: the page tables of the running task. *)
Definition message_at (current va : Z) : K Z :=
  t ← gets page_tables; lift (Prelude.deref (translate current t va)).
Definition load_message (pa : Z) : K IpcMessage :=
  m ← gets messages; lift (Prelude.deref (m !! pa)).
Definition store_message (pa : Z) (m : IpcMessage) : K unit :=
  modify (fun k => with_messages (<[pa := m]> (messages k)) k).

(** ** Tasks *)

(** [sched().block()]: taking a mutex that is taken never ends. *)
Definition block (p : Z) : K unit :=
  t ← get_task p;
  if blocked t then trap
  else set_task p (mk_Task (_uid t) (_state t) true (_space_owner t) (signaled t) (signaled_by t)).

(** [sched().unblock()] *)
Definition unblock (p : Z) : K unit :=
  t ← get_task p;
  set_task p (mk_Task (_uid t) (_state t) false (_space_owner t) (signaled t) (signaled_by t)).

(** ** Endpoints *)

Definition update_msg_ticks (e : IpcEndpoint) : ctl IpcEndpoint :=
  a ← (if Ring.Ring.len (async_queue e) =? 0 then Ret LONG_MAX
       else h ← Ring.Ring.head (async_queue e); Ret (a_added_tick h));
  s ← (if Ring.Ring.len (sync_queue e) =? 0 then Ret LONG_MAX
       else h ← Ring.Ring.head (sync_queue e); Ret (s_added_tick h));
  Ret (mk_IpcEndpoint (tick e) (async_queue e) a (sync_queue e) s (target_message_space e)
         (awaiting_server e) (uuid e) (last_port e)).

Definition set_tick (e : IpcEndpoint) (t : Z) : IpcEndpoint :=
  mk_IpcEndpoint t (async_queue e) (last_async_msg_tick e) (sync_queue e)
    (last_sync_msg_tick e) (target_message_space e) (awaiting_server e) (uuid e) (last_port e).
Definition set_async (e : IpcEndpoint) q (t : Z) : IpcEndpoint :=
  mk_IpcEndpoint (tick e) q t (sync_queue e)
    (last_sync_msg_tick e) (target_message_space e) (awaiting_server e) (uuid e) (last_port e).
Definition set_sync (e : IpcEndpoint) q (t : Z) : IpcEndpoint :=
  mk_IpcEndpoint (tick e) (async_queue e) (last_async_msg_tick e) q t
    (target_message_space e) (awaiting_server e) (uuid e) (last_port e).
Definition set_awaiting (e : IpcEndpoint) (r : AssetRef) : IpcEndpoint :=
  mk_IpcEndpoint (tick e) (async_queue e) (last_async_msg_tick e) (sync_queue e)
    (last_sync_msg_tick e) (target_message_space e) r (uuid e) (last_port e).

(** The three steps the senders make under the lock of the endpoint:
    [push], [update_msg_ticks()] and [tick++]. An IpcSyncMsgEntry holds an AssetRef,
    whose assignment lets go of what it replaces; an IpcAsyncMsgEntry is plain. *)
Definition push_sync (x : IpcSyncMsgEntry) (e : IpcEndpoint) : ctl IpcEndpoint :=
  q ← Ring.Ring.push false true x (sync_queue e);
  e ← update_msg_ticks (set_sync e q (last_sync_msg_tick e));
  Ret (set_tick e (s64 (tick e + 1))).
Definition push_async (x : IpcAsyncMsgEntry) (e : IpcEndpoint) : ctl IpcEndpoint :=
  q ← Ring.Ring.push true true x (async_queue e);
  e ← update_msg_ticks (set_async e q (last_async_msg_tick e));
  Ret (set_tick e (s64 (tick e + 1))).

(** The pop of a receiver and its update of the tick of the queue, which keeps
    the old value when the queue is left empty. *)
Definition pop_async (e : IpcEndpoint) : ctl (IpcAsyncMsgEntry * IpcEndpoint) :=
  '(x, q) ← Ring.Ring.pop (async_queue e);
  t ← (if Ring.Ring.len q =? 0 then Ret (last_async_msg_tick e)
       else h ← Ring.Ring.head q; Ret (a_added_tick h));
  Ret (x, set_async e q t).
Definition pop_sync (e : IpcEndpoint) : ctl (IpcSyncMsgEntry * IpcEndpoint) :=
  '(x, q) ← Ring.Ring.pop (sync_queue e);
  t ← (if Ring.Ring.len q =? 0 then Ret (last_sync_msg_tick e)
       else h ← Ring.Ring.head q; Ret (s_added_tick h));
  Ret (x, set_sync e q t).

(** What a receiver takes. *)
Inductive received :=
| GotAsync (x : IpcAsyncMsgEntry)
| GotSync (x : IpcSyncMsgEntry).

(** The choice of [ipc_receive]. *)
Definition take_message (e : IpcEndpoint) : ctl (result received * IpcEndpoint) :=
  if ((last_async_msg_tick e <? last_sync_msg_tick e) &&
      negb (Ring.Ring.len (async_queue e) =? 0)) || (Ring.Ring.len (sync_queue e) =? 0)
  then
    if Ring.Ring.len (async_queue e) =? 0 then Ret (Error "async_queue is empty", e)
    else '(x, e) ← pop_async e; Ret (Value (GotAsync x), e)
  else if (Ring.Ring.len (sync_queue e) =? 0) && (Ring.Ring.len (async_queue e) =? 0)
  then Ret (Error " empty queue return from ipc_receive", e)
  else '(x, e) ← pop_sync e; Ret (Value (GotSync x), e).

(** The choice of [ipc_receive_async]. *)
Definition take_message_async (e : IpcEndpoint) : ctl (result received * IpcEndpoint) :=
  if (last_async_msg_tick e <? last_sync_msg_tick e) &&
     negb (Ring.Ring.len (async_queue e) =? 0)
  then '(x, e) ← pop_async e; Ret (Value (GotAsync x), e)
  else if (Ring.Ring.len (sync_queue e) =? 0) && (Ring.Ring.len (async_queue e) =? 0)
  then Ret (Error " empty queue return from ipc_receive", e)
  else '(x, e) ← pop_sync e; Ret (Value (GotSync x), e).

Definition has_message (p : Z) : K bool :=
  lock_asset p;;
  e ← get_endpoint p;
  unlock_asset p;;
  mret (negb (Ring.Ring.len (async_queue e) =? 0) || negb (Ring.Ring.len (sync_queue e) =? 0)).

(** ** Transfer of handles in messages *)

(** [update_inplace_message] over the arguments from one on; an error leaves
    the arguments before it rewritten. *)
Fixpoint update_inplace_message (args : list IpcData) (target_space source_space : Z) :
    K (result unit * list IpcData) :=
  match args with
  | [] => mret (Value tt, [])
  | d :: rest =>
      if is_asset d then
        r ← by_handle source_space (data d);
        match r with
        | Error _ => mret (Error "asset not found in client space", d :: rest)
        | Value asset_ptr =>
            m ← (if copy_asset d then asset_copy target_space asset_ptr
                 else asset_move source_space target_space asset_ptr);
            match m with
            | Error e => drop asset_ptr;; mret (Error e, d :: rest)
            | Value v =>
                drop v;; drop asset_ptr;;
                '(r, rest) ← update_inplace_message rest target_space source_space;
                mret (r, mk_IpcData (is_asset d) (copy_asset d) (_reserved_is_mapping d)
                           (handle v) :: rest)
            end
        end
      else
        '(r, rest) ← update_inplace_message rest target_space source_space;
        mret (r, d :: rest)
  end.

(** ** Sending *)

Definition get_connection (p : Z) : K (AssetRef * Z) :=
  d ← get_content p;
  match d with IpcEndpointConnection c port => mret (c, port) | _ => trap end.

(** The common start of [ipc_send] and [ipc_send_async]: the port and the
    handles of the message at [pa]. Returns the counted reference to the target
    space the function keeps. *)
Definition send_prologue (source_space connection : AssetRef) (pa : Z) : K (result AssetRef) :=
  '(endpoint, port) ← get_connection (asset connection);
  m ← load_message pa;
  store_message pa (set_port m port);;
  e ← get_endpoint (asset endpoint);
  target_space ← copy_ref (target_message_space e);
  m ← load_message pa;
  '(r, args) ← update_inplace_message (arguments m) (asset target_space) (asset source_space);
  if is_error r then
    store_message pa (set_arguments m IpcMessageArguments_init);;
    drop target_space;;
    mret (Error "failed to update inplace message")
  else store_message pa (set_arguments m args);; mret (Value target_space).

Definition wake_server (e : IpcEndpoint) : K unit :=
  if asset (awaiting_server e) =? nullptr then mret tt else unblock (asset (awaiting_server e)).

(** [ipc_send] to its [block_current_task()]: the reference to the target
    space stays on the stack of the blocked task. *)
Definition ipc_send (source_space callee connection : AssetRef) (current msg : Z)
    (is_call : bool) : K (result AssetRef) :=
  pa ← message_at current msg;
  ktry (send_prologue source_space connection pa) (fun target_space =>
  '(endpoint, _) ← get_connection (asset connection);
  lock_ref endpoint;;
  t ← get_task (asset callee);
  s ← get_space (_space_owner t);
  pt ← gets page_tables;
  phys ← lift (get_phys (vmm_space s) msg pt);
  match phys with
  | Error _ => drop target_space;; mret (Error "failed to get phys addr of message")
  | Value kernel_mem_msg =>
      e ← get_endpoint (asset endpoint);
      c ← copy_ref callee;
      e ← lift (push_sync (mk_IpcSyncMsgEntry kernel_mem_msg c is_call (tick e)) e);
      set_endpoint (asset endpoint) e;;
      block (asset callee);;
      wake_server e;;
      unlock_ref endpoint;;
      mret (Value target_space)
  end).

(** The rest of [ipc_send], once the task runs again. *)
Definition ipc_send_resume (target_space : AssetRef) : K (result unit) :=
  drop target_space;; mret (Value tt).

Definition ipc_send_async (source_space connection : AssetRef) (current msg : Z) :
    K (result unit) :=
  pa ← message_at current msg;
  ktry (send_prologue source_space connection pa) (fun target_space =>
  '(endpoint, _) ← get_connection (asset connection);
  lock_ref endpoint;;
  e ← get_endpoint (asset endpoint);
  m ← load_message pa;
  c ← lift (copy_message stack_words m);
  e ← lift (push_async (mk_IpcAsyncMsgEntry c (tick e)) e);
  set_endpoint (asset endpoint) e;;
  wake_server e;;
  unlock_ref endpoint;;
  drop target_space;;
  mret (Value tt)).

(** ** Receiving *)

(** A counted field takes a copy of [r]: the old reference leaves the field and
    is dropped first. *)
Definition assign_awaiting (endpoint : Z) (r : AssetRef) : K unit :=
  e ← get_endpoint endpoint;
  set_endpoint endpoint (set_awaiting e AssetRef_moved);;
  drop (awaiting_server e);;
  c ← copy_ref r;
  e ← get_endpoint endpoint;
  set_endpoint endpoint (set_awaiting e c).

(** [ipc_receive] before its loop. *)
Definition ipc_receive (callee endpoint : AssetRef) : K unit :=
  lock_ref endpoint;;
  assign_awaiting (asset endpoint) callee;;
  unlock_ref endpoint.

(** One test of its loop: [true] when the task blocks. *)
Definition ipc_receive_poll (callee endpoint : AssetRef) : K bool :=
  b ← has_message (asset endpoint);
  t ← get_task (asset callee);
  if (b : bool) || signaled t then mret false
  else lock_ref callee;; block (asset callee);; unlock_ref callee;; mret true.

(** A message goes to the buffer at [target]. *)
Definition deliver (target : Z) (m : IpcMessage) : K unit :=
  old ← load_message target;
  m ← lift (assign_message old m);
  store_message target m.

(** Delivery of a synchronous message; the result is [*ret_task_handle]. *)
Definition deliver_sync (space : Z) (target : Z) (sync_entry : IpcSyncMsgEntry) :
    K (result Z) :=
  m ← load_message (kernel_mem_msg sync_entry);
  deliver target m;;
  if is_call sync_entry then
    ktry (create_ipc_return_task space (callee sync_entry)) (fun ret_task =>
    set_content (asset ret_task)
      (IpcMessageReturnTask (callee sync_entry) (kernel_mem_msg sync_entry));;
    drop ret_task;;
    mret (Value (handle ret_task)))
  else unblock (asset (callee sync_entry));; mret (Value invalid).

(** [ipc_receive] after its loop. *)
Definition ipc_receive_finish (space callee_ endpoint : AssetRef) (current target : Z) :
    K (result Z) :=
  lock_ref endpoint;;
  e ← get_endpoint (asset endpoint);
  let awaiting := awaiting_server e in
  set_endpoint (asset endpoint)
    (set_awaiting e (mk_AssetRef nullptr (handle awaiting) (write awaiting) (read awaiting)
                       (share awaiting)));;
  drop awaiting;;
  t ← get_task (asset callee_);
  target ← message_at current target;
  if signaled t then
    set_task (asset callee_)
      (mk_Task (_uid t) (_state t) (blocked t) (_space_owner t) false (signaled_by t));;
    deliver target (IpcMessage_init stack_words);;
    m ← load_message target;
    m ← lift (copy_handle 0 (signaled_by t) (set_interrupted m true));
    store_message target m;;
    unlock_ref endpoint;;
    mret (Value invalid)
  else
    e ← get_endpoint (asset endpoint);
    '(r, e) ← lift (take_message e);
    set_endpoint (asset endpoint) e;;
    match r with
    | Error m => unlock_ref endpoint;; mret (Error m)
    | Value (GotAsync x) =>
        deliver target (target_msg x);; unlock_ref endpoint;; mret (Value invalid)
    | Value (GotSync x) =>
        ktry (deliver_sync (asset space) target x) (fun h =>
        unlock_ref endpoint;;
        drop (callee x);;
        mret (Value h))
    end.

Definition ipc_receive_async (space endpoint : AssetRef) (current target : Z) : K (result Z) :=
  b ← has_message (asset endpoint);
  target ← message_at current target;
  if negb b then
    m ← load_message target;
    store_message target (set_is_null m true);;
    mret (Value invalid)
  else
    lock_ref endpoint;;
    e ← get_endpoint (asset endpoint);
    '(r, e) ← lift (take_message_async e);
    set_endpoint (asset endpoint) e;;
    match r with
    | Error m => unlock_ref endpoint;; mret (Error m)
    | Value (GotAsync x) =>
        deliver target (target_msg x);; unlock_ref endpoint;; mret (Value invalid)
    | Value (GotSync x) =>
        ktry (deliver_sync (asset space) target x) (fun h =>
        unlock_ref endpoint;;
        drop (callee x);;
        mret (Value h))
    end.

(** ** Reply and connection *)

Definition get_return_task (p : Z) : K (AssetRef * Z) :=
  d ← get_content p;
  match d with IpcMessageReturnTask t m => mret (t, m) | _ => trap end.

Definition ipc_reply (space return_task : AssetRef) (current target : Z) : K (result unit) :=
  '(tk, floating_msg) ← get_return_task (asset return_task);
  t ← get_task (asset tk);
  return_space ← make_ref (_space_owner t) 0;
  pa ← message_at current target;
  m ← load_message pa;
  '(r, args) ← update_inplace_message (arguments m) (asset return_space) (asset space);
  store_message pa (set_arguments m args);;
  if is_error r then drop return_space;; mret (Error "failed to update inplace message")
  else
    m ← load_message pa;
    deliver floating_msg m;;
    unblock (asset tk);;
    asset_release (asset space) return_task;;
    drop return_space;;
    mret (Value tt).

Definition ipc_connect (target_space endpoint : AssetRef) : K (result AssetRef) :=
  create_ipc_connection (asset target_space) endpoint.
End ipc.
