(* ===== verification/Signal.v ===== *)
(** kernel/generic/signal.cpp and the operations of signal_asset.hpp: waking
    the tasks that wait for a signal, an interrupt for instance. *)

From stdpp Require Import gmap.
From S2P Require Import Prelude Range UMap.
From S2P Require Import IpcTypes KObject IpcRegistry Space Ipc.

Section signal.
Context `{M : Machine}.

Definition get_signal (p : Z) : K (Z * list Waiter) :=
  d ← get_content p; match d with SignalEndpoint c l => mret (c, l) | _ => trap end.

Definition counter_increment (p : Z) : K unit :=
  '(c, l) ← get_signal p; set_content p (SignalEndpoint (u64 (c + 1)) l).

Definition counter (p : Z) : K Z :=
  lock_asset p;; '(c, _) ← get_signal p; unlock_asset p;; mret c.

(** The loop of [signal_trigger] from [index]; each turn removes a waiter or
    moves past one. A waiter that is removed is destroyed. *)
Fixpoint trigger_loop (fuel : nat) (p index : Z) : K unit :=
  match fuel with
  | O => fun _ => NoFuel
  | S fuel =>
      '(c, l) ← get_signal p;
      match aget l index with
      | None => mret tt
      | Some elt =>
          if asset (w_task elt) =? nullptr then trigger_loop fuel p (index + 1)
          else
            t ← get_task (asset (w_task elt));
            set_task (asset (w_task elt))
              (mk_Task (_uid t) (_state t) (blocked t) (_space_owner t) true
                 (handle (attachement elt)));;
            unblock (asset (w_task elt));;
            match w_kind elt with
            | WAITER_KIND_SYNC =>
                set_content p (SignalEndpoint c (delete (Z.to_nat index) l));;
                drop (attachement elt);; drop (w_task elt);;
                trigger_loop fuel p index
            | WAITER_KIND_ASYNC => trigger_loop fuel p (index + 1)
            end
      end
  end.

Definition signal_trigger (endpoint : AssetRef) : K unit :=
  counter_increment (asset endpoint);;
  '(_, l) ← get_signal (asset endpoint);
  match l with
  | [] => mret tt
  | _ =>
      lock_ref endpoint;;
      trigger_loop (S (length l)) (asset endpoint) 0;;
      unlock_ref endpoint
  end.

(** [signal_await] to its return ([async]) or to its loop: the handle waiters
    are given and the counter the task waits to change. *)
Definition signal_await (endpoint task : AssetRef) (async : bool) (host_space : AssetRef) :
    K (result (AssetRef * Z)) :=
  ktry (create_attached_signal (asset host_space) endpoint) (fun attached =>
  lock_asset (asset endpoint);;
  tk ← copy_ref task;
  att ← copy_ref attached;
  '(wait_id, l) ← get_signal (asset endpoint);
  set_content (asset endpoint)
    (SignalEndpoint wait_id
       (l ++ [mk_Waiter tk (if async then WAITER_KIND_ASYNC else WAITER_KIND_SYNC) att]));;
  unlock_asset (asset endpoint);;
  mret (Value (attached, wait_id))).

(** One test of the loop of a synchronous wait: [true] when the task blocks. *)
Definition signal_await_poll (endpoint task : AssetRef) (wait_id : Z) : K bool :=
  '(c, _) ← get_signal (asset endpoint);
  if c =? wait_id then
    lock_ref task;; block (asset task);; unlock_ref task;; mret true
  else mret false.

(** Its end: [return {}] of a [Result] with a value is an error. *)
Definition signal_await_finish (host_space attached : AssetRef) : K (result AssetRef) :=
  asset_release (asset host_space) attached;;
  drop attached;;
  mret (Error "empty result").

(** [SignalAttached::detach]: entry 0 when the object has no entry. *)
Definition detach (this : Z) : K unit :=
  d ← get_content this;
  match d with
  | SignalAttached endpoint =>
      lock_asset (asset endpoint);;
      '(c, l) ← get_signal (asset endpoint);
      let id := match list_find (fun w => asset (attachement w) = this) l with
                | Some (i, _) => i | None => O end in
      match l !! id with
      | None => trap
      | Some w =>
          set_content (asset endpoint) (SignalEndpoint c (delete id l));;
          unlock_asset (asset endpoint);;
          drop (attachement w);; drop (w_task w)
      end
  | _ => trap
  end.

(** The 32 internal signals of the root space. *)
Fixpoint register_loop (root_space i : Z) (n : nat) : K (result unit) :=
  match n with
  | O => mret (Value tt)
  | S n =>
      ktry (create_signal_endpoint root_space) (fun r =>
      m ← gets _internal_signal_map;
      m ← lift (UMap.insert ndebug i r m);
      modify (with_signals m);;
      register_loop root_space (i + 1) n)
  end.
Definition internal_signal_register (root_space : AssetRef) : K (result unit) :=
  register_loop (asset root_space) 0 32.

(** [internal_id] is converted to an [int]. *)
Definition signal_interrupt_query (internal_id : Z) : K AssetRef :=
  m ← gets _internal_signal_map;
  b ← lift (UMap.has (s32 internal_id) m);
  if (b : bool) then r ← lift (UMap.at_ (s32 internal_id) m); copy_ref r
  else mret AssetRef_init.
End signal.
