(* ===== verification/Scheduler.v ===== *)
(** kernel/generic/scheduler.hpp, scheduler.cpp and cpu_tree.hpp: the queues of
    the scheduler and the choice of the task each core runs next.

    A task is known by its address (0 is the null pointer); [tasks] maps the
    address of each task to what the scheduler reads and writes of it. A queue
    is the list of the tasks in it ([fc::Vec]). Functions pass the state of the
    scheduler along; [scheduler_lock] is held by whoever runs them. Saving and
    loading the contexts of the cores is not modelled. *)

From stdpp Require Import gmap.
From S2P Require Import Prelude.

Definition CpuCoreNone : Z := -1.
Definition TASK_QUEUE_COUNT : Z := 128.

(** * Control blocks *)

(** [mutex] is the value of the [BlockMutex]. *)
Record SchedulerControlBlock := mk_SCB {
  is_idle : bool;
  cpu_affinity : Z;
  old_cpu_affinity : Z;
  total_cycles : Z;
  mutex : bool;
  running : Z;
  sleeping : Z;
  priority : Z
}.

Definition SCB_init (priority : Z) : SchedulerControlBlock :=
  mk_SCB false CpuCoreNone CpuCoreNone 0 false 0 0 priority.

Definition weight (b : SchedulerControlBlock) : Z := s64 (priority b + running b - sleeping b).

(** [fc::clamp] *)
Definition clamp (a lo hi : Z) : Z := Z.max lo (Z.min hi a).

Definition queue (b : SchedulerControlBlock) : Z :=
  clamp (s64 (weight b + TASK_QUEUE_COUNT / 2)) 0 (TASK_QUEUE_COUNT - 1).

Definition set_is_idle (v : bool) (b : SchedulerControlBlock) : SchedulerControlBlock :=
  mk_SCB v (cpu_affinity b) (old_cpu_affinity b) (total_cycles b) (mutex b) (running b) (sleeping b)
    (priority b).
Definition set_cpu_affinity (v : Z) (b : SchedulerControlBlock) : SchedulerControlBlock :=
  mk_SCB (is_idle b) v (old_cpu_affinity b) (total_cycles b) (mutex b) (running b) (sleeping b)
    (priority b).
Definition set_old_cpu_affinity (v : Z) (b : SchedulerControlBlock) : SchedulerControlBlock :=
  mk_SCB (is_idle b) (cpu_affinity b) v (total_cycles b) (mutex b) (running b) (sleeping b)
    (priority b).
Definition sched_tick (b : SchedulerControlBlock) : SchedulerControlBlock :=
  mk_SCB (is_idle b) (cpu_affinity b) (old_cpu_affinity b) (u64 (total_cycles b + 1)) (mutex b)
    (running b) (sleeping b) (priority b).
Definition set_mutex (v : bool) (b : SchedulerControlBlock) : SchedulerControlBlock :=
  mk_SCB (is_idle b) (cpu_affinity b) (old_cpu_affinity b) (total_cycles b) v (running b) (sleeping b)
    (priority b).
Definition add_running (n : Z) (b : SchedulerControlBlock) : SchedulerControlBlock :=
  mk_SCB (is_idle b) (cpu_affinity b) (old_cpu_affinity b) (total_cycles b) (mutex b)
    (s64 (running b + n)) (sleeping b) (priority b).
Definition add_sleeping (n : Z) (b : SchedulerControlBlock) : SchedulerControlBlock :=
  mk_SCB (is_idle b) (cpu_affinity b) (old_cpu_affinity b) (total_cycles b) (mutex b)
    (running b) (s64 (sleeping b + n)) (priority b).

(** * State *)

Record Task := mk_Task { uid : Z; sched : SchedulerControlBlock }.

Record scheduler := mk_scheduler {
  tasks : gmap Z Task;
  task_list : list Z;
  task_queues : list (list Z);
  blocked_tasks : list Z;
  blocked_task_dirty : bool;
  awaiting_task_count : Z;
  scheduler_idles : list Z;
  next_task_to_run : list Z;
  cpu_running : list Z;
  running_cpu_count : Z;
  tick : Z
}.

Definition with_tasks (m : gmap Z Task) (s : scheduler) : scheduler :=
  mk_scheduler m (task_list s) (task_queues s) (blocked_tasks s) (blocked_task_dirty s)
    (awaiting_task_count s) (scheduler_idles s) (next_task_to_run s) (cpu_running s)
    (running_cpu_count s) (tick s).
Definition with_queues (q : list (list Z)) (s : scheduler) : scheduler :=
  mk_scheduler (tasks s) (task_list s) q (blocked_tasks s) (blocked_task_dirty s)
    (awaiting_task_count s) (scheduler_idles s) (next_task_to_run s) (cpu_running s)
    (running_cpu_count s) (tick s).
Definition with_blocked (b : list Z) (s : scheduler) : scheduler :=
  mk_scheduler (tasks s) (task_list s) (task_queues s) b (blocked_task_dirty s)
    (awaiting_task_count s) (scheduler_idles s) (next_task_to_run s) (cpu_running s)
    (running_cpu_count s) (tick s).
Definition with_dirty (b : bool) (s : scheduler) : scheduler :=
  mk_scheduler (tasks s) (task_list s) (task_queues s) (blocked_tasks s) b
    (awaiting_task_count s) (scheduler_idles s) (next_task_to_run s) (cpu_running s)
    (running_cpu_count s) (tick s).
Definition with_count (n : Z) (s : scheduler) : scheduler :=
  mk_scheduler (tasks s) (task_list s) (task_queues s) (blocked_tasks s) (blocked_task_dirty s)
    (u64 n) (scheduler_idles s) (next_task_to_run s) (cpu_running s)
    (running_cpu_count s) (tick s).
Definition with_next (l : list Z) (s : scheduler) : scheduler :=
  mk_scheduler (tasks s) (task_list s) (task_queues s) (blocked_tasks s) (blocked_task_dirty s)
    (awaiting_task_count s) (scheduler_idles s) l (cpu_running s)
    (running_cpu_count s) (tick s).
Definition with_running (l : list Z) (s : scheduler) : scheduler :=
  mk_scheduler (tasks s) (task_list s) (task_queues s) (blocked_tasks s) (blocked_task_dirty s)
    (awaiting_task_count s) (scheduler_idles s) (next_task_to_run s) l
    (running_cpu_count s) (tick s).
Definition with_tick (n : Z) (s : scheduler) : scheduler :=
  mk_scheduler (tasks s) (task_list s) (task_queues s) (blocked_tasks s) (blocked_task_dirty s)
    (awaiting_task_count s) (scheduler_idles s) (next_task_to_run s) (cpu_running s)
    (running_cpu_count s) n.

(** An access through a pointer to a task. *)
Definition get_sched (s : scheduler) (t : Z) : ctl SchedulerControlBlock :=
  x ← deref (tasks s !! t); Ret (sched x).
Definition upd_sched (t : Z) (f : SchedulerControlBlock -> SchedulerControlBlock) (s : scheduler) :
    ctl scheduler :=
  x ← deref (tasks s !! t);
  Ret (with_tasks (<[t := mk_Task (uid x) (f (sched x))]> (tasks s)) s).

(** [next_task_to_run[cpu] = t], [scheduler_idles[cpu]] *)
Definition get_next (s : scheduler) (cpu : Z) : ctl Z := deref (aget (next_task_to_run s) cpu).
Definition set_next (cpu t : Z) (s : scheduler) : ctl scheduler :=
  l ← deref (aset (next_task_to_run s) cpu t); Ret (with_next l s).
Definition idle_of (s : scheduler) (cpu : Z) : ctl Z := deref (aget (scheduler_idles s) cpu).
Definition set_next_idle (cpu : Z) (s : scheduler) : ctl scheduler :=
  t ← idle_of s cpu; set_next cpu t s.

Definition get_queue (s : scheduler) (i : Z) : ctl (list Z) := deref (aget (task_queues s) i).
Definition set_queue (i : Z) (q : list Z) (s : scheduler) : ctl scheduler :=
  l ← deref (aset (task_queues s) i q); Ret (with_queues l s).

(** [for (size_t i = 0; i < n; i++)], the body given the index. *)
Fixpoint for_range {A} (i : Z) (n : nat) (body : Z -> A -> ctl A) (a : A) : ctl A :=
  match n with
  | O => Ret a
  | S n => a ← body i a; for_range (i + 1) n body a
  end.

Fixpoint for_list {A B} (l : list B) (body : B -> A -> ctl A) (a : A) : ctl A :=
  match l with
  | [] => Ret a
  | x :: l => a ← body x a; for_list l body a
  end.

(** [Vec::pop(i)] *)
Definition vec_pop_at (l : list Z) (i : Z) : ctl (Z * list Z) :=
  x ← deref (aget l i); Ret (x, delete (Z.to_nat i) l).

(** [Vec::pop()] *)
Definition vec_pop (l : list Z) : ctl (Z * list Z) := vec_pop_at l (zlen l - 1).

(** * Queues *)

Definition add_entity_to_queue (task : Z) (s : scheduler) : ctl scheduler :=
  if task =? 0 then Ret s
  else
    b ← get_sched s task;
    if is_idle b then Ret s
    else if mutex b then
      Ret (with_blocked (blocked_tasks s ++ [task]) (with_count (awaiting_task_count s + 1) s))
    else
      q ← get_queue s (queue b);
      s ← set_queue (queue b) (q ++ [task]) s;
      Ret (with_count (awaiting_task_count s + 1) s).

Definition by_id (s : scheduler) (id : Z) : ctl (result Z) :=
  match List.find (fun t => match tasks s !! t with Some x => uid x =? id | None => false end)
          (task_list s) with
  | Some t => Ret (Value t)
  | None => Ret (Error "unable to find task")
  end.

Definition task_run (task_id : Z) (s : scheduler) : ctl (result unit * scheduler) :=
  r ← by_id s task_id;
  match r with
  | Error _ => Ret (Error "unable to find task", s)
  | Value t =>
      s ← upd_sched t (fun _ => SCB_init 0) s;
      s ← add_entity_to_queue t s;
      Ret (Value tt, s)
  end.

(** [SchedulerControlBlock::block], [unblock] *)
Definition sched_block (t : Z) (s : scheduler) : ctl scheduler :=
  b ← get_sched s t;
  if mutex b then Trap
  else s ← upd_sched t (set_mutex true) s; Ret (with_dirty true s).
Definition sched_unblock (t : Z) (s : scheduler) : ctl scheduler :=
  s ← upd_sched t (set_mutex false) s; Ret (with_dirty true s).

(** The loop over the blocked tasks; each turn removes one or moves past one. *)
Fixpoint resolve_loop (fuel : nat) (i unblocked_count : Z) (s : scheduler) :
    ctl (Z * scheduler) :=
  match fuel with
  | O => NoFuel
  | S fuel =>
      if zlen (blocked_tasks s) <=? i then Ret (unblocked_count, s)
      else
        task ← deref (aget (blocked_tasks s) i);
        b ← get_sched s task;
        if mutex b then resolve_loop fuel (i + 1) unblocked_count s
        else
          s ← upd_sched task (set_mutex false) s;
          s ← add_entity_to_queue task s;
          '(_, l) ← vec_pop_at (blocked_tasks s) i;
          resolve_loop fuel i (u64 (unblocked_count + 1))
            (with_count (awaiting_task_count s - 1) (with_blocked l s))
  end.

Definition resolve_blocked_tasks_scheduler (s : scheduler) : ctl (Z * scheduler) :=
  match blocked_tasks s with
  | [] => Ret (0, s)
  | _ => resolve_loop (S (length (blocked_tasks s))) 0 0 s
  end.

(** ** Selection *)

Inductive CpuTreeNode := mk_CpuTreeNode (_children : list CpuTreeNode) (_cpu : Z).

Definition children (n : CpuTreeNode) : list CpuTreeNode :=
  match n with mk_CpuTreeNode l _ => l end.
Definition cpu_id (n : CpuTreeNode) : Z := match n with mk_CpuTreeNode _ c => c end.
Definition is_leaf (n : CpuTreeNode) : bool := match children n with [] => true | _ => false end.

Fixpoint cpu_count (n : CpuTreeNode) : Z :=
  match n with
  | mk_CpuTreeNode l _ =>
      (if match l with [] => true | _ => false end then 1 else 0) +
      foldr (fun c n => cpu_count c + n) 0 l
  end.

(** The loop over the children, from the values of [has_a] and [has_b]. *)
Fixpoint leaves_have (l : list CpuTreeNode) (a b : Z) (has_a has_b : bool) : bool :=
  match l with
  | [] => false
  | c :: l =>
      if is_leaf c then
        if (cpu_id c =? a) && has_b then true
        else
          let has_a := has_a || (cpu_id c =? a) in
          if (cpu_id c =? b) && has_a then true
          else leaves_have l a b has_a (has_b || (cpu_id c =? b))
      else leaves_have l a b has_a has_b
  end.

Fixpoint are_they_sibling (n : CpuTreeNode) (a b : Z) : bool :=
  match n with
  | mk_CpuTreeNode l _ =>
      leaves_have l a b false false || existsb (fun c => are_they_sibling c a b) l
  end.

(** [root]: what [CpuTreeNode::root()] returns. *)
Fixpoint nearest_loop (s : scheduler) (root : CpuTreeNode) (q : list Z) (off core : Z)
    (consider_siblings : bool) : ctl (result Z) :=
  match q with
  | [] => Ret (Error "no task found")
  | task :: q =>
      b ← get_sched s task;
      if (cpu_affinity b =? CpuCoreNone) || (cpu_affinity b =? core) then Ret (Value off)
      else if consider_siblings && are_they_sibling root (cpu_affinity b) core then Ret (Value off)
      else nearest_loop s root q (off + 1) core consider_siblings
  end.
Definition query_nearest_task (s : scheduler) (root : CpuTreeNode) (queue_id core : Z)
    (consider_siblings : bool) : ctl (result Z) :=
  q ← get_queue s queue_id; nearest_loop s root q 0 core consider_siblings.

Definition run_task_queued (cpu queue_id queue_offset : Z) (s : scheduler) : ctl scheduler :=
  q ← get_queue s queue_id;
  '(task, q) ← vec_pop_at q queue_offset;
  s ← set_queue queue_id q s;
  let s := with_count (awaiting_task_count s - 1) s in
  if task =? 0 then set_next_idle cpu s
  else
    s ← upd_sched task (fun b => set_is_idle false (set_cpu_affinity cpu (sched_tick b))) s;
    set_next cpu task s.

(** ** The start of a scheduling round *)

Definition positive_weight (t : Z) (s : scheduler) (sum : Z) : ctl Z :=
  b ← get_sched s t;
  Ret (if 0 <? weight b then s64 (sum + weight b) else sum).

Definition summed_weights (s : scheduler) : ctl Z :=
  sum ← for_list (concat (task_queues s)) (fun t sum => positive_weight t s sum) 0;
  for_list (blocked_tasks s) (fun t sum => positive_weight t s sum) sum.

(** Every queue goes to the one before it; [std::move] swaps. *)
Definition shift_queue (i : Z) (s : scheduler) : ctl scheduler :=
  q ← get_queue s i;
  q' ← get_queue s (i + 1);
  if i =? 0 then s ← set_queue 0 (q ++ q') s; set_queue 1 [] s
  else s ← set_queue i q' s; set_queue (i + 1) q s.

Definition shift_queues (s : scheduler) : ctl scheduler :=
  s ← for_range 0 (Z.to_nat (TASK_QUEUE_COUNT - 1)) shift_queue s;
  set_queue (TASK_QUEUE_COUNT - 1) [] s.

Definition add_sleep (s : scheduler) : ctl scheduler :=
  sum ← summed_weights s;
  let count := s64 (awaiting_task_count s) in
  if count =? 0 then Ret s
  else
    let avg_sleep_time := Z.max (Z.quot sum count) 1 in
    for_list (concat (task_queues s)) (fun t => upd_sched t (add_sleeping avg_sleep_time)) s.

(** The task a core was to run goes back to a queue. *)
Definition requeue (i : Z) (s : scheduler) : ctl scheduler :=
  t ← get_next s i;
  if t =? 0 then Ret s
  else
    b ← get_sched s t;
    if is_idle b then Ret s
    else
      s ← upd_sched t (fun b => set_old_cpu_affinity i (add_running 1 b)) s;
      s ← add_entity_to_queue t s;
      set_next_idle i s.

Definition update_runned_tasks (s : scheduler) : ctl scheduler :=
  s ← (if blocked_task_dirty s then
         '(_, s) ← resolve_blocked_tasks_scheduler (with_dirty false s); Ret s
       else Ret s);
  s ← shift_queues s;
  s ← add_sleep s;
  for_range 0 (Z.to_nat (running_cpu_count s)) requeue s.

(** ** A round for all cores *)

Section schedule.
Context (root : CpuTreeNode).

(** First pass over a queue: the cores of [choosen], the last first, take the
    first task of the queue that may run on them; those that find none go to
    [retried]. *)
Fixpoint first_pass (fuel : nat) (i : Z) (choosen retried : list Z) (s : scheduler) :
    ctl (list Z * scheduler) :=
  match fuel with
  | O => NoFuel
  | S fuel =>
      if zlen choosen =? 0 then Ret (retried, s)
      else
        '(cpu, choosen) ← vec_pop choosen;
        r ← query_nearest_task s root i cpu false;
        match r with
        | Error _ => first_pass fuel i choosen (retried ++ [cpu]) s
        | Value val =>
            s ← run_task_queued cpu i val s;
            first_pass fuel i choosen retried s
        end
  end.

(** Second pass: the rest of the queue, whatever the affinity. *)
Fixpoint second_pass (fuel : nat) (i : Z) (retried : list Z) (s : scheduler) :
    ctl (list Z * scheduler) :=
  match fuel with
  | O => NoFuel
  | S fuel =>
      q ← get_queue s i;
      if (zlen retried =? 0) || (zlen q =? 0) then Ret (retried, s)
      else
        '(cpu, retried) ← vec_pop retried;
        s ← run_task_queued cpu i 0 s;
        second_pass fuel i retried s
  end.

Definition schedule_queue (i : Z) (st : list Z * scheduler) : ctl (list Z * scheduler) :=
  let '(choosen, s) := st in
  q ← get_queue s i;
  if zlen q =? 0 then Ret (choosen, s)
  else
    '(retried, s) ← first_pass (S (length choosen)) i choosen [] s;
    second_pass (S (length retried)) i retried s.

Definition schedule_all (s : scheduler) : ctl scheduler :=
  if awaiting_task_count s =? 0 then Ret s
  else
    '(choosen, s) ← for_range 0 (Z.to_nat TASK_QUEUE_COUNT) schedule_queue
                      (seqZ 0 (running_cpu_count s), s);
    for_list choosen set_next_idle s.

(** [attempt] counts up to [max_attempt]; [n] is what is left of it. *)
Fixpoint fix_loop (n : nat) (to_fix : list Z) (s : scheduler) : ctl (nat * scheduler) :=
  match n with
  | O => Ret (O, s)
  | S n' =>
      if zlen to_fix =? 0 then Ret (n, s)
      else
        '(current, to_fix) ← vec_pop to_fix;
        task_associated ← get_next s current;
        b ← get_sched s task_associated;
        if is_idle b then fix_loop n' to_fix s
        else
          let old_cpu := old_cpu_affinity b in
          if (old_cpu =? current) || (old_cpu =? CpuCoreNone) then fix_loop n' to_fix s
          else
            stealer ← get_next s old_cpu;
            s ← upd_sched stealer (set_cpu_affinity current) s;
            bs ← get_sched s stealer;
            s ← (if is_idle bs then set_next_idle current s else set_next current stealer s);
            s ← upd_sched task_associated (set_cpu_affinity old_cpu) s;
            s ← set_next old_cpu task_associated s;
            fix_loop n' (to_fix ++ [old_cpu]) s
  end.

Definition fix_sched_affinity (s : scheduler) : ctl (result unit * scheduler) :=
  '(unused, s) ← fix_loop (Z.to_nat (4 * running_cpu_count s)) (seqZ 0 (running_cpu_count s)) s;
  match unused with
  | O => Ret (Error "unable to fix affinity, attempt limit reached", s)
  | _ => Ret (Value tt, s)
  end.

(** [reschedule_all] before it releases the lock. *)
Definition reschedule_all (s : scheduler) : ctl (result unit * scheduler) :=
  s ← update_runned_tasks (with_tick (u64 (tick s + 1)) s);
  s ← schedule_all s;
  fix_sched_affinity s.

(** ** A round for one core *)

Fixpoint schedule_one_loop (n : nat) (cpu i : Z) (s : scheduler) : ctl scheduler :=
  match n with
  | O => set_next_idle cpu s
  | S n =>
      q ← get_queue s i;
      if zlen q =? 0 then schedule_one_loop n cpu (i + 1) s
      else
        r ← query_nearest_task s root i cpu false;
        match r with
        | Error _ => run_task_queued cpu i 0 s
        | Value val => run_task_queued cpu i val s
        end
  end.
Definition schedule_one (cpu : Z) (s : scheduler) : ctl (result unit * scheduler) :=
  s ← (if awaiting_task_count s =? 0 then set_next_idle cpu s
       else schedule_one_loop (Z.to_nat TASK_QUEUE_COUNT) cpu 0 s);
  Ret (Value tt, s).

Definition update_runned_task_for_cpu (cpu : Z) (s : scheduler) : ctl scheduler :=
  t ← get_next s cpu;
  b ← get_sched s t;
  if is_idle b then Ret s
  else
    s ← upd_sched t (set_old_cpu_affinity cpu) s;
    s ← add_entity_to_queue t s;
    s ← set_next_idle cpu s;
    i ← get_next s cpu;
    upd_sched i (fun b => set_old_cpu_affinity CpuCoreNone (set_cpu_affinity CpuCoreNone b)) s.

Definition expect_scheduling (s : scheduler) (cpu : Z) : ctl bool :=
  t ← get_next s cpu;
  r ← deref (aget (cpu_running s) cpu);
  Ret (negb (t =? r)).

Definition reschedule_only_one (core : Z) (s : scheduler) : ctl (result unit * scheduler) :=
  e ← expect_scheduling s core;
  if (e : bool) then Ret (Value tt, s)
  else
    s ← update_runned_task_for_cpu core s;
    '(_, s) ← resolve_blocked_tasks_scheduler s;
    schedule_one core s.

Definition next_task_select (s : scheduler) (core : Z) : ctl (result Z) :=
  if running_cpu_count s <=? u64 core then Ret (Error "invalid core id")
  else
    task ← get_next s core;
    if task =? 0 then
      match aget (scheduler_idles s) core with
      | Some t => Ret (Value t)
      | None => Ret (Error "no idle task available for core")
      end
    else Ret (Value task).
End schedule.

(** [cpu_running[core] = next]; no slot is null once the idle tasks exist. *)
Definition switch_to (core : Z) (s : scheduler) : ctl scheduler :=
  t ← get_next s core;
  l ← deref (aset (cpu_running s) core t);
  Ret (with_running l s).

(** ** Start-up *)

(** One idle task for each core; [created] is what [Task::task_create] returned
    for each of them (the address and number of the new task). *)
Fixpoint scheduler_init_idle_task (created : list (result (Z * Z))) (s : scheduler) :
    result unit * scheduler :=
  match created with
  | [] => (Value tt, s)
  | Error _ :: _ => (Error "unable to create idle task", s)
  | Value (t, id) :: created =>
      scheduler_init_idle_task created
        (mk_scheduler (<[t := mk_Task id (set_is_idle true (SCB_init 0))]> (tasks s))
           (task_list s ++ [t]) (task_queues s) (blocked_tasks s) (blocked_task_dirty s)
           (awaiting_task_count s) (scheduler_idles s ++ [t]) (next_task_to_run s ++ [t])
           (cpu_running s ++ [t]) (running_cpu_count s) (tick s))
  end.

Definition scheduler_init (cpu_count Cpu_count : Z) (created : list (result (Z * Z)))
    (s : scheduler) : result unit * scheduler :=
  let s := mk_scheduler (tasks s) (task_list s) (task_queues s) (blocked_tasks s)
             (blocked_task_dirty s) (awaiting_task_count s) (scheduler_idles s)
             (next_task_to_run s) (cpu_running s) (u64 cpu_count) (tick s) in
  if negb (u64 cpu_count =? Cpu_count) then (Error "cpu count mismatch", s)
  else
    scheduler_init_idle_task created
      (mk_scheduler (tasks s) (task_list s) (replicate (Z.to_nat TASK_QUEUE_COUNT) [])
         (blocked_tasks s) (blocked_task_dirty s) (awaiting_task_count s) (scheduler_idles s)
         [] [] (running_cpu_count s) (tick s)).
