(* ===== verification/SyscallTypes.v ===== *)
(** wingos-headers/syscalls.h: the numbers of the system calls and the
    structures their arguments are in. The field names have the initials of
    the structure in front. *)

From S2P Require Import Prelude.

Record SyscallInterface := mk_SyscallInterface {
  id : Z; _zero : Z; arg1 : Z; arg2 : Z; arg3 : Z; arg4 : Z; arg5 : Z; arg6 : Z
}.

(** * Numbers *)

Definition SYSCALL_DEBUG_LOG_ID : Z := 0x0.
Definition SYSCALL_PHYSICAL_MEM_OWN_ID : Z := 0x1.
Definition SYSCALL_MAPPING_CREATE_ID : Z := 0x2.
Definition SYSCALL_TASK_CREATE_ID : Z := 0x3.
Definition SYSCALL_SPACE_CREATE_ID : Z := 0x4.
Definition SYSCALL_ASSET_RELEASE_ID : Z := 0x5.
Definition SYSCALL_TASK_LAUNCH_ID : Z := 0x6.
Definition SYSCALL_ASSET_MOVE : Z := 0x7.
Definition SYSCALL_IPC_CREATE_ENDPOINT_ID : Z := 0x8.
Definition SYSCALL_IPC_CONNECT_ID : Z := 0x9.
Definition SYSCALL_IPC_SEND_ID : Z := 0xa.
Definition SYSCALL_IPC_RECEIVE_ID : Z := 0xb.
Definition SYSCALL_IPC_RECEIVE_INTERNAL_SPACE : Z := u64 (-1).
Definition SYSCALL_IPC_CALL_ID : Z := 0xd.
Definition SYSCALL_IPC_REPLY_ID : Z := 0xf.
Definition SYSCALL_ASSET_INFO_ID : Z := 0x11.
Definition SYSCALL_VM_CREATE : Z := 0x12.
Definition SYSCALL_VM_CREATE_MAPPING : Z := 0x13.
Definition SYSCALL_VM_START : Z := 0x14.
Definition SYSCALL_VM_REG_WRITE : Z := 0x15.
Definition SYSCALL_VM_REG_READ : Z := 0x16.
Definition SYSCALL_IPC_X86 : Z := 0x10000.
Definition SYSCALL_IPC_X86_PORT : Z := SYSCALL_IPC_X86 + 0x1.

(** * Structures

    An [AssetHandle], an [IpcServerHandle] and a pointer are 64-bit integers;
    the two members of an anonymous union are one field. *)

Record SyscallMemOwn := mk_SyscallMemOwn {
  mo_target_space_handle : Z; mo_size : Z; mo_addr : Z; mo_returned_handle : Z
}.

Record SyscallMap := mk_SyscallMap {
  mp_target_space_handle : Z; mp_start : Z; mp_end : Z; mp_physical_mem_handle : Z;
  mp_flags : Z; mp_returned_handle : Z
}.

Record SyscallTaskCreate := mk_SyscallTaskCreate {
  tc_target_space_handle : Z; tc_launch : Z; tc_args : list Z; tc_returned_handle : Z
}.

Record SyscallSpaceCreate := mk_SyscallSpaceCreate {
  sc_parent_space_handle : Z; sc_flags : Z; sc_rights : Z; sc_returned_handle : Z
}.

Record SyscallAssetRelease := mk_SyscallAssetRelease {
  ar_space_handle : Z; ar_asset_handle : Z; ar_addr : Z; ar_end : Z
}.

Record SyscallTaskLaunch := mk_SyscallTaskLaunch {
  tl_target_space_handle : Z; tl_task_handle : Z; tl_args : list Z
}.

Record SyscallAssetMove := mk_SyscallAssetMove {
  am_from_space_handle : Z; am_to_space_handle : Z; am_asset_handle : Z; am_copy : bool;
  am_returned_handle_in_space : Z
}.

Record SyscallIpcCreateEndpoint := mk_SyscallIpcCreateEndpoint {
  ce_space_handle : Z; ce_is_root : bool; ce_publish : bool; ce_returned_addr : Z;
  ce_returned_handle : Z
}.

(** [ic_server]: the union of [server_address] and [endpoint_handle]. *)
Record SyscallIpcConnect := mk_SyscallIpcConnect {
  ic_sender_space_handle : Z; ic_connect_by_address : bool; ic_server : Z;
  ic_returned_handle_sender : Z; ic_port_used : Z
}.

Record SyscallIpcSend := mk_SyscallIpcSend {
  is_space_handle : Z; is_async : bool; is_connection_handle : Z; is_message : Z
}.

(** [ir_source]: the union of [endpoint_handle] and [internal_signal_id];
    [ir_returned]: that of [return_context_handle] and [return_asset_id]. *)
Record SyscallIpcReceive := mk_SyscallIpcReceive {
  ir_space_handle : Z; ir_source : Z; ir_async : bool; ir_returned_message : Z; ir_returned : Z
}.

Record SyscallIpcCall := mk_SyscallIpcCall {
  ia_space_handle : Z; ia_connection_handle : Z; ia_message : Z
}.

Record SyscallIpcReply := mk_SyscallIpcReply {
  ip_space_handle : Z; ip_return_task_handle : Z; ip_message : Z
}.

(** [returned_info] as the member that was written last. *)
Inductive asset_info :=
| info_unset
| info_memory (size addr : Z)
| info_mapping (start end_ : Z) (writable executable : bool)
| info_connection (port : Z)
| info_space (element_count : Z).

(** [ai_asset]: the union of [asset_handle] and [asset_index]. *)
Record SyscallAssetInfo := mk_SyscallAssetInfo {
  ai_space_handle : Z; ai_use_index : bool; ai_asset : Z; ai_returned_kind : Z;
  ai_returned_asset_handle : Z; ai_returned_info : asset_info
}.

Record SyscallCreateVm := mk_SyscallCreateVm { cv_space_handle : Z; cv_result_vm : Z }.

Record SyscallCreateVmMapping := mk_SyscallCreateVmMapping {
  vm_space_handle : Z; vm_vm_handle : Z; vm_start : Z; vm_end : Z; vm_physical_mem_handle : Z;
  vm_flags : Z; vm_returned_handle : Z
}.

(** [SyscallVmRegRead] and [SyscallVmRegWrite] *)
Record SyscallVmReg := mk_SyscallVmReg {
  vr_space_handle : Z; vr_vm_handle : Z; vr_mode : Z; vr_address : Z; vr_value : Z
}.

Record SyscallIpcX86Port := mk_SyscallIpcX86Port {
  xp_space_handle : Z; xp_size : Z; xp_port : Z; xp_write : Z; xp_read : Z; xp_data : Z;
  xp_returned_value : Z
}.

(** ** The structure each call takes *)

Inductive args_kind :=
| ArgsMemOwn | ArgsMap | ArgsTaskCreate | ArgsSpaceCreate | ArgsAssetRelease | ArgsTaskLaunch
| ArgsAssetMove | ArgsCreateEndpoint | ArgsConnect | ArgsSend | ArgsReceive | ArgsCall | ArgsReply
| ArgsAssetInfo | ArgsCreateVm | ArgsCreateVmMapping | ArgsRegRead | ArgsRegWrite | ArgsX86Port.

Definition args_type (t : args_kind) : Set :=
  match t with
  | ArgsMemOwn => SyscallMemOwn
  | ArgsMap => SyscallMap
  | ArgsTaskCreate => SyscallTaskCreate
  | ArgsSpaceCreate => SyscallSpaceCreate
  | ArgsAssetRelease => SyscallAssetRelease
  | ArgsTaskLaunch => SyscallTaskLaunch
  | ArgsAssetMove => SyscallAssetMove
  | ArgsCreateEndpoint => SyscallIpcCreateEndpoint
  | ArgsConnect => SyscallIpcConnect
  | ArgsSend => SyscallIpcSend
  | ArgsReceive => SyscallIpcReceive
  | ArgsCall => SyscallIpcCall
  | ArgsReply => SyscallIpcReply
  | ArgsAssetInfo => SyscallAssetInfo
  | ArgsCreateVm => SyscallCreateVm
  | ArgsCreateVmMapping => SyscallCreateVmMapping
  | ArgsRegRead | ArgsRegWrite => SyscallVmReg
  | ArgsX86Port => SyscallIpcX86Port
  end.

(** [sizeof] on x86-64. *)
Definition args_size (t : args_kind) : Z :=
  match t with
  | ArgsMemOwn => 32
  | ArgsMap => 48
  | ArgsTaskCreate => 56
  | ArgsSpaceCreate => 32
  | ArgsAssetRelease => 32
  | ArgsTaskLaunch => 48
  | ArgsAssetMove => 40
  | ArgsCreateEndpoint => 32
  | ArgsConnect => 40
  | ArgsSend => 32
  | ArgsReceive => 40
  | ArgsCall => 24
  | ArgsReply => 24
  | ArgsAssetInfo => 72
  | ArgsCreateVm => 16
  | ArgsCreateVmMapping => 56
  | ArgsRegRead | ArgsRegWrite => 40
  | ArgsX86Port => 32
  end.

(** What the memory at the pointer holds, read as each of the structures. *)
Definition user_args : Type := forall t, args_type t.

(** ** The encoders *)

Definition encode (i p : Z) : SyscallInterface := mk_SyscallInterface i 0 p 0 0 0 0 0.

Definition syscall_debug_encode := encode SYSCALL_DEBUG_LOG_ID.
Definition syscall_physical_mem_own_encode := encode SYSCALL_PHYSICAL_MEM_OWN_ID.
Definition syscall_map_encode := encode SYSCALL_MAPPING_CREATE_ID.
Definition syscall_task_create_encode := encode SYSCALL_TASK_CREATE_ID.
Definition syscall_space_create_encode := encode SYSCALL_SPACE_CREATE_ID.
Definition syscall_asset_release_encode := encode SYSCALL_ASSET_RELEASE_ID.
Definition syscall_task_launch_encode := encode SYSCALL_TASK_LAUNCH_ID.
Definition syscall_asset_move_encode := encode SYSCALL_ASSET_MOVE.
Definition syscall_ipc_create_endpoint_encode := encode SYSCALL_IPC_CREATE_ENDPOINT_ID.
Definition syscall_ipc_connect_encode := encode SYSCALL_IPC_CONNECT_ID.
Definition syscall_ipc_send_encode := encode SYSCALL_IPC_SEND_ID.
Definition syscall_ipc_receive_encode := encode SYSCALL_IPC_RECEIVE_ID.
Definition syscall_ipc_call_encode := encode SYSCALL_IPC_CALL_ID.
Definition syscall_ipc_reply_encode := encode SYSCALL_IPC_REPLY_ID.
Definition syscall_ipc_asset_info_encode := encode SYSCALL_ASSET_INFO_ID.
Definition syscall_create_vm_encode := encode SYSCALL_VM_CREATE.
Definition syscall_create_vm_mapping_encode := encode SYSCALL_VM_CREATE_MAPPING.
Definition syscall_vm_start_encode := encode SYSCALL_VM_START.
Definition syscall_vm_reg_write := encode SYSCALL_VM_REG_WRITE.
Definition syscall_vm_reg_read := encode SYSCALL_VM_REG_READ.
Definition syscall_ipc_x86_port := encode SYSCALL_IPC_X86_PORT.
