(* ===== verification/Syscalls.v ===== *)
(** kernel/generic/syscalls.cpp: the handlers of the system calls.

    The argument structure is read from the memory of the caller when the call
    starts and written back when it ends: a handler takes it and returns it as
    it leaves it. A handler that blocks stops at [block_current_task()] with
    what it goes on with ([wait]), the counted references on its stack among
    it. The scheduler is a state of its own (Scheduler.v); the page tables of
    the caller are those of the space it belongs to. Flushing the translations
    of new pages changes nothing here. *)

From stdpp Require Import gmap.
From S2P Require Import Prelude Range UMap.
From S2P Require Paging Scheduler.
From S2P Require Import IpcTypes KObject IpcRegistry Space Ipc Signal SyscallTypes.

Section syscalls.
Context `{M : Machine}.

(** [try$(m)] in a handler that has not written its arguments yet. *)
Definition stry {A B S} (m : K (result A)) (s : S) (f : A -> K (result B * S)) : K (result B * S) :=
  r ← m; match r with Value a => f a | Error e => mret (Error e, s) end.

(** A handler ends: the result, and the arguments as they are left. *)
Definition done {S} (r : Z) (s : S) : K (result Z * S) := mret (Value r, s).
Definition fail {S} (e : string) (s : S) : K (result Z * S) := mret (Error e, s).

(** [caller->space()], [caller->vmm_space()] *)
Definition caller_space (caller : Z) : K Z := t ← get_task caller; mret (_space_owner t).
Definition caller_tables (caller : Z) : K Z :=
  sp ← caller_space caller; s ← get_space sp; mret (vmm_space s).

(** [syscall_check_ptr<T>(caller, ptr)] *)
Definition syscall_check_ptr (caller ptr size : Z) : K (result Z) :=
  if ptr =? 0 then mret (Error "null pointer")
  else if caller =? nullptr then mret (Error "no current task")
  else if Paging.MMAP_IO_BASE <=? ptr then mret (Error "invalid pointer")
  else
    v ← caller_tables caller;
    t ← gets page_tables;
    ktry (lift (vmm_verify v ptr size t)) (fun _ => mret (Value ptr)).

(** The start every handler shares: the space its handle names, the caller's
    own for 0. The reference [by_handle] gives is dropped at once. *)
Definition target_space (caller handle : Z) : K (result Z) :=
  sp ← caller_space caller;
  if handle =? 0 then mret (Value sp)
  else ktry (by_handle_as OBJECT_KIND_SPACE sp handle) (fun r => drop r;; mret (Value (asset r))).

Definition with_space {S} (caller h : Z) (s : S) (f : Z -> K (result Z * S)) : K (result Z * S) :=
  stry (target_space caller h) s (fun space =>
  if space =? nullptr then fail "no current space" s else f space).

(** ** Memory *)

Definition ksyscall_mem_own (caller : Z) (a : SyscallMemOwn) : K (result Z * SyscallMemOwn) :=
  with_space caller (mo_target_space_handle a) a (fun space =>
  stry (create_memory space (mo_size a) (mo_addr a) false) a (fun ref =>
  d ← get_content (asset ref);
  let addr := match d with AssetMemory _ addr _ => addr | _ => 0 end in
  drop ref;;
  done (handle ref)
    (mk_SyscallMemOwn (mo_target_space_handle a) (mo_size a) addr (handle ref)))).

Definition ksyscall_map (caller : Z) (a : SyscallMap) : K (result Z * SyscallMap) :=
  with_space caller (mp_target_space_handle a) a (fun space =>
  if mp_end a <=? mp_start a then fail "invalid mapping range" a
  else
    stry (by_handle_as OBJECT_KIND_MEMORY space (mp_physical_mem_handle a)) a (fun phys =>
    r ← create_mapping space (mp_start a) (mp_end a) phys
          (negb (Z.land (mp_flags a) ASSET_MAPPING_FLAG_WRITE =? 0))
          (negb (Z.land (mp_flags a) ASSET_MAPPING_FLAG_EXECUTE =? 0));
    match r with
    | Error e => drop phys;; fail e a
    | Value ref =>
        drop ref;; drop phys;;
        done (handle ref)
          (mk_SyscallMap (mp_target_space_handle a) (mp_start a) (mp_end a)
             (mp_physical_mem_handle a) (mp_flags a) (handle ref))
    end)).

(** ** Tasks and spaces *)

(** What the architecture makes of a new task: see [create_task]. *)
Record task_setup := mk_task_setup { context : result unit; prepared : result unit; stack : Range }.

Definition ksyscall_task_create (setup : task_setup) (caller : Z) (a : SyscallTaskCreate) :
    K (result Z * SyscallTaskCreate) :=
  with_space caller (tc_target_space_handle a) a (fun space =>
  stry (create_task space true (context setup) (prepared setup) (stack setup)) a (fun ref =>
  drop ref;;
  done (handle ref)
    (mk_SyscallTaskCreate (tc_target_space_handle a) (tc_launch a) (tc_args a) (handle ref)))).

Definition ksyscall_space_create (caller : Z) (a : SyscallSpaceCreate) :
    K (result Z * SyscallSpaceCreate) :=
  with_space caller (sc_parent_space_handle a) a (fun space =>
  stry (create_space space) a (fun ref =>
  drop ref;;
  done (handle ref)
    (mk_SyscallSpaceCreate (sc_parent_space_handle a) (sc_flags a) (sc_rights a) (handle ref)))).

(** [task_run] works on the state of the scheduler. *)
Definition ksyscall_task_launch (caller : Z) (a : SyscallTaskLaunch) (sch : Scheduler.scheduler) :
    K (result Z * Scheduler.scheduler) :=
  with_space caller (tl_target_space_handle a) sch (fun space =>
  stry (by_handle_as OBJECT_KIND_TASK space (tl_task_handle a)) sch (fun task_asset =>
  if asset task_asset =? nullptr then drop task_asset;; fail "task asset has no task" sch
  else
    t ← get_task (asset task_asset);
    '(r, sch) ← lift (Scheduler.task_run (_uid t) sch);
    drop task_asset;;
    match r with Error e => fail e sch | Value _ => done 0 sch end)).

(** ** Release and transfer *)

Definition mapping_is (addr end_ : Z) (d : asset_data) : bool :=
  match d with AssetMapping s e _ _ _ => (s =? addr) && (e =? end_) | _ => false end.

Definition mapped_memory (p : Z) : K AssetRef :=
  d ← get_content p; match d with AssetMapping _ _ m _ _ => copy_ref m | _ => trap end.

Definition ksyscall_mem_release (caller : Z) (a : SyscallAssetRelease) :
    K (result Z * SyscallAssetRelease) :=
  space ← caller_space caller;
  if space =? nullptr then fail "no current space" a
  else
    stry (by_fn OBJECT_KIND_MAPPING space (mapping_is (ar_addr a) (ar_end a))) a (fun virt =>
    mem ← mapped_memory (asset virt);
    if asset mem =? nullptr then
      drop mem;; drop virt;; fail "memory asset not found for given address range" a
    else
      asset_release space virt;;
      asset_release space mem;;
      drop mem;; drop virt;; done 0 a).

Definition ksyscall_asset_release (caller : Z) (a : SyscallAssetRelease) :
    K (result Z * SyscallAssetRelease) :=
  if (ar_asset_handle a =? invalid) && negb (ar_addr a =? nullptr) then ksyscall_mem_release caller a
  else
    with_space caller (ar_space_handle a) a (fun space =>
    stry (by_handle space (ar_asset_handle a)) a (fun ref =>
    asset_release space ref;; drop ref;; done 0 a)).

(** [copy] is not looked at. *)
Definition ksyscall_asset_move (caller : Z) (a : SyscallAssetMove) : K (result Z * SyscallAssetMove) :=
  stry (target_space caller (am_from_space_handle a)) a (fun from =>
  stry (target_space caller (am_to_space_handle a)) a (fun to =>
  if (from =? nullptr) || (to =? nullptr) then fail "no current space" a
  else
    stry (by_handle from (am_asset_handle a)) a (fun ref =>
    r ← asset_move from to ref;
    match r with
    | Error e => drop ref;; fail e a
    | Value moved =>
        drop moved;; drop ref;;
        done (handle moved)
          (mk_SyscallAssetMove (am_from_space_handle a) (am_to_space_handle a) (am_asset_handle a)
             (am_copy a) (handle moved))
    end))).

(** ** IPC *)

Definition ksyscall_create_endpoint (caller : Z) (a : SyscallIpcCreateEndpoint) :
    K (result Z * SyscallIpcCreateEndpoint) :=
  with_space caller (ce_space_handle a) a (fun space =>
  stry (create_ipc_endpoint space (ce_publish a) (ce_is_root a)) a (fun ref =>
  e ← get_endpoint (asset ref);
  drop ref;;
  done (handle ref)
    (mk_SyscallIpcCreateEndpoint (ce_space_handle a) (ce_is_root a) (ce_publish a) (uuid e)
       (handle ref)))).

Definition ksyscall_create_connection (caller : Z) (a : SyscallIpcConnect) :
    K (result Z * SyscallIpcConnect) :=
  with_space caller (ic_sender_space_handle a) a (fun space =>
  stry (if ic_connect_by_address a then query_server (ic_server a)
        else by_handle_as OBJECT_KIND_IPC_ENDPOINT space (ic_server a)) a (fun endpoint =>
  r ← create_ipc_connection space endpoint;
  drop endpoint;;
  match r with
  | Error e => fail e a
  | Value conn =>
      '(_, port) ← get_connection (asset conn);
      drop conn;;
      done (handle conn)
        (mk_SyscallIpcConnect (ic_sender_space_handle a) (ic_connect_by_address a) (ic_server a)
           (handle conn) (u64 port))
  end)).

(** *** Blocking *)

(** What a blocked handler goes on with: the references on its stack, and what
    it still needs of its arguments. *)
Inductive wait :=
| WaitSend (space_ref return_task connection target : AssetRef)
| WaitReceive (space_ref return_task endpoint ipc_endpoint : AssetRef) (caller : Z)
    (a : SyscallIpcReceive)
| WaitSignal (space_ref return_task endpoint signal_endpoint attached : AssetRef) (wait_id : Z)
    (a : SyscallIpcReceive).

(** A handler ends, or its task blocks. *)
Inductive progress (S : Type) :=
| Ended (r : result Z) (s : S)
| Blocks (w : wait).
Arguments Ended {S} r s.
Arguments Blocks {S} w.

(** [AssetRef<Space>(space, -1)], [AssetRef<AssetTask>(caller, -1)] *)
Definition stack_ref (p : Z) : K AssetRef := make_ref p (u64 (-1)).

(** The end of the handlers of this part: their locals go, the last one first. *)
Definition leave {S} (l : list AssetRef) (r : result Z) (s : S) : K (progress S) :=
  for_each drop l;; mret (Ended r s).

(** [ksyscall_send] and [ksyscall_ipc_call]. *)
Definition send_to {S} (caller space_handle connection_handle message : Z) (async is_call : bool) (a : S) :
    K (progress S) :=
  r ← target_space caller space_handle;
  match r with
  | Error e => mret (Ended (Error e) a)
  | Value space =>
      space_ref ← stack_ref space;
      return_task ← stack_ref caller;
      if space =? nullptr then leave [return_task; space_ref] (Error "no current space") a
      else
        r ← by_handle_as OBJECT_KIND_IPC_CONNECTION space connection_handle;
        match r with
        | Error e => leave [return_task; space_ref] (Error e) a
        | Value connection =>
            current ← caller_tables caller;
            if async then
              r ← ipc_send_async space_ref connection current message;
              leave [connection; return_task; space_ref]
                (match r with Error e => Error e | Value _ => Value 0 end) a
            else
              r ← ipc_send space_ref return_task connection current message is_call;
              match r with
              | Error e => leave [connection; return_task; space_ref] (Error e) a
              | Value target => mret (Blocks (WaitSend space_ref return_task connection target))
              end
        end
  end.

Definition ksyscall_send (caller : Z) (a : SyscallIpcSend) : K (progress SyscallIpcSend) :=
  send_to caller (is_space_handle a) (is_connection_handle a) (is_message a) (is_async a) false a.

Definition ksyscall_ipc_call (caller : Z) (a : SyscallIpcCall) : K (progress SyscallIpcCall) :=
  send_to caller (ia_space_handle a) (ia_connection_handle a) (ia_message a) false true a.

Definition set_ir_returned (a : SyscallIpcReceive) (h : Z) : SyscallIpcReceive :=
  mk_SyscallIpcReceive (ir_space_handle a) (ir_source a) (ir_async a) (ir_returned_message a) h.

(** The loop of [signal_await] and what the handlers do after it. *)
Definition signal_continue (space_ref return_task endpoint signal_endpoint attached : AssetRef)
    (wait_id : Z) (a : SyscallIpcReceive) : K (progress SyscallIpcReceive) :=
  b ← signal_await_poll signal_endpoint return_task wait_id;
  if (b : bool)
  then mret (Blocks (WaitSignal space_ref return_task endpoint signal_endpoint attached wait_id a))
  else
    r ← signal_await_finish space_ref attached;
    match r with
    | Value got =>
        drop got;;
        leave [signal_endpoint; endpoint; return_task; space_ref] (Value 0) a
    | Error _ => leave [signal_endpoint; endpoint; return_task; space_ref] (Value 0) a
    end.

(** [signal_await] as both handlers call it; [keep] says whether the handle of
    the object it returns is written to the arguments. *)
Definition await_signal (space_ref return_task endpoint : AssetRef) (async keep : bool)
    (a : SyscallIpcReceive) : K (progress SyscallIpcReceive) :=
  r ← casted OBJECT_KIND_SIGNAL_ENDPOINT endpoint;
  signal_endpoint ← copy_ref r;
  r ← signal_await signal_endpoint return_task async space_ref;
  match r with
  | Error _ => leave [signal_endpoint; endpoint; return_task; space_ref] (Value 0) a
  | Value (attached, wait_id) =>
      if async then
        drop attached;;
        leave [signal_endpoint; endpoint; return_task; space_ref] (Value 0)
          (if keep then set_ir_returned a (handle attached) else a)
      else signal_continue space_ref return_task endpoint signal_endpoint attached wait_id a
  end.

(** The caller drops [space]. *)
Definition ksyscall_receive_internal (caller : Z) (a : SyscallIpcReceive) (space : AssetRef) :
    K (progress SyscallIpcReceive) :=
  return_task ← stack_ref caller;
  endpoint ← signal_interrupt_query (ir_source a);
  if asset endpoint =? nullptr then leave [endpoint; return_task; space] (Error "no signal endpoint") a
  else await_signal space return_task endpoint (ir_async a) true a.

(** The loop of [ipc_receive] and what the handler does after it. *)
Definition receive_continue (space_ref return_task endpoint ipc_endpoint : AssetRef) (caller : Z)
    (a : SyscallIpcReceive) : K (progress SyscallIpcReceive) :=
  b ← ipc_receive_poll return_task ipc_endpoint;
  if (b : bool)
  then mret (Blocks (WaitReceive space_ref return_task endpoint ipc_endpoint caller a))
  else
    current ← caller_tables caller;
    r ← ipc_receive_finish space_ref return_task ipc_endpoint current (ir_returned_message a);
    leave [ipc_endpoint; endpoint; return_task; space_ref]
      (match r with Error e => Error e | Value _ => Value 0 end)
      (set_ir_returned a (match r with Error _ => invalid | Value h => h end)).

Definition receive_ipc (space_ref return_task endpoint : AssetRef) (caller : Z)
    (a : SyscallIpcReceive) : K (progress SyscallIpcReceive) :=
  r ← casted OBJECT_KIND_IPC_ENDPOINT endpoint;
  ipc_endpoint ← copy_ref r;
  if ir_async a then
    current ← caller_tables caller;
    r ← ipc_receive_async space_ref ipc_endpoint current (ir_returned_message a);
    leave [ipc_endpoint; endpoint; return_task; space_ref]
      (match r with Error e => Error e | Value _ => Value 0 end)
      (set_ir_returned a (match r with Error _ => invalid | Value h => h end))
  else
    ipc_receive return_task ipc_endpoint;;
    receive_continue space_ref return_task endpoint ipc_endpoint caller a.

(** The wait for a signal is synchronous when [async] is set. *)
Definition ksyscall_receive (caller : Z) (a : SyscallIpcReceive) : K (progress SyscallIpcReceive) :=
  r ← target_space caller
        (if ir_space_handle a =? SYSCALL_IPC_RECEIVE_INTERNAL_SPACE then 0 else ir_space_handle a);
  match r with
  | Error e => mret (Ended (Error e) a)
  | Value space =>
      if space =? nullptr then mret (Ended (Error "no current space") a)
      else
        space_ref ← stack_ref space;
        if ir_space_handle a =? SYSCALL_IPC_RECEIVE_INTERNAL_SPACE
        then ksyscall_receive_internal caller a space_ref
        else
          return_task ← stack_ref caller;
          r ← by_handle space (ir_source a);
          endpoint ← lift (unwrap r);
          k ← kind_of endpoint;
          match k with
          | OBJECT_KIND_SIGNAL_ENDPOINT =>
              await_signal space_ref return_task endpoint (negb (ir_async a)) false a
          | OBJECT_KIND_IPC_ENDPOINT => receive_ipc space_ref return_task endpoint caller a
          | _ => leave [endpoint; return_task; space_ref] (Error "invalid endpoint kind") a
          end
  end.

Definition ksyscall_ipc_reply (caller : Z) (a : SyscallIpcReply) : K (result Z * SyscallIpcReply) :=
  with_space caller (ip_space_handle a) a (fun space =>
  space_ref ← stack_ref space;
  r ← by_handle_as OBJECT_KIND_IPC_RETURN_TASK space (ip_return_task_handle a);
  match r with
  | Error e => drop space_ref;; fail e a
  | Value ret_task =>
      current ← caller_tables caller;
      r ← ipc_reply space_ref ret_task current (ip_message a);
      drop ret_task;; drop space_ref;;
      match r with Error e => fail e a | Value _ => done 0 a end
  end).

(** ** Information *)

Definition asset_info_of (d : asset_data) (old : asset_info) : asset_info :=
  match d with
  | AssetMemory size addr _ => info_memory size addr
  | AssetMapping start end_ _ w x => info_mapping start end_ w x
  | IpcEndpointConnection _ port => info_connection (u64 port)
  | AssetSpace s => info_space (UMap.count (assets s))
  | _ => old
  end.

Definition ksyscall_ipc_asset_info (caller : Z) (a : SyscallAssetInfo) :
    K (result Z * SyscallAssetInfo) :=
  with_space caller (ai_space_handle a) a (fun space =>
  stry (if negb (ai_use_index a) && (ai_asset a =? selfSpace)
        then sp ← caller_space caller; r ← make_ref sp 0; mret (Value r)
        else if ai_use_index a then by_index space (ai_asset a)
        else by_handle space (ai_asset a)) a (fun ref =>
  d ← get_content (asset ref);
  drop ref;;
  done 0
    (mk_SyscallAssetInfo (ai_space_handle a) (ai_use_index a) (ai_asset a) (AssetKind_value (kind d))
       (if ai_use_index a then handle ref else ai_returned_asset_handle a)
       (asset_info_of d (ai_returned_info a))))).

(** ** Virtual machines *)

Definition ksyscall_vm_create (caller : Z) (a : SyscallCreateVm) : K (result Z * SyscallCreateVm) :=
  with_space caller (cv_space_handle a) a (fun space =>
  stry (create_vm space) a (fun ref =>
  drop ref;; done 0 (mk_SyscallCreateVm (cv_space_handle a) (handle ref)))).

(** The kinds of the two objects are not looked at. *)
Definition ksyscall_vm_mapping_create (caller : Z) (a : SyscallCreateVmMapping) :
    K (result Z * SyscallCreateVmMapping) :=
  with_space caller (vm_space_handle a) a (fun space =>
  stry (by_handle space (vm_vm_handle a)) a (fun vm =>
  r ← by_handle space (vm_physical_mem_handle a);
  match r with
  | Error e => drop vm;; fail e a
  | Value physical_mem =>
      r ← create_vm_mapping space physical_mem;
      match r with
      | Error e => drop physical_mem;; drop vm;; fail e a
      | Value m =>
          drop m;; drop physical_mem;; drop vm;;
          done 0 (mk_SyscallCreateVmMapping (vm_space_handle a) (vm_vm_handle a) (vm_start a) (vm_end a)
                    (vm_physical_mem_handle a) (vm_flags a) (handle m))
      end
  end)).

(** kernel/x86_64/vm.cpp: the registers are not there yet. *)
Definition getRegister8 (byte_offset : Z) : Z := 0.

Definition ksyscall_vm_reg_read (caller : Z) (a : SyscallVmReg) : K (result Z * SyscallVmReg) :=
  with_space caller (vr_space_handle a) a (fun space =>
  stry (by_handle space (vr_vm_handle a)) a (fun vm =>
  drop vm;;
  done 0 (mk_SyscallVmReg (vr_space_handle a) (vr_vm_handle a) (vr_mode a) (vr_address a)
            (getRegister8 (vr_address a))))).

Definition ksyscall_vm_reg_write (caller : Z) (a : SyscallVmReg) : K (result Z * SyscallVmReg) :=
  with_space caller (vr_space_handle a) a (fun space =>
  stry (by_handle space (vr_vm_handle a)) a (fun vm => drop vm;; done 0 a)).

(** ** Ports *)

(** [port_in]: what the [in] instruction of a size reads from a port. The [out]
    instructions are returned: size, port and value. *)
Definition port_write : Type := Z * Z * Z.

Definition ksyscall_ipc_x86_port (port_in : Z -> Z -> Z) (caller : Z) (a : SyscallIpcX86Port) :
    K (result Z * (SyscallIpcX86Port * list port_write)) :=
  with_space caller (xp_space_handle a) (a, []) (fun _ =>
  if negb ((xp_size a =? 1) || (xp_size a =? 2) || (xp_size a =? 4)) then fail "invalid size" (a, [])
  else if negb (xp_read a =? 0) then
    done 0 (mk_SyscallIpcX86Port (xp_space_handle a) (xp_size a) (xp_port a) (xp_write a) (xp_read a)
              (xp_data a) (port_in (xp_size a) (xp_port a)), [])
  else done 0 (a, [(xp_size a, xp_port a, wrapu (8 * xp_size a) (xp_data a))])).

(** The rest of [ksyscall_send] and [ksyscall_ipc_call] once the task runs. *)
Definition send_continue {S} (space_ref return_task connection target : AssetRef) (a : S) :
    K (progress S) :=
  ipc_send_resume target;; leave [connection; return_task; space_ref] (Value 0) a.

(** * The dispatcher *)

(** What a call does besides changing the kernel: the result, the arguments
    written back and the instructions to the ports; or it waits. *)
Inductive outcome :=
| Returned (r : result Z) (written : option (sigT args_type)) (ports : list port_write)
| Waiting (w : wait).

Definition returned (t : args_kind) (p : result Z * args_type t) : outcome :=
  Returned (fst p) (Some (existT t (snd p))) [].

Definition progressed (t : args_kind) (p : progress (args_type t)) : outcome :=
  match p with Ended r a => Returned r (Some (existT t a)) [] | Blocks w => Waiting w end.

Section dispatch.
Context (setup : task_setup) (port_in : Z -> Z -> Z) (user : user_args).
Context (syscall : SyscallInterface) (caller : Z) (sch : Scheduler.scheduler).

Definition refused (e : string) : outcome * Scheduler.scheduler := (Returned (Error e) None [], sch).

(** [try$(syscall_check_ptr<T>(caller, syscall.arg1))], then the handler. *)
Definition checked (t : args_kind) (f : args_type t -> K (outcome * Scheduler.scheduler)) :
    K (outcome * Scheduler.scheduler) :=
  r ← syscall_check_ptr caller (arg1 syscall) (args_size t);
  match r with Error e => mret (refused e) | Value _ => f (user t) end.

Definition simple (t : args_kind) (h : Z -> args_type t -> K (result Z * args_type t)) :
    K (outcome * Scheduler.scheduler) :=
  checked t (fun a => p ← h caller a; mret (returned t p, sch)).

Definition blocking (t : args_kind) (h : Z -> args_type t -> K (progress (args_type t))) :
    K (outcome * Scheduler.scheduler) :=
  checked t (fun a => p ← h caller a; mret (progressed t p, sch)).

Definition syscall_handle : K (outcome * Scheduler.scheduler) :=
  let i := id syscall in
  if i =? SYSCALL_DEBUG_LOG_ID then get_task caller;; mret (Returned (Value 0) None [], sch)
  else if i =? SYSCALL_PHYSICAL_MEM_OWN_ID then simple ArgsMemOwn ksyscall_mem_own
  else if i =? SYSCALL_MAPPING_CREATE_ID then simple ArgsMap ksyscall_map
  else if i =? SYSCALL_TASK_CREATE_ID then simple ArgsTaskCreate (ksyscall_task_create setup)
  else if i =? SYSCALL_SPACE_CREATE_ID then simple ArgsSpaceCreate ksyscall_space_create
  else if i =? SYSCALL_ASSET_RELEASE_ID then simple ArgsAssetRelease ksyscall_asset_release
  else if i =? SYSCALL_TASK_LAUNCH_ID then
    checked ArgsTaskLaunch (fun a =>
    '(r, sch) ← ksyscall_task_launch caller a sch;
    mret (Returned r (Some (existT ArgsTaskLaunch a)) [], sch))
  else if i =? SYSCALL_ASSET_MOVE then simple ArgsAssetMove ksyscall_asset_move
  else if i =? SYSCALL_IPC_CREATE_ENDPOINT_ID then simple ArgsCreateEndpoint ksyscall_create_endpoint
  else if i =? SYSCALL_IPC_CONNECT_ID then simple ArgsConnect ksyscall_create_connection
  else if i =? SYSCALL_IPC_SEND_ID then blocking ArgsSend ksyscall_send
  else if i =? SYSCALL_IPC_RECEIVE_ID then blocking ArgsReceive ksyscall_receive
  else if i =? SYSCALL_IPC_CALL_ID then blocking ArgsCall ksyscall_ipc_call
  else if i =? SYSCALL_IPC_REPLY_ID then simple ArgsReply ksyscall_ipc_reply
  else if i =? SYSCALL_ASSET_INFO_ID then simple ArgsAssetInfo ksyscall_ipc_asset_info
  else if i =? SYSCALL_VM_CREATE then simple ArgsCreateVm ksyscall_vm_create
  else if i =? SYSCALL_VM_CREATE_MAPPING then simple ArgsCreateVmMapping ksyscall_vm_mapping_create
  else if i =? SYSCALL_VM_REG_READ then simple ArgsRegRead ksyscall_vm_reg_read
  else if i =? SYSCALL_VM_REG_WRITE then simple ArgsRegWrite ksyscall_vm_reg_write
  else if i =? SYSCALL_IPC_X86_PORT then
    checked ArgsX86Port (fun a =>
    '(r, (a, ports)) ← ksyscall_ipc_x86_port port_in caller a;
    mret (Returned r (Some (existT ArgsX86Port a)) ports, sch))
  else mret (refused "Unknown syscall ID").
End dispatch.

(** A task that waits in a call runs again. The arguments of a call that sent
    were not written to. *)
Definition syscall_resume (w : wait) : K outcome :=
  match w with
  | WaitSend space_ref return_task connection target =>
      p ← send_continue space_ref return_task connection target tt;
      mret (match p with Ended r _ => Returned r None [] | Blocks w => Waiting w end)
  | WaitReceive space_ref return_task endpoint ipc_endpoint caller a =>
      p ← receive_continue space_ref return_task endpoint ipc_endpoint caller a;
      mret (progressed ArgsReceive p)
  | WaitSignal space_ref return_task endpoint signal_endpoint attached wait_id a =>
      p ← signal_continue space_ref return_task endpoint signal_endpoint attached wait_id a;
      mret (progressed ArgsReceive p)
  end.
End syscalls.
Arguments Ended {S} r s.
Arguments Blocks {S} w.
