(* ===== verification/Sample.v ===== *)
(** A machine and a kernel to run the definitions on: identity page tables that
    never refuse a mapping, addresses handed out in ascending order, eight
    pages of memory and one message buffer. The witnesses of the theorems about
    the kernel core are at this machine. *)

From stdpp Require Import gmap.
From S2P Require Import Prelude.
From S2P Require Pmm Paging Range UMap.
From S2P Require Import IpcTypes KObject Space.

Definition sample_addr (s : gset Z) : Z := 1 + foldr Z.max 0 (elements s).

Lemma sample_addr_fresh s : sample_addr s ∉ s /\ sample_addr s <> nullptr.
Proof.
  unfold sample_addr, nullptr.
  assert (forall l x, x ∈ l -> x <= foldr Z.max 0 l) as Hmax.
  { intros l x. induction 1; simpl; lia. }
  assert (forall l, 0 <= foldr Z.max 0 l) as Hpos by (induction l; simpl; lia).
  split; [|pose proof (Hpos (elements s)); lia].
  intros Hin%elem_of_elements%Hmax. lia.
Qed.

Definition sample_machine (debug : bool) : Machine := {|
  new_addr := sample_addr;
  new_addr_fresh := sample_addr_fresh;
  PageTables := unit;
  vmm_create _ t p := Ret (Value 4096, t, p);
  vmm_create_pmm _ _ _ H := H;
  vmm_map _ _ _ _ t p := Ret (Value tt, t, p);
  vmm_map_pmm _ _ _ _ _ _ H := H;
  vmm_verify _ _ _ _ := Ret (Value tt);
  vmm_verify_ends _ _ _ _ := ltac:(done);
  get_phys _ a _ := Ret (Value a);
  get_phys_ends _ _ _ := ltac:(done);
  translate _ _ a := Some a;
  get_phys_translate _ _ _ _ H := ltac:(by injection H as ->);
  kernel_virtual_base := 2 ^ 47;
  stack_words := replicate buffer_words 0;
  stack_words_length := length_replicate buffer_words 0;
  task_memory := (false, 0);
  flags_memory := Paging.mk_PageFlags false false false false false false;
  ndebug := negb debug
|}.

Definition empty_message : IpcMessage := IpcMessage_init (replicate buffer_words 0).

Definition boot_kernel : @kernel (sample_machine false) :=
  @mk_kernel (sample_machine false) ∅ [] 1 [] 1 [] 1 UMap.empty UMap.empty 1 Pmm.small_pmm tt
    {[ 65536 := empty_message ]}.
