(* ===== verification/PagingMachine.v ===== *)
(** The page tables of Paging.v as the machine the kernel core runs on. *)

From stdpp Require Import gmap.
From S2P Require Import Prelude Range.
From S2P Require Pmm.
From S2P Require Import Paging PagingSpec.
From S2P Require Import IpcTypes KObject.
From S2P Require Import Sample.

(** * The allocator stays in order, whatever the tables are *)

Abbreviation keeps_pmm := (ends (fun '(_, m) => Pmm.pmm_wf (Paging.pmm m))).

Lemma ends_page m t i : ends (fun _ => True) (page m t i).
Proof. unfold page. destruct (tables m !! t); [|done]. simpl. by destruct (aget _ _). Qed.

Lemma ends_set_page m t i p :
  Pmm.pmm_wf (Paging.pmm m) -> ends (fun m' => Pmm.pmm_wf (Paging.pmm m')) (set_page t i p m).
Proof. intros Hw. unfold set_page. destruct (tables m !! t); [|done]. simpl. by destruct (aset _ _ _). Qed.

Lemma map_entry_keeps t i new m :
  Pmm.pmm_wf (Paging.pmm m) -> keeps_pmm (map_entry t i new m).
Proof.
  intros Hw. unfold map_entry. eapply ends_bind; [apply ends_page|]. intros entry _.
  destruct (negb (_present entry)).
  - destruct (Pmm.allocate_one (Paging.pmm m) false Hw) as (r & p & -> & Hp & _). cbn [mbind ctl_bind].
    destruct r as [a|e]; [|done]. eapply ends_bind; [by apply ends_set_page|]. by intros m' ?.
  - eapply ends_bind; [by apply ends_set_page|]. by intros m' ?.
Qed.

Lemma table_map_keeps level : forall t va new m,
  Pmm.pmm_wf (Paging.pmm m) -> keeps_pmm (table_map level t va new m).
Proof.
  induction level as [|[|l] IH]; intros t va new m Hw; [done| |].
  - rewrite table_map_1. eapply ends_bind; [by apply ends_set_page|]. by intros m' ?.
  - rewrite table_map_S. eapply ends_bind; [by apply map_entry_keeps|]. intros [[[]|e] m'] Hw'; [|done].
    eapply ends_bind; [apply ends_page|]. intros p _. by apply IH.
Qed.

Lemma map_loop_keeps n : forall self virt phys i flags m,
  Pmm.pmm_wf (Paging.pmm m) -> keeps_pmm (map_loop n self virt phys i flags m).
Proof.
  induction n as [|n IH]; intros self virt phys i flags m Hw; [done|]. cbn [map_loop].
  eapply ends_bind; [by apply table_map_keeps|]. intros [[[]|e] m'] Hw'; [by apply IH|done].
Qed.

Lemma map_keeps self virt phys flags m :
  Pmm.pmm_wf (Paging.pmm m) -> keeps_pmm (Paging.map self virt phys flags m).
Proof. intros Hw. unfold Paging.map. repeat case_match; [done..|]. by apply map_loop_keeps. Qed.

Lemma create_keeps kr b m :
  Pmm.pmm_wf (Paging.pmm m) -> keeps_pmm (create kr b m).
Proof.
  intros Hw. unfold create.
  destruct (Pmm.allocate_one (Paging.pmm m) true Hw) as (r & p & -> & Hp & _). cbn [mbind ctl_bind].
  destruct r as [a|e]; [|done]. destruct b; [done|]. by destruct (tables _ !! kr).
Qed.

(** * Reading the tables ends *)

Lemma walk_ends {A} (f : nat -> Z -> ctl (result A)) (found : Page -> A) m va :
  (forall t, f O t = Trap) ->
  (forall l t, f (S l) t =
     (p ← page m t (index (S l) va);
      match page_error p with
      | Some e => Ret (Error e)
      | None => match l with O => Ret (Value (found p)) | _ => f l (address p) end
      end)) -> forall l t, f l t <> NoFuel.
Proof.
  intros H0 HS l. induction l as [|l IH]; intros t; [by rewrite H0|]. rewrite HS.
  unfold page. destruct (tables m !! t) as [es|]; [|done]. simpl.
  destruct (aget es _) as [p|]; [|done]. simpl. destruct (page_error p); [done|].
  destruct l; [done|apply IH].
Qed.

Lemma verify_loop_ends n : forall m t i, verify_loop n 4 t i m <> NoFuel.
Proof.
  induction n as [|n IH]; intros m t i; [done|]. cbn [verify_loop].
  pose proof (walk_ends (fun l t => _verify l t i m) (fun _ => tt) m i ltac:(done) ltac:(done) 4 t) as H.
  cbn beta in H.
  destruct (_verify 4 t i m) as [[[]|e]| |]; simpl; [apply IH|done..].
Qed.

(** What [physical_addr] finds, the processor finds. *)
Lemma physical_addr_mapping l : forall t va m x,
  physical_addr l t va m = Ret (Value x) ->
  exists p, mapping l t va m = Some p /\ x = u64 (address p + va mod 4096).
Proof.
  induction l as [|l IH]; intros t va m x; [done|]. cbn [physical_addr]. rewrite page_entry.
  destruct (entry m t (index (S l) va)) as [p|] eqn:Ep; [|done]. cbn [Prelude.deref mbind ctl_bind].
  unfold page_error. destruct (_present p) eqn:Hpr; [|done]. cbn [negb].
  destruct (_user p); [|done]. destruct (_writeable p); [|done]. cbn [negb].
  destruct l as [|l].
  - intros [= <-]. exists p. rewrite mapping_1, Ep. simpl. by rewrite Hpr.
  - intros H. rewrite mapping_S, Ep. cbn [mbind option_bind]. rewrite Hpr. by apply IH.
Qed.

(** * The machine

    The boot loader gives the address the kernel is linked at. *)

Record x86_tables := mk_x86_tables { x86_pages : gmap Z (list Page); x86_kernel : Z }.

Definition with_mem {A} (f : mem -> ctl (A * mem)) (t : x86_tables) (p : Pmm.Pmm) :
    ctl (A * x86_tables * Pmm.Pmm) :=
  '(a, m) ← f (mk_mem (x86_pages t) p);
  Ret (a, mk_x86_tables (tables m) (x86_kernel t), Paging.pmm m).

(** The [Pmm] is not looked at. *)
Definition seen (t : x86_tables) : mem :=
  mk_mem (x86_pages t) (Pmm.mk_Pmm (mk_Range 0 0) [] 0 (Pmm.mk_MachineContext [])).

Lemma with_mem_keeps {A} (f : mem -> ctl (A * mem)) t p :
  keeps_pmm (f (mk_mem (x86_pages t) p)) ->
  ends (fun '(_, _, p') => Pmm.pmm_wf p') (with_mem f t p).
Proof. intros H. eapply ends_bind; [exact H|]. by intros [a m] ?. Qed.

(** The physical address the processor finds. *)
Definition x86_translate (v : Z) (t : x86_tables) (a : Z) : option Z :=
  p ← leaf (seen t) v a; Some (u64 (address p + a mod 4096)).

Lemma x86_get_phys_translate v t a x :
  Paging.get_phys v a (seen t) = Ret (Value x) -> x86_translate v t a = Some x.
Proof.
  intros (p & Hp & ->)%physical_addr_mapping. unfold x86_translate, leaf. by rewrite Hp.
Qed.

Section machine.
Context (debug : bool) (words : list Z) (words_length : length words = buffer_words)
  (tasks : bool * Z) (flags : PageFlags) (base : Z).

#[local] Obligation Tactic := idtac.

Program Definition x86_machine : Machine := {|
  new_addr := sample_addr;
  new_addr_fresh := sample_addr_fresh;
  PageTables := x86_tables;
  vmm_create b t p := with_mem (create (x86_kernel t) b) t p;
  vmm_map v r q f t p := with_mem (Paging.map v r q f) t p;
  vmm_verify v a n t := verify v a n (seen t);
  get_phys v a t := Paging.get_phys v a (seen t);
  translate := x86_translate;
  get_phys_translate := x86_get_phys_translate;
  kernel_virtual_base := base;
  stack_words := words;
  stack_words_length := words_length;
  task_memory := tasks;
  flags_memory := flags;
  ndebug := negb debug
|}.
Next Obligation. intros b t p Hp. apply with_mem_keeps. by apply create_keeps. Qed.
Next Obligation. intros v r q f t p Hp. apply with_mem_keeps. by apply map_keeps. Qed.
Next Obligation. intros v a n t. apply verify_loop_ends. Qed.
Next Obligation.
  intros v a t.
  by apply (walk_ends (fun l t' => physical_addr l t' a (seen t)) (fun p => u64 (address p + a mod 4096)) (seen t) a).
Qed.
End machine.
