(* ===== verification/KObjectSpec.v ===== *)
(** Reference counting is sound: in every state reached, the count of an object
    is at least the number of references to it, so that no reference dangles.

    [kinv B held k] is the invariant. [held] lists the objects a function being
    executed holds counted references to, besides those stored in the state;
    [B] is a number of counted references and handles that can still be made
    before a 64-bit counter wraps, which each operation takes a part of. *)

From stdpp Require Import gmap.
From S2P Require Import Prelude UMap.
From S2P Require Pmm Range Ring.
From S2P Require Import IpcTypes KObject.

(** * Counting *)

Fixpoint zcount (p : Z) (l : list Z) : Z :=
  match l with
  | [] => 0
  | q :: l => (if decide (q = p) then 1 else 0) + zcount p l
  end.

Lemma zcount_app p l1 l2 : zcount p (l1 ++ l2) = zcount p l1 + zcount p l2.
Proof. induction l1; simpl; lia. Qed.

Lemma zcount_nonneg p l : 0 <= zcount p l.
Proof. induction l; simpl; [lia|case_decide; lia]. Qed.

Lemma zcount_perm p l1 l2 : l1 ≡ₚ l2 -> zcount p l1 = zcount p l2.
Proof. induction 1; simpl; lia. Qed.

(** Equality of counts. *)
Ltac zcount_solve :=
  intros; rewrite ?zcount_app; simpl; rewrite ?zcount_app; simpl;
  repeat case_decide; subst; try done; lia.

Section defs.
Context `{M : Machine}.

Definition content_refs (a : Asset) : list Z := asset <$> fields (content a).

(** The sum of a measure over the objects. *)
Definition hsum (f : Asset -> Z) (h : gmap Z Asset) : Z := map_fold (fun _ a n => f a + n) 0 h.

Definition heap_refs (h : gmap Z Asset) (p : Z) : Z := hsum (fun a => zcount p (content_refs a)) h.

(** Objects whose count is not zero. *)
Definition npos (h : gmap Z Asset) : Z := hsum (fun a => if ref_count a =? 0 then 0 else 1) h.

Definition table_refs (m : UMap Z AssetRef) : list Z := asset <$> (snd <$> concat (_buckets m)).

(** References held by the global tables. *)
Definition global_refs (k : kernel) : list Z :=
  (asset <$> (snd <$> registered_servers k)) ++ table_refs (_internal_signal_map k) ++ task_list k.

Definition refs (k : kernel) (p : Z) : Z := heap_refs (heap k) p + zcount p (global_refs k).

(** * Well-formed objects *)

(** The table of a space: its entries carry their own handle, which is one that
    has been given out. *)
Definition space_rep (s : Space) (T : gmap Z AssetRef) : Prop :=
  umap_rep (assets s) T /\
  (forall h r, T !! h = Some r -> 0 <= h <= alloc_uid s /\ handle r = h).

Definition ring_wf {A} (r : Ring.Ring.Ring A) : Prop := exists q, Ring.Ring.ring_ok r q.

Definition async_wf (r : Ring.Ring.Ring IpcAsyncMsgEntry) : Prop :=
  exists q, Ring.Ring.ring_ok r q /\ Forall (fun x => msg_wf (target_msg x)) q.

Definition data_wf (B : Z) (d : asset_data) : Prop :=
  match d with
  | AssetSpace s => (exists T, space_rep s T) /\ 0 <= alloc_uid s /\ alloc_uid s + B < 2 ^ 64
  | AssetIpcEndpoint e => async_wf (async_queue e) /\ ring_wf (sync_queue e)
  | _ => True
  end.

Record kinv (B : Z) (held : list Z) (k : kernel) : Prop := mk_kinv {
  kinv_null : heap k !! nullptr = None;
  kinv_obj : forall p a, heap k !! p = Some a ->
    0 <= ref_count a /\ ref_count a + B < 2 ^ 64 /\ data_wf B (content a);
  kinv_refs : forall p, p <> nullptr -> 0 < refs k p + zcount p held ->
    exists a, heap k !! p = Some a /\ refs k p + zcount p held <= ref_count a;
  kinv_signals : exists T, umap_rep (_internal_signal_map k) T;
  kinv_ids : 0 <= _space_id k /\ 16 + 10000 * (_space_id k + B) < 2 ^ 64;
  kinv_pmm : Pmm.pmm_wf (pmm k);
  kinv_messages : map_Forall (fun _ m => msg_wf m) (messages k)
}.

(** * Weakest preconditions of kernel code (it may trap, not run out of fuel) *)

Definition wp {A} (m : K A) (k : kernel) (Q : A -> kernel -> Prop) : Prop :=
  ends (fun '(a, k') => Q a k') (m k).

Lemma wp_ret {A} (a : A) k (Q : A -> kernel -> Prop) : Q a k -> wp (mret a) k Q.
Proof. done. Qed.

Lemma K_bind_eq {A B} (m : K A) (f : A -> K B) k :
  (m ≫= f) k = match m k with Ret (a, k') => f a k' | Trap => Trap | NoFuel => NoFuel end.
Proof. done. Qed.

Lemma wp_bind {A B} (m : K A) (f : A -> K B) k Q :
  wp m k (fun a k' => wp (f a) k' Q) -> wp (m ≫= f) k Q.
Proof.
  unfold wp. rewrite K_bind_eq. destruct (m k) as [[a k']| |]; simpl; auto.
Qed.

Lemma wp_impl {A} (m : K A) k (P Q : A -> kernel -> Prop) :
  wp m k P -> (forall a k', P a k' -> Q a k') -> wp m k Q.
Proof. intros H HPQ. eapply ends_impl; [exact H|]. intros [a k']. apply HPQ. Qed.

Lemma wp_trap {A} k (Q : A -> kernel -> Prop) : wp trap k Q.
Proof. done. Qed.

Lemma wp_gets {A} (f : kernel -> A) k (Q : A -> kernel -> Prop) : Q (f k) k -> wp (gets f) k Q.
Proof. done. Qed.

Lemma wp_modify f k (Q : unit -> kernel -> Prop) : Q tt (f k) -> wp (modify f) k Q.
Proof. done. Qed.

Lemma wp_lift {A} (c : ctl A) k (Q : A -> kernel -> Prop) :
  ends (fun a => Q a k) c -> wp (lift c) k Q.
Proof. by destruct c. Qed.

Lemma wp_get_asset p k (Q : Asset -> kernel -> Prop) :
  (forall a, heap k !! p = Some a -> Q a k) -> wp (get_asset p) k Q.
Proof.
  intros H. apply wp_bind, wp_gets. simpl. destruct (heap k !! p) eqn:E; [|done].
  simpl. by apply H.
Qed.

Lemma wp_set_asset p a k (Q : unit -> kernel -> Prop) :
  Q tt (with_heap <[p := a]> k) -> wp (set_asset p a) k Q.
Proof. done. Qed.

(** * Sums over the heap *)

Lemma hsum_insert_fresh f h p a : h !! p = None -> hsum f (<[p := a]> h) = f a + hsum f h.
Proof. intros Hp. unfold hsum. rewrite map_fold_insert_L; [done| |done]. intros. lia. Qed.

Lemma hsum_delete f h p a : h !! p = Some a -> hsum f (delete p h) = hsum f h - f a.
Proof.
  intros Hp. rewrite <- (insert_delete_id h p a Hp) at 2.
  rewrite hsum_insert_fresh by apply lookup_delete_eq. lia.
Qed.

Lemma hsum_insert f h p a a' :
  h !! p = Some a -> hsum f (<[p := a']> h) = hsum f h - f a + f a'.
Proof.
  intros Hp. rewrite <- insert_delete_eq.
  rewrite hsum_insert_fresh by apply lookup_delete_eq. rewrite (hsum_delete f h p a Hp). lia.
Qed.

Lemma hsum_bounds f h : (forall a, 0 <= f a <= 1) -> 0 <= hsum f h <= Z.of_nat (size h).
Proof.
  intros Hf. induction h as [|p a h Hp IH] using map_ind.
  - unfold hsum. rewrite map_fold_empty. rewrite map_size_empty. lia.
  - rewrite hsum_insert_fresh, map_size_insert_None by done. specialize (Hf a). lia.
Qed.

Lemma heap_refs_nonneg h q : 0 <= heap_refs h q.
Proof.
  unfold heap_refs. induction h as [|p a h Hp IH] using map_ind.
  - unfold hsum. rewrite map_fold_empty. lia.
  - rewrite hsum_insert_fresh by done. pose proof (zcount_nonneg q (content_refs a)). lia.
Qed.

Lemma npos_bounds h : 0 <= npos h <= Z.of_nat (size h).
Proof. apply hsum_bounds. intros a. destruct (ref_count a =? 0); lia. Qed.

Lemma refs_nonneg k q : 0 <= refs k q.
Proof.
  unfold refs. pose proof (heap_refs_nonneg (heap k) q).
  pose proof (zcount_nonneg q (global_refs k)). lia.
Qed.

(** * Steps that keep the invariant *)

Lemma kinv_ext B held held' k :
  (forall p, p <> nullptr -> zcount p held' <= zcount p held) -> kinv B held k -> kinv B held' k.
Proof.
  intros Hle [H1 H2 H3 H4 H5 H6 H7]. split; try done. intros p Hp Hn.
  specialize (Hle p Hp). destruct (H3 p Hp) as (a & ? & ?); [lia|]. exists a. split; [done|lia].
Qed.

Lemma kinv_budget B B' held k : 0 <= B' <= B -> kinv B held k -> kinv B' held k.
Proof.
  intros HB [H1 H2 H3 H4 H5 H6 H7]. split; try done; [|lia]. intros p a Hp.
  destruct (H2 p a Hp) as (? & ? & Hd). split_and!; [done|lia|].
  destruct (content a); simpl in *; try done. destruct Hd as (? & ? & ?). split_and!; (done || lia).
Qed.

Lemma refs_insert k p a a' q :
  heap k !! p = Some a ->
  refs (with_heap <[p := a']> k) q =
    refs k q - zcount q (content_refs a) + zcount q (content_refs a').
Proof.
  intros Hp. unfold refs, global_refs, heap_refs. simpl. rewrite (hsum_insert _ _ _ a) by done. lia.
Qed.

Lemma kinv_live B held k p :
  kinv B held k -> p <> nullptr -> 0 < zcount p held -> exists a, heap k !! p = Some a.
Proof.
  intros [_ _ H3 _ _ _ _] Hp Hh. pose proof (refs_nonneg k p).
  destruct (H3 p Hp) as (a & ? & _); [lia|]. by exists a.
Qed.

(** An object is replaced: the references it gains come from [held], those it
    loses may go there, and its count changes by at least as much as what is
    held of it. *)
Lemma kinv_update B B' held held' k p a a' :
  kinv B held k -> heap k !! p = Some a ->
  0 <= B' <= B -> 0 <= ref_count a' -> ref_count a' + B' < 2 ^ 64 -> data_wf B' (content a') ->
  (forall q, q <> nullptr ->
     zcount q (content_refs a') + zcount q held' <=
     zcount q (content_refs a) + zcount q held
       + if decide (q = p) then ref_count a' - ref_count a else 0) ->
  kinv B' held' (with_heap <[p := a']> k).
Proof.
  intros Hk Hp HB Hr0 Hr1 Hwf Hcount. pose proof (kinv_budget B B' held k HB Hk) as [H1 H2 H3 H4 H5 H6 H7].
  split; simpl; try done.
  - rewrite lookup_insert_ne; [done|]. intros ->. congruence.
  - intros q b Hq. destruct (decide (q = p)) as [->|].
    + rewrite lookup_insert_eq in Hq. by injection Hq as <-.
    + rewrite lookup_insert_ne in Hq by done. by apply (H2 q).
  - intros q Hq. rewrite (refs_insert k p a) by done. specialize (Hcount q Hq). intros Hn.
    destruct (decide (q = p)) as [->|].
    + rewrite lookup_insert_eq. exists a'. split; [done|].
      destruct (decide (0 < refs k p + zcount p held)) as [Hpos|].
      * destruct (H3 p Hq Hpos) as (b & Hb & ?). rewrite Hp in Hb. injection Hb as <-. lia.
      * destruct (H2 p a Hp). lia.
    + rewrite lookup_insert_ne by done. destruct (H3 q Hq) as (b & ? & ?); [lia|].
      exists b. split; [done|lia].
Qed.

(** The fields that are not counted references change, the lock among them. *)
Lemma kinv_touch B held k p a a' :
  kinv B held k -> heap k !! p = Some a -> 0 <= B -> ref_count a' = ref_count a ->
  data_wf B (content a') -> content_refs a' = content_refs a ->
  kinv B held (with_heap <[p := a']> k).
Proof.
  intros Hk Hp HB Hr Hwf Hc. pose proof (kinv_obj _ _ _ Hk p a Hp) as (? & ? & _).
  apply (kinv_update B B held held k p a a'); try done; try lia.
  intros q _. rewrite Hc, Hr. case_decide; lia.
Qed.

(** The objects and their contents stay as they are. *)
Definition has_content (k : kernel) (p : Z) (d : asset_data) : Prop :=
  exists a, heap k !! p = Some a /\ content a = d.

Record same_contents (k k' : kernel) : Prop := mk_same_contents {
  sc_contents : forall q d, has_content k' q d <-> has_content k q d;
  sc_globals : k' = with_heap (fun _ => heap k') k
}.

Lemma same_contents_refl k : same_contents k k.
Proof. split; [done|]. by destruct k. Qed.

Lemma same_contents_trans k1 k2 k3 :
  same_contents k1 k2 -> same_contents k2 k3 -> same_contents k1 k3.
Proof.
  intros [A1 A2] [B1 B2]. split; [intros q d; by rewrite B1, A1|]. rewrite B2, A2. by destruct k1.
Qed.

Lemma same_contents_insert k p a a' :
  heap k !! p = Some a -> content a' = content a -> same_contents k (with_heap <[p := a']> k).
Proof.
  intros Ha Hc. split; [|by destruct k]. intros q d. unfold has_content. simpl.
  destruct (decide (q = p)) as [->|].
  - rewrite lookup_insert_eq. split; intros (b & Hb & E).
    + exists a. injection Hb as <-. by rewrite <- Hc.
    + exists a'. split; [done|]. congruence.
  - by rewrite lookup_insert_ne.
Qed.

Definition locked (k : kernel) (p : Z) : Prop :=
  exists a, heap k !! p = Some a /\ lock a = true.

Lemma wp_lock_asset B held p k (Q : unit -> kernel -> Prop) :
  0 <= B -> kinv B held k ->
  (forall k', kinv B held k' -> same_contents k k' -> ~ locked k p -> locked k' p -> Q tt k') ->
  wp (lock_asset p) k Q.
Proof.
  intros HB Hk HQ. apply wp_bind, wp_get_asset. intros a Ha. destruct (lock a) eqn:E; [done|].
  apply wp_set_asset, HQ; [|by eapply same_contents_insert| |].
  - apply (kinv_touch _ _ _ _ a); try done. by apply (kinv_obj _ _ _ Hk p a Ha).
  - intros (a' & ? & ?). congruence.
  - eexists. simpl. by rewrite lookup_insert_eq.
Qed.

Lemma wp_unlock_asset B held p k (Q : unit -> kernel -> Prop) :
  0 <= B -> kinv B held k ->
  (forall k', kinv B held k' -> same_contents k k' -> Q tt k') -> wp (unlock_asset p) k Q.
Proof.
  intros HB Hk HQ. apply wp_bind, wp_get_asset. intros a Ha. destruct (lock a); [|done].
  apply wp_set_asset, HQ; [|by eapply same_contents_insert].
  apply (kinv_touch _ _ _ _ a); try done. by apply (kinv_obj _ _ _ Hk p a Ha).
Qed.

Lemma wp_lock_ref B held r k (Q : unit -> kernel -> Prop) :
  0 <= B -> kinv B held k ->
  (forall k', kinv B held k' -> same_contents k k' -> Q tt k') -> wp (lock_ref r) k Q.
Proof.
  intros HB Hk HQ. unfold lock_ref. destruct (asset r =? nullptr).
  - apply wp_ret, HQ; [done|apply same_contents_refl].
  - eapply wp_lock_asset; [done..|]. intros. by apply HQ.
Qed.

Lemma wp_unlock_ref B held r k (Q : unit -> kernel -> Prop) :
  0 <= B -> kinv B held k ->
  (forall k', kinv B held k' -> same_contents k k' -> Q tt k') -> wp (unlock_ref r) k Q.
Proof.
  intros HB Hk HQ. unfold unlock_ref. destruct (asset r =? nullptr).
  - apply wp_ret, HQ; [done|apply same_contents_refl].
  - by eapply wp_unlock_asset.
Qed.

(** [own] takes a part of the budget. *)
Lemma wp_own B held p k (Q : unit -> kernel -> Prop) :
  1 <= B -> kinv B held k ->
  (forall k', kinv (B - 1) (p :: held) k' -> same_contents k k' -> Q tt k') -> wp (own p) k Q.
Proof.
  intros HB Hk HQ. unfold own. destruct (Z.eqb_spec p nullptr) as [->|Hp].
  - apply wp_ret, HQ; [|apply same_contents_refl].
    apply (kinv_budget B); [lia|]. eapply kinv_ext; [|exact Hk].
    intros q Hq. simpl. rewrite decide_False by done. lia.
  - apply wp_bind, wp_get_asset. intros a Ha.
    apply wp_set_asset, HQ; [|by eapply same_contents_insert].
    pose proof (kinv_obj _ _ _ Hk p a Ha) as (? & ? & Hd).
    apply (kinv_update B (B - 1) held _ k p a); simpl; try done; try lia.
    + rewrite wrapu_small by lia. lia.
    + rewrite wrapu_small by lia. lia.
    + destruct (content a); simpl in *; try done. destruct Hd as (? & ? & ?). split_and!; (done || lia).
    + intros q _. rewrite wrapu_small by lia. unfold content_refs. simpl.
      repeat case_decide; subst; try done; lia.
Qed.

Lemma wp_copy_ref B held r k (Q : AssetRef -> kernel -> Prop) :
  1 <= B -> kinv B held k ->
  (forall k', kinv (B - 1) (asset r :: held) k' -> same_contents k k' -> Q r k') -> wp (copy_ref r) k Q.
Proof. intros HB Hk HQ. apply wp_bind. eapply wp_own; [done..|]. intros. by apply wp_ret, HQ. Qed.

Lemma wp_make_ref B held p h k (Q : AssetRef -> kernel -> Prop) :
  1 <= B -> kinv B held k ->
  (forall k', kinv (B - 1) (p :: held) k' -> same_contents k k' ->
     Q (mk_AssetRef p h true true true) k') -> wp (make_ref p h) k Q.
Proof. intros HB Hk HQ. apply wp_bind. eapply wp_own; [done..|]. intros. by apply wp_ret, HQ. Qed.

Lemma wp_get_content p k (Q : asset_data -> kernel -> Prop) :
  (forall d, has_content k p d -> Q d k) -> wp (get_content p) k Q.
Proof. intros HQ. apply wp_bind, wp_get_asset. intros a Ha. apply wp_ret, HQ. by exists a. Qed.

(** The content of an object changes: the references it gains come from
    [held], those it loses go there. *)
Lemma wp_set_content B B' held held' p d d' k (Q : unit -> kernel -> Prop) :
  0 <= B' <= B -> kinv B held k -> has_content k p d -> data_wf B' d' ->
  (forall q, q <> nullptr ->
     zcount q (asset <$> fields d') + zcount q held' <= zcount q (asset <$> fields d) + zcount q held) ->
  (forall k', kinv B' held' k' -> has_content k' p d' ->
     (forall q e, q <> p -> has_content k' q e <-> has_content k q e) -> Q tt k') ->
  wp (set_content p d') k Q.
Proof.
  intros HB Hk (a & Ha & <-) Hwf Hc HQ. apply wp_bind, wp_get_asset. intros a2 Ha2.
  assert (a2 = a) as -> by congruence. apply wp_set_asset, HQ.
  - pose proof (kinv_obj _ _ _ Hk p a Ha) as (? & ? & _).
    apply (kinv_update B B' held held' k p a); simpl; try done; try lia.
    intros q Hq. specialize (Hc q Hq). unfold content_refs. simpl. case_decide; lia.
  - eexists. simpl. by rewrite lookup_insert_eq.
  - intros q e Hq. unfold has_content. simpl. by rewrite lookup_insert_ne.
Qed.

(** A new object takes the references its fields hold. *)
Lemma wp_new_asset B held d k (Q : Z -> kernel -> Prop) :
  0 <= B -> kinv B ((asset <$> fields d) ++ held) k -> data_wf B d -> B < 2 ^ 64 ->
  (forall p k', p <> nullptr -> heap k !! p = None -> k' = with_heap <[p := Asset_init d]> k ->
     kinv B held k' -> Q p k') ->
  wp (new_asset d) k Q.
Proof.
  intros HB Hk Hd HB2 HQ. unfold new_asset. apply wp_bind, wp_gets.
  destruct (new_addr_fresh (dom (heap k))) as [Hf Hnn].
  set (p := new_addr _) in *. clearbody p. apply not_elem_of_dom in Hf.
  apply wp_bind, wp_set_asset, wp_ret, HQ; try done. destruct Hk as [H1 H2 H3 H4 H5 H6 H7].
  assert (forall q, refs (with_heap <[p := Asset_init d]> k) q =
            refs k q + zcount q (asset <$> fields d)) as Hrefs.
  { intros q. unfold refs, global_refs, heap_refs. simpl. rewrite hsum_insert_fresh by done.
    unfold content_refs. simpl. lia. }
  split; simpl; try done.
  - by rewrite lookup_insert_ne.
  - intros q b Hq. destruct (decide (q = p)) as [->|].
    + rewrite lookup_insert_eq in Hq. injection Hq as <-. simpl. split_and!; [lia|lia|done].
    + rewrite lookup_insert_ne in Hq by done. by apply (H2 q).
  - intros q Hq. rewrite Hrefs. specialize (H3 q Hq). rewrite zcount_app in H3.
    intros Hn. destruct H3 as (b & Hb & ?); [lia|]. exists b.
    rewrite lookup_insert_ne by congruence. split; [done|lia].
Qed.

(** * Dropping a reference *)

(** [l]: the references held before. Counts go down, objects disappear; an
    object nothing refers to is not reached, and neither are the tables of the
    kernel. *)
Record shrinks (l : list Z) (k k' : kernel) : Prop := mk_shrinks {
  sh_refs : forall q, q <> nullptr -> refs k' q <= refs k q;
  sh_npos : npos (heap k') <= npos (heap k);
  sh_untouched : forall q a, q <> nullptr -> refs k q + zcount q l = 0 ->
    heap k !! q = Some a -> heap k' !! q = Some a;
  sh_survivors : forall q a', heap k' !! q = Some a' ->
    exists a, heap k !! q = Some a /\ content a' = content a /\ lock a' = lock a;
  sh_globals : k' = with_pmm (pmm k') (with_heap (fun _ => heap k') k)
}.

Lemma shrinks_refl l k : shrinks l k k.
Proof. split; try done; eauto. by destruct k. Qed.

Lemma shrinks_trans l l' k1 k2 k3 :
  (forall q, q <> nullptr -> zcount q l' <= zcount q l) ->
  shrinks l k1 k2 -> shrinks l' k2 k3 -> shrinks l k1 k3.
Proof.
  intros Hl [A1 A2 A3 A4 A5] [B1 B2 B3 B4 B5]. split.
  - intros q Hq. specialize (A1 q Hq). specialize (B1 q Hq). lia.
  - lia.
  - intros q a Hq Hr Ha. apply B3; [done| |by apply A3].
    specialize (A1 q Hq). specialize (Hl q Hq). pose proof (refs_nonneg k2 q).
    pose proof (zcount_nonneg q l'). pose proof (refs_nonneg k1 q). lia.
  - intros q a' Ha'. destruct (B4 q a' Ha') as (a & Ha & -> & ->). by apply A4.
  - rewrite B5, A5. by destruct k1.
Qed.

Lemma refs_delete k p a q :
  heap k !! p = Some a ->
  refs (with_heap (delete p) k) q = refs k q - zcount q (content_refs a).
Proof.
  intros Hp. unfold refs, global_refs, heap_refs. simpl. rewrite (hsum_delete _ _ _ a) by done. lia.
Qed.

(** An object nothing refers to and that refers to nothing is deleted. *)
Lemma kinv_delete B held k p a :
  kinv B held k -> heap k !! p = Some a ->
  (forall q, q <> nullptr -> zcount q (content_refs a) = 0) ->
  refs k p + zcount p held = 0 -> kinv B held (with_heap (delete p) k).
Proof.
  intros [H1 H2 H3 H4 H5 H6 H7] Hp Hc Hz. split; simpl; try done.
  - by rewrite lookup_delete_None; right.
  - intros q b Hq. apply lookup_delete_Some in Hq as [_ Hq]. by apply (H2 q).
  - intros q Hq. rewrite (refs_delete k p a), (Hc q Hq) by done. rewrite Z.sub_0_r. intros Hn.
    rewrite lookup_delete_ne by (intros ->; lia). by apply (H3 q).
Qed.

Lemma strip_fields d : Forall (fun r => asset r = nullptr) (fields (strip d)).
Proof. destruct d; simpl; repeat constructor. Qed.

Lemma zcount_null q l :
  q <> nullptr -> Forall (fun r => asset r = nullptr) l -> zcount q (asset <$> l) = 0.
Proof.
  intros Hq. induction 1 as [|r l Hr _ IH]; [done|]. rewrite fmap_cons. simpl.
  rewrite Hr, IH, decide_False by done. done.
Qed.

Lemma strip_wf B d : data_wf B d -> data_wf B (strip d).
Proof.
  destruct d; simpl; try done.
  - intros (_ & ? & ?). split; [|done]. exists ∅. split.
    + split; [by rewrite map_size_empty|by left].
    + intros h r Hr. by rewrite lookup_empty in Hr.
  - intros [? ?]. split; [done|]. exists []. split; [apply Ring.Ring.rrep_empty|by left].
Qed.

Lemma wp_release_pages B held d k (Q : unit -> kernel -> Prop) :
  kinv B held k ->
  (forall p, Pmm.pmm_wf p -> kinv B held (with_pmm p k) -> Q tt (with_pmm p k)) ->
  wp (release_pages d) k Q.
Proof.
  intros Hk HQ.
  assert (forall p, Pmm.pmm_wf p -> kinv B held (with_pmm p k)) as Hset.
  { intros p Hp. destruct Hk. by split. }
  assert (Q tt k) as Hsame.
  { replace k with (with_pmm (pmm k) k) by by destruct k. apply HQ; [apply Hk|by destruct k]. }
  destruct d as [size addr [|]| | | | | | | | | |]; try done. simpl.
  apply wp_bind, wp_gets, wp_bind, wp_lift.
  eapply ends_impl; [apply Pmm.release_keeps, Hk|]. intros [_ p] Hp.
  apply wp_modify, HQ; auto.
Qed.

(** The state a destruction starts its cascade from. *)
Lemma destroy_start B held p k a :
  kinv B (p :: held) k -> heap k !! p = Some a -> ref_count a = 1 -> p <> nullptr -> 0 <= B ->
  kinv B (content_refs a ++ held)
    (with_heap <[p := mk_Asset true 0 (strip (content a))]> k).
Proof.
  intros Hk Ha Hr Hp HB. pose proof (kinv_obj _ _ _ Hk p a Ha) as (? & ? & Hwf).
  apply (kinv_update B B (p :: held) _ k p a); simpl; try done; try lia.
  - by apply strip_wf.
  - intros q Hq. rewrite zcount_app. unfold content_refs at 1. simpl.
    rewrite zcount_null by (done || apply strip_fields). rewrite Hr.
    repeat case_decide; subst; try done; lia.
Qed.

Lemma shrinks_start B held p k a pm :
  kinv B (p :: held) k -> heap k !! p = Some a -> ref_count a = 1 -> p <> nullptr ->
  let k1 := with_heap <[p := mk_Asset true 0 (strip (content a))]> (with_pmm pm k) in
  (forall q, q <> nullptr -> refs k1 q = refs k q - zcount q (content_refs a)) /\
  npos (heap k1) = npos (heap k) - 1.
Proof.
  intros Hk Ha Hr Hp. split.
  - intros q Hq. unfold refs, heap_refs, global_refs. simpl.
    rewrite (hsum_insert _ _ _ a) by done. unfold content_refs at 3. simpl.
    rewrite zcount_null by (done || apply strip_fields). lia.
  - unfold npos. simpl. rewrite (hsum_insert _ _ _ a) by done. simpl. rewrite Hr. simpl. lia.
Qed.

Lemma content_refs_strip q b r d :
  q <> nullptr -> zcount q (content_refs (mk_Asset b r (strip d))) = 0.
Proof. intros. apply zcount_null; [done|apply strip_fields]. Qed.

(** The deletion at the end of a destruction. *)
Lemma destroy_end B held p k k2 a pm :
  let k1 := with_heap <[p := mk_Asset true 0 (strip (content a))]> (with_pmm pm k) in
  kinv B (p :: held) k -> heap k !! p = Some a -> ref_count a = 1 -> p <> nullptr ->
  refs k p + zcount p held = 0 -> zcount p (content_refs a) = 0 ->
  kinv B held k2 -> shrinks (content_refs a ++ held) k1 k2 ->
  heap k2 !! p = Some (mk_Asset true 0 (strip (content a))) ->
  kinv B held (with_heap (delete p) k2) /\ shrinks (p :: held) k (with_heap (delete p) k2).
Proof.
  intros k1 Hk Ha Hr Hp Hz Hself Hk2 Hs2 Hp2.
  destruct (shrinks_start B held p k a pm Hk Ha Hr Hp) as [Hrefs Hnp]. fold k1 in Hrefs, Hnp.
  destruct Hs2 as [S1 S2 S3 S4 S5]. split.
  - eapply kinv_delete; [done..| |].
    + intros q Hq. by apply content_refs_strip.
    + specialize (S1 p Hp). rewrite (Hrefs p Hp) in S1. pose proof (refs_nonneg k2 p).
      pose proof (zcount_nonneg p held). pose proof (refs_nonneg k p). lia.
  - split.
    + intros q Hq. rewrite (refs_delete k2 p _ q Hp2), content_refs_strip by done.
      specialize (S1 q Hq). rewrite (Hrefs q Hq) in S1. pose proof (zcount_nonneg q (content_refs a)). lia.
    + unfold npos. simpl. rewrite (hsum_delete _ _ _ _ Hp2). simpl. unfold npos in *. lia.
    + intros q b Hq Hzq Hb. simpl in Hzq.
      assert (q <> p) as Hne by (intros ->; rewrite decide_True in Hzq by done;
        pose proof (refs_nonneg k p); pose proof (zcount_nonneg p held); lia).
      rewrite decide_False in Hzq by done. simpl. rewrite lookup_delete_ne by done.
      apply S3; [done| |by unfold k1; simpl; rewrite lookup_insert_ne].
      rewrite zcount_app, (Hrefs q Hq). pose proof (refs_nonneg k1 q). rewrite (Hrefs q Hq) in H.
      pose proof (zcount_nonneg q (content_refs a)). pose proof (refs_nonneg k q).
      pose proof (zcount_nonneg q held). lia.
    + intros q b Hb. simpl in Hb. apply lookup_delete_Some in Hb as [Hne Hb].
      destruct (S4 q b Hb) as (c & Hc & ? & ?). unfold k1 in Hc. simpl in Hc.
      rewrite lookup_insert_ne in Hc by done. by exists c.
    + rewrite S5. by destruct k.
Qed.

(** ** The cascade *)

Section cascade.
Context (n : nat) (B : Z).
Hypothesis HB : 0 <= B.
Hypothesis IH : forall held p k,
  kinv B (p :: held) k -> npos (heap k) < Z.of_nat n ->
  wp (deref_n n p) k (fun _ k' => kinv B held k' /\ shrinks (p :: held) k k').

Lemma for_each_deref (l : list AssetRef) : forall held k,
  kinv B ((asset <$> l) ++ held) k -> npos (heap k) < Z.of_nat n ->
  wp (for_each (fun r => deref_n n (asset r)) l) k
    (fun _ k' => kinv B held k' /\ shrinks ((asset <$> l) ++ held) k k').
Proof.
  induction l as [|r l IHl]; intros held k Hk Hn; cbn [for_each].
  - apply wp_ret. split; [done|apply shrinks_refl].
  - apply wp_bind. eapply wp_impl; [by apply (IH ((asset <$> l) ++ held))|].
    intros [] k1 [Hk1 Hs1].
    eapply wp_impl; [apply IHl; [done|]|].
    + destruct Hs1. lia.
    + intros [] k2 [Hk2 Hs2]. split; [done|]. eapply shrinks_trans; [|done..].
      intros q _. rewrite fmap_cons. simpl. case_decide; lia.
Qed.

(** The destruction of an object whose count has just gone to zero. *)
Lemma last_reference held p k a :
  kinv B (p :: held) k -> heap k !! p = Some a -> ref_count a = 1 -> p <> nullptr ->
  refs k p + zcount p held = 0 -> npos (heap k) <= Z.of_nat n ->
  wp (lock_asset p;;
      release_pages (content a);;
      set_content p (strip (content a));;
      for_each (fun r => deref_n n (asset r)) (fields (content a));;
      modify (with_heap (delete p)))
    (with_heap <[p := mk_Asset (lock a) 0 (content a)]> k)
    (fun _ k' => kinv B held k' /\ shrinks (p :: held) k k').
Proof.
  intros Hk Ha Hr Hp Hz Hn. pose proof (kinv_obj _ _ _ Hk p a Ha) as (_ & ? & Hwf).
  apply wp_bind. unfold lock_asset. apply wp_bind, wp_get_asset. simpl. intros a1.
  rewrite lookup_insert_eq. intros [= <-]. cbn [lock ref_count content].
  destruct (lock a); [done|]. apply wp_set_asset, wp_bind.
  assert (kinv B held (with_heap <[p := mk_Asset true 0 (content a)]> k)) as Hk0.
  { apply (kinv_update B B (p :: held) held k p a); simpl; try done; try lia.
    intros q Hq. rewrite Hr. unfold content_refs. simpl. repeat case_decide; subst; try done; lia. }
  assert (with_heap <[p := mk_Asset true 0 (content a)]>
            (with_heap <[p := mk_Asset false 0 (content a)]> k) =
          with_heap <[p := mk_Asset true 0 (content a)]> k) as ->.
  { unfold with_heap. simpl. f_equal. by rewrite insert_insert_eq. }
  eapply wp_release_pages; [exact Hk0|]. intros pm Hpm _.
  apply wp_bind, wp_bind, wp_get_asset. simpl. intros a1. rewrite lookup_insert_eq. intros [= <-].
  apply wp_set_asset. cbn [lock ref_count].
  set (k1 := with_heap <[p := mk_Asset true 0 (strip (content a))]> (with_pmm pm k)).
  match goal with |- wp _ ?x _ => assert (x = k1) as -> end.
  { unfold k1, with_heap, with_pmm. simpl. f_equal. by rewrite insert_insert_eq. }
  destruct (shrinks_start B held p k a pm Hk Ha Hr Hp) as [Hrefs Hnp]. fold k1 in Hrefs, Hnp.
  assert (kinv B (content_refs a ++ held) k1) as Hk1.
  { destruct (destroy_start B held p k a Hk Ha Hr Hp HB). by split. }
  apply wp_bind. eapply wp_impl; [apply (for_each_deref (fields (content a)) held); [exact Hk1|lia]|].
  intros [] k2 [Hk2 Hs2]. apply wp_modify.
  assert (zcount p (content_refs a) = 0) as Hself.
  { pose proof (Hrefs p Hp). pose proof (refs_nonneg k1 p). pose proof (refs_nonneg k p).
    pose proof (zcount_nonneg p held). pose proof (zcount_nonneg p (content_refs a)). lia. }
  assert (heap k2 !! p = Some (mk_Asset true 0 (strip (content a)))) as Hp2.
  { apply (sh_untouched _ _ _ Hs2 p); [done| |by unfold k1; simpl; rewrite lookup_insert_eq].
    rewrite zcount_app. rewrite (Hrefs p Hp). fold (content_refs a). lia. }
  by apply (destroy_end B held p k k2 a pm).
Qed.
End cascade.

Lemma wp_deref_n n B : 0 <= B -> forall held p k,
  kinv B (p :: held) k -> npos (heap k) < Z.of_nat n ->
  wp (deref_n n p) k (fun _ k' => kinv B held k' /\ shrinks (p :: held) k k').
Proof.
  intros HB. induction n as [|n IH]; intros held p k Hk Hn.
  { pose proof (npos_bounds (heap k)). lia. }
  cbn [deref_n]. destruct (Z.eqb_spec p nullptr) as [->|Hp].
  { apply wp_ret. split; [|apply shrinks_refl]. eapply kinv_ext; [|exact Hk].
    intros q Hq. simpl. case_decide; lia. }
  apply wp_bind, wp_get_asset. intros a Ha.
  pose proof (kinv_obj _ _ _ Hk p a Ha) as (Hr0 & Hr1 & Hwf).
  pose proof (refs_nonneg k p). pose proof (zcount_nonneg p held).
  destruct (kinv_refs _ _ _ Hk p Hp) as (a0 & Ha0 & Hcnt); [simpl; rewrite decide_True by done; lia|].
  assert (a0 = a) as -> by congruence. clear Ha0. simpl in Hcnt. rewrite decide_True in Hcnt by done.
  rewrite wrapu_small by lia. apply wp_bind, wp_set_asset.
  destruct (Z.eqb_spec (ref_count a) 0); [lia|].
  destruct (Z.eqb_spec (ref_count a) 1) as [E|E].
  2:{ apply wp_ret. split.
      - apply (kinv_update B B (p :: held) held k p a); simpl; try done; try lia.
        intros q Hq. repeat case_decide; subst; try done; unfold content_refs; simpl; lia.
      - split; simpl; try done.
        + intros q Hq. rewrite (refs_insert k p a) by done. unfold content_refs. simpl. lia.
        + unfold npos. rewrite (hsum_insert _ _ _ a) by done. simpl.
          rewrite !(proj2 (Z.eqb_neq _ _)) by lia. lia.
        + intros q b Hq Hz Hb. rewrite lookup_insert_ne; [done|]. intros ->.
          rewrite decide_True in Hz by done. lia.
        + intros q b Hb. destruct (decide (q = p)) as [->|].
          * rewrite lookup_insert_eq in Hb. injection Hb as <-. by exists a.
          * rewrite lookup_insert_ne in Hb by done. by exists b. }
  (* the last reference *)
  replace (ref_count a - 1) with 0 by lia.
  apply (last_reference n B HB IH held p k a); (done || lia).
Qed.

Lemma wp_deref B held p k (Q : unit -> kernel -> Prop) :
  0 <= B -> kinv B (p :: held) k ->
  (forall k', kinv B held k' -> shrinks (p :: held) k k' -> Q tt k') -> wp (deref p) k Q.
Proof.
  intros HB Hk HQ. unfold deref. apply wp_bind, wp_gets.
  eapply wp_impl; [apply (wp_deref_n _ B HB held p k Hk)|].
  - pose proof (npos_bounds (heap k)). lia.
  - intros [] k' [? ?]. by apply HQ.
Qed.
End defs.
