(* ===== verification/SpaceSpec.v ===== *)
(** The operations of a space keep the invariant of reference counting, whatever
    their arguments ([wp_...] lemmas, also used for IPC and signals), and do what
    they promise to its table of handles. *)

From stdpp Require Import gmap.
From S2P Require Import Prelude UMap.
From S2P Require Pmm Range Ring.
From S2P Require Import IpcTypes KObject IpcRegistry Space KObjectSpec.

(** Counts of appended or rearranged lists of held references. *)
Ltac held_solve :=
  intros; rewrite ?fmap_cons, ?fmap_app, ?zcount_app; simpl; rewrite ?zcount_app; simpl;
  repeat case_decide; subst; try done; try lia.

(** One step of kernel code under the invariant: bindings and returns, locks
    and counted references; the invariant of the new state is introduced. *)
Ltac rem x l :=
  match l with
  | x :: ?t => t
  | ?y :: ?t => let t' := rem x t in constr:(y :: t')
  end.

Ltac kfin :=
  lazymatch goal with
  | |- kinv _ _ _ => eapply kinv_budget; [|eapply kinv_ext; [|eassumption]]; [lia|held_solve]
  end.

Ltac kdrop r :=
  match goal with
  | H : kinv ?B ?l ?k |- wp _ ?k _ =>
      let a := eval cbn [asset set_handle] in (asset r) in
      let t := rem a l in
      let H' := fresh "H" in
      assert (kinv B (a :: t) k) as H' by kfin;
      eapply wp_deref; [|exact H'|]; [lia|clear H H'; intros]
  end.

Ltac kstep :=
  cbn beta iota;
  lazymatch goal with
  | |- wp (_ ≫= _) _ _ => apply wp_bind
  | |- wp (mret _) _ _ => apply wp_ret
  | |- wp trap _ _ => apply wp_trap
  | |- wp (gets _) _ _ => apply wp_gets
  | |- wp (ktry _ _) _ _ => apply wp_bind
  | |- wp (lock_asset _) _ _ => eapply wp_lock_asset; [|eassumption|]; [lia|intros]
  | |- wp (unlock_asset _) _ _ => eapply wp_unlock_asset; [|eassumption|]; [lia|intros]
  | |- wp (lock_ref _) _ _ => eapply wp_lock_ref; [|eassumption|]; [lia|intros]
  | |- wp (unlock_ref _) _ _ => eapply wp_unlock_ref; [|eassumption|]; [lia|intros]
  | |- wp (own _) _ _ => eapply wp_own; [|eassumption|]; [lia|intros]
  | |- wp (copy_ref _) _ _ => eapply wp_copy_ref; [|eassumption|]; [lia|intros]
  | |- wp (make_ref _ _) _ _ => eapply wp_make_ref; [|eassumption|]; [lia|intros]
  | |- wp (get_content _) _ _ => apply wp_get_content; intros
  | |- wp (drop ?r) _ _ => kdrop r
  | |- wp (if decide _ then _ else _) _ _ => case_decide
  | |- wp (if ?b then _ else _) _ _ => destruct b eqn:?
  | |- wp (match ?r with _ => _ end) _ _ => destruct r eqn:?
  end.
Ltac ksteps := repeat kstep.

Section invariant.
Context `{M : Machine}.

(** ** Tables *)

Lemma table_perm s T q :
  space_rep s T ->
  zcount q (asset <$> fields (AssetSpace s)) = zcount q (asset <$> (snd <$> map_to_list T)).
Proof.
  intros [Hr _]. apply zcount_perm. simpl. by rewrite (umap_rep_perm _ _ Hr).
Qed.

Lemma table_insert s T (h : Z) r :
  space_rep s T -> T !! h = None -> 0 <= h <= alloc_uid s -> handle r = h ->
  exists m, UMap.insert ndebug h r (assets s) = Ret m /\
    space_rep (set_assets s m) (<[h := r]> T) /\
    forall q, zcount q (asset <$> fields (AssetSpace (set_assets s m))) =
      (if decide (asset r = q) then 1 else 0) + zcount q (asset <$> fields (AssetSpace s)).
Proof.
  intros Hs Hh Hle Hr. pose proof Hs as [Hrep Hk].
  destruct (umap_insert_rep ndebug h r _ _ Hrep (or_intror Hh)) as (m & -> & Hm).
  assert (space_rep (set_assets s m) (<[h := r]> T)) as Hs'.
  { split; [done|]. intros h' r'. destruct (decide (h' = h)) as [->|].
    - rewrite lookup_insert_eq. by intros [= <-].
    - rewrite lookup_insert_ne by done. apply Hk. }
  exists m. split; [done|]. split; [done|]. intros q.
  rewrite (table_perm _ _ q Hs), (table_perm _ _ q Hs').
  rewrite (zcount_perm q _ (asset <$> (snd <$> (h, r) :: map_to_list T))).
  - done.
  - by rewrite map_to_list_insert.
Qed.

Lemma table_moveOut s T h r :
  space_rep s T -> T !! h = Some r ->
  exists m, UMap.moveOut h (assets s) = Ret (r, m) /\
    space_rep (set_assets s m) (delete h T) /\
    forall q, zcount q (asset <$> fields (AssetSpace s)) =
      (if decide (asset r = q) then 1 else 0) +
      zcount q (asset <$> fields (AssetSpace (set_assets s m))).
Proof.
  intros Hs Hh. pose proof Hs as [Hrep Hk].
  destruct (moveOut_rep h _ _ r Hrep Hh) as (m & -> & _ & Hm).
  assert (space_rep (set_assets s m) (delete h T)) as Hs'.
  { split; [done|]. intros h' r' [_ Hr']%lookup_delete_Some. by apply Hk. }
  exists m. split; [done|]. split; [done|]. intros q.
  rewrite (table_perm _ _ q Hs), (table_perm _ _ q Hs').
  rewrite (zcount_perm q (asset <$> (snd <$> map_to_list T))
             (asset <$> (snd <$> (h, r) :: map_to_list (delete h T)))).
  - done.
  - by rewrite map_to_list_delete.
Qed.

Lemma kinv_space B held k p s :
  kinv B held k -> has_content k p (AssetSpace s) ->
  (exists T, space_rep s T) /\ 0 <= alloc_uid s /\ alloc_uid s + B < 2 ^ 64.
Proof.
  intros Hk (a & Ha & Hc). pose proof (kinv_obj _ _ _ Hk p a Ha) as (_ & _ & Hd).
  by rewrite Hc in Hd.
Qed.

Lemma wp_get_space p k (Q : Space -> kernel -> Prop) :
  (forall s, has_content k p (AssetSpace s) -> Q s k) -> wp (get_space p) k Q.
Proof. intros HQ. apply wp_bind, wp_get_content. intros [] Hd; try done. by apply wp_ret, HQ. Qed.

(** At most the content of [p] changes. *)
Definition only_at (p : Z) (k k' : kernel) : Prop :=
  forall q e, q <> p -> has_content k' q e <-> has_content k q e.

Lemma only_at_trans p k1 k2 k3 : only_at p k1 k2 -> only_at p k2 k3 -> only_at p k1 k3.
Proof. intros A B q e Hq. by rewrite (B q e Hq), (A q e Hq). Qed.

Lemma same_only p k k' : same_contents k k' -> only_at p k k'.
Proof. intros Hs q e _. apply (sc_contents _ _ Hs). Qed.

Lemma only_at_refl p k : only_at p k k.
Proof. done. Qed.

(** A fresh handle of [this]. *)
Definition fresh_handle (k : kernel) (this h : Z) : Prop :=
  exists s T, has_content k this (AssetSpace s) /\ space_rep s T /\ T !! h = None /\
    0 <= h <= alloc_uid s.

Lemma fresh_same k k' this h : same_contents k k' -> fresh_handle k this h -> fresh_handle k' this h.
Proof. intros Hs (s & T & ? & ?). exists s, T. by rewrite (sc_contents _ _ Hs). Qed.

End invariant.

(** Follows the states from one to the other. *)
Ltac kchain :=
  repeat lazymatch goal with
  | |- same_contents ?k ?k => apply same_contents_refl
  | |- only_at _ ?k ?k => apply only_at_refl
  | |- same_contents ?k _ =>
      match goal with H : same_contents k ?k1 |- _ =>
        apply (same_contents_trans _ _ _ H); clear H end
  | |- only_at ?p ?k _ =>
      match goal with
      | H : same_contents k ?k1 |- _ => apply (only_at_trans _ _ _ _ (same_only p _ _ H)); clear H
      | H : only_at p k ?k1 |- _ => apply (only_at_trans _ _ _ _ H); clear H
      end
  | |- fresh_handle ?k _ _ =>
      first [eassumption | match goal with H : same_contents ?k1 k |- _ =>
        apply (fresh_same _ _ _ _ H); clear H end]
  end.

Section operations.
Context `{M : Machine}.

Lemma wp_next_handle B held this k (Q : Z -> kernel -> Prop) :
  1 <= B -> kinv B held k ->
  (forall h k', kinv (B - 1) held k' -> fresh_handle k' this h ->
     only_at this k k' -> Q h k') ->
  wp (next_handle this) k Q.
Proof.
  intros HB Hk HQ. apply wp_bind, wp_get_space. intros s Hs.
  destruct (kinv_space _ _ _ _ _ Hk Hs) as ((T & HT) & Hu0 & Hu1).
  rewrite wrapu_small by lia.
  assert (space_rep (set_alloc_uid s (alloc_uid s + 1)) T) as HT'.
  { destruct HT as [Hr Hb]. split; [done|]. intros h r Hh. simpl. destruct (Hb h r Hh). lia. }
  apply wp_bind. eapply (wp_set_content B (B - 1) held held); [lia|done..| | |].
  - simpl. split; [eauto|lia].
  - intros q _. simpl. lia.
  - intros k' Hk' Hc Hq. apply wp_ret, HQ; [done| |done].
    exists (set_alloc_uid s (alloc_uid s + 1)), T. split; [done|]. split; [done|]. simpl.
    split; [|lia]. destruct (T !! (alloc_uid s + 1)) eqn:E; [|done].
    apply HT in E. lia.
Qed.

Lemma wp_assets_insert B held this h r k (Q : unit -> kernel -> Prop) :
  0 <= B -> kinv B (asset r :: held) k -> fresh_handle k this h -> handle r = h ->
  (forall k', kinv B held k' ->
     only_at this k k' -> Q tt k') ->
  wp (assets_insert this h r) k Q.
Proof.
  intros HB Hk (s0 & T & Hs0 & HT & Hfresh & Hh) Hr HQ. apply wp_bind, wp_get_space. intros s Hs.
  assert (s = s0) as ->.
  { destruct Hs as (a & Ha & Hc), Hs0 as (a' & Ha' & Hc'). congruence. }
  destruct (table_insert s0 T h r HT Hfresh Hh Hr) as (m & -> & HT' & Hcnt).
  apply wp_bind, wp_lift. simpl. destruct (kinv_space _ _ _ _ _ Hk Hs) as (_ & Hu0 & Hu1).
  eapply (wp_set_content B B (asset r :: held) held); [lia|done..| | |].
  - simpl. split; [eauto|]. simpl. lia.
  - intros q _. rewrite Hcnt. simpl. lia.
  - intros k' Hk' _ Hq. by apply HQ.
Qed.

Lemma wp_assets_has B held this h k (Q : bool -> kernel -> Prop) :
  kinv B held k ->
  (forall s T, has_content k this (AssetSpace s) -> space_rep s T ->
     Q (bool_decide (is_Some (T !! h))) k) ->
  wp (assets_has this h) k Q.
Proof.
  intros Hk HQ. apply wp_bind, wp_get_space. intros s Hs.
  destruct (kinv_space _ _ _ _ _ Hk Hs) as ((T & HT) & _).
  apply wp_lift. rewrite (has_rep h _ T) by apply HT. by apply (HQ s T).
Qed.

Lemma wp_assets_moveOut B held this h k (Q : AssetRef -> kernel -> Prop) :
  0 <= B -> kinv B held k ->
  (forall r k', kinv B (asset r :: held) k' ->
     only_at this k k' -> Q r k') ->
  wp (assets_moveOut this h) k Q.
Proof.
  intros HB Hk HQ. apply wp_bind, wp_get_space. intros s Hs.
  destruct (kinv_space _ _ _ _ _ Hk Hs) as ((T & HT) & Hu0 & Hu1).
  apply wp_bind, wp_lift. destruct (T !! h) as [r|] eqn:E.
  - destruct (table_moveOut s T h r HT E) as (m & -> & HT' & Hcnt). simpl.
    apply wp_bind. eapply (wp_set_content B B held (asset r :: held)); [lia|done..| | |].
    + simpl. split; [eauto|]. simpl. lia.
    + intros q _. rewrite Hcnt. simpl. lia.
    + intros k' Hk' _ Hq. by apply wp_ret, HQ.
  - by rewrite (proj1 (moveOut_rep_None h _ T (proj1 HT) E)).
Qed.

(** ** Lookup *)

Lemma wp_at B held (h : Z) (m : UMap Z AssetRef) T k (Q : AssetRef -> kernel -> Prop) :
  kinv B held k -> umap_rep m T -> (forall r, T !! h = Some r -> Q r k) ->
  wp (lift (UMap.at_ h m)) k Q.
Proof.
  intros _ Hm HQ. apply wp_lift. rewrite (at_rep h m T Hm).
  destruct (T !! h); simpl; [by apply HQ|done].
Qed.

Definition res_refs (r : result AssetRef) : list Z :=
  match r with Value x => [asset x] | Error _ => [] end.

Lemma wp_by_handle B held this h k (Q : result AssetRef -> kernel -> Prop) :
  1 <= B -> kinv B held k ->
  (forall r k', kinv (B - 1) (res_refs r ++ held) k' -> same_contents k k' -> Q r k') ->
  wp (by_handle this h) k Q.
Proof.
  intros HB Hk HQ. unfold by_handle. ksteps.
  eapply wp_assets_has; [eassumption|]. intros s T Hs HT. ksteps.
  - apply wp_get_space. intros s2 Hs2. ksteps.
    assert (s2 = s) as -> by (destruct Hs as (a & ? & ?), Hs2 as (a2 & ? & ?); congruence).
    eapply (wp_at _ _ _ _ T); [eassumption|apply HT|]. intros r Hr. ksteps. apply HQ; [kfin|].
    kchain.
  - apply HQ; [kfin|]. kchain.
Qed.

Lemma wp_kind_of r k (Q : AssetKind -> kernel -> Prop) :
  (forall d, has_content k (asset r) d -> Q (kind d) k) -> wp (kind_of r) k Q.
Proof. intros HQ. apply wp_bind, wp_get_content. intros d Hd. by apply wp_ret, HQ. Qed.

Lemma wp_casted t r k (Q : AssetRef -> kernel -> Prop) : Q r k -> wp (casted t r) k Q.
Proof. intros HQ. apply wp_bind, wp_kind_of. intros d Hd. case_decide; [by apply wp_ret|done]. Qed.

Lemma wp_by_handle_as B held t this h k (Q : result AssetRef -> kernel -> Prop) :
  1 <= B -> kinv B held k ->
  (forall r k', kinv (B - 1) (res_refs r ++ held) k' -> Q r k') ->
  wp (by_handle_as t this h) k Q.
Proof.
  intros HB Hk HQ. apply wp_bind. eapply wp_by_handle; [done..|]. intros [r|e] k1 Hk1 _.
  2:{ apply wp_ret, HQ. kfin. }
  simpl in Hk1. ksteps. apply wp_kind_of. intros d Hd. ksteps.
  - apply wp_casted. ksteps. apply HQ. kfin.
  - apply HQ. kfin.
Qed.

Lemma wp_elements B held (m : UMap Z AssetRef) k (Q : list (Z * AssetRef) -> kernel -> Prop) :
  kinv B held k -> Q (concat (_buckets m)) k -> wp (lift (UMap.elements m)) k Q.
Proof. intros _ HQ. apply wp_lift. by rewrite elements_concat. Qed.

Lemma wp_by_index B held this i k (Q : result AssetRef -> kernel -> Prop) :
  1 <= B -> kinv B held k ->
  (forall r k', kinv (B - 1) (res_refs r ++ held) k' -> Q r k') ->
  wp (by_index this i) k Q.
Proof.
  intros HB Hk HQ. unfold by_index. ksteps. apply wp_get_space. intros s Hs. ksteps.
  eapply wp_elements; [eassumption|]. destruct (aget _ i) as [[h r]|]; ksteps; apply HQ; kfin.
Qed.

Lemma wp_by_fn_loop t fn es k (Q : option AssetRef -> kernel -> Prop) :
  (forall o, Q o k) -> wp (by_fn_loop t fn es) k Q.
Proof.
  intros HQ. induction es as [|[h r] es IH]; cbn [by_fn_loop]; [by apply wp_ret|].
  apply wp_bind, wp_get_content. intros d _. case_decide; [|done].
  destruct (fn d); [by apply wp_ret|done].
Qed.

Lemma wp_by_fn B held t this fn k (Q : result AssetRef -> kernel -> Prop) :
  1 <= B -> kinv B held k ->
  (forall r k', kinv (B - 1) (res_refs r ++ held) k' -> Q r k') ->
  wp (by_fn t this fn) k Q.
Proof.
  intros HB Hk HQ. unfold by_fn. ksteps. apply wp_get_space. intros s Hs. ksteps.
  eapply wp_elements; [eassumption|]. apply wp_bind, wp_by_fn_loop.
  intros [r|]; ksteps; apply HQ; kfin.
Qed.

(** ** Insertion and removal *)

(** [add_asset]: the reference it returns is to [res]. *)
Lemma wp_add_asset B held this res k (Q : result AssetRef -> kernel -> Prop) :
  3 <= B -> kinv B held k ->
  (forall ref k', asset ref = res -> res <> this -> kinv (B - 3) (res :: held) k' ->
     only_at this k k' -> Q (Value ref) k') ->
  wp (add_asset this res) k Q.
Proof.
  intros HB Hk HQ. unfold add_asset. ksteps.
  eapply wp_next_handle; [|eassumption|]; [lia|]. intros h k3 Hk3 Hf Ho. ksteps.
  eapply (wp_assets_insert _ (res :: held)); [|eassumption|..]; [lia| |done|].
  { kchain. }
  intros k6 Hk6 Ho6. ksteps. apply HQ; [done| |kfin|kchain].
  intros ->. contradiction.
Qed.

Lemma wp_for_each_own (l : list AssetRef) : forall B held k (Q : unit -> kernel -> Prop),
  zlen l <= B -> kinv B held k ->
  (forall k', kinv (B - zlen l) ((asset <$> l) ++ held) k' -> same_contents k k' -> Q tt k') ->
  wp (for_each (fun r => own (asset r)) l) k Q.
Proof.
  induction l as [|r l IH]; intros B held k Q HB Hk HQ; cbn [for_each].
  - apply wp_ret, HQ; [|apply same_contents_refl]. kfin.
  - simpl length in HB. ksteps. eapply IH; [|eassumption|]; [lia|]. intros k2 Hk2 Hs2.
    apply HQ; [|kchain]. simpl length.
    eapply kinv_budget; [|eapply kinv_ext; [|exact Hk2]]; [lia|held_solve].
Qed.

Lemma wp_allocate_asset B held this d k (Q : result AssetRef -> kernel -> Prop) :
  zlen (fields d) + 3 <= B -> B < 2 ^ 64 -> kinv B held k -> data_wf B d ->
  (forall ref k', asset ref <> nullptr -> has_content k' (asset ref) d ->
     heap k !! asset ref = None -> asset ref <> this ->
     kinv (B - 3 - zlen (fields d)) (asset ref :: held) k' -> Q (Value ref) k') ->
  wp (allocate_asset this d) k Q.
Proof.
  intros HB HB2 Hk Hd HQ. apply wp_bind. eapply wp_for_each_own; [|eassumption|]; [lia|].
  intros k1 Hk1 Hs1. apply wp_bind.
  eapply (wp_new_asset _ held); [|exact Hk1|..]; [lia| |lia|].
  { destruct d; simpl in *; try done. destruct Hd as (? & ? & ?). split_and!; (done || lia). }
  intros p k2 Hp Hn -> Hk2. eapply wp_add_asset; [|exact Hk2|]; [lia|].
  intros ref k3 Hr Hne Hk3 Ho3. subst p. apply HQ; [done| | |done|by kfin].
  - apply (Ho3 (asset ref) d Hne). eexists. simpl. by rewrite lookup_insert_eq.
  - destruct (heap k !! asset ref) as [a|] eqn:E; [|done].
    assert (has_content k1 (asset ref) (content a)) as (? & ? & _); [|congruence].
    rewrite (sc_contents _ _ Hs1). by exists a.
Qed.

Lemma wp_asset_remove B held this h k (Q : AssetRef -> kernel -> Prop) :
  0 <= B -> kinv B held k ->
  (forall v k', kinv B (asset v :: held) k' -> only_at this k k' -> Q v k') ->
  wp (_asset_remove this h) k Q.
Proof.
  intros HB Hk HQ. unfold _asset_remove. ksteps.
  eapply wp_assets_has; [eassumption|]. intros s T Hs HT. ksteps.
  eapply wp_assets_moveOut; [|eassumption|]; [lia|]. intros v k2 Hk2 Ho. ksteps.
  apply HQ; [kfin|kchain].
Qed.

Lemma wp_release B held p k (Q : unit -> kernel -> Prop) :
  0 <= B -> kinv B held k ->
  (forall k', kinv B held k' -> same_contents k k' -> Q tt k') -> wp (release p) k Q.
Proof.
  intros HB Hk HQ. unfold release. destruct (p =? nullptr).
  - apply wp_ret, HQ; [done|apply same_contents_refl].
  - ksteps. apply HQ; [kfin|kchain].
Qed.

Lemma wp_asset_release B held this r k (Q : unit -> kernel -> Prop) :
  0 <= B -> kinv B held k -> (forall k', kinv B held k' -> Q tt k') ->
  wp (asset_release this r) k Q.
Proof.
  intros HB Hk HQ. unfold asset_release. destruct (asset r =? nullptr); [by apply wp_ret, HQ|].
  ksteps. eapply wp_release; [|eassumption|]; [lia|]. intros k1 Hk1 _. ksteps.
  eapply wp_asset_remove; [|eassumption|]; [lia|]. intros v k2 Hk2 _. kdrop v. apply HQ. kfin.
Qed.

Lemma wp_asset_release_by_handle B held this h k (Q : unit -> kernel -> Prop) :
  0 <= B -> kinv B held k -> (forall k', kinv B held k' -> Q tt k') ->
  wp (asset_release_by_handle this h) k Q.
Proof.
  intros HB Hk HQ. unfold asset_release_by_handle. ksteps.
  eapply wp_asset_remove; [|eassumption|]; [lia|]. intros v k1 Hk1 _. ksteps.
  eapply wp_release; [|eassumption|]; [lia|]. intros k2 Hk2 _. kdrop v. apply HQ. kfin.
Qed.

(** ** Transfer *)

Lemma wp_lock_both B held p q k (Q : unit -> kernel -> Prop) :
  0 <= B -> kinv B held k ->
  (forall k', kinv B held k' -> same_contents k k' -> Q tt k') -> wp (lock_both p q) k Q.
Proof. intros HB Hk HQ. unfold lock_both. ksteps; (apply HQ; [kfin|kchain]). Qed.

Lemma wp_unlock_both B held p q k (Q : unit -> kernel -> Prop) :
  0 <= B -> kinv B held k ->
  (forall k', kinv B held k' -> same_contents k k' -> Q tt k') -> wp (unlock_both p q) k Q.
Proof. intros HB Hk HQ. unfold unlock_both. ksteps; (apply HQ; [kfin|kchain]). Qed.

Lemma wp_asset_move B held from to r k (Q : result AssetRef -> kernel -> Prop) :
  2 <= B -> kinv B held k ->
  (forall v k', kinv (B - 2) (res_refs v ++ held) k' -> Q v k') ->
  wp (asset_move from to r) k Q.
Proof.
  intros HB Hk HQ. unfold asset_move. kstep; [ksteps; apply HQ; kfin|].
  kstep; [ksteps; apply HQ; kfin|]. ksteps.
  eapply wp_lock_both; [|eassumption|]; [lia|]. intros k1 Hk1 Hs1. ksteps.
  eapply wp_assets_has; [eassumption|]. intros s T Hs HT. ksteps.
  - eapply wp_assets_moveOut; [|eassumption|]; [lia|]. intros v k2 Hk2 _. ksteps.
    eapply wp_next_handle; [|eassumption|]; [lia|]. intros h k3 Hk3 Hf _. ksteps.
    eapply (wp_assets_insert _ (asset v :: held)); [|eassumption|..]; [lia|kchain|done|].
    intros k5 Hk5 _. ksteps. eapply wp_unlock_both; [|eassumption|]; [lia|]. intros k6 Hk6 _.
    ksteps. apply HQ. simpl. kfin.
  - eapply wp_unlock_both; [|eassumption|]; [lia|]. intros k6 Hk6 _. ksteps. apply HQ. simpl. kfin.
Qed.

Lemma wp_asset_copy B held to r k (Q : result AssetRef -> kernel -> Prop) :
  3 <= B -> kinv B held k ->
  (forall v k', kinv (B - 3) (res_refs v ++ held) k' -> Q v k') ->
  wp (asset_copy to r) k Q.
Proof.
  intros HB Hk HQ. unfold asset_copy. kstep; [ksteps; apply HQ; kfin|].
  kstep; [ksteps; apply HQ; kfin|]. ksteps.
  eapply wp_next_handle; [|eassumption|]; [lia|]. intros h k3 Hk3 Hf _. ksteps.
  eapply (wp_assets_insert _ (asset r :: held)); [|eassumption|..]; [lia|kchain|done|].
  intros k5 Hk5 _. ksteps. apply HQ. simpl. kfin.
Qed.

(** ** Global tables *)

Lemma kinv_tables B B' held held' k k' :
  kinv B held k -> 0 <= B' <= B -> heap k' = heap k ->
  (forall q, q <> nullptr ->
     zcount q (global_refs k') + zcount q held' <= zcount q (global_refs k) + zcount q held) ->
  (exists T, umap_rep (_internal_signal_map k') T) ->
  0 <= _space_id k' /\ 16 + 10000 * (_space_id k' + B') < 2 ^ 64 ->
  Pmm.pmm_wf (pmm k') -> map_Forall (fun _ m => msg_wf m) (messages k') ->
  kinv B' held' k'.
Proof.
  intros Hk HB Hh Hc Hm Hi Hp Hmsg. apply (kinv_budget _ B' _ _ HB) in Hk.
  destruct Hk as [H1 H2 H3 H4 H5 H6 H7].
  assert (forall q, refs k' q = refs k q - zcount q (global_refs k) + zcount q (global_refs k')) as E.
  { intros q. unfold refs. rewrite Hh. lia. }
  split; try done; rewrite ?Hh; try done. intros q Hq Hn. rewrite E in *. specialize (Hc q Hq).
  destruct (H3 q Hq) as (a & Ha & ?); [lia|]. exists a. split; [done|lia].
Qed.

(** Changes that concern no reference. *)
Lemma kinv_same_tables B held k k' :
  kinv B held k -> heap k' = heap k -> global_refs k' = global_refs k ->
  _internal_signal_map k' = _internal_signal_map k -> _space_id k' = _space_id k ->
  Pmm.pmm_wf (pmm k') -> messages k' = messages k -> 0 <= B -> kinv B held k'.
Proof.
  intros Hk Hh Hg Hm Hi Hp Hmsg HB. apply (kinv_tables B B held held k); try done; rewrite ?Hg, ?Hm, ?Hi, ?Hmsg.
  - done.
  - apply Hk.
  - apply Hk.
  - apply Hk.
Qed.

Lemma wp_push_server B held h r k (Q : unit -> kernel -> Prop) :
  0 <= B -> kinv B (asset r :: held) k ->
  (forall k', kinv B held k' -> heap k' = heap k -> Q tt k') ->
  wp (push_server h r) k Q.
Proof.
  intros HB Hk HQ. apply wp_modify, HQ; [|done].
  apply (kinv_tables B B (asset r :: held) held k); simpl; try done; try apply Hk.
  intros q _. unfold global_refs. simpl. rewrite !fmap_app, !zcount_app. simpl. lia.
Qed.

Lemma wp_get_next B held k (Q : Z -> kernel -> Prop) :
  0 <= B -> kinv B held k ->
  (forall h k', kinv B held k' -> heap k' = heap k -> Q h k') ->
  wp get_next_ipc_server_handle k Q.
Proof.
  intros HB Hk HQ. unfold get_next_ipc_server_handle. ksteps. apply wp_modify, wp_ret, HQ; [|done].
  apply (kinv_same_tables B held k); try done. apply Hk.
Qed.

Lemma heap_contents k k' : heap k' = heap k -> forall q e, has_content k' q e <-> has_content k q e.
Proof. intros E q e. unfold has_content. by rewrite E. Qed.

Lemma wp_publish_server B held r b k (Q : Z -> kernel -> Prop) :
  1 <= B -> kinv B held k ->
  (forall h k', kinv (B - 1) held k' ->
     (forall q e, has_content k' q e <-> has_content k q e) -> Q h k') ->
  wp (publish_server r b) k Q.
Proof.
  intros HB Hk HQ. unfold publish_server. apply wp_bind.
  assert (forall h k', kinv B held k' -> heap k' = heap k ->
    wp (r ← copy_ref r; push_server h r;; mret h) k' Q) as Hrest.
  { intros h k1 Hk1 Hh. ksteps. eapply wp_push_server; [|eassumption|]; [lia|].
    intros k3 Hk3 Hh3. ksteps. apply HQ; [kfin|]. intros q e.
    rewrite (heap_contents _ _ Hh3 q e), (sc_contents _ _ H0). by apply heap_contents. }
  destruct b; [apply wp_ret; by apply Hrest|]. eapply wp_get_next; [|eassumption|]; [lia|].
  intros h k' ? ?. by apply Hrest.
Qed.

Lemma wp_query_server B held h k (Q : result AssetRef -> kernel -> Prop) :
  1 <= B -> kinv B held k ->
  (forall r k', kinv (B - 1) (res_refs r ++ held) k' -> Q r k') ->
  wp (query_server h) k Q.
Proof.
  intros HB Hk HQ. unfold query_server. ksteps; apply HQ; simpl; kfin.
Qed.

(** [pop] leaks the reference of the entry: counts only get larger than
    needed. *)
Lemma unregister_loop_ends l h sh k (Q : list (Z * AssetRef) -> kernel -> Prop) :
  (forall l', (forall q, zcount q (asset <$> (snd <$> l')) <= zcount q (asset <$> (snd <$> l))) ->
     Q l' k) ->
  wp (unregister_loop l h sh) k Q.
Proof.
  revert Q. induction l as [|[h' r] l IH]; intros Q HQ; cbn [unregister_loop].
  { apply wp_ret, HQ. lia. }
  assert (forall b : bool, wp (if b then mret l else l' ← unregister_loop l h sh; mret ((h', r) :: l')) k Q)
    as Hrest.
  { intros []; [apply wp_ret, HQ; intros q; rewrite !fmap_cons; simpl; case_decide; lia|].
    apply wp_bind, IH. intros l' Hl'. apply wp_ret, HQ. intros q. specialize (Hl' q).
    rewrite !fmap_cons. simpl. lia. }
  apply wp_bind. destruct (h' =? h); [|apply wp_ret, (Hrest false)].
  apply wp_bind, wp_bind, wp_get_content. intros d _. destruct d; try done.
  apply wp_ret, wp_ret, (Hrest (_ =? sh)).
Qed.

Lemma wp_unregister_server B held h sh k (Q : unit -> kernel -> Prop) :
  0 <= B -> kinv B held k -> (forall k', kinv B held k' -> Q tt k') ->
  wp (unregister_server h sh) k Q.
Proof.
  intros HB Hk HQ. unfold unregister_server. ksteps. apply unregister_loop_ends. intros l Hl.
  apply wp_modify, HQ. apply (kinv_tables B B held held k); simpl; try done; try apply Hk.
  intros q _. unfold global_refs. simpl. rewrite !zcount_app. specialize (Hl q). lia.
Qed.
End operations.
