(* ===== verification/SpaceCreateSpec.v ===== *)
(** Every operation that creates an object keeps the invariant of reference
    counting, on each of its branches. [create_cost] bounds the counted
    references and handles one of them makes. *)

From stdpp Require Import gmap.
From S2P Require Import Prelude UMap.
From S2P Require Pmm Range Ring.
From S2P Require Import IpcTypes KObject IpcRegistry Space KObjectSpec SpaceSpec.

Definition create_cost : Z := 8.

Section create.
Context `{M : Machine}.

Lemma kinv_bound B held k : 0 <= B -> kinv B held k -> B < 2 ^ 64.
Proof. intros HB [_ _ _ _ ? _ _]. lia. Qed.

Lemma wp_set_pmm B held p k (Q : unit -> kernel -> Prop) :
  0 <= B -> kinv B held k -> Pmm.pmm_wf p ->
  (forall k', kinv B held k' -> same_contents k' k' -> Q tt k') -> wp (modify (with_pmm p)) k Q.
Proof.
  intros HB Hk Hp HQ. apply wp_modify, HQ; [|apply same_contents_refl].
  by apply (kinv_same_tables B held k).
Qed.

(** What the interface promises of the page tables is what [kinv] needs. *)
Lemma wp_on_tables {A} B held (f : PageTables -> Pmm.Pmm -> ctl (A * PageTables * Pmm.Pmm)) k
    (Q : A -> kernel -> Prop) :
  0 <= B -> kinv B held k ->
  (forall t p, Pmm.pmm_wf p -> ends (fun '(_, _, p') => Pmm.pmm_wf p') (f t p)) ->
  (forall a t p, kinv B held (with_pmm p (with_page_tables t k)) ->
     Q a (with_pmm p (with_page_tables t k))) ->
  wp (on_tables f) k Q.
Proof.
  intros HB Hk Hf HQ. unfold on_tables. ksteps. apply wp_lift.
  eapply ends_impl; [apply Hf, (kinv_pmm _ _ _ Hk)|]. intros [[a t] p] Hp. cbn beta iota.
  apply wp_bind, wp_modify, wp_ret, HQ. by apply (kinv_same_tables B held k).
Qed.

(** A content without counted references can be put anywhere. *)
Lemma wp_set_plain B held p d k (Q : unit -> kernel -> Prop) :
  0 <= B -> kinv B held k -> fields d = [] -> data_wf B d ->
  (forall k', kinv B held k' -> Q tt k') -> wp (set_content p d) k Q.
Proof.
  intros HB Hk Hf Hd HQ. unfold set_content. apply wp_bind, wp_get_asset. intros a Ha.
  apply wp_set_asset, HQ. pose proof (kinv_obj _ _ _ Hk p a Ha) as (? & ? & _).
  apply (kinv_update B B held held k p a); simpl; try done; try lia. intros q Hq.
  unfold content_refs. simpl. rewrite Hf. pose proof (zcount_nonneg q (asset <$> fields (content a))).
  simpl. case_decide; lia.
Qed.

Lemma wp_own_fixed B held addr size k (Q : unit -> kernel -> Prop) :
  0 <= B -> kinv B held k -> (forall k', kinv B held k' -> Q tt k') ->
  wp (own_fixed addr size) k Q.
Proof.
  intros HB Hk HQ. unfold own_fixed. ksteps; try (apply HQ; kfin).
  apply wp_lift. eapply ends_impl; [apply Pmm.own_keeps, Hk|]. intros [r p] Hp.
  eapply wp_set_pmm; [|eassumption|done|]; [lia|]. intros k' Hk' _. by apply HQ.
Qed.

Lemma wp_allocate B held this d k (Q : result AssetRef -> kernel -> Prop) :
  zlen (fields d) + 3 <= B -> kinv B held k -> data_wf B d ->
  (forall ref k', asset ref <> nullptr -> has_content k' (asset ref) d ->
     heap k !! asset ref = None -> asset ref <> this ->
     kinv (B - 3 - zlen (fields d)) (asset ref :: held) k' -> Q (Value ref) k') ->
  wp (allocate_asset this d) k Q.
Proof.
  intros HB Hk Hd HQ. eapply wp_allocate_asset; try done. eapply kinv_bound; [|done]. lia.
Qed.

Lemma wp_create_memory B held this size addr lower k (Q : result AssetRef -> kernel -> Prop) :
  create_cost <= B -> kinv B held k ->
  (forall r k', kinv (B - create_cost) (res_refs r ++ held) k' -> Q r k') ->
  wp (create_memory this size addr lower) k Q.
Proof.
  unfold create_cost. intros HB Hk HQ. unfold create_memory.
  kstep; [ksteps; apply HQ; kfin|]. kstep; [ksteps; apply HQ; kfin|]. apply wp_bind.
  eapply wp_allocate; [|eassumption|done|]; [simpl; lia|]. intros ptr k1 _ _ _ _ Hk1. simpl in Hk1.
  kstep. kstep.
  - ksteps. apply wp_lift.
    eapply ends_impl; [apply Pmm.allocate_keeps, Hk1|]. intros [[a|e] p] Hp; kstep.
    all: eapply wp_set_pmm; [|eassumption|done|]; [lia|]; intros k2 Hk2 _; ksteps.
    + eapply wp_set_plain; [|eassumption|done|done|]; [lia|]. intros k3 Hk3. ksteps.
      apply HQ. simpl. kfin.
    + eapply wp_asset_remove; [|eassumption|]; [lia|]. intros v k4 Hk4 _. ksteps. apply HQ. simpl. kfin.
  - ksteps. eapply wp_own_fixed; [|eassumption|]; [lia|]. intros k2 Hk2. ksteps.
    eapply wp_set_plain; [|eassumption|done|done|]; [lia|]. intros k3 Hk3. ksteps.
    apply HQ. simpl. kfin.
Qed.

Lemma wp_mapping_error B held ptr phys m k (Q : result AssetRef -> kernel -> Prop) :
  0 <= B -> kinv B (asset ptr :: held) k -> (forall k', kinv B held k' -> Q (Error m) k') ->
  wp (mapping_error ptr phys m) k Q.
Proof. intros HB Hk HQ. unfold mapping_error. ksteps. apply HQ. kfin. Qed.

Lemma wp_create_mapping B held this s e phys w x k (Q : result AssetRef -> kernel -> Prop) :
  create_cost <= B -> kinv B held k ->
  (forall r k', kinv (B - create_cost) (res_refs r ++ held) k' -> Q r k') ->
  wp (create_mapping this s e phys w x) k Q.
Proof.
  unfold create_cost. intros HB Hk HQ. unfold create_mapping. ksteps.
  eapply wp_allocate; [|eassumption|done|]; [simpl; lia|]. intros ptr k1 _ _ _ _ Hk1. simpl in Hk1.
  assert (forall m k', kinv (B - 3 - 1) held k' -> Q (Error m) k') as Herr
    by (intros; apply HQ; simpl; kfin).
  kstep; [eapply wp_mapping_error; [|eassumption|by apply Herr]; lia|]. ksteps.
  apply wp_kind_of. intros d _.
  kstep; [eapply wp_mapping_error; [|eassumption|by apply Herr]; lia|].
  kstep; [eapply wp_mapping_error; [|eassumption|by apply Herr]; lia|]. ksteps.
  apply wp_get_space. intros sp _. ksteps.
  eapply wp_on_tables; [|eassumption|intros; by apply vmm_map_pmm|]; [lia|]. intros r t p Hk2. ksteps.
  - eapply wp_asset_remove; [|eassumption|]; [lia|]. intros v k4 Hk4 _. ksteps.
    apply HQ. simpl. kfin.
  - apply HQ. simpl. kfin.
Qed.

(** ** Tasks *)

Lemma wp_get_task p k (Q : Task -> kernel -> Prop) :
  (forall t, has_content k p (AssetTask t) -> Q t k) -> wp (get_task p) k Q.
Proof. intros HQ. apply wp_bind, wp_get_content. intros [] Hd; try done. by apply wp_ret, HQ. Qed.

Lemma wp_task_create B held c k (Q : result Z -> kernel -> Prop) :
  1 <= B -> kinv B held k -> (forall r k', kinv (B - 1) held k' -> Q r k') ->
  wp (task_create c) k Q.
Proof.
  intros HB Hk HQ. unfold task_create, _task_allocate. ksteps.
  eapply (wp_new_asset _ held); [|eassumption|done| |]; [lia|by eapply kinv_bound; [|done]; lia|].
  intros p k1 _ _ _ Hk1. ksteps.
  match goal with H : kinv _ (p :: _) ?k2 |- wp (modify _) ?k2 _ =>
    rename H into Hk2 end.
  apply wp_modify. match goal with |- wp _ ?k3 _ => assert (kinv (B - 1) held k3) as Hk3 end.
  { eapply (kinv_tables (B - 1) (B - 1) (p :: held)); [exact Hk2|lia|done| |apply Hk2..].
    intros q _. unfold global_refs. simpl. rewrite !zcount_app. simpl. lia. }
  ksteps; apply HQ; kfin.
Qed.

Lemma wp_initialize B held p user prep st v k (Q : result unit -> kernel -> Prop) :
  0 <= B -> kinv B held k -> (forall r k', kinv B held k' -> Q r k') ->
  wp (_initialize p user prep st v) k Q.
Proof.
  intros HB Hk HQ. unfold _initialize. kstep; [|ksteps; by apply HQ]. ksteps.
  apply wp_get_task. intros t _. ksteps.
  eapply wp_set_plain; [|eassumption|done|done|]; [lia|]. intros k1 Hk1. ksteps; [|by apply HQ].
  eapply wp_on_tables; [|eassumption|intros; by apply vmm_map_pmm|]; [lia|]. intros r tb pm Hk2.
  ksteps. by apply HQ.
Qed.

Lemma wp_create_task B held this user c prep st k (Q : result AssetRef -> kernel -> Prop) :
  create_cost <= B -> kinv B held k ->
  (forall r k', kinv (B - create_cost) (res_refs r ++ held) k' -> Q r k') ->
  wp (create_task this user c prep st) k Q.
Proof.
  unfold create_cost. intros HB Hk HQ. unfold create_task. kstep.
  eapply wp_task_create; [|eassumption|]; [lia|]. intros [task|e] k1 Hk1; [|done]. kstep.
  apply wp_lift. cbn. kstep. eapply wp_add_asset; [|eassumption|]; [lia|].
  intros ptr k2 Hptr _ Hk2 _. kstep. apply wp_get_task. intros t _. kstep.
  eapply wp_set_plain; [|eassumption|done|done|]; [lia|]. intros k3 Hk3. ksteps.
  apply wp_get_space. intros s _. ksteps. eapply wp_initialize; [|eassumption|]; [lia|].
  intros r k5 Hk5. subst task. ksteps.
  - eapply wp_asset_remove; [|eassumption|]; [lia|]. intros v k6 Hk6 _. ksteps. apply HQ. simpl. kfin.
  - apply HQ. simpl. kfin.
Qed.

(** ** IPC and signal objects *)

Lemma wp_finish B held ptr k (Q : result AssetRef -> kernel -> Prop) :
  1 <= B -> kinv B held k ->
  (forall k', kinv (B - 1) held k' -> same_contents k k' -> Q (Value ptr) k') ->
  wp (finish ptr) k Q.
Proof. intros HB Hk HQ. unfold finish. ksteps. apply HQ; [kfin|kchain]. Qed.

Lemma wp_create_with_finish B held this d k (Q : result AssetRef -> kernel -> Prop) :
  zlen (fields d) + 4 <= B -> kinv B held k -> data_wf B d ->
  (forall ptr k', kinv (B - 4 - zlen (fields d)) (asset ptr :: held) k' ->
     has_content k' (asset ptr) d -> Q (Value ptr) k') ->
  wp (ktry (allocate_asset this d) finish) k Q.
Proof.
  intros HB Hk Hd HQ. kstep. eapply wp_allocate; [|eassumption|done|]; [lia|].
  intros ptr k1 _ Hc _ _ Hk1. eapply wp_finish; [|exact Hk1|]; [lia|]. intros k2 Hk2 Hs.
  apply HQ; [kfin|]. by apply (sc_contents _ _ Hs).
Qed.

Lemma wp_create_return_task B held this t k (Q : result AssetRef -> kernel -> Prop) :
  create_cost <= B -> kinv B held k ->
  (forall ptr k', kinv (B - create_cost) (asset ptr :: held) k' ->
     has_content k' (asset ptr) (IpcMessageReturnTask t nullptr) -> Q (Value ptr) k') ->
  wp (create_ipc_return_task this t) k Q.
Proof.
  unfold create_cost. intros HB Hk HQ.
  eapply wp_create_with_finish; [|exact Hk|done|]; [simpl; lia|]. simpl. intros. apply HQ; [kfin|done].
Qed.

Lemma wp_create_signal_endpoint B held this k (Q : result AssetRef -> kernel -> Prop) :
  create_cost <= B -> kinv B held k ->
  (forall ptr k', kinv (B - create_cost) (asset ptr :: held) k' -> Q (Value ptr) k') ->
  wp (create_signal_endpoint this) k Q.
Proof.
  unfold create_cost. intros HB Hk HQ.
  eapply wp_create_with_finish; [|exact Hk|done|]; [simpl; lia|]. simpl. intros. apply HQ. kfin.
Qed.

Lemma wp_create_attached_signal B held this e k (Q : result AssetRef -> kernel -> Prop) :
  create_cost <= B -> kinv B held k ->
  (forall ptr k', kinv (B - create_cost) (asset ptr :: held) k' -> Q (Value ptr) k') ->
  wp (create_attached_signal this e) k Q.
Proof.
  unfold create_cost. intros HB Hk HQ.
  eapply wp_create_with_finish; [|exact Hk|done|]; [simpl; lia|]. simpl. intros. apply HQ. kfin.
Qed.

Lemma wp_get_endpoint p k (Q : IpcEndpoint -> kernel -> Prop) :
  (forall e, has_content k p (AssetIpcEndpoint e) -> Q e k) -> wp (get_endpoint p) k Q.
Proof. intros HQ. apply wp_bind, wp_get_content. intros [] Hd; try done. by apply wp_ret, HQ. Qed.

Lemma kinv_endpoint B held k p e :
  kinv B held k -> has_content k p (AssetIpcEndpoint e) ->
  async_wf (async_queue e) /\ ring_wf (sync_queue e).
Proof.
  intros Hk (a & Ha & Hc). pose proof (kinv_obj _ _ _ Hk p a Ha) as (_ & _ & Hd). by rewrite Hc in Hd.
Qed.

(** An endpoint is updated with the references it had and those of [l]. *)
Lemma wp_set_endpoint B held l p e e' k (Q : unit -> kernel -> Prop) :
  0 <= B -> kinv B (l ++ held) k -> has_content k p (AssetIpcEndpoint e) ->
  async_wf (async_queue e') -> ring_wf (sync_queue e') ->
  (forall q, q <> nullptr -> zcount q (asset <$> fields (AssetIpcEndpoint e')) <=
     zcount q l + zcount q (asset <$> fields (AssetIpcEndpoint e))) ->
  (forall k', kinv B held k' -> has_content k' p (AssetIpcEndpoint e') -> Q tt k') ->
  wp (set_endpoint p e') k Q.
Proof.
  intros HB Hk He Ha Hs Hc HQ. eapply (wp_set_content B B (l ++ held) held); [lia|done..| | |].
  - done.
  - intros q Hq. specialize (Hc q Hq). rewrite zcount_app. lia.
  - intros k' ? ? _. by apply HQ.
Qed.

Lemma ring_wf_empty A : ring_wf (Ring.Ring.empty (A := A)).
Proof. exists []. split; [apply Ring.Ring.rrep_empty|by left]. Qed.

Lemma has_content_fun k p d d' : has_content k p d -> has_content k p d' -> d = d'.
Proof. intros (a & Ha & Hc) (a' & Ha' & Hc'). congruence. Qed.

(** The references of the new content all come from [held]. *)
Lemma wp_set_from_held B held p d k (Q : unit -> kernel -> Prop) :
  0 <= B -> kinv B ((asset <$> fields d) ++ held) k -> data_wf B d ->
  (forall k', kinv B held k' -> has_content k' p d ->
     (forall q e, q <> p -> has_content k' q e <-> has_content k q e) -> Q tt k') ->
  wp (set_content p d) k Q.
Proof.
  intros HB Hk Hd HQ. unfold set_content. apply wp_bind, wp_get_asset. intros a Ha.
  apply wp_set_asset, HQ.
  - pose proof (kinv_obj _ _ _ Hk p a Ha) as (? & ? & _).
    eapply (kinv_update B B _ held k p a); [exact Hk|done|..]; simpl; try done; try lia. intros q Hq.
    unfold content_refs. simpl. pose proof (zcount_nonneg q (asset <$> fields (content a))).
    rewrite zcount_app. case_decide; lia.
  - eexists. simpl. by rewrite lookup_insert_eq.
  - intros q e Hq. unfold has_content. simpl. by rewrite lookup_insert_ne.
Qed.

Lemma async_wf_empty : async_wf Ring.Ring.empty.
Proof. exists []. split; [|constructor]. split; [apply Ring.Ring.rrep_empty|by left]. Qed.

Lemma wp_create_ipc_endpoint B held this pub root k (Q : result AssetRef -> kernel -> Prop) :
  create_cost <= B -> kinv B held k ->
  (forall ptr k', kinv (B - create_cost) (asset ptr :: held) k' -> Q (Value ptr) k') ->
  wp (create_ipc_endpoint this pub root) k Q.
Proof.
  unfold create_cost. intros HB Hk HQ. unfold create_ipc_endpoint. kstep.
  eapply wp_allocate; [|exact Hk| |]; [simpl; lia|split; [apply async_wf_empty|apply ring_wf_empty]|].
  intros ptr k1 _ Hc1 _ _ Hk1. simpl in Hk1. kstep. kstep. kstep.
  apply wp_get_endpoint. intros e He. apply (sc_contents _ _ H0) in He.
  assert (e = IpcEndpoint_init) as -> by by injection (has_content_fun _ _ _ _ He Hc1).
  kstep. eapply (wp_set_endpoint _ (asset ptr :: held) [this]); [|exact H|..];
    [lia|by apply (sc_contents _ _ H0)|apply async_wf_empty|apply ring_wf_empty| |].
  { intros q Hq. simpl. unfold nullptr in *. repeat case_decide; subst; try done; lia. }
  intros k3 Hk3 Hc3. kstep.
  assert (forall u k4, kinv (B - 7) (asset ptr :: held) k4 ->
    (forall q e, has_content k4 q e <-> has_content k3 q e) ->
    wp (e ← get_endpoint (asset ptr);
        set_endpoint (asset ptr)
          (mk_IpcEndpoint (tick e) (async_queue e) (last_async_msg_tick e) (sync_queue e)
             (last_sync_msg_tick e) (target_message_space e) (awaiting_server e) u (last_port e));;
        finish ptr) k4 Q) as Hend.
  { intros u k4 Hk4 Hc4. kstep. apply wp_get_endpoint. intros e He'.
    destruct (kinv_endpoint _ _ _ _ _ Hk4 He'). kstep.
    eapply (wp_set_endpoint _ (asset ptr :: held) []); [|exact Hk4|exact He'|done..| |]; [lia| |].
    - intros q _. simpl. lia.
    - intros k5 Hk5 _. eapply wp_finish; [|exact Hk5|]; [lia|]. intros k6 Hk6 _. apply HQ. kfin. }
  destruct pub.
  - eapply wp_publish_server; [|exact Hk3|]; [lia|]. intros u k4 Hk4 Hc4.
    apply Hend; [kfin|done].
  - eapply wp_get_next; [|exact Hk3|]; [lia|]. intros u k4 Hk4 Hh4.
    apply Hend; [kfin|by apply heap_contents].
Qed.

Lemma wp_create_ipc_connection B held this endpoint k (Q : result AssetRef -> kernel -> Prop) :
  create_cost <= B -> kinv B held k ->
  (forall ptr k', kinv (B - create_cost) (asset ptr :: held) k' -> Q (Value ptr) k') ->
  wp (create_ipc_connection this endpoint) k Q.
Proof.
  unfold create_cost. intros HB Hk HQ. unfold create_ipc_connection. kstep.
  eapply wp_allocate; [|exact Hk|done|]; [simpl; lia|].
  intros ptr k1 _ Hc1 _ _ Hk1. simpl in Hk1. ksteps.
  match goal with H : kinv _ (asset endpoint :: _) _ |- _ => rename H into Hk3 end.
  eapply wp_set_from_held; [|exact Hk3|done|]; [lia|]. intros k4 Hk4 Hc4 _. ksteps.
  apply wp_get_endpoint. intros e He. kstep.
  match goal with H : kinv _ _ ?k5, S : same_contents k4 ?k5 |- wp _ ?k5 _ =>
    rename H into Hk5; rename S into Hs5; apply (sc_contents _ _ Hs5) in Hc4 end.
  assert (asset endpoint <> asset ptr) as Hne.
  { intros E. rewrite <- E in Hc4. by pose proof (has_content_fun _ _ _ _ He Hc4). }
  eapply (wp_set_content _ _ _ _ _ _ (IpcEndpointConnection endpoint (last_port e)));
    [|exact Hk5|exact Hc4|done|..]; [split; [|apply Z.le_refl]; lia|intros q _; apply Z.le_refl|].
  intros k6 Hk6 _ Ho6. apply (Ho6 _ _ Hne) in He. destruct (kinv_endpoint _ _ _ _ _ Hk6 He). kstep.
  eapply (wp_set_endpoint _ _ []); [|exact Hk6|exact He|done..| |]; [lia| |].
  { intros q _. simpl. lia. }
  intros k7 Hk7 _. ksteps. apply HQ. kfin.
Qed.

(** ** Virtual machines *)

Lemma wp_create_vm B held this k (Q : result AssetRef -> kernel -> Prop) :
  create_cost <= B -> kinv B held k ->
  (forall r k', kinv (B - create_cost) (res_refs r ++ held) k' -> Q r k') ->
  wp (create_vm this) k Q.
Proof.
  unfold create_cost. intros HB Hk HQ. unfold create_vm, create_registered_vm. kstep.
  eapply wp_allocate; [|exact Hk|done|]; [simpl; lia|]. intros ptr k1 _ _ _ _ Hk1. simpl in Hk1.
  ksteps. apply wp_lift. eapply ends_impl; [apply insert_ends|]. intros m _. ksteps.
  apply wp_modify. ksteps. eapply wp_set_plain; [| |done|done|].
  - instantiate (1 := B - 3 - 0). lia.
  - apply (kinv_same_tables _ _ k1); try done; [apply Hk1|lia].
  - intros k2 Hk2. ksteps. apply HQ. simpl. kfin.
Qed.

Lemma wp_create_vm_mapping B held this phys k (Q : result AssetRef -> kernel -> Prop) :
  create_cost <= B -> kinv B held k ->
  (forall r k', kinv (B - create_cost) (res_refs r ++ held) k' -> Q r k') ->
  wp (create_vm_mapping this phys) k Q.
Proof.
  unfold create_cost. intros HB Hk HQ. unfold create_vm_mapping. kstep.
  eapply wp_allocate; [|exact Hk|done|]; [simpl; lia|]. intros ptr k1 _ _ _ _ Hk1. simpl in Hk1.
  ksteps. match goal with H : kinv _ (asset phys :: _) _ |- _ => rename H into Hk3 end.
  eapply wp_set_from_held; [|exact Hk3|done|]; [lia|]. intros k2 Hk2 _ _. ksteps.
  apply HQ. simpl. kfin.
Qed.

(** ** Spaces *)

Lemma empty_space_rep v u a : space_rep (mk_Space u a v UMap.empty) ∅.
Proof.
  split; [split; [by rewrite map_size_empty|by left]|]. intros h r Hr. by rewrite lookup_empty in Hr.
Qed.

(** [_space_id] has moved on: the identifier of the new space is small enough
    for its handles. *)
Lemma wp_create_space B held this k (Q : result AssetRef -> kernel -> Prop) :
  create_cost <= B -> kinv B held k ->
  (forall r k', kinv (B - create_cost) (res_refs r ++ held) k' -> Q r k') ->
  wp (create_space this) k Q.
Proof.
  unfold create_cost. intros HB Hk HQ. unfold create_space. kstep.
  eapply wp_allocate; [|exact Hk| |]; [simpl; lia| |].
  { simpl. split; [exists ∅; apply empty_space_rep|]. simpl. pose proof (kinv_bound B held k ltac:(lia) Hk). lia. }
  intros ptr k1 _ Hc1 _ Hne Hk1. simpl in Hk1.
  pose proof (kinv_ids _ _ _ Hk1) as [Hi0 Hi1]. kstep.
  eapply wp_on_tables; [|exact Hk1|intros; by apply vmm_create_pmm|]; [lia|]. intros vs tb pm Hk1'. ksteps.
  - apply wp_modify.
    match goal with |- wp _ ?k2 _ => assert (kinv (B - 3 - 0 - 1) (asset ptr :: held) k2) as Hk2 end.
    { eapply kinv_tables; [exact Hk1'|lia|done|done|apply Hk1'| |apply Hk1'..].
      simpl. rewrite wrapu_small by lia. lia. }
    ksteps. apply wp_get_space. intros s Hs.
    assert (s = Space_init) as ->.
    { assert (has_content k1 (asset ptr) (AssetSpace s)) as Hs' by apply Hs.
      by injection (has_content_fun _ _ _ _ Hs' Hc1). }
    ksteps. change (_space_id (with_pmm pm (with_page_tables tb k1))) with (_space_id k1).
    rewrite (wrapu_small 64 (10000 * _)) by lia. rewrite (wrapu_small 64 (16 + _)) by lia.
    eapply (wp_set_content (B - 3 - 0 - 1) (B - 3 - 0 - 1) (asset ptr :: held) (asset ptr :: held));
      [lia|exact Hk2|exact Hs|..].
    + simpl. split; [exists ∅; apply empty_space_rep|]. simpl. lia.
    + intros q _. apply Z.le_refl.
    + intros k3 Hk3 Hc3 _. ksteps. eapply (wp_assets_insert _ (asset ptr :: held)); [|eassumption| |done|]; [lia| |].
      * eexists _, ∅. split.
        { do 2 (match goal with H : same_contents _ ?k |- has_content ?k _ _ =>
            apply (sc_contents _ _ H) end). exact Hc3. }
        split; [apply empty_space_rep|]. split; [done|]. unfold selfSpace, ASSET_HANDLE_ID_SELF_SPACE.
        simpl. lia.
      * intros k5 Hk5 _. ksteps. apply HQ. simpl. kfin.
  - eapply wp_asset_release; [|eassumption|]; [lia|]. intros k3 Hk3. ksteps. apply HQ. simpl. kfin.
Qed.

Lemma wp_global_space B held i k (Q : result AssetRef -> kernel -> Prop) :
  1 <= B -> kinv B held k ->
  (forall r k', kinv (B - 1) (res_refs r ++ held) k' -> Q r k') ->
  wp (global_space_by_handle i) k Q.
Proof.
  intros HB Hk HQ. unfold global_space_by_handle. ksteps; apply HQ; simpl; kfin.
Qed.
End create.
