(* ===== verification/IpcInv.v ===== *)
(** IPC and signals keep the invariant of reference counting, whatever the
    arguments of an operation and whichever branch it takes. *)

From stdpp Require Import gmap.
From S2P Require Import Prelude UMap.
From S2P Require Pmm Range Ring.
From S2P Require Import IpcTypes KObject IpcRegistry Space Ipc Signal.
From S2P Require Import KObjectSpec SpaceSpec SpaceCreateSpec.

(** Bound on the references and handles one IPC operation makes. *)
Definition ipc_cost : Z := 40.

(** ** Rings *)

Lemma ring_contents_rrep {A} (r : Ring.Ring.Ring A) q : Ring.Ring.rrep r q -> ring_contents r = q.
Proof.
  intros Hr. unfold ring_contents. rewrite (Ring.Ring.rrep_len _ _ Hr), Nat2Z.id.
  destruct Hr as [(_ & -> & _)|[(_ & _ & _ & _ & Hq) _]]; [done|].
  unfold Ring.Ring._capacity. revert Hq. generalize (Ring.Ring._head r) as h.
  generalize (Ring.Ring._data r) as s. intros s h Hq.
  assert (forall l off, (forall i x, l !! i = Some x ->
      aget s ((h + Z.of_nat (off + i)) mod zlen s) = Some (Some x)) ->
    omap (fun k => mjoin (aget s ((h + Z.of_nat k) mod zlen s))) (seq off (length l)) = l) as Hgen.
  { induction l as [|x l IH]; intros off Hl; [done|]. simpl.
    pose proof (Hl O x eq_refl) as E. rewrite Nat.add_0_r in E. rewrite E. simpl. f_equal.
    apply IH. intros i y Hi. specialize (Hl (S i) y Hi). by rewrite Nat.add_succ_r in Hl. }
  by apply Hgen.
Qed.

(** [push] keeps the queue; a ring it cannot grow is where it ends. *)
Lemma ring_push_cases {A} plain (x : A) r q :
  Ring.Ring.ring_ok r q ->
  (exists r', Ring.Ring.push plain true x r = Ret r' /\ Ring.Ring.ring_ok r' (q ++ [x])) \/
  (plain = false /\ Ring.Ring.push plain true x r = Trap).
Proof.
  intros [Hr Hc]. destruct (decide (plain = true \/ Ring.Ring.moves r = false)) as [Hp|Hp].
  - left. destruct (Ring.Ring.push_rrep plain x r q Hr Hc Hp) as (r' & -> & Hr' & Hc').
    exists r'. split; [done|]. split; [done|]. by right.
  - right. assert (plain = false /\ Ring.Ring.moves r = true) as [-> Hm].
    { destruct plain, (Ring.Ring.moves r); naive_solver. }
    split; [done|]. by eapply Ring.Ring.push_moves.
Qed.

Lemma ring_pop_ok {A} (x : A) r q :
  Ring.Ring.ring_ok r (x :: q) ->
  exists r', Ring.Ring.pop r = Ret (x, r') /\ Ring.Ring.ring_ok r' q.
Proof.
  intros [Hr Hc]. destruct (Ring.Ring.pop_rrep x r q Hr) as (r' & -> & Hr' & Hc').
  exists r'. split; [done|]. split; [done|]. by rewrite Hc'.
Qed.

Lemma ring_ok_len {A} (r : Ring.Ring.Ring A) q :
  Ring.Ring.ring_ok r q -> Ring.Ring.len r = zlen q.
Proof. intros [Hr _]. by apply Ring.Ring.rrep_len. Qed.

Lemma ring_ok_head {A} (x : A) r q : Ring.Ring.ring_ok r (x :: q) -> Ring.Ring.head r = Ret x.
Proof. intros [Hr _]. by eapply Ring.Ring.head_rrep. Qed.

Lemma ring_pop_empty {A} (r : Ring.Ring.Ring A) : Ring.Ring.ring_ok r [] -> Ring.Ring.pop r = Trap.
Proof. intros Hr. unfold Ring.Ring.pop. by rewrite (ring_ok_len _ _ Hr). Qed.

(** ** Endpoints *)

Definition endpoint_wf (e : IpcEndpoint) : Prop := async_wf (async_queue e) /\ ring_wf (sync_queue e).

Definition erefs (e : IpcEndpoint) : list Z := asset <$> fields (AssetIpcEndpoint e).

Lemma erefs_eq e qs :
  Ring.Ring.ring_ok (sync_queue e) qs ->
  erefs e = asset (awaiting_server e) :: asset (target_message_space e) :: (asset <$> (callee <$> qs)).
Proof. intros [Hr _]. unfold erefs. cbn [fields]. by rewrite (ring_contents_rrep _ _ Hr). Qed.

(** The ticks do not matter to the references. *)
Definition same_refs (e e' : IpcEndpoint) : Prop := erefs e' = erefs e.

Lemma update_msg_ticks_ends e :
  endpoint_wf e ->
  ends (fun e' => endpoint_wf e' /\ same_refs e e') (update_msg_ticks e).
Proof.
  intros [(qa & Ha & Hm) (qs & Hs)]. unfold update_msg_ticks.
  rewrite (ring_ok_len _ _ Ha), (ring_ok_len _ _ Hs).
  assert (forall t1 t2, endpoint_wf (mk_IpcEndpoint (tick e) (async_queue e) t1 (sync_queue e) t2
      (target_message_space e) (awaiting_server e) (uuid e) (last_port e))) as Hwf.
  { intros t1 t2. split; [by exists qa|by exists qs]. }
  destruct qa as [|a qa], qs as [|s qs]; simpl.
  - done.
  - rewrite (ring_ok_head _ _ _ Hs). done.
  - rewrite (ring_ok_head _ _ _ Ha). done.
  - rewrite (ring_ok_head _ _ _ Ha), (ring_ok_head _ _ _ Hs). done.
Qed.

Lemma push_sync_ends x e :
  endpoint_wf e ->
  ends (fun e' => endpoint_wf e' /\
    forall q, zcount q (erefs e') = zcount q [asset (callee x)] + zcount q (erefs e)) (push_sync x e).
Proof.
  intros [Ha (qs & Hs)]. unfold push_sync.
  destruct (ring_push_cases false x _ _ Hs) as [(r & -> & Hr)|[_ ->]]; [|done]. cbn [mbind ctl_bind].
  eapply ends_bind; [apply update_msg_ticks_ends; split; [exact Ha|by eexists]|].
  intros e' [Hw He]. cbn [ends]. split; [done|]. intros q. unfold same_refs in He.
  trans (zcount q (erefs (set_sync e r (last_sync_msg_tick e)))); [by rewrite <- He|].
  rewrite (erefs_eq e _ Hs), (erefs_eq (set_sync e r _) _ Hr).
  rewrite !fmap_app. cbn [zcount]. rewrite zcount_app. simpl. lia.
Qed.

Lemma push_async_ends x e :
  endpoint_wf e -> msg_wf (target_msg x) ->
  ends (fun e' => endpoint_wf e' /\ same_refs e e') (push_async x e).
Proof.
  intros [(qa & Ha & Hm) Hs] Hx. unfold push_async.
  destruct (ring_push_cases true x _ _ Ha) as [(r & -> & Hr)|[[=] _]]. cbn [mbind ctl_bind].
  eapply ends_bind; [apply update_msg_ticks_ends|].
  - split; [|exact Hs]. exists (qa ++ [x]). split; [done|]. apply Forall_app.
    split; [done|]. by constructor.
  - intros e' [Hw He]. done.
Qed.

Lemma pop_sync_ends e :
  endpoint_wf e ->
  ends (fun '(x, e') => endpoint_wf e' /\
    forall q, zcount q (erefs e) = zcount q [asset (callee x)] + zcount q (erefs e')) (pop_sync e).
Proof.
  intros [Ha (qs & Hs)]. unfold pop_sync. destruct qs as [|x qs]; [by rewrite ring_pop_empty|].
  destruct (ring_pop_ok x _ _ Hs) as (r & -> & Hr). cbn [mbind ctl_bind].
  eapply (ends_bind (fun _ => True)).
  - rewrite (ring_ok_len _ _ Hr). destruct qs as [|y qs]; [done|]. simpl.
    by rewrite (ring_ok_head _ _ _ Hr).
  - intros t _. cbn [ends]. split; [split; [done|by exists qs]|]. intros q.
    rewrite (erefs_eq e _ Hs), (erefs_eq (set_sync e r _) _ Hr). rewrite !fmap_cons.
    cbn [zcount awaiting_server target_message_space set_sync]. lia.
Qed.

Lemma pop_async_ends e :
  endpoint_wf e ->
  ends (fun '(x, e') => endpoint_wf e' /\ same_refs e e' /\ msg_wf (target_msg x)) (pop_async e).
Proof.
  intros [(qa & Ha & Hm) Hs]. unfold pop_async. destruct qa as [|x qa]; [by rewrite ring_pop_empty|].
  destruct (ring_pop_ok x _ _ Ha) as (r & -> & Hr). cbn [mbind ctl_bind].
  apply Forall_cons_1 in Hm as [Hx Hm].
  eapply (ends_bind (fun _ => True)).
  - rewrite (ring_ok_len _ _ Hr). destruct qa as [|y qa]; [done|]. simpl.
    by rewrite (ring_ok_head _ _ _ Hr).
  - intros t _. simpl. split; [split; [by exists qa|done]|done].
Qed.

(** The references of what a receiver takes. *)
Definition got_refs (r : result received) : list Z :=
  match r with Value (GotSync x) => [asset (callee x)] | _ => [] end.
Definition got_wf (r : result received) : Prop :=
  match r with Value (GotAsync x) => msg_wf (target_msg x) | _ => True end.

Definition takes (e : IpcEndpoint) (c : ctl (result received * IpcEndpoint)) : Prop :=
  ends (fun '(r, e') => endpoint_wf e' /\ got_wf r /\
    forall q, zcount q (erefs e) = zcount q (got_refs r) + zcount q (erefs e')) c.

Lemma takes_async e :
  endpoint_wf e -> takes e ('(x, e) ← pop_async e; Ret (Value (GotAsync x), e)).
Proof.
  intros He. eapply ends_bind; [by apply pop_async_ends|]. intros [x e'] (? & Hs & ?).
  split; [done|]. split; [done|]. intros q. unfold same_refs in Hs. rewrite Hs. cbn. lia.
Qed.

Lemma takes_sync e :
  endpoint_wf e -> takes e ('(x, e) ← pop_sync e; Ret (Value (GotSync x), e)).
Proof.
  intros He. eapply ends_bind; [by apply pop_sync_ends|]. intros [x e'] (? & Hs). done.
Qed.

Lemma take_message_ends e : endpoint_wf e -> takes e (take_message e).
Proof.
  intros He. unfold take_message. destruct (_ || _).
  - destruct (_ =? 0); [done|by apply takes_async].
  - destruct (_ && _); [done|by apply takes_sync].
Qed.

Lemma take_message_async_ends e : endpoint_wf e -> takes e (take_message_async e).
Proof.
  intros He. unfold take_message_async. destruct (_ && _); [by apply takes_async|].
  destruct (_ && _); [done|by apply takes_sync].
Qed.

Section ipc.
Context `{M : Machine}.

(** ** Messages and tasks *)

Lemma wp_message_at c va k (Q : Z -> kernel -> Prop) :
  (forall pa, Q pa k) -> wp (message_at c va) k Q.
Proof. intros HQ. apply wp_bind, wp_gets, wp_lift. destruct (translate _ _ _); [apply HQ|done]. Qed.

Lemma wp_get_phys v a t k (Q : result Z -> kernel -> Prop) :
  (forall r, Q r k) -> wp (lift (get_phys v a t)) k Q.
Proof.
  intros HQ. apply wp_lift. pose proof (get_phys_ends v a t) as H.
  destruct (get_phys v a t); simpl; [apply HQ|done|done].
Qed.

Lemma wp_load_message B held pa k (Q : IpcMessage -> kernel -> Prop) :
  kinv B held k -> (forall m, msg_wf m -> Q m k) -> wp (load_message pa) k Q.
Proof.
  intros Hk HQ. apply wp_bind, wp_gets, wp_lift. destruct (messages k !! pa) eqn:E; [|done].
  simpl. apply HQ. by apply (kinv_messages _ _ _ Hk pa).
Qed.

Lemma wp_store_message B held pa m k (Q : unit -> kernel -> Prop) :
  kinv B held k -> msg_wf m ->
  (forall k', kinv B held k' -> heap k' = heap k -> Q tt k') -> wp (store_message pa m) k Q.
Proof.
  intros [H1 H2 H3 H4 H5 H6 H7] Hm HQ. apply wp_modify, HQ; [|done]. split; try done. simpl.
  by apply map_Forall_insert_2.
Qed.

Lemma wp_block B held p k (Q : unit -> kernel -> Prop) :
  0 <= B -> kinv B held k -> (forall k', kinv B held k' -> Q tt k') -> wp (block p) k Q.
Proof.
  intros HB Hk HQ. apply wp_bind, wp_get_task. intros t _. kstep; [done|].
  by eapply wp_set_plain.
Qed.

Lemma wp_unblock B held p k (Q : unit -> kernel -> Prop) :
  0 <= B -> kinv B held k -> (forall k', kinv B held k' -> Q tt k') -> wp (unblock p) k Q.
Proof. intros HB Hk HQ. apply wp_bind, wp_get_task. intros t _. by eapply wp_set_plain. Qed.

Lemma assign_message_ends old m :
  msg_wf old -> msg_wf m -> ends msg_wf (assign_message old m).
Proof.
  intros (_ & Hb & _) (Ha & _ & Hl). unfold assign_message.
  eapply (ends_bind (fun b => length b = length (buffer old))); [|intros b Hb'].
  - generalize (words_of_len (len m)) as n. generalize 0 as i. revert Hb.
    generalize (buffer old) as dst. intros dst _ i n. revert dst i.
    induction n as [|n IH]; intros dst i; simpl; [done|]. destruct (aget _ _); simpl; [|done].
    destruct (aset dst i _) as [d|] eqn:E; simpl; [|done]. apply aset_length in E.
    eapply ends_impl; [apply IH|]. intros b ->. done.
  - split; [done|]. split; [by rewrite <- Hb|done].
Qed.

Lemma stack_message_wf : msg_wf (IpcMessage_init stack_words).
Proof. split; [done|]. split; [apply stack_words_length|done]. Qed.

Lemma wp_deliver B held pa m k (Q : unit -> kernel -> Prop) :
  kinv B held k -> msg_wf m -> (forall k', kinv B held k' -> heap k' = heap k -> Q tt k') ->
  wp (deliver pa m) k Q.
Proof.
  intros Hk Hm HQ. apply wp_bind. eapply wp_load_message; [done|]. intros old Ho.
  apply wp_bind, wp_lift. eapply ends_impl; [by apply assign_message_ends|].
  intros m' Hm'. by eapply wp_store_message.
Qed.

(** ** Endpoint updates *)

Lemma kinv_ewf B held k p e :
  kinv B held k -> has_content k p (AssetIpcEndpoint e) -> endpoint_wf e.
Proof. intros Hk He. by apply (kinv_endpoint B held k p). Qed.

(** The references [e'] has lost are held. *)
Lemma wp_move_endpoint B held l p e e' k (Q : unit -> kernel -> Prop) :
  0 <= B -> kinv B held k -> has_content k p (AssetIpcEndpoint e) -> endpoint_wf e' ->
  (forall q, q <> nullptr -> zcount q l + zcount q (erefs e') <= zcount q (erefs e)) ->
  (forall k', kinv B (l ++ held) k' -> has_content k' p (AssetIpcEndpoint e') -> Q tt k') ->
  wp (set_endpoint p e') k Q.
Proof.
  intros HB Hk He Hwf Hc HQ. eapply (wp_set_content B B held (l ++ held)); [lia|done..| | |].
  - exact Hwf.
  - intros q Hq. specialize (Hc q Hq). rewrite zcount_app. unfold erefs in Hc. lia.
  - intros k' ? ? _. by apply HQ.
Qed.

Lemma wp_same_endpoint B held p e e' k (Q : unit -> kernel -> Prop) :
  0 <= B -> kinv B held k -> has_content k p (AssetIpcEndpoint e) -> endpoint_wf e' ->
  same_refs e e' -> (forall k', kinv B held k' -> Q tt k') -> wp (set_endpoint p e') k Q.
Proof.
  intros HB Hk He Hwf Hs HQ. eapply (wp_move_endpoint _ _ []); [done..| |].
  - intros q _. unfold same_refs in Hs. rewrite Hs. simpl. lia.
  - intros k' Hk' _. by apply HQ.
Qed.

(** ** Transfer of handles *)

Lemma wp_update_inplace args : forall B held target source k
    (Q : result unit * list IpcData -> kernel -> Prop),
  4 * zlen args <= B -> kinv B held k ->
  (forall r args' k', length args' = length args -> kinv (B - 4 * zlen args) held k' ->
     Q (r, args') k') ->
  wp (update_inplace_message args target source) k Q.
Proof.
  induction args as [|d args IH]; intros B held target source k Q HB Hk HQ;
    cbn [update_inplace_message].
  { ksteps. apply HQ; [done|]. kfin. }
  cbn [length] in HB.
  assert (forall d' k', kinv (B - 4) held k' ->
    wp ('(r, rest) ← update_inplace_message args target source; mret (r, d' :: rest)) k' Q) as Hrest.
  { intros d' k1 Hk1. kstep. eapply IH; [|exact Hk1|]; [lia|]. intros r args' k2 Hl Hk2. ksteps.
    apply HQ; [by simpl; f_equal|]. cbn [length]. kfin. }
  assert (forall (r : result unit) k', kinv (B - 4) held k' -> Q (r, d :: args) k') as Herr.
  { intros r k1 Hk1. apply HQ; [done|]. cbn [length]. kfin. }
  kstep; [|apply (Hrest d); kfin]. kstep.
  eapply wp_by_handle; [|exact Hk|]; [lia|]. intros [ap|e] k1 Hk1 _.
  2:{ kstep. apply Herr. kfin. }
  simpl in Hk1. kstep.
  assert (forall a c m k2, kinv (B - 4) (res_refs m ++ asset ap :: held) k2 ->
    wp (match m with
        | Error e => drop ap;; mret (Error e, d :: args)
        | Value v => drop v;; drop ap;;
            '(r, rest) ← update_inplace_message args target source;
            mret (r, mk_IpcData a c (_reserved_is_mapping d) (handle v) :: rest)
        end) k2 Q) as Hgo.
  { intros a c [v|e] k2 Hk2; simpl in Hk2.
    - do 4 kstep. apply Hrest. kfin.
    - ksteps. apply Herr. kfin. }
  destruct (copy_asset d).
  - eapply wp_asset_copy; [|exact Hk1|]; [lia|]. intros m k2 Hk2. apply Hgo. kfin.
  - eapply wp_asset_move; [|exact Hk1|]; [lia|]. intros m k2 Hk2. apply Hgo. kfin.
Qed.

Lemma wp_get_connection p k (Q : AssetRef * Z -> kernel -> Prop) :
  (forall c pt, has_content k p (IpcEndpointConnection c pt) -> Q (c, pt) k) ->
  wp (get_connection p) k Q.
Proof. intros HQ. apply wp_bind, wp_get_content. intros [] Hd; try done. by apply wp_ret, HQ. Qed.

Lemma set_arguments_wf m a : msg_wf m -> length a = length (arguments m) -> msg_wf (set_arguments m a).
Proof. intros (? & ? & ?) E. split; [by rewrite <- H, <- E|done]. Qed.

Lemma wp_send_prologue B held src conn pa k (Q : result AssetRef -> kernel -> Prop) :
  25 <= B -> kinv B held k ->
  (forall r k', kinv (B - 25) (res_refs r ++ held) k' -> Q r k') ->
  wp (send_prologue src conn pa) k Q.
Proof.
  intros HB Hk HQ. unfold send_prologue. kstep. apply wp_get_connection. intros c pt _. kstep.
  eapply wp_load_message; [exact Hk|]. intros m Hm. kstep.
  eapply wp_store_message; [exact Hk|done|]. intros k1 Hk1 _. kstep.
  apply wp_get_endpoint. intros e _. ksteps.
  eapply wp_load_message; [eassumption|]. intros m' Hm'. kstep.
  assert (zlen (arguments m') = 6) as Hl by (destruct Hm' as (-> & _); done).
  eapply wp_update_inplace; [|eassumption|]; [lia|]. intros r args k3 Hla Hk3. rewrite Hl in Hk3.
  kstep; kstep.
  - eapply wp_store_message; [eassumption|by apply set_arguments_wf; [|destruct Hm' as (-> & _)]|].
    intros k4 Hk4 _. ksteps. apply HQ. simpl. kfin.
  - eapply wp_store_message; [eassumption|by apply set_arguments_wf|].
    intros k4 Hk4 _. ksteps. apply HQ. simpl. kfin.
Qed.

Lemma wp_wake_server B held e k (Q : unit -> kernel -> Prop) :
  0 <= B -> kinv B held k -> (forall k', kinv B held k' -> Q tt k') -> wp (wake_server e) k Q.
Proof.
  intros HB Hk HQ. unfold wake_server. kstep; [by apply wp_ret, HQ|by eapply wp_unblock].
Qed.

(** ** Sending *)

Lemma has_content_same k k' p d : same_contents k k' -> has_content k p d -> has_content k' p d.
Proof. intros Hs. by apply (sc_contents _ _ Hs). Qed.

(** On success the reference to the target space is left on the stack. *)
Lemma wp_ipc_send B held src cal conn cur msg b k (Q : result AssetRef -> kernel -> Prop) :
  ipc_cost <= B -> kinv B held k ->
  (forall r k', kinv (B - ipc_cost) (res_refs r ++ held) k' -> Q r k') ->
  wp (ipc_send src cal conn cur msg b) k Q.
Proof.
  unfold ipc_cost. intros HB Hk HQ. unfold ipc_send. kstep. apply wp_message_at. intros pa. kstep.
  eapply wp_send_prologue; [|exact Hk|]; [lia|]. intros [ts|e] k1 Hk1; simpl in Hk1.
  2:{ ksteps. apply HQ. simpl. kfin. }
  kstep. apply wp_get_connection. intros c pt _. kstep. kstep. kstep.
  apply wp_get_task. intros t _. kstep. apply wp_get_space. intros s _. kstep. kstep. kstep.
  apply wp_get_phys. intros phys. kstep.
  2:{ ksteps. apply HQ. simpl. kfin. }
  kstep. apply wp_get_endpoint. intros e He. kstep. kstep.
  match goal with S : same_contents _ ?k2 |- wp _ ?k2 _ => apply (has_content_same _ _ _ _ S) in He end.
  match goal with H : kinv _ (asset cal :: _) _ |- _ => rename H into Hk2 end.
  kstep. apply wp_lift. eapply ends_impl; [apply push_sync_ends; by eapply kinv_ewf|].
  intros e' [Hwf' Hc]. kstep.
  eapply (wp_set_endpoint _ (asset ts :: held) [asset cal]); [|exact Hk2|exact He|apply Hwf'..| |]; [lia| |].
  { intros q _. unfold erefs in Hc. rewrite Hc. simpl. lia. }
  intros k3 Hk3 _. kstep. eapply wp_block; [|exact Hk3|]; [lia|]. intros k4 Hk4. kstep.
  eapply wp_wake_server; [|exact Hk4|]; [lia|]. intros k5 Hk5. ksteps. apply HQ. simpl. kfin.
Qed.

Lemma wp_ipc_send_resume B held ts k (Q : result unit -> kernel -> Prop) :
  0 <= B -> kinv B (asset ts :: held) k -> (forall r k', kinv B held k' -> Q r k') ->
  wp (ipc_send_resume ts) k Q.
Proof. intros HB Hk HQ. unfold ipc_send_resume. ksteps. apply HQ. kfin. Qed.

Lemma wp_ipc_send_async B held src conn cur msg k (Q : result unit -> kernel -> Prop) :
  ipc_cost <= B -> kinv B held k ->
  (forall r k', kinv (B - ipc_cost) held k' -> Q r k') ->
  wp (ipc_send_async src conn cur msg) k Q.
Proof.
  unfold ipc_cost. intros HB Hk HQ. unfold ipc_send_async. kstep. apply wp_message_at.
  intros pa. kstep.
  eapply wp_send_prologue; [|exact Hk|]; [lia|]. intros [ts|e] k1 Hk1; simpl in Hk1.
  2:{ ksteps. apply HQ. kfin. }
  kstep. apply wp_get_connection. intros c pt _. kstep. kstep. kstep.
  apply wp_get_endpoint. intros e He. kstep.
  eapply wp_load_message; [eassumption|]. intros m Hm. kstep. apply wp_lift.
  eapply ends_impl; [apply assign_message_ends; [apply stack_message_wf|exact Hm]|]. intros m' Hm'.
  kstep. apply wp_lift.
  eapply ends_impl; [apply push_async_ends; [by eapply kinv_ewf|exact Hm']|].
  intros e' [Hwf' Hs]. kstep.
  eapply wp_same_endpoint; [|eassumption|exact He|exact Hwf'|exact Hs|]; [lia|]. intros k3 Hk3. kstep.
  eapply wp_wake_server; [|exact Hk3|]; [lia|]. intros k5 Hk5. ksteps. apply HQ. kfin.
Qed.

(** ** Receiving *)

Lemma wp_assign_awaiting B held p r k (Q : unit -> kernel -> Prop) :
  1 <= B -> kinv B held k -> (forall k', kinv (B - 1) held k' -> Q tt k') ->
  wp (assign_awaiting p r) k Q.
Proof.
  intros HB Hk HQ. unfold assign_awaiting. kstep. apply wp_get_endpoint. intros e He.
  pose proof (kinv_ewf _ _ _ _ _ Hk He) as Hwf. kstep.
  eapply (wp_move_endpoint _ _ [asset (awaiting_server e)]); [|exact Hk|exact He|exact Hwf| |]; [lia| |].
  { intros q Hq. unfold erefs. held_solve. }
  intros k1 Hk1 _. simpl in Hk1. ksteps. apply wp_get_endpoint. intros e2 He2.
  match goal with H : kinv _ (asset r :: _) _ |- _ => rename H into Hk2 end.
  pose proof (kinv_ewf _ _ _ _ _ Hk2 He2) as Hwf2.
  eapply (wp_set_endpoint _ held [asset r]); [|exact Hk2|exact He2|apply Hwf2..| |]; [lia| |].
  { intros q _. held_solve. }
  intros k3 Hk3 _. by apply HQ.
Qed.

Lemma wp_ipc_receive B held cal ep k (Q : unit -> kernel -> Prop) :
  1 <= B -> kinv B held k -> (forall k', kinv (B - 1) held k' -> Q tt k') ->
  wp (ipc_receive cal ep) k Q.
Proof.
  intros HB Hk HQ. unfold ipc_receive. ksteps.
  eapply wp_assign_awaiting; [|eassumption|]; [lia|]. intros k1 Hk1. ksteps. apply HQ. kfin.
Qed.

Lemma wp_has_message B held p k (Q : bool -> kernel -> Prop) :
  0 <= B -> kinv B held k -> (forall b k', kinv B held k' -> Q b k') -> wp (has_message p) k Q.
Proof.
  intros HB Hk HQ. unfold has_message. ksteps. apply wp_get_endpoint. intros e _. ksteps.
  apply HQ. kfin.
Qed.

Lemma wp_ipc_receive_poll B held cal ep k (Q : bool -> kernel -> Prop) :
  0 <= B -> kinv B held k -> (forall b k', kinv B held k' -> Q b k') ->
  wp (ipc_receive_poll cal ep) k Q.
Proof.
  intros HB Hk HQ. unfold ipc_receive_poll. kstep.
  eapply wp_has_message; [|exact Hk|]; [lia|]. intros b k1 Hk1. kstep.
  apply wp_get_task. intros t _. ksteps; [apply HQ; kfin|].
  eapply wp_block; [|eassumption|]; [lia|]. intros k3 Hk3. ksteps. apply HQ. kfin.
Qed.

Lemma wp_deliver_sync B held sp target x k (Q : result Z -> kernel -> Prop) :
  create_cost <= B -> kinv B held k ->
  (forall r k', kinv (B - create_cost) held k' -> Q r k') ->
  wp (deliver_sync sp target x) k Q.
Proof.
  unfold create_cost. intros HB Hk HQ. unfold deliver_sync. kstep.
  eapply wp_load_message; [exact Hk|]. intros m Hm. kstep.
  eapply wp_deliver; [exact Hk|exact Hm|]. intros k1 Hk1 _. kstep; kstep.
  - eapply wp_create_return_task; [|exact Hk1|]; [unfold create_cost; lia|].
    intros ptr k2 Hk2 Hc. unfold create_cost in Hk2. kstep.
    eapply (wp_set_content _ _ _ _ _ _ (IpcMessageReturnTask (callee x) (kernel_mem_msg x)));
      [|exact Hk2|exact Hc|done|..]; [split; [|apply Z.le_refl]; lia|intros q _; apply Z.le_refl|].
    intros k3 Hk3 _ _. ksteps. apply HQ. kfin.
  - eapply wp_unblock; [|exact Hk1|]; [lia|]. intros k2 Hk2. ksteps. apply HQ. kfin.
Qed.

(** What both receivers do with the message they have taken. *)
Lemma wp_receive_taken B held sp ep target (take : IpcEndpoint -> ctl (result received * IpcEndpoint))
    k (Q : result Z -> kernel -> Prop) :
  (forall e, endpoint_wf e -> takes e (take e)) ->
  create_cost <= B -> kinv B held k ->
  (forall r k', kinv (B - create_cost) held k' -> Q r k') ->
  wp (e ← get_endpoint (asset ep);
      '(r, e) ← lift (take e);
      set_endpoint (asset ep) e;;
      match r with
      | Error m => unlock_ref ep;; mret (Error m)
      | Value (GotAsync x) => deliver target (target_msg x);; unlock_ref ep;; mret (Value invalid)
      | Value (GotSync x) =>
          ktry (deliver_sync sp target x) (fun h =>
          unlock_ref ep;;
          drop (callee x);;
          mret (Value h))
      end) k Q.
Proof.
  unfold create_cost. intros Htake HB Hk HQ. kstep. apply wp_get_endpoint. intros e He. kstep.
  apply wp_lift. eapply ends_impl; [apply Htake; by eapply kinv_ewf|].
  intros [r e'] (Hwf & Hgot & Hc). kstep.
  eapply (wp_move_endpoint _ _ (got_refs r)); [|exact Hk|exact He|exact Hwf| |]; [lia| |].
  { intros q _. rewrite Hc. lia. }
  intros k1 Hk1 _. destruct r as [[x|x]|m]; simpl in Hk1.
  - kstep. eapply wp_deliver; [exact Hk1|exact Hgot|]. intros k2 Hk2 _. ksteps. apply HQ. kfin.
  - kstep. eapply wp_deliver_sync; [|exact Hk1|]; [unfold create_cost; lia|].
    intros [h|m] k2 Hk2; unfold create_cost in Hk2; ksteps; apply HQ; kfin.
  - ksteps. apply HQ. kfin.
Qed.

Lemma set_handle_ends b i v m : msg_wf m -> ends msg_wf (IpcTypes.set_handle b i v m).
Proof.
  intros Hm. unfold IpcTypes.set_handle. destruct (aget (arguments m) i); simpl; [|done].
  destruct (aset _ _ _) as [a|] eqn:E; simpl; [|done]. apply aset_length in E.
  by apply set_arguments_wf.
Qed.

Lemma wp_ipc_receive_finish B held sp cal ep cur target k (Q : result Z -> kernel -> Prop) :
  ipc_cost <= B -> kinv B held k ->
  (forall r k', kinv (B - ipc_cost) held k' -> Q r k') ->
  wp (ipc_receive_finish sp cal ep cur target) k Q.
Proof.
  unfold ipc_cost. intros HB Hk HQ. unfold ipc_receive_finish. kstep. kstep. kstep.
  apply wp_get_endpoint. intros e He. cbv zeta.
  match goal with H : kinv _ _ ?k1 |- wp _ ?k1 _ => rename H into Hk1 end.
  pose proof (kinv_ewf _ _ _ _ _ Hk1 He) as Hwf. kstep.
  eapply (wp_move_endpoint _ _ [asset (awaiting_server e)]); [|exact Hk1|exact He|exact Hwf| |]; [lia| |].
  { intros q Hq. unfold erefs. held_solve. }
  intros k2 Hk2 _. simpl in Hk2. kstep. kstep. kstep. apply wp_get_task. intros t _. kstep.
  apply wp_message_at. intros pa. kstep.
  - kstep. eapply wp_set_plain; [|eassumption|done|done|]; [lia|]. intros k3 Hk3. kstep.
    eapply wp_deliver; [exact Hk3|apply stack_message_wf|]. intros k4 Hk4 _. kstep.
    eapply wp_load_message; [exact Hk4|]. intros m Hm. kstep. apply wp_lift.
    eapply ends_impl; [apply set_handle_ends|].
    { destruct Hm as (? & ? & ?). by split. }
    intros m' Hm'. kstep. eapply wp_store_message; [exact Hk4|exact Hm'|]. intros k5 Hk5 _. ksteps.
    apply HQ. kfin.
  - eapply wp_receive_taken; [apply take_message_ends| |eassumption|].
    + unfold create_cost. lia.
    + intros r k4 Hk4. apply HQ. unfold create_cost in Hk4. kfin.
Qed.

Lemma wp_ipc_receive_async B held sp ep cur target k (Q : result Z -> kernel -> Prop) :
  ipc_cost <= B -> kinv B held k ->
  (forall r k', kinv (B - ipc_cost) held k' -> Q r k') ->
  wp (ipc_receive_async sp ep cur target) k Q.
Proof.
  unfold ipc_cost. intros HB Hk HQ. unfold ipc_receive_async. kstep.
  eapply wp_has_message; [|exact Hk|]; [lia|]. intros b k1 Hk1. kstep. apply wp_message_at.
  intros pa. kstep.
  - kstep. eapply wp_load_message; [exact Hk1|]. intros m Hm. kstep.
    eapply wp_store_message; [exact Hk1|by destruct Hm as (? & ? & ?); split|].
    intros k2 Hk2 _. ksteps. apply HQ. kfin.
  - kstep. kstep. eapply wp_receive_taken; [apply take_message_async_ends| |eassumption|].
    + unfold create_cost. lia.
    + intros r k4 Hk4. apply HQ. unfold create_cost in Hk4. kfin.
Qed.

(** ** Reply *)

Lemma wp_get_return_task p k (Q : AssetRef * Z -> kernel -> Prop) :
  (forall c pt, has_content k p (IpcMessageReturnTask c pt) -> Q (c, pt) k) ->
  wp (get_return_task p) k Q.
Proof. intros HQ. apply wp_bind, wp_get_content. intros [] Hd; try done. by apply wp_ret, HQ. Qed.

Lemma wp_ipc_reply B held sp rt cur target k (Q : result unit -> kernel -> Prop) :
  ipc_cost <= B -> kinv B held k ->
  (forall r k', kinv (B - ipc_cost) held k' -> Q r k') ->
  wp (ipc_reply sp rt cur target) k Q.
Proof.
  unfold ipc_cost. intros HB Hk HQ. unfold ipc_reply. kstep. apply wp_get_return_task.
  intros tk fm _. kstep. apply wp_get_task. intros t _. kstep. kstep. kstep.
  apply wp_message_at. intros pa. kstep. eapply wp_load_message; [eassumption|]. intros m Hm. kstep.
  assert (zlen (arguments m) = 6) as Hl by (destruct Hm as (-> & _); done).
  eapply wp_update_inplace; [|eassumption|]; [lia|]. intros r args k3 Hla Hk3. rewrite Hl in Hk3.
  kstep. eapply wp_store_message; [exact Hk3|by apply set_arguments_wf|]. intros k4 Hk4 _. kstep.
  - ksteps. apply HQ. kfin.
  - kstep. eapply wp_load_message; [exact Hk4|]. intros m' Hm'. kstep.
    eapply wp_deliver; [exact Hk4|exact Hm'|]. intros k5 Hk5 _. kstep.
    eapply wp_unblock; [|exact Hk5|]; [lia|]. intros k6 Hk6. kstep.
    eapply wp_asset_release; [|exact Hk6|]; [lia|]. intros k7 Hk7. ksteps. apply HQ. kfin.
Qed.

(** ** Signals *)

Lemma wp_get_signal p k (Q : Z * list Waiter -> kernel -> Prop) :
  (forall c l, has_content k p (SignalEndpoint c l) -> Q (c, l) k) -> wp (get_signal p) k Q.
Proof. intros HQ. apply wp_bind, wp_get_content. intros [] Hd; try done. by apply wp_ret, HQ. Qed.

Definition wrefs (l : list Waiter) : list Z :=
  asset <$> concat ((fun w => [attachement w; w_task w]) <$> l).

Lemma wrefs_delete l i w q :
  l !! i = Some w ->
  zcount q (wrefs l) =
    zcount q [asset (attachement w); asset (w_task w)] + zcount q (wrefs (delete i l)).
Proof.
  intros Hi. unfold wrefs. rewrite (zcount_perm q _ (asset <$> concat ((fun w => [attachement w; w_task w])
    <$> w :: delete i l))).
  - rewrite fmap_cons. cbn [concat]. rewrite fmap_app, zcount_app. done.
  - by rewrite (delete_Permutation l i w Hi) at 1.
Qed.

(** Only the contents of tasks change. *)
Definition tasks_only (k k' : kernel) : Prop :=
  forall q d, kind d <> OBJECT_KIND_TASK -> has_content k' q d <-> has_content k q d.

Lemma wp_update_task B held p t t' k (Q : unit -> kernel -> Prop) :
  0 <= B -> kinv B held k -> has_content k p (AssetTask t) ->
  (forall k', kinv B held k' -> tasks_only k k' -> Q tt k') -> wp (set_task p t') k Q.
Proof.
  intros HB Hk Ht HQ. eapply (wp_set_content B B held held); [lia|exact Hk|exact Ht|done|done|].
  intros k' Hk' Hc Ho. apply HQ; [done|]. intros q d Hd. destruct (decide (q = p)) as [->|].
  - split; intros H; exfalso; apply Hd; [by rewrite (has_content_fun _ _ _ _ H Hc)|
      by rewrite (has_content_fun _ _ _ _ H Ht)].
  - by apply Ho.
Qed.

Lemma tasks_only_trans k1 k2 k3 : tasks_only k1 k2 -> tasks_only k2 k3 -> tasks_only k1 k3.
Proof. intros A B q d Hd. by rewrite (B q d Hd), (A q d Hd). Qed.

Lemma shrinks_back l k k' p d : shrinks l k k' -> has_content k' p d -> has_content k p d.
Proof.
  intros Hs (a' & Ha' & <-). destruct (sh_survivors _ _ _ Hs p a' Ha') as (a & Ha & -> & _).
  by exists a.
Qed.

(** A waiter that has been served leaves the endpoint. *)
Lemma wp_remove_waiter B held p c l i w k (Q : unit -> kernel -> Prop) (f : K unit) :
  0 <= B -> kinv B held k -> has_content k p (SignalEndpoint c l) -> l !! i = Some w ->
  (forall k', kinv B held k' ->
     (forall c' l', has_content k' p (SignalEndpoint c' l') -> c' = c /\ l' = delete i l) ->
     wp f k' Q) ->
  wp (set_content p (SignalEndpoint c (delete i l));; drop (attachement w);; drop (w_task w);; f) k Q.
Proof.
  intros HB Hk Hc Hi HQ. kstep.
  eapply (wp_set_content B B held (asset (attachement w) :: asset (w_task w) :: held));
    [lia|exact Hk|exact Hc|done| |].
  { intros q _. cbn [fields]. fold (wrefs l) (wrefs (delete i l)).
    rewrite (wrefs_delete l i w q Hi). simpl. lia. }
  intros k1 Hk1 Hc1 _. do 4 kstep. apply HQ; [kfin|].
  match goal with S1 : shrinks _ k1 ?k2, S2 : shrinks _ ?k2 ?k3 |- context [has_content ?k3 _ _] =>
    intros c' l' H3; pose proof (shrinks_back _ _ _ _ _ S1 (shrinks_back _ _ _ _ _ S2 H3)) as H4 end.
  by injection (has_content_fun _ _ _ _ H4 Hc1) as -> ->.
Qed.

Lemma wp_trigger_loop n : forall B held p i k (Q : unit -> kernel -> Prop),
  0 <= B -> 0 <= i -> (0 < n)%nat -> kinv B held k ->
  (forall c l, has_content k p (SignalEndpoint c l) -> zlen l - i < Z.of_nat n) ->
  (forall k', kinv B held k' -> Q tt k') -> wp (trigger_loop n p i) k Q.
Proof.
  induction n as [|n IH]; intros B held p i k Q HB Hi Hn Hk Hfuel HQ; [lia|]. cbn [trigger_loop].
  kstep. apply wp_get_signal. intros c l Hc. specialize (Hfuel c l Hc).
  destruct (aget l i) as [elt|] eqn:Helt; [|ksteps; by apply HQ].
  pose proof (aget_Some_range _ _ _ Helt). rewrite aget_lookup in Helt by lia.
  assert (forall k1, kinv B held k1 -> has_content k1 p (SignalEndpoint c l) ->
    wp (trigger_loop n p (i + 1)) k1 Q) as Hnext.
  { intros k1 Hk1 Hs1. eapply IH; [exact HB|lia|lia|exact Hk1| |exact HQ].
    intros c1 l1 Hc1. injection (has_content_fun _ _ _ _ Hs1 Hc1) as -> ->. lia. }
  kstep; [by apply Hnext|]. kstep. apply wp_get_task. intros t Ht. kstep.
  eapply wp_update_task; [exact HB|exact Hk|exact Ht|]. intros k1 Hk1 Hs1. kstep.
  apply wp_bind, wp_get_task. intros t1 Ht1.
  eapply wp_update_task; [exact HB|exact Hk1|exact Ht1|]. intros k2 Hk2 Hs2.
  assert (has_content k2 p (SignalEndpoint c l)) as Hc2
    by (apply Hs2; [done|]; apply Hs1; done).
  destruct (w_kind elt); [by apply Hnext|].
  eapply wp_remove_waiter; [exact HB|exact Hk2|exact Hc2|exact Helt|]. intros k3 Hk3 Hc3.
  eapply IH; [exact HB|exact Hi|lia|exact Hk3| |exact HQ]. intros c' l' [-> ->]%Hc3.
  rewrite length_delete by eauto. lia.
Qed.

Lemma wp_signal_trigger B held ep k (Q : unit -> kernel -> Prop) :
  0 <= B -> kinv B held k -> (forall k', kinv B held k' -> Q tt k') -> wp (signal_trigger ep) k Q.
Proof.
  intros HB Hk HQ. unfold signal_trigger, counter_increment. kstep. kstep. apply wp_get_signal.
  intros c l Hc. eapply (wp_set_content B B held held); [lia|exact Hk|exact Hc|done|done|].
  intros k1 Hk1 Hc1 _. kstep. apply wp_get_signal. intros c2 l2 Hc2.
  destruct l2 as [|w l2]; [ksteps; by apply HQ|]. kstep. kstep.
  match goal with S : same_contents k1 _ |- _ => rename S into Hs end. kstep.
  eapply wp_trigger_loop; [exact HB|done| |eassumption| |].
  - simpl. lia.
  - intros c3 l3 Hc3%(sc_contents _ _ Hs). injection (has_content_fun _ _ _ _ Hc2 Hc3) as -> <-.
    simpl. lia.
  - intros k3 Hk3. ksteps. by apply HQ.
Qed.

Lemma wp_signal_await B held ep task b host k (Q : result (AssetRef * Z) -> kernel -> Prop) :
  ipc_cost <= B -> kinv B held k ->
  (forall att w k', kinv (B - ipc_cost) (asset att :: held) k' -> Q (Value (att, w)) k') ->
  wp (signal_await ep task b host) k Q.
Proof.
  unfold ipc_cost. intros HB Hk HQ. unfold signal_await. kstep.
  eapply wp_create_attached_signal; [|exact Hk|]; [unfold create_cost; lia|].
  intros att k1 Hk1. unfold create_cost in Hk1. ksteps. apply wp_get_signal. intros c l Hc. ksteps.
  match goal with H : kinv _ (asset att :: asset task :: _) _ |- _ => rename H into Hk2 end.
  eapply (wp_set_content _ _ _ (asset att :: held)); [|exact Hk2|exact Hc|done| |].
  - split; [|apply Z.le_refl]. lia.
  - intros q _. cbn [fields]. rewrite fmap_app, concat_app, fmap_app, zcount_app.
    cbn -[zcount]. held_solve.
  - intros k3 Hk3 _ _. ksteps. apply HQ. kfin.
Qed.

Lemma wp_signal_await_poll B held ep task w k (Q : bool -> kernel -> Prop) :
  0 <= B -> kinv B held k -> (forall b k', kinv B held k' -> Q b k') ->
  wp (signal_await_poll ep task w) k Q.
Proof.
  intros HB Hk HQ. unfold signal_await_poll. kstep. apply wp_get_signal. intros c l _.
  kstep; [|ksteps; apply HQ; kfin]. ksteps. eapply wp_block; [|eassumption|]; [lia|].
  intros k1 Hk1. ksteps. apply HQ. kfin.
Qed.

Lemma wp_signal_await_finish B held host att k (Q : result AssetRef -> kernel -> Prop) :
  0 <= B -> kinv B (asset att :: held) k -> (forall e k', kinv B held k' -> Q (Error e) k') ->
  wp (signal_await_finish host att) k Q.
Proof.
  intros HB Hk HQ. unfold signal_await_finish. kstep.
  eapply wp_asset_release; [|exact Hk|]; [lia|]. intros k1 Hk1. ksteps. apply HQ. kfin.
Qed.

Lemma wp_detach B held this k (Q : unit -> kernel -> Prop) :
  0 <= B -> kinv B held k -> (forall k', kinv B held k' -> Q tt k') -> wp (detach this) k Q.
Proof.
  intros HB Hk HQ. unfold detach. kstep. kstep. kstep; try done. kstep. kstep. kstep.
  apply wp_get_signal. intros c l Hc. cbv zeta.
  destruct (l !! _) as [w|] eqn:Hw; [|done]. kstep.
  match goal with H : kinv B held ?k1, H' : has_content ?k1 _ (SignalEndpoint c l) |- _ =>
    rename H into Hk1 end.
  eapply (wp_set_content B B held (asset (attachement w) :: asset (w_task w) :: held));
    [lia|exact Hk1|exact Hc|done| |].
  { intros q _. cbn [fields]. fold (wrefs l). 
    match goal with |- context [delete ?i l] => fold (wrefs (delete i l)) end.
    rewrite (wrefs_delete l _ w q Hw). simpl. lia. }
  intros k2 Hk2 _ _. ksteps. apply HQ. kfin.
Qed.
End ipc.
