(* ===== verification/KernelSafety.v ===== *)
(** The safety of the kernel core: a run of its operations, in any order and
    with any arguments, never leaves a counted reference to an object that has
    been deleted, and none of its operations loops. *)

From stdpp Require Import gmap relations.
From S2P Require Import Prelude Range UMap.
From S2P Require Pmm Ring.
From S2P Require Import IpcTypes KObject IpcRegistry Space Ipc Signal.
From S2P Require Import Sample KObjectSpec SpaceSpec SpaceCreateSpec IpcInv.

Section safety.
Context `{M : Machine}.

(** * Frames: what a routine leaves as it was *)

Definition frames {A} (R : kernel -> kernel -> Prop) (m : K A) : Prop :=
  forall k, match m k with Ret (_, k') => R k k' | _ => True end.

Lemma wp_frames {A} R (m : K A) k (P Q : A -> kernel -> Prop) :
  frames R m -> wp m k P -> (forall a k', P a k' -> R k k' -> Q a k') -> wp m k Q.
Proof.
  intros Hf Hp HQ. specialize (Hf k). unfold wp in *. destruct (m k) as [[a k']| |]; simpl in *; auto.
Qed.

Lemma wp_and {A} (m : K A) k (P P' Q : A -> kernel -> Prop) :
  wp m k P -> wp m k P' -> (forall a k', P a k' -> P' a k' -> Q a k') -> wp m k Q.
Proof. unfold wp. destruct (m k) as [[a k']| |]; simpl; auto. Qed.

Section frames.
Context (R : kernel -> kernel -> Prop) `{!PreOrder R}.

Lemma frames_ret {A} (a : A) : frames R (mret a).
Proof. intros k. simpl. done. Qed.

Lemma frames_bind {A B} (m : K A) (f : A -> K B) :
  frames R m -> (forall a, frames R (f a)) -> frames R (m ≫= f).
Proof.
  intros Hm Hf k. rewrite K_bind_eq. specialize (Hm k). destruct (m k) as [[a k']| |]; try done.
  specialize (Hf a k'). destruct (f a k') as [[b k2]| |]; try done. by trans k'.
Qed.

Lemma frames_gets {A} (f : kernel -> A) : frames R (gets f).
Proof. intros k. simpl. done. Qed.

Lemma frames_lift {A} (c : ctl A) : frames R (lift c).
Proof. intros k. unfold lift. by destruct c. Qed.

Lemma frames_trap {A} : frames R (trap : K A).
Proof. done. Qed.

Lemma frames_modify f : (forall k, R k (f k)) -> frames R (modify f).
Proof. intros H k. apply H. Qed.

Lemma frames_for_each {A} (f : A -> K unit) l : (forall x, frames R (f x)) -> frames R (for_each f l).
Proof. intros H. induction l; simpl; [apply frames_ret|by apply frames_bind]. Qed.
End frames.

Ltac frame_step :=
  intros; lazymatch goal with
  | |- frames _ (_ ≫= _) => apply frames_bind
  | |- frames _ (mret _) => apply frames_ret
  | |- frames _ (gets _) => apply frames_gets
  | |- frames _ (lift _) => apply frames_lift
  | |- frames _ trap => apply frames_trap
  | |- frames _ (modify _) => apply frames_modify
  | |- frames _ (for_each _ _) => apply frames_for_each
  | |- frames _ (match ?r with _ => _ end) => destruct r
  end; try typeclasses eauto.

(** The table of internal signals. *)
Definition same_signals (k k' : kernel) : Prop :=
  _internal_signal_map k' = _internal_signal_map k.

#[local] Instance same_signals_preorder : PreOrder same_signals.
Proof. split; unfold same_signals; [done|intros k1 k2 k3; congruence]. Qed.

Lemma create_signal_endpoint_frames this : frames same_signals (create_signal_endpoint this).
Proof.
  unfold create_signal_endpoint, ktry, allocate_asset, add_asset, finish, new_asset, make_ref,
    copy_ref, own, assets_insert, next_handle, lock_asset, unlock_asset, set_space, set_content,
    get_space, get_content, get_asset, set_asset.
  repeat frame_step; done.
Qed.

(** The count of an object. *)
Definition counts (k : kernel) (p n : Z) : Prop :=
  exists a, heap k !! p = Some a /\ ref_count a = n.

Definition same_counts (k k' : kernel) : Prop := forall p n, counts k p n -> counts k' p n.

#[local] Instance same_counts_preorder : PreOrder same_counts.
Proof.
  split; [by intros k p n|]. intros k1 k2 k3 H1 H2 p n H. by apply H2, H1.
Qed.

Lemma counts_insert k p a a' n :
  heap k !! p = Some a -> forall q, counts k q n ->
  counts (with_heap <[p := a']> k) q (if decide (q = p) then ref_count a' + (n - ref_count a) else n).
Proof.
  intros Ha q (b & Hb & Hn). case_decide as Hq; [subst q|].
  - exists a'. simpl. rewrite lookup_insert_eq. assert (b = a) as -> by congruence. split; [done|lia].
  - exists b. simpl. by rewrite lookup_insert_ne.
Qed.

Lemma set_content_frames p d : frames same_counts (set_content p d).
Proof.
  intros k. unfold set_content, get_asset. rewrite !K_bind_eq. cbn.
  destruct (heap k !! p) as [a|] eqn:Ha; [|done]. cbn. intros q n Hq.
  pose proof (counts_insert k p a (mk_Asset (lock a) (ref_count a) d) n Ha q Hq) as H.
  revert H. case_decide; simpl; [|done]. replace (_ + (_ - _)) with n by lia. done.
Qed.

Lemma assets_insert_frames this h r : frames same_counts (assets_insert this h r).
Proof.
  unfold assets_insert, get_space, get_content, get_asset. repeat frame_step.
  intros. apply set_content_frames.
Qed.

Lemma own_frames p k n :
  counts k p n -> p <> nullptr -> wp (own p) k (fun _ k' => counts k' p (u64 (n + 1))).
Proof.
  intros (a & Ha & Hn) Hp. unfold own. rewrite (proj2 (Z.eqb_neq _ _) Hp).
  apply wp_bind, wp_get_asset. intros b Hb. assert (b = a) as -> by congruence.
  apply wp_set_asset. eexists. simpl. rewrite lookup_insert_eq. split; [done|]. simpl. by rewrite Hn.
Qed.

(** * Start-up *)

Lemma table_refs_insert m T i r :
  umap_rep m T -> T !! i = None ->
  exists m', UMap.insert ndebug i r m = Ret m' /\ umap_rep m' (<[i := r]> T) /\
    forall q, zcount q (table_refs m') = zcount q (asset r :: table_refs m).
Proof.
  intros Hm Hi. destruct (umap_insert_rep ndebug i r m T Hm (or_intror Hi)) as (m' & Hins & Hm').
  exists m'. split; [done|]. split; [done|]. intros q. unfold table_refs. rewrite <- fmap_cons.
  apply zcount_perm. change (asset r :: ?l) with (asset <$> (r :: l)).
  rewrite (umap_rep_perm _ _ Hm), (umap_rep_perm _ _ Hm'). by rewrite map_to_list_insert.
Qed.

Definition signals_below (i : Z) (k : kernel) : Prop :=
  exists T, umap_rep (_internal_signal_map k) T /\ forall j, i <= j -> T !! j = None.

Lemma wp_register_loop n : forall B held root i k (Q : result unit -> kernel -> Prop),
  create_cost * Z.of_nat n <= B -> kinv B held k -> signals_below i k ->
  (forall r k', kinv (B - create_cost * Z.of_nat n) held k' -> Q r k') ->
  wp (register_loop root i n) k Q.
Proof.
  unfold create_cost. induction n as [|n IH]; intros B held root i k Q HB Hk Hs HQ.
  { apply wp_ret, HQ. kfin. }
  cbn [register_loop]. apply wp_bind.
  eapply (wp_frames _ _ _ (fun r k1 => exists ptr, r = Value ptr /\
            kinv (B - create_cost) (asset ptr :: held) k1));
    [apply create_signal_endpoint_frames| |].
  { eapply wp_create_signal_endpoint; [|exact Hk|]; [unfold create_cost; lia|]. eauto. }
  unfold create_cost. intros r k1 (ptr & -> & Hk1) Hsame. destruct Hs as (T & HT & Hfree).
  rewrite <- Hsame in HT.
  destruct (table_refs_insert _ T i ptr HT (Hfree i (Z.le_refl i))) as (m & Hm & Hrep & Hcnt).
  kstep. kstep. kstep. rewrite Hm. apply wp_lift. cbn [ends]. kstep.
  apply wp_modify. eapply IH.
  - instantiate (1 := B - 8). lia.
  - eapply (kinv_tables _ _ _ held); [exact Hk1|lia|done| |by eexists|..].
    + intros q _. cbn [global_refs]. unfold global_refs. simpl. rewrite !zcount_app, Hcnt.
      simpl. rewrite ?zcount_app. lia.
    + pose proof (kinv_ids _ _ _ Hk1). simpl. lia.
    + apply Hk1.
    + apply Hk1.
  - exists (<[i := ptr]> T). split; [done|]. intros j Hj. rewrite lookup_insert_ne by lia. apply Hfree. lia.
  - intros r k2 Hk2. apply HQ. kfin.
Qed.

Lemma wp_signal_register B held root k (Q : result unit -> kernel -> Prop) :
  create_cost * 32 <= B -> kinv B held k -> _internal_signal_map k = UMap.empty ->
  (forall r k', kinv (B - create_cost * 32) held k' -> Q r k') ->
  wp (internal_signal_register root) k Q.
Proof.
  intros HB Hk He HQ. eapply wp_register_loop; [exact HB|exact Hk| |exact HQ].
  exists ∅. rewrite He. split; [|done]. split; [by rewrite map_size_empty|by left].
Qed.

(** The root space is created with two references; its count is then set. *)
Definition root_count : Z := 99999.

Lemma kinv_set_count B held p a n k :
  0 <= B -> kinv B held k -> heap k !! p = Some a -> ref_count a <= n -> n + B < 2 ^ 64 ->
  kinv B held (with_heap <[p := mk_Asset (lock a) n (content a)]> k).
Proof.
  intros HB0 Hk Ha Hn HB. pose proof (kinv_obj _ _ _ Hk p a Ha) as (H0 & H1 & H2).
  apply (kinv_update B B held held k p a); try done; simpl; try lia.
  intros q _. unfold content_refs. simpl. case_decide; lia.
Qed.

(** A reference more to an object, under the invariant and with its count. *)
Lemma wp_own_counts B held p n k (Q : unit -> kernel -> Prop) :
  1 <= B -> kinv B held k -> counts k p n -> p <> nullptr ->
  (forall k', kinv (B - 1) (p :: held) k' -> same_contents k k' -> counts k' p (u64 (n + 1)) ->
     Q tt k') ->
  wp (own p) k Q.
Proof.
  intros HB Hk Hn Hp HQ.
  eapply (wp_and _ _ (fun _ k' => kinv (B - 1) (p :: held) k' /\ same_contents k k')).
  - eapply wp_own; [done|done|]. auto.
  - by apply own_frames.
  - intros [] k' [? ?] ?. by apply HQ.
Qed.

(** The root space just allocated, without its table. *)
Lemma wp_root_space B held k {A} (f : Z -> K A)
    (Q : A -> kernel -> Prop) :
  0 <= B -> B + 16 < 2 ^ 64 -> kinv B held k ->
  (forall p v k', p <> nullptr -> kinv B held k' -> counts k' p 0 ->
     has_content k' p (AssetSpace (mk_Space 0 16 v UMap.empty)) -> wp (f p) k' Q) ->
  wp (root_space ← new_asset (AssetSpace Space_init);
      vspace ← on_tables (vmm_create false);
      v ← lift (unwrap vspace);
      set_space root_space (mk_Space 0 16 v UMap.empty);; f root_space) k Q.
Proof.
  intros HB HB2 Hk HQ. kstep.
  eapply (wp_new_asset B held); [done|exact Hk| |lia|].
  { split; [exists ∅; apply empty_space_rep|]. simpl. lia. }
  intros p k1 Hp Hfresh E Hk1.
  assert (counts k1 p 0 /\ has_content k1 p (AssetSpace Space_init)) as [Hn1 Hc1].
  { subst k1. split; eexists; simpl; by rewrite lookup_insert_eq. }
  clear E. kstep. eapply wp_on_tables; [|exact Hk1|intros; by apply vmm_create_pmm|]; [done|].
  intros vs t pm Hk2. kstep. apply wp_lift. destruct vs as [v|]; [|done]. cbn [ends unwrap]. kstep.
  eapply (wp_frames _ _ _ (fun _ k3 => kinv B held k3 /\
            has_content k3 p (AssetSpace (mk_Space 0 16 v UMap.empty))));
    [apply set_content_frames| |].
  - eapply (wp_set_content B B held held); [lia|exact Hk2|exact Hc1| | |auto].
    + split; [exists ∅; apply empty_space_rep|]. simpl. lia.
    + intros. apply Z.le_refl.
  - intros [] k3 [Hk3 Hc3] Hn3. by apply (HQ p v); [| |apply Hn3|].
Qed.

Lemma wp_create_root B held k (Q : AssetRef -> kernel -> Prop) :
  create_cost <= B -> B + root_count < 2 ^ 64 -> kinv B held k ->
  (forall ptr k', kinv (B - create_cost) (asset ptr :: held) k' -> Q ptr k') ->
  wp create_root k Q.
Proof.
  unfold create_cost, root_count. intros HB HB2 Hk HQ. unfold create_root.
  eapply (wp_root_space B held); [lia|lia|exact Hk|].
  intros p v k1 Hp Hk1 Hn1 Hc1. unfold make_ref, copy_ref. kstep. kstep.
  eapply wp_own_counts; [|exact Hk1|exact Hn1|done|]; [lia|]. intros k2 Hk2 Hs2 Hn2. kstep. kstep.
  kstep. cbn [asset].
  eapply wp_own_counts; [|exact Hk2|exact Hn2|done|]; [lia|]. intros k3 Hk3 Hs3 Hn3. kstep. kstep.
  eapply (wp_frames _ _ _ (fun _ k4 => kinv (B - 1 - 1) (p :: held) k4));
    [apply assets_insert_frames| |].
  { eapply (wp_assets_insert _ (p :: held)); [|exact Hk3| |done|auto]; [lia|].
    eexists _, ∅. split; [apply Hs3, Hs2, Hc1|]. split; [apply empty_space_rep|]. split; [done|].
    unfold selfSpace, ASSET_HANDLE_ID_SELF_SPACE. simpl. lia. }
  intros [] k4 Hk4 Hf4. apply Hf4 in Hn3. kstep. apply wp_modify. kstep.
  assert (kinv (B - 1 - 1) (p :: held) (with_spaces (_spaces k4 ++ [(p, 0)]) (_space_id k4) k4)) as Hk5.
  { apply (kinv_same_tables _ _ k4); try done; [apply Hk4|lia]. }
  apply wp_get_asset. intros a Ha. kstep. apply wp_set_asset. kstep. apply HQ. cbn [asset].
  destruct Hn3 as (a' & Ha' & Hn). assert (a' = a) as -> by (simpl in Ha; congruence).
  apply (kinv_budget (B - 1 - 1)); [lia|]. apply kinv_set_count; [lia|done|done| |lia].
  rewrite Hn. done.
Qed.

Lemma wp_signal_interrupt_query B held i k (Q : AssetRef -> kernel -> Prop) :
  1 <= B -> kinv B held k ->
  (forall r k', kinv (B - 1) (asset r :: held) k' -> Q r k') ->
  wp (signal_interrupt_query i) k Q.
Proof.
  intros HB Hk HQ. pose proof (kinv_signals _ _ _ Hk) as [T HT]. unfold signal_interrupt_query.
  kstep. kstep. kstep. apply wp_lift. rewrite (has_rep _ _ _ HT). cbn [ends]. kstep.
  - kstep. eapply wp_at; [done|exact HT|]. intros r _. kstep. apply HQ. kfin.
  - kstep. apply HQ. apply (kinv_budget B); [lia|]. eapply kinv_ext; [|exact Hk].
    intros q Hq. simpl. by rewrite decide_False.
Qed.

Lemma wp_register_server B held h r k (Q : unit -> kernel -> Prop) :
  1 <= B -> kinv B held k -> (forall k', kinv (B - 1) held k' -> Q tt k') ->
  wp (register_server h r) k Q.
Proof.
  intros HB Hk HQ. unfold register_server. ksteps.
  eapply wp_push_server; [|eassumption|]; [lia|]. intros k1 Hk1 _. by apply HQ.
Qed.

Lemma wp_create_registered_server B held k (Q : Z -> kernel -> Prop) :
  0 <= B -> kinv B held k -> (forall h k', kinv B held k' -> Q h k') ->
  wp create_registered_server k Q.
Proof.
  intros HB Hk HQ. unfold create_registered_server. kstep.
  eapply wp_get_next; [|exact Hk|]; [lia|]. intros h k1 Hk1 _. kstep.
  eapply (wp_push_server _ held); [|eapply kinv_ext; [|exact Hk1]|]; [lia| |].
  - intros q Hq. simpl. by rewrite decide_False.
  - intros k2 Hk2 _. kstep. by apply HQ.
Qed.

Lemma wp_counter B held p k (Q : Z -> kernel -> Prop) :
  0 <= B -> kinv B held k -> (forall c k', kinv B held k' -> Q c k') -> wp (counter p) k Q.
Proof.
  intros HB Hk HQ. unfold counter. kstep. kstep. kstep. apply wp_get_signal. intros c l _.
  ksteps. apply HQ. kfin.
Qed.

(** * The operations of the kernel core *)

(** One constructor for each function the rest of the kernel calls, with its
    arguments, which are not constrained. *)
Inductive op :=
| OpCreateRoot
| OpSignalRegister (root : AssetRef)
| OpByHandle (this h : Z)
| OpByHandleAs (t : AssetKind) (this h : Z)
| OpByIndex (this i : Z)
| OpByFn (t : AssetKind) (this : Z) (fn : asset_data -> bool)
| OpAssetRelease (this : Z) (r : AssetRef)
| OpAssetReleaseByHandle (this h : Z)
| OpAssetMove (from to : Z) (r : AssetRef)
| OpAssetCopy (to : Z) (r : AssetRef)
| OpCreateMemory (this size addr : Z) (lower : bool)
| OpCreateMapping (this start end_ : Z) (mem : AssetRef) (w x : bool)
| OpCreateTask (this : Z) (user : bool) (context prepared : result unit) (stack : Range)
| OpCreateReturnTask (this : Z) (task : AssetRef)
| OpCreateSignalEndpoint (this : Z)
| OpCreateAttachedSignal (this : Z) (endpoint : AssetRef)
| OpCreateIpcEndpoint (this : Z) (publish is_root : bool)
| OpIpcConnect (space endpoint : AssetRef)
| OpCreateVm (this : Z)
| OpCreateVmMapping (this : Z) (mem : AssetRef)
| OpCreateSpace (this : Z)
| OpGlobalSpace (id : Z)
| OpRegisterServer (h : Z) (server : AssetRef)
| OpCreateRegisteredServer
| OpQueryServer (h : Z)
| OpUnregisterServer (h space_handle : Z)
| OpIpcSend (space callee connection : AssetRef) (current msg : Z) (is_call : bool)
| OpIpcSendResume (target_space : AssetRef)
| OpIpcSendAsync (space connection : AssetRef) (current msg : Z)
| OpIpcReceive (callee endpoint : AssetRef)
| OpIpcReceivePoll (callee endpoint : AssetRef)
| OpIpcReceiveFinish (space callee endpoint : AssetRef) (current target : Z)
| OpIpcReceiveAsync (space endpoint : AssetRef) (current target : Z)
| OpIpcReply (space return_task : AssetRef) (current target : Z)
| OpSignalTrigger (endpoint : AssetRef)
| OpSignalAwait (endpoint task : AssetRef) (async : bool) (host : AssetRef)
| OpSignalAwaitPoll (endpoint task : AssetRef) (wait_id : Z)
| OpSignalAwaitFinish (host attached : AssetRef)
| OpSignalCounter (p : Z)
| OpSignalQuery (id : Z)
| OpDetach (this : Z)
| OpMakeRef (p h : Z)
| OpCopyRef (r : AssetRef)
| OpDrop (r : AssetRef).

(** The references an operation hands to its caller. *)
Definition handing {A} (f : A -> list Z) (m : K A) : K (list Z) := a ← m; mret (f a).

Definition exec (o : op) : K (list Z) :=
  let nothing {A} := handing (fun _ : A => []) in
  let ref := handing (fun r => [asset r]) in
  let res := handing res_refs in
  match o with
  | OpCreateRoot => ref create_root
  | OpSignalRegister root => nothing (internal_signal_register root)
  | OpByHandle this h => res (by_handle this h)
  | OpByHandleAs t this h => res (by_handle_as t this h)
  | OpByIndex this i => res (by_index this i)
  | OpByFn t this fn => res (by_fn t this fn)
  | OpAssetRelease this r => nothing (asset_release this r)
  | OpAssetReleaseByHandle this h => nothing (asset_release_by_handle this h)
  | OpAssetMove from to r => res (asset_move from to r)
  | OpAssetCopy to r => res (asset_copy to r)
  | OpCreateMemory this size addr lower => res (create_memory this size addr lower)
  | OpCreateMapping this start end_ mem w x => res (create_mapping this start end_ mem w x)
  | OpCreateTask this user c p stack => res (create_task this user c p stack)
  | OpCreateReturnTask this task => res (create_ipc_return_task this task)
  | OpCreateSignalEndpoint this => res (create_signal_endpoint this)
  | OpCreateAttachedSignal this e => res (create_attached_signal this e)
  | OpCreateIpcEndpoint this publish is_root => res (create_ipc_endpoint this publish is_root)
  | OpIpcConnect space e => res (ipc_connect space e)
  | OpCreateVm this => res (create_vm this)
  | OpCreateVmMapping this mem => res (create_vm_mapping this mem)
  | OpCreateSpace this => res (create_space this)
  | OpGlobalSpace id => res (global_space_by_handle id)
  | OpRegisterServer h server => nothing (register_server h server)
  | OpCreateRegisteredServer => nothing create_registered_server
  | OpQueryServer h => res (query_server h)
  | OpUnregisterServer h sh => nothing (unregister_server h sh)
  | OpIpcSend space callee conn current msg call => res (ipc_send space callee conn current msg call)
  | OpIpcSendResume ts => nothing (ipc_send_resume ts)
  | OpIpcSendAsync space conn current msg => nothing (ipc_send_async space conn current msg)
  | OpIpcReceive callee e => nothing (ipc_receive callee e)
  | OpIpcReceivePoll callee e => nothing (ipc_receive_poll callee e)
  | OpIpcReceiveFinish space callee e current target =>
      nothing (ipc_receive_finish space callee e current target)
  | OpIpcReceiveAsync space e current target => nothing (ipc_receive_async space e current target)
  | OpIpcReply space rt current target => nothing (ipc_reply space rt current target)
  | OpSignalTrigger e => nothing (signal_trigger e)
  | OpSignalAwait e task async host =>
      handing (fun r => match r with Value (a, _) => [asset a] | Error _ => [] end)
        (signal_await e task async host)
  | OpSignalAwaitPoll e task w => nothing (signal_await_poll e task w)
  | OpSignalAwaitFinish host a => nothing (signal_await_finish host a)
  | OpSignalCounter p => nothing (counter p)
  | OpSignalQuery id => ref (signal_interrupt_query id)
  | OpDetach this => nothing (detach this)
  | OpMakeRef p h => ref (make_ref p h)
  | OpCopyRef r => ref (copy_ref r)
  | OpDrop r => nothing (drop r)
  end.

(** The references it takes from its caller. *)
Definition consumes (o : op) : list Z :=
  match o with
  | OpIpcSendResume r | OpSignalAwaitFinish _ r | OpDrop r => [asset r]
  | _ => []
  end.

(** Start-up registers the internal signals once. *)
Definition enabled (o : op) (k : kernel) : Prop :=
  match o with OpSignalRegister _ => _internal_signal_map k = UMap.empty | _ => True end.

(** One step of the machine: an operation of the kernel, or a task that writes
    to its memory. [held] lists the counted references on the stacks of the
    tasks in the kernel. *)
Inductive step : list Z * kernel -> list Z * kernel -> Prop :=
| step_op o held k l k' :
    enabled o k -> exec o k = Ret (l, k') ->
    step (consumes o ++ held, k) (l ++ held, k')
| step_write held k pa m :
    msg_wf m -> step (held, k) (held, with_messages (<[pa := m]> (messages k)) k)
| step_reorder held held' k : held ≡ₚ held' -> step (held, k) (held', k).

Definition op_cost : Z := 256.

Lemma wp_handing {A} (f : A -> list Z) (m : K A) k Q :
  wp m k (fun a => Q (f a)) -> wp (handing f m) k Q.
Proof. intros H. apply wp_bind. eapply wp_impl; [exact H|]. intros. by apply wp_ret. Qed.

Ltac op_by lem :=
  eapply lem; [|eassumption|];
  [unfold op_cost, create_cost, ipc_cost, root_count in *; lia|];
  intros; first
    [ match goal with H : forall l k', kinv _ _ _ -> _ |- _ => apply H end
    | idtac ];
  unfold op_cost, create_cost, ipc_cost in *; kfin.

(** Every operation keeps the invariant and ends. *)
Lemma wp_exec o B held k (Q : list Z -> kernel -> Prop) :
  op_cost <= B -> B + root_count < 2 ^ 64 -> kinv B (consumes o ++ held) k -> enabled o k ->
  (forall l k', kinv (B - op_cost) (l ++ held) k' -> Q l k') ->
  wp (exec o) k Q.
Proof.
  intros HB HB2 Hk He HQ. destruct o; cbn [exec consumes app] in *; apply wp_handing.
  - eapply wp_create_root; [|exact HB2|exact Hk|]; [unfold create_cost, op_cost in *; lia|].
    intros. apply HQ. unfold create_cost, op_cost in *. kfin.
  - eapply wp_signal_register; [|exact Hk|exact He|]; [unfold create_cost, op_cost in *; lia|].
    intros. apply HQ. unfold create_cost, op_cost in *. kfin.
  - op_by wp_by_handle.
  - op_by wp_by_handle_as.
  - op_by wp_by_index.
  - op_by wp_by_fn.
  - op_by wp_asset_release.
  - op_by wp_asset_release_by_handle.
  - op_by wp_asset_move.
  - op_by wp_asset_copy.
  - op_by wp_create_memory.
  - op_by wp_create_mapping.
  - op_by wp_create_task.
  - op_by wp_create_return_task.
  - op_by wp_create_signal_endpoint.
  - op_by wp_create_attached_signal.
  - op_by wp_create_ipc_endpoint.
  - op_by wp_create_ipc_connection.
  - op_by wp_create_vm.
  - op_by wp_create_vm_mapping.
  - op_by wp_create_space.
  - op_by wp_global_space.
  - op_by wp_register_server.
  - op_by wp_create_registered_server.
  - op_by wp_query_server.
  - op_by wp_unregister_server.
  - op_by wp_ipc_send.
  - op_by wp_ipc_send_resume.
  - op_by wp_ipc_send_async.
  - op_by wp_ipc_receive.
  - op_by wp_ipc_receive_poll.
  - op_by wp_ipc_receive_finish.
  - op_by wp_ipc_receive_async.
  - op_by wp_ipc_reply.
  - op_by wp_signal_trigger.
  - op_by wp_signal_await.
  - op_by wp_signal_await_poll.
  - op_by wp_signal_await_finish.
  - op_by wp_counter.
  - op_by wp_signal_interrupt_query.
  - op_by wp_detach.
  - op_by wp_make_ref.
  - op_by wp_copy_ref.
  - op_by wp_deref.
Qed.

(** * Runs *)

(** The kernel before its first object. *)
Record booted (k : kernel) : Prop := mk_booted {
  boot_heap : heap k = ∅;
  boot_servers : registered_servers k = [];
  boot_signals : _internal_signal_map k = UMap.empty;
  boot_tasks : task_list k = [];
  boot_ids : _space_id k = 1;
  boot_pmm : Pmm.pmm_wf (pmm k);
  boot_messages : map_Forall (fun _ m => msg_wf m) (messages k)
}.

(** Runs of less than [2 ^ 40] steps stay within this. *)
Definition budget : Z := 2 ^ 50.

Lemma kinv_booted k : booted k -> kinv budget [] k.
Proof.
  intros [H1 H2 H3 H4 H5 H6 H7].
  assert (forall p, refs k p = 0) as Hr.
  { intros p. unfold refs, heap_refs, global_refs. by rewrite H1, H2, H3, H4. }
  split; rewrite ?H1, ?H3, ?H5; try done.
  - intros p _. rewrite Hr. simpl. lia.
  - exists ∅. split; [by rewrite map_size_empty|by left].
Qed.

Lemma kinv_step B held k held' k' :
  op_cost <= B -> B <= budget -> kinv B held k -> step (held, k) (held', k') ->
  kinv (B - op_cost) held' k'.
Proof.
  intros HB HB2 Hk Hs. inversion Hs; subst.
  - match goal with H : exec o k = _ |- _ => rename H into He end.
    assert (wp (exec o) k (fun l k' => kinv (B - op_cost) (l ++ held0) k')) as Hw.
    { eapply wp_exec; [exact HB| |exact Hk|done|done]. unfold budget, root_count in *. lia. }
    unfold wp in Hw. by rewrite He in Hw.
  - apply (kinv_budget B); [unfold op_cost in *; lia|]. pose proof Hk as [? ? ? ? ? ? ?].
    split; try done. simpl. by apply map_Forall_insert_2.
  - apply (kinv_budget B); [unfold op_cost in *; lia|]. eapply kinv_ext; [|exact Hk].
    intros q _. rewrite (zcount_perm q held held') by done. lia.
Qed.

Lemma kinv_steps n : forall B held k held' k',
  op_cost * Z.of_nat n <= B -> B <= budget -> kinv B held k ->
  nsteps step n (held, k) (held', k') -> kinv (B - op_cost * Z.of_nat n) held' k'.
Proof.
  unfold op_cost. induction n as [|n IH]; intros B held k held' k' HB HB2 Hk Hs; inversion Hs; subst.
  - replace (B - _) with B by lia. done.
  - destruct y as [held1 k1]. apply (kinv_step B) in H0; [|unfold op_cost; lia|done|done].
    unfold op_cost in H0. replace (B - _) with (B - 256 - 256 * Z.of_nat n) by lia.
    eapply IH; [lia|lia|exact H0|done].
Qed.

(** A counted reference is to an object, and one more can be taken. *)
Lemma kinv_counted B held k p :
  kinv B held k -> p <> nullptr -> 0 < refs k p + zcount p held ->
  (exists a, heap k !! p = Some a /\ refs k p + zcount p held <= ref_count a) /\
  exists k', own p k = Ret (tt, k').
Proof.
  intros Hk Hp Hc. destruct (kinv_refs _ _ _ Hk p Hp Hc) as (a & Ha & Hle). split; [by exists a|].
  unfold own. rewrite (proj2 (Z.eqb_neq p nullptr) Hp). cbv beta. unfold get_asset, mbind, K_bind, gets, set_asset, modify. cbn. rewrite Ha. cbn. by eexists.
Qed.

(** C1: reference counting is sound as long as the kernel stays defined. Start from
    the kernel before its first object and run operations, in any order and with any
    arguments, interleaved with tasks that write to their messages and with the
    dropping of references that were handed out; each of them returns. Then every
    counted reference, whether it is stored in an object, in a table of the kernel or
    held on the stack of a task, is to an object that has not been deleted, whose count
    is at least the number of such references, so that one more reference to it can be
    taken; and no next operation, whatever it does, loops in a destruction, a queue or
    a waiter list. An operation that stops at an assertion or does what C++ leaves
    undefined has no next state, and nothing is said of what the machine does after it:
    these are not excluded by the kernel, since a task keeps its space without counting
    it and goes on using it when the space is deleted, and a ring of messages that
    wait for a reply cannot grow once it has wrapped. *)
Theorem kernel_references_sound n k0 held k :
  booted k0 -> Z.of_nat n < 2 ^ 40 -> nsteps step n ([], k0) (held, k) ->
  (forall p, p <> nullptr -> 0 < refs k p + zcount p held ->
     (exists a, heap k !! p = Some a /\ refs k p + zcount p held <= ref_count a) /\
     exists k', own p k = Ret (tt, k')) /\
  (forall o held', held = consumes o ++ held' -> enabled o k -> exec o k <> NoFuel).
Proof.
  intros H0 Hn Hs.
  assert (kinv (budget - op_cost * Z.of_nat n) held k) as Hk.
  { eapply kinv_steps; [|reflexivity|by apply kinv_booted|done]. unfold op_cost, budget. lia. }
  split; [intros p Hp Hc; by apply (kinv_counted _ _ _ _ Hk)|]. intros o held' -> He HF.
  assert (wp (exec o) k (fun _ _ => True)) as Hw.
  { eapply wp_exec; [| |exact Hk|done|done]; unfold op_cost, budget, root_count; lia. }
  unfold wp in Hw. by rewrite HF in Hw.
Qed.

(** A run of operations one after the other. *)
Fixpoint run (l : list op) (held : list Z) (k : kernel) : ctl (list Z * kernel) :=
  match l with
  | [] => Ret (held, k)
  | o :: l => '(r, k) ← exec o k; run l (r ++ held) k
  end.

Lemma run_steps l : forall held k held' k',
  Forall (fun o => consumes o = [] /\ forall k, enabled o k) l ->
  run l held k = Ret (held', k') -> nsteps step (length l) (held, k) (held', k').
Proof.
  induction l as [|o l IH]; intros held k held' k' Hl Hr; cbn [run length] in *.
  - injection Hr as <- <-. constructor.
  - inversion Hl as [|? ? [Hc He] Hl']; subst.
    destruct (exec o k) as [[r k1]| |] eqn:E; cbn in Hr; [|done|done].
    econstructor; [|by apply IH]. rewrite <- (app_nil_l held) at 1. rewrite <- Hc. by apply step_op.
Qed.
End safety.

(** Three operations from start-up: the root space, two pages of memory in it,
    and a second reference to them by their handle. *)
Definition sample_ops : list op :=
  [OpCreateRoot; OpCreateMemory 1 8192 0 false; OpByHandle 1 17].

Lemma kernel_references_sound_witness :
  exists held k, booted boot_kernel /\
    nsteps (@step (sample_machine false)) 3 ([], boot_kernel) (held, k) /\ held = [2; 2; 1] /\
    (forall p, p <> nullptr -> 0 < refs k p + zcount p held ->
       (exists a, heap k !! p = Some a /\ refs k p + zcount p held <= ref_count a) /\
       exists k', own p k = Ret (tt, k')) /\
    (forall o held', held = consumes o ++ held' -> enabled o k -> exec o k <> NoFuel).
Proof.
  destruct (run sample_ops [] boot_kernel) as [[held k]| |] eqn:E; [|vm_compute in E; discriminate..].
  assert (booted boot_kernel) as Hb.
  { split; try reflexivity; [exact Pmm.small_pmm_wf|].
    apply map_Forall_insert_2; [|apply map_Forall_empty]. repeat split; reflexivity || discriminate. }
  assert (nsteps (@step (sample_machine false)) 3 ([], boot_kernel) (held, k)) as Hs.
  { apply (run_steps sample_ops); [|exact E]. repeat (constructor; [done|]). constructor. }
  exists held, k. split; [exact Hb|]. split; [exact Hs|]. split.
  - vm_compute in E. by injection E as <- _.
  - apply (kernel_references_sound 3 boot_kernel held k Hb); [done|exact Hs].
Defined.
