(* ===== verification/IpcQueueSpec.v ===== *)
(** The two queues of an IPC endpoint and their ticks implement one queue of
    messages in the order they were sent. *)

From stdpp Require Import sorting.
From S2P Require Import Prelude.
From S2P Require Ring.
From S2P Require Import IpcTypes KObject Ipc.

Import Ring.Ring.

(** * The queue an endpoint stands for *)

Definition tick_of (x : received) : Z :=
  match x with GotAsync a => a_added_tick a | GotSync s => s_added_tick s end.

Definition as_async (x : received) : option IpcAsyncMsgEntry :=
  match x with GotAsync a => Some a | GotSync _ => None end.
Definition as_sync (x : received) : option IpcSyncMsgEntry :=
  match x with GotAsync _ => None | GotSync s => Some s end.

Definition asyncs (q : list received) : list IpcAsyncMsgEntry := omap as_async q.
Definition syncs (q : list received) : list IpcSyncMsgEntry := omap as_sync q.

Definition sent_before (x y : received) : Prop := tick_of x < tick_of y.

(** The tick of a queue is that of its first message; it means nothing for an
    empty queue. *)
Record queue_rep (e : IpcEndpoint) (q : list received) : Prop := mk_queue_rep {
  qr_async : ring_ok (async_queue e) (asyncs q);
  qr_sync : ring_ok (sync_queue e) (syncs q);
  qr_sorted : StronglySorted sent_before q;
  qr_ticks : Forall (fun x => tick_of x < tick e) q;
  qr_tick : 1 <= tick e <= LONG_MAX;
  qr_last_async : forall a, hd_error (asyncs q) = Some a -> last_async_msg_tick e = a_added_tick a;
  qr_last_sync : forall s, hd_error (syncs q) = Some s -> last_sync_msg_tick e = s_added_tick s
}.

Lemma ring_len {A} (r : Ring A) q : ring_ok r q -> len r = zlen q.
Proof. intros [Hr _]. by apply rrep_len. Qed.

Lemma len_zero {A} (r : Ring A) q : ring_ok r q -> (len r =? 0) = match q with [] => true | _ => false end.
Proof. intros Hr. rewrite (ring_len r q Hr). by destruct q. Qed.

Lemma ring_ok_push {A} plain (x : A) r q :
  ring_ok r q -> plain = true \/ moves r = false ->
  exists r', push plain true x r = Ret r' /\ ring_ok r' (q ++ [x]).
Proof.
  intros [Hr Hc] Hp. destruct (push_rrep plain x r q Hr Hc Hp) as (r' & E & H & ?). exists r'.
  split; [done|]. split; [done|by right].
Qed.

Lemma ring_ok_pop {A} (x : A) r q :
  ring_ok r (x :: q) -> exists r', pop r = Ret (x, r') /\ ring_ok r' q.
Proof.
  intros [Hr Hc]. destruct (pop_rrep x r q Hr) as (r' & E & H & E'). exists r'.
  split; [done|]. split; [done|by rewrite E'].
Qed.

(** The tick of the first element of a ring, or [d] if there is none. *)
Lemma head_tick {A} (f : A -> Z) (d : Z) r q :
  ring_ok r q ->
  (if len r =? 0 then Ret d else h ← head r; Ret (f h)) =
    Ret (match q with [] => d | x :: _ => f x end).
Proof.
  intros Hr. rewrite (len_zero r q Hr). destruct q as [|x q]; [done|].
  by rewrite (head_rrep x r q) by apply Hr.
Qed.

(** ** Sending *)

Lemma update_msg_ticks_eq e qa qs :
  ring_ok (async_queue e) qa -> ring_ok (sync_queue e) qs ->
  exists e', update_msg_ticks e = Ret e' /\ async_queue e' = async_queue e /\
    sync_queue e' = sync_queue e /\ tick e' = tick e /\
    (forall a, hd_error qa = Some a -> last_async_msg_tick e' = a_added_tick a) /\
    (forall s, hd_error qs = Some s -> last_sync_msg_tick e' = s_added_tick s).
Proof.
  intros Ha Hs. unfold update_msg_ticks.
  rewrite (head_tick a_added_tick LONG_MAX _ qa Ha), (head_tick s_added_tick LONG_MAX _ qs Hs).
  cbn [mbind ctl_bind]. eexists. split; [done|]. simpl. split_and!; try done.
  - by destruct qa as [|x qa]; intros a [= <-].
  - by destruct qs as [|x qs]; intros a [= <-].
Qed.

Lemma asyncs_app q1 q2 : asyncs (q1 ++ q2) = asyncs q1 ++ asyncs q2.
Proof. apply omap_app. Qed.
Lemma syncs_app q1 q2 : syncs (q1 ++ q2) = syncs q1 ++ syncs q2.
Proof. apply omap_app. Qed.

Lemma sorted_snoc q x n :
  StronglySorted sent_before q -> Forall (fun y => tick_of y < n) q -> tick_of x = n ->
  StronglySorted sent_before (q ++ [x]).
Proof.
  intros Hs Hf Hx. induction q as [|y q IH]; [repeat constructor|]. simpl.
  apply StronglySorted_inv in Hs as [Hs Hy]. apply Forall_cons in Hf as [Hyn Hf].
  constructor; [by apply IH|]. apply Forall_app. split; [done|]. constructor; [|done].
  unfold sent_before. lia.
Qed.

(** What the tick becomes. *)
Lemma ticks_snoc q x n :
  Forall (fun y => tick_of y < n) q -> tick_of x = n -> Forall (fun y => tick_of y < n + 1) (q ++ [x]).
Proof.
  intros Hf Hx. apply Forall_app. split; [|by constructor; [lia|]].
  eapply Forall_impl; [exact Hf|]. simpl. lia.
Qed.

Lemma sent_rep e e' q x :
  queue_rep e q -> tick e < LONG_MAX -> tick_of x = tick e ->
  ring_ok (async_queue e') (asyncs (q ++ [x])) -> ring_ok (sync_queue e') (syncs (q ++ [x])) ->
  tick e' = tick e ->
  (forall a, hd_error (asyncs (q ++ [x])) = Some a -> last_async_msg_tick e' = a_added_tick a) ->
  (forall s, hd_error (syncs (q ++ [x])) = Some s -> last_sync_msg_tick e' = s_added_tick s) ->
  queue_rep (set_tick e' (s64 (tick e' + 1))) (q ++ [x]).
Proof.
  intros [Q1 Q2 Q3 Q4 Q5 Q6 Q7] Hlt Hx Ha Hs Ht Hla Hls.
  assert (tick (set_tick e' (s64 (tick e' + 1))) = tick e + 1) as Et.
  { simpl. rewrite Ht. apply wraps_small; [lia|]. unfold LONG_MAX in *. lia. }
  split; rewrite ?Et; try done.
  - by eapply sorted_snoc.
  - by apply ticks_snoc.
  - lia.
Qed.

Lemma push_sync_rep e q m c call :
  queue_rep e q -> tick e < LONG_MAX -> moves (sync_queue e) = false ->
  let x := mk_IpcSyncMsgEntry m c call (tick e) in
  exists e', push_sync x e = Ret e' /\ queue_rep e' (q ++ [GotSync x]) /\ tick e' = tick e + 1.
Proof.
  intros Q Hlt Hm x. pose proof Q as [Q1 Q2 _ _ Q5 _ _]. unfold push_sync.
  destruct (ring_ok_push false x _ _ Q2 (or_intror Hm)) as (r & -> & Hr). cbn [mbind ctl_bind].
  destruct (update_msg_ticks_eq (set_sync e r (last_sync_msg_tick e)) (asyncs q) (syncs q ++ [x]))
    as (e' & -> & E1 & E2 & E3 & E4 & E5); [done..|]. cbn [mbind ctl_bind].
  eexists. split; [done|]. split.
  - apply (sent_rep e); try done; rewrite ?asyncs_app, ?syncs_app; simpl; rewrite ?app_nil_r; try done.
    + by rewrite E1.
    + by rewrite E2.
  - simpl. rewrite E3. simpl. apply wraps_small; [lia|]. unfold LONG_MAX in *. lia.
Qed.

Lemma push_async_rep e q m :
  queue_rep e q -> tick e < LONG_MAX ->
  let x := mk_IpcAsyncMsgEntry m (tick e) in
  exists e', push_async x e = Ret e' /\ queue_rep e' (q ++ [GotAsync x]) /\ tick e' = tick e + 1.
Proof.
  intros Q Hlt x. pose proof Q as [Q1 Q2 _ _ Q5 _ _]. unfold push_async.
  destruct (ring_ok_push true x _ _ Q1 (or_introl eq_refl)) as (r & -> & Hr). cbn [mbind ctl_bind].
  destruct (update_msg_ticks_eq (set_async e r (last_async_msg_tick e)) (asyncs q ++ [x]) (syncs q))
    as (e' & -> & E1 & E2 & E3 & E4 & E5); [done..|]. cbn [mbind ctl_bind].
  eexists. split; [done|]. split.
  - apply (sent_rep e); try done; rewrite ?asyncs_app, ?syncs_app; simpl; rewrite ?app_nil_r; try done.
    + by rewrite E1.
    + by rewrite E2.
  - simpl. rewrite E3. simpl. apply wraps_small; [lia|]. unfold LONG_MAX in *. lia.
Qed.

(** ** Receiving *)

Lemma pop_async_rep e x q :
  queue_rep e (GotAsync x :: q) ->
  exists e', pop_async e = Ret (x, e') /\ queue_rep e' q /\ tick e' = tick e.
Proof.
  intros [Q1 Q2 Q3 Q4 Q5 Q6 Q7]. unfold pop_async. simpl in Q1.
  destruct (ring_ok_pop x _ _ Q1) as (r & -> & Hr). cbn [mbind ctl_bind].
  rewrite (head_tick a_added_tick (last_async_msg_tick e) r (asyncs q) Hr). cbn [mbind ctl_bind].
  eexists. split; [done|]. split; [|done]. apply StronglySorted_inv in Q3 as [Q3 _].
  apply Forall_cons in Q4 as [_ Q4]. split; simpl; try done.
  intros a Ha. destruct (asyncs q); [done|]. by injection Ha as ->.
Qed.

Lemma pop_sync_rep e x q :
  queue_rep e (GotSync x :: q) ->
  exists e', pop_sync e = Ret (x, e') /\ queue_rep e' q /\ tick e' = tick e.
Proof.
  intros [Q1 Q2 Q3 Q4 Q5 Q6 Q7]. unfold pop_sync. simpl in Q2.
  destruct (ring_ok_pop x _ _ Q2) as (r & -> & Hr). cbn [mbind ctl_bind].
  rewrite (head_tick s_added_tick (last_sync_msg_tick e) r (syncs q) Hr). cbn [mbind ctl_bind].
  eexists. split; [done|]. split; [|done]. apply StronglySorted_inv in Q3 as [Q3 _].
  apply Forall_cons in Q4 as [_ Q4]. split; simpl; try done.
  intros a Ha. destruct (syncs q); [done|]. by injection Ha as ->.
Qed.

Lemma sync_in q y : hd_error (syncs q) = Some y -> GotSync y ∈ q.
Proof.
  induction q as [|[a|s] q IH]; simpl; [done| |].
  - intros Hy. right. by apply IH.
  - intros [= ->]. by left.
Qed.

Lemma async_in q y : hd_error (asyncs q) = Some y -> GotAsync y ∈ q.
Proof.
  induction q as [|[a|s] q IH]; simpl; [done| |].
  - intros [= ->]. by left.
  - intros Hy. right. by apply IH.
Qed.

Lemma first_is_before e x q y : queue_rep e (x :: q) -> y ∈ q -> tick_of x < tick_of y.
Proof.
  intros Q Hy. pose proof (qr_sorted _ _ Q) as [_ Hs]%StronglySorted_inv.
  rewrite Forall_forall in Hs. by apply Hs.
Qed.

(** What [ipc_receive] takes is the first message of the queue. *)
Lemma take_message_rep e x q :
  queue_rep e (x :: q) ->
  exists e', take_message e = Ret (Value x, e') /\ queue_rep e' q /\ tick e' = tick e.
Proof.
  intros Q. pose proof Q as [Q1 Q2 _ _ _ Q6 Q7]. unfold take_message.
  rewrite (len_zero _ _ Q1), (len_zero _ _ Q2). destruct x as [a|s]; simpl in *.
  - assert (((last_async_msg_tick e <? last_sync_msg_tick e) && true)
              || match syncs q with [] => true | _ => false end = true) as ->.
    { rewrite andb_true_r. destruct (syncs q) as [|y l] eqn:E; [apply orb_true_r|].
      rewrite orb_false_r. apply Z.ltb_lt. rewrite (Q6 a eq_refl), (Q7 y eq_refl).
      apply (first_is_before e (GotAsync a) q (GotSync y) Q), sync_in. by rewrite E. }
    destruct (pop_async_rep e a q Q) as (e' & -> & Q' & Et). cbn [mbind ctl_bind].
    exists e'. by split_and!.
  - assert (((last_async_msg_tick e <? last_sync_msg_tick e)
               && negb match asyncs q with [] => true | _ => false end) || false = false) as ->.
    { rewrite orb_false_r. destruct (asyncs q) as [|y l] eqn:E; [apply andb_false_r|].
      rewrite andb_true_r. apply Z.ltb_ge. rewrite (Q6 y eq_refl), (Q7 s eq_refl).
      assert (s_added_tick s < a_added_tick y); [|lia].
      apply (first_is_before e (GotSync s) q (GotAsync y) Q), async_in. by rewrite E. }
    simpl. destruct (pop_sync_rep e s q Q) as (e' & -> & Q' & Et). cbn [mbind ctl_bind].
    exists e'. by split_and!.
Qed.

Lemma take_message_empty e :
  queue_rep e [] -> take_message e = Ret (Error "async_queue is empty", e).
Proof.
  intros [Q1 Q2 _ _ _ _ _]. unfold take_message.
  rewrite (len_zero _ _ Q1), (len_zero _ _ Q2). by rewrite orb_true_r.
Qed.

Lemma ring_ok_empty {A} : ring_ok (empty : Ring A) [].
Proof. split; [apply rrep_empty|by left]. Qed.

Lemma queue_rep_init : queue_rep IpcEndpoint_init [].
Proof. by split; try apply ring_ok_empty; try constructor. Qed.

(** * Refinement *)

(** What happens to an endpoint under its lock. *)
Inductive ipc_op :=
| SendSync (kernel_mem_msg : Z) (callee : AssetRef) (is_call : bool)
| SendAsync (target_msg : IpcMessage)
| Receive.

Definition ipc_op_run (o : ipc_op) (e : IpcEndpoint) : ctl (option (result received) * IpcEndpoint) :=
  match o with
  | SendSync m c call => e ← push_sync (mk_IpcSyncMsgEntry m c call (tick e)) e; Ret (None, e)
  | SendAsync m => e ← push_async (mk_IpcAsyncMsgEntry m (tick e)) e; Ret (None, e)
  | Receive => '(r, e) ← take_message e; Ret (Some r, e)
  end.

Fixpoint ipc_run (os : list ipc_op) (e : IpcEndpoint) : ctl (list (option (result received)) * IpcEndpoint) :=
  match os with
  | [] => Ret ([], e)
  | o :: os => '(r, e) ← ipc_op_run o e; '(rs, e) ← ipc_run os e; Ret (r :: rs, e)
  end.

(** One queue, and the number of the next message. *)
Definition fifo_op (o : ipc_op) (st : Z * list received) : option (result received) * (Z * list received) :=
  let '(n, q) := st in
  match o with
  | SendSync m c call => (None, (n + 1, q ++ [GotSync (mk_IpcSyncMsgEntry m c call n)]))
  | SendAsync m => (None, (n + 1, q ++ [GotAsync (mk_IpcAsyncMsgEntry m n)]))
  | Receive =>
      match q with
      | [] => (Some (Error "async_queue is empty"), (n, q))
      | x :: q => (Some (Value x), (n, q))
      end
  end.

Fixpoint fifo_run (os : list ipc_op) (st : Z * list received) : list (option (result received)) :=
  match os with
  | [] => []
  | o :: os => let '(r, st) := fifo_op o st in r :: fifo_run os st
  end.

(** Where an operation cannot go on: a synchronous message for a ring that [push]
    would grow while its elements go round the end of the storage. *)
Definition stuck (o : ipc_op) (e : IpcEndpoint) : bool :=
  match o with SendSync _ _ _ => moves (sync_queue e) | _ => false end.

Lemma ipc_op_refines o e q :
  queue_rep e q -> tick e < LONG_MAX -> stuck o e = false ->
  exists e', ipc_op_run o e = Ret (fst (fifo_op o (tick e, q)), e') /\
    queue_rep e' (snd (snd (fifo_op o (tick e, q)))) /\ tick e' = fst (snd (fifo_op o (tick e, q))) /\
    tick e' <= tick e + 1.
Proof.
  intros Q Hlt Hs. destruct o as [m c call|m|]; simpl.
  - destruct (push_sync_rep e q m c call Q Hlt Hs) as (e' & -> & Q' & Et). exists e'. split_and!; try done. lia.
  - destruct (push_async_rep e q m Q Hlt) as (e' & -> & Q' & Et). exists e'. split_and!; try done. lia.
  - destruct q as [|x q]; simpl.
    + rewrite (take_message_empty e Q). exists e. split_and!; try done. lia.
    + destruct (take_message_rep e x q Q) as (e' & -> & Q' & Et). exists e'. split_and!; try done. lia.
Qed.

Lemma stuck_traps o e q : queue_rep e q -> stuck o e = true -> ipc_op_run o e = Trap /\ 2 <= zlen (syncs q).
Proof.
  intros Q Hs. destruct o as [m c call| |]; [|done..]. cbn [stuck] in Hs. cbn [ipc_op_run].
  pose proof (qr_sync _ _ Q) as Hr. split; [|by apply (moves_len (sync_queue e))].
  unfold push_sync. by rewrite (push_moves _ _ _ (proj1 Hr) Hs).
Qed.

Lemma ipc_run_refines os : forall e q,
  queue_rep e q -> tick e + zlen os <= LONG_MAX ->
  (exists e', ipc_run os e = Ret (fifo_run os (tick e, q), e')) \/
  (exists os1 o os2 e1 q1, os = os1 ++ o :: os2 /\ ipc_run os1 e = Ret (fifo_run os1 (tick e, q), e1) /\
     queue_rep e1 q1 /\ 2 <= zlen (syncs q1) /\ stuck o e1 = true /\ ipc_run os e = Trap).
Proof.
  induction os as [|o os IH]; intros e q Q Hn; [left; by eexists|].
  cbn [ipc_run fifo_run]. simpl length in Hn. destruct (stuck o e) eqn:Es.
  { right. destruct (stuck_traps o e q Q Es) as [E H2]. exists [], o, os, e, q. split_and!; try done. by rewrite E. }
  destruct (ipc_op_refines o e q Q) as (e' & E & Q' & Et & Hle); [lia|done|]. rewrite E. cbn [mbind ctl_bind].
  destruct (fifo_op o (tick e, q)) as [r [n q']] eqn:Ef. cbn [fst snd] in *.
  destruct (IH e' q' Q') as [(e2 & ->)|(os1 & o' & os2 & e1 & q1 & -> & E1 & Q1 & H2 & Es' & ET)]; [lia|left|right].
  - cbn [mbind ctl_bind]. exists e2. by rewrite Et.
  - exists (o :: os1), o', os2, e1, q1. split_and!; try done.
    + cbn [ipc_run fifo_run]. rewrite E. cbn [mbind ctl_bind]. rewrite E1, Ef. cbn [mbind ctl_bind]. by rewrite Et.
    + by rewrite ET.
Qed.

(** A queue that is left empty keeps its tick. *)
Lemma pop_sync_last e x q e' :
  queue_rep e (GotSync x :: q) -> pop_sync e = Ret (x, e') -> syncs q = [] ->
  (last_async_msg_tick e' <? last_sync_msg_tick e') = (last_async_msg_tick e <? last_sync_msg_tick e).
Proof.
  intros Q E Hq. pose proof (qr_sync _ _ Q) as Q2. simpl in Q2.
  unfold pop_sync in E. destruct (ring_ok_pop x _ _ Q2) as (r & Hr & Hok). rewrite Hr in E.
  cbn [mbind ctl_bind] in E. rewrite (len_zero _ _ Hok), Hq in E. by injection E as <-.
Qed.

(** C8: An endpoint behaves as one first-in first-out queue, though its synchronous
    and asynchronous messages lie in two rings: whatever is sent and received,
    [ipc_receive] takes the messages in the order they were sent, reports the
    empty queue as an error and never reads an empty ring. The one exception is a
    synchronous message sent when the ring of these must grow while its elements go
    round the end of its storage, which takes two of them waiting at least: the answers
    up to there are those of the queue, and the send assigns entries to raw storage. *)
Theorem endpoint_refines_fifo os e q :
  queue_rep e q -> tick e + zlen os <= LONG_MAX ->
  (exists e', ipc_run os e = Ret (fifo_run os (tick e, q), e')) \/
  (exists os1 o os2 e1 q1, os = os1 ++ o :: os2 /\ ipc_run os1 e = Ret (fifo_run os1 (tick e, q), e1) /\
     queue_rep e1 q1 /\ 2 <= zlen (syncs q1) /\ stuck o e1 = true /\ ipc_run os e = Trap).
Proof. apply ipc_run_refines. Qed.

(** The exception is met. *)
Definition moving_traffic : list ipc_op :=
  [SendSync 1 AssetRef_init true; SendSync 2 AssetRef_init true; Receive; SendSync 3 AssetRef_init true;
   SendSync 4 AssetRef_init true].

Example sync_ring_cannot_move : ipc_run moving_traffic IpcEndpoint_init = Trap.
Proof. vm_compute. reflexivity. Qed.

Definition sample_traffic : list ipc_op :=
  [SendSync 4096 AssetRef_init true; SendAsync (IpcMessage_init []); Receive; Receive; Receive].

Lemma endpoint_refines_fifo_witness :
  exists e', ipc_run sample_traffic IpcEndpoint_init =
    Ret ([None; None; Some (Value (GotSync (mk_IpcSyncMsgEntry 4096 AssetRef_init true 1)));
          Some (Value (GotAsync (mk_IpcAsyncMsgEntry (IpcMessage_init []) 2)));
          Some (Error "async_queue is empty")], e').
Proof.
  destruct (endpoint_refines_fifo sample_traffic IpcEndpoint_init [] queue_rep_init) as [H|H];
    [unfold LONG_MAX; simpl; lia|exact H|].
  destruct H as (? & ? & ? & ? & ? & _ & _ & _ & _ & _ & HT). vm_compute in HT. discriminate.
Defined.

(** [ipc_receive_async] has no such protection: once it has taken the last
    synchronous message, the tick that message left behind makes it read the
    empty synchronous ring although an asynchronous message waits, and the
    kernel stops. *)
Theorem receive_async_reads_empty_ring e s a q :
  queue_rep e (GotSync s :: GotAsync a :: q) -> syncs q = [] ->
  exists e', take_message_async e = Ret (Value (GotSync s), e') /\
    queue_rep e' (GotAsync a :: q) /\ take_message_async e' = Trap.
Proof.
  intros Q Hq. pose proof Q as [Q1 Q2 _ _ _ Q6 Q7].
  assert (s_added_tick s < a_added_tick a) as Hlt.
  { apply (first_is_before e _ _ (GotAsync a) Q). by left. }
  assert ((last_async_msg_tick e <? last_sync_msg_tick e) = false) as El.
  { apply Z.ltb_ge. rewrite (Q6 a eq_refl), (Q7 s eq_refl). lia. }
  unfold take_message_async. rewrite (len_zero _ _ Q1), (len_zero _ _ Q2), El. simpl in *.
  destruct (pop_sync_rep e s _ Q) as (e' & E & Q' & _). rewrite E. cbn [mbind ctl_bind].
  exists e'. split; [done|]. split; [done|]. pose proof Q' as [R1 R2 _ _ _ _ _].
  rewrite (len_zero _ _ R1), (len_zero _ _ R2). rewrite (pop_sync_last e s _ e' Q E), El by done.
  assert (syncs (GotAsync a :: q) = []) as Hq' by done. rewrite Hq'. simpl.
  unfold pop_sync, pop. by rewrite (len_zero _ _ R2), Hq'.
Qed.

(** A synchronous and an asynchronous message have been sent. *)
Definition sample_endpoint : IpcEndpoint :=
  match ipc_run [SendSync 4096 AssetRef_init true; SendAsync (IpcMessage_init [])] IpcEndpoint_init with
  | Ret (_, e) => e
  | _ => IpcEndpoint_init
  end.

Lemma sample_endpoint_rep :
  queue_rep sample_endpoint
    [GotSync (mk_IpcSyncMsgEntry 4096 AssetRef_init true 1);
     GotAsync (mk_IpcAsyncMsgEntry (IpcMessage_init []) 2)].
Proof.
  destruct (push_sync_rep IpcEndpoint_init [] 4096 AssetRef_init true queue_rep_init eq_refl eq_refl)
    as (e1 & E1 & Q1 & T1).
  destruct (push_async_rep e1 _ (IpcMessage_init []) Q1) as (e2 & E2 & Q2 & _); [by rewrite T1|].
  unfold sample_endpoint. cbn [ipc_run ipc_op_run]. rewrite E1. cbn [mbind ctl_bind].
  rewrite E2. cbn [mbind ctl_bind]. by rewrite T1 in Q2.
Qed.

Lemma receive_async_reads_empty_ring_witness :
  exists e', take_message_async sample_endpoint =
      Ret (Value (GotSync (mk_IpcSyncMsgEntry 4096 AssetRef_init true 1)), e') /\
    queue_rep e' [GotAsync (mk_IpcAsyncMsgEntry (IpcMessage_init []) 2)] /\
    take_message_async e' = Trap.
Proof. apply receive_async_reads_empty_ring; [exact sample_endpoint_rep|reflexivity]. Defined.
