(* ===== verification/KernelRuns.v ===== *)
(** Exact runs of kernel code: [runs m k Q] says that [m] returns from [k] and
    what it leaves satisfies [Q]; one lemma for each primitive of the table of a
    space. They carry the functional theorems about spaces. *)

From stdpp Require Import gmap.
From S2P Require Import Prelude UMap.
From S2P Require Pmm Range Ring.
From S2P Require Import IpcTypes KObject IpcRegistry Space KObjectSpec SpaceSpec.

Section runs.
Context `{M : Machine}.

Definition runs {A} (m : K A) (k : kernel) (Q : A -> kernel -> Prop) : Prop :=
  returns (fun '(a, k') => Q a k') (m k).

Lemma runs_iff {A} (m : K A) k (Q : A -> kernel -> Prop) :
  runs m k Q <-> exists a k', m k = Ret (a, k') /\ Q a k'.
Proof.
  unfold runs. rewrite returns_iff. split; [intros ([a k'] & ? & ?); eauto|].
  intros (a & k' & ? & ?). by exists (a, k').
Qed.

Lemma runs_ret {A} (a : A) k (Q : A -> kernel -> Prop) : Q a k -> runs (mret a) k Q.
Proof. done. Qed.

Lemma runs_bind {A B} (m : K A) (f : A -> K B) k Q :
  runs m k (fun a k' => runs (f a) k' Q) -> runs (m ≫= f) k Q.
Proof. unfold runs. rewrite K_bind_eq. destruct (m k) as [[a k']| |]; simpl; auto. Qed.

Lemma runs_impl {A} (m : K A) k (P Q : A -> kernel -> Prop) :
  runs m k P -> (forall a k', P a k' -> Q a k') -> runs m k Q.
Proof. intros H HPQ. eapply returns_impl; [exact H|]. intros [a k']. apply HPQ. Qed.

Lemma runs_wp {A} (m : K A) k (P Q R : A -> kernel -> Prop) :
  runs m k P -> wp m k Q -> (forall a k', P a k' -> Q a k' -> R a k') -> runs m k R.
Proof. unfold runs, wp. destruct (m k) as [[a k']| |]; simpl; auto. Qed.

Lemma runs_gets {A} (f : kernel -> A) k (Q : A -> kernel -> Prop) : Q (f k) k -> runs (gets f) k Q.
Proof. done. Qed.

Lemma runs_modify f k (Q : unit -> kernel -> Prop) : Q tt (f k) -> runs (modify f) k Q.
Proof. done. Qed.

Lemma runs_lift {A} (c : ctl A) a k (Q : A -> kernel -> Prop) : c = Ret a -> Q a k -> runs (lift c) k Q.
Proof. by intros ->. Qed.

Lemma runs_get_asset p a k (Q : Asset -> kernel -> Prop) :
  heap k !! p = Some a -> Q a k -> runs (get_asset p) k Q.
Proof. intros Ha HQ. apply runs_bind, runs_gets. by rewrite Ha. Qed.

Lemma runs_set_asset p a k (Q : unit -> kernel -> Prop) :
  Q tt (with_heap <[p := a]> k) -> runs (set_asset p a) k Q.
Proof. done. Qed.

(** ** Objects *)

Lemma runs_lock p a k (Q : unit -> kernel -> Prop) :
  heap k !! p = Some a -> lock a = false ->
  Q tt (with_heap <[p := mk_Asset true (ref_count a) (content a)]> k) -> runs (lock_asset p) k Q.
Proof.
  intros Ha Hl HQ. apply runs_bind. eapply runs_get_asset; [done|]. rewrite Hl. by apply runs_set_asset.
Qed.

Lemma runs_unlock p a k (Q : unit -> kernel -> Prop) :
  heap k !! p = Some a -> lock a = true ->
  Q tt (with_heap <[p := mk_Asset false (ref_count a) (content a)]> k) -> runs (unlock_asset p) k Q.
Proof.
  intros Ha Hl HQ. apply runs_bind. eapply runs_get_asset; [done|]. rewrite Hl. by apply runs_set_asset.
Qed.

Lemma runs_own p a k (Q : unit -> kernel -> Prop) :
  p <> nullptr -> heap k !! p = Some a ->
  Q tt (with_heap <[p := mk_Asset (lock a) (u64 (ref_count a + 1)) (content a)]> k) -> runs (own p) k Q.
Proof.
  intros Hp Ha HQ. unfold own. rewrite (proj2 (Z.eqb_neq _ _) Hp).
  apply runs_bind. eapply runs_get_asset; [done|]. by apply runs_set_asset.
Qed.

Lemma runs_copy_ref r a k (Q : AssetRef -> kernel -> Prop) :
  asset r <> nullptr -> heap k !! asset r = Some a ->
  Q r (with_heap <[asset r := mk_Asset (lock a) (u64 (ref_count a + 1)) (content a)]> k) ->
  runs (copy_ref r) k Q.
Proof. intros Hp Ha HQ. apply runs_bind. eapply runs_own; [done..|]. by apply runs_ret. Qed.

Lemma runs_make_ref p h a k (Q : AssetRef -> kernel -> Prop) :
  p <> nullptr -> heap k !! p = Some a ->
  Q (mk_AssetRef p h true true true)
    (with_heap <[p := mk_Asset (lock a) (u64 (ref_count a + 1)) (content a)]> k) ->
  runs (make_ref p h) k Q.
Proof. intros Hp Ha HQ. apply runs_bind. eapply runs_own; [done..|]. by apply runs_ret. Qed.

Lemma runs_get_content p a k (Q : asset_data -> kernel -> Prop) :
  heap k !! p = Some a -> Q (content a) k -> runs (get_content p) k Q.
Proof. intros Ha HQ. apply runs_bind. eapply runs_get_asset; [done|]. by apply runs_ret. Qed.

Lemma runs_set_content p a d k (Q : unit -> kernel -> Prop) :
  heap k !! p = Some a -> Q tt (with_heap <[p := mk_Asset (lock a) (ref_count a) d]> k) ->
  runs (set_content p d) k Q.
Proof. intros Ha HQ. apply runs_bind. eapply runs_get_asset; [done|]. by apply runs_set_asset. Qed.

Lemma runs_get_space p b n s k (Q : Space -> kernel -> Prop) :
  heap k !! p = Some (mk_Asset b n (AssetSpace s)) -> Q s k -> runs (get_space p) k Q.
Proof. intros Ha HQ. apply runs_bind. eapply runs_get_content; [done|]. by apply runs_ret. Qed.

(** ** The table of a space *)

Lemma runs_next_handle this b n s k (Q : Z -> kernel -> Prop) :
  heap k !! this = Some (mk_Asset b n (AssetSpace s)) -> 0 <= alloc_uid s -> alloc_uid s + 1 < 2 ^ 64 ->
  Q (alloc_uid s + 1)
    (with_heap <[this := mk_Asset b n (AssetSpace (set_alloc_uid s (alloc_uid s + 1)))]> k) ->
  runs (next_handle this) k Q.
Proof.
  intros Ha H0 H1 HQ. apply runs_bind. eapply runs_get_space; [done|]. rewrite wrapu_small by lia.
  apply runs_bind. eapply runs_set_content; [done|]. by apply runs_ret.
Qed.

Lemma runs_assets_has this b n s T h k (Q : bool -> kernel -> Prop) :
  heap k !! this = Some (mk_Asset b n (AssetSpace s)) -> space_rep s T ->
  Q (bool_decide (is_Some (T !! h))) k -> runs (assets_has this h) k Q.
Proof.
  intros Ha HT HQ. apply runs_bind. eapply runs_get_space; [done|].
  eapply runs_lift; [apply (has_rep h _ T), HT|done].
Qed.

Lemma runs_assets_insert this b n s T h r k (Q : unit -> kernel -> Prop) :
  heap k !! this = Some (mk_Asset b n (AssetSpace s)) -> space_rep s T ->
  T !! h = None -> 0 <= h <= alloc_uid s -> handle r = h ->
  (forall m, space_rep (set_assets s m) (<[h := r]> T) ->
     Q tt (with_heap <[this := mk_Asset b n (AssetSpace (set_assets s m))]> k)) ->
  runs (assets_insert this h r) k Q.
Proof.
  intros Ha HT Hh Hle Hr HQ. apply runs_bind. eapply runs_get_space; [done|].
  destruct (table_insert s T h r HT Hh Hle Hr) as (m & Hm & HT' & _).
  apply runs_bind. eapply runs_lift; [done|]. eapply runs_set_content; [done|]. by apply HQ.
Qed.

Lemma runs_assets_moveOut this b n s T h r k (Q : AssetRef -> kernel -> Prop) :
  heap k !! this = Some (mk_Asset b n (AssetSpace s)) -> space_rep s T -> T !! h = Some r ->
  (forall m, space_rep (set_assets s m) (delete h T) ->
     Q r (with_heap <[this := mk_Asset b n (AssetSpace (set_assets s m))]> k)) ->
  runs (assets_moveOut this h) k Q.
Proof.
  intros Ha HT Hh HQ. apply runs_bind. eapply runs_get_space; [done|].
  destruct (table_moveOut s T h r HT Hh) as (m & Hm & HT' & _).
  apply runs_bind. eapply runs_lift; [done|]. apply runs_bind. eapply runs_set_content; [done|].
  apply runs_ret. by apply HQ.
Qed.

(** A fresh handle is one above those given out. *)
Lemma rep_next s T :
  space_rep s T -> space_rep (set_alloc_uid s (alloc_uid s + 1)) T /\ T !! (alloc_uid s + 1) = None.
Proof.
  intros [Hr Hb]. split.
  - split; [done|]. intros h r Hh. simpl. destruct (Hb h r Hh). lia.
  - destruct (T !! (alloc_uid s + 1)) eqn:E; [|done]. apply Hb in E. lia.
Qed.
End runs.

(** The entry of a heap built by insertions. *)
Ltac heap_look :=
  repeat match goal with x := with_heap _ _ |- _ => progress unfold x end;
  cbn [heap with_heap asset set_handle];
  repeat first [rewrite lookup_insert_eq | rewrite lookup_insert_ne by congruence];
  try (reflexivity || eassumption).
