(* ===== verification/SchedulerSpec.v ===== *)
(** The scheduler keeps every task: a round moves tasks between the queues, the
    list of blocked tasks and the cores without losing one or running one twice,
    always succeeds, leaves no core idle while a task waits, and lets every
    waiting task run after a bounded number of rounds. *)

From stdpp Require Import gmap.
From S2P Require Import Prelude Scheduler.

(** * Well-formed schedulers *)

(** The tasks that wait, and those the cores are to run. *)
Definition queued (s : scheduler) : list Z := concat (task_queues s) ++ blocked_tasks s.
Definition slots (s : scheduler) : list Z :=
  filter (fun t => t ∉ scheduler_idles s) (next_task_to_run s).
Definition members (s : scheduler) : list Z := queued s ++ slots s.

Definition has_mutex (m : gmap Z Task) (t : Z) (b : bool) : Prop :=
  exists x, m !! t = Some x /\ mutex (sched x) = b.

(** The control blocks on a machine of [n] cores with these idle tasks. *)
Record tasks_wf (n : Z) (idles : list Z) (m : gmap Z Task) : Prop := mk_tasks_wf {
  tw_null : m !! 0 = None;
  tw_idle : forall t x, m !! t = Some x -> is_idle (sched x) = bool_decide (t ∈ idles);
  tw_idles : forall t, t ∈ idles -> is_Some (m !! t);
  tw_cores : forall t x, m !! t = Some x ->
    -1 <= cpu_affinity (sched x) < n /\ -1 <= old_cpu_affinity (sched x) < n
}.

Record wf (s : scheduler) : Prop := mk_wf {
  wf_cores : 1 <= running_cpu_count s < 2 ^ 31;
  wf_tasks : tasks_wf (running_cpu_count s) (scheduler_idles s) (tasks s);
  wf_idles : NoDup (scheduler_idles s) /\ zlen (scheduler_idles s) = running_cpu_count s;
  wf_queues : zlen (task_queues s) = TASK_QUEUE_COUNT;
  wf_next : zlen (next_task_to_run s) = running_cpu_count s;
  wf_members : forall t, t ∈ members s -> is_Some (tasks s !! t) /\ t ∉ scheduler_idles s;
  wf_slots : forall i t, next_task_to_run s !! i = Some t -> t ∈ scheduler_idles s ->
    scheduler_idles s !! i = Some t;
  wf_nodup : NoDup (members s);
  wf_bound : zlen (members s) < 2 ^ 62;
  wf_count : awaiting_task_count s = zlen (queued s);
  wf_runnable : forall t, t ∈ concat (task_queues s) -> has_mutex (tasks s) t false;
  wf_blocked : blocked_task_dirty s = false ->
    forall t, t ∈ blocked_tasks s -> has_mutex (tasks s) t true
}.

(** What a round does not change. *)
Record fixed (s s' : scheduler) : Prop := mk_fixed {
  fx_cores : running_cpu_count s' = running_cpu_count s;
  fx_idles : scheduler_idles s' = scheduler_idles s;
  fx_running : cpu_running s' = cpu_running s;
  fx_list : task_list s' = task_list s;
  fx_uid : forall t, uid <$> tasks s' !! t = uid <$> tasks s !! t
}.

#[global] Instance fixed_preorder : PreOrder fixed.
Proof.
  split.
  - intros s. by split.
  - intros s1 s2 s3 [] []. split; congruence.
Qed.

Lemma fixed_dom s s' t : fixed s s' -> is_Some (tasks s !! t) <-> is_Some (tasks s' !! t).
Proof.
  intros [_ _ _ _ Hu]. specialize (Hu t). rewrite <- !(fmap_is_Some uid). by rewrite Hu.
Qed.

(** * Control blocks *)

Lemma queue_range b : 0 <= queue b < TASK_QUEUE_COUNT.
Proof. unfold queue, clamp, TASK_QUEUE_COUNT. lia. Qed.

Lemma upd_sched_eq s t f x :
  tasks s !! t = Some x ->
  upd_sched t f s = Ret (with_tasks (<[t := mk_Task (uid x) (f (sched x))]> (tasks s)) s).
Proof. intros Hx. unfold upd_sched. by rewrite Hx. Qed.

Lemma get_sched_eq s t x : tasks s !! t = Some x -> get_sched s t = Ret (sched x).
Proof. intros Hx. unfold get_sched. by rewrite Hx. Qed.

(** An update that keeps what [tasks_wf] is about. *)
Lemma tasks_wf_upd n idles m t x b :
  tasks_wf n idles m -> m !! t = Some x -> is_idle b = is_idle (sched x) ->
  -1 <= cpu_affinity b < n -> -1 <= old_cpu_affinity b < n ->
  tasks_wf n idles (<[t := mk_Task (uid x) b]> m).
Proof.
  intros [H1 H2 H3 H4] Ht Hi Hc Ho. split.
  - rewrite lookup_insert_ne; [done|]. intros ->. by rewrite Ht in H1.
  - intros t' x'. destruct (decide (t' = t)) as [->|].
    + rewrite lookup_insert_eq. intros [= <-]. simpl. rewrite Hi. by apply H2.
    + rewrite lookup_insert_ne by done. apply H2.
  - intros t' Ht'. destruct (decide (t' = t)) as [->|].
    + rewrite lookup_insert_eq. by eexists.
    + rewrite lookup_insert_ne by done. by apply H3.
  - intros t' x'. destruct (decide (t' = t)) as [->|].
    + rewrite lookup_insert_eq. intros [= <-]. done.
    + rewrite lookup_insert_ne by done. apply H4.
Qed.

Lemma fixed_upd s t x b :
  tasks s !! t = Some x -> fixed s (with_tasks (<[t := mk_Task (uid x) b]> (tasks s)) s).
Proof.
  intros Hx. split; try done. intros t'. simpl. destruct (decide (t' = t)) as [->|].
  - by rewrite lookup_insert_eq, Hx.
  - by rewrite lookup_insert_ne.
Qed.

Lemma has_mutex_upd m t t' x b v :
  m !! t = Some x -> mutex b = mutex (sched x) -> has_mutex m t' v ->
  has_mutex (<[t := mk_Task (uid x) b]> m) t' v.
Proof.
  intros Hx Hb (y & Hy & Hv). destruct (decide (t' = t)) as [->|].
  - eexists. rewrite lookup_insert_eq. split; [done|]. simpl. congruence.
  - exists y. by rewrite lookup_insert_ne.
Qed.

(** Which tasks are blocked does not change. *)
Definition same_mutexes (s s' : scheduler) : Prop :=
  forall t, mutex ∘ sched <$> tasks s' !! t = mutex ∘ sched <$> tasks s !! t.

#[global] Instance same_mutexes_preorder : PreOrder same_mutexes.
Proof. split; [done|]. intros s1 s2 s3 H1 H2 t. by rewrite H2. Qed.

Lemma same_mutexes_upd s s' t x b :
  tasks s !! t = Some x -> mutex b = mutex (sched x) ->
  tasks s' = <[t := mk_Task (uid x) b]> (tasks s) -> same_mutexes s s'.
Proof.
  intros Hx Hb E t'. rewrite E. destruct (decide (t' = t)) as [->|].
  - rewrite lookup_insert_eq, Hx. simpl. by rewrite Hb.
  - by rewrite lookup_insert_ne.
Qed.

Lemma has_mutex_same s s' t v : same_mutexes s s' -> has_mutex (tasks s) t v -> has_mutex (tasks s') t v.
Proof.
  intros H (x & Hx & Hv). specialize (H t). rewrite Hx in H.
  destruct (tasks s' !! t) as [x'|] eqn:Hx'; simpl in H; [|done].
  injection H as H. exists x'. split; [done|congruence].
Qed.

(** A control block changes in what concerns none of it. *)
Lemma wf_upd s t x b :
  wf s -> tasks s !! t = Some x -> is_idle b = is_idle (sched x) -> mutex b = mutex (sched x) ->
  -1 <= cpu_affinity b < running_cpu_count s -> -1 <= old_cpu_affinity b < running_cpu_count s ->
  wf (with_tasks (<[t := mk_Task (uid x) b]> (tasks s)) s).
Proof.
  intros Hwf Hx Hi Hm Hc Ho. pose proof Hwf as [H1 H2 H3 H4 H5 H6 H7 H8 H9 H10 H11 H12].
  split; try done; simpl.
  - by apply tasks_wf_upd.
  - intros t' Ht'. apply H6 in Ht' as [Hs ?]. split; [|done].
    destruct (decide (t' = t)) as [->|]; [rewrite lookup_insert_eq|rewrite lookup_insert_ne]; done.
  - intros t' Ht'. by apply has_mutex_upd, H11.
  - intros Hd t' Ht'. by apply has_mutex_upd, H12.
Qed.

(** The tasks stay where they are; only their order, queue or core changes. *)
Lemma wf_move s s' :
  wf s -> fixed s s' -> tasks_wf (running_cpu_count s) (scheduler_idles s) (tasks s') ->
  zlen (task_queues s') = TASK_QUEUE_COUNT -> zlen (next_task_to_run s') = running_cpu_count s ->
  members s' ≡ₚ members s ->
  (forall i t, next_task_to_run s' !! i = Some t -> t ∈ scheduler_idles s ->
     scheduler_idles s !! i = Some t) ->
  awaiting_task_count s' = zlen (queued s') ->
  (forall t, t ∈ concat (task_queues s') -> has_mutex (tasks s') t false) ->
  (blocked_task_dirty s' = false -> forall t, t ∈ blocked_tasks s' -> has_mutex (tasks s') t true) ->
  wf s'.
Proof.
  intros [H1 H2 H3 H4 H5 H6 H7 H8 H9 H10 H11 H12] Hf Ht Hq Hn Hp Hsl Hc Hr Hb.
  pose proof Hf as [F1 F2 F3 F4 F5].
  split; try done; rewrite ?F1, ?F2; try done.
  - intros t Hin. rewrite Hp in Hin. apply H6 in Hin as [? ?]. by rewrite <- fixed_dom.
  - by rewrite Hp.
  - by rewrite Hp.
Qed.

(** * Lists of tasks *)

Lemma concat_perm {A} (l l' : list (list A)) : l ≡ₚ l' -> concat l ≡ₚ concat l'.
Proof.
  induction 1 as [|x l l' _ IH|x y l|l1 l2 l3 _ IH1 _ IH2]; simpl; [done|by rewrite IH| |by rewrite IH1].
  rewrite !app_assoc. by rewrite (Permutation_app_comm y x).
Qed.

Lemma insert_delete_perm {A} (l : list A) i x : (i < length l)%nat -> <[i := x]> l ≡ₚ x :: delete i l.
Proof.
  intros Hi. destruct (lookup_lt_is_Some_2 l i Hi) as [y Hy].
  rewrite (delete_Permutation (<[i := x]> l) i x) by (by apply list_lookup_insert_eq).
  apply Permutation_cons; [done|]. rewrite insert_take_drop by done. 
  rewrite !delete_take_drop. apply lookup_lt_Some in Hy.
  rewrite take_app_length' by (rewrite length_take; lia).
  rewrite drop_app_ge by (rewrite length_take; lia). rewrite length_take.
  replace (S i - i `min` length l)%nat with 1%nat by lia. done.
Qed.

(** One queue of the list changes. *)
Lemma concat_insert_perm {A} (l : list (list A)) i q q' :
  l !! i = Some q -> concat (<[i := q']> l) ++ q ≡ₚ concat l ++ q'.
Proof.
  intros Hq. assert (i < length l)%nat as Hi by (by eapply lookup_lt_Some).
  rewrite (concat_perm _ _ (insert_delete_perm l i q' Hi)).
  rewrite (concat_perm _ _ (delete_Permutation l i q Hq)). simpl. solve_Permutation.
Qed.

Lemma concat_insert_push {A} (l : list (list A)) i q x :
  l !! i = Some q -> concat (<[i := q ++ [x]]> l) ≡ₚ x :: concat l.
Proof.
  intros Hq. apply (Permutation_app_inv_r q). rewrite (concat_insert_perm _ _ q) by done. solve_Permutation.
Qed.

Lemma concat_insert_pop {A} (l : list (list A)) i q j x :
  l !! i = Some q -> q !! j = Some x -> x :: concat (<[i := delete j q]> l) ≡ₚ concat l.
Proof.
  intros Hq Hx. apply (Permutation_app_inv_r q). simpl. rewrite (concat_insert_perm _ _ q) by done.
  rewrite (delete_Permutation q j x) at 2 by done. solve_Permutation.
Qed.

(** The tasks of the cores when one core gets another task. *)
Lemma slots_busy (idles next : list Z) i u t :
  next !! i = Some u -> u ∈ idles -> t ∉ idles ->
  filter (fun t => t ∉ idles) (<[i := t]> next) ≡ₚ t :: filter (fun t => t ∉ idles) next.
Proof.
  intros Hu Hin Hni. assert (i < length next)%nat as Hi by (by eapply lookup_lt_Some).
  rewrite (insert_delete_perm next i t Hi).
  rewrite (delete_Permutation next i u Hu) at 2.
  rewrite !filter_cons. rewrite decide_True by done. rewrite decide_False by naive_solver. done.
Qed.

Lemma slots_idle (idles next : list Z) i u t :
  next !! i = Some t -> t ∉ idles -> u ∈ idles ->
  t :: filter (fun t => t ∉ idles) (<[i := u]> next) ≡ₚ filter (fun t => t ∉ idles) next.
Proof.
  intros Ht Hni Hin. assert (i < length next)%nat as Hi by (by eapply lookup_lt_Some).
  rewrite (insert_delete_perm next i u Hi). rewrite (delete_Permutation next i t Ht) at 2.
  rewrite !filter_cons. rewrite (decide_True (P := t ∉ idles)) by done.
  rewrite decide_False by naive_solver. done.
Qed.

(** * Adding to a queue *)

Definition enqueued (t : Z) (b : SchedulerControlBlock) (s : scheduler) : scheduler :=
  if mutex b
  then with_blocked (blocked_tasks s ++ [t]) (with_count (awaiting_task_count s + 1) s)
  else
    let i := Z.to_nat (queue b) in
    with_count (awaiting_task_count s + 1)
      (with_queues (<[i := default [] (task_queues s !! i) ++ [t]]> (task_queues s)) s).

Lemma get_queue_eq s i :
  0 <= i < zlen (task_queues s) ->
  exists q, task_queues s !! Z.to_nat i = Some q /\ get_queue s i = Ret q.
Proof.
  intros Hi. unfold get_queue. rewrite aget_lookup by lia.
  destruct (lookup_lt_is_Some_2 (task_queues s) (Z.to_nat i)) as [q Hq]; [lia|].
  exists q. by rewrite Hq.
Qed.

Lemma set_queue_eq s i q :
  0 <= i < zlen (task_queues s) ->
  set_queue i q s = Ret (with_queues (<[Z.to_nat i := q]> (task_queues s)) s).
Proof. intros Hi. unfold set_queue. by rewrite aset_in_range. Qed.

Lemma add_entity_eq s t x :
  zlen (task_queues s) = TASK_QUEUE_COUNT -> tasks s !! t = Some x -> t <> 0 ->
  is_idle (sched x) = false ->
  add_entity_to_queue t s = Ret (enqueued t (sched x) s).
Proof.
  intros Hl Hx Ht Hi. unfold add_entity_to_queue, enqueued. rewrite (proj2 (Z.eqb_neq _ _) Ht).
  rewrite (get_sched_eq _ _ _ Hx). cbn. rewrite Hi. destruct (mutex (sched x)); [done|].
  pose proof (queue_range (sched x)).
  destruct (get_queue_eq s (queue (sched x))) as (q & Hq & ->); [by rewrite Hl|]. cbn.
  rewrite set_queue_eq by (by rewrite Hl). by rewrite Hq.
Qed.

Section enqueued.
Context (s : scheduler) (t : Z) (b : SchedulerControlBlock).
Hypothesis Hlen : zlen (task_queues s) = TASK_QUEUE_COUNT.

Lemma enqueued_lookup :
  exists q, task_queues s !! Z.to_nat (queue b) = Some q.
Proof.
  apply lookup_lt_is_Some_2. pose proof (queue_range b). lia.
Qed.

Lemma enqueued_queued : queued (enqueued t b s) ≡ₚ t :: queued s.
Proof.
  unfold queued, enqueued. destruct (mutex b); simpl; [solve_Permutation|].
  destruct enqueued_lookup as [q Hq]. rewrite Hq. simpl. by rewrite (concat_insert_push _ _ q).
Qed.

Lemma enqueued_runnable t' :
  t' ∈ concat (task_queues (enqueued t b s)) ->
  (t' = t /\ mutex b = false) \/ t' ∈ concat (task_queues s).
Proof.
  unfold enqueued. destruct (mutex b); simpl; [by right|].
  destruct enqueued_lookup as [q Hq]. rewrite Hq. simpl.
  rewrite (concat_insert_push _ _ q) by done. intros [->|]%elem_of_cons; auto.
Qed.

Lemma enqueued_blocked t' :
  t' ∈ blocked_tasks (enqueued t b s) ->
  (t' = t /\ mutex b = true) \/ t' ∈ blocked_tasks s.
Proof.
  unfold enqueued. destruct (mutex b); simpl; [|by right].
  intros [| ->%list_elem_of_singleton]%elem_of_app; auto.
Qed.

Lemma enqueued_length : zlen (task_queues (enqueued t b s)) = TASK_QUEUE_COUNT.
Proof. unfold enqueued. destruct (mutex b); simpl; [done|]. by rewrite length_insert. Qed.

Lemma enqueued_count : awaiting_task_count (enqueued t b s) = u64 (awaiting_task_count s + 1).
Proof. unfold enqueued. by destruct (mutex b). Qed.

Lemma enqueued_same :
  let s' := enqueued t b s in
  tasks s' = tasks s /\ next_task_to_run s' = next_task_to_run s /\
  scheduler_idles s' = scheduler_idles s /\ blocked_task_dirty s' = blocked_task_dirty s /\
  running_cpu_count s' = running_cpu_count s.
Proof. unfold enqueued. by destruct (mutex b). Qed.

Lemma enqueued_fixed : fixed s (enqueued t b s).
Proof. unfold enqueued. by destruct (mutex b). Qed.
End enqueued.

(** Queues only grow at their ends. *)
Definition grows (s s' : scheduler) : Prop := Forall2 prefix (task_queues s) (task_queues s').

#[global] Instance grows_preorder : PreOrder grows.
Proof.
  split; unfold grows.
  - intros s. reflexivity.
  - intros s1 s2 s3. apply transitivity.
Qed.

Lemma enqueued_grows s t b : grows s (enqueued t b s).
Proof.
  unfold enqueued, grows. destruct (mutex b); simpl; [reflexivity|].
  set (i := Z.to_nat _). destruct (task_queues s !! i) as [q|] eqn:Hq; simpl.
  - rewrite <- (list_insert_id (task_queues s) i q Hq) at 1.
    apply Forall2_insert; [reflexivity|]. by exists [t].
  - rewrite list_insert_ge by (by apply lookup_ge_None_1). reflexivity.
Qed.

(** [moved s s']: a part of a round has brought the tasks of [s] to where they
    are in [s']. *)
Record moved (s s' : scheduler) : Prop := mk_moved {
  mv_wf : wf s';
  mv_fixed : fixed s s';
  mv_members : members s' ≡ₚ members s
}.

Lemma moved_trans s1 s2 s3 : moved s1 s2 -> moved s2 s3 -> moved s1 s3.
Proof.
  intros [_ F1 P1] [W2 F2 P2]. split; [done|by trans s2|]. by rewrite P2.
Qed.

Lemma moved_refl s : wf s -> moved s s.
Proof. by split. Qed.

Lemma wf_lookup s t : wf s -> t ∈ members s -> exists x,
  tasks s !! t = Some x /\ t <> 0 /\ is_idle (sched x) = false.
Proof.
  intros Hwf Ht. destruct (wf_members _ Hwf t Ht) as [[x Hx] Hni]. exists x. split; [done|].
  pose proof (wf_tasks _ Hwf) as [H1 H2 _ _]. split.
  - intros ->. by rewrite Hx in H1.
  - rewrite (H2 t x Hx). by apply bool_decide_eq_false_2.
Qed.

Lemma wf_next_lookup s i :
  wf s -> (i < length (next_task_to_run s))%nat -> exists t, next_task_to_run s !! i = Some t /\
    (t ∈ scheduler_idles s \/ t ∈ slots s).
Proof.
  intros Hwf Hi. destruct (lookup_lt_is_Some_2 _ i Hi) as [t Ht]. exists t. split; [done|].
  destruct (decide (t ∈ scheduler_idles s)); [by left|right].
  apply list_elem_of_filter. split; [done|]. by eapply list_elem_of_lookup_2.
Qed.

Lemma slots_members s t : t ∈ slots s -> t ∈ members s.
Proof. intros. apply elem_of_app. by right. Qed.

(** What is at a core: its own idle task, or a task. *)
Lemma wf_next_task s i :
  wf s -> 0 <= i < running_cpu_count s -> exists t x,
    next_task_to_run s !! Z.to_nat i = Some t /\ get_next s i = Ret t /\ tasks s !! t = Some x /\
    t <> 0 /\ is_idle (sched x) = bool_decide (t ∈ scheduler_idles s).
Proof.
  intros Hwf Hi. pose proof (wf_next _ Hwf).
  destruct (wf_next_lookup s (Z.to_nat i) Hwf) as (t & Ht & Hin); [lia|].
  pose proof (wf_tasks _ Hwf) as [T1 T2 T3 _].
  assert (is_Some (tasks s !! t)) as [x Hx].
  { destruct Hin; [by apply T3|]. by apply (wf_members _ Hwf), slots_members. }
  exists t, x. split; [done|]. split; [|split; [done|split]].
  - unfold get_next. rewrite aget_lookup by lia. by rewrite Ht.
  - intros ->. by rewrite Hx in T1.
  - by apply T2.
Qed.

Lemma wf_idle s i :
  wf s -> 0 <= i < running_cpu_count s -> exists t,
    scheduler_idles s !! Z.to_nat i = Some t /\ idle_of s i = Ret t /\ t ∈ scheduler_idles s.
Proof.
  intros Hwf Hi. destruct (wf_idles _ Hwf) as [_ Hl].
  destruct (lookup_lt_is_Some_2 (scheduler_idles s) (Z.to_nat i)) as [t Ht]; [lia|].
  exists t. unfold idle_of. rewrite aget_lookup by lia. rewrite Ht.
  split; [done|]. split; [done|]. by eapply list_elem_of_lookup_2.
Qed.

Lemma set_next_eq s i t :
  0 <= i < zlen (next_task_to_run s) ->
  set_next i t s = Ret (with_next (<[Z.to_nat i := t]> (next_task_to_run s)) s).
Proof. intros Hi. unfold set_next. by rewrite aset_in_range. Qed.

Lemma set_next_idle_eq s i u :
  0 <= i < zlen (next_task_to_run s) -> idle_of s i = Ret u ->
  set_next_idle i s = Ret (with_next (<[Z.to_nat i := u]> (next_task_to_run s)) s).
Proof. intros Hi Hu. unfold set_next_idle. rewrite Hu. by apply set_next_eq. Qed.

(** * The start of a round *)

(** ** Blocked tasks whose mutex has been released *)

(** With the flag set, nothing is said of the mutexes of the blocked tasks. *)
Lemma wf_settle s d :
  wf (with_dirty true s) -> (d = false -> forall t, t ∈ blocked_tasks s -> has_mutex (tasks s) t true) ->
  wf (with_dirty d s).
Proof. intros [H1 H2 H3 H4 H5 H6 H7 H8 H9 H10 H11 _] Hb. by split. Qed.

Lemma wf_dirty s : wf s -> wf (with_dirty true s).
Proof. intros [H1 H2 H3 H4 H5 H6 H7 H8 H9 H10 H11 _]. by split. Qed.

Lemma members_bound s t l : wf s -> members s ≡ₚ t :: l -> zlen (queued s) < 2 ^ 62.
Proof.
  intros Hwf _. pose proof (wf_bound _ Hwf) as H. unfold members in H. rewrite length_app in H. lia.
Qed.

(** One task goes from the list of blocked tasks to a queue. *)
Lemma resolve_one s i t x :
  wf (with_dirty true s) -> 0 <= i -> aget (blocked_tasks s) i = Some t -> tasks s !! t = Some x ->
  mutex (sched x) = false ->
  let s1 := with_tasks (<[t := mk_Task (uid x) (set_mutex false (sched x))]> (tasks s)) s in
  let s2 := enqueued t (set_mutex false (sched x)) s1 in
  let s3 := with_count (awaiting_task_count s2 - 1)
              (with_blocked (delete (Z.to_nat i) (blocked_tasks s2)) s2) in
  add_entity_to_queue t s1 = Ret s2 /\ blocked_tasks s2 = blocked_tasks s /\
  wf (with_dirty true s3) /\ fixed s s3 /\ members s3 ≡ₚ members s /\ grows s s3 /\
  next_task_to_run s3 = next_task_to_run s /\
  (forall t' v, has_mutex (tasks s) t' v -> has_mutex (tasks s3) t' v).
Proof.
  intros Hwf Hi Hget Hx Hm s1 s2 s3. rewrite aget_lookup in Hget by lia.
  pose proof (wf_upd _ t x (set_mutex false (sched x)) Hwf Hx) as Hwf1.
  assert (tasks_wf (running_cpu_count s) (scheduler_idles s) (tasks s)) as Ht by apply Hwf.
  pose proof (tw_cores _ _ _ Ht t x Hx) as Hc.
  assert (wf (with_dirty true s1)) as Hwf1' by (apply Hwf1; simpl; naive_solver).
  assert (t ∈ members s) as Hin.
  { apply elem_of_app. left. apply elem_of_app. right. by eapply list_elem_of_lookup_2. }
  destruct (wf_lookup _ t Hwf Hin) as (x' & Hx' & Hnz & Hni). simpl in Hx'.
  assert (x' = x) as -> by congruence.
  assert (zlen (task_queues s1) = TASK_QUEUE_COUNT) as Hlen by apply Hwf.
  assert (add_entity_to_queue t s1 = Ret s2) as Hadd.
  { apply (add_entity_eq s1 t (mk_Task (uid x) (set_mutex false (sched x)))); try done.
    simpl. by rewrite lookup_insert_eq. }
  assert (blocked_tasks s2 = blocked_tasks s) as Hb by done.
  split; [done|]. split; [done|].
  pose proof (fixed_upd s t x (set_mutex false (sched x)) Hx) as Hf1. fold s1 in Hf1.
  assert (fixed s s3) as Hf3 by (trans s1; [done|]; by split).
  assert (queued s3 ≡ₚ queued s) as Hq.
  { pose proof (enqueued_queued s1 t (set_mutex false (sched x)) Hlen) as H. fold s2 in H.
    change (queued s1) with (queued s) in H.
    change (queued s2) with (concat (task_queues s2) ++ blocked_tasks s) in H.
    change (queued s3) with (concat (task_queues s2) ++ delete (Z.to_nat i) (blocked_tasks s)).
    apply (Permutation_cons_inv (a := t)). rewrite <- H.
    rewrite (delete_Permutation (blocked_tasks s) (Z.to_nat i) t Hget) at 2.
    solve_Permutation. }
  assert (members s3 ≡ₚ members s) as Hmem by (unfold members; by rewrite Hq).
  assert (forall t' v, has_mutex (tasks s) t' v -> has_mutex (tasks s3) t' v) as Hmut.
  { intros t' v Hv. apply has_mutex_upd; done. }
  split; [|split; [done|split; [done|split; [|done]]]].
  - apply (wf_move (with_dirty true s)); try done.
    + split; try apply Hf3.
    + apply Hwf1'.
    + by apply enqueued_length.
    + apply Hwf.
    + apply Hwf.
    + pose proof (wf_count _ Hwf) as Hn. simpl in Hn.
      pose proof (wf_bound _ Hwf) as Hbd. unfold members in Hbd. rewrite length_app in Hbd.
      change (zlen (queued (with_dirty true s3))) with (zlen (queued s3)). rewrite Hq.
      change (queued (with_dirty true s)) with (queued s) in *. simpl.
      rewrite Hn, (wrapu_small 64 (_ + 1)) by lia. rewrite wrapu_small by lia. lia.
    + intros t' Ht'. apply enqueued_runnable in Ht' as [[-> _]|Ht']; [| |done].
      * eexists. simpl. rewrite lookup_insert_eq. split; [done|]. done.
      * apply Hmut. by apply (wf_runnable _ Hwf).
  - exact (enqueued_grows s1 t (set_mutex false (sched x))).
Qed.

Definition settled (i : Z) (s : scheduler) : Prop :=
  forall j t, 0 <= j < i -> aget (blocked_tasks s) j = Some t -> has_mutex (tasks s) t true.

Lemma resolve_loop_spec fuel : forall i u s,
  wf (with_dirty true s) -> 0 <= i -> settled i s -> Z.max 0 (zlen (blocked_tasks s) - i) < Z.of_nat fuel ->
  returns (fun '(_, s') => wf (with_dirty true s') /\ fixed s s' /\ members s' ≡ₚ members s /\
    grows s s' /\ next_task_to_run s' = next_task_to_run s /\
    blocked_task_dirty s' = blocked_task_dirty s /\
    forall t, t ∈ blocked_tasks s' -> has_mutex (tasks s') t true) (resolve_loop fuel i u s).
Proof.
  induction fuel as [|fuel IH]; intros i u s Hwf Hi Hset Hfuel; cbn [resolve_loop].
  { lia. }
  destruct (Z.leb_spec (zlen (blocked_tasks s)) i) as [Hend|Hlt].
  { do 6 (split; [done|]). intros t [j Hj]%list_elem_of_lookup. apply (Hset (Z.of_nat j)); [|by rewrite aget_nat].
    apply lookup_lt_Some in Hj. lia. }
  destruct (aget_in_range (blocked_tasks s) i) as [t Ht]; [lia|]. rewrite Ht. cbn.
  assert (t ∈ members s) as Hin.
  { apply elem_of_app. left. apply elem_of_app. right. rewrite aget_lookup in Ht by lia.
    by eapply list_elem_of_lookup_2. }
  destruct (wf_lookup _ t Hwf Hin) as (x & Hx & _). simpl in Hx.
  rewrite (get_sched_eq _ _ _ Hx). cbn. destruct (mutex (sched x)) eqn:Hm.
  - apply IH; [done|lia| |lia]. intros j t' Hj Hj'. destruct (decide (j = i)) as [->|].
    + assert (t' = t) as -> by congruence. by exists x.
    + apply (Hset j); [lia|done].
  - destruct (resolve_one s i t x Hwf Hi Ht Hx Hm) as (Hadd & Hb & Hwf3 & Hf & Hp & Hg & Hn & Hmut).
    rewrite (upd_sched_eq _ _ _ _ Hx). cbn [mbind ctl_bind]. rewrite Hadd.
    cbn [mbind ctl_bind]. unfold vec_pop_at. rewrite Hb, Ht. cbn [mbind ctl_bind deref].
    eapply returns_impl; [apply IH; [exact Hwf3|done| |]|].
    + intros j t' Hj Hj'. apply Hmut. apply (Hset j); [done|].
      change (aget (delete (Z.to_nat i) (blocked_tasks s)) j = Some t') in Hj'.
      rewrite aget_lookup in Hj' by lia. rewrite list_lookup_delete_lt in Hj' by lia.
      by rewrite aget_lookup by lia.
    + change (Z.max 0 (zlen (delete (Z.to_nat i) (blocked_tasks s)) - i) < Z.of_nat fuel).
      rewrite length_delete by (rewrite aget_lookup in Ht by lia; by eexists). lia.
    + intros [v s'] (W & F & P & G & N & D & A). split; [done|]. split; [by etrans|].
      split; [by rewrite P|]. split; [by etrans|]. split; [by rewrite N|]. split; [by rewrite D|done].
Qed.

(** ** Ageing *)

(** Every queue has gone to the one before it. *)
Definition shifted (qs : list (list Z)) : list (list Z) :=
  match qs with q0 :: q1 :: rest => (q0 ++ q1) :: rest ++ [[]] | _ => qs end.

Lemma for_range_S {A} i n (body : Z -> A -> ctl A) a :
  for_range i (S n) body a = a ← body i a; for_range (i + 1) n body a.
Proof. done. Qed.

(** After [k] of the [127] turns the empty queue is at index [k]. *)
Lemma shift_queue_turn (s : scheduler) front q rest k :
  k <> 0 -> zlen front = k ->
  shift_queue k (with_queues (front ++ [] :: q :: rest) s) =
    Ret (with_queues ((front ++ [q]) ++ [] :: rest) s).
Proof.
  intros Hk Hl. unfold shift_queue. set (s' := with_queues _ s).
  assert (forall i x, front ++ [] :: q :: rest = front ++ i :: x -> True) as _ by done.
  unfold get_queue. change (task_queues s') with (front ++ [] :: q :: rest).
  rewrite !aget_lookup by lia. rewrite !lookup_app_r by lia.
  replace (Z.to_nat k - length front)%nat with 0%nat by lia.
  replace (Z.to_nat (k + 1) - length front)%nat with 1%nat by lia. cbn [lookup list_lookup deref].
  cbn [mbind ctl_bind]. rewrite (proj2 (Z.eqb_neq _ _) Hk).
  rewrite set_queue_eq by (simpl; rewrite length_app; simpl; lia). cbn [mbind ctl_bind].
  change (task_queues s') with (front ++ [] :: q :: rest).
  rewrite insert_app_r_alt by lia. replace (Z.to_nat k - length front)%nat with 0%nat by lia.
  rewrite set_queue_eq by (simpl; rewrite length_app; simpl; lia). simpl.
  rewrite insert_app_r_alt by lia. replace (Z.to_nat (k + 1) - length front)%nat with 1%nat by lia.
  simpl. by rewrite <- app_assoc.
Qed.

Lemma shift_loop s rest : forall front,
  front <> [] ->
  for_range (zlen front) (length rest) shift_queue (with_queues (front ++ [] :: rest) s) =
    Ret (with_queues (front ++ rest ++ [[]]) s).
Proof.
  induction rest as [|q rest IH]; intros front Hf; [done|].
  cbn [length]. rewrite for_range_S, shift_queue_turn; [|destruct front; simpl; [done|lia]|done].
  cbn [mbind ctl_bind]. replace (zlen front + 1) with (zlen (front ++ [q])) by (rewrite length_app; simpl; lia).
  rewrite IH by (by destruct front). by rewrite <- app_assoc.
Qed.

Lemma shift_queues_eq s :
  zlen (task_queues s) = TASK_QUEUE_COUNT ->
  shift_queues s = Ret (with_queues (shifted (task_queues s)) s).
Proof.
  unfold TASK_QUEUE_COUNT. intros Hl. unfold shift_queues.
  destruct (task_queues s) as [|q0 [|q1 rest]] eqn:Hq; [done|done|].
  simpl in Hl. change (Z.to_nat (TASK_QUEUE_COUNT - 1)) with (S 126). rewrite for_range_S.
  assert (shift_queue 0 s = Ret (with_queues ((q0 ++ q1) :: [] :: rest) s)) as ->.
  { unfold shift_queue, get_queue. rewrite Hq.
    change (aget (q0 :: q1 :: rest) 0) with (Some q0).
    change (aget (q0 :: q1 :: rest) (0 + 1)) with (Some q1). cbn [deref mbind ctl_bind].
    change (0 =? 0) with true. cbv iota.
    rewrite set_queue_eq by (rewrite Hq; simpl; lia). cbn [mbind ctl_bind]. rewrite Hq.
    rewrite set_queue_eq by (simpl; lia). done. }
  cbn [mbind ctl_bind]. change ((q0 ++ q1) :: [] :: rest) with ([q0 ++ q1] ++ [] :: rest).
  change (0 + 1) with (zlen [q0 ++ q1]). replace 126%nat with (length rest) by lia.
  rewrite shift_loop by done. cbn [mbind ctl_bind].
  rewrite set_queue_eq by (simpl; rewrite length_app; simpl; unfold TASK_QUEUE_COUNT; lia).
  unfold TASK_QUEUE_COUNT. replace (Z.to_nat (128 - 1)) with (S (length rest)) by lia.
  unfold with_queues. cbn. do 3 f_equal.
  apply list_insert_id. by rewrite lookup_app_r, Nat.sub_diag.
Qed.

Lemma shifted_concat qs : concat (shifted qs) = concat qs.
Proof.
  destruct qs as [|q0 [|q1 rest]]; [done|done|]. simpl. rewrite concat_app. simpl.
  by rewrite app_nil_r, app_assoc.
Qed.

Lemma shifted_length qs : length (shifted qs) = length qs.
Proof. destruct qs as [|q0 [|q1 rest]]; [done|done|]. simpl. rewrite length_app. simpl. lia. Qed.

Lemma wf_queues_perm s qs :
  wf s -> zlen qs = TASK_QUEUE_COUNT -> concat qs ≡ₚ concat (task_queues s) ->
  moved s (with_queues qs s).
Proof.
  intros Hwf Hl Hp.
  assert (queued (with_queues qs s) ≡ₚ queued s) as Hq by (unfold queued; simpl; by rewrite Hp).
  assert (members (with_queues qs s) ≡ₚ members s) as Hm by (unfold members; by rewrite Hq).
  split; [|by split|done].
  apply (wf_move s); try done.
  - apply (wf_tasks _ Hwf).
  - apply (wf_next _ Hwf).
  - apply (wf_slots _ Hwf).
  - rewrite Hq. apply (wf_count _ Hwf).
  - intros t Ht. simpl in *. rewrite Hp in Ht. by apply (wf_runnable _ Hwf).
  - apply (wf_blocked _ Hwf).
Qed.

(** ** Sleeping time *)

(** Updates of the control blocks alone. *)
Definition same_places (s s' : scheduler) : Prop :=
  task_queues s' = task_queues s /\ next_task_to_run s' = next_task_to_run s /\
  blocked_tasks s' = blocked_tasks s /\ blocked_task_dirty s' = blocked_task_dirty s.

Lemma wf_upd_moved s t x f :
  wf s -> tasks s !! t = Some x -> is_idle (f (sched x)) = is_idle (sched x) ->
  mutex (f (sched x)) = mutex (sched x) ->
  -1 <= cpu_affinity (f (sched x)) < running_cpu_count s ->
  -1 <= old_cpu_affinity (f (sched x)) < running_cpu_count s ->
  returns (fun s' => moved s s' /\ same_places s s' /\
    tasks s' = <[t := mk_Task (uid x) (f (sched x))]> (tasks s)) (upd_sched t f s).
Proof.
  intros Hwf Hx Hi Hm Hc Ho. rewrite (upd_sched_eq _ _ _ _ Hx). simpl.
  split; [|done]. split; [by apply wf_upd|by apply fixed_upd|done].
Qed.

Lemma sum_weights_returns s l : forall z,
  (forall t, t ∈ l -> is_Some (tasks s !! t)) ->
  returns (fun _ => True) (for_list l (fun t sum => positive_weight t s sum) z).
Proof.
  induction l as [|t l IH]; intros z Hl; [done|]. cbn [for_list].
  destruct (Hl t) as [x Hx]; [by left|]. unfold positive_weight at 2.
  rewrite (get_sched_eq _ _ _ Hx). cbn [mbind ctl_bind]. apply IH. intros. apply Hl. by right.
Qed.

Lemma add_sleep_loop n l : forall s, wf s -> (forall t, t ∈ l -> is_Some (tasks s !! t)) ->
  returns (fun s' => moved s s' /\ same_places s s') (for_list l (fun t => upd_sched t (add_sleeping n)) s).
Proof.
  induction l as [|t l IH]; intros s Hwf Hl; [by split; [apply moved_refl|]|].
  cbn [for_list].
  destruct (Hl t) as [x Hx]; [by left|].
  pose proof (tw_cores _ _ _ (wf_tasks _ Hwf) t x Hx) as [? ?].
  eapply returns_bind; [by apply (wf_upd_moved s t x)|]. intros s1 (M1 & (P1 & P2 & P3 & P4) & _).
  eapply returns_impl; [apply IH; [apply M1|]|].
  - intros t' Ht'. rewrite <- (fixed_dom s s1) by apply M1. apply Hl. by right.
  - intros s2 [M2 (Q1 & Q2 & Q3 & Q4)]. split; [by eapply moved_trans|]. split_and!; congruence.
Qed.

Lemma queued_live s t : wf s -> t ∈ queued s -> is_Some (tasks s !! t).
Proof. intros Hwf Ht. apply (wf_members _ Hwf). apply elem_of_app. by left. Qed.

Lemma add_sleep_spec s :
  wf s -> returns (fun s' => moved s s' /\ same_places s s') (add_sleep s).
Proof.
  intros Hwf. unfold add_sleep. eapply (returns_bind (fun _ => True)).
  - unfold summed_weights. eapply (returns_bind (fun _ => True)).
    + apply sum_weights_returns. intros t Ht. apply queued_live; [done|]. apply elem_of_app. by left.
    + intros z _. apply sum_weights_returns. intros t Ht. apply queued_live; [done|].
      apply elem_of_app. by right.
  - intros z _. destruct (_ =? 0); [by split; [apply moved_refl|]|].
    apply add_sleep_loop; [done|]. intros t Ht. apply queued_live; [done|]. apply elem_of_app. by left.
Qed.

(** ** Back to the queues *)

(** Core [i] is left with its idle task. *)
Definition idle_slot (s : scheduler) (i : nat) : Prop :=
  exists u, next_task_to_run s !! i = Some u /\ u ∈ scheduler_idles s.

Definition same_other_slots (i : nat) (s s' : scheduler) : Prop :=
  forall j, j <> i -> next_task_to_run s' !! j = next_task_to_run s !! j.

Lemma count_range s : wf s -> 0 <= awaiting_task_count s < 2 ^ 62.
Proof.
  intros Hwf. rewrite (wf_count _ Hwf). pose proof (wf_bound _ Hwf) as H.
  unfold members in H. rewrite length_app in H. lia.
Qed.

(** The task at a core goes to a queue and the core becomes idle. *)
Lemma put_back s i t x u :
  wf s -> next_task_to_run s !! i = Some t -> tasks s !! t = Some x -> t ∉ scheduler_idles s ->
  scheduler_idles s !! i = Some u ->
  let s2 := enqueued t (sched x) s in
  let s3 := with_next (<[i := u]> (next_task_to_run s2)) s2 in
  moved s s3 /\ grows s s3 /\ blocked_task_dirty s3 = blocked_task_dirty s /\
  idle_slot s3 i /\ same_other_slots i s s3.
Proof.
  intros Hwf Ht Hx Hni Hu s2 s3.
  assert (u ∈ scheduler_idles s) as Hin by (by eapply list_elem_of_lookup_2).
  assert (i < length (next_task_to_run s))%nat as Hi by (by eapply lookup_lt_Some).
  destruct (enqueued_same s t (sched x)) as (E1 & E2 & E3 & E4 & E5). fold s2 in E1, E2, E3, E4, E5.
  assert (fixed s s3) as Hf by (trans s2; [apply enqueued_fixed|by split]).
  assert (queued s3 ≡ₚ t :: queued s) as Hq by (apply (enqueued_queued s t (sched x)), Hwf).
  assert (t :: slots s3 ≡ₚ slots s) as Hsl.
  { unfold slots. simpl. rewrite E3, E2. by apply slots_idle. }
  assert (members s3 ≡ₚ members s) as Hm by (unfold members; rewrite Hq, <- Hsl; solve_Permutation).
  split; [|split; [apply enqueued_grows|split; [exact E4|split]]].
  - split; [|done|done]. apply (wf_move s); try done.
    + simpl. rewrite E1. apply Hwf.
    + apply enqueued_length, Hwf.
    + simpl. rewrite E2, length_insert. apply Hwf.
    + intros j v. simpl. rewrite E2. intros [(<- & <- & _)|[? ?]]%list_lookup_insert_Some; [done|].
      by apply (wf_slots _ Hwf).
    + change (awaiting_task_count s3) with (awaiting_task_count s2). unfold s2.
      rewrite enqueued_count. pose proof (count_range _ Hwf). rewrite wrapu_small by lia.
      rewrite Hq, (wf_count _ Hwf). simpl. lia.
    + intros v Hv. simpl. rewrite E1. apply enqueued_runnable in Hv as [[-> Hv]|Hv]; [|by apply (wf_runnable _ Hwf)|apply Hwf].
      by exists x.
    + intros Hd v Hv. simpl. rewrite E1. apply enqueued_blocked in Hv as [[-> Hv]|Hv].
      * by exists x.
      * apply (wf_blocked _ Hwf); [|done]. simpl in Hd. congruence.
  - exists u. simpl. rewrite E2, E3. split; [by apply list_lookup_insert_eq|done].
  - intros j Hj. simpl. rewrite E2. by apply list_lookup_insert_ne.
Qed.

Lemma requeue_spec s i :
  wf s -> 0 <= i < running_cpu_count s ->
  returns (fun s' => moved s s' /\ grows s s' /\ blocked_task_dirty s' = blocked_task_dirty s /\
             idle_slot s' (Z.to_nat i) /\ same_other_slots (Z.to_nat i) s s') (requeue i s).
Proof.
  intros Hwf Hi. destruct (wf_next_task s i Hwf Hi) as (t & x & Ht & Hget & Hx & Hnz & Hidle).
  unfold requeue. rewrite Hget. cbn [mbind ctl_bind]. rewrite (proj2 (Z.eqb_neq _ _) Hnz).
  rewrite (get_sched_eq _ _ _ Hx). cbn [mbind ctl_bind]. rewrite Hidle.
  case_bool_decide as Hin.
  { split; [by apply moved_refl|]. split; [done|]. split; [done|]. split; [|done]. by exists t. }
  pose proof (tw_cores _ _ _ (wf_tasks _ Hwf) t x Hx) as [Hc Ho].
  set (b := set_old_cpu_affinity i (add_running 1 (sched x))).
  eapply returns_bind; [apply (wf_upd_moved s t x); try done; simpl; lia|].
  intros s1 (M1 & (P1 & P2 & P3 & P4) & T1). fold b in T1.
  pose proof (mv_wf _ _ M1) as Hwf1. pose proof (mv_fixed _ _ M1) as F1.
  rewrite (add_entity_eq s1 t (mk_Task (uid x) b));
    [|apply Hwf1|by rewrite T1, lookup_insert_eq|done|done].
  cbn [mbind ctl_bind sched].
  destruct (wf_idle s1 i Hwf1) as (u & Hu & Hiu & _); [by rewrite (fx_cores _ _ F1)|].
  destruct (put_back s1 (Z.to_nat i) t (mk_Task (uid x) b) u) as (M3 & G3 & D3 & I3 & O3);
    [done|by rewrite P2|by rewrite T1, lookup_insert_eq|by rewrite (fx_idles _ _ F1)|done|].
  destruct (enqueued_same s1 t b) as (E1 & E2 & E3 & E4 & E5).
  rewrite (set_next_idle_eq _ i u).
  - split; [by eapply moved_trans|]. split; [unfold grows in *; by rewrite <- P1|].
    split; [etrans; [exact D3|exact P4]|]. split; [done|].
    intros j Hj. etrans; [exact (O3 j Hj)|]. by rewrite P2.
  - rewrite E2, (wf_next _ Hwf1), (fx_cores _ _ F1). done.
  - unfold idle_of in *. by rewrite E3.
Qed.

(** What the start of a round leaves: the tasks are in the queues, in the order
    they had. *)
Record aged (s s' : scheduler) : Prop := mk_aged {
  ag_moved : moved s s';
  ag_front : forall q, task_queues s !! 0%nat = Some q ->
    exists q', task_queues s' !! 0%nat = Some q' /\ q `prefix_of` q';
  ag_down : forall k q t, task_queues s !! S k = Some q -> t ∈ q ->
    exists q', task_queues s' !! k = Some q' /\ t ∈ q';
  ag_idle : forall i, (i < length (next_task_to_run s'))%nat -> idle_slot s' i;
  ag_blocked : forall t, t ∈ blocked_tasks s' -> has_mutex (tasks s') t true
}.

Lemma requeue_loop k : forall i s,
  wf s -> 0 <= i -> i + Z.of_nat k = running_cpu_count s ->
  (forall j, (j < Z.to_nat i)%nat -> idle_slot s j) ->
  returns (fun s' => moved s s' /\ grows s s' /\ blocked_task_dirty s' = blocked_task_dirty s /\
    forall j, (j < length (next_task_to_run s'))%nat -> idle_slot s' j)
    (for_range i k requeue s).
Proof.
  induction k as [|k IH]; intros i s Hwf Hi Hk Hidle.
  - split; [by apply moved_refl|]. split; [done|]. split; [done|]. intros j Hj. apply Hidle.
    pose proof (wf_next _ Hwf). lia.
  - rewrite for_range_S. eapply returns_bind; [apply requeue_spec; [done|lia]|].
    intros s1 (M1 & G1 & D1 & I1 & O1). pose proof (mv_fixed _ _ M1) as F1.
    eapply returns_impl; [apply IH; [apply M1|lia|rewrite (fx_cores _ _ F1); lia|]|].
    + intros j Hj. destruct (decide (j = Z.to_nat i)) as [->|Hne]; [done|].
      destruct (Hidle j) as (u & Hu & Hin); [lia|]. exists u. rewrite (fx_idles _ _ F1).
      by rewrite O1.
    + intros s2 (M2 & G2 & D2 & I2). split; [by eapply moved_trans|]. split; [by etrans|].
      split; [congruence|done].
Qed.

Lemma resolve_spec s :
  wf (with_dirty true s) ->
  returns (fun '(_, s') => wf (with_dirty true s') /\ fixed s s' /\ members s' ≡ₚ members s /\
    grows s s' /\ next_task_to_run s' = next_task_to_run s /\
    blocked_task_dirty s' = blocked_task_dirty s /\
    forall t, t ∈ blocked_tasks s' -> has_mutex (tasks s') t true)
    (resolve_blocked_tasks_scheduler s).
Proof.
  intros Hwf. unfold resolve_blocked_tasks_scheduler. destruct (blocked_tasks s) as [|t l] eqn:Hb.
  - simpl. repeat (split; [done|]). intros t Ht. rewrite Hb in Ht. by apply not_elem_of_nil in Ht.
  - apply resolve_loop_spec; [done|lia| |].
    + intros j t' Hj. lia.
    + rewrite Hb. lia.
Qed.

Lemma resolve_if_dirty s :
  wf s ->
  returns (fun s' => moved s s' /\ grows s s' /\ blocked_task_dirty s' = false)
    (if blocked_task_dirty s
     then '(_, s) ← resolve_blocked_tasks_scheduler (with_dirty false s); Ret s else Ret s).
Proof.
  intros Hwf. destruct (blocked_task_dirty s) eqn:Hd; [|by split; [apply moved_refl|]].
  eapply returns_bind; [apply (resolve_spec (with_dirty false s)); by apply (wf_dirty s)|].
  intros [z s1] (W & F & P & G & N & D & A). simpl. split; [|done].
  assert (with_dirty false s1 = s1) as E by (simpl in D; rewrite <- D; by destruct s1).
  split; [|by split; try apply F|done]. rewrite <- E. by apply wf_settle.
Qed.

Lemma update_runned_tasks_spec s : wf s -> returns (aged s) (update_runned_tasks s).
Proof.
  intros Hwf. unfold update_runned_tasks.
  eapply returns_bind; [by apply resolve_if_dirty|]. intros s1 (M1 & G1 & D1).
  pose proof (mv_wf _ _ M1) as W1. pose proof (wf_queues _ W1) as L1.
  rewrite shift_queues_eq by done. cbn [mbind ctl_bind].
  assert (moved s1 (with_queues (shifted (task_queues s1)) s1)) as M2.
  { apply wf_queues_perm; [done|by rewrite shifted_length|by rewrite shifted_concat]. }
  eapply returns_bind; [apply add_sleep_spec, M2|]. intros s3 (M3 & P1 & P2 & P3 & P4).
  eapply returns_impl.
  { apply (requeue_loop _ 0); [apply M3|lia| |lia]. pose proof (wf_cores _ (mv_wf _ _ M3)). lia. }
  intros s4 (M4 & G4 & D4 & I4).
  assert (blocked_task_dirty s4 = false) as Hd by (rewrite D4, P4; exact D1).
  unfold grows in G1, G4. rewrite P1 in G4. simpl in G4.
  split.
  - eapply moved_trans; [exact M1|]. eapply moved_trans; [exact M2|].
    eapply moved_trans; [exact M3|exact M4].
  - intros q Hq. destruct (Forall2_lookup_l _ _ _ _ _ G1 Hq) as (q1 & Hq1 & Hpre).
    destruct (task_queues s1) as [|q0' [|q1' rest]] eqn:Hqs; [done|done|]. injection Hq1 as ->.
    destruct (Forall2_lookup_l _ _ _ 0%nat (q1 ++ q1') G4 eq_refl) as (q2 & Hq2 & Hpre2).
    exists q2. split; [done|]. etrans; [exact Hpre|]. etrans; [|exact Hpre2]. by exists q1'.
  - intros k q t Hq Ht. destruct (Forall2_lookup_l _ _ _ _ _ G1 Hq) as (q1 & Hq1 & Hpre).
    assert (t ∈ q1) as Ht1 by (destruct Hpre as [? ->]; apply elem_of_app; by left).
    assert (exists q2, shifted (task_queues s1) !! k = Some q2 /\ t ∈ q2) as (q2 & Hq2 & Ht2).
    { destruct (task_queues s1) as [|q0' [|q1' rest]]; [done|done|]. destruct k as [|k].
      - injection Hq1 as ->. eexists. split; [done|]. apply elem_of_app. by right.
      - exists q1. split; [|done]. simpl in *. apply lookup_app_Some. by left. }
    destruct (Forall2_lookup_l _ _ _ _ _ G4 Hq2) as (q3 & Hq3 & [? ->]).
    eexists. split; [done|]. apply elem_of_app. by left.
  - done.
  - by apply (wf_blocked _ (mv_wf _ _ M4)).
Qed.

(** * The choice of tasks *)

(** The number of tasks before [t] in a queue. *)
Fixpoint ahead (t : Z) (q : list Z) : nat :=
  match q with
  | [] => O
  | x :: q => if decide (x = t) then O else S (ahead t q)
  end.

Lemma ahead_lookup t q : t ∈ q -> q !! ahead t q = Some t.
Proof.
  induction q as [|x q IH]; [by intros ?%not_elem_of_nil|]. simpl.
  case_decide as Hx; [by subst|]. intros [->|]%elem_of_cons; [done|]. by apply IH.
Qed.

Lemma ahead_delete t q : forall j u,
  t ∈ q -> q !! j = Some u -> u <> t ->
  t ∈ delete j q /\ (ahead t (delete j q) <= ahead t q)%nat /\
  (j < ahead t q -> ahead t (delete j q) < ahead t q)%nat.
Proof.
  induction q as [|x q IH]; intros j u Ht Hj Hu; [by apply not_elem_of_nil in Ht|].
  apply elem_of_cons in Ht. destruct j as [|j]; simpl in *.
  - injection Hj as ->. rewrite decide_False by done. destruct Ht as [->|Ht]; [done|]. split; [done|lia].
  - case_decide as Hx.
    + subst. split; [by left|]. lia.
    + destruct Ht as [->|Ht]; [done|]. destruct (IH j u Ht Hj Hu) as (? & ? & ?).
      split; [by right|]. lia.
Qed.

Lemma ahead_prefix t q q' : t ∈ q -> q `prefix_of` q' -> ahead t q' = ahead t q.
Proof.
  intros Ht [l ->]. induction q as [|x q IH]; [by apply not_elem_of_nil in Ht|]. simpl.
  case_decide; [done|]. f_equal. apply IH. by apply elem_of_cons in Ht as [->|].
Qed.

Definition runs_on (s : scheduler) (t core : Z) : Prop :=
  exists x, tasks s !! t = Some x /\
    (cpu_affinity (sched x) = CpuCoreNone \/ cpu_affinity (sched x) = core).

Section choice.
Context (root : CpuTreeNode).

Lemma nearest_loop_spec s core q : forall off,
  (forall t, t ∈ q -> is_Some (tasks s !! t)) ->
  returns (fun r => match r with
    | Value v => exists j t, v = off + Z.of_nat j /\ q !! j = Some t /\ runs_on s t core /\
        forall j' t', (j' < j)%nat -> q !! j' = Some t' -> ~ runs_on s t' core
    | Error _ => forall t, t ∈ q -> ~ runs_on s t core
    end) (nearest_loop s root q off core false).
Proof.
  induction q as [|t q IH]; intros off Hl; simpl; [by intros t ?%not_elem_of_nil|].
  destruct (Hl t) as [x Hx]; [by left|]. rewrite (get_sched_eq _ _ _ Hx). cbn [mbind ctl_bind].
  assert (runs_on s t core <->
    (cpu_affinity (sched x) =? CpuCoreNone) || (cpu_affinity (sched x) =? core) = true) as Hr.
  { rewrite orb_true_iff, !Z.eqb_eq. split.
    - intros (x' & Hx' & ?). by assert (x' = x) as -> by congruence.
    - intros. by exists x. }
  destruct (_ || _).
  - exists O, t. rewrite Z.add_0_r. do 2 (split; [done|]). split; [by apply Hr|]. intros; lia.
  - assert (~ runs_on s t core) as Hn by (intros H; by apply Hr in H).
    eapply returns_impl; [apply IH; intros; apply Hl; by right|]. intros [v|m].
    + intros (j & t' & -> & Hj & Ho & Hb). exists (S j), t'. split; [lia|]. do 2 (split; [done|]).
      intros [|j'] t2 Hlt Hj2; simpl in Hj2; [by injection Hj2 as <-|]. apply (Hb j'); [lia|done].
    + intros Hb t' [->|]%elem_of_cons; auto.
Qed.

(** Core [cpu] takes the task at [off] of queue [i]. *)
Definition taken (cpu i off : nat) (q : list Z) (t : Z) (s s' : scheduler) : Prop :=
  moved s s' /\ task_queues s' = <[i := delete off q]> (task_queues s) /\
  next_task_to_run s' = <[cpu := t]> (next_task_to_run s) /\
  blocked_tasks s' = blocked_tasks s /\
  (exists b, tasks s' = <[t := b]> (tasks s)) /\ same_mutexes s s'.

Lemma run_task_queued_spec s cpu i off q t :
  wf s -> 0 <= cpu < running_cpu_count s -> task_queues s !! i = Some q -> q !! off = Some t ->
  idle_slot s (Z.to_nat cpu) ->
  returns (taken (Z.to_nat cpu) i off q t s)
    (run_task_queued cpu (Z.of_nat i) (Z.of_nat off) s).
Proof.
  intros Hwf Hcpu Hq Ht (u & Hu & Huin). unfold run_task_queued.
  assert (i < length (task_queues s))%nat as Hi by (by eapply lookup_lt_Some).
  assert (t ∈ concat (task_queues s)) as Htq.
  { rewrite <- (concat_insert_pop _ i q off t Hq Ht). by left. }
  assert (t ∈ members s) as Htm by (apply elem_of_app; left; apply elem_of_app; by left).
  destruct (wf_lookup s t Hwf Htm) as (x & Hx & Hnz & Hni).
  assert (t ∉ scheduler_idles s) as Htni by (by apply (wf_members _ Hwf)).
  unfold get_queue. rewrite aget_nat, Hq. cbn [mbind ctl_bind deref]. unfold vec_pop_at.
  rewrite aget_nat, Ht. cbn [mbind ctl_bind deref]. rewrite set_queue_eq by lia.
  cbn [mbind ctl_bind]. rewrite (proj2 (Z.eqb_neq _ _) Hnz), !Nat2Z.id.
  set (f := fun b => set_is_idle false (set_cpu_affinity cpu (sched_tick b))).
  set (s1 := with_count _ _).
  rewrite (upd_sched_eq s1 t f x Hx). cbn [mbind ctl_bind].
  set (s2 := with_tasks _ s1). rewrite set_next_eq by (simpl; rewrite (wf_next _ Hwf); lia).
  pose proof (tw_cores _ _ _ (wf_tasks _ Hwf) t x Hx) as [Hc Ho].
  set (s3 := with_next _ s2).
  assert (fixed s s3) as Hf.
  { destruct (fixed_upd s t x (f (sched x)) Hx). by split. }
  assert (t :: queued s3 ≡ₚ queued s) as Hqd.
  { unfold queued. simpl. rewrite app_comm_cons. by rewrite (concat_insert_pop _ i q off t Hq Ht). }
  assert (slots s3 ≡ₚ t :: slots s) as Hsl by (by eapply slots_busy).
  assert (members s3 ≡ₚ members s) as Hm by (unfold members; rewrite Hsl, <- Hqd; solve_Permutation).
  assert (forall t' v, has_mutex (tasks s) t' v -> has_mutex (tasks s3) t' v) as Hmut.
  { intros. by apply has_mutex_upd. }
  split; [|repeat (split; [done|]); split; [by eexists|by apply (same_mutexes_upd s s3 t x (f (sched x)))]].
  split; [|done|done]. apply (wf_move s); try done.
  - apply tasks_wf_upd; [apply Hwf|done..|simpl; lia|done].
  - simpl. rewrite length_insert. apply Hwf.
  - simpl. rewrite length_insert. apply Hwf.
  - intros j v. simpl. intros [(<- & <- & _)|[? ?]]%list_lookup_insert_Some; [done|].
    by apply (wf_slots _ Hwf).
  - simpl. pose proof (count_range _ Hwf) as Hcr. rewrite (wf_count _ Hwf) in *.
    rewrite <- Hqd in *. simpl in *. rewrite wrapu_small by lia. lia.
  - intros t' Ht'. apply Hmut, (wf_runnable _ Hwf). simpl in Ht'.
    rewrite <- (concat_insert_pop _ i q off t Hq Ht). by right.
  - intros Hd t' Ht'. by apply Hmut, (wf_blocked _ Hwf).
Qed.
End choice.

(** ** One queue of a round *)

(** The cores that have not got a task yet are those that are idle. *)
Record pending (choosen : list Z) (s : scheduler) : Prop := mk_pending {
  pd_nodup : NoDup choosen;
  pd_idle : forall c, c ∈ choosen -> 0 <= c < running_cpu_count s /\ idle_slot s (Z.to_nat c);
  pd_all : forall i, idle_slot s i -> Z.of_nat i ∈ choosen
}.

(** [t], which was in queue [i], has been given a core or waits in the same
    queue, with [d] tasks less before it at least. *)
Definition advanced (d : nat) (i : nat) (s s' : scheduler) (t : Z) : Prop :=
  t ∈ slots s' \/
  exists q q', task_queues s !! i = Some q /\ task_queues s' !! i = Some q' /\ t ∈ q' /\
    (d + ahead t q' <= ahead t q)%nat /\ tasks s' !! t = tasks s !! t.

Definition in_queue (i : nat) (s : scheduler) (t : Z) : Prop :=
  exists q, task_queues s !! i = Some q /\ t ∈ q.

Lemma advanced_0 i s t : in_queue i s t -> advanced 0 i s s t.
Proof. intros (q & Hq & Ht). right. by exists q, q. Qed.

Lemma advanced_in i d s s' t : advanced d i s s' t -> t ∈ slots s' \/ in_queue i s' t.
Proof. intros [|(q & q' & _ & ? & ? & _)]; [by left|right; by exists q']. Qed.

(** Work on queue [i] alone. *)
Record level (i : nat) (s s' : scheduler) : Prop := mk_level {
  lv_moved : moved s s';
  lv_others : forall j, j <> i -> task_queues s' !! j = task_queues s !! j;
  lv_blocked : blocked_tasks s' = blocked_tasks s;
  lv_slots : forall t, t ∈ slots s -> t ∈ slots s';
  lv_tasks : forall t, t ∉ slots s' -> tasks s' !! t = tasks s !! t;
  lv_advanced : forall t, in_queue i s t -> advanced 0 i s s' t;
  lv_mutex : same_mutexes s s'
}.

Lemma level_refl i s : wf s -> level i s s.
Proof.
  intros Hwf. constructor; [by apply moved_refl|done|done|done|done| |done].
  intros t. apply advanced_0.
Qed.

Lemma advanced_trans i d1 d2 s1 s2 s3 t :
  advanced d1 i s1 s2 t -> (t ∈ slots s2 -> t ∈ slots s3) ->
  (in_queue i s2 t -> advanced d2 i s2 s3 t) -> advanced (d1 + d2) i s1 s3 t.
Proof.
  intros [Hs|(q & q' & Hq & Hq' & Ht & Hd & Hx)] L H2.
  - left. by apply L.
  - destruct H2 as [Hs|(p & p' & Hp & Hp' & Ht' & Hd' & Hx')]; [by exists q'|by left|].
    right. exists q, p'. split; [done|]. split; [done|]. split; [done|].
    assert (p = q') as -> by congruence. split; [lia|congruence].
Qed.

Lemma level_trans i s1 s2 s3 : level i s1 s2 -> level i s2 s3 -> level i s1 s3.
Proof.
  intros L1 L2. split.
  - eapply moved_trans; [apply L1|apply L2].
  - intros j Hj. rewrite (lv_others _ _ _ L2), (lv_others _ _ _ L1); done.
  - rewrite (lv_blocked _ _ _ L2). apply L1.
  - intros t Ht. by apply (lv_slots _ _ _ L2), (lv_slots _ _ _ L1).
  - intros t Ht. rewrite (lv_tasks _ _ _ L2 t Ht). apply (lv_tasks _ _ _ L1).
    intros ?. by apply Ht, (lv_slots _ _ _ L2).
  - intros t Ht. eapply (advanced_trans i 0 0); [by apply L1|apply L2|apply L2].
  - etrans; [apply L1|apply L2].
Qed.

Lemma in_queue_waits s i t : in_queue i s t -> t ∈ concat (task_queues s).
Proof.
  intros (q & Hq & Ht). apply list_elem_of_In, in_concat. exists q.
  split; apply list_elem_of_In; [by eapply list_elem_of_lookup_2|done].
Qed.

Lemma in_queue_member s i t : in_queue i s t -> t ∈ members s.
Proof.
  intros Ht. apply elem_of_app. left. apply elem_of_app. left. by eapply in_queue_waits.
Qed.

(** One task is taken off the queue by a pending core. *)
Lemma taken_level s s' cpu i off q t choosen :
  wf s -> task_queues s !! i = Some q -> q !! off = Some t ->
  pending (choosen ++ [cpu]) s -> taken (Z.to_nat cpu) i off q t s s' ->
  level i s s' /\ pending choosen s' /\ t ∈ slots s' /\
  forall t', t' ∈ q -> t' <> t -> advanced (if decide (off < ahead t' q)%nat then 1 else 0) i s s' t'.
Proof.
  intros Hwf Hq Ht Hp (M & Eq & En & Eb & (b & Et) & Em).
  assert (t ∉ scheduler_idles s) as Hni.
  { apply (wf_members _ Hwf), (in_queue_member s i). exists q. split; [done|].
    by eapply list_elem_of_lookup_2. }
  assert (scheduler_idles s' = scheduler_idles s) as Ei by apply M.
  destruct (pd_idle _ _ Hp cpu) as [Hc (u & Hu & Hin)]; [apply elem_of_app; right; by left|].
  assert (slots s' ≡ₚ t :: slots s) as Hsl.
  { unfold slots. rewrite En, Ei. by eapply slots_busy. }
  assert (forall t', t' ∈ q -> t' <> t ->
    advanced (if decide (off < ahead t' q)%nat then 1 else 0) i s s' t') as Hadv.
  { intros t' Ht' Hne. right. exists q, (delete off q).
    destruct (ahead_delete t' q off t Ht' Ht) as (H1 & H2 & H3); [by intros <-|].
    split; [done|]. split; [rewrite Eq; apply list_lookup_insert_eq; by eapply lookup_lt_Some|].
    split; [done|]. split; [case_decide; lia|]. rewrite Et. by apply lookup_insert_ne. }
  split; [|split; [|split; [rewrite Hsl; by left|done]]].
  - split; [done| |done| | | |done].
    + intros j Hj. rewrite Eq. by apply list_lookup_insert_ne.
    + intros t' Ht'. rewrite Hsl. by right.
    + intros t' Ht'. rewrite Et. apply lookup_insert_ne. intros <-. apply Ht'. rewrite Hsl. by left.
    + intros t' (q2 & Hq2 & Ht'). assert (q2 = q) as -> by congruence.
      destruct (decide (t' = t)) as [->|Hne]; [left; rewrite Hsl; by left|].
      destruct (Hadv t' Ht' Hne) as [|(q1 & q1' & ? & ? & ? & ? & ?)]; [by left|right].
      exists q1, q1'. split_and!; try done. case_decide; lia.
  - pose proof (pd_nodup _ _ Hp) as Hnd. apply NoDup_app in Hnd as (Hnd & Hdis & _). split; [done| |].
    + intros c Hc'. destruct (pd_idle _ _ Hp c) as [Hr (v & Hv & Hvin)]; [apply elem_of_app; by left|].
      split; [by rewrite (fx_cores _ _ (mv_fixed _ _ M))|]. exists v. rewrite En, Ei.
      rewrite list_lookup_insert_ne; [done|]. intros E. apply (Hdis c Hc').
      apply list_elem_of_singleton. lia.
    + intros j (v & Hv & Hvin). rewrite Ei in Hvin. rewrite En in Hv.
      apply list_lookup_insert_Some in Hv as [(<- & <- & _)|[Hj Hv]]; [done|].
      assert (Z.of_nat j ∈ choosen ++ [cpu]) as Hin'.
      { apply (pd_all _ _ Hp). by exists v. }
      apply elem_of_app in Hin' as [|Hj'%list_elem_of_singleton]; [done|]. lia.
Qed.

Lemma vec_pop_snoc l x : vec_pop (l ++ [x]) = Ret (x, l).
Proof.
  unfold vec_pop, vec_pop_at. rewrite length_app. simpl.
  replace (Z.of_nat (length l + 1) - 1) with (Z.of_nat (length l)) by lia.
  rewrite aget_nat, Nat2Z.id, lookup_app_r, Nat.sub_diag by lia. simpl.
  f_equal. f_equal. rewrite delete_take_drop, take_app_length, drop_ge; [apply app_nil_r|].
  rewrite length_app. simpl. lia.
Qed.

Lemma pending_perm l l' s : l ≡ₚ l' -> pending l s -> pending l' s.
Proof.
  intros Hl [H1 H2 H3]. split.
  - by rewrite <- Hl.
  - intros c Hc. apply H2. by rewrite Hl.
  - intros i Hi. rewrite <- Hl. by apply H3.
Qed.

(** A task that core [c] could take is nearer to its turn once [c] has chosen. *)
Definition served (i : nat) (choosen : list Z) (s s' : scheduler) : Prop :=
  forall t c, in_queue i s t -> c ∈ choosen -> runs_on s t c -> advanced 1 i s s' t.

Lemma advanced_slot d i s s' t : t ∈ slots s' -> advanced d i s s' t.
Proof. by left. Qed.

Lemma queue_live s i q : wf s -> task_queues s !! i = Some q -> forall t, t ∈ q -> is_Some (tasks s !! t).
Proof. intros Hwf Hq t Ht. apply (wf_members _ Hwf), (in_queue_member s i). by exists q. Qed.

(** A task that could run on [cpu] is not before the one [cpu] takes. *)
Lemma taken_serves i s s' q j t u cpu :
  task_queues s !! i = Some q -> q !! j = Some u -> t ∈ q -> t <> u -> runs_on s t cpu ->
  (forall j' t', (j' < j)%nat -> q !! j' = Some t' -> ~ runs_on s t' cpu) ->
  advanced (if decide (j < ahead t q)%nat then 1 else 0) i s s' t -> advanced 1 i s s' t.
Proof.
  intros Hq Hu Ht Hne Hr Hb Hadv. pose proof (ahead_lookup t q Ht) as Ha.
  rewrite decide_True in Hadv; [done|]. destruct (decide (ahead t q < j)%nat) as [Hlt|Hge].
  - by destruct (Hb _ _ Hlt Ha).
  - assert (j <> ahead t q); [|lia]. intros ->. congruence.
Qed.

Section passes.
Context (root : CpuTreeNode) (i : nat).
Hypothesis Hi : Z.of_nat i < TASK_QUEUE_COUNT.

Lemma wf_queue s : wf s -> exists q, task_queues s !! i = Some q /\ get_queue s (Z.of_nat i) = Ret q.
Proof.
  intros Hwf. pose proof (wf_queues _ Hwf). destruct (get_queue_eq s (Z.of_nat i)) as (q & Hq & Hg); [lia|].
  exists q. by rewrite Nat2Z.id in Hq.
Qed.

Lemma first_pass_spec fuel : forall choosen retried s,
  wf s -> (length choosen < fuel)%nat -> pending (choosen ++ retried) s ->
  returns (fun '(retried', s') => level i s s' /\ pending retried' s' /\ served i choosen s s')
    (first_pass root fuel (Z.of_nat i) choosen retried s).
Proof.
  induction fuel as [|fuel IH]; intros choosen retried s Hwf Hf Hp; [lia|]. cbn [first_pass].
  destruct choosen as [|cpu l _] using rev_ind.
  { simpl. split; [by apply level_refl|]. split; [done|]. by intros t c _ ?%not_elem_of_nil. }
  rewrite length_app in *. simpl length in *. rewrite (proj2 (Z.eqb_neq _ _)) by lia.
  rewrite vec_pop_snoc. cbn [mbind ctl_bind]. destruct (wf_queue s Hwf) as (q & Hq & Hg).
  unfold query_nearest_task. rewrite Hg. cbn [mbind ctl_bind].
  pose proof (queue_live s i q Hwf Hq) as Hlive.
  eapply returns_bind; [by apply nearest_loop_spec|]. intros [v|m].
  - intros (j & u & -> & Hu & Hr & Hb). rewrite Z.add_0_l.
    assert (pending ((l ++ retried) ++ [cpu]) s) as Hp'.
    { eapply pending_perm; [|exact Hp]. solve_Permutation. }
    destruct (pd_idle _ _ Hp' cpu) as [Hc Hidle]; [apply elem_of_app; right; by left|].
    eapply returns_bind; [by apply run_task_queued_spec|]. intros s1 Ht1.
    destruct (taken_level s s1 cpu i j q u _ Hwf Hq Hu Hp' Ht1) as (L1 & Hp1 & Hu1 & Hadv).
    eapply returns_impl; [apply IH; [apply L1|lia|exact Hp1]|].
    intros [ret s2] (L2 & Hp2 & Hs2). split; [by eapply level_trans|]. split; [done|].
    intros t c Hint Hcin Hrt. pose proof Hint as (q' & Hq' & Ht).
    assert (q' = q) as -> by congruence.
    destruct (decide (t = u)) as [->|Hne]; [by apply advanced_slot, (lv_slots _ _ _ L2)|].
    specialize (Hadv t Ht Hne). apply elem_of_app in Hcin as [Hcin| ->%list_elem_of_singleton].
    + apply (advanced_trans i 0 1 s s1 s2); [apply L1; by exists q|apply L2|]. intros Hin1.
      apply (Hs2 t c Hin1 Hcin). destruct Ht1 as (_ & _ & _ & _ & (b & Et) & _).
      unfold runs_on. by rewrite Et, lookup_insert_ne.
    + apply (advanced_trans i 1 0 s s1 s2); [|apply L2|apply L2]. by eapply taken_serves.
  - intros Hno. eapply returns_impl.
    { apply IH; [exact Hwf|lia|]. eapply pending_perm; [|exact Hp]. solve_Permutation. }
    intros [ret s2] (L2 & Hp2 & Hs2). split; [done|]. split; [done|].
    intros t c Hint Hcin Hrt. apply elem_of_app in Hcin as [Hcin| ->%list_elem_of_singleton].
    + by apply (Hs2 t c).
    + destruct Hint as (q' & Hq' & Ht). assert (q' = q) as -> by congruence. by destruct (Hno t Ht).
Qed.

Lemma second_pass_spec fuel : forall retried s,
  wf s -> (length retried < fuel)%nat -> pending retried s ->
  returns (fun '(retried', s') => level i s s' /\ pending retried' s' /\
             (retried' = [] \/ task_queues s' !! i = Some []) /\ (retried = [] -> s' = s))
    (second_pass fuel (Z.of_nat i) retried s).
Proof.
  induction fuel as [|fuel IH]; intros retried s Hwf Hf Hp; [lia|]. cbn [second_pass].
  destruct (wf_queue s Hwf) as (q & Hq & Hg). rewrite Hg. cbn [mbind ctl_bind].
  destruct retried as [|cpu l _] using rev_ind.
  { simpl. split; [by apply level_refl|]. split; [done|]. split; [by left|done]. }
  rewrite length_app in *. simpl length in *.
  rewrite (proj2 (Z.eqb_neq (Z.of_nat (length l + 1)) 0)) by lia. simpl orb.
  destruct (Z.eqb_spec (zlen q) 0) as [Hz|Hz].
  { split; [by apply level_refl|]. split; [done|].
    assert (q = []) as -> by (by destruct q). split; [by right|by destruct l]. }
  rewrite vec_pop_snoc. cbn [mbind ctl_bind].
  destruct q as [|u q]; [done|].
  destruct (pd_idle _ _ Hp cpu) as [Hc Hidle]; [apply elem_of_app; right; by left|].
  eapply returns_bind; [by apply (run_task_queued_spec s cpu i 0 (u :: q) u)|]. intros s1 Ht1.
  destruct (taken_level s s1 cpu i 0 (u :: q) u _ Hwf Hq eq_refl Hp Ht1) as (L1 & Hp1 & _ & _).
  eapply returns_impl; [apply IH; [apply L1|lia|exact Hp1]|].
  intros [ret s2] (L2 & Hp2 & Hd & _). split; [by eapply level_trans|]. split; [done|].
  split; [done|by destruct l].
Qed.

Lemma first_pass_nil fuel retried s :
  first_pass root (S fuel) (Z.of_nat i) [] retried s = Ret (retried, s).
Proof. done. Qed.

(** What [schedule_all] does with one queue. *)
Lemma schedule_queue_spec choosen s :
  wf s -> pending choosen s ->
  returns (fun '(choosen', s') => level i s s' /\ pending choosen' s' /\
             (choosen' = [] \/ task_queues s' !! i = Some []) /\ served i choosen s s' /\
             (choosen = [] -> s' = s /\ choosen' = []))
    (schedule_queue root (Z.of_nat i) (choosen, s)).
Proof.
  intros Hwf Hp. unfold schedule_queue. destruct (wf_queue s Hwf) as (q & Hq & Hg). rewrite Hg.
  cbn [mbind ctl_bind]. destruct (Z.eqb_spec (zlen q) 0) as [Hz|Hz].
  { assert (q = []) as -> by (by destruct q). split; [by apply level_refl|]. split; [done|].
    split; [by right|]. split; [|done]. intros t c (q' & Hq' & Ht).
    assert (q' = []) as -> by congruence. by apply not_elem_of_nil in Ht. }
  destruct choosen as [|c0 choosen].
  { rewrite first_pass_nil. cbn [mbind ctl_bind].
    eapply returns_impl; [apply second_pass_spec; [done|simpl; lia|done]|].
    intros [ret s2] (L2 & Hp2 & Hd & He). rewrite (He eq_refl) in *. split; [done|]. split; [done|].
    split; [done|]. split; [by intros t c _ ?%not_elem_of_nil|]. intros _. split; [done|].
    destruct ret as [|c ret]; [done|]. destruct (pd_idle _ _ Hp2 c) as [Hc Hidle]; [by left|].
    apply (pd_all _ _ Hp) in Hidle. by apply not_elem_of_nil in Hidle. }
  eapply returns_bind.
  { apply first_pass_spec; [exact Hwf| |by rewrite app_nil_r]. simpl. lia. }
  intros [ret s1] (L1 & Hp1 & Hs1).
  eapply returns_impl; [apply second_pass_spec; [apply L1| |exact Hp1]; lia|].
  intros [ret' s2] (L2 & Hp2 & Hd & _). split; [by eapply level_trans|]. split; [done|].
  split; [done|]. split; [|done]. intros t c Hint Hcin Hrt.
  apply (advanced_trans i 1 0 s s1 s2); [by apply (Hs1 t c)|apply L2|apply L2].
Qed.
End passes.

(** * A round for all cores *)

Section all.
Context (root : CpuTreeNode).

Lemma members_disjoint s t : wf s -> t ∈ queued s -> t ∉ slots s.
Proof. intros Hwf Ht. pose proof (wf_nodup _ Hwf) as (_ & Hd & _)%NoDup_app. by apply Hd. Qed.

(** Work on one queue leaves the tasks of the others where they wait. *)
Lemma level_advanced i j s s' t :
  level i s s' -> in_queue j s t -> advanced 0 j s s' t.
Proof.
  intros L Hin. destruct (decide (j = i)) as [->|Hne]; [by apply (lv_advanced _ _ _ L)|].
  destruct Hin as (q & Hq & Ht). right. exists q, q.
  assert (task_queues s' !! j = Some q) as Hq' by (by rewrite (lv_others _ _ _ L)).
  split; [done|]. split; [done|]. split; [done|]. split; [done|]. apply (lv_tasks _ _ _ L).
  apply members_disjoint; [apply L|]. apply elem_of_app. left. apply (in_queue_waits _ j). by exists q.
Qed.

Record scheduled (s s' : scheduler) : Prop := mk_scheduled {
  sc_moved : moved s s';
  sc_blocked : blocked_tasks s' = blocked_tasks s;
  sc_slots : forall t, t ∈ slots s -> t ∈ slots s';
  sc_waits : forall j t, in_queue j s t -> advanced 0 j s s' t;
  sc_priority : forall j k q, (j < k)%nat -> task_queues s' !! j = Some q -> q <> [] ->
    task_queues s' !! k = task_queues s !! k;
  sc_mutex : same_mutexes s s'
}.

Lemma for_queues_spec k : forall i choosen s,
  wf s -> pending choosen s -> (i + k <= Z.to_nat TASK_QUEUE_COUNT)%nat ->
  (choosen <> [] -> forall j, (j < i)%nat -> task_queues s !! j = Some []) ->
  returns (fun '(choosen', s') => scheduled s s' /\ pending choosen' s' /\
      (forall j, (j < i)%nat -> task_queues s' !! j = task_queues s !! j) /\
      ((0 < k)%nat -> served i choosen s s') /\
      (choosen' <> [] -> forall j, (j < i + k)%nat -> task_queues s' !! j = Some []) /\
      (choosen = [] -> s' = s /\ choosen' = []))
    (for_range (Z.of_nat i) k (schedule_queue root) (choosen, s)).
Proof.
  induction k as [|k IH]; intros i choosen s Hwf Hp Hik Hpre.
  { split; [by split; [apply moved_refl|..]; try done; intros j t; apply advanced_0|].
    split; [done|]. split; [done|]. split; [lia|]. split; [|done].
    intros Hc j Hj. apply Hpre; [done|lia]. }
  rewrite for_range_S. unfold TASK_QUEUE_COUNT in Hik.
  eapply returns_bind; [apply schedule_queue_spec; [unfold TASK_QUEUE_COUNT; lia|done|done]|].
  intros [ch s1] (L1 & Hp1 & Hd1 & Hs1 & He1).
  assert (forall j, (j < i)%nat -> task_queues s1 !! j = task_queues s !! j) as Hlow.
  { intros j Hj. apply (lv_others _ _ _ L1). lia. }
  assert (ch <> [] -> forall j, (j < S i)%nat -> task_queues s1 !! j = Some []) as Hpre1.
  { intros Hc j Hj. destruct (decide (j = i)) as [->|]; [by destruct Hd1|].
    rewrite Hlow by lia. apply Hpre; [|lia]. intros E. by destruct (He1 E). }
  replace (Z.of_nat i + 1) with (Z.of_nat (S i)) by lia.
  eapply returns_impl; [apply IH; [apply L1|exact Hp1|unfold TASK_QUEUE_COUNT; lia|exact Hpre1]|].
  intros [ch2 s2] (S2 & Hp2 & Hb2 & _ & Hz2 & He2).
  split; [split|].
  - eapply moved_trans; [apply L1|apply S2].
  - rewrite (sc_blocked _ _ S2). apply L1.
  - intros t Ht. by apply (sc_slots _ _ S2), (lv_slots _ _ _ L1).
  - intros j t Hin. apply (advanced_trans j 0 0 s s1 s2); [by eapply level_advanced|apply S2|apply S2].
  - intros j k' q Hjk Hq Hne. destruct (lt_eq_lt_dec j i) as [[Hlt| ->]|Hgt].
    + assert (choosen = []) as ->.
      { destruct choosen as [|c l]; [done|]. destruct Hne.
        rewrite Hb2, Hlow, Hpre in Hq by (done || lia). by injection Hq. }
      destruct (He1 eq_refl) as [-> ->]. by destruct (He2 eq_refl) as [-> _].
    + rewrite Hb2 in Hq by lia. destruct Hd1 as [->|Hd1]; [|congruence].
      destruct (He2 eq_refl) as [-> _]. apply (lv_others _ _ _ L1). lia.
    + rewrite (sc_priority _ _ S2 j k' q) by done. apply (lv_others _ _ _ L1). lia.
  - etrans; [apply L1|apply S2].
  - split; [done|]. split; [intros j Hj; rewrite Hb2 by lia; by apply Hlow|].
    split; [|split; [intros Hc j Hj; apply Hz2; [done|lia]|]].
    + intros _ t c Hin Hc Hr. apply (advanced_trans i 1 0 s s1 s2); [by apply (Hs1 t c)|apply S2|apply S2].
    + intros E. destruct (He1 E) as [-> ->]. by apply He2.
Qed.

(** The cores that are left idle already have their idle task. *)
Lemma set_idle_same s c : wf s -> 0 <= c < running_cpu_count s -> idle_slot s (Z.to_nat c) ->
  set_next_idle c s = Ret s.
Proof.
  intros Hwf Hc (u & Hu & Hin). pose proof (wf_slots _ Hwf _ _ Hu Hin) as Hi.
  rewrite (set_next_idle_eq s c u).
  - rewrite list_insert_id by done. by destruct s.
  - rewrite (wf_next _ Hwf). done.
  - unfold idle_of. rewrite aget_lookup by lia. by rewrite Hi.
Qed.

Lemma set_idle_loop s l : wf s ->
  (forall c, c ∈ l -> 0 <= c < running_cpu_count s /\ idle_slot s (Z.to_nat c)) ->
  for_list l set_next_idle s = Ret s.
Proof.
  intros Hwf. induction l as [|c l IH]; intros Hl; [done|]. cbn [for_list].
  destruct (Hl c) as [? ?]; [by left|]. rewrite set_idle_same by done. cbn [mbind ctl_bind].
  apply IH. intros. apply Hl. by right.
Qed.

Lemma all_pending s :
  wf s -> (forall i, (i < length (next_task_to_run s))%nat -> idle_slot s i) ->
  pending (seqZ 0 (running_cpu_count s)) s.
Proof.
  intros Hwf Hall. pose proof (wf_next _ Hwf) as Hn. split.
  - apply NoDup_seqZ.
  - intros c Hc%elem_of_seqZ. split; [lia|]. apply Hall. lia.
  - intros i (u & Hu & _). apply elem_of_seqZ. apply lookup_lt_Some in Hu. lia.
Qed.

(** No queue has a task, when the count says so. *)
Lemma count_zero s : wf s -> awaiting_task_count s = 0 -> queued s = [].
Proof. intros Hwf Hc. rewrite (wf_count _ Hwf) in Hc. by destruct (queued s). Qed.

Lemma schedule_all_spec s :
  wf s -> (forall i, (i < length (next_task_to_run s))%nat -> idle_slot s i) ->
  returns (fun s' => scheduled s s' /\
      (forall i, idle_slot s' i -> concat (task_queues s') = []) /\
      (forall t c, in_queue 0 s t -> 0 <= c < running_cpu_count s -> runs_on s t c ->
         advanced 1 0 s s' t))
    (schedule_all root s).
Proof.
  intros Hwf Hall. unfold schedule_all. destruct (Z.eqb_spec (awaiting_task_count s) 0) as [Hz|Hz].
  - apply (count_zero s Hwf) in Hz. apply app_nil in Hz as [Hz Hb].
    split; [by split; [apply moved_refl|..]; try done; intros j t; apply advanced_0|].
    split; [done|]. intros t c Hin%in_queue_waits. rewrite Hz in Hin. by apply not_elem_of_nil in Hin.
  - eapply returns_bind.
    { apply (for_queues_spec (Z.to_nat TASK_QUEUE_COUNT) 0); [done|by apply all_pending|lia|lia]. }
    intros [ch s1] (S1 & Hp1 & _ & Hs1 & Hz1 & _). pose proof (mv_wf _ _ (sc_moved _ _ S1)) as W1.
    rewrite set_idle_loop; [|done|apply Hp1]. split; [done|]. split.
    + intros i Hi. apply (pd_all _ _ Hp1) in Hi.
      assert (ch <> []) as Hne by (by intros ->; apply not_elem_of_nil in Hi).
      apply concat_nil_Forall, Forall_lookup. intros j q Hq.
      pose proof (lookup_lt_Some _ _ _ Hq) as Hj. pose proof (wf_queues _ W1).
      rewrite (Hz1 Hne j) in Hq by lia. by injection Hq.
    + intros t c Hin Hc Hr. apply (Hs1 ltac:(unfold TASK_QUEUE_COUNT; lia) t c); [done| |done].
      apply elem_of_seqZ. lia.
Qed.
End all.

