(* ===== verification/SchedulerRound.v ===== *)
(** A whole round of the scheduler: the exchanges that bring the tasks back to
    the cores they last ran on end and never reach their limit, and a round
    keeps the invariant, leaves no core idle while a task waits, prefers the
    queues of higher priority and starves no task. *)

From stdpp Require Import gmap.
From S2P Require Import Prelude Scheduler SchedulerSpec.

(** * Affinity *)

Lemma wf_next_change s l :
  wf s -> length l = length (next_task_to_run s) ->
  filter (fun t => t ∉ scheduler_idles s) l ≡ₚ slots s ->
  (forall i t, l !! i = Some t -> t ∈ scheduler_idles s -> scheduler_idles s !! i = Some t) ->
  moved s (with_next l s).
Proof.
  intros Hwf Hl Hp Hs.
  assert (members (with_next l s) ≡ₚ members s) as Hm by (unfold members; apply Permutation_app; done).
  split; [|by split|done]. apply (wf_move s); try done.
  - apply (wf_tasks _ Hwf).
  - apply (wf_queues _ Hwf).
  - simpl. rewrite Hl. apply (wf_next _ Hwf).
  - apply (wf_count _ Hwf).
  - apply (wf_runnable _ Hwf).
  - apply (wf_blocked _ Hwf).
Qed.

(** The tasks of two cores are exchanged. *)
Lemma swap_moved s i j t u :
  wf s -> i <> j -> next_task_to_run s !! i = Some t -> next_task_to_run s !! j = Some u ->
  t ∉ scheduler_idles s -> u ∉ scheduler_idles s ->
  moved s (with_next (<[j := t]> (<[i := u]> (next_task_to_run s))) s).
Proof.
  intros Hwf Hij Ht Hu Hni Hnu. apply wf_next_change; [done|by rewrite !length_insert| |].
  - by rewrite (Permutation_insert_swap _ i j t u Ht Hu).
  - intros k v Hk Hv. apply list_lookup_insert_Some in Hk as [(<- & <- & _)|[Hjk Hk]]; [done|].
    apply list_lookup_insert_Some in Hk as [(<- & <- & _)|[_ Hk]]; [done|]. by apply (wf_slots _ Hwf).
Qed.

(** The task of a core goes to an idle one. *)
Lemma hand_over_moved s i j t u v :
  wf s -> i <> j -> next_task_to_run s !! i = Some t -> next_task_to_run s !! j = Some u ->
  t ∉ scheduler_idles s -> u ∈ scheduler_idles s -> scheduler_idles s !! i = Some v ->
  moved s (with_next (<[j := t]> (<[i := v]> (next_task_to_run s))) s).
Proof.
  intros Hwf Hij Ht Hu Hni Hiu Hv.
  assert (v ∈ scheduler_idles s) as Hvi by (by eapply list_elem_of_lookup_2).
  apply wf_next_change; [done|by rewrite !length_insert| |].
  - etrans; [apply (slots_busy _ _ _ u); [by rewrite list_lookup_insert_ne|done|done]|].
    by apply slots_idle.
  - intros k w Hk Hw. apply list_lookup_insert_Some in Hk as [(<- & <- & _)|[Hjk Hk]]; [done|].
    apply list_lookup_insert_Some in Hk as [(<- & <- & _)|[_ Hk]]; [done|]. by apply (wf_slots _ Hwf).
Qed.

(** Nothing is to be done at core [c]: its task last ran there, or nowhere. *)
Definition settled_core (s : scheduler) (c : Z) : bool :=
  match next_task_to_run s !! Z.to_nat c ≫= fun t => sched <$> tasks s !! t with
  | Some b => is_idle b || (old_cpu_affinity b =? c) || (old_cpu_affinity b =? CpuCoreNone)
  | None => true
  end.

(** Only the cores of tasks, and the affinity the cores give them, change. *)
Record reassigned (s s' : scheduler) : Prop := mk_reassigned {
  ra_moved : moved s s';
  ra_queues : task_queues s' = task_queues s;
  ra_blocked : blocked_tasks s' = blocked_tasks s;
  ra_old : forall t, old_cpu_affinity ∘ sched <$> tasks s' !! t =
                     old_cpu_affinity ∘ sched <$> tasks s !! t;
  ra_mutex : same_mutexes s s'
}.

Lemma reassigned_refl s : wf s -> reassigned s s.
Proof. intros. by split; [apply moved_refl|..]. Qed.

Lemma reassigned_trans s1 s2 s3 : reassigned s1 s2 -> reassigned s2 s3 -> reassigned s1 s3.
Proof.
  intros [M1 Q1 B1 O1 X1] [M2 Q2 B2 O2 X2].
  split; [by eapply moved_trans|congruence|congruence| |by etrans]. intros t. by rewrite O2.
Qed.

Lemma set_affinity_spec s t x c :
  wf s -> tasks s !! t = Some x -> 0 <= c < running_cpu_count s ->
  returns (fun s' => reassigned s s' /\ next_task_to_run s' = next_task_to_run s /\
             exists x', tasks s' !! t = Some x' /\ is_idle (sched x') = is_idle (sched x))
    (upd_sched t (set_cpu_affinity c) s).
Proof.
  intros Hwf Hx Hc. pose proof (tw_cores _ _ _ (wf_tasks _ Hwf) t x Hx) as [Ha Ho].
  eapply returns_impl; [apply (wf_upd_moved s t x); try done; simpl; lia|].
  intros s' (M & (P1 & P2 & P3 & P4) & Et). split; [|split; [exact P2|]].
  - apply mk_reassigned; [exact M|exact P1|exact P3| |by apply (same_mutexes_upd s s' t x (set_cpu_affinity c (sched x)))]. intros t'. rewrite Et.
    destruct (decide (t' = t)) as [->|].
    + by rewrite lookup_insert_eq, Hx.
    + by rewrite lookup_insert_ne.
  - eexists. rewrite Et, lookup_insert_eq. done.
Qed.

(** One exchange of [fix_sched_affinity] between core [c] and the core [o] its
    task [t] last ran on. *)
Lemma exchange_spec s c o t x :
  wf s -> 0 <= c < running_cpu_count s -> 0 <= o < running_cpu_count s -> o <> c ->
  next_task_to_run s !! Z.to_nat c = Some t -> tasks s !! t = Some x -> is_idle (sched x) = false ->
  returns (fun s' => reassigned s s' /\ next_task_to_run s' !! Z.to_nat o = Some t /\
             forall j, j <> Z.to_nat c -> j <> Z.to_nat o ->
               next_task_to_run s' !! j = next_task_to_run s !! j)
    (stealer ← get_next s o;
     s ← upd_sched stealer (set_cpu_affinity c) s;
     bs ← get_sched s stealer;
     s ← (if is_idle bs then set_next_idle c s else set_next c stealer s);
     s ← upd_sched t (set_cpu_affinity o) s;
     set_next o t s).
Proof.
  intros Hwf Hc Ho Hne Ht Hx Hi.
  destruct (wf_next_task s o Hwf Ho) as (u & y & Hu & Hgu & Hy & Hunz & Huidle).
  rewrite Hgu. cbn [mbind ctl_bind].
  eapply returns_bind; [by apply (set_affinity_spec s u y c)|].
  intros s1 (R1 & N1 & y1 & Hy1 & Hyi). pose proof (mv_wf _ _ (ra_moved _ _ R1)) as W1.
  pose proof (mv_fixed _ _ (ra_moved _ _ R1)) as F1. pose proof (fx_cores _ _ F1) as C1.
  pose proof (fx_idles _ _ F1) as I1.
  rewrite (get_sched_eq _ _ _ Hy1). cbn [mbind ctl_bind]. rewrite Hyi, Huidle.
  assert (t ∉ scheduler_idles s) as Hni.
  { intros Hin. pose proof (tw_idle _ _ _ (wf_tasks _ Hwf) t x Hx) as E.
    rewrite bool_decide_eq_true_2 in E by done. congruence. }
  destruct (wf_idle s1 c W1) as (v & Hv & Hiv & _); [by rewrite C1|].
  assert (exists w, (if bool_decide (u ∈ scheduler_idles s) then set_next_idle c s1 else set_next c u s1)
            = Ret (with_next (<[Z.to_nat c := w]> (next_task_to_run s1)) s1) /\
          moved s1 (with_next (<[Z.to_nat o := t]> (<[Z.to_nat c := w]> (next_task_to_run s1))) s1))
    as (w & -> & Hmv).
  { pose proof (wf_next _ W1) as Hln. case_bool_decide as Hin.
    - exists v. split; [apply set_next_idle_eq; [lia|done]|].
      apply (hand_over_moved s1 _ _ t u v); rewrite ?N1, ?I1; try done; [lia|by rewrite <- I1].
    - exists u. split; [apply set_next_eq; lia|].
      apply (swap_moved s1 _ _ t u); rewrite ?N1, ?I1; try done. lia. }
  cbn [mbind ctl_bind]. set (l := <[Z.to_nat c := w]> (next_task_to_run s1)) in *.
  assert (exists x1, tasks s1 !! t = Some x1) as [x1 Hx1].
  { destruct (proj1 (fixed_dom s s1 t F1)) as [x1 Hx1]; [by eexists|]. by exists x1. }
  rewrite (upd_sched_eq (with_next l s1) t _ x1 Hx1). cbn [mbind ctl_bind].
  rewrite set_next_eq by (simpl; unfold l; rewrite length_insert, (wf_next _ W1); lia).
  simpl. split; [|split].
  - eapply reassigned_trans; [exact R1|].
    pose proof (mv_wf _ _ Hmv) as W2. set (s2 := with_next (<[Z.to_nat o := t]> l) s1) in *.
    pose proof (set_affinity_spec s2 t x1 o W2 Hx1) as Hlast.
    rewrite (upd_sched_eq s2 t _ x1 Hx1) in Hlast. simpl in Hlast.
    destruct Hlast as (R3 & _ & _); [by rewrite C1|].
    eapply reassigned_trans; [|exact R3]. by split.
  - apply list_lookup_insert_eq. unfold l. rewrite length_insert.
    pose proof (wf_next _ W1). lia.
  - intros j Hj1 Hj2. rewrite list_lookup_insert_ne by done. unfold l.
    rewrite list_lookup_insert_ne by done. by rewrite N1.
Qed.

(** ** The exchanges end *)

(** What is left to do: a core with nothing to exchange is only looked at. *)
Definition work (s : scheduler) (c : Z) : nat := if settled_core s c then 1 else 2.
Definition work_left (s : scheduler) (to_fix : list Z) : nat := sum_list_with (work s) to_fix.

Lemma work_range s c : (1 <= work s c <= 2)%nat.
Proof. unfold work. destruct (settled_core s c); lia. Qed.

Lemma work_left_le s s' l :
  (forall c, c ∈ l -> (work s' c <= work s c)%nat) -> (work_left s' l <= work_left s l)%nat.
Proof.
  intros H. unfold work_left. induction l as [|c l IH]; [done|]. simpl.
  assert (work s' c <= work s c)%nat by (apply H; by left).
  assert (sum_list_with (work s') l <= sum_list_with (work s) l)%nat; [|lia].
  apply IH. intros. apply H. by right.
Qed.

Lemma work_left_app s l l' : work_left s (l ++ l') = (work_left s l + work_left s l')%nat.
Proof. apply sum_list_with_app. Qed.

Lemma work_left_bound s l : (work_left s l <= 2 * length l)%nat.
Proof.
  unfold work_left. induction l as [|c l IH]; [done|]. simpl. pose proof (work_range s c). lia.
Qed.

(** The control block of a task after it was given other cores. *)
Lemma reassigned_block s s' t x :
  wf s -> reassigned s s' -> tasks s !! t = Some x ->
  exists x', tasks s' !! t = Some x' /\ is_idle (sched x') = is_idle (sched x) /\
    old_cpu_affinity (sched x') = old_cpu_affinity (sched x).
Proof.
  intros Hwf [M _ _ O _] Hx. pose proof (mv_fixed _ _ M) as F.
  destruct (proj1 (fixed_dom s s' t F)) as [x' Hx']; [by eexists|].
  exists x'. split; [done|]. split.
  - rewrite (tw_idle _ _ _ (wf_tasks _ Hwf) t x Hx).
    rewrite (tw_idle _ _ _ (wf_tasks _ (mv_wf _ _ M)) t x' Hx'). by rewrite (fx_idles _ _ F).
  - specialize (O t). rewrite Hx, Hx' in O. by injection O.
Qed.

Lemma settled_same s s' c :
  wf s -> reassigned s s' -> next_task_to_run s' !! Z.to_nat c = next_task_to_run s !! Z.to_nat c ->
  0 <= c < running_cpu_count s -> settled_core s' c = settled_core s c.
Proof.
  intros Hwf R E Hc. destruct (wf_next_task s c Hwf Hc) as (t & x & Ht & _ & Hx & _).
  destruct (reassigned_block s s' t x Hwf R Hx) as (x' & Hx' & Hi & Ho).
  unfold settled_core. rewrite E, Ht. simpl. rewrite Hx, Hx'. simpl. by rewrite Hi, Ho.
Qed.

(** The exchange with what follows it. *)
Lemma exchange_then {A} s c o t (k : scheduler -> ctl A) :
  (stealer ← get_next s o;
   s ← upd_sched stealer (set_cpu_affinity c) s;
   bs ← get_sched s stealer;
   s ← (if is_idle bs then set_next_idle c s else set_next c stealer s);
   s ← upd_sched t (set_cpu_affinity o) s;
   s ← set_next o t s; k s) =
  (stealer ← get_next s o;
   s ← upd_sched stealer (set_cpu_affinity c) s;
   bs ← get_sched s stealer;
   s ← (if is_idle bs then set_next_idle c s else set_next c stealer s);
   s ← upd_sched t (set_cpu_affinity o) s;
   set_next o t s) ≫= k.
Proof.
  destruct (get_next s o) as [u| |]; try done. cbn [mbind ctl_bind].
  destruct (upd_sched u _ s) as [s1| |]; try done. cbn [mbind ctl_bind].
  destruct (get_sched s1 u) as [b| |]; try done. cbn [mbind ctl_bind].
  destruct (if is_idle b then _ else _) as [s2| |]; try done. cbn [mbind ctl_bind].
  by destruct (upd_sched t _ s2).
Qed.

Lemma fix_loop_spec n : forall to_fix s,
  wf s -> (forall c, c ∈ to_fix -> 0 <= c < running_cpu_count s) -> (work_left s to_fix < n)%nat ->
  returns (fun '(unused, s') => reassigned s s' /\ unused <> O) (fix_loop n to_fix s).
Proof.
  induction n as [|n IH]; intros to_fix s Hwf Hin Hw; [lia|]. cbn [fix_loop].
  destruct to_fix as [|c to_fix _] using rev_ind.
  { split; [by apply reassigned_refl|done]. }
  rewrite (proj2 (Z.eqb_neq _ _)) by (rewrite length_app; simpl; lia).
  rewrite vec_pop_snoc. cbn [mbind ctl_bind].
  assert (0 <= c < running_cpu_count s) as Hc by (apply Hin, elem_of_app; right; by left).
  assert (forall c, c ∈ to_fix -> 0 <= c < running_cpu_count s) as Hin'
    by (intros; apply Hin, elem_of_app; by left).
  rewrite work_left_app in Hw. assert (work_left s [c] = work s c) as Ew by (unfold work_left; simpl; lia).
  rewrite Ew in Hw. pose proof (work_range s c).
  destruct (wf_next_task s c Hwf Hc) as (t & x & Ht & -> & Hx & _). cbn [mbind ctl_bind].
  rewrite (get_sched_eq _ _ _ Hx). cbn [mbind ctl_bind].
  destruct (is_idle (sched x)) eqn:Hi; [apply IH; [done|done|lia]|].
  destruct ((old_cpu_affinity (sched x) =? c) || _) eqn:Ho; [apply IH; [done|done|lia]|].
  apply orb_false_iff in Ho as [Ho1%Z.eqb_neq Ho2%Z.eqb_neq].
  assert (work s c = 2%nat) as Hw2.
  { unfold work, settled_core. rewrite Ht. simpl. rewrite Hx. simpl. rewrite Hi.
    by rewrite (proj2 (Z.eqb_neq _ _) Ho1), (proj2 (Z.eqb_neq _ _) Ho2). }
  set (o := old_cpu_affinity (sched x)) in *.
  assert (0 <= o < running_cpu_count s) as Hor.
  { pose proof (tw_cores _ _ _ (wf_tasks _ Hwf) t x Hx) as [_ ?]. unfold CpuCoreNone in Ho2. lia. }
  rewrite exchange_then. eapply returns_bind; [by eapply exchange_spec|].
  intros s' (R & Hot & Hother). pose proof (mv_wf _ _ (ra_moved _ _ R)) as W.
  pose proof (fx_cores _ _ (mv_fixed _ _ (ra_moved _ _ R))) as C.
  assert (work s' o = 1%nat) as Hwo.
  { destruct (reassigned_block s s' t x Hwf R Hx) as (x' & Hx' & _ & Ho').
    unfold work, settled_core. rewrite Hot. simpl. rewrite Hx'. simpl. rewrite Ho'. fold o.
    by rewrite Z.eqb_refl, orb_true_r. }
  eapply returns_impl; [apply IH|].
  - done.
  - intros d [Hd| ->%list_elem_of_singleton]%elem_of_app; rewrite C; auto.
  - rewrite work_left_app. replace (work_left s' [o]) with 1%nat by (unfold work_left; simpl; lia).
    assert (work_left s' to_fix <= work_left s to_fix)%nat; [|lia].
    apply work_left_le. intros d Hd. destruct (decide (d = o)) as [->|]; [pose proof (work_range s o); lia|].
    destruct (decide (d = c)) as [->|]; [pose proof (work_range s' c); lia|].
    unfold work. rewrite (settled_same s s' d); [done|done|done| |by apply Hin'].
    specialize (Hin' d Hd). apply Hother; lia.
  - intros [unused s2] [R2 Hu]. split; [by eapply reassigned_trans|done].
Qed.

(** The limit on the attempts is never reached. *)
Lemma fix_sched_affinity_spec s :
  wf s -> returns (fun '(r, s') => r = Value tt /\ reassigned s s') (fix_sched_affinity s).
Proof.
  intros Hwf. unfold fix_sched_affinity. pose proof (wf_cores _ Hwf) as Hn.
  eapply returns_bind.
  { apply fix_loop_spec; [done| |].
    - intros c Hc%elem_of_seqZ. lia.
    - pose proof (work_left_bound s (seqZ 0 (running_cpu_count s))) as Hb.
      rewrite length_seqZ in Hb. lia. }
  by intros [[|u] s'] [R Hu].
Qed.

(** * A round *)

Lemma moved_slots s s' t : moved s s' -> next_task_to_run s' = next_task_to_run s ->
  t ∈ slots s' <-> t ∈ slots s.
Proof. intros M E. unfold slots. by rewrite E, (fx_idles _ _ (mv_fixed _ _ M)). Qed.

(** The cores of a reassignment run the same tasks. *)
Lemma reassigned_slots s s' : reassigned s s' -> slots s' ≡ₚ slots s.
Proof.
  intros R. pose proof (mv_members _ _ (ra_moved _ _ R)) as Hm. unfold members, queued in Hm.
  rewrite (ra_queues _ _ R), (ra_blocked _ _ R) in Hm. by apply Permutation_app_inv_l in Hm.
Qed.

(** A core is idle when there are fewer tasks than cores: the exchanges can
    only bring an idle core elsewhere. *)
Lemma idle_slot_count s :
  wf s -> (exists i, idle_slot s i) <-> (length (slots s) < length (next_task_to_run s))%nat.
Proof.
  intros Hwf. unfold slots. set (P := fun t => t ∉ scheduler_idles s). split.
  - intros (i & u & Hu & Hin).
    apply (length_filter_lt P _ u); [by eapply list_elem_of_lookup_2|naive_solver].
  - intros Hlt. destruct (decide (Forall P (next_task_to_run s))) as [Hall|Hex].
    + assert (filter P (next_task_to_run s) = next_task_to_run s) as E; [|rewrite E in Hlt; lia].
      clear -Hall. induction Hall as [|t l Ht _ IH]; [done|]. by rewrite filter_cons_True, IH.
    + apply not_Forall_Exists in Hex; [|apply _]. apply Exists_exists in Hex as (u & Hu & Hn).
      apply list_elem_of_lookup in Hu as [i Hi]. exists i, u. split; [done|].
      unfold P in Hn. by apply dec_stable in Hn.
Qed.

Lemma reassigned_idle s s' :
  wf s -> reassigned s s' -> (exists i, idle_slot s' i) -> exists i, idle_slot s i.
Proof.
  intros Hwf R. pose proof (ra_moved _ _ R) as M. pose proof (wf_next _ Hwf).
  pose proof (wf_next _ (mv_wf _ _ M)) as H'. rewrite (fx_cores _ _ (mv_fixed _ _ M)) in H'.
  rewrite !idle_slot_count by (done || apply M). rewrite (reassigned_slots _ _ R). lia.
Qed.

Record round (root : CpuTreeNode) (s s' : scheduler) : Prop := mk_round {
  rd_moved : moved s s';
  rd_busy : (exists i, idle_slot s' i) -> concat (task_queues s') = [];
  rd_blocked : forall t, t ∈ blocked_tasks s' -> has_mutex (tasks s') t true;
  rd_chosen : forall t, t ∈ slots s' -> has_mutex (tasks s') t false;
  rd_down : forall k t, in_queue (S k) s t -> t ∈ slots s' \/ in_queue k s' t;
  rd_front : forall q t, task_queues s !! 0%nat = Some q -> t ∈ q ->
    t ∈ slots s' \/
    exists q', task_queues s' !! 0%nat = Some q' /\ t ∈ q' /\ (ahead t q' < ahead t q)%nat;
  rd_priority : exists s1, update_runned_tasks (with_tick (u64 (tick s + 1)) s) = Ret s1 /\
    forall j k q, (j < k)%nat -> task_queues s' !! j = Some q -> q <> [] ->
      task_queues s' !! k = task_queues s1 !! k
}.

(** Some core may run the task. *)
Lemma runs_somewhere s t : wf s -> t ∈ members s -> exists c, 0 <= c < running_cpu_count s /\ runs_on s t c.
Proof.
  intros Hwf Ht. destruct (wf_lookup s t Hwf Ht) as (x & Hx & _).
  pose proof (tw_cores _ _ _ (wf_tasks _ Hwf) t x Hx) as [Ha _]. pose proof (wf_cores _ Hwf).
  destruct (decide (cpu_affinity (sched x) = CpuCoreNone)) as [E|E].
  - exists 0. split; [lia|]. exists x. auto.
  - unfold CpuCoreNone in E. exists (cpu_affinity (sched x)). split; [lia|]. exists x. auto.
Qed.

Lemma idle_no_slots s :
  wf s -> (forall i, (i < length (next_task_to_run s))%nat -> idle_slot s i) -> slots s = [].
Proof.
  intros Hwf Hall. unfold slots. apply elem_of_nil_inv. intros t [Hn Ht]%list_elem_of_filter.
  apply list_elem_of_lookup in Ht as [i Hi].
  destruct (Hall i) as (u & Hu & Hin); [by eapply lookup_lt_Some|]. naive_solver.
Qed.

Lemma wf_tick n s : wf s -> wf (with_tick n s).
Proof. intros Hwf. split; apply Hwf. Qed.

(** The parts of a round put together: the tasks age, the cores choose, and the
    choices are exchanged. *)
Lemma round_parts root s s1 s2 s3 :
  wf s -> update_runned_tasks (with_tick (u64 (tick s + 1)) s) = Ret s1 ->
  aged (with_tick (u64 (tick s + 1)) s) s1 -> scheduled s1 s2 ->
  (forall i, idle_slot s2 i -> concat (task_queues s2) = []) ->
  (forall t c, in_queue 0 s1 t -> 0 <= c < running_cpu_count s1 -> runs_on s1 t c ->
     advanced 1 0 s1 s2 t) ->
  reassigned s2 s3 -> round root s s3.
Proof.
  intros Hwf E1 A S Hbusy Hfront R.
  pose proof (mv_wf _ _ (ag_moved _ _ A)) as W1. pose proof (mv_wf _ _ (sc_moved _ _ S)) as W2.
  pose proof (mv_wf _ _ (ra_moved _ _ R)) as W3.
  assert (forall t, t ∈ slots s2 -> t ∈ slots s3) as Hs23.
  { intros t Ht. by rewrite (reassigned_slots _ _ R). }
  assert (same_mutexes s1 s3) as Hmut by (etrans; [apply S|apply R]).
  assert (forall k t, advanced 0 k s1 s2 t -> t ∈ slots s3 \/ in_queue k s3 t) as Hadv.
  { intros k t [|(q & Hq & Ht)]%advanced_in; [by left; apply Hs23|right]. exists q.
    by rewrite (ra_queues _ _ R). }
  assert (blocked_tasks s3 = blocked_tasks s1) as Hb by (rewrite (ra_blocked _ _ R); apply S).
  split.
  - eapply moved_trans; [|eapply moved_trans; [apply S|apply R]]. destruct (ag_moved _ _ A) as [W [] P].
    split; [exact W|by split|exact P].
  - intros Hi. apply (reassigned_idle _ _ W2 R) in Hi as [i Hi]. rewrite (ra_queues _ _ R). by eapply Hbusy.
  - intros t Ht. rewrite Hb in Ht. eapply has_mutex_same; [exact Hmut|]. by apply (ag_blocked _ _ A).
  - intros t Ht. eapply has_mutex_same; [exact Hmut|]. apply (wf_runnable _ W1).
    assert (t ∈ members s1) as Hm.
    { rewrite <- (mv_members _ _ (sc_moved _ _ S)), <- (mv_members _ _ (ra_moved _ _ R)).
      apply elem_of_app. by right. }
    unfold members in Hm. rewrite (idle_no_slots s1), app_nil_r in Hm by (done || apply (ag_idle _ _ A)).
    apply elem_of_app in Hm as [|Hm]; [done|]. exfalso.
    apply (members_disjoint s3 t W3); [|done]. apply elem_of_app. right. by rewrite Hb.
  - intros k t (q & Hq & Ht). apply Hadv, (sc_waits _ _ S).
    destruct (ag_down _ _ A k q t Hq Ht) as (q' & ? & ?). by exists q'.
  - intros q t Hq Ht. destruct (ag_front _ _ A q Hq) as (q1 & Hq1 & Hpre).
    assert (t ∈ q1) as Ht1 by (destruct Hpre as [r ->]; apply elem_of_app; by left).
    assert (in_queue 0 s1 t) as Hin by (by exists q1).
    destruct (runs_somewhere s1 t W1) as (c & Hc & Hr); [by eapply in_queue_member|].
    destruct (Hfront t c Hin Hc Hr) as [|(p & p' & Hp & Hp' & Ht' & Hd & _)]; [by left; apply Hs23|].
    right. exists p'. rewrite (ra_queues _ _ R). split; [done|]. split; [done|].
    assert (p = q1) as -> by congruence. rewrite (ahead_prefix t q q1 Ht Hpre) in Hd. lia.
  - exists s1. split; [done|]. intros j k q Hj Hq Hne. rewrite (ra_queues _ _ R) in *. by eapply S.
Qed.

Lemma reschedule_all_round root s :
  wf s -> returns (fun '(r, s') => r = Value tt /\ round root s s') (reschedule_all root s).
Proof.
  intros Hwf. unfold reschedule_all. set (s0 := with_tick _ s).
  assert (wf s0) as W0 by (by apply wf_tick).
  destruct (proj1 (returns_iff _ _) (update_runned_tasks_spec s0 W0)) as (s1 & E1 & A).
  rewrite E1. cbn [mbind ctl_bind]. pose proof (mv_wf _ _ (ag_moved _ _ A)) as W1.
  eapply returns_bind; [apply (schedule_all_spec root s1 W1), (ag_idle _ _ A)|]. intros s2 (S & Hb & Hf).
  eapply returns_impl; [apply fix_sched_affinity_spec, S|]. intros [r s3] [-> R].
  split; [done|]. by eapply round_parts.
Qed.
