(* ===== verification/SchedulerEvents.v ===== *)
(** What happens to the scheduler between two rounds: a core reschedules itself,
    tasks block, are unblocked and are launched. All of it keeps the invariant
    of SchedulerSpec.v, from the start of the machine on, and no task that waits
    is starved by it. *)

From stdpp Require Import gmap.
From S2P Require Import Prelude Scheduler SchedulerSpec SchedulerRound.

(** * One core *)

(** The tasks that wait keep their queue and do not lose their place in it. *)
Definition keeps_place (k : nat) (s s' : scheduler) (t : Z) : Prop :=
  t ∈ slots s' \/
  exists q q', task_queues s !! k = Some q /\ task_queues s' !! k = Some q' /\ t ∈ q' /\
    (ahead t q' <= ahead t q)%nat.

Lemma keeps_place_refl k s t : in_queue k s t -> keeps_place k s s t.
Proof. intros (q & Hq & Ht). right. by exists q, q. Qed.

Lemma advanced_place d k s s' t : advanced d k s s' t -> keeps_place k s s' t.
Proof. intros [|(q & q' & ? & ? & ? & ? & _)]; [by left|right]. exists q, q'. split_and!; done || lia. Qed.

Lemma grows_place k s s' t : grows s s' -> in_queue k s t -> keeps_place k s s' t.
Proof.
  intros G (q & Hq & Ht). destruct (Forall2_lookup_l _ _ _ _ _ G Hq) as (q' & Hq' & Hp).
  right. exists q, q'. rewrite (ahead_prefix t q q') by done. destruct Hp as [r ->].
  split_and!; try done. apply elem_of_app. by left.
Qed.

Lemma keeps_place_in k s s' t : keeps_place k s s' t -> t ∈ slots s' \/ in_queue k s' t.
Proof. intros [|(q & q' & _ & ? & ? & _)]; [by left|right; by exists q']. Qed.

Lemma keeps_place_trans k s1 s2 s3 t :
  keeps_place k s1 s2 t -> (t ∈ slots s2 -> t ∈ slots s3) ->
  (in_queue k s2 t -> keeps_place k s2 s3 t) -> keeps_place k s1 s3 t.
Proof.
  intros [|(q & q2 & Hq & Hq2 & Ht & Hle)] Hs Hk; [left; by apply Hs|].
  destruct Hk as [|(p & q3 & Hp & Hq3 & Ht3 & Hle3)]; [by exists q2|by left|].
  right. exists q, q3. assert (p = q2) as -> by congruence. split_and!; try done. lia.
Qed.

(** The task of a core goes back to a queue. *)
Lemma put_back_spec s i t x :
  wf s -> 0 <= i < running_cpu_count s -> next_task_to_run s !! Z.to_nat i = Some t ->
  tasks s !! t = Some x -> t ∉ scheduler_idles s ->
  returns (fun s' => moved s s' /\ grows s s' /\ blocked_task_dirty s' = blocked_task_dirty s /\
             idle_slot s' (Z.to_nat i) /\ same_other_slots (Z.to_nat i) s s')
    (s ← add_entity_to_queue t s; set_next_idle i s).
Proof.
  intros Hwf Hi Ht Hx Hni.
  assert (is_idle (sched x) = false) as Hidle.
  { rewrite (tw_idle _ _ _ (wf_tasks _ Hwf) t x Hx). by apply bool_decide_eq_false_2. }
  assert (t <> 0) as Hnz.
  { intros ->. by rewrite (tw_null _ _ _ (wf_tasks _ Hwf)) in Hx. }
  rewrite (add_entity_eq s t x) by (done || apply Hwf). cbn [mbind ctl_bind].
  destruct (wf_idle s i Hwf Hi) as (u & Hu & Hiu & _).
  destruct (put_back s (Z.to_nat i) t x u) as (M & G & D & I & O); try done.
  destruct (enqueued_same s t (sched x)) as (E1 & E2 & E3 & E4 & E5).
  rewrite (set_next_idle_eq _ i u); [done| |].
  - by rewrite E2, (wf_next _ Hwf).
  - unfold idle_of in *. by rewrite E3.
Qed.

(** The other cores keep their tasks. *)
Lemma update_one_spec s core :
  wf s -> 0 <= core < running_cpu_count s ->
  returns (fun s' => moved s s' /\ grows s s' /\ blocked_task_dirty s' = blocked_task_dirty s /\
             idle_slot s' (Z.to_nat core) /\ same_other_slots (Z.to_nat core) s s')
    (update_runned_task_for_cpu core s).
Proof.
  intros Hwf Hc. destruct (wf_next_task s core Hwf Hc) as (t & x & Ht & Hget & Hx & Hnz & Hidle).
  unfold update_runned_task_for_cpu. rewrite Hget. cbn [mbind ctl_bind].
  rewrite (get_sched_eq _ _ _ Hx). cbn [mbind ctl_bind]. rewrite Hidle. case_bool_decide as Hin.
  { split; [by apply moved_refl|]. split; [reflexivity|]. split; [done|]. split; [|done]. by exists t. }
  pose proof (tw_cores _ _ _ (wf_tasks _ Hwf) t x Hx) as [Hca Hco].
  eapply returns_bind; [apply (wf_upd_moved s t x); try done; simpl; lia|].
  intros s1 (M1 & (P1 & P2 & P3 & P4) & T1). pose proof (mv_wf _ _ M1) as W1.
  pose proof (mv_fixed _ _ M1) as F1.
  assert (forall s', returns (fun s2 => moved s1 s2 /\ grows s1 s2 /\
      blocked_task_dirty s2 = blocked_task_dirty s1 /\ idle_slot s2 (Z.to_nat core) /\
      same_other_slots (Z.to_nat core) s1 s2) s' ->
    returns (fun s2 => moved s s2 /\ grows s s2 /\ blocked_task_dirty s2 = blocked_task_dirty s /\
      idle_slot s2 (Z.to_nat core) /\ same_other_slots (Z.to_nat core) s s2)
      (s ← s'; i ← get_next s core;
       upd_sched i (fun b => set_old_cpu_affinity CpuCoreNone (set_cpu_affinity CpuCoreNone b)) s))
    as Hend.
  { intros c H. eapply returns_bind; [exact H|]. intros s2 (M2 & G2 & D2 & (u & Hu & Hui) & O2).
    pose proof (mv_wf _ _ M2) as W2. pose proof (mv_fixed _ _ M2) as F2.
    destruct (wf_next_task s2 core W2) as (v & y & Hv & Hgv & Hy & _).
    { by rewrite (fx_cores _ _ F2), (fx_cores _ _ F1). }
    assert (v = u) as -> by congruence. rewrite Hgv. cbn [mbind ctl_bind].
    pose proof (wf_cores _ W2).
    eapply returns_impl; [apply (wf_upd_moved s2 u y); try done; simpl; unfold CpuCoreNone; lia|].
    intros s3 (M3 & (Q1 & Q2 & Q3 & Q4) & _).
    split; [eapply moved_trans; [exact M1|]; by eapply moved_trans|].
    split; [unfold grows in *; rewrite Q1; by rewrite <- P1|]. split; [congruence|]. split.
    - exists u. rewrite Q2. split; [done|]. by rewrite (fx_idles _ _ (mv_fixed _ _ M3)).
    - intros j Hj. rewrite Q2, (O2 j Hj). by rewrite P2. }
  pose proof (put_back_spec s1 core t (mk_Task (uid x) (set_old_cpu_affinity core (sched x))) W1) as H.
  specialize (Hend _ (H ltac:(by rewrite (fx_cores _ _ F1)) ltac:(by rewrite P2)
    ltac:(by rewrite T1, lookup_insert_eq) ltac:(by rewrite (fx_idles _ _ F1)))).
  by destruct (add_entity_to_queue t s1).
Qed.

(** A core takes a task off a queue. *)
Lemma taken_place cpu i off q t s s' k t' :
  wf s -> task_queues s !! i = Some q -> q !! off = Some t -> idle_slot s cpu ->
  taken cpu i off q t s s' -> in_queue k s t' -> keeps_place k s s' t'.
Proof.
  intros Hwf Hq Ht (u & Hu & Hui) (M & Eq & En & _) (p & Hp & Ht').
  assert (t ∉ scheduler_idles s) as Hni.
  { apply (wf_members _ Hwf), (in_queue_member s i). exists q. split; [done|].
    by eapply list_elem_of_lookup_2. }
  destruct (decide (t' = t)) as [->|Hne].
  { left. apply list_elem_of_filter. rewrite (fx_idles _ _ (mv_fixed _ _ M)). split; [done|].
    rewrite En. apply (list_elem_of_lookup_2 _ cpu). apply list_lookup_insert_eq. by eapply lookup_lt_Some. }
  right. exists p. destruct (decide (k = i)) as [->|Hki].
  - assert (p = q) as -> by congruence. exists (delete off q).
    destruct (ahead_delete t' q off t Ht' Ht) as (H1 & H2 & _); [by intros <-|].
    rewrite Eq, list_lookup_insert_eq by (by eapply lookup_lt_Some). by split_and!.
  - exists p. rewrite Eq, list_lookup_insert_ne by done. by split_and!.
Qed.

(** The core takes the first task of the first queue that has one, or stays
    idle. *)
Lemma schedule_one_loop_spec root core n : forall i s,
  wf s -> 0 <= core < running_cpu_count s -> idle_slot s (Z.to_nat core) ->
  (i + n = Z.to_nat TASK_QUEUE_COUNT)%nat -> (forall j, (j < i)%nat -> task_queues s !! j = Some []) ->
  returns (fun s' =>
      (s' = s /\ concat (task_queues s) = []) \/
      exists k off q t, task_queues s !! k = Some q /\ q !! off = Some t /\
        (forall j, (j < k)%nat -> task_queues s !! j = Some []) /\
        taken (Z.to_nat core) k off q t s s')
    (schedule_one_loop root n core (Z.of_nat i) s).
Proof.
  induction n as [|n IH]; intros i s Hwf Hc Hidle Hin Hpre; cbn [schedule_one_loop].
  - rewrite set_idle_same by done. left. split; [done|]. apply concat_nil_Forall, Forall_lookup.
    intros j q Hq. pose proof (lookup_lt_Some _ _ _ Hq) as Hj. pose proof (wf_queues _ Hwf).
    rewrite Hpre in Hq by lia. by injection Hq.
  - assert (exists q, task_queues s !! i = Some q) as [q Hq].
    { apply lookup_lt_is_Some_2. pose proof (wf_queues _ Hwf). unfold TASK_QUEUE_COUNT in *. lia. }
    assert (get_queue s (Z.of_nat i) = Ret q) as Hgq by (unfold get_queue; by rewrite aget_nat, Hq).
    rewrite Hgq. cbn [mbind ctl_bind]. destruct (Z.eqb_spec (zlen q) 0) as [Hz|Hz].
    + replace (Z.of_nat i + 1) with (Z.of_nat (S i)) by lia. apply IH; [done|done|done|lia|].
      intros j Hj. destruct (decide (j = i)) as [->|]; [|apply Hpre; lia].
      destruct q; [done|]. simpl in Hz. lia.
    + unfold query_nearest_task. rewrite Hgq. cbn [mbind ctl_bind].
      eapply returns_bind; [apply nearest_loop_spec; by eapply queue_live|].
      intros [v|m] Hv.
      * destruct Hv as (j & t & -> & Ht & _). rewrite Z.add_0_l.
        eapply returns_impl; [by apply run_task_queued_spec|]. intros s' T. right. by exists i, j, q, t.
      * destruct q as [|t q]; [done|].
        eapply returns_impl; [by apply (run_task_queued_spec s core i 0 (t :: q) t)|].
        intros s' T. right. by exists i, 0%nat, (t :: q), t.
Qed.

(** What a core that reschedules itself does. *)
Record one_round (core : Z) (s s' : scheduler) : Prop := mk_one_round {
  on_moved : moved s s';
  on_place : forall k t, in_queue k s t -> keeps_place k s s' t;
  on_others : same_other_slots (Z.to_nat core) s s';
  on_busy : idle_slot s' (Z.to_nat core) -> concat (task_queues s') = [];
  on_chosen : forall t, next_task_to_run s' !! Z.to_nat core = Some t -> t ∉ scheduler_idles s' ->
    has_mutex (tasks s') t false
}.

Lemma grows_then k s1 s2 s3 t :
  grows s1 s2 -> in_queue k s1 t -> (in_queue k s2 t -> keeps_place k s2 s3 t) -> keeps_place k s1 s3 t.
Proof.
  intros G Ht H. destruct (grows_place k s1 s2 t G Ht) as [Hs|(q & q2 & Hq & Hq2 & Hin & Hle)].
  - destruct Ht as (q & Hq & Ht). destruct (Forall2_lookup_l _ _ _ _ _ G Hq) as (q2 & Hq2 & Hp).
    assert (t ∈ q2) as Ht2 by (destruct Hp as [r ->]; apply elem_of_app; by left).
    destruct H as [|(p & q3 & Hp2 & Hq3 & Ht3 & Hle)]; [by exists q2|by left|]. right. exists q, q3.
    assert (p = q2) as -> by congruence. rewrite (ahead_prefix t q q2) in Hle by done. by split_and!.
  - destruct H as [|(p & q3 & Hp & Hq3 & Ht3 & Hle3)]; [by exists q2|by left|].
    right. exists q, q3. assert (p = q2) as -> by congruence. split_and!; try done. lia.
Qed.

Lemma schedule_one_spec root core s :
  wf s -> 0 <= core < running_cpu_count s -> idle_slot s (Z.to_nat core) ->
  returns (fun '(r, s') => r = Value tt /\ one_round core s s') (schedule_one root core s).
Proof.
  intros Hwf Hc Hidle. unfold schedule_one.
  assert (concat (task_queues s) = [] -> one_round core s s) as Hsame.
  { intros E. split; [by apply moved_refl|intros k t; apply keeps_place_refl|done|done|].
    destruct Hidle as (u & Hu & Hui). intros t Ht Hni. congruence. }
  eapply (returns_bind (one_round core s)); [|done].
  destruct (Z.eqb_spec (awaiting_task_count s) 0) as [Hz|Hz].
  - rewrite set_idle_same by done. apply Hsame.
    apply (count_zero s Hwf) in Hz. by apply app_nil in Hz as [Hz _].
  - eapply returns_impl.
    { apply (schedule_one_loop_spec root core _ 0); [done..|]. intros j Hj. lia. }
    intros s' [[-> E]|(k & off & q & t & Hq & Ht & _ & T)]; [by apply Hsame|].
    pose proof T as (M & Eq & En & _ & _ & Hm).
    assert (t ∈ concat (task_queues s)) as Htq.
    { apply (in_queue_waits _ k). exists q. split; [done|]. by eapply list_elem_of_lookup_2. }
    assert (next_task_to_run s' !! Z.to_nat core = Some t) as Hnext.
    { rewrite En. apply list_lookup_insert_eq. destruct Hidle as (u & Hu & _). by eapply lookup_lt_Some. }
    split; [done| | | |].
    + intros k' t'. by eapply taken_place.
    + intros j Hj. rewrite En. by apply list_lookup_insert_ne.
    + intros (u & Hu & Hui). rewrite Hnext in Hu. injection Hu as <-.
      rewrite (fx_idles _ _ (mv_fixed _ _ M)) in Hui. exfalso.
      apply (wf_members _ Hwf t); [|done]. apply elem_of_app. left. apply elem_of_app. by left.
    + intros t' Ht' _. rewrite Hnext in Ht'. injection Ht' as <-.
      apply (has_mutex_same s s'); [done|]. by apply (wf_runnable _ Hwf).
Qed.

(** The blocked tasks are looked through without clearing the flag that asks
    for it. *)
Lemma resolve_now s :
  wf s ->
  returns (fun '(_, s') => moved s s' /\ grows s s' /\ next_task_to_run s' = next_task_to_run s /\
             blocked_task_dirty s' = blocked_task_dirty s)
    (resolve_blocked_tasks_scheduler s).
Proof.
  intros Hwf. eapply returns_impl; [apply resolve_spec, wf_dirty, Hwf|].
  intros [z s'] (W & F & P & G & N & D & A). split_and!; try done. split; [|done|done].
  assert (with_dirty (blocked_task_dirty s') s' = s') as <- by (by destruct s'). by apply wf_settle.
Qed.

Lemma reschedule_only_one_round root core s :
  wf s -> 0 <= core < running_cpu_count s -> zlen (cpu_running s) = running_cpu_count s ->
  returns (fun '(r, s') => r = Value tt /\
      (s' = s /\ next_task_to_run s !! Z.to_nat core <> cpu_running s !! Z.to_nat core \/
       one_round core s s' /\ next_task_to_run s !! Z.to_nat core = cpu_running s !! Z.to_nat core))
    (reschedule_only_one root core s).
Proof.
  intros Hwf Hc Hrun. destruct (wf_next_task s core Hwf Hc) as (t & x & Ht & Hget & _).
  unfold reschedule_only_one, expect_scheduling. rewrite Hget. cbn [mbind ctl_bind].
  assert (exists r, cpu_running s !! Z.to_nat core = Some r) as [r Hr].
  { apply lookup_lt_is_Some_2. lia. }
  rewrite (aget_lookup (cpu_running s)), Hr by lia. cbn [deref mbind ctl_bind].
  destruct (Z.eqb_spec t r) as [->|Hne]; cbn [negb].
  - eapply returns_bind; [by apply update_one_spec|]. intros s1 (M1 & G1 & D1 & I1 & O1).
    eapply returns_bind; [apply resolve_now, M1|]. intros [z s2] (M2 & G2 & N2 & D2).
    pose proof (mv_fixed _ _ M1) as F1. pose proof (mv_fixed _ _ M2) as F2.
    eapply returns_impl.
    { apply schedule_one_spec; [apply M2|by rewrite (fx_cores _ _ F2), (fx_cores _ _ F1)|].
      destruct I1 as (u & Hu & Hui). exists u. by rewrite N2, (fx_idles _ _ F2). }
    intros [e s3] (-> & [M3 P3 O3 B3 C3]). split; [done|]. right. split; [|by rewrite Ht].
    split; [| | |done|done].
    + eapply moved_trans; [exact M1|]. by eapply moved_trans.
    + intros k u Hu. apply (grows_then k s s2); [by trans s1|done|apply P3].
    + intros j Hj. rewrite (O3 j Hj), N2. by apply O1.
  - split; [done|]. left. split; [done|]. rewrite Ht. congruence.
Qed.

(** * Blocking *)

(** A lock is taken or given back, and the blocked tasks are to be looked at. *)
Lemma wf_set_mutex s t x v :
  wf s -> tasks s !! t = Some x -> (v = true -> t ∉ concat (task_queues s)) ->
  wf (with_dirty true (with_tasks (<[t := mk_Task (uid x) (set_mutex v (sched x))]> (tasks s)) s)).
Proof.
  intros Hwf Hx Hv. pose proof Hwf as [H1 H2 H3 H4 H5 H6 H7 H8 H9 H10 H11 H12].
  pose proof (tw_cores _ _ _ H2 t x Hx) as [? ?].
  split; try done; simpl.
  - by apply tasks_wf_upd.
  - intros t' Ht'. apply H6 in Ht' as [Hs ?]. split; [|done].
    destruct (decide (t' = t)) as [->|]; [rewrite lookup_insert_eq|rewrite lookup_insert_ne]; done.
  - intros t' Ht'. destruct (decide (t' = t)) as [->|Hne].
    + destruct v; [by destruct (Hv eq_refl)|]. eexists. by rewrite lookup_insert_eq.
    + destruct (H11 t' Ht') as (y & Hy & Hm). exists y. by rewrite lookup_insert_ne.
Qed.

(** * Launching *)

Lemma by_id_Value s id t :
  by_id s id = Ret (Value t) -> exists x, tasks s !! t = Some x /\ uid x = id.
Proof.
  unfold by_id. destruct (List.find _ _) as [u|] eqn:E; [|done]. intros [= <-].
  apply find_some in E as [_ E]. destruct (tasks s !! u) as [x|]; [|done].
  exists x. split; [done|]. by apply Z.eqb_eq.
Qed.

(** A task that is in no queue and on no core is put into one. *)
Lemma launch_spec s t x :
  wf s -> tasks s !! t = Some x -> t ∉ members s -> t ∉ scheduler_idles s ->
  zlen (members s) + 1 < 2 ^ 62 ->
  returns (fun s' => wf s' /\ members s' ≡ₚ t :: members s /\ fixed s s' /\ grows s s' /\
             next_task_to_run s' = next_task_to_run s)
    (s ← upd_sched t (fun _ => SCB_init 0) s; add_entity_to_queue t s).
Proof.
  intros Hwf Hx Hm Hni Hb. rewrite (upd_sched_eq _ _ _ _ Hx). cbn [mbind ctl_bind].
  pose proof Hwf as [H1 H2 H3 H4 H5 H6 H7 H8 H9 H10 H11 H12].
  assert (t <> 0) as Hnz by (intros ->; by rewrite (tw_null _ _ _ H2) in Hx).
  assert (is_idle (sched x) = false) as Hidle.
  { rewrite (tw_idle _ _ _ H2 t x Hx). by apply bool_decide_eq_false_2. }
  set (s1 := with_tasks _ s).
  rewrite (add_entity_eq s1 t (mk_Task (uid x) (SCB_init 0))) by (simpl; done || by rewrite lookup_insert_eq).
  set (s2 := enqueued t _ s1). cbn [sched] in s2.
  assert (t ∉ concat (task_queues s)) as Hnq.
  { intros Hin. apply Hm. apply elem_of_app. left. apply elem_of_app. by left. }
  assert (t ∉ blocked_tasks s) as Hnb.
  { intros Hin. apply Hm. apply elem_of_app. left. apply elem_of_app. by right. }
  assert (queued s2 ≡ₚ t :: queued s) as Hq by (apply (enqueued_queued s1 t (SCB_init 0)); done).
  assert (members s2 ≡ₚ t :: members s) as Hmem.
  { unfold members. rewrite Hq. done. }
  assert (fixed s s2) as F.
  { trans s1; [by apply fixed_upd|apply enqueued_fixed]. }
  assert (forall t', t' <> t -> tasks s2 !! t' = tasks s !! t') as Hother.
  { intros t' Hne. simpl. by apply lookup_insert_ne. }
  simpl. split; [|split; [done|split; [done|split; [exact (enqueued_grows s1 t (SCB_init 0))|done]]]].
  split; try done.
  - apply (tasks_wf_upd _ _ _ t x (SCB_init 0)); try done; simpl; unfold CpuCoreNone; lia.
  - exact (enqueued_length s1 t (SCB_init 0) H4).
  - intros t' Ht'. rewrite Hmem in Ht'. apply elem_of_cons in Ht' as [->|Ht'].
    + split; [|done]. simpl. rewrite lookup_insert_eq. by eexists.
    + destruct (H6 t' Ht') as [? ?]. split; [by apply (fixed_dom s s2)|done].
  - rewrite Hmem. by constructor.
  - rewrite Hmem. simpl. lia.
  - rewrite Hq. change (awaiting_task_count s2) with (u64 (awaiting_task_count s + 1)).
    pose proof (count_range _ Hwf). rewrite wrapu_small by lia. rewrite H10. simpl. lia.
  - intros t' Ht'. apply (enqueued_runnable s1 t (SCB_init 0) H4) in Ht' as [[-> _]|Ht'].
    + eexists. simpl. by rewrite lookup_insert_eq.
    + destruct (H11 t' Ht') as (y & Hy & Hv). exists y. rewrite Hother; [done|]. by intros ->.
  - intros Hd t' Ht'. destruct (H12 Hd t' Ht') as (y & Hy & Hv). exists y.
    rewrite Hother; [done|]. by intros ->.
Qed.

(** * Runs of the scheduler *)

(** What happens to the scheduler while its lock is held: core 0 starts a round,
    a core reschedules itself, a core goes to the task chosen for it, a task
    blocks, is unblocked, is launched. *)
Inductive event :=
  | Round (root : CpuTreeNode)
  | OneCore (root : CpuTreeNode) (core : Z)
  | Switch (core : Z)
  | Block (t : Z)
  | Unblock (t : Z)
  | Launch (id : Z).

Definition happen (e : event) (s : scheduler) : ctl scheduler :=
  match e with
  | Round root => '(_, s) ← reschedule_all root s; Ret s
  | OneCore root core => '(_, s) ← reschedule_only_one root core s; Ret s
  | Switch core => switch_to core s
  | Block t => sched_block t s
  | Unblock t => sched_unblock t s
  | Launch id => '(_, s) ← task_run id s; Ret s
  end.

(** What the rest of the kernel does: a task that blocks is running and not
    blocked already, and a task is launched once. *)
Definition enabled (e : event) (s : scheduler) : Prop :=
  match e with
  | Round _ => True
  | OneCore _ core | Switch core => 0 <= core < running_cpu_count s
  | Block t => t ∈ slots s /\ has_mutex (tasks s) t false
  | Unblock t => is_Some (tasks s !! t)
  | Launch id => forall t, by_id s id = Ret (Value t) ->
      t ∉ members s /\ t ∉ scheduler_idles s /\ zlen (members s) + 1 < 2 ^ 62
  end.

Fixpoint happen_all (es : list event) (s : scheduler) : ctl scheduler :=
  match es with
  | [] => Ret s
  | e :: es => s ← happen e s; happen_all es s
  end.

Fixpoint all_enabled (es : list event) (s : scheduler) : Prop :=
  match es with
  | [] => True
  | e :: es => enabled e s /\ forall s', happen e s = Ret s' -> all_enabled es s'
  end.

(** The invariant: every core also has a running task. *)
Definition ok (s : scheduler) : Prop := wf s /\ zlen (cpu_running s) = running_cpu_count s.

(** What any event does. *)
Record goes (s s' : scheduler) : Prop := mk_goes {
  go_ok : ok s';
  go_cores : running_cpu_count s' = running_cpu_count s;
  go_idles : scheduler_idles s' = scheduler_idles s;
  go_members : forall t, t ∈ members s -> t ∈ members s';
  go_tasks : forall t, uid <$> tasks s' !! t = uid <$> tasks s !! t
}.

Lemma goes_refl s : ok s -> goes s s.
Proof. by split. Qed.

Lemma goes_trans s1 s2 s3 : goes s1 s2 -> goes s2 s3 -> goes s1 s3.
Proof.
  intros [O1 C1 I1 M1 T1] [O2 C2 I2 M2 T2]. split; [done|congruence|congruence|auto|congruence].
Qed.

Lemma moved_goes s s' : ok s -> moved s s' -> goes s s'.
Proof.
  intros [_ Hrun] [W [F1 F2 F3 F4 F5] P].
  split; [split; [done|congruence]|done|done| |done]. intros t. by rewrite P.
Qed.

(** ** No event takes its place from a waiting task *)

Definition places (s s' : scheduler) : Prop :=
  forall k t, in_queue k s t -> keeps_place k s s' t.

Lemma same_queues_places s s' : task_queues s' = task_queues s -> places s s'.
Proof. intros E k t (q & Hq & Ht). right. exists q, q. rewrite E. by split_and!. Qed.

Lemma grows_places s s' : grows s s' -> places s s'.
Proof. intros G k t. by apply grows_place. Qed.

Lemma set_mutex_event s t x v s' :
  ok s -> tasks s !! t = Some x -> (v = true -> t ∉ concat (task_queues s)) ->
  s' = with_dirty true (with_tasks (<[t := mk_Task (uid x) (set_mutex v (sched x))]> (tasks s)) s) ->
  goes s s' /\ places s s'.
Proof.
  intros [Hwf Hrun] Hx Hv ->. split; [|by apply same_queues_places].
  split; [|done|done|done|].
  - split; [by apply wf_set_mutex|done].
  - apply (fx_uid _ _ (fixed_upd s t x (set_mutex v (sched x)) Hx)).
Qed.

(** Every event but a round. *)
Lemma small_event e s :
  ok s -> enabled e s -> (forall root, e <> Round root) ->
  returns (fun s' => goes s s' /\ places s s') (happen e s).
Proof.
  intros Hok He Hr. pose proof Hok as [Hwf Hrun]. destruct e; simpl in He |- *.
  - by destruct (Hr root).
  - eapply returns_bind; [by apply reschedule_only_one_round|].
    intros [r s'] (_ & [[-> _]|[H _]]); simpl.
    + split; [by apply goes_refl|]. by apply same_queues_places.
    + split; [apply moved_goes; [done|apply H]|]. exact (on_place _ _ _ H).
  - destruct (wf_next_task s core Hwf He) as (t & x & Ht & Hget & _).
    unfold switch_to. rewrite Hget. cbn [mbind ctl_bind].
    rewrite aset_in_range by lia. cbn [deref mbind ctl_bind]. split; [|by apply same_queues_places].
    split; try done. split; [split; apply Hwf|]. simpl. by rewrite length_insert.
  - destruct He as [Ht (x & Hx & Hm)]. unfold sched_block. rewrite (get_sched_eq _ _ _ Hx).
    cbn [mbind ctl_bind]. rewrite Hm, (upd_sched_eq _ _ _ _ Hx). cbn [mbind ctl_bind returns].
    eapply set_mutex_event; [done|done| |done]. intros _ Hin. eapply members_disjoint; [exact Hwf| |exact Ht].
    apply elem_of_app. by left.
  - destruct He as [x Hx]. unfold sched_unblock. rewrite (upd_sched_eq _ _ _ _ Hx).
    cbn [mbind ctl_bind returns]. by apply (set_mutex_event s t x false).
  - unfold task_run. destruct (by_id s id) as [[t|m]| |] eqn:Hid.
    + destruct (He t eq_refl) as (Hm & Hni & Hb). destruct (by_id_Value _ _ _ Hid) as (x & Hx & _).
      cbn [mbind ctl_bind]. pose proof (launch_spec s t x Hwf Hx Hm Hni Hb) as H.
      destruct (upd_sched t _ s) as [s1| |]; [|done..]. cbn [mbind ctl_bind] in *.
      destruct (add_entity_to_queue t s1) as [s2| |]; [|done..]. destruct H as (W & P & [] & G & N).
      simpl. split; [|by apply grows_places].
      split; [split; [done|congruence]|done|done| |done]. intros u. rewrite P. by right.
    + split; [by apply goes_refl|]. by apply same_queues_places.
    + unfold by_id in Hid. by destruct (List.find _ _).
    + unfold by_id in Hid. by destruct (List.find _ _).
Qed.

Lemma happen_goes e s :
  ok s -> enabled e s -> returns (goes s) (happen e s).
Proof.
  intros Hok He. assert ((exists root, e = Round root) \/ forall root, e <> Round root) as [[root ->]|H].
  { destruct e; eauto; right; discriminate. }
  - simpl. eapply returns_bind; [apply reschedule_all_round, Hok|]. intros [r s'] [_ R].
    by apply moved_goes, R.
  - eapply returns_impl; [by apply small_event|]. by intros s' [? _].
Qed.

Lemma happen_all_goes es : forall s,
  ok s -> all_enabled es s -> returns (goes s) (happen_all es s).
Proof.
  induction es as [|e es IH]; intros s Hok He; simpl in *; [by apply goes_refl|].
  destruct He as [He Hes]. pose proof (happen_goes e s Hok He) as H.
  destruct (happen e s) as [s1| |]; [|done..]. simpl in *.
  eapply returns_impl; [apply IH; [apply H|by apply Hes]|]. intros s2 G. by eapply goes_trans.
Qed.

(** A run after another. *)
Lemma happen_all_app es1 : forall es2 s,
  happen_all (es1 ++ es2) s = s1 ← happen_all es1 s; happen_all es2 s1.
Proof.
  induction es1 as [|e es1 IH]; intros es2 s; [done|]. simpl.
  destruct (happen e s) as [s1| |]; [|done..]. simpl. apply IH.
Qed.

Lemma all_enabled_app es1 : forall es2 s s1,
  all_enabled (es1 ++ es2) s -> happen_all es1 s = Ret s1 -> all_enabled es1 s /\ all_enabled es2 s1.
Proof.
  induction es1 as [|e es1 IH]; intros es2 s s1 He H; simpl in *; [by injection H as <-|].
  destruct He as [He Hes]. destruct (happen e s) as [s2| |] eqn:E; [|done..].
  destruct (IH es2 s2 s1) as [H1 H2]; [by apply Hes|done|]. split; [|done]. split; [done|].
  intros s3 [= <-]. done.
Qed.

(** ** Waiting ends *)

Fixpoint rounds (es : list event) : nat :=
  match es with
  | [] => 0
  | Round _ :: es => S (rounds es)
  | _ :: es => rounds es
  end.

(** [t] waits, and [r] rounds are enough for it to run if there are at most [N]
    tasks: one to leave each queue above the last, one for each task before it
    in the last. *)
Definition rank (N r : nat) (s : scheduler) (t : Z) : Prop :=
  exists k q, task_queues s !! k = Some q /\ t ∈ q /\
    match k with O => (ahead t q < r)%nat | _ => (k + N <= r)%nat end.

Lemma ahead_bound s k q t :
  task_queues s !! k = Some q -> t ∈ q -> (ahead t q < length (members s))%nat.
Proof.
  intros Hq Ht. pose proof (lookup_lt_Some _ _ _ (ahead_lookup t q Ht)) as Ha.
  pose proof (concat_insert_perm (task_queues s) k q [] Hq) as P.
  apply Permutation_length in P. rewrite !length_app in P. simpl in P.
  unfold members, queued. rewrite !length_app. lia.
Qed.

Lemma rank_start N s t :
  wf s -> (length (members s) <= N)%nat -> t ∈ concat (task_queues s) ->
  rank N (Z.to_nat TASK_QUEUE_COUNT - 1 + N) s t.
Proof.
  intros Hwf HN Ht. apply list_elem_of_In, in_concat in Ht as (q & Hq & Ht).
  apply list_elem_of_In in Hq, Ht. apply list_elem_of_lookup in Hq as [k Hk]. exists k, q.
  split; [done|]. split; [done|]. pose proof (ahead_bound s k q t Hk Ht).
  pose proof (lookup_lt_Some _ _ _ Hk). pose proof (wf_queues _ Hwf).
  unfold TASK_QUEUE_COUNT in *. destruct k; lia.
Qed.

Lemma rank_round root N r s s' t :
  (length (members s') <= N)%nat -> round root s s' -> rank N (S r) s t ->
  t ∈ slots s' \/ rank N r s' t.
Proof.
  intros HN R ([|k] & q & Hq & Ht & Hr).
  - destruct (rd_front _ _ _ R q t Hq Ht) as [|(q' & Hq' & Ht' & Hlt)]; [by left|right].
    exists 0%nat, q'. split_and!; try done. lia.
  - destruct (rd_down _ _ _ R k t) as [|(q' & Hq' & Ht')]; [by exists q|by left|right].
    exists k, q'. split; [done|]. split; [done|]. pose proof (ahead_bound s' k q' t Hq' Ht').
    destruct k; lia.
Qed.

Lemma rank_places N r s s' t : places s s' -> rank N r s t -> t ∈ slots s' \/ rank N r s' t.
Proof.
  intros P (k & q & Hq & Ht & Hr). destruct (P k t) as [|(p & q' & Hp & Hq' & Ht' & Hle)].
  - by exists q.
  - by left.
  - assert (p = q) as -> by congruence. right. exists k, q'. split_and!; try done. destruct k; lia.
Qed.

Lemma members_size s : wf s -> (length (members s) <= size (tasks s))%nat.
Proof.
  intros Hwf. rewrite <- (size_list_to_set (C := gset Z) (members s)) by apply Hwf.
  rewrite <- (size_dom (D := gset Z) (tasks s)). apply subseteq_size. intros t Ht%elem_of_list_to_set.
  apply elem_of_dom. by apply (wf_members _ Hwf).
Qed.

Lemma goes_size s s' : goes s s' -> size (tasks s') = size (tasks s).
Proof.
  intros G. rewrite <- !(size_dom (D := gset Z)). f_equal. apply set_eq. intros t.
  rewrite !elem_of_dom. rewrite <- !(fmap_is_Some uid). by rewrite (go_tasks _ _ G).
Qed.

(** One event brings a waiting task nearer to its turn, or leaves it as near. *)
Lemma event_rank e r s t :
  ok s -> enabled e s -> rank (size (tasks s)) (rounds [e] + r) s t ->
  returns (fun s' => goes s s' /\ (t ∈ slots s' \/ rank (size (tasks s')) r s' t)) (happen e s).
Proof.
  intros Hok He Hr. assert ((exists root, e = Round root) \/ forall root, e <> Round root) as [[root ->]|H].
  { destruct e; eauto; right; discriminate. }
  - simpl. eapply returns_bind; [apply reschedule_all_round, Hok|]. intros [z s'] [_ R].
    assert (goes s s') as G by (by apply moved_goes, R). split; [done|].
    eapply rank_round; [apply members_size, G|exact R|]. by rewrite (goes_size _ _ G).
  - eapply returns_impl; [by apply small_event|]. intros s' [G P]. split; [done|].
    rewrite (goes_size _ _ G). eapply rank_places; [done|]. by destruct e; try done; destruct (H root).
Qed.

Lemma rank_ends es : forall r s t,
  ok s -> all_enabled es s -> rank (size (tasks s)) r s t -> (r <= rounds es)%nat ->
  exists es1 es2 s1, es = es1 ++ es2 /\ happen_all es1 s = Ret s1 /\ t ∈ slots s1.
Proof.
  induction es as [|e es IH]; intros r s t Hok Hes Hr Hle.
  - simpl in Hle. destruct Hr as ([|k] & q & _ & _ & Hr); lia.
  - destruct Hes as [He Hes].
    assert (rank (size (tasks s)) (rounds [e] + rounds es) s t) as Hr'.
    { destruct Hr as (k & q & Hq & Ht & Hr). exists k, q. split; [done|]. split; [done|].
      destruct e; simpl in *; destruct k; lia. }
    pose proof (event_rank e (rounds es) s t Hok He Hr') as H.
    destruct (happen e s) as [s1| |] eqn:E; [|done..]. destruct H as [G [Hs|H1]].
    + exists [e], es, s1. simpl. by rewrite E.
    + destruct (IH (rounds es) s1 t) as (es1 & es2 & s2 & -> & H2 & H3);
        [apply G|by apply Hes|done|done|].
      exists (e :: es1), es2, s2. simpl. rewrite E. by split.
Qed.

(** ** The start *)

(** Before the start there are tasks, none of which is idle or to be run. *)
Definition cold (m : gmap Z Task) (l : list Z) : scheduler :=
  mk_scheduler m l [] [] false 0 [] [] [] 0 0.

(** The tasks [task_create] returned for the cores. *)
Definition fresh_tasks (m : gmap Z Task) (created : list (Z * Z)) : Prop :=
  NoDup created.*1 /\ forall t, t ∈ created.*1 -> t <> 0 /\ m !! t = None.

Lemma tasks_wf_idle n idles m t id :
  1 <= n -> tasks_wf n idles m -> t <> 0 -> m !! t = None ->
  tasks_wf n (idles ++ [t]) (<[t := mk_Task id (set_is_idle true (SCB_init 0))]> m).
Proof.
  intros Hn [H1 H2 H3 H4] Ht Hm. split.
  - by rewrite lookup_insert_ne.
  - intros u x Hx. destruct (decide (u = t)) as [->|Hne].
    + rewrite lookup_insert_eq in Hx. injection Hx as <-. symmetry. apply bool_decide_eq_true_2.
      apply elem_of_app. right. by left.
    + rewrite lookup_insert_ne in Hx by done. rewrite (H2 u x Hx). apply bool_decide_ext.
      rewrite elem_of_app, list_elem_of_singleton. naive_solver.
  - intros u [Hu| ->%list_elem_of_singleton]%elem_of_app; [|by rewrite lookup_insert_eq].
    destruct (decide (u = t)) as [->|]; [by rewrite lookup_insert_eq|].
    rewrite lookup_insert_ne by done. by apply H3.
  - intros u x Hx. destruct (decide (u = t)) as [->|Hne].
    + rewrite lookup_insert_eq in Hx. injection Hx as <-. simpl. unfold CpuCoreNone. lia.
    + rewrite lookup_insert_ne in Hx by done. by apply (H4 u).
Qed.

Lemma init_idle_spec n created : forall s,
  1 <= n -> tasks_wf n (scheduler_idles s) (tasks s) -> NoDup (scheduler_idles s) ->
  next_task_to_run s = scheduler_idles s -> cpu_running s = scheduler_idles s ->
  fresh_tasks (tasks s) created ->
  exists s', scheduler_init_idle_task (Value <$> created) s = (Value tt, s') /\
    tasks_wf n (scheduler_idles s') (tasks s') /\ NoDup (scheduler_idles s') /\
    next_task_to_run s' = scheduler_idles s' /\ cpu_running s' = scheduler_idles s' /\
    scheduler_idles s' = scheduler_idles s ++ created.*1 /\
    task_queues s' = task_queues s /\ blocked_tasks s' = blocked_tasks s /\
    awaiting_task_count s' = awaiting_task_count s /\ running_cpu_count s' = running_cpu_count s.
Proof.
  induction created as [|[t id] created IH]; intros s Hn Hwf Hnd Hne Hru [Hd Hf].
  { exists s. rewrite app_nil_r. by split_and!. }
  simpl in Hd. apply NoDup_cons in Hd as [Hd1 Hd2]. destruct (Hf t) as [Ht Hm]; [by left|].
  cbn [fmap list_fmap scheduler_init_idle_task].
  match goal with |- context [scheduler_init_idle_task _ ?x] => set (s1 := x) end.
  destruct (IH s1) as (s' & E & H1 & H2 & H3 & H4 & H5 & H6).
  - done.
  - by apply tasks_wf_idle.
  - apply NoDup_app. split; [done|]. split; [|apply NoDup_singleton].
    intros u Hu ->%list_elem_of_singleton. destruct (tw_idles _ _ _ Hwf t Hu) as [x Hx]. congruence.
  - simpl. by rewrite Hne.
  - simpl. by rewrite Hru.
  - split; [done|]. intros u Hu. destruct (Hf u) as [? ?]; [by right|]. split; [done|].
    simpl. rewrite lookup_insert_ne; [done|]. by intros ->.
  - exists s'. split; [exact E|]. split_and!; try done; try apply H6.
    rewrite H5. simpl. by rewrite <- app_assoc.
Qed.

Lemma scheduler_init_ok n m l created :
  1 <= n < 2 ^ 31 -> zlen created = n -> tasks_wf n [] m -> fresh_tasks m created ->
  exists s, scheduler_init n n (Value <$> created) (cold m l) = (Value tt, s) /\ ok s /\
    running_cpu_count s = n /\ members s = [].
Proof.
  intros Hn Hl Hm Hf. unfold scheduler_init, cold. rewrite wrapu_small, Z.eqb_refl by lia.
  cbn [negb tasks task_list task_queues blocked_tasks blocked_task_dirty awaiting_task_count
       scheduler_idles next_task_to_run cpu_running running_cpu_count tick].
  match goal with |- context [scheduler_init_idle_task _ ?x] => set (s1 := x) end.
  destruct (init_idle_spec n created s1) as (s & E & H1 & H2 & H3 & H4 & H5 & H6 & H7 & H8 & H9);
    try done; [lia|constructor|].
  exists s. split; [exact E|]. simpl in *.
  assert (slots s = []) as Hs.
  { unfold slots. rewrite H3. apply elem_of_nil_inv. intros t [? ?]%list_elem_of_filter. done. }
  assert (task_queues s = replicate (Z.to_nat TASK_QUEUE_COUNT) []) as Hq by exact H6.
  assert (concat (task_queues s) = []) as Hc.
  { rewrite Hq. apply concat_nil_Forall, Forall_replicate. done. }
  assert (members s = []) as Hme by (unfold members, queued; by rewrite Hc, H7, Hs).
  assert (zlen (scheduler_idles s) = n) as Hli by (rewrite H5, length_map; done).
  split; [|done]. split; [|by rewrite H4, H9, Hli].
  split; rewrite ?H9; try done.
  - rewrite Hq, length_replicate. done.
  - by rewrite H3.
  - rewrite Hme. intros t Ht. by apply not_elem_of_nil in Ht.
  - rewrite H3. by intros i t Hi _.
  - rewrite Hme. constructor.
  - by rewrite Hme.
  - rewrite H8. unfold queued. by rewrite Hc, H7.
  - rewrite Hc. intros t Ht. by apply not_elem_of_nil in Ht.
  - rewrite H7. intros _ t Ht. by apply not_elem_of_nil in Ht.
Qed.

(** * A small machine *)

Definition is_enabled (e : event) (s : scheduler) : bool :=
  match e with
  | Round _ => true
  | OneCore _ core | Switch core => (0 <=? core) && (core <? running_cpu_count s)
  | Block t => bool_decide (t ∈ slots s) &&
      match tasks s !! t with Some x => negb (mutex (sched x)) | None => false end
  | Unblock t => bool_decide (is_Some (tasks s !! t))
  | Launch id =>
      match by_id s id with
      | Ret (Value t) => bool_decide (t ∉ members s) && bool_decide (t ∉ scheduler_idles s) &&
          (zlen (members s) + 1 <? 2 ^ 62)
      | _ => true
      end
  end.

Fixpoint are_enabled (es : list event) (s : scheduler) : bool :=
  match es with
  | [] => true
  | e :: es => is_enabled e s && match happen e s with Ret s => are_enabled es s | _ => true end
  end.

Lemma is_enabled_ok e s : is_enabled e s = true -> enabled e s.
Proof.
  destruct e; simpl; try (intros; lia || done).
  - intros [Ht%bool_decide_eq_true Hm]%andb_prop. split; [done|].
    destruct (tasks s !! t) as [x|] eqn:Hx; [|done]. exists x. split; [done|].
    by apply negb_true_iff in Hm.
  - by intros ?%bool_decide_eq_true.
  - intros H t Hid. rewrite Hid in H. apply andb_prop in H as [[H1 H2]%andb_prop H3].
    apply bool_decide_eq_true in H1, H2. split_and!; try done. lia.
Qed.

Lemma are_enabled_ok es : forall s, are_enabled es s = true -> all_enabled es s.
Proof.
  induction es as [|e es IH]; intros s H; simpl in *; [done|].
  apply andb_prop in H as [H1 H2]. split; [by apply is_enabled_ok|].
  intros s' E. rewrite E in H2. by apply IH.
Qed.

Lemma tasks_wf_new n m t id :
  1 <= n -> tasks_wf n [] m -> t <> 0 -> tasks_wf n [] (<[t := mk_Task id (SCB_init 0)]> m).
Proof.
  intros Hn [H1 H2 H3 H4] Ht. split.
  - by rewrite lookup_insert_ne.
  - intros u x Hx. destruct (decide (u = t)) as [->|Hne].
    + rewrite lookup_insert_eq in Hx. by injection Hx as <-.
    + rewrite lookup_insert_ne in Hx by done. by apply H2.
  - intros u Hu. by apply not_elem_of_nil in Hu.
  - intros u x Hx. destruct (decide (u = t)) as [->|Hne].
    + rewrite lookup_insert_eq in Hx. injection Hx as <-. simpl. unfold CpuCoreNone. lia.
    + rewrite lookup_insert_ne in Hx by done. by apply (H4 u).
Qed.

(** Tasks 1 to 4 at addresses 16 to 64, and a machine of two cores. *)
Definition sample_tasks : gmap Z Task :=
  foldr (fun i m => <[16 * i := mk_Task i (SCB_init 0)]> m) ∅ (seqZ 1 4).
Definition sample_list : list Z := [16; 32; 48; 64].
Definition sample_idles : list (Z * Z) := [(160, 10); (176, 11)].
Definition sample_root : CpuTreeNode :=
  mk_CpuTreeNode [mk_CpuTreeNode [] 0; mk_CpuTreeNode [] 1] (-1).
Definition sample_start : scheduler :=
  snd (scheduler_init 2 2 (Value <$> sample_idles) (cold sample_tasks sample_list)).

Lemma sample_tasks_wf : tasks_wf 2 [] sample_tasks.
Proof.
  unfold sample_tasks. change (seqZ 1 4) with [1; 2; 3; 4]. simpl.
  repeat (apply tasks_wf_new; [lia| |lia]). split; try done.
  intros t Ht. by apply not_elem_of_nil in Ht.
Qed.

Lemma sample_fresh : fresh_tasks sample_tasks sample_idles.
Proof.
  split; [apply (bool_decide_unpack _); by vm_compute|].
  intros t Ht. apply list_elem_of_In in Ht. simpl in Ht.
  by destruct Ht as [<-|[<-|[]]].
Qed.

Lemma sample_start_ok : ok sample_start.
Proof.
  destruct (scheduler_init_ok 2 sample_tasks sample_list sample_idles) as (s & E & H & _).
  - done.
  - done.
  - apply sample_tasks_wf.
  - apply sample_fresh.
  - unfold sample_start. by rewrite E.
Qed.

Definition sample_launch : list event := Launch <$> [1; 2; 3; 4].
Definition sample_ready : scheduler :=
  match happen_all sample_launch sample_start with Ret s => s | _ => sample_start end.

Lemma sample_ready_ok : ok sample_ready.
Proof.
  pose proof (happen_all_goes sample_launch sample_start sample_start_ok) as H.
  unfold sample_ready. destruct (happen_all _ _) as [s| |] eqn:E; [|apply sample_start_ok..].
  apply H. apply are_enabled_ok. by vm_compute.
Qed.

Definition sample_rounds (n : nat) : list event :=
  concat (replicate n [Round sample_root; Switch 0; Switch 1]).
