(* ===== verification/SchedulerSafety.v ===== *)
(** What the scheduler promises: from the start of the machine on no task is
    lost or in two places, a round always succeeds, keeps no core idle while a
    task waits and runs no blocked task, and a task that waits runs after a
    bounded number of rounds. *)

From stdpp Require Import gmap.
From S2P Require Import Prelude Scheduler SchedulerSpec SchedulerRound SchedulerEvents.

(** C11: [reschedule_all] always returns a value (the limit on the attempts to fix
    the affinities is never reached), and after it every task is still in
    exactly one place, a queue, the list of blocked tasks or a core. *)
Theorem round_keeps_every_task root s :
  wf s ->
  exists s', reschedule_all root s = Ret (Value tt, s') /\ wf s' /\
    members s' ≡ₚ members s /\ NoDup (members s').
Proof.
  intros Hwf. destruct (proj1 (returns_iff _ _) (reschedule_all_round root s Hwf)) as ([r s'] & E & -> & R).
  exists s'. pose proof (mv_wf _ _ (rd_moved _ _ _ R)) as W. split_and!; [done|done|apply R|apply W].
Qed.

Lemma round_keeps_every_task_witness :
  exists s', reschedule_all sample_root sample_ready = Ret (Value tt, s') /\ wf s' /\
    members s' ≡ₚ members sample_ready /\ NoDup (members s').
Proof. apply (round_keeps_every_task sample_root), sample_ready_ok. Defined.

(** After a round no core is idle while a task waits in a queue, the tasks the
    cores are to run are not blocked, all the tasks left in the list of blocked
    tasks are, and a queue has lost tasks only if all queues of a higher
    priority are empty. *)
Theorem round_uses_the_cores root s :
  wf s ->
  exists s1 s', update_runned_tasks (with_tick (u64 (tick s + 1)) s) = Ret s1 /\
    reschedule_all root s = Ret (Value tt, s') /\
    ((exists i, idle_slot s' i) -> concat (task_queues s') = []) /\
    (forall t, t ∈ slots s' -> has_mutex (tasks s') t false) /\
    (forall t, t ∈ blocked_tasks s' -> has_mutex (tasks s') t true) /\
    (forall j k q, (j < k)%nat -> task_queues s' !! j = Some q -> q <> [] ->
       task_queues s' !! k = task_queues s1 !! k).
Proof.
  intros Hwf. destruct (proj1 (returns_iff _ _) (reschedule_all_round root s Hwf)) as ([r s'] & E & -> & R).
  destruct (rd_priority _ _ _ R) as (s1 & E1 & Hp). exists s1, s'.
  split_and!; [done|done|exact (rd_busy _ _ _ R)|exact (rd_chosen _ _ _ R)|exact (rd_blocked _ _ _ R)|exact Hp].
Qed.

Lemma round_uses_the_cores_witness :
  exists s1 s', update_runned_tasks (with_tick (u64 (tick sample_ready + 1)) sample_ready) = Ret s1 /\
    reschedule_all sample_root sample_ready = Ret (Value tt, s') /\
    ((exists i, idle_slot s' i) -> concat (task_queues s') = []) /\
    (forall t, t ∈ slots s' -> has_mutex (tasks s') t false) /\
    (forall t, t ∈ blocked_tasks s' -> has_mutex (tasks s') t true) /\
    (forall j k q, (j < k)%nat -> task_queues s' !! j = Some q -> q <> [] ->
       task_queues s' !! k = task_queues s1 !! k).
Proof. apply (round_uses_the_cores sample_root), sample_ready_ok. Defined.

(** C12: From the start of a machine of [n] cores, any sequence of rounds,
    reschedulings, switches, blockings, wake-ups and launches returns (no null pointer
    is followed, no index is out of bounds), and at the end no task is in two places
    and no task that was there is lost, as long as no task that waits, runs, is
    blocked or is idle is launched (and there are fewer than 2^62), only a task that
    is on a core and not blocked is blocked, a task that is woken exists and a core
    that is named runs. This is left to the callers: ksyscall_task_launch launches
    a task as often as it is asked to, which puts it in two places
    (launched_twice_runs_twice). *)
Theorem scheduler_runs_keep_tasks n m l created es s :
  1 <= n < 2 ^ 31 -> zlen created = n -> tasks_wf n [] m -> fresh_tasks m created ->
  scheduler_init n n (Value <$> created) (cold m l) = (Value tt, s) ->
  all_enabled es s ->
  exists s', happen_all es s = Ret s' /\ wf s' /\ NoDup (members s') /\
    forall es1 es2 s1 t, es = es1 ++ es2 -> happen_all es1 s = Ret s1 -> t ∈ members s1 -> t ∈ members s'.
Proof.
  intros Hn Hl Hm Hf E He.
  destruct (scheduler_init_ok n m l created Hn Hl Hm Hf) as (s0 & E0 & Hok & _).
  assert (s0 = s) as -> by congruence.
  destruct (proj1 (returns_iff _ _) (happen_all_goes es s Hok He)) as (s' & H & G).
  exists s'. split; [done|]. split; [apply G|]. split; [apply (go_ok _ _ G)|].
  intros es1 es2 s1 t -> H1 Ht. destruct (all_enabled_app es1 es2 s s1 He H1) as [He1 He2].
  rewrite happen_all_app, H1 in H. cbn [mbind ctl_bind] in H.
  pose proof (happen_all_goes es1 s Hok He1) as G1. rewrite H1 in G1.
  pose proof (happen_all_goes es2 s1 (go_ok _ _ G1) He2) as G2. rewrite H in G2. by apply G2.
Qed.

Lemma scheduler_runs_keep_tasks_witness :
  exists s', happen_all (sample_launch ++ sample_rounds 3) sample_start = Ret s' /\ wf s' /\
    NoDup (members s') /\
    forall es1 es2 s1 t, sample_launch ++ sample_rounds 3 = es1 ++ es2 ->
      happen_all es1 sample_start = Ret s1 -> t ∈ members s1 -> t ∈ members s'.
Proof.
  apply (scheduler_runs_keep_tasks 2 sample_tasks sample_list sample_idles).
  - split; [done|]. by vm_compute.
  - reflexivity.
  - exact sample_tasks_wf.
  - exact sample_fresh.
  - vm_compute. reflexivity.
  - apply are_enabled_ok. vm_compute. reflexivity.
Defined.

(** C10: A task that waits in a queue is given a core before 127 rounds, and one more
    for each task there is, are over, whatever rounds, reschedulings, switches,
    blockings, wake-ups and launches come in between, as long as no task that waits,
    runs, is blocked or is idle is launched, only a task that is on a core and not
    blocked is blocked, a task that is woken exists and a core that is named runs.
    The scheduler tests none of this: a task launched twice is queued twice
    (launched_twice_runs_twice), and the bound is not one for such a queue. *)
Theorem no_waiting_task_starves es s t :
  ok s -> all_enabled es s -> t ∈ concat (task_queues s) ->
  (127 + size (tasks s) <= rounds es)%nat ->
  exists es1 es2 s1, es = es1 ++ es2 /\ happen_all es1 s = Ret s1 /\ t ∈ slots s1.
Proof.
  intros Hok He Ht Hr. eapply rank_ends; [done|done| |exact Hr].
  apply (rank_start (size (tasks s)) s t); [apply Hok|apply members_size, Hok|done].
Qed.

Lemma no_waiting_task_starves_witness :
  exists es1 es2 s1, sample_rounds 133 = es1 ++ es2 /\ happen_all es1 sample_ready = Ret s1 /\ 64 ∈ slots s1.
Proof.
  apply no_waiting_task_starves.
  - exact sample_ready_ok.
  - apply are_enabled_ok. vm_compute. reflexivity.
  - apply list_elem_of_In. vm_compute. tauto.
  - apply Nat.leb_le. vm_compute. reflexivity.
Defined.

(** A core whose task blocks reschedules itself and succeeds: its task goes
    back to a queue or to the blocked tasks, the other cores keep theirs, the
    core is idle only if no task waits, and what it runs next is not blocked. If
    a switch of the core is pending nothing changes. *)
Theorem one_core_reschedules root core s :
  ok s -> 0 <= core < running_cpu_count s ->
  exists s', reschedule_only_one root core s = Ret (Value tt, s') /\ wf s' /\
    members s' ≡ₚ members s /\
    (next_task_to_run s !! Z.to_nat core <> cpu_running s !! Z.to_nat core -> s' = s) /\
    (next_task_to_run s !! Z.to_nat core = cpu_running s !! Z.to_nat core ->
       (forall j, j <> Z.to_nat core -> next_task_to_run s' !! j = next_task_to_run s !! j) /\
       (idle_slot s' (Z.to_nat core) -> concat (task_queues s') = []) /\
       forall t, next_task_to_run s' !! Z.to_nat core = Some t -> t ∉ scheduler_idles s' ->
         has_mutex (tasks s') t false).
Proof.
  intros [Hwf Hrun] Hc.
  destruct (proj1 (returns_iff _ _) (reschedule_only_one_round root core s Hwf Hc Hrun))
    as ([r s'] & E & -> & H).
  exists s'. split; [done|]. destruct H as [[-> Hne]|[R Heq]].
  - split_and!; try done.
  - split; [apply R|]. split; [apply R|]. split; [done|]. intros _.
    split_and!; [exact (on_others _ _ _ R)|exact (on_busy _ _ _ R)|exact (on_chosen _ _ _ R)].
Qed.

Lemma one_core_reschedules_witness :
  exists s', reschedule_only_one sample_root 1 sample_ready = Ret (Value tt, s') /\ wf s' /\
    members s' ≡ₚ members sample_ready /\
    (next_task_to_run sample_ready !! 1%nat <> cpu_running sample_ready !! 1%nat -> s' = sample_ready) /\
    (next_task_to_run sample_ready !! 1%nat = cpu_running sample_ready !! 1%nat ->
       (forall j, j <> 1%nat -> next_task_to_run s' !! j = next_task_to_run sample_ready !! j) /\
       (idle_slot s' 1%nat -> concat (task_queues s') = []) /\
       forall t, next_task_to_run s' !! 1%nat = Some t -> t ∉ scheduler_idles s' ->
         has_mutex (tasks s') t false).
Proof.
  apply (one_core_reschedules sample_root 1); [exact sample_ready_ok|]. split; [done|]. by vm_compute.
Defined.

(** A task that is launched twice, which [ksyscall_task_launch] does not
    prevent, is given two cores at once by the next round. *)
Theorem launched_twice_runs_twice :
  (s ← happen_all [Launch 1; Launch 1; Round sample_root] sample_start; Ret (next_task_to_run s)) =
  Ret [16; 16].
Proof. vm_compute. reflexivity. Qed.
