(* ===== verification/SpaceMoves.v ===== *)
(** What the operations on the table of handles of a space do: looking a handle
    up, moving and copying an object to another space, releasing a handle. *)

From stdpp Require Import gmap.
From S2P Require Import Prelude UMap.
From S2P Require Pmm Range Ring.
From S2P Require Import IpcTypes KObject IpcRegistry Space Sample KObjectSpec SpaceSpec.
From S2P Require Import KernelSafety KernelRuns.

Section moves.
Context `{M : Machine}.

(** A space that is not locked, with the entries [T]. *)
Definition open_space (k : kernel) (p : Z) (s : Space) (T : gmap Z AssetRef) : Prop :=
  (exists n, heap k !! p = Some (mk_Asset false n (AssetSpace s))) /\ space_rep s T.

(** An object that one more reference can be made to. *)
Definition live (k : kernel) (p : Z) : Prop :=
  p <> nullptr /\ exists a, heap k !! p = Some a /\ 0 <= ref_count a /\ ref_count a + 2 < 2 ^ 64.

(** Only the objects [changed] may have another content or lock, and only object
    [p] another count: [n] references more. *)
Record only_counts (changed : list Z) (p n : Z) (k k' : kernel) : Prop := mk_only_counts {
  oc_objects : forall q a, heap k !! q = Some a -> exists a', heap k' !! q = Some a' /\
    ref_count a' = ref_count a + (if decide (q = p) then n else 0) /\
    (q ∉ changed -> lock a' = lock a /\ content a' = content a);
  oc_none : forall q, heap k !! q = None -> heap k' !! q = None;
  oc_rest : k' = with_heap (fun _ => heap k') k
}.

Lemma oc_refl ch p k : only_counts ch p 0 k k.
Proof.
  split; [|done|by destruct k]. intros q a Ha. exists a. split_and!; try done. case_decide; lia.
Qed.

Lemma oc_trans ch p n1 n2 k1 k2 k3 :
  only_counts ch p n1 k1 k2 -> only_counts ch p n2 k2 k3 -> only_counts ch p (n1 + n2) k1 k3.
Proof.
  intros [A1 A2 A3] [B1 B2 B3]. split; [|auto|rewrite B3, A3; by destruct k1].
  intros q a Ha. destruct (A1 q a Ha) as (a2 & Ha2 & C2 & S2).
  destruct (B1 q a2 Ha2) as (a3 & Ha3 & C3 & S3). exists a3. split; [done|]. split.
  - rewrite C3, C2. case_decide; lia.
  - intros Hq. destruct (S2 Hq), (S3 Hq). split; congruence.
Qed.

(** One object changes. *)
Lemma oc_step ch p n q a a' k k' :
  only_counts ch p n k k' -> heap k' !! q = Some a -> ref_count a' = ref_count a ->
  (q ∈ ch \/ lock a' = lock a /\ content a' = content a) ->
  only_counts ch p n k (with_heap <[q := a']> k').
Proof.
  intros H Ha Hc Hq. replace n with (n + 0) by lia. eapply oc_trans; [exact H|]. split; [| |by destruct k'].
  - intros x b Hb. simpl. destruct (decide (x = q)) as [->|].
    + exists a'. rewrite lookup_insert_eq. assert (b = a) as -> by congruence. split; [done|].
      split; [case_decide; lia|]. intros Hn. by destruct Hq.
    + exists b. rewrite lookup_insert_ne by done. split_and!; try done. case_decide; lia.
  - intros x Hx. simpl. rewrite lookup_insert_ne; [done|]. congruence.
Qed.

(** A counted reference is made. *)
Lemma oc_own ch p n a k k' :
  only_counts ch p n k k' -> heap k' !! p = Some a -> 0 <= ref_count a -> ref_count a + 1 < 2 ^ 64 ->
  only_counts ch p (n + 1) k
    (with_heap <[p := mk_Asset (lock a) (u64 (ref_count a + 1)) (content a)]> k').
Proof.
  intros H Ha H0 H1. rewrite wrapu_small by lia. eapply oc_trans; [exact H|]. split; [| |by destruct k'].
  - intros x b Hb. simpl. destruct (decide (x = p)) as [->|].
    + eexists. rewrite lookup_insert_eq. assert (b = a) as -> by congruence. by split.
    + exists b. rewrite lookup_insert_ne by done. split_and!; try done. lia.
  - intros x Hx. simpl. rewrite lookup_insert_ne; [done|]. congruence.
Qed.

(** The count of [p] on the way. *)
Lemma oc_count ch p n k k' a :
  only_counts ch p n k k' -> heap k !! p = Some a ->
  exists a', heap k' !! p = Some a' /\ ref_count a' = ref_count a + n /\
    (p ∉ ch -> lock a' = lock a /\ content a' = content a).
Proof.
  intros H Ha. destruct (oc_objects _ _ _ _ _ H p a Ha) as (a' & ? & Hc & ?).
  rewrite decide_True in Hc by done. eauto.
Qed.

(** An object is there with its lock and content, whatever its count. *)
Definition holds (k : kernel) (q : Z) (b : bool) (d : asset_data) : Prop :=
  exists n, heap k !! q = Some (mk_Asset b n d).

Lemma holds_own k q b d p a :
  holds k q b d -> heap k !! p = Some a ->
  holds (with_heap <[p := mk_Asset (lock a) (u64 (ref_count a + 1)) (content a)]> k) q b d.
Proof.
  intros [n Hq] Ha. unfold holds. simpl. destruct (decide (q = p)) as [->|].
  - rewrite lookup_insert_eq. assert (a = mk_Asset b n d) as -> by congruence. by eexists.
  - rewrite lookup_insert_ne by done. by exists n.
Qed.

(** ** Locking two spaces *)

Lemma runs_lock_both from to a b k (Q : unit -> kernel -> Prop) :
  from <> to -> heap k !! from = Some a -> heap k !! to = Some b ->
  lock a = false -> lock b = false ->
  Q tt (with_heap (fun h => <[from := mk_Asset true (ref_count a) (content a)]>
         (<[to := mk_Asset true (ref_count b) (content b)]> h)) k) ->
  runs (lock_both from to) k Q.
Proof.
  intros Hne Ha Hb Hla Hlb HQ. unfold lock_both. destruct (from <? to).
  - rewrite (proj2 (Z.eqb_neq _ _)) by done. apply runs_bind. eapply runs_lock; [done..|].
    eapply runs_lock; [by heap_look|done|]. unfold with_heap in *. simpl in *.
    by rewrite insert_insert_ne by done.
  - rewrite (proj2 (Z.eqb_neq _ _)) by done. apply runs_bind. eapply runs_lock; [done..|].
    eapply runs_lock; [by heap_look|done|]. done.
Qed.

Lemma runs_unlock_both from to a b k (Q : unit -> kernel -> Prop) :
  from <> to -> heap k !! from = Some a -> heap k !! to = Some b ->
  lock a = true -> lock b = true ->
  Q tt (with_heap (fun h => <[from := mk_Asset false (ref_count a) (content a)]>
         (<[to := mk_Asset false (ref_count b) (content b)]> h)) k) ->
  runs (unlock_both from to) k Q.
Proof.
  intros Hne Ha Hb Hla Hlb HQ. unfold unlock_both. destruct (from <? to).
  - rewrite (proj2 (Z.eqb_neq _ _)) by done. apply runs_bind. eapply runs_unlock; [done..|].
    eapply runs_unlock; [by heap_look|done|]. done.
  - rewrite (proj2 (Z.eqb_neq _ _)) by done. apply runs_bind. eapply runs_unlock; [done..|].
    eapply runs_unlock; [by heap_look|done|]. unfold with_heap in *. simpl in *.
    by rewrite insert_insert_ne by done.
Qed.

(** ** Lookup *)

Lemma runs_by_handle this s T h k :
  open_space k this s T ->
  (forall r, T !! h = Some r -> live k (asset r)) ->
  runs (by_handle this h) k (fun res k' =>
    open_space k' this s T /\
    match T !! h with
    | Some r => res = Value r /\ only_counts [this] (asset r) 1 k k'
    | None => res = Error "asset not found" /\ only_counts [this] 0 0 k k'
    end).
Proof.
  intros [[n Hs] HT] Hlive. unfold by_handle. apply runs_bind. eapply runs_lock; [done..|].
  cbn [ref_count content]. set (k1 := with_heap _ k).
  assert (forall p, only_counts [this] p 0 k k1) as H1.
  { intros p. eapply oc_step; [apply oc_refl|done|done|]. left. by left. }
  apply runs_bind. eapply runs_assets_has; [by heap_look|done|].
  destruct (T !! h) as [r|] eqn:Hr.
  - rewrite bool_decide_eq_true_2 by done. apply runs_bind. eapply runs_get_space; [by heap_look|].
    apply runs_bind. eapply runs_lift; [rewrite (at_rep h _ T) by apply HT; by rewrite Hr|].
    destruct (Hlive r eq_refl) as (Hnn & a & Ha & Hp & Hlt).
    destruct (oc_count _ _ _ _ _ _ (H1 (asset r)) Ha) as (a1 & Ha1 & Hc1 & _).
    apply runs_bind. eapply runs_copy_ref; [done..|].
    set (k2 := with_heap _ k1).
    assert (only_counts [this] (asset r) (0 + 1) k k2) as H2 by (apply oc_own; [apply H1|done|lia|lia]).
    assert (holds k2 this true (AssetSpace s)) as [m Hm].
    { apply holds_own; [|done]. exists n. by heap_look. }
    apply runs_bind. eapply runs_unlock; [exact Hm|done|]. apply runs_ret. split.
    + split; [|done]. exists m. by heap_look.
    + split; [done|]. eapply oc_step; [exact H2|exact Hm|done|]. left. by left.
  - rewrite bool_decide_eq_false_2 by (by intros [? ?]). apply runs_bind.
    eapply runs_unlock; [by heap_look|done|]. apply runs_ret. split.
    + split; [|done]. exists n. by heap_look.
    + split; [done|]. eapply oc_step; [apply (H1 0)|by heap_look|done|]. left. by left.
Qed.

(** ** Transfer *)

Lemma runs_asset_move from to a sf Tf st Tt v k :
  from <> nullptr -> to <> nullptr -> from <> to -> asset a <> nullptr ->
  open_space k from sf Tf -> open_space k to st Tt ->
  0 <= alloc_uid st -> alloc_uid st + 1 < 2 ^ 64 ->
  Tf !! KObject.handle a = Some v -> live k (asset v) ->
  let h := alloc_uid st + 1 in
  runs (asset_move from to a) k (fun res k' => exists sf' st',
    res = Value (set_handle v h) /\
    open_space k' from sf' (delete (KObject.handle a) Tf) /\
    open_space k' to st' (<[h := set_handle v h]> Tt) /\ alloc_uid st' = h /\
    only_counts [from; to] (asset v) 1 k k').
Proof.
  intros Hf0 Ht0 Hne Ha0 [[nf Hf] HTf] [[nt Ht] HTt] Hu0 Hu1 Hv (Hnn & o & Ho & Ho0 & Ho1) h.
  unfold asset_move. rewrite !(proj2 (Z.eqb_neq _ _)) by done. cbn [orb].
  set (p := asset v) in *.
  apply runs_bind. eapply runs_lock_both; [done..|]. cbn [ref_count content].
  set (k1 := with_heap _ k).
  assert (only_counts [from; to] p 0 k k1) as C1.
  { unfold k1. change (with_heap ?f k) with
      (with_heap <[from := mk_Asset true nf (AssetSpace sf)]>
        (with_heap <[to := mk_Asset true nt (AssetSpace st)]> k)).
    eapply oc_step; [eapply oc_step; [apply oc_refl|exact Ht|done|]|by heap_look|done|];
      left; set_solver. }
  apply runs_bind. eapply runs_assets_has; [by heap_look|exact HTf|].
  rewrite bool_decide_eq_true_2 by (by rewrite Hv). apply runs_bind.
  eapply runs_assets_moveOut; [by heap_look|exact HTf|exact Hv|]. intros m Hm.
  set (k2 := with_heap _ k1).
  assert (only_counts [from; to] p 0 k k2) as C2.
  { eapply oc_step; [exact C1|by heap_look|done|left; set_solver]. }
  destruct (rep_next st Tt HTt) as [HTt' Hfresh].
  apply runs_bind. eapply runs_next_handle; [by heap_look|done|done|]. fold h.
  set (k3 := with_heap _ k2).
  assert (only_counts [from; to] p 0 k k3) as C3.
  { eapply oc_step; [exact C2|by heap_look|done|left; set_solver]. }
  cbn zeta. destruct (oc_count _ _ _ _ _ _ C3 Ho) as (o3 & Ho3 & Hc3 & _).
  apply runs_bind. eapply runs_copy_ref; [exact Hnn|exact Ho3|]. fold p.
  set (k4 := with_heap _ k3).
  assert (only_counts [from; to] p 1 k k4) as C4 
    by exact (oc_own [from; to] p 0 o3 k k3 C3 Ho3 ltac:(lia) ltac:(lia)).
  assert (holds k4 from true (AssetSpace (set_assets sf m))) as [mf Hmf].
  { apply holds_own; [|exact Ho3]. exists nf. by heap_look. }
  assert (holds k4 to true (AssetSpace (set_alloc_uid st h))) as [mt Hmt].
  { apply holds_own; [|exact Ho3]. exists nt. by heap_look. }
  apply runs_bind. eapply (runs_assets_insert to _ _ _ Tt h); [exact Hmt|exact HTt'|done|simpl; lia|done|].
  intros m2 Hm2. set (k5 := with_heap _ k4).
  assert (only_counts [from; to] p 1 k k5) as C5.
  { eapply oc_step; [exact C4|exact Hmt|done|left; set_solver]. }
  assert (heap k5 !! from = Some (mk_Asset true mf (AssetSpace (set_assets sf m)))) as Hf5.
  { unfold k5. cbn [heap with_heap]. by rewrite lookup_insert_ne. }
  apply runs_bind. eapply (runs_unlock_both from to); [done|exact Hf5|by heap_look|done|done|].
  cbn [ref_count content]. apply runs_ret.
  exists (set_assets sf m), (set_assets (set_alloc_uid st h) m2).
  split; [done|]. split; [|split; [|split; [done|]]].
  - split; [|done]. exists mf. by heap_look.
  - split; [|done]. exists mt. by heap_look.
  - change (with_heap ?f k5) with
      (with_heap <[from := mk_Asset false mf (AssetSpace (set_assets sf m))]>
        (with_heap <[to := mk_Asset false mt (AssetSpace (set_assets (set_alloc_uid st h) m2))]> k5)).
    eapply oc_step; [eapply oc_step; [exact C5|by heap_look|done|left; set_solver]
                    |cbn [heap with_heap]; rewrite lookup_insert_ne by done; exact Hf5
                    |done|left; set_solver].
Qed.

Lemma runs_asset_move_missing from to a sf Tf st Tt k :
  from <> nullptr -> to <> nullptr -> from <> to -> asset a <> nullptr ->
  open_space k from sf Tf -> open_space k to st Tt -> Tf !! KObject.handle a = None ->
  runs (asset_move from to a) k (fun res k' =>
    res = Error "asset not found in source space" /\ open_space k' from sf Tf /\
    open_space k' to st Tt /\ only_counts [from; to] 0 0 k k').
Proof.
  intros Hf0 Ht0 Hne Ha0 [[nf Hf] HTf] [[nt Ht] HTt] Hv.
  unfold asset_move. rewrite !(proj2 (Z.eqb_neq _ _)) by done. cbn [orb].
  apply runs_bind. eapply runs_lock_both; [done..|]. cbn [ref_count content].
  set (k1 := with_heap _ k).
  assert (only_counts [from; to] 0 0 k k1) as C1.
  { unfold k1. change (with_heap ?f k) with
      (with_heap <[from := mk_Asset true nf (AssetSpace sf)]>
        (with_heap <[to := mk_Asset true nt (AssetSpace st)]> k)).
    eapply oc_step; [eapply oc_step; [apply oc_refl|exact Ht|done|]|by heap_look|done|];
      left; set_solver. }
  apply runs_bind. eapply runs_assets_has; [by heap_look|exact HTf|].
  rewrite bool_decide_eq_false_2 by (rewrite Hv; by intros [? ?]).
  apply runs_bind. eapply (runs_unlock_both from to); [done|by heap_look|by heap_look|done|done|].
  apply runs_ret. split; [done|]. split; [|split].
  - split; [|done]. exists nf. by heap_look.
  - split; [|done]. exists nt. by heap_look.
  - change (with_heap ?f k1) with
      (with_heap <[from := mk_Asset false nf (AssetSpace sf)]>
        (with_heap <[to := mk_Asset false nt (AssetSpace st)]> k1)).
    eapply oc_step; [eapply oc_step; [exact C1|by heap_look|done|left; set_solver]|by heap_look|done|left; set_solver].
Qed.

Lemma runs_asset_copy to a st Tt k :
  to <> nullptr -> asset a <> nullptr -> asset a <> to ->
  open_space k to st Tt -> 0 <= alloc_uid st -> alloc_uid st + 1 < 2 ^ 64 ->
  live k (asset a) -> (exists o, heap k !! asset a = Some o /\ lock o = false) ->
  let h := alloc_uid st + 1 in
  let v := mk_AssetRef (asset a) h true true true in
  runs (asset_copy to a) k (fun res k' => exists st',
    res = Value v /\ open_space k' to st' (<[h := v]> Tt) /\ alloc_uid st' = h /\
    (forall o, heap k !! asset a = Some o -> exists o', heap k' !! asset a = Some o' /\
       lock o' = lock o /\ content o' = content o) /\
    only_counts [to; asset a] (asset a) 2 k k').
Proof.
  intros Ht0 Ha0 Hne [[nt Ht] HTt] Hu0 Hu1 (_ & o & Ho & Ho0 & Ho1) (o' & Ho' & Hlock) h v.
  assert (o' = o) as -> by congruence. clear Ho'.
  unfold asset_copy. rewrite !(proj2 (Z.eqb_neq _ _)) by done. set (p := asset a) in *.
  apply runs_bind. eapply runs_lock; [done..|]. set (k1 := with_heap _ k).
  assert (only_counts [to; p] p 0 k k1) as C1.
  { eapply oc_step; [apply oc_refl|exact Ho|done|left; set_solver]. }
  apply runs_bind. eapply runs_lock; [by heap_look|done|]. cbn [ref_count content].
  set (k2 := with_heap _ k1).
  assert (only_counts [to; p] p 0 k k2) as C2.
  { eapply oc_step; [exact C1|by heap_look|done|left; set_solver]. }
  destruct (rep_next st Tt HTt) as [HTt' Hfresh].
  apply runs_bind. eapply runs_next_handle; [by heap_look|done|done|]. fold h.
  set (k3 := with_heap _ k2).
  assert (only_counts [to; p] p 0 k k3) as C3.
  { eapply oc_step; [exact C2|by heap_look|done|left; set_solver]. }
  apply runs_bind. eapply (runs_make_ref p h (mk_Asset true (ref_count o) (content o))); [done|by heap_look|].
  set (k4 := with_heap _ k3).
  assert (only_counts [to; p] p 1 k k4) as C4.
  { refine (oc_own [to; p] p 0 (mk_Asset true (ref_count o) (content o)) k k3 C3 _ _ _);
      [by heap_look|simpl; lia..]. }
  fold v. cbn [lock ref_count content].
  apply runs_bind. eapply (runs_copy_ref v); [done|by heap_look|]. cbn [asset v lock ref_count content].
  set (k5 := with_heap _ k4).
  assert (only_counts [to; p] p 2 k k5) as C5.
  { refine (oc_own [to; p] p 1 (mk_Asset true (u64 (ref_count o + 1)) (content o)) k k4 C4 _ _ _);
      [by heap_look|simpl; rewrite wrapu_small by lia; lia..]. }
  apply runs_bind. eapply (runs_assets_insert to _ _ _ Tt h); [by heap_look|exact HTt'|done|simpl; lia|done|].
  intros m Hm. set (k6 := with_heap _ k5).
  assert (only_counts [to; p] p 2 k k6) as C6.
  { eapply oc_step; [exact C5|by heap_look|done|left; set_solver]. }
  apply runs_bind. eapply runs_unlock; [by heap_look|done|]. cbn [ref_count content].
  set (k7 := with_heap _ k6).
  assert (only_counts [to; p] p 2 k k7) as C7.
  { eapply oc_step; [exact C6|by heap_look|done|left; set_solver]. }
  apply runs_bind. eapply runs_unlock; [by heap_look|done|]. cbn [ref_count content].
  apply runs_ret. exists (set_assets (set_alloc_uid st h) m).
  split; [done|]. split; [split; [by eexists; heap_look|done]|]. split; [done|]. split.
  - intros o2 Ho2. assert (o2 = o) as -> by congruence. eexists. split; [by heap_look|]. by rewrite Hlock.
  - eapply oc_step; [exact C7|by heap_look|done|left; set_solver].
Qed.
End moves.

(** * Under the invariant of the kernel *)

Section invariant.
Context `{M : Machine}.

Lemma heap_refs_ge h p a q : h !! p = Some a -> zcount q (content_refs a) <= heap_refs h q.
Proof.
  intros Ha. unfold heap_refs. pose proof (hsum_delete (fun a => zcount q (content_refs a)) h p a Ha) as E.
  pose proof (heap_refs_nonneg (delete p h) q) as H. unfold heap_refs in H. cbn beta in *. lia.
Qed.

Lemma zcount_in q l : q ∈ l -> 1 <= zcount q l.
Proof.
  induction l as [|x l IH]; [by intros ?%not_elem_of_nil|]. simpl.
  pose proof (zcount_nonneg q l). intros [->|Hq]%elem_of_cons; [rewrite decide_True by done; lia|].
  specialize (IH Hq). case_decide; lia.
Qed.

(** An object in the table of a space. *)
Lemma table_live B held k this s T h r :
  kinv B held k -> 2 <= B -> open_space k this s T -> T !! h = Some r -> asset r <> nullptr ->
  live k (asset r).
Proof.
  intros Hk HB [[n Hs] HT] Hr Hnn. split; [done|].
  assert (1 <= zcount (asset r) (content_refs (mk_Asset false n (AssetSpace s)))) as Hc.
  { unfold content_refs. cbn [content]. rewrite (table_perm s T _ HT). apply zcount_in.
    apply list_elem_of_fmap. exists r. split; [done|]. apply list_elem_of_fmap.
    exists (h, r). split; [done|]. by apply elem_of_map_to_list. }
  pose proof (heap_refs_ge (heap k) this _ (asset r) Hs).
  destruct (kinv_refs _ _ _ Hk (asset r) Hnn) as (a & Ha & Hle).
  { unfold refs. pose proof (zcount_nonneg (asset r) (global_refs k)).
    pose proof (zcount_nonneg (asset r) held). lia. }
  exists a. split; [done|]. pose proof (kinv_obj _ _ _ Hk _ _ Ha). lia.
Qed.

Lemma open_nonnull B held k this s T : kinv B held k -> open_space k this s T -> this <> nullptr.
Proof. intros Hk [[n Hs] _] ->. by rewrite (kinv_null _ _ _ Hk) in Hs. Qed.

Lemma open_uid B held k this s T :
  kinv B held k -> open_space k this s T -> 0 <= alloc_uid s /\ alloc_uid s + B < 2 ^ 64.
Proof.
  intros Hk [[n Hs] _]. destruct (kinv_space B held k this s Hk) as (_ & ?); [by eexists|done].
Qed.
End invariant.

(** C9: [asset_move] takes the handle out of the table of the source space and gives
    the target space the next handle it has not used yet, for the same object and
    with the same rights; every other entry of both tables, every other object and
    every lock is as before, and the object has one counted reference more, the
    one returned. A handle the source space does not have is an error that
    changes no table. *)
Theorem asset_move_transfers `{M : Machine} B held from to a sf Tf st Tt k :
  kinv B held k -> 2 <= B -> open_space k from sf Tf -> open_space k to st Tt -> from <> to ->
  asset a <> nullptr -> (forall v, Tf !! handle a = Some v -> asset v <> nullptr) ->
  let h := alloc_uid st + 1 in
  exists res k' sf' st', asset_move from to a k = Ret (res, k') /\
    kinv (B - 2) (res_refs res ++ held) k' /\
    match Tf !! handle a with
    | Some v =>
        res = Value (set_handle v h) /\ Tt !! h = None /\
        open_space k' from sf' (delete (handle a) Tf) /\
        open_space k' to st' (<[h := set_handle v h]> Tt) /\ alloc_uid st' = h /\
        only_counts [from; to] (asset v) 1 k k'
    | None =>
        res = Error "asset not found in source space" /\ open_space k' from sf Tf /\ open_space k' to st Tt /\
        only_counts [from; to] 0 0 k k'
    end.
Proof.
  intros Hk HB Hf Ht Hne Ha Hnn h.
  pose proof (open_nonnull _ _ _ _ _ _ Hk Hf) as Hf0. pose proof (open_nonnull _ _ _ _ _ _ Hk Ht) as Ht0.
  destruct (open_uid _ _ _ _ _ _ Hk Ht) as [Hu0 Hu1].
  assert (wp (asset_move from to a) k (fun res k' => kinv (B - 2) (res_refs res ++ held) k')) as Hwp.
  { eapply wp_asset_move; [exact HB|exact Hk|]. auto. }
  destruct (Tf !! handle a) as [v|] eqn:Hv.
  - pose proof (runs_asset_move from to a sf Tf st Tt v k Hf0 Ht0 Hne Ha Hf Ht Hu0 ltac:(lia) Hv
      (table_live _ _ _ _ _ _ _ _ Hk HB Hf Hv (Hnn v eq_refl))) as Hr.
    destruct (proj1 (runs_iff _ _ _) (runs_wp _ _ _ _ _ Hr Hwp (fun _ _ P Q => conj P Q)))
      as (res & k' & E & (sf' & st' & H) & Hk').
    exists res, k', sf', st'. split; [done|]. split; [done|]. split; [apply H|].
    split; [by apply (rep_next st Tt), Ht|]. apply H.
  - pose proof (runs_asset_move_missing from to a sf Tf st Tt k Hf0 Ht0 Hne Ha Hf Ht Hv) as Hr.
    destruct (proj1 (runs_iff _ _ _) (runs_wp _ _ _ _ _ Hr Hwp (fun _ _ P Q => conj P Q)))
      as (res & k' & E & H & Hk').
    by exists res, k', sf, st.
Qed.

(** [asset_copy] gives the target space the next handle for the object: the
    object gets two counted references more, the one in the table and the one
    returned, and nothing else changes. The new handle has every right, whatever
    rights the copied one had. *)
Theorem asset_copy_gives_every_right `{M : Machine} B held to a st Tt k :
  kinv B held k -> 3 <= B -> open_space k to st Tt -> asset a ∈ held -> asset a <> nullptr ->
  asset a <> to -> (exists o, heap k !! asset a = Some o /\ lock o = false) ->
  let h := alloc_uid st + 1 in
  let v := mk_AssetRef (asset a) h true true true in
  exists k' st', asset_copy to a k = Ret (Value v, k') /\ kinv (B - 3) (asset a :: held) k' /\
    Tt !! h = None /\ open_space k' to st' (<[h := v]> Tt) /\ alloc_uid st' = h /\
    only_counts [to; asset a] (asset a) 2 k k'.
Proof.
  intros Hk HB Ht Hin Hnn Hne Ho h v.
  pose proof (open_nonnull _ _ _ _ _ _ Hk Ht) as Ht0.
  destruct (open_uid _ _ _ _ _ _ Hk Ht) as [Hu0 Hu1].
  assert (live k (asset a)) as Hl.
  { split; [done|]. destruct Ho as (o & Ho & _). exists o. split; [done|].
    pose proof (kinv_obj _ _ _ Hk _ _ Ho). lia. }
  pose proof (runs_asset_copy to a st Tt k Ht0 Hnn Hne Ht Hu0 ltac:(lia) Hl Ho) as Hr.
  assert (wp (asset_copy to a) k (fun res k' => kinv (B - 3) (res_refs res ++ held) k')) as Hwp.
  { eapply wp_asset_copy; [exact HB|exact Hk|]. auto. }
  destruct (proj1 (runs_iff _ _ _) (runs_wp _ _ _ _ _ Hr Hwp (fun _ _ P Q => conj P Q)))
    as (res & k' & E & (st' & -> & H & Hu & _ & C) & Hk').
  exists k', st'. split; [done|]. split; [done|]. split; [by apply (rep_next st Tt), Ht|done].
Qed.

(** [by_handle] finds exactly the entries of the table, and hands out one counted
    reference with the handle and the rights of the entry. *)
Theorem by_handle_finds_entry `{M : Machine} B held this s T h k :
  kinv B held k -> 2 <= B -> open_space k this s T ->
  (forall r, T !! h = Some r -> asset r <> nullptr) ->
  exists res k', by_handle this h k = Ret (res, k') /\ kinv (B - 1) (res_refs res ++ held) k' /\
    open_space k' this s T /\
    match T !! h with
    | Some r => res = Value r /\ only_counts [this] (asset r) 1 k k'
    | None => res = Error "asset not found" /\ only_counts [this] 0 0 k k'
    end.
Proof.
  intros Hk HB Hs Hnn.
  assert (runs (by_handle this h) k (fun res k' =>
    (open_space k' this s T /\
    match T !! h with
    | Some r => res = Value r /\ only_counts [this] (asset r) 1 k k'
    | None => res = Error "asset not found" /\ only_counts [this] 0 0 k k'
    end))) as Hr.
  { apply runs_by_handle; [done|]. intros r Hr. eapply table_live; [done..|]. by apply Hnn. }
  assert (wp (by_handle this h) k (fun res k' => kinv (B - 1) (res_refs res ++ held) k')) as Hwp.
  { eapply wp_by_handle; [|exact Hk|auto]. lia. }
  destruct (proj1 (runs_iff _ _ _) (runs_wp _ _ _ _ _ Hr Hwp (fun _ _ P Q => conj P Q)))
    as (res & k' & E & [H1 H2] & Hk').
  by exists res, k'.
Qed.

(** * Two spaces *)

(** The root space at 1, a space in it at 2 and two pages of memory at 3, with
    the handles 17 and 18 of the root space. *)
Definition two_spaces_ops : list op :=
  [OpCreateRoot; OpCreateSpace 1; OpCreateMemory 1 8192 0 false].
Definition two_spaces : @kernel (sample_machine false) :=
  match run two_spaces_ops [] boot_kernel with Ret (_, k) => k | _ => boot_kernel end.

Lemma boot_kernel_booted : booted boot_kernel.
Proof.
  split; try reflexivity; [exact Pmm.small_pmm_wf|].
  apply map_Forall_insert_2; [|apply map_Forall_empty]. repeat split; reflexivity || discriminate.
Qed.

Lemma run_kinv `{M : Machine} k0 l held k :
  booted k0 -> Forall (fun o => consumes o = [] /\ forall k, enabled o k) l ->
  Z.of_nat (length l) < 2 ^ 20 -> run l [] k0 = Ret (held, k) -> kinv 1000 held k.
Proof.
  intros Hb Hl Hn E. apply run_steps in E; [|exact Hl].
  apply (kinv_budget (budget - op_cost * Z.of_nat (length l))); [unfold budget, op_cost; lia|].
  eapply kinv_steps; [unfold budget, op_cost; lia|reflexivity|by apply kinv_booted|exact E].
Qed.

Lemma two_spaces_kinv : kinv 1000 [3; 2; 1] two_spaces.
Proof.
  unfold two_spaces. apply (run_kinv boot_kernel two_spaces_ops _ _ boot_kernel_booted); [repeat (constructor; [done|]); constructor|done|].
  assert ((match run two_spaces_ops [] boot_kernel with Ret (h, _) => Some h | _ => None end) = Some [3; 2; 1])
    as H by (vm_compute; reflexivity).
  destruct (run two_spaces_ops [] boot_kernel) as [[h k]| |]; [|discriminate H..]. by injection H as ->.
Qed.

(** The table of a space, entry by entry. *)
Lemma open_space_found `{M : Machine} B held k p n s :
  kinv B held k -> heap k !! p = Some (mk_Asset false n (AssetSpace s)) ->
  exists T, open_space k p s T /\ forall h, UMap.find h (assets s) = Ret (T !! h).
Proof.
  intros Hk Hp. destruct (kinv_space B held k p s Hk) as ((T & HT) & _); [by eexists|].
  exists T. split; [split; [by exists n|done]|]. intros h. apply find_rep, HT.
Qed.

Definition space_at (k : @kernel (sample_machine false)) (p : Z) : Space :=
  match heap k !! p with Some (mk_Asset _ _ (AssetSpace s)) => s | _ => Space_init end.

Definition memory_ref : AssetRef := mk_AssetRef 3 18 true true true.

Lemma two_spaces_root : exists T, open_space two_spaces 1 (space_at two_spaces 1) T /\
  T !! 18 = Some memory_ref /\ T !! 19 = None.
Proof.
  destruct (open_space_found 1000 [3; 2; 1] two_spaces 1 99999 (space_at two_spaces 1) two_spaces_kinv)
    as (T & HT & F); [vm_compute; reflexivity|].
  exists T. split; [exact HT|].
  assert (UMap.find 18 (assets (space_at two_spaces 1)) = Ret (Some memory_ref)) as E1 by (vm_compute; reflexivity).
  assert (UMap.find 19 (assets (space_at two_spaces 1)) = Ret None) as E2 by (vm_compute; reflexivity).
  rewrite F in E1, E2. split; congruence.
Qed.

Lemma two_spaces_inner : exists T, open_space two_spaces 2 (space_at two_spaces 2) T.
Proof.
  destruct (open_space_found 1000 [3; 2; 1] two_spaces 2 3 (space_at two_spaces 2) two_spaces_kinv)
    as (T & HT & F); [vm_compute; reflexivity|]. by exists T.
Qed.

Lemma asset_move_transfers_witness :
  exists Tf Tt res k' sf' st',
    asset_move 1 2 memory_ref two_spaces = Ret (res, k') /\
    kinv 998 (res_refs res ++ [3; 2; 1]) k' /\ res = Value (set_handle memory_ref 10017) /\
    open_space k' 1 sf' (delete 18 Tf) /\
    open_space k' 2 st' (<[10017 := set_handle memory_ref 10017]> Tt) /\
    only_counts [1; 2] 3 1 two_spaces k'.
Proof.
  destruct two_spaces_root as (Tf & Hf & H18 & _). destruct two_spaces_inner as (Tt & Ht).
  destruct (asset_move_transfers 1000 [3; 2; 1] 1 2 memory_ref (space_at two_spaces 1) Tf
              (space_at two_spaces 2) Tt two_spaces) as (res & k' & sf' & st' & E & Hk & H).
  - exact two_spaces_kinv.
  - discriminate.
  - exact Hf.
  - exact Ht.
  - discriminate.
  - discriminate.
  - cbn [handle memory_ref]. rewrite H18. intros v [= <-]. discriminate.
  - cbn [handle memory_ref] in H. rewrite H18 in H. destruct H as (-> & _ & H1 & H2 & _ & H3).
    exists Tf, Tt, (Value (set_handle memory_ref 10017)), k', sf', st'.
    assert (alloc_uid (space_at two_spaces 2) + 1 = 10017) as Eu by (vm_compute; reflexivity).
    rewrite Eu in *. exact (conj E (conj Hk (conj eq_refl (conj H1 (conj H2 H3))))).
Defined.

Lemma asset_copy_gives_every_right_witness :
  exists Tt k' st', let v := mk_AssetRef 3 10017 true true true in
    asset_copy 2 (mk_AssetRef 3 18 false true false) two_spaces = Ret (Value v, k') /\
    kinv 997 [3; 3; 2; 1] k' /\ open_space k' 2 st' (<[10017 := v]> Tt).
Proof.
  destruct two_spaces_inner as (Tt & Ht). exists Tt.
  destruct (asset_copy_gives_every_right 1000 [3; 2; 1] 2 (mk_AssetRef 3 18 false true false)
              (space_at two_spaces 2) Tt two_spaces) as (k' & st' & E & Hk & _ & H & _).
  - exact two_spaces_kinv.
  - discriminate.
  - exact Ht.
  - left.
  - discriminate.
  - discriminate.
  - eexists. split; [vm_compute; reflexivity|reflexivity].
  - exists k', st'. split; [exact E|]. split; [exact Hk|exact H].
Defined.

Lemma by_handle_finds_entry_witness :
  (exists k', by_handle 1 18 two_spaces = Ret (Value memory_ref, k') /\ kinv 999 [3; 3; 2; 1] k') /\
  exists k', by_handle 1 19 two_spaces = Ret (Error "asset not found", k').
Proof.
  destruct two_spaces_root as (T & HT & H18 & H19). split.
  - destruct (by_handle_finds_entry 1000 [3; 2; 1] 1 (space_at two_spaces 1) T 18 two_spaces)
      as (res & k' & E & Hk & _ & H).
    + exact two_spaces_kinv.
    + discriminate.
    + exact HT.
    + rewrite H18. intros v [= <-]. discriminate.
    + rewrite H18 in H. destruct H as [-> _]. exists k'. split; [exact E|exact Hk].
  - destruct (by_handle_finds_entry 1000 [3; 2; 1] 1 (space_at two_spaces 1) T 19 two_spaces)
      as (res & k' & E & Hk & _ & H).
    + exact two_spaces_kinv.
    + discriminate.
    + exact HT.
    + rewrite H19. discriminate.
    + rewrite H19 in H. destruct H as [-> _]. exists k'. exact E.
Defined.
