(* ===== verification/MemoryObjects.v ===== *)
(** The life of a memory object: created with pages of its own and released
    when the last handle to it goes. *)

From stdpp Require Import gmap.
From S2P Require Import Prelude UMap.
From S2P Require Pmm Range Ring.
From S2P Require Import IpcTypes KObject IpcRegistry Space Sample KObjectSpec SpaceSpec.
From S2P Require Import KernelSafety KernelRuns SpaceMoves.

Section runs.
Context `{M : Machine}.

Lemma runs_new_asset d k (Q : Z -> kernel -> Prop) :
  (forall p, p <> nullptr -> heap k !! p = None -> Q p (with_heap <[p := Asset_init d]> k)) ->
  runs (new_asset d) k Q.
Proof.
  intros HQ. apply runs_bind, runs_gets. destruct (new_addr_fresh (dom (heap k))) as [Hf Hn].
  apply runs_bind, runs_set_asset, runs_ret, HQ; [done|]. by apply not_elem_of_dom.
Qed.

(** [add_asset] with an object that is not locked. *)
Lemma runs_add_asset this res n s T c d k (Q : result AssetRef -> kernel -> Prop) :
  heap k !! this = Some (mk_Asset false n (AssetSpace s)) -> space_rep s T ->
  heap k !! res = Some (mk_Asset false c d) -> res <> nullptr -> res <> this ->
  0 <= c -> c + 2 < 2 ^ 64 -> 0 <= alloc_uid s -> alloc_uid s + 1 < 2 ^ 64 ->
  let h := alloc_uid s + 1 in
  let r := mk_AssetRef res h true true true in
  (forall s' k', space_rep s' (<[h := r]> T) -> alloc_uid s' = h -> vmm_space s' = vmm_space s ->
     heap k' = <[this := mk_Asset false n (AssetSpace s')]>
                 (<[res := mk_Asset true (c + 2) d]> (heap k)) ->
     k' = with_heap (fun _ => heap k') k -> Q (Value r) k') ->
  runs (add_asset this res) k Q.
Proof.
  intros Hs HT Hr Hnn Hne Hc0 Hc1 Hu0 Hu1 h r HQ. unfold add_asset.
  apply runs_bind. eapply runs_lock; [done..|]. cbn [ref_count content]. set (k1 := with_heap _ k).
  apply runs_bind. eapply runs_lock; [by heap_look|done|]. cbn [ref_count content]. set (k2 := with_heap _ k1).
  destruct (rep_next s T HT) as [HT' Hfresh].
  apply runs_bind. eapply runs_next_handle; [by heap_look|done|done|]. fold h. set (k3 := with_heap _ k2).
  apply runs_bind. eapply (runs_make_ref res h (mk_Asset true c d)); [done|by heap_look|].
  cbn [lock ref_count content]. set (k4 := with_heap _ k3). fold r.
  apply runs_bind. eapply (runs_copy_ref r (mk_Asset true (u64 (c + 1)) d)); [done|by heap_look|].
  cbn [lock ref_count content asset r]. set (k5 := with_heap _ k4).
  apply runs_bind. eapply (runs_assets_insert this _ _ _ T h); [by heap_look|exact HT'|done|simpl; lia|done|].
  intros m Hm. set (k6 := with_heap _ k5).
  apply runs_bind. eapply runs_unlock; [by heap_look|done|]. cbn [ref_count content].
  apply runs_ret. eapply HQ; [exact Hm|done|done| |done]. cbn [heap with_heap].
  unfold k6, k5, k4, k3, k2, k1. cbn [heap with_heap].
  rewrite (wrapu_small 64 (c + 1)), wrapu_small by lia. replace (c + 1 + 1) with (c + 2) by lia.
  apply map_eq. intros q. rewrite !lookup_insert. repeat case_decide; congruence.
Qed.

(** A reference that is not the last is dropped. *)
Lemma runs_drop_one r a k (Q : unit -> kernel -> Prop) :
  asset r <> nullptr -> heap k !! asset r = Some a -> 2 <= ref_count a < 2 ^ 64 ->
  Q tt (with_heap <[asset r := mk_Asset (lock a) (ref_count a - 1) (content a)]> k) ->
  runs (drop r) k Q.
Proof.
  intros Hnn Ha Hc HQ. unfold drop, deref. apply runs_bind, runs_gets. cbn [deref_n].
  rewrite (proj2 (Z.eqb_neq _ _) Hnn). apply runs_bind. eapply runs_get_asset; [exact Ha|].
  rewrite wrapu_small by lia. apply runs_bind, runs_set_asset.
  rewrite !(proj2 (Z.eqb_neq _ _)) by lia. by apply runs_ret.
Qed.

(** The last reference to a memory object with pages of its own is dropped. *)
Lemma runs_drop_memory r size addr p' x k (Q : unit -> kernel -> Prop) :
  asset r <> nullptr -> heap k !! asset r = Some (mk_Asset false 1 (AssetMemory size addr true)) ->
  Pmm.release (pmm k) addr (size / 4096) = Ret (x, p') ->
  (forall k', heap k' = delete (asset r) (heap k) -> pmm k' = p' ->
     k' = with_pmm p' (with_heap (fun _ => heap k') k) -> Q tt k') ->
  runs (drop r) k Q.
Proof.
  intros Hnn Ha Hp HQ. unfold drop, deref. apply runs_bind, runs_gets. cbn [deref_n].
  rewrite (proj2 (Z.eqb_neq _ _) Hnn). apply runs_bind. eapply runs_get_asset; [exact Ha|].
  cbn [lock ref_count content]. apply runs_bind, runs_set_asset. change (1 =? 0) with false.
  change (1 =? 1) with true. cbn iota. set (k1 := with_heap _ k).
  apply runs_bind. eapply runs_lock; [by heap_look|done|]. cbn [ref_count content].
  set (k2 := with_heap _ k1). apply runs_bind. unfold release_pages. apply runs_bind, runs_gets.
  apply runs_bind. eapply runs_lift; [exact Hp|]. apply runs_modify.
  set (k3 := with_pmm p' k2). apply runs_bind.
  eapply runs_set_content; [unfold k3; cbn [heap with_pmm]; by heap_look|].
  apply runs_bind. cbn [fields for_each]. apply runs_ret, runs_modify. apply HQ; [|done|done].
  cbn [heap with_heap]. unfold k3, k2, k1. cbn [heap with_heap with_pmm].
  by rewrite !delete_insert_eq.
Qed.

Lemma runs_asset_remove this n s T h r k (Q : AssetRef -> kernel -> Prop) :
  heap k !! this = Some (mk_Asset false n (AssetSpace s)) -> space_rep s T -> T !! h = Some r ->
  (forall s', space_rep s' (delete h T) -> alloc_uid s' = alloc_uid s ->
     Q r (with_heap <[this := mk_Asset false n (AssetSpace s')]> k)) ->
  runs (_asset_remove this h) k Q.
Proof.
  intros Hs HT Hr HQ. unfold _asset_remove. apply runs_bind. eapply runs_lock; [done..|].
  cbn [ref_count content]. set (k1 := with_heap _ k). apply runs_bind.
  eapply runs_assets_has; [by heap_look|exact HT|]. rewrite bool_decide_eq_true_2 by (by rewrite Hr).
  apply runs_bind. eapply runs_assets_moveOut; [by heap_look|exact HT|exact Hr|]. intros m Hm.
  apply runs_bind. eapply runs_unlock; [by heap_look|done|]. cbn [ref_count content]. apply runs_ret.
  specialize (HQ (set_assets s m) Hm eq_refl). unfold k1, with_heap in *. simpl in *.
  by rewrite !insert_insert_eq.
Qed.

Lemma runs_release p a k (Q : unit -> kernel -> Prop) :
  p <> nullptr -> heap k !! p = Some a -> lock a = false -> Q tt k -> runs (release p) k Q.
Proof.
  intros Hnn Ha Hl HQ. unfold release. rewrite (proj2 (Z.eqb_neq _ _) Hnn). apply runs_bind.
  eapply runs_lock; [done..|]. eapply runs_unlock; [by heap_look|done|]. cbn [ref_count content].
  match goal with |- Q tt ?x => assert (x = k) as -> end; [|done].
  destruct k, a. unfold with_heap. simpl in *. f_equal. rewrite insert_insert_eq. subst.
  by apply insert_id.
Qed.
End runs.

Section life.
Context `{M : Machine}.

(** A memory object of [size] bytes has been made at [asset ptr]. *)
Record memory_made (this : Z) (s : Space) (size : Z) (T : gmap Z AssetRef) (ptr : AssetRef) (a : Z) (p' : Pmm.Pmm)
    (k k' : kernel) : Prop := mk_memory_made {
  mm_nonnull : asset ptr <> nullptr;
  mm_other : asset ptr <> this;
  mm_fresh : heap k !! asset ptr = None;
  mm_handle : T !! handle ptr = None;
  mm_this : exists n s', heap k' !! this = Some (mk_Asset false n (AssetSpace s')) /\
    space_rep s' (<[handle ptr := ptr]> T) /\ alloc_uid s' = alloc_uid s + 1 /\ vmm_space s' = vmm_space s;
  mm_object : heap k' !! asset ptr = Some (mk_Asset false 2 (AssetMemory size a true));
  mm_rest : forall q, q <> this -> q <> asset ptr -> heap k' !! q = heap k !! q;
  mm_pmm : pmm k' = p';
  mm_tables : page_tables k' = page_tables k
}.

Lemma from_bytes_ceil_eq size : 0 < size < 2 ^ 63 -> from_bytes_ceil size = (size + 4095) / 4096.
Proof.
  intros Hs. unfold from_bytes_ceil. rewrite (wrapu_small 64 (size + 4096)) by lia.
  rewrite wrapu_small by lia. f_equal. lia.
Qed.

Lemma runs_create_memory this s T size lower a p' k :
  open_space k this s T -> 0 <= alloc_uid s -> alloc_uid s + 1 < 2 ^ 64 -> 0 < size ->
  Pmm.allocate (pmm k) (from_bytes_ceil size) lower = Ret (Value a, p') ->
  runs (create_memory this size 0 lower) k (fun res k' => exists ptr,
    res = Value ptr /\ memory_made this s size T ptr a p' k k').
Proof.
  intros [[n Hs] HT] Hu0 Hu1 Hsz Hp. unfold create_memory.
  rewrite (proj2 (Z.eqb_neq size 0)) by lia. cbn [negb Z.eqb andb]. unfold ktry at 1.
  apply runs_bind. unfold allocate_asset. cbn [fields for_each]. apply runs_bind, runs_ret, runs_bind.
  apply runs_new_asset. intros q Hnn Hfresh. set (k1 := with_heap _ k).
  assert (q <> this) as Hne by (intros ->; congruence).
  eapply (runs_add_asset this q n s T 0 (AssetMemory size 0 true)); try done; [by heap_look|by heap_look|].
  intros s' k2 HT2 Hu2 Hv2 Hh2 Hk2. cbn zeta. set (ptr := mk_AssetRef q _ true true true).
  assert (pmm k2 = pmm k) as Hpm by (rewrite Hk2; done).
  apply runs_bind, runs_gets, runs_bind. rewrite Hpm. eapply runs_lift; [exact Hp|].
  apply runs_bind, runs_modify. set (k3 := with_pmm p' k2).
  assert (heap k3 !! q = Some (mk_Asset true 2 (AssetMemory size 0 true))) as Hq3.
  { unfold k3. cbn [heap with_pmm]. rewrite Hh2. heap_look. }
  apply runs_bind. eapply runs_set_content; [exact Hq3|]. cbn [lock ref_count]. set (k4 := with_heap _ k3).
  apply runs_bind. eapply runs_unlock; [by heap_look|done|]. cbn [ref_count content].
  apply runs_ret. exists ptr. split; [done|].
  refine (mk_memory_made this s size T ptr a p' k _ Hnn Hne Hfresh (proj2 (rep_next s T HT)) _ _ _ _ _).
  - exists n, s'. split_and!; [|exact HT2|exact Hu2|exact Hv2]. unfold k4, k3. change (asset ptr) with q. cbn [heap with_heap with_pmm].
    rewrite Hh2. heap_look.
  - unfold k4. change (asset ptr) with q. heap_look.
  - intros x Hx1 Hx2. change (asset ptr) with q in *. unfold k4, k3. change (asset ptr) with q.
    cbn [heap with_heap with_pmm]. rewrite Hh2. unfold k1. cbn [heap with_heap].
    by rewrite !lookup_insert_ne by congruence.
  - reflexivity.
  - unfold k4, k3. cbn [page_tables with_heap with_pmm]. by rewrite Hk2.
Qed.

(** Its two references go. *)
Lemma runs_forget_memory this s size T ptr a p' p'' x k k1 :
  memory_made this s size T ptr a p' k k1 ->
  Pmm.release p' a (size / 4096) = Ret (x, p'') ->
  runs (drop ptr;; asset_release_by_handle this (handle ptr)) k1 (fun _ k' =>
    (exists s', open_space k' this s' T) /\ heap k' !! asset ptr = None /\
    (forall q, q <> this -> heap k' !! q = heap k !! q) /\ pmm k' = p'').
Proof.
  intros [Hnn Hne Hfresh Hfh (n & s' & Hs' & HT' & _) Hobj Hrest Hpm _] Hp.
  apply runs_bind. eapply runs_drop_one; [done|exact Hobj|done|]. cbn [lock ref_count content].
  set (k2 := with_heap _ k1). unfold asset_release_by_handle. apply runs_bind.
  eapply (runs_asset_remove this n s' _ (handle ptr) ptr); [by heap_look|exact HT'|apply lookup_insert_eq|].
  intros s2 HT2 _. set (k3 := with_heap _ k2). apply runs_bind.
  assert (heap k3 !! asset ptr = Some (mk_Asset false 1 (AssetMemory size a true))) as H3 by heap_look.
  eapply runs_release; [done|exact H3|done|].
  eapply runs_drop_memory; [done|exact H3|rewrite <- Hp; unfold k3, k2; cbn [pmm with_heap]; by rewrite Hpm|].
  intros k' Hh Hpm' _. rewrite delete_insert_id in HT2 by done.
  split; [|split; [|split; [|done]]].
  - exists s2. split; [|done]. exists n. rewrite Hh, lookup_delete_ne by done. by heap_look.
  - rewrite Hh. apply lookup_delete_eq.
  - intros q Hq. rewrite Hh. destruct (decide (q = asset ptr)) as [->|Hq'].
    + by rewrite lookup_delete_eq.
    + rewrite lookup_delete_ne by congruence. unfold k3, k2. cbn [heap with_heap].
      rewrite !lookup_insert_ne by congruence. by apply Hrest.
Qed.
End life.

(** C4: A memory object lives as long as it has handles: [create_memory] takes the
    pages for its size, rounded up, from the [Pmm]; when the reference it returned
    and the handle are both released the object is gone, every other object is
    as it was and the pages are free again, except that the last page of a size
    that is not a multiple of 4096 is never given back. *)
Theorem memory_object_life `{M : Machine} B held this s T size lower a p' k :
  kinv B held k -> 2 <= B -> open_space k this s T -> 4096 <= size < 2 ^ 63 ->
  Pmm.allocate (pmm k) (from_bytes_ceil size) lower = Ret (Value a, p') ->
  exists ptr k1 k2, create_memory this size 0 lower k = Ret (Value ptr, k1) /\
    heap k1 !! asset ptr = Some (mk_Asset false 2 (AssetMemory size a true)) /\
    (drop ptr;; asset_release_by_handle this (handle ptr)) k1 = Ret (tt, k2) /\
    heap k2 !! asset ptr = None /\ (forall q, q <> this -> heap k2 !! q = heap k !! q) /\
    (exists s', open_space k2 this s' T) /\
    forall x, Pmm.pmm_page (pmm k2) x =
      if Pmm.in_run (a + size / 4096 * 4096) ((size + 4095) / 4096 - size / 4096) x
      then Some true else Pmm.pmm_page (pmm k) x.
Proof.
  intros Hk HB Hs Hsz Hp. destruct (open_uid _ _ _ _ _ _ Hk Hs) as [Hu0 Hu1].
  destruct (proj1 (runs_iff _ _ _) (runs_create_memory this s T size lower a p' k Hs Hu0 ltac:(lia) ltac:(lia) Hp))
    as (res & k1 & E1 & ptr & -> & Hm).
  rewrite from_bytes_ceil_eq in Hp by lia.
  assert (1 <= size / 4096 <= (size + 4095) / 4096) as Hmn.
  { split; [apply Z.div_le_lower_bound; lia|apply Z.div_le_mono; lia]. }
  destruct (Pmm.release_part_of_allocated (pmm k) p' ((size + 4095) / 4096) (size / 4096) a lower (kinv_pmm _ _ _ Hk)
              ltac:(lia) Hp) as (p'' & Hr & _ & Hpages).
  destruct (proj1 (runs_iff _ _ _) (runs_forget_memory this s size T ptr a p' p'' _ k k1 Hm Hr))
    as ([] & k2 & E2 & H1 & H2 & H3 & H4).
  exists ptr, k1, k2. split; [done|]. split; [apply Hm|]. split; [done|]. split; [done|].
  split; [done|]. split; [done|]. intros x. rewrite H4. destruct (Hpages x) as [Hfree ->].
  destruct (Pmm.in_run a _ x) eqn:E.
  - apply Pmm.in_run_iff in E as E'. destruct (Pmm.in_run a (size / 4096) x) eqn:Em; simpl.
    + apply Pmm.in_run_iff in Em. assert (Pmm.in_run (a + size / 4096 * 4096) ((size + 4095) / 4096 - size / 4096) x = false) as ->.
      { apply not_true_iff_false. rewrite Pmm.in_run_iff. lia. }
      symmetry. by apply Hfree.
    + assert (Pmm.in_run (a + size / 4096 * 4096) ((size + 4095) / 4096 - size / 4096) x = true) as ->; [|done].
      apply Pmm.in_run_iff. apply not_true_iff_false in Em. rewrite Pmm.in_run_iff in Em. lia.
  - assert (Pmm.in_run (a + size / 4096 * 4096) ((size + 4095) / 4096 - size / 4096) x = false) as ->; [|done].
    apply not_true_iff_false in E. apply not_true_iff_false. rewrite Pmm.in_run_iff in *. lia.
Qed.

(** Two pages are taken for 4097 bytes, and one of them is lost. *)
Lemma memory_object_life_witness :
  exists ptr k1 k2 a, create_memory 2 4097 0 false two_spaces = Ret (Value ptr, k1) /\
    (drop ptr;; asset_release_by_handle 2 (handle ptr)) k1 = Ret (tt, k2) /\
    Pmm.pmm_page (pmm two_spaces) (a + 4096) = Some false /\
    Pmm.pmm_page (pmm k2) (a + 4096) = Some true.
Proof.
  destruct two_spaces_inner as (T & HT).
  destruct (Pmm.allocate (pmm two_spaces) (from_bytes_ceil 4097) false) as [[[a|m] p']| |] eqn:E;
    [|vm_compute in E; discriminate..].
  assert (a = 45056) as ->.
  { pose proof E as E'. vm_compute in E'. by injection E' as <- _. }
  destruct (memory_object_life 1000 [3; 2; 1] 2 (space_at two_spaces 2) T 4097 false 45056 p' two_spaces)
    as (ptr & k1 & k2 & H1 & _ & H2 & _ & _ & _ & H3).
  - exact two_spaces_kinv.
  - discriminate.
  - exact HT.
  - split; [discriminate|reflexivity].
  - exact E.
  - exists ptr, k1, k2, 45056. split; [exact H1|]. split; [exact H2|]. split; [vm_compute; reflexivity|].
    rewrite H3. reflexivity.
Defined.
