(* ===== verification/SyscallsSpec.v ===== *)
(** The system calls keep the invariant of reference counting, whatever the
    caller gives them; a call that waits holds the references it goes on
    with. *)

From stdpp Require Import gmap relations.
From S2P Require Import Prelude Range UMap.
From S2P Require Pmm Ring Paging Scheduler.
From S2P Require Import IpcTypes KObject IpcRegistry Space Ipc Signal SyscallTypes Syscalls.
From S2P Require Import Sample KObjectSpec SpaceSpec SpaceCreateSpec IpcInv KernelSafety.

Lemma task_run_ends i s : Scheduler.task_run i s <> NoFuel.
Proof.
  unfold Scheduler.task_run. destruct (Scheduler.by_id s i) as [[t|e]| |] eqn:E; cbn [mbind ctl_bind]; try done.
  2:{ unfold Scheduler.by_id in E. by destruct (List.find _ _). }
  unfold Scheduler.upd_sched, Scheduler.add_entity_to_queue, Scheduler.set_queue,
    Scheduler.get_queue, Scheduler.get_sched.
  repeat first [progress cbn [mbind ctl_bind Prelude.deref]
               | match goal with |- context [Prelude.deref ?o] => destruct o end
               | match goal with |- context [if ?b then _ else _] => destruct b end]; done.
Qed.

Lemma wp_task_run {M : Machine} i s k (Q : result unit * Scheduler.scheduler -> kernel -> Prop) :
  (forall r s', Q (r, s') k) -> wp (lift (Scheduler.task_run i s)) k Q.
Proof.
  intros HQ. apply wp_lift. pose proof (task_run_ends i s). destruct (Scheduler.task_run i s) as [[]| |];
    simpl; auto.
Qed.

(** The calls of a handler, by the lemma of the callee. *)
Ltac kcall lem :=
  eapply lem; [|eassumption|]; [unfold create_cost, ipc_cost in *; lia|];
  unfold create_cost, ipc_cost.

Ltac kres lem := kcall lem; intros [?|?] ? ?; cbn [res_refs app] in *.
Ltac kunit lem := kcall lem; intros.

Ltac sys_step :=
  cbn beta iota;
  lazymatch goal with
  | |- wp (stry _ _ _) _ _ => apply wp_bind
  | |- wp (done _ _) _ _ => apply wp_ret
  | |- wp (fail _ _) _ _ => apply wp_ret
  | |- wp (lift (unwrap _)) _ _ => apply wp_lift; cbn [ends unwrap]; try done
  | |- wp (lift (Scheduler.task_run _ _)) _ _ => apply wp_task_run; intros
  | |- wp (get_task _) _ _ => apply wp_get_task; intros
  | |- wp (get_space _) _ _ => apply wp_get_space; intros
  | |- wp (get_endpoint _) _ _ => apply wp_get_endpoint; intros
  | |- wp (get_connection _) _ _ => apply wp_get_connection; intros
  | |- wp (kind_of _) _ _ => apply wp_kind_of; intros
  | |- wp (casted _ _) _ _ => apply wp_casted
  | |- wp (by_handle _ _) _ _ => kres wp_by_handle; intros
  | |- wp (by_handle_as _ _ _) _ _ => kres wp_by_handle_as
  | |- wp (by_index _ _) _ _ => kres wp_by_index
  | |- wp (by_fn _ _ _) _ _ => kres wp_by_fn
  | |- wp (query_server _) _ _ => kres wp_query_server
  | |- wp (create_memory _ _ _ _) _ _ => kres wp_create_memory
  | |- wp (create_mapping _ _ _ _ _ _) _ _ => kres wp_create_mapping
  | |- wp (create_task _ _ _ _ _) _ _ => kres wp_create_task
  | |- wp (create_space _) _ _ => kres wp_create_space
  | |- wp (create_vm _) _ _ => kres wp_create_vm
  | |- wp (create_vm_mapping _ _) _ _ => kres wp_create_vm_mapping
  | |- wp (create_ipc_endpoint _ _ _) _ _ => kunit wp_create_ipc_endpoint
  | |- wp (create_ipc_connection _ _) _ _ => kunit wp_create_ipc_connection
  | |- wp (asset_move _ _ _) _ _ => kres wp_asset_move
  | |- wp (asset_release _ _) _ _ => kunit wp_asset_release
  | |- wp (ipc_send _ _ _ _ _ _) _ _ => kres wp_ipc_send
  | |- wp (ipc_send_resume _) _ _ => kunit wp_ipc_send_resume
  | |- wp (ipc_send_async _ _ _ _) _ _ => kunit wp_ipc_send_async
  | |- wp (ipc_receive _ _) _ _ => kunit wp_ipc_receive
  | |- wp (ipc_receive_poll _ _) _ _ => kunit wp_ipc_receive_poll
  | |- wp (ipc_receive_finish _ _ _ _ _) _ _ => kunit wp_ipc_receive_finish
  | |- wp (ipc_receive_async _ _ _ _) _ _ => kunit wp_ipc_receive_async
  | |- wp (ipc_reply _ _ _ _) _ _ => kunit wp_ipc_reply
  | |- wp (signal_await _ _ _ _) _ _ => kunit wp_signal_await
  | |- wp (signal_await_poll _ _ _) _ _ => kunit wp_signal_await_poll
  | |- wp (signal_await_finish _ _) _ _ => kunit wp_signal_await_finish
  | |- wp (signal_interrupt_query _) _ _ => kunit wp_signal_interrupt_query
  | |- wp (stack_ref _) _ _ => unfold stack_ref
  | |- wp (caller_space _) _ _ => unfold caller_space
  | |- wp (caller_tables _) _ _ => unfold caller_tables
  | |- wp (target_space _ _) _ _ => unfold target_space
  | |- wp (with_space _ _ _ _) _ _ => unfold with_space
  | |- wp (mapped_memory _) _ _ => unfold mapped_memory
  | |- wp (leave _ _ _) _ _ => unfold leave; cbn [for_each]
  | |- _ => kstep
  end; unfold create_cost, ipc_cost in *.

Section handlers.
Context `{M : Machine}.

Definition sys_cost : Z := 128.

(** A routine that ends, keeps the invariant and leaves the references it
    gives. *)
Definition keeps {A} (out : A -> list Z) (m : K A) : Prop :=
  forall B held k (Q : A -> kernel -> Prop), sys_cost <= B -> kinv B held k ->
  (forall x k', kinv (B - sys_cost) (out x ++ held) k' -> Q x k') -> wp m k Q.

Definition no_refs {A} (x : A) : list Z := [].

Ltac sys_end :=
  match goal with H : forall x k', kinv _ _ _ -> _ |- _ => apply H; cbn [no_refs app]; kfin end.

Ltac sys_solve :=
  unfold sys_cost in *; intros B held k Q HB Hk HQ; unfold sys_cost in *;
  repeat (sys_step; try done); try sys_end.

Lemma mem_own_keeps caller a : keeps no_refs (ksyscall_mem_own caller a).
Proof. unfold ksyscall_mem_own. sys_solve. Qed.

Lemma ksyscall_map_keeps caller a : keeps no_refs (ksyscall_map caller a).
Proof. unfold ksyscall_map. sys_solve. Qed.

Lemma task_create_keeps setup caller a : keeps no_refs (ksyscall_task_create setup caller a).
Proof. unfold ksyscall_task_create. sys_solve. Qed.

Lemma space_create_keeps caller a : keeps no_refs (ksyscall_space_create caller a).
Proof. unfold ksyscall_space_create. sys_solve. Qed.

Lemma task_launch_keeps caller a sch : keeps no_refs (ksyscall_task_launch caller a sch).
Proof. unfold ksyscall_task_launch. sys_solve. Qed.

Lemma mem_release_keeps caller a : keeps no_refs (ksyscall_mem_release caller a).
Proof. unfold ksyscall_mem_release. sys_solve. Qed.

Lemma asset_release_keeps caller a : keeps no_refs (ksyscall_asset_release caller a).
Proof. unfold ksyscall_asset_release. destruct (_ && _); [apply mem_release_keeps|sys_solve]. Qed.

Lemma asset_move_keeps caller a : keeps no_refs (ksyscall_asset_move caller a).
Proof. unfold ksyscall_asset_move. sys_solve. Qed.

Lemma create_endpoint_keeps caller a : keeps no_refs (ksyscall_create_endpoint caller a).
Proof. unfold ksyscall_create_endpoint. sys_solve. Qed.

Lemma create_connection_keeps caller a : keeps no_refs (ksyscall_create_connection caller a).
Proof. unfold ksyscall_create_connection. sys_solve. Qed.

Lemma ipc_reply_keeps caller a : keeps no_refs (ksyscall_ipc_reply caller a).
Proof. unfold ksyscall_ipc_reply. sys_solve. Qed.

Lemma asset_info_keeps caller a : keeps no_refs (ksyscall_ipc_asset_info caller a).
Proof. unfold ksyscall_ipc_asset_info. sys_solve. Qed.

Lemma vm_create_keeps caller a : keeps no_refs (ksyscall_vm_create caller a).
Proof. unfold ksyscall_vm_create. sys_solve. Qed.

Lemma vm_mapping_create_keeps caller a : keeps no_refs (ksyscall_vm_mapping_create caller a).
Proof. unfold ksyscall_vm_mapping_create. sys_solve. Qed.

Lemma vm_reg_read_keeps caller a : keeps no_refs (ksyscall_vm_reg_read caller a).
Proof. unfold ksyscall_vm_reg_read. sys_solve. Qed.

Lemma vm_reg_write_keeps caller a : keeps no_refs (ksyscall_vm_reg_write caller a).
Proof. unfold ksyscall_vm_reg_write. sys_solve. Qed.

Lemma x86_port_keeps port_in caller a : keeps no_refs (ksyscall_ipc_x86_port port_in caller a).
Proof. unfold ksyscall_ipc_x86_port. sys_solve. Qed.

(** ** Calls that wait *)

Definition wait_refs (w : wait) : list Z :=
  match w with
  | WaitSend sp rt c t => [asset t; asset c; asset rt; asset sp]
  | WaitReceive sp rt e ie _ _ => [asset ie; asset e; asset rt; asset sp]
  | WaitSignal sp rt e se at_ _ _ => [asset at_; asset se; asset e; asset rt; asset sp]
  end.

Definition progress_refs {S} (p : progress S) : list Z :=
  match p with Ended _ _ => [] | Blocks w => wait_refs w end.

Ltac sys_wait :=
  match goal with
  | H : forall x k', kinv _ _ _ -> _ |- _ => apply H; cbn [progress_refs wait_refs app]; kfin
  end.
Ltac wait_solve := sys_solve; try sys_wait.

Lemma send_to_keeps {S} caller sh ch m async is_call (a : S) :
  keeps progress_refs (send_to caller sh ch m async is_call a).
Proof. unfold send_to. wait_solve. Qed.

Lemma signal_continue_keeps sp rt e se at_ w a B held k Q :
  sys_cost <= B -> kinv B (wait_refs (WaitSignal sp rt e se at_ w a) ++ held) k ->
  (forall x k', kinv (B - sys_cost) (progress_refs x ++ held) k' -> Q x k') ->
  wp (signal_continue sp rt e se at_ w a) k Q.
Proof.
  revert B held k Q. unfold signal_continue. cbn [wait_refs app]. wait_solve.
Qed.

Lemma receive_continue_keeps sp rt e ie c a B held k Q :
  sys_cost <= B -> kinv B (wait_refs (WaitReceive sp rt e ie c a) ++ held) k ->
  (forall x k', kinv (B - sys_cost) (progress_refs x ++ held) k' -> Q x k') ->
  wp (receive_continue sp rt e ie c a) k Q.
Proof.
  revert B held k Q. unfold receive_continue. cbn [wait_refs app]. wait_solve.
Qed.

Lemma send_continue_keeps {S} sp rt c t (a : S) B held k Q :
  sys_cost <= B -> kinv B (wait_refs (WaitSend sp rt c t) ++ held) k ->
  (forall x k', kinv (B - sys_cost) (progress_refs x ++ held) k' -> Q x k') ->
  wp (send_continue sp rt c t a) k Q.
Proof.
  revert B held k Q. unfold send_continue. cbn [wait_refs app]. wait_solve.
Qed.

Lemma receive_keeps caller a : keeps progress_refs (ksyscall_receive caller a).
Proof.
  unfold ksyscall_receive, ksyscall_receive_internal, receive_ipc, receive_continue, await_signal,
    signal_continue.
  wait_solve.
Qed.

(** ** The dispatcher *)

Definition outcome_refs (o : outcome) : list Z :=
  match o with Waiting w => wait_refs w | Returned _ _ _ => [] end.

Definition handled_refs (p : outcome * Scheduler.scheduler) : list Z := outcome_refs (fst p).

(** The check of the pointer reads only. *)
Lemma wp_check_ptr caller ptr size k (Q : result Z -> kernel -> Prop) :
  (forall r, Q r k) -> wp (syscall_check_ptr caller ptr size) k Q.
Proof.
  intros HQ. unfold syscall_check_ptr. repeat (case_match; [by apply wp_ret|]).
  repeat sys_step. apply wp_lift.
  match goal with |- context [vmm_verify ?v ?a ?n ?t] => pose proof (vmm_verify_ends v a n t) end.
  destruct (vmm_verify _ _ _ _) as [[]| |]; simpl; try done; kstep; apply HQ.
Qed.

Lemma keeps_bind {A C} (out : A -> list Z) (out' : C -> list Z) m (f : A -> K C) :
  keeps out m -> (forall x, exists y, f x = mret y /\ out' y = out x) -> keeps out' (x ← m; f x).
Proof.
  intros Hm Hf B held k Q HB Hk HQ. kstep. eapply Hm; [exact HB|exact Hk|]. intros x k' Hk'.
  destruct (Hf x) as (y & -> & Hy). apply wp_ret, HQ. by rewrite Hy.
Qed.

Section dispatch.
Context (setup : task_setup) (port_in : Z -> Z -> Z) (user : user_args).
Context (syscall : SyscallInterface) (caller : Z) (sch : Scheduler.scheduler).

Lemma checked_keeps t f :
  keeps handled_refs (f (user t)) ->
  keeps handled_refs (checked user syscall caller sch t f).
Proof.
  intros Hf B held k Q HB Hk HQ. unfold checked. kstep. apply wp_check_ptr. intros [p|e]; [by eapply Hf|].
  apply wp_ret, HQ. cbn. unfold sys_cost in *. kfin.
Qed.

Lemma simple_keeps t h :
  (forall a, keeps no_refs (h caller a)) -> keeps handled_refs (simple user syscall caller sch t h).
Proof. intros Hh. apply checked_keeps. eapply keeps_bind; [apply Hh|]. by eexists. Qed.

Lemma blocking_keeps t h :
  (forall a, keeps progress_refs (h caller a)) -> keeps handled_refs (blocking user syscall caller sch t h).
Proof. intros Hh. apply checked_keeps. eapply keeps_bind; [apply Hh|]. by intros []; eexists. Qed.

Lemma syscall_handle_keeps :
  keeps handled_refs (syscall_handle setup port_in user syscall caller sch).
Proof.
  unfold syscall_handle.
  repeat match goal with |- keeps _ (if ?b then _ else _) => destruct b end;
    first [apply simple_keeps; intros | apply blocking_keeps; intros | apply checked_keeps | idtac].
  - intros B held k Q HB Hk HQ. kstep. apply wp_get_task. intros. apply wp_ret, HQ. cbn.
    unfold sys_cost in *. kfin.
  - apply mem_own_keeps.
  - apply ksyscall_map_keeps.
  - apply task_create_keeps.
  - apply space_create_keeps.
  - apply asset_release_keeps.
  - eapply keeps_bind; [apply task_launch_keeps|]. by intros []; eexists.
  - apply asset_move_keeps.
  - apply create_endpoint_keeps.
  - apply create_connection_keeps.
  - apply send_to_keeps.
  - apply receive_keeps.
  - apply send_to_keeps.
  - apply ipc_reply_keeps.
  - apply asset_info_keeps.
  - apply vm_create_keeps.
  - apply vm_mapping_create_keeps.
  - apply vm_reg_read_keeps.
  - apply vm_reg_write_keeps.
  - eapply keeps_bind; [apply x86_port_keeps|]. by intros [? []]; eexists.
  - intros B held k Q HB Hk HQ. apply wp_ret, HQ. cbn. unfold sys_cost in *. kfin.
Qed.
End dispatch.

Lemma syscall_resume_keeps w B held k Q :
  sys_cost <= B -> kinv B (wait_refs w ++ held) k ->
  (forall o k', kinv (B - sys_cost) (outcome_refs o ++ held) k' -> Q o k') ->
  wp (syscall_resume w) k Q.
Proof.
  intros HB Hk HQ. destruct w; unfold syscall_resume; kstep.
  - eapply send_continue_keeps; [exact HB|exact Hk|]. intros [] k' Hk'; apply wp_ret; by apply HQ.
  - eapply receive_continue_keeps; [exact HB|exact Hk|]. intros [] k' Hk'; apply wp_ret; by apply HQ.
  - eapply signal_continue_keeps; [exact HB|exact Hk|]. intros [] k' Hk'; apply wp_ret; by apply HQ.
Qed.
End handlers.
