(* ===== verification/SyscallRuns.v ===== *)
(** Runs of the system calls: any tasks call with any arguments, wait and run
    again, between the operations the kernel does on its own. *)

From stdpp Require Import gmap relations.
From S2P Require Import Prelude Range UMap.
From S2P Require Pmm Ring Paging Scheduler.
From S2P Require Import IpcTypes KObject IpcRegistry Space Ipc Signal SyscallTypes Syscalls.
From S2P Require Import Sample KObjectSpec SpaceSpec SpaceCreateSpec IpcInv KernelSafety SpaceMoves.
From S2P Require Import SyscallsSpec.

Section runs.
Context `{M : Machine}.

(** The calls that wait, the references on other stacks, the kernel. *)
Definition system : Type := list wait * list Z * kernel.

Definition waiting (o : outcome) : list wait :=
  match o with Waiting w => [w] | Returned _ _ _ => [] end.

Definition waits_refs (ws : list wait) : list Z := ws ≫= wait_refs.

(** Every reference on the stack of a task in the kernel. *)
Definition stacked (s : system) : list Z := let '(ws, held, _) := s in waits_refs ws ++ held.

(** A task calls, with the scheduler in any state; a task that waits in a call
    runs again; anything else the kernel or a task does. *)
Inductive sys_step : system -> system -> Prop :=
| sys_call setup port_in user syscall caller sch sch' o ws held k k' :
    syscall_handle setup port_in user syscall caller sch k = Ret ((o, sch'), k') ->
    sys_step (ws, held, k) (waiting o ++ ws, held, k')
| sys_resume w o ws ws' held k k' :
    ws ≡ₚ w :: ws' -> syscall_resume w k = Ret (o, k') ->
    sys_step (ws, held, k) (waiting o ++ ws', held, k')
| sys_core ws held held' k k' :
    step (held, k) (held', k') -> sys_step (ws, held, k) (ws, held', k').

Lemma waits_refs_perm p ws ws' : ws ≡ₚ ws' -> zcount p (waits_refs ws) = zcount p (waits_refs ws').
Proof. intros H. apply zcount_perm. unfold waits_refs. by rewrite H. Qed.

Lemma waiting_refs o ws : waits_refs (waiting o ++ ws) = outcome_refs o ++ waits_refs ws.
Proof. by destruct o as [r a p|w]. Qed.

Lemma kinv_perm B l l' k : l ≡ₚ l' -> kinv B l k -> kinv B l' k.
Proof. intros Hp. apply kinv_ext. intros q _. by rewrite (zcount_perm q l l'). Qed.

Lemma kinv_sys_step B s s' :
  op_cost <= B -> B <= budget -> kinv B (stacked s) (snd s) -> sys_step s s' ->
  kinv (B - op_cost) (stacked s') (snd s').
Proof.
  intros HB HB2 Hk Hs. destruct Hs as [? ? ? ? ? ? ? o ws held k k' He|w o ws ws' held k k' Hp He|ws held held' k k' Hs];
    cbn [stacked snd] in *.
  - assert (wp (syscall_handle setup port_in user syscall caller sch) k
              (fun p k' => kinv (B - op_cost) (handled_refs p ++ waits_refs ws ++ held) k')) as Hw.
    { eapply syscall_handle_keeps; [|exact Hk|]; unfold sys_cost, op_cost in *; [lia|]. intros. kfin. }
    unfold wp in Hw. rewrite He in Hw. by rewrite waiting_refs, <- app_assoc.
  - assert (wp (syscall_resume w) k
              (fun o k' => kinv (B - op_cost) (outcome_refs o ++ waits_refs ws' ++ held) k')) as Hw.
    { eapply syscall_resume_keeps.
      - instantiate (1 := B). unfold sys_cost, op_cost in *. lia.
      - eapply kinv_perm; [|exact Hk]. unfold waits_refs. rewrite Hp. cbn. by rewrite <- app_assoc.
      - unfold sys_cost, op_cost in *. intros. kfin. }
    unfold wp in Hw. rewrite He in Hw. by rewrite waiting_refs, <- app_assoc.
  - set (F := waits_refs ws) in *. inversion Hs; subst.
    + apply (kinv_step B (consumes o ++ F ++ held0) k (l ++ F ++ held0) k') in HB; [|done| |by apply step_op].
      * eapply kinv_perm; [|exact HB]. solve_Permutation.
      * eapply kinv_perm; [|exact Hk]. solve_Permutation.
    + by apply (kinv_step B (F ++ held') k (F ++ held')); [..|apply step_write].
    + apply (kinv_step B (F ++ held) k' (F ++ held')); [done..|]. apply step_reorder. by f_equiv.
Qed.

Lemma kinv_sys_steps n : forall B s s',
  op_cost * Z.of_nat n <= B -> B <= budget -> kinv B (stacked s) (snd s) ->
  nsteps sys_step n s s' -> kinv (B - op_cost * Z.of_nat n) (stacked s') (snd s').
Proof.
  unfold op_cost. induction n as [|n IH]; intros B s s' HB HB2 Hk Hs; inversion Hs; subst.
  - replace (B - _) with B by lia. done.
  - eapply (kinv_sys_step B) in Hk; [|unfold op_cost; lia|done|eassumption]. unfold op_cost in Hk.
    replace (B - _) with (B - 256 - 256 * Z.of_nat n) by lia. eapply IH; [lia|lia|exact Hk|done].
Qed.

(** C2: the system calls keep the references sound as long as the kernel stays
    defined. From the kernel before its first object, let tasks make system calls in
    any order, with any number, any pointer, anything at the pointer and the scheduler
    in any state; let the calls that wait go on at any time, and let the kernel and the
    tasks do anything else in between; each of these steps returns. Then every counted
    reference, stored or on the stack of a call, running or waiting, is to an object
    that has not been deleted and whose count is at least the number of its references,
    so that one more can be taken; and no next call, and no call that waits when its
    task runs again, loops. A call that stops at an assertion or does what C++ leaves
    undefined has no next state and nothing is said of what follows it. User space can
    make such calls: one from a task whose space has been deleted
    (deleted_space_is_used), or one that sends a message longer than the words of a
    message, whose copy leaves the object. *)
Theorem system_calls_sound n k0 s :
  booted k0 -> Z.of_nat n < 2 ^ 40 -> nsteps sys_step n ([], [], k0) s ->
  (forall p, p <> nullptr -> 0 < refs (snd s) p + zcount p (stacked s) ->
     (exists a, heap (snd s) !! p = Some a /\ refs (snd s) p + zcount p (stacked s) <= ref_count a) /\
     exists k', own p (snd s) = Ret (tt, k')) /\
  (forall setup port_in user syscall caller sch,
     syscall_handle setup port_in user syscall caller sch (snd s) <> NoFuel) /\
  (forall w, w ∈ fst (fst s) -> syscall_resume w (snd s) <> NoFuel).
Proof.
  intros H0 Hn Hs.
  set (B := budget - op_cost * Z.of_nat n).
  assert (sys_cost <= B) as HB by (unfold B, sys_cost, op_cost, budget; lia).
  assert (kinv B (stacked s) (snd s)) as Hk.
  { eapply (kinv_sys_steps n budget ([], [], k0) s); [|reflexivity|by apply kinv_booted|exact Hs].
    unfold op_cost, budget. lia. }
  split; [intros p Hp Hc; by apply (kinv_counted _ _ _ _ Hk)|]. split.
  - intros * HF.
    pose proof (syscall_handle_keeps setup port_in user syscall caller sch B _ _
                  (fun _ _ => True) HB Hk ltac:(done)) as Hw.
    unfold wp in Hw. by rewrite HF in Hw.
  - intros w Hw HF. destruct s as [[ws held] k]. cbn [fst snd stacked] in *.
    apply elem_of_Permutation in Hw as [ws' Hp].
    assert (kinv B (wait_refs w ++ waits_refs ws' ++ held) k) as Hk'.
    { eapply kinv_perm; [|exact Hk]. unfold waits_refs. rewrite Hp. cbn. by rewrite <- app_assoc. }
    pose proof (syscall_resume_keeps w B _ _ (fun _ _ => True) HB Hk' ltac:(done)) as Hr.
    unfold wp in Hr. by rewrite HF in Hr.
Qed.
End runs.

(** ** A run *)

(** The root space and a task in it, which makes an endpoint and waits for a
    message at it. *)
Definition one_task : list op :=
  [OpCreateRoot; OpCreateTask 1 true (Value tt) (Value tt) (mk_Range 0 0)].

Definition no_task_setup : task_setup := mk_task_setup (Value tt) (Value tt) (mk_Range 0 0).

Definition no_scheduler : Scheduler.scheduler :=
  Scheduler.mk_scheduler (∅ : gmap Z _) [] [] [] false 0 [] [] [] 0 0.

(** Arguments of zeroes but for the endpoint a message is awaited at. *)
Definition sample_args (endpoint : Z) : user_args := fun t =>
  match t with
  | ArgsMemOwn => mk_SyscallMemOwn 0 0 0 0
  | ArgsMap => mk_SyscallMap 0 0 0 0 0 0
  | ArgsTaskCreate => mk_SyscallTaskCreate 0 0 [] 0
  | ArgsSpaceCreate => mk_SyscallSpaceCreate 0 0 0 0
  | ArgsAssetRelease => mk_SyscallAssetRelease 0 0 0 0
  | ArgsTaskLaunch => mk_SyscallTaskLaunch 0 0 []
  | ArgsAssetMove => mk_SyscallAssetMove 0 0 0 false 0
  | ArgsCreateEndpoint => mk_SyscallIpcCreateEndpoint 0 false false 0 0
  | ArgsConnect => mk_SyscallIpcConnect 0 false 0 0 0
  | ArgsSend => mk_SyscallIpcSend 0 false 0 0
  | ArgsReceive => mk_SyscallIpcReceive 0 endpoint false 65536 0
  | ArgsCall => mk_SyscallIpcCall 0 0 0
  | ArgsReply => mk_SyscallIpcReply 0 0 0
  | ArgsAssetInfo => mk_SyscallAssetInfo 0 false 0 0 0 info_unset
  | ArgsCreateVm => mk_SyscallCreateVm 0 0
  | ArgsCreateVmMapping => mk_SyscallCreateVmMapping 0 0 0 0 0 0 0
  | ArgsRegRead | ArgsRegWrite => mk_SyscallVmReg 0 0 0 0 0
  | ArgsX86Port => mk_SyscallIpcX86Port 0 1 0 0 0 0 0
  end.

Definition sample_call (i : Z) : @K (sample_machine false) (outcome * Scheduler.scheduler) :=
  syscall_handle no_task_setup (fun _ _ => 0) (sample_args 18) (encode i 4096) 2 no_scheduler.

Lemma one_task_enabled :
  Forall (fun o => consumes o = [] /\ forall k : @kernel (sample_machine false), enabled o k) one_task.
Proof. repeat (constructor; [done|]). constructor. Qed.

(** The references held, what the two calls give, the kernel. *)
Definition sample_trace : ctl (list Z * outcome * outcome * @kernel (sample_machine false)) :=
  '(held, k) ← run one_task [] boot_kernel;
  '((o, _), k) ← sample_call SYSCALL_IPC_CREATE_ENDPOINT_ID k;
  '((o', _), k) ← sample_call SYSCALL_IPC_RECEIVE_ID k;
  Ret (held, o, o', k).

Lemma sample_trace_waits :
  match sample_trace with
  | Ret (held, o, o', _) =>
      held = [2; 1] /\ waiting o = [] /\ map wait_refs (waiting o') = [[3; 3; 2; 1]]
  | _ => False
  end.
Proof. vm_compute. auto. Qed.

Lemma step_core_run l : forall ws held (k : @kernel (sample_machine false)) held' k',
  nsteps step l (held, k) (held', k') -> nsteps sys_step l (ws, held, k) (ws, held', k').
Proof.
  induction l as [|l IH]; intros * Hs; inversion Hs; subst; [constructor|].
  match goal with y : (list Z * kernel)%type |- _ => destruct y end.
  econstructor; [by apply sys_core|by apply IH].
Qed.

Lemma sample_run :
  exists w k, nsteps (@sys_step (sample_machine false)) 4 ([], [], boot_kernel) ([w], [2; 1], k) /\
    wait_refs w = [3; 3; 2; 1].
Proof.
  pose proof sample_trace_waits as H. unfold sample_trace in H.
  destruct (run one_task [] boot_kernel) as [[h0 k0]| |] eqn:E0; [|destruct H..].
  cbn [mbind ctl_bind] in H.
  destruct (sample_call SYSCALL_IPC_CREATE_ENDPOINT_ID k0) as [[[o1 s1] k1]| |] eqn:E1; [|destruct H..].
  cbn [mbind ctl_bind] in H.
  destruct (sample_call SYSCALL_IPC_RECEIVE_ID k1) as [[[o2 s2] k2]| |] eqn:E2; [|destruct H..].
  cbn [mbind ctl_bind] in H. destruct H as (-> & Ho1 & Hw).
  destruct (waiting o2) as [|w [|w' l]] eqn:Ho2; [discriminate Hw| |discriminate Hw]. injection Hw as Hw.
  exists w, k2. split; [|exact Hw].
  eapply (nsteps_trans 2 2).
  - apply step_core_run, (run_steps one_task); [exact one_task_enabled|exact E0].
  - econstructor; [eapply sys_call, E1|]. rewrite Ho1. econstructor; [eapply sys_call, E2|].
    rewrite Ho2. constructor.
Qed.

Lemma system_calls_sound_witness :
  exists w k, nsteps (@sys_step (sample_machine false)) 4 ([], [], boot_kernel) ([w], [2; 1], k) /\
    (forall p, p <> nullptr -> 0 < refs k p + zcount p (wait_refs w ++ [2; 1]) ->
       exists a, heap k !! p = Some a /\ refs k p + zcount p (wait_refs w ++ [2; 1]) <= ref_count a) /\
    (forall i, sample_call i k <> NoFuel) /\ syscall_resume w k <> NoFuel.
Proof.
  destruct sample_run as (w & k & Hs & _). exists w, k. split; [exact Hs|].
  destruct (system_calls_sound 4 boot_kernel _ boot_kernel_booted ltac:(done) Hs) as (H1 & H2 & H3).
  split; [|split; [intros i; apply H2|apply H3; constructor]].
  intros p Hp. specialize (H1 p Hp). cbn [snd stacked waits_refs mbind list_bind] in H1.
  rewrite app_nil_r in H1. intros Hc. by destruct (H1 Hc).
Defined.

(** ** A deleted space *)

Definition call_of (t : AssetRef) (i : Z) : @K (sample_machine false) (outcome * Scheduler.scheduler) :=
  syscall_handle no_task_setup (fun _ _ => 0) (sample_args 18) (encode i 4096) (asset t) no_scheduler.

(** A space and a task in it, once the parent of the space has released it. *)
Definition space_released : @K (sample_machine false) (AssetRef * AssetRef) :=
  root ← create_root;
  s ← create_space (asset root);
  match s with
  | Error _ => trap
  | Value s =>
      t ← create_task (asset s) true (Value tt) (Value tt) (mk_Range 0 0);
      match t with
      | Error _ => trap
      | Value t => drop s;; asset_release_by_handle (asset root) (handle s);; mret (s, t)
      end
  end.

(** A space holds itself as handle 0. A task releases handle 0 of its own space: the call
    succeeds and the last reference to the space goes, since the task does not count
    its own. The task is still there; its next call uses the deleted space. *)
Lemma deleted_space_is_used :
  match space_released boot_kernel with
  | Ret ((s, t), k) =>
      match call_of t SYSCALL_ASSET_RELEASE_ID k with
      | Ret ((Returned (Value 0) _ _, _), k) =>
          heap k !! asset s = None /\ is_Some (heap k !! asset t) /\
          call_of t SYSCALL_SPACE_CREATE_ID k = Trap
      | _ => False
      end
  | _ => False
  end.
Proof. vm_compute. split; [reflexivity|]. split; [by eexists|reflexivity]. Qed.
