(* ===== verification/SyscallErrors.v ===== *)
(** The errors of the system calls: what the dispatcher refuses changes
    nothing, and what it does not refuse can stop the kernel. *)

From stdpp Require Import gmap.
From S2P Require Import Prelude Range UMap.
From S2P Require Pmm Ring Paging PagingSpec PagingRanges VmmSpaceSpec Scheduler.
From S2P Require Import IpcTypes KObject IpcRegistry Space Ipc Signal SyscallTypes Syscalls.
From S2P Require Import Sample KObjectSpec SpaceSpec KernelSafety KernelRuns SpaceMoves.
From S2P Require Import PagingMachine SyscallsSpec SyscallRuns.

(** The calls that take arguments. *)
Definition calls : list (Z * args_kind) :=
  [(SYSCALL_PHYSICAL_MEM_OWN_ID, ArgsMemOwn); (SYSCALL_MAPPING_CREATE_ID, ArgsMap);
   (SYSCALL_TASK_CREATE_ID, ArgsTaskCreate); (SYSCALL_SPACE_CREATE_ID, ArgsSpaceCreate);
   (SYSCALL_ASSET_RELEASE_ID, ArgsAssetRelease); (SYSCALL_TASK_LAUNCH_ID, ArgsTaskLaunch);
   (SYSCALL_ASSET_MOVE, ArgsAssetMove); (SYSCALL_IPC_CREATE_ENDPOINT_ID, ArgsCreateEndpoint);
   (SYSCALL_IPC_CONNECT_ID, ArgsConnect); (SYSCALL_IPC_SEND_ID, ArgsSend);
   (SYSCALL_IPC_RECEIVE_ID, ArgsReceive); (SYSCALL_IPC_CALL_ID, ArgsCall);
   (SYSCALL_IPC_REPLY_ID, ArgsReply); (SYSCALL_ASSET_INFO_ID, ArgsAssetInfo);
   (SYSCALL_VM_CREATE, ArgsCreateVm); (SYSCALL_VM_CREATE_MAPPING, ArgsCreateVmMapping);
   (SYSCALL_VM_REG_READ, ArgsRegRead); (SYSCALL_VM_REG_WRITE, ArgsRegWrite);
   (SYSCALL_IPC_X86_PORT, ArgsX86Port)].

Definition call_args (i : Z) : option args_kind := snd <$> List.find (fun c => i =? fst c) calls.

Section errors.
Context `{M : Machine}.

(** [caller] is a task of a space whose page tables are [v]. *)
Definition task_tables (k : kernel) (caller v : Z) : Prop :=
  exists b n t b' n' s, heap k !! caller = Some (mk_Asset b n (AssetTask t)) /\
    heap k !! _space_owner t = Some (mk_Asset b' n' (AssetSpace s)) /\ vmm_space s = v.

Definition pointer_refused (k : kernel) (caller ptr size : Z) : Prop :=
  ptr = 0 \/ caller = nullptr \/ Paging.MMAP_IO_BASE <= ptr \/
  exists v e, task_tables k caller v /\ vmm_verify v ptr size (page_tables k) = Ret (Error e).

Definition refused_call (k : kernel) (syscall : SyscallInterface) (caller : Z) : Prop :=
  match call_args (id syscall) with
  | Some t => pointer_refused k caller (arg1 syscall) (args_size t)
  | None => id syscall <> SYSCALL_DEBUG_LOG_ID
  end.

Lemma runs_caller_tables k caller v (Q : Z -> kernel -> Prop) :
  task_tables k caller v -> Q v k -> runs (caller_tables caller) k Q.
Proof.
  intros (b & n & t & b' & n' & s & Ht & Hs & <-) HQ. unfold caller_tables, caller_space, get_task.
  apply runs_bind, runs_bind, runs_bind. eapply runs_get_content; [exact Ht|]. cbn [content].
  apply runs_ret, runs_ret, runs_bind. eapply runs_get_space; [exact Hs|]. by apply runs_ret.
Qed.

Lemma check_ptr_refuses k caller ptr size :
  pointer_refused k caller ptr size -> exists e, syscall_check_ptr caller ptr size k = Ret (Error e, k).
Proof.
  intros H. unfold syscall_check_ptr. destruct (Z.eqb_spec ptr 0); [by eexists|].
  destruct (Z.eqb_spec caller nullptr); [by eexists|].
  destruct (Z.leb_spec Paging.MMAP_IO_BASE ptr); [by eexists|].
  destruct H as [|[|[|(v & e & Hv & He)]]]; try done; [lia|]. exists e.
  rewrite K_bind_eq.
  assert (runs (caller_tables caller) k (fun v' k' => v' = v /\ k' = k)) as Hr
    by (by eapply runs_caller_tables).
  apply runs_iff in Hr as (? & ? & -> & -> & ->). unfold ktry. rewrite !K_bind_eq. cbn.
  unfold lift. by rewrite He.
Qed.

Lemma checked_refuses user syscall caller sch t f k :
  pointer_refused k caller (arg1 syscall) (args_size t) ->
  exists e, checked user syscall caller sch t f k = Ret ((Returned (Error e) None [], sch), k).
Proof.
  intros H%check_ptr_refuses. destruct H as [e He]. exists e. unfold checked.
  by rewrite K_bind_eq, He.
Qed.
End errors.

Section traps.
Context `{M : Machine}.

Lemma runs_trap {A C} (m : K A) (f : A -> K C) k :
  runs m k (fun a k' => f a k' = Trap) -> (m ≫= f) k = Trap.
Proof. rewrite K_bind_eq. intros (a & k' & -> & H)%runs_iff. done. Qed.

Lemma bind_trap {A C} (m : K A) (f : A -> K C) k : m k = Trap -> (m ≫= f) k = Trap.
Proof. rewrite K_bind_eq. by intros ->. Qed.

Lemma open_space_own k this s T p a :
  open_space k this s T -> heap k !! p = Some a ->
  open_space (with_heap <[p := mk_Asset (lock a) (u64 (ref_count a + 1)) (content a)]> k) this s T.
Proof. intros [H HT] Ha. split; [|done]. by apply holds_own. Qed.

Lemma kinv_nonnull B held k p a : kinv B held k -> heap k !! p = Some a -> p <> nullptr.
Proof. intros Hk Ha ->. by rewrite (kinv_null _ _ _ Hk) in Ha. Qed.
End traps.

Lemma refused_call_spec `{M : Machine} setup port_in user syscall caller sch k :
  refused_call k syscall caller ->
  exists e, syscall_handle setup port_in user syscall caller sch k =
    Ret ((Returned (Error e) None [], sch), k).
Proof.
  unfold refused_call, call_args, syscall_handle. cbn [calls List.find fst snd].
  destruct (Z.eqb_spec (id syscall) SYSCALL_DEBUG_LOG_ID) as [->|Hd]; [done|].
  repeat match goal with |- context [if id syscall =? ?n then _ else _] => destruct (id syscall =? n) end;
    cbn [fmap option_fmap option_map snd]; first [apply checked_refuses | by eexists].
Qed.

(** C25: a system call the dispatcher refuses, because no call has its number, or
    because the pointer is null, not in the lower half, or not to memory of the
    caller that may hold the arguments of the call, returns an error, and leaves
    the kernel, the scheduler and the memory of the caller as they were. *)
Theorem refused_call_changes_nothing `{M : Machine} setup port_in user syscall caller sch k :
  refused_call k syscall caller ->
  exists e, syscall_handle setup port_in user syscall caller sch k =
    Ret ((Returned (Error e) None [], sch), k).
Proof. apply refused_call_spec. Qed.

(** The task of the sample run: a number no call has, a null pointer. *)
Definition one_task_kernel : @kernel (sample_machine false) :=
  match run one_task [] boot_kernel with Ret (_, k) => k | _ => boot_kernel end.

Lemma refused_call_changes_nothing_witness :
  (exists e, syscall_handle no_task_setup (fun _ _ => 0) (sample_args 18) (encode 0x20 4096) 2 no_scheduler
     one_task_kernel = Ret ((Returned (Error e) None [], no_scheduler), one_task_kernel)) /\
  (exists e, syscall_handle no_task_setup (fun _ _ => 0) (sample_args 18) (syscall_map_encode 0) 2 no_scheduler
     one_task_kernel = Ret ((Returned (Error e) None [], no_scheduler), one_task_kernel)).
Proof.
  split; apply refused_call_changes_nothing.
  - unfold refused_call. assert (call_args (id (encode 0x20 4096)) = None) as -> by reflexivity.
    vm_compute. discriminate.
  - unfold refused_call. assert (call_args (id (syscall_map_encode 0)) = Some ArgsMap) as -> by reflexivity.
    by left.
Defined.

(** [ksyscall_receive] takes the object its handle names without a test: a
    handle that is not in the table of the space stops the kernel. *)
Theorem receive_unknown_handle_stops `{M : Machine} setup port_in (user : user_args) syscall caller sch
    (k : kernel) B held T s :
  kinv B held k -> 2 <= B -> (exists b n t, heap k !! caller = Some (mk_Asset b n (AssetTask t)) /\
    open_space k (_space_owner t) s T) ->
  id syscall = SYSCALL_IPC_RECEIVE_ID -> syscall_check_ptr caller (arg1 syscall) 40 k = Ret (Value (arg1 syscall), k) ->
  ir_space_handle (user ArgsReceive) = 0 -> T !! ir_source (user ArgsReceive) = None ->
  syscall_handle setup port_in user syscall caller sch k = Trap.
Proof.
  intros Hk HB (b & n & t & Ht & Hs) Hid Hc Hz Hi.
  assert (_space_owner t <> nullptr) as Hnn by (by eapply open_nonnull).
  assert (caller <> nullptr) as Hcn by (eapply kinv_nonnull; [exact Hk|exact Ht]).
  unfold syscall_handle. rewrite Hid.
  repeat match goal with |- context [SYSCALL_IPC_RECEIVE_ID =? ?x] =>
    let v := eval vm_compute in (SYSCALL_IPC_RECEIVE_ID =? x) in
    change (SYSCALL_IPC_RECEIVE_ID =? x) with v end.
  unfold blocking, checked. rewrite K_bind_eq. change (args_size ArgsReceive) with 40. rewrite Hc.
  apply bind_trap. unfold ksyscall_receive. rewrite Hz.
  change (0 =? SYSCALL_IPC_RECEIVE_INTERNAL_SPACE) with false. cbn iota.
  apply runs_trap. apply runs_bind. unfold caller_space, get_task. apply runs_bind, runs_bind.
  eapply runs_get_content; [exact Ht|]. do 2 apply runs_ret. apply runs_ret. cbn beta iota.
  rewrite (proj2 (Z.eqb_neq _ _) Hnn).
  pose proof Hs as [[c Hsp] _].
  apply runs_trap, runs_bind. eapply runs_own; [exact Hnn|exact Hsp|]. apply runs_ret.
  cbn [lock ref_count content]. set (k1 := with_heap _ k).
  assert (open_space k1 (_space_owner t) s T) as Hs1 by (by apply (open_space_own k _ s T _ _ Hs Hsp)).
  assert (exists a, heap k1 !! caller = Some a) as [a Ha].
  { unfold k1. cbn [heap with_heap]. rewrite lookup_insert. case_decide; by eexists. }
  apply runs_trap, runs_bind. eapply runs_own; [exact Hcn|exact Ha|]. apply runs_ret.
  set (k2 := with_heap _ k1).
  assert (open_space k2 (_space_owner t) s T) as Hs2 by (by apply (open_space_own k1 _ s T _ _ Hs1 Ha)).
  apply runs_trap. eapply runs_impl; [apply runs_by_handle; [exact Hs2|]; by rewrite Hi|].
  cbn beta. rewrite Hi. by intros r k' (_ & -> & _).
Qed.

Lemma one_task_kinv : kinv 1000 [2; 1] one_task_kernel.
Proof.
  unfold one_task_kernel. apply (run_kinv boot_kernel one_task _ _ boot_kernel_booted); [exact one_task_enabled|done|].
  assert ((match run one_task [] boot_kernel with Ret (h, _) => Some h | _ => None end) = Some [2; 1])
    as H by (vm_compute; reflexivity).
  destruct (run one_task [] boot_kernel) as [[h k]| |]; [|discriminate H..]. by injection H as ->.
Qed.

Lemma one_task_space : exists n s T, heap one_task_kernel !! 1 = Some (mk_Asset false n (AssetSpace s)) /\
  open_space one_task_kernel 1 s T /\ T !! 99 = None.
Proof.
  destruct (open_space_found 1000 [2; 1] one_task_kernel 1 99999 (space_at one_task_kernel 1) one_task_kinv)
    as (T & HT & F); [vm_compute; reflexivity|].
  exists 99999, (space_at one_task_kernel 1), T. split; [vm_compute; reflexivity|]. split; [exact HT|].
  assert (UMap.find 99 (assets (space_at one_task_kernel 1)) = Ret None) as E by (vm_compute; reflexivity).
  rewrite F in E. by injection E.
Qed.

Lemma receive_unknown_handle_stops_witness :
  syscall_handle no_task_setup (fun _ _ => 0) (sample_args 99) (syscall_ipc_receive_encode 4096) 2 no_scheduler
    one_task_kernel = Trap.
Proof.
  destruct one_task_space as (n & s & T & Hs & HT & H99).
  apply (receive_unknown_handle_stops _ _ _ _ _ _ _ 1000 [2; 1] T s one_task_kinv);
    [discriminate| |reflexivity|vm_compute; reflexivity|reflexivity|exact H99].
  eexists _, _, _. split; [vm_compute; reflexivity|exact HT].
Defined.
