(* ===== verification/MachineSpec.v ===== *)
(** The kernel core over the page tables of the processor: the check of the
    arguments of a system call, and mapping from the memory object to the
    translation. *)

From stdpp Require Import gmap.
From S2P Require Import Prelude UMap.
From S2P Require Pmm Range Ring Paging PagingSpec PagingRanges VmmSpaceSpec Scheduler.
From S2P Require Import IpcTypes KObject IpcRegistry Space Signal SyscallTypes Syscalls.
From S2P Require Import Sample KObjectSpec SpaceSpec KernelSafety KernelRuns SpaceMoves MemoryObjects.
From S2P Require Import PagingMachine SyscallsSpec SyscallRuns SyscallErrors.

(** * Reading the tables does not look at the allocator *)

Lemma _verify_set_pmm l : forall t a m p, Paging._verify l t a (Paging.set_pmm m p) = Paging._verify l t a m.
Proof.
  induction l as [|l IH]; intros t a m p; [done|]. cbn [Paging._verify].
  change (Paging.page (Paging.set_pmm m p)) with (Paging.page m).
  destruct (Paging.page m t _) as [q| |]; [|done..]. cbn [mbind ctl_bind].
  destruct (Paging.page_error q); [done|]. destruct l; [done|apply IH].
Qed.

Lemma verify_loop_set_pmm n : forall l t i m p,
  Paging.verify_loop n l t i (Paging.set_pmm m p) = Paging.verify_loop n l t i m.
Proof.
  induction n as [|n IH]; intros l t i m p; [done|]. cbn [Paging.verify_loop]. rewrite _verify_set_pmm.
  destruct (Paging._verify _ _ _ _) as [[[]|]| |]; [|done..]. cbn [mbind ctl_bind]. apply IH.
Qed.

Lemma verify_set_pmm v a n m p : Paging.verify v a n (Paging.set_pmm m p) = Paging.verify v a n m.
Proof. apply verify_loop_set_pmm. Qed.

Lemma leaf_set_pmm v a m p : PagingSpec.leaf (Paging.set_pmm m p) v a = PagingSpec.leaf m v a.
Proof. apply PagingSpec.mapping_set_pmm. Qed.

(** * Mapping *)

Section mapping.
Context `{M : Machine}.

Lemma runs_on_tables {A} (f : PageTables -> Pmm.Pmm -> ctl (A * PageTables * Pmm.Pmm)) a t p k
    (Q : A -> kernel -> Prop) :
  f (page_tables k) (pmm k) = Ret (a, t, p) -> Q a (with_pmm p (with_page_tables t k)) ->
  runs (on_tables f) k Q.
Proof.
  intros Hf HQ. unfold on_tables. apply runs_bind, runs_gets, runs_bind, runs_gets, runs_bind.
  eapply runs_lift; [exact Hf|]. apply runs_bind, runs_modify. by apply runs_ret.
Qed.

(** A kernel that differs in the heap only. *)
Lemma heap_only k k' f (Q : unit -> kernel -> Prop) :
  k' = with_heap (fun _ => heap k') k -> heap k' = f (heap k) -> Q tt (with_heap f k) -> Q tt k'.
Proof. intros Hk Hh HQ. rewrite Hk, Hh. exact HQ. Qed.

(** The last reference to a mapping goes, and one to its memory with it. *)
Lemma runs_drop_mapping r st en phys w x c d k (Q : unit -> kernel -> Prop) :
  asset r <> nullptr -> asset r <> asset phys -> asset phys <> nullptr ->
  heap k !! asset r = Some (mk_Asset false 1 (AssetMapping st en phys w x)) ->
  heap k !! asset phys = Some (mk_Asset false c d) -> 2 <= c < 2 ^ 64 ->
  Q tt (with_heap (fun h => delete (asset r) (<[asset phys := mk_Asset false (c - 1) d]> h)) k) ->
  runs (drop r) k Q.
Proof.
  intros Hnn Hne Hpn Ha Hp Hc HQ. unfold drop, deref. apply runs_bind, runs_gets.
  destruct (size (heap k)) as [|n] eqn:En.
  { apply map_size_empty_inv in En. by rewrite En in Ha. }
  cbn [deref_n]. rewrite (proj2 (Z.eqb_neq _ _) Hnn). apply runs_bind. eapply runs_get_asset; [exact Ha|].
  cbn [lock ref_count content]. apply runs_bind, runs_set_asset. change (1 =? 0) with false.
  change (1 =? 1) with true. cbn iota. set (k1 := with_heap _ k).
  apply runs_bind. eapply runs_lock; [by heap_look|done|]. cbn [ref_count content].
  set (k2 := with_heap _ k1). apply runs_bind. cbn [release_pages]. apply runs_ret, runs_bind.
  eapply runs_set_content; [by heap_look|]. cbn [lock ref_count]. set (k3 := with_heap _ k2).
  apply runs_bind. cbn [fields for_each]. apply runs_bind.
  rewrite (proj2 (Z.eqb_neq _ _) Hpn). apply runs_bind.
  eapply (runs_get_asset _ (mk_Asset false c d)); [by heap_look|].
  cbn [lock ref_count content]. apply runs_bind, runs_set_asset.
  rewrite wrapu_small, !(proj2 (Z.eqb_neq _ _)) by lia. apply runs_ret, runs_ret, runs_modify.
  eapply (heap_only k); [reflexivity| |exact HQ]. unfold k3, k2, k1. cbn [heap with_heap].
  apply map_eq. intros q. rewrite !lookup_delete, !lookup_insert. repeat case_decide; congruence.
Qed.

(** What a mapping that is made leaves. *)
Record mapping_made (this st en : Z) (phys : AssetRef) (w x : bool) (T : gmap Z AssetRef)
    (ref : AssetRef) (c : Z) (d : asset_data) (k k' : kernel) : Prop := mk_mapping_made {
  map_handle : T !! handle ref = None;
  map_fresh : heap k !! asset ref = None;
  map_this : exists s', open_space k' this s' (<[handle ref := ref]> T);
  map_object : heap k' !! asset ref = Some (mk_Asset false 2 (AssetMapping st en phys w x));
  map_phys : heap k' !! asset phys = Some (mk_Asset false (c + 1) d);
  map_rest : forall q, q <> this -> q <> asset ref -> q <> asset phys -> heap k' !! q = heap k !! q;
  map_nonnull : asset ref <> nullptr
}.

(** The end of [create_mapping] when the tables refuse the range. *)
Lemma runs_undo_mapping this ref st en phys w x n s T c d m k :
  heap k !! this = Some (mk_Asset false n (AssetSpace s)) -> space_rep s (<[handle ref := ref]> T) ->
  T !! handle ref = None -> heap k !! asset ref = Some (mk_Asset true 2 (AssetMapping st en phys w x)) ->
  heap k !! asset phys = Some (mk_Asset true (c + 1) d) -> 1 <= c -> c + 1 < 2 ^ 64 ->
  asset ref <> nullptr -> asset phys <> nullptr -> asset ref <> asset phys ->
  asset ref <> this -> asset phys <> this ->
  runs (unlock_asset (asset ref);; v ← _asset_remove this (handle ref); drop v;; unlock_ref phys;;
        drop ref;; mret (Error m)) k (fun (r : result AssetRef) k' =>
    k' = with_heap (fun _ => heap k') k /\ r = Error m /\ (exists s', open_space k' this s' T) /\
    heap k' !! asset ref = None /\ heap k' !! asset phys = Some (mk_Asset false c d) /\
    forall q, q <> this -> q <> asset ref -> q <> asset phys -> heap k' !! q = heap k !! q).
Proof.
  intros Hs HT Hfree Hq Hp Hc0 Hc1 Hnn Hpn Hqp Hqt Hpt. set (q := asset ref) in *.
  apply runs_bind. eapply runs_unlock; [exact Hq|done|]. cbn [ref_count content].
  set (k1 := with_heap _ k). apply runs_bind.
  eapply (runs_asset_remove this n s _ (handle ref) ref);
    [unfold k1; cbn [heap with_heap]; by rewrite lookup_insert_ne by done|exact HT|apply lookup_insert_eq|].
  intros s2 HT2 _. rewrite delete_insert_id in HT2 by done. set (k2 := with_heap _ k1).
  assert (heap k2 !! q = Some (mk_Asset false 2 (AssetMapping st en phys w x))) as Hq2.
  { unfold k2, k1. cbn [heap with_heap]. by rewrite lookup_insert_ne, lookup_insert_eq by done. }
  apply runs_bind. eapply runs_drop_one; [done|exact Hq2|done|]. cbn [lock ref_count content].
  fold q. set (k3 := with_heap _ k2). apply runs_bind. unfold unlock_ref.
  rewrite (proj2 (Z.eqb_neq _ _) Hpn). eapply (runs_unlock _ (mk_Asset true (c + 1) d)); [|done|].
  { unfold k3, k2, k1. cbn [heap with_heap]. by rewrite !lookup_insert_ne by done. }
  cbn [ref_count content]. set (k4 := with_heap _ k3). apply runs_bind.
  eapply (runs_drop_mapping ref st en phys w x (c + 1) d); fold q; [done|done|done| | |lia|].
  { unfold k4, k3. cbn [heap with_heap]. by rewrite lookup_insert_ne, lookup_insert_eq by done. }
  { unfold k4. cbn [heap with_heap]. by rewrite lookup_insert_eq. }
  apply runs_ret. split; [done|]. split; [done|]. unfold k4, k3, k2, k1. split; [|split; [|split]].
  - exists s2. split; [|exact HT2]. exists n. cbn [heap with_heap].
    by rewrite lookup_delete_ne, !lookup_insert_ne, lookup_insert_eq by done.
  - cbn [heap with_heap]. apply lookup_delete_eq.
  - cbn [heap with_heap]. rewrite lookup_delete_ne, lookup_insert_eq by done. repeat f_equal. lia.
  - intros y Hy1 Hy2 Hy3. cbn [heap with_heap]. by rewrite lookup_delete_ne, !lookup_insert_ne by done.
Qed.

Lemma runs_create_mapping this s T st en phys w x c size addr al res t' p' k :
  let d := AssetMemory size addr al in
  open_space k this s T -> 0 <= alloc_uid s -> alloc_uid s + 1 < 2 ^ 64 ->
  asset phys <> nullptr -> heap k !! asset phys = Some (mk_Asset false c d) -> 1 <= c -> c + 1 < 2 ^ 64 ->
  st < en -> st < kernel_virtual_base ->
  vmm_map (vmm_space s) (Range.mk_Range st en) (Range.mk_Range addr (u64 (size + addr))) (user_flags x w)
    (page_tables k) (pmm k) = Ret (res, t', p') ->
  runs (create_mapping this st en phys w x) k (fun r k' =>
    page_tables k' = t' /\ pmm k' = p' /\
    match res with
    | Value _ => exists ref, r = Value ref /\ mapping_made this st en phys w x T ref c d k k'
    | Error _ => r = Error "unable to map physical memory" /\
        (exists s', open_space k' this s' T) /\ forall q, q <> this -> heap k' !! q = heap k !! q
    end).
Proof.
  intros d [[n Hs] HT] Hu0 Hu1 Hpn Hp Hc0 Hc1 Hlt Hbase Hmap. unfold create_mapping.
  assert (asset phys <> this) as Hpt by (intros E; rewrite E, Hs in Hp; discriminate).
  unfold lock_ref. rewrite (proj2 (Z.eqb_neq _ _) Hpn). apply runs_bind. eapply runs_lock; [exact Hp|done|].
  cbn [ref_count content]. set (k1 := with_heap _ k). unfold ktry. apply runs_bind.
  unfold allocate_asset. cbn [fields for_each]. apply runs_bind, runs_bind.
  eapply (runs_own (asset phys)); [done|by heap_look|]. cbn [lock ref_count content]. set (k2 := with_heap _ k1).
  apply runs_ret, runs_bind, runs_new_asset. intros q Hnn Hfresh. set (k3 := with_heap _ k2).
  assert (q <> asset phys /\ q <> this) as [Hqp Hqt].
  { split; intros ->; revert Hfresh; unfold k2, k1; cbn [heap with_heap];
      rewrite ?lookup_insert_eq, ?lookup_insert_ne by done; congruence. }
  assert (heap k !! q = None) as Hfr.
  { revert Hfresh. unfold k2, k1. cbn [heap with_heap]. by rewrite !lookup_insert_ne by done. }
  eapply (runs_add_asset this q n s T 0 (AssetMapping st en phys w x)); try done; [by heap_look|by heap_look|].
  intros s' k4 HT4 Hu4 Hv4 Hh4 Hk4. cbn zeta. set (ref := mk_AssetRef q _ true true true).
  assert (heap k4 !! asset phys = Some (mk_Asset true (c + 1) d)) as Hp4.
  { rewrite Hh4, !lookup_insert_ne by done. unfold k3, k2. cbn [heap with_heap].
    rewrite lookup_insert_ne, lookup_insert_eq, wrapu_small by (done || lia). done. }
  assert (heap k4 !! this = Some (mk_Asset false n (AssetSpace s'))) as Hs4 by (by rewrite Hh4, lookup_insert_eq).
  assert (heap k4 !! q = Some (mk_Asset true 2 (AssetMapping st en phys w x))) as Hq4
    by (by rewrite Hh4, lookup_insert_ne, lookup_insert_eq by done).
  rewrite (proj2 (Z.leb_gt _ _)) by lia. apply runs_bind, runs_bind. eapply runs_get_content; [exact Hp4|].
  apply runs_ret. cbn [content kind d]. rewrite decide_False by (intros []; done).
  rewrite (proj2 (Z.leb_gt _ _)) by lia. apply runs_bind. eapply runs_get_space; [exact Hs4|].
  apply runs_bind. eapply runs_get_content; [exact Hp4|]. cbn [content].
  apply runs_bind. eapply runs_on_tables; [rewrite Hv4, Hk4; exact Hmap|].
  set (k5 := with_pmm p' (with_page_tables t' k4)).
  assert (heap k5 = heap k4) as H5 by done. destruct res as [[]|e]; cbn [is_error].
  - apply runs_bind. eapply runs_unlock; [rewrite H5; exact Hq4|done|]. cbn [ref_count content asset].
    set (k6 := with_heap _ k5). apply runs_bind. unfold unlock_ref. rewrite (proj2 (Z.eqb_neq _ _) Hpn).
    eapply runs_unlock; [unfold k6; cbn [heap with_heap]; rewrite lookup_insert_ne by done; exact Hp4|done|].
    cbn [ref_count content]. apply runs_ret. split; [done|]. split; [done|]. exists ref. split; [done|].
    refine (mk_mapping_made this st en phys w x T ref c d k _ (proj2 (rep_next s T HT)) _ _ _ _ _ Hnn);
      unfold k6; cbn [heap with_heap]; rewrite ?H5; change (asset ref) with q.
    + exact Hfr.
    + exists s'. split; [|exact HT4]. exists n. cbn [heap with_heap]. rewrite !lookup_insert_ne by done. exact Hs4.
    + by rewrite lookup_insert_ne, lookup_insert_eq by done.
    + by rewrite lookup_insert_eq.
    + intros y Hy1 Hy2 Hy3. rewrite !lookup_insert_ne, Hh4, !lookup_insert_ne by done.
      unfold k3, k2, k1. cbn [heap with_heap]. by rewrite !lookup_insert_ne by done.
  - eapply runs_impl; [eapply (runs_undo_mapping this ref st en phys w x n s' T c d); try done|].
    { apply (rep_next s T HT). }
    intros r k' (Hk' & -> & Hsp & Hr' & Hp' & Hrest). change (asset ref) with q in *.
    split; [by rewrite Hk'|]. split; [by rewrite Hk'|]. split; [done|]. split; [done|]. intros y Hy.
    destruct (decide (y = q)) as [->|]; [by rewrite Hr', Hfr|].
    destruct (decide (y = asset phys)) as [->|]; [by rewrite Hp', Hp|].
    rewrite Hrest, H5, Hh4 by done. unfold k3, k2, k1. cbn [heap with_heap].
    by rewrite !lookup_insert_ne by congruence.
Qed.
End mapping.

Lemma in_range_at kr self st en va :
  VmmSpaceSpec.user_range (Range.mk_Range st en) -> st <= va < en ->
  VmmSpaceSpec.in_range kr self (Range.mk_Range st en) self va.
Proof.
  intros (H1 & H2 & H3) Hva. cbn [Range.start Range.end_] in *. split; [apply PagingSpec.home_of_user; lia|].
  assert (PagingSpec.user_top < 2 ^ 48) as Ht by reflexivity. cbn [Range.start Range.end_].
  assert (PagingSpec.page_of va = va / 4096) as ->.
  { unfold PagingSpec.page_of. apply Z.mod_small. split; [apply Z.div_pos; lia|].
    apply Z.div_lt_upper_bound; lia. }
  clear H2 Ht. Z.to_euclidean_division_equations. lia.
Qed.

Section machine.
Context (debug : bool) (words : list Z) (words_length : length words = buffer_words)
  (tasks : bool * Z) (flags : Paging.PageFlags) (base : Z).

#[local] Instance cpu : Machine := x86_machine debug words words_length tasks flags base.

(** The page tables of the kernel and the allocator they come from. *)
Definition kernel_mem (k : kernel) : Paging.mem := Paging.mk_mem (x86_pages (page_tables k)) (pmm k).

Lemma seen_kernel_mem k : exists p, seen (page_tables k) = Paging.set_pmm (kernel_mem k) p.
Proof. by eexists. Qed.

(** ** The arguments of a call *)

Lemma ungranted_refused kr roles (k : kernel) syscall caller v t x :
  PagingSpec.mem_wf kr roles (kernel_mem k) -> task_tables k caller v -> PagingSpec.is_root roles v -> v <> kr ->
  call_args (id syscall) = Some t -> 0 <= arg1 syscall -> arg1 syscall + args_size t + 8192 <= PagingSpec.user_top ->
  arg1 syscall / 4096 * 4096 <= x < arg1 syscall / 4096 * 4096 + (args_size t + 4095) / 4096 * 4096 ->
  PagingRanges.granted (PagingSpec.leaf (kernel_mem k) v x) = None ->
  refused_call k syscall caller.
Proof.
  intros Hwf Hv Hr Hk Ht H0 H1 Hx Hg. unfold refused_call. rewrite Ht. right. right. right.
  assert (0 <= args_size t) by (destruct t; discriminate).
  destruct (VmmSpaceSpec.verify_spec kr roles (kernel_mem k) v (arg1 syscall) (args_size t) Hwf Hr Hk H0)
    as (res & E & Hres); [done..|].
  destruct res as [[]|e].
  - destruct (proj1 Hres eq_refl x Hx) as [q Hq]. congruence.
  - exists v, e. split; [exact Hv|]. cbn. destruct (seen_kernel_mem k) as [p ->].
    rewrite verify_set_pmm. exact E.
Qed.

(** over the page tables of the processor, a system call whose argument
    structure has a page, of those its size takes up counted from the page it
    starts in, that the caller may not write is refused: it returns an error and
    nothing has changed. *)
Theorem unmapped_arguments_refused kr roles (k : kernel) setup port_in user syscall caller sch v t x :
  PagingSpec.mem_wf kr roles (kernel_mem k) -> task_tables k caller v -> PagingSpec.is_root roles v -> v <> kr ->
  call_args (id syscall) = Some t -> 0 <= arg1 syscall -> arg1 syscall + args_size t + 8192 <= PagingSpec.user_top ->
  arg1 syscall / 4096 * 4096 <= x < arg1 syscall / 4096 * 4096 + (args_size t + 4095) / 4096 * 4096 ->
  PagingRanges.granted (PagingSpec.leaf (kernel_mem k) v x) = None ->
  exists e, syscall_handle setup port_in user syscall caller sch k =
    Ret ((Returned (Error e) None [], sch), k).
Proof. intros. apply refused_call_spec. by eapply ungranted_refused. Qed.

(** ** Mapping *)

Lemma with_mem_map v r q f (k : kernel) res m' :
  Paging.map v r q f (kernel_mem k) = Ret (res, m') ->
  vmm_map v r q f (page_tables k) (pmm k) =
    Ret (res, mk_x86_tables (Paging.tables m') (x86_kernel (page_tables k)), Paging.pmm m').
Proof. intros E. cbn. unfold with_mem. unfold kernel_mem in E. by rewrite E. Qed.

(** The address in a page that was mapped. *)
Lemma mapped_address f phys st va :
  0 <= st -> st mod 4096 = 0 -> st <= va < PagingSpec.user_top -> 0 <= phys -> phys mod 4096 = 0 ->
  phys + (va - st) < 2 ^ 64 ->
  u64 (Paging.address (Paging.page_create f (u64 (phys + (4096 * PagingSpec.page_of va - st)))) + va mod 4096) =
  phys + (va - st).
Proof.
  intros H0 Ha Hva Hp Hpa Hlt. assert (PagingSpec.user_top < 2 ^ 48) as Ht by reflexivity.
  assert (PagingSpec.page_of va = va / 4096) as ->.
  { unfold PagingSpec.page_of. apply Z.mod_small. split; [apply Z.div_pos; lia|].
    apply Z.div_lt_upper_bound; lia. }
  pose proof (Z.div_mod va 4096 ltac:(lia)). pose proof (Z.mod_pos_bound va 4096 ltac:(lia)).
  assert (st <= 4096 * (va / 4096)).
  { apply Z.mod_divide in Ha as [z ->]; [|lia]. assert (z <= va / 4096); [|lia].
    apply Z.div_le_lower_bound; lia. }
  rewrite (wrapu_small 64 (phys + _)) by lia. unfold Paging.page_create.
  rewrite PagingSpec.address_set_address; [|..|lia]; [rewrite wrapu_small; lia|].
  apply Z.mod_divide in Ha as [z ->]; [|lia]. apply Z.mod_divide in Hpa as [y ->]; [|lia].
  exists (y + (va / 4096 - z)). lia.
Qed.

Lemma held_counted (k : kernel) B held p a :
  kinv B held k -> p ∈ held -> heap k !! p = Some a -> 1 <= ref_count a /\ ref_count a + B < 2 ^ 64.
Proof.
  intros Hk Hin Ha. destruct (kinv_obj _ _ _ Hk p a Ha) as (_ & ? & _).
  assert (p <> nullptr) as Hn by (intros ->; by rewrite (kinv_null _ _ _ Hk) in Ha).
  pose proof (zcount_in p held Hin). pose proof (refs_nonneg k p).
  destruct (kinv_refs _ _ _ Hk p Hn) as (a' & Ha' & ?); [lia|].
  assert (a' = a) as -> by congruence. lia.
Qed.

Lemma translate_leaf v (k : kernel) va :
  translate v (page_tables k) va =
    (p ← PagingSpec.leaf (kernel_mem k) v va; Some (u64 (Paging.address p + va mod 4096))).
Proof. by rewrite <- (leaf_set_pmm v va (kernel_mem k) (Paging.pmm (seen (page_tables k)))). Qed.

End machine.

(** ** A kernel with page tables *)

Definition sample_words : list Z := replicate buffer_words 0.
Definition sample_flags : Paging.PageFlags := Paging.mk_PageFlags false false false false false false.
Definition sample_cpu : Machine :=
  x86_machine false sample_words (length_replicate buffer_words 0) (false, 0) sample_flags (2 ^ 47).

(** The kernel with its own address space, before its first object. *)
Definition cpu_boot : @kernel sample_cpu :=
  @mk_kernel sample_cpu ∅ [] 1 [] 1 [] 1 UMap.empty UMap.empty 1 (Paging.pmm VmmSpaceSpec.kernel_space)
    (mk_x86_tables (Paging.tables VmmSpaceSpec.kernel_space) 32768) ∅.

Lemma cpu_boot_booted : booted cpu_boot.
Proof.
  split; try reflexivity; [exact (PagingSpec.wf_pmm _ _ _ VmmSpaceSpec.kernel_space_wf)|].
  apply map_Forall_empty.
Qed.

(** The root space, two pages at 1 MiB in it, and a task. *)
Definition cpu_ops : list op :=
  [OpCreateRoot; OpCreateMemory 1 8192 0x100000 false;
   OpCreateTask 1 false (Value tt) (Value tt) (Range.mk_Range 0 0)].

Definition cpu_kernel : @kernel sample_cpu :=
  match run cpu_ops [] cpu_boot with Ret (_, k) => k | _ => cpu_boot end.

Lemma cpu_kernel_kinv : kinv 1000 [3; 2; 1] cpu_kernel.
Proof.
  unfold cpu_kernel. apply (run_kinv cpu_boot cpu_ops _ _ cpu_boot_booted);
    [repeat (constructor; [done|]); constructor|done|].
  assert ((match run cpu_ops [] cpu_boot with Ret (h, _) => Some h | _ => None end) = Some [3; 2; 1])
    as H by (vm_compute; reflexivity).
  destruct (run cpu_ops [] cpu_boot) as [[h k]| |]; [|discriminate H..]. by injection H as ->.
Qed.

Abbreviation sample_mem :=
  (kernel_mem false sample_words (length_replicate buffer_words 0) (false, 0) sample_flags (2 ^ 47)).

Lemma cpu_kernel_mem : sample_mem cpu_kernel = VmmSpaceSpec.one_space.
Proof. vm_compute. reflexivity. Qed.

Lemma cpu_kernel_wf :
  PagingSpec.mem_wf 32768 VmmSpaceSpec.one_roles (sample_mem cpu_kernel) /\
  PagingSpec.is_root VmmSpaceSpec.one_roles 36864.
Proof. rewrite cpu_kernel_mem. exact VmmSpaceSpec.one_space_wf. Qed.

Lemma cpu_kernel_space : exists s T, open_space cpu_kernel 1 s T /\ vmm_space s = 36864.
Proof.
  destruct (heap cpu_kernel !! 1) as [[[] n [| |s| | | | | | | |]]|] eqn:E;
    try (exfalso; vm_compute in E; discriminate E).
  destruct (open_space_found 1000 [3; 2; 1] cpu_kernel 1 n s cpu_kernel_kinv E) as (T & HT & _).
  exists s, T. split; [exact HT|]. vm_compute in E. by injection E as <- <-.
Qed.

Definition cpu_memory : AssetRef := mk_AssetRef 2 17 true true true.


Lemma cpu_task_tables : task_tables cpu_kernel 3 36864.
Proof.
  destruct (heap cpu_kernel !! 3) as [[b n [| | |t| | | | | | |]]|] eqn:Et;
    try (exfalso; vm_compute in Et; discriminate Et).
  assert (_space_owner t = 1) as Ht by (vm_compute in Et; by injection Et as _ _ <-).
  destruct cpu_kernel_space as (s & T & [[n' Hs] _] & Hv).
  exists b, n, t, false, n', s. rewrite Ht. by split; [|split].
Qed.

(** Nothing is mapped: no pointer is accepted. *)
Lemma unmapped_arguments_refused_witness :
  exists e, syscall_handle no_task_setup (fun _ _ => 0) (sample_args 18) (syscall_map_encode 0x400000) 3
    no_scheduler cpu_kernel = Ret ((Returned (Error e) None [], no_scheduler), cpu_kernel).
Proof.
  destruct cpu_kernel_wf as [Hwf Hr].
  apply (unmapped_arguments_refused false sample_words (length_replicate buffer_words 0) (false, 0) sample_flags
    (2 ^ 47) 32768 VmmSpaceSpec.one_roles cpu_kernel no_task_setup (fun _ _ => 0) (sample_args 18)
    (syscall_map_encode 0x400000) 3 no_scheduler 36864 ArgsMap 0x400000 Hwf cpu_task_tables Hr).
  - discriminate.
  - reflexivity.
  - discriminate.
  - discriminate.
  - split; [discriminate|reflexivity].
  - rewrite cpu_kernel_mem. vm_compute. reflexivity.
Defined.
