(* ===== verification/Execute.v ===== *)
(** kernel/generic/execute.cpp: the kernel loads a module of the boot loader and
    starts its task, over the memory of CMem.v (by virtual address: the direct
    mapping of the physical pages and the modules), the kernel core and the
    scheduler.

    [mem_asset_ptr] is a copy of the reference in [mem_asset_res] and lives as
    long; one reference stands for both. Some of the error returns read the error
    of a result that holds a value: what the message then is is not known, and is
    [unknown_message]. *)

From stdpp Require Import gmap.
From S2P Require Import Prelude Range.
From S2P Require Import CMem LibcString Elf.
From S2P Require Paging Pmm Scheduler.
From S2P Require Import IpcTypes KObject Space SyscallTypes Syscalls.

(** sizeof of StartupInfo and of MachineContext *)
Definition sizeof_StartupInfo : Z := 10864.
Definition sizeof_MachineContext : Z := 10808.

Definition unknown_message : string := "?".

Section execute.
Context `{M : Machine}.

(** [memset(dst, 0, zeroed)], then [memcpy(dst, src, n)], at any addresses: nothing
    keeps [n] within the object at [dst], and a longer copy writes the bytes of the
    pages that come after it (segment_loaded). The bytes of memory are apart from the
    objects of the kernel, which have no addresses in the direct map here: what such a
    copy would do to an object or a page table in those pages is not modelled. *)
Definition copy_in (dst zeroed src n : Z) (m : mem) : ctl mem :=
  '(_, m) ← memset dst 0 zeroed m; '(_, m) ← memcpy dst src n m; Ret m.

(** A memory object of [size] bytes with [n] bytes from [src] in it, mapped in the
    range [range] computes from its address, which is the result. *)
Definition load_copy (root size zeroed src n : Z) (range : Z -> Range) (executable : bool) (m : mem) :
    K (result Z * mem) :=
  mem_asset_res ← create_memory root size 0 false;
  match mem_asset_res with
  | Error e => mret (Error e, m)
  | Value ref =>
      d ← get_content (asset ref);
      let addr := match d with AssetMemory _ addr _ => addr | _ => 0 end in
      m ← lift (copy_in (Paging.toVirt addr) zeroed src n m);
      res ← create_mapping root (start (range addr)) (end_ (range addr)) ref true executable;
      match res with
      | Error _ => drop ref;; mret (Error unknown_message, m)
      | Value mapping => drop mapping;; drop ref;; mret (Value addr, m)
      end
  end.

(** The machine context, at its physical address; without one, a null pointer. *)
Definition load_context (root : Z) (context : option Z) (m : mem) : K (result Z * mem) :=
  match context with
  | None => mret (Value 0, m)
  | Some context =>
      load_copy root (alignUp sizeof_StartupInfo 4096) sizeof_StartupInfo context sizeof_MachineContext
        (fun addr => mk_Range addr (alignUp (u64 (addr + sizeof_StartupInfo)) 4096)) false m
  end.

Definition load_segment (root : Z) (loaded : ElfLoader) (ph : Elf64ProgramHeader) (m : mem) : K (result unit * mem) :=
  if negb (ph_type ph =? HEADER_LOAD) then mret (Value tt, m)
  else
    let page_count := alignUp (mem_size ph) 4096 / 4096 in
    let size := u64 (page_count * 4096) in
    if page_count =? 0 then mret (Value tt, m)
    else
      '(r, m) ← load_copy root size (mem_size ph) (u64 (start (_range loaded) + file_offset ph)) (file_size ph)
        (fun _ => mk_Range (virt_addr ph) (u64 (virt_addr ph + size))) true m;
      mret (match r with Value _ => Value tt | Error e => Error e end, m).

(** [for (size_t i = 0; i < program_count; i++)], with [n] turns left. *)
Fixpoint segments_loop (n : nat) (i root : Z) (loaded : ElfLoader) (m : mem) : K (result unit * mem) :=
  match n with
  | O => mret (Value tt, m)
  | S n =>
      ph ← lift (program_header m loaded i);
      match ph with
      | Error e => mret (Error e, m)
      | Value ph =>
          '(r, m) ← load_segment root loaded ph m;
          match r with
          | Error e => mret (Error e, m)
          | Value _ => segments_loop n (i + 1) root loaded m
          end
      end
  end.

Definition start_module_execution (setup : task_setup) (loaded : ElfLoader) (ctx : option Z) (m : mem)
    (sch : Scheduler.scheduler) : K (result unit * mem * Scheduler.scheduler) :=
  ptr ← create_root;
  let root_space := asset ptr in
  '(context_mapped, m) ← load_context root_space ctx m;
  match context_mapped with
  | Error e => drop ptr;; mret (Error e, m, sch)
  | Value _ =>
      task_asset_res ← create_task root_space true (context setup) (prepared setup) (stack setup);
      match task_asset_res with
      | Error e => drop ptr;; mret (Error e, m, sch)
      | Value task =>
          '(r, m) ← segments_loop (Z.to_nat (program_count loaded)) 0 root_space loaded m;
          match r with
          | Error e => drop task;; drop ptr;; mret (Error e, m, sch)
          | Value _ =>
              t ← get_task (asset task);
              '(r, sch) ← lift (Scheduler.task_run (_uid t) sch);
              drop task;; drop ptr;; mret (r, m, sch)
          end
      end
  end.
End execute.

(** Loading a module: it ends and keeps the references sound whatever the file
    holds, and puts the contents of a segment in the pages of its memory object. *)

From S2P Require Import LibcStringSpec.
From S2P Require Ring.
From S2P Require Import IpcRegistry.
From S2P Require Import Sample KObjectSpec SpaceSpec SpaceCreateSpec KernelSafety KernelRuns SpaceMoves.
From S2P Require Import MemoryObjects SyscallsSpec SyscallRuns MachineSpec.

(** * Copies end *)

Lemma load_ends m a : load m a <> NoFuel.
Proof. unfold load. by destruct (m !! a). Qed.

Lemma set_loop_ends n : forall p c m, set_loop n p c m <> NoFuel.
Proof.
  induction n as [|n IH]; intros p c m; simpl; [done|].
  unfold store. destruct (m !! p); simpl; [apply IH|done].
Qed.

Lemma copy_up_ends n : forall d s m, copy_up n d s m <> NoFuel.
Proof.
  induction n as [|n IH]; intros d s m; simpl; [done|].
  unfold load, store. destruct (m !! s); simpl; [|done]. destruct (m !! d); simpl; [apply IH|done].
Qed.

Lemma copy_in_ends d z s n m : copy_in d z s n m <> NoFuel.
Proof.
  unfold copy_in, memset, memcpy. pose proof (set_loop_ends (Z.to_nat z) d 0 m).
  destruct (set_loop _ _ _ _) as [m1| |]; simpl; [|done..].
  pose proof (copy_up_ends (Z.to_nat n) d s m1). by destruct (copy_up _ _ _ _).
Qed.

Lemma read_int_ends m n : forall a, read_int m a n <> NoFuel.
Proof.
  induction n as [|n IH]; intros a; simpl; [done|]. unfold load. destruct (m !! a); simpl; [|done].
  pose proof (IH (u64 (a + 1))). by destruct (read_int _ _ _).
Qed.

Lemma bind_ends {A B} (c : ctl A) (f : A -> ctl B) : c <> NoFuel -> (forall a, f a <> NoFuel) -> c ≫= f <> NoFuel.
Proof. destruct c; simpl; auto. Qed.

Lemma program_header_ends m l i : program_header m l i <> NoFuel.
Proof.
  unfold program_header. destruct (_ <=? i); [done|]. unfold read_program_header.
  repeat (apply bind_ends; [apply read_int_ends|intros]); try done.
  apply bind_ends; [|done]. repeat (apply bind_ends; [apply read_int_ends|intros]); done.
Qed.

(** * References *)

Section execute.
Context `{M : Machine}.

Lemma wp_ctl {A} (c : ctl A) k (Q : A -> kernel -> Prop) :
  c <> NoFuel -> (forall a, Q a k) -> KObjectSpec.wp (lift c) k Q.
Proof. intros Hc HQ. apply wp_lift. destruct c; simpl; auto. Qed.

Definition copy_cost : Z := 40.

Lemma load_copy_keeps B held root size z src n range x m k (Q : result Z * mem -> kernel -> Prop) :
  copy_cost <= B -> kinv B held k ->
  (forall r k', kinv (B - copy_cost) held k' -> Q r k') ->
  KObjectSpec.wp (load_copy root size z src n range x m) k Q.
Proof.
  unfold copy_cost. intros HB Hk HQ. unfold load_copy.
  repeat first [progress sys_step
    | match goal with |- KObjectSpec.wp (lift (copy_in _ _ _ _ _)) _ _ => apply wp_ctl; [apply copy_in_ends|intros] end];
    apply HQ; kfin.
Qed.

Lemma load_context_keeps B held root c m k (Q : result Z * mem -> kernel -> Prop) :
  copy_cost <= B -> kinv B held k ->
  (forall r k', kinv (B - copy_cost) held k' -> Q r k') ->
  KObjectSpec.wp (load_context root c m) k Q.
Proof.
  intros HB Hk HQ. destruct c as [c|]; [by eapply load_copy_keeps|].
  unfold copy_cost in *. apply KObjectSpec.wp_ret, HQ. kfin.
Qed.

Lemma load_segment_keeps B held root l ph m k (Q : result unit * mem -> kernel -> Prop) :
  copy_cost <= B -> kinv B held k ->
  (forall r k', kinv (B - copy_cost) held k' -> Q r k') ->
  KObjectSpec.wp (load_segment root l ph m) k Q.
Proof.
  intros HB Hk HQ. unfold load_segment.
  assert (H0 : forall r, Q r k) by (intros; apply HQ; unfold copy_cost in *; kfin).
  destruct (negb _); [by apply KObjectSpec.wp_ret|]. cbv zeta.
  destruct (_ =? 0); [by apply KObjectSpec.wp_ret|].
  apply KObjectSpec.wp_bind. eapply load_copy_keeps; [exact HB|exact Hk|]. intros [r m'] k' Hk'.
  apply KObjectSpec.wp_ret. by apply HQ.
Qed.

Lemma segments_loop_keeps n : forall B held i root l m k (Q : result unit * mem -> kernel -> Prop),
  copy_cost * Z.of_nat n <= B -> kinv B held k ->
  (forall r k', kinv (B - copy_cost * Z.of_nat n) held k' -> Q r k') ->
  KObjectSpec.wp (segments_loop n i root l m) k Q.
Proof.
  induction n as [|n IH]; intros B held i root l m k Q HB Hk HQ; cbn [segments_loop].
  { apply KObjectSpec.wp_ret, HQ. kfin. }
  assert (Hstop : forall r k', kinv (B - copy_cost) held k' -> Q r k') by (intros; apply HQ; unfold copy_cost in *; kfin).
  apply KObjectSpec.wp_bind, wp_ctl; [apply program_header_ends|]. intros [ph|e].
  2: { apply KObjectSpec.wp_ret, HQ. unfold copy_cost in *. kfin. }
  apply KObjectSpec.wp_bind. eapply load_segment_keeps; [|exact Hk|]; [unfold copy_cost in *; lia|].
  intros [[u|e] m'] k' Hk'; [|by apply KObjectSpec.wp_ret, Hstop].
  eapply IH; [|exact Hk'|]; [unfold copy_cost in *; lia|]. intros r k2 Hk2. apply HQ.
  unfold copy_cost in *. kfin.
Qed.

(** The references and handles that loading a file makes, at most. *)
Definition exec_cost (l : ElfLoader) : Z := 100 + copy_cost * Z.of_nat (Z.to_nat (program_count l)).
End execute.

(** * What is loaded *)

Lemma copy_in_spec dst z src n m :
  0 <= n -> 0 <= z -> mem_ok m -> mapped m dst (Z.max n z) -> mapped m src n ->
  (src + n <= dst \/ dst + Z.max n z <= src) ->
  exists m', copy_in dst z src n m = Ret m' /\
    forall x, m' !! x = if decide (dst <= x < dst + n) then m !! (src + (x - dst))
                        else if decide (dst <= x < dst + z) then Some 0 else m !! x.
Proof.
  intros Hn Hz Hm Hd Hs Hdis. unfold copy_in, memset, memcpy.
  destruct (set_loop_spec (Z.to_nat z) dst 0 m) as (m1 & -> & H1).
  { intros x Hx. apply Hd. lia. }
  simpl. rewrite Z2Nat.id in H1 by lia. change (u8 0) with 0 in H1.
  assert (Hm1 : mem_ok m1).
  { intros x b Hx. rewrite H1 in Hx. case_decide; [injection Hx as <-; lia|by eapply Hm]. }
  destruct (copy_up_spec (Z.to_nat n) dst src m1 Hm1) as (m2 & -> & _ & H2).
  - intros x Hx. rewrite H1. rewrite decide_False by lia. apply Hs. lia.
  - intros x Hx. rewrite H1. case_decide; [by eexists|]. apply Hd. lia.
  - lia.
  - exists m2. split; [done|]. intros x. rewrite H2, Z2Nat.id by lia.
    destruct (decide (dst <= x < dst + n)); [|by rewrite H1].
    rewrite H1. by rewrite decide_False by lia.
Qed.

Section loaded.
Context `{M : Machine}.

(** [load_copy] has made a memory object of [size] bytes at [a] and mapped it from
    [st] to [en] in the space [this], whose handles were [T]; the two objects are
    kept by their handles, and the memory by the mapping. *)
Record copy_loaded (this : Z) (T : gmap Z AssetRef) (size a st en : Z) (x : bool) (ptr ref : AssetRef)
    (k k' : kernel) : Prop := mk_copy_loaded {
  cl_fresh : heap k !! asset ptr = None /\ heap k !! asset ref = None;
  cl_handles : T !! handle ptr = None /\ <[handle ptr := ptr]> T !! handle ref = None;
  cl_this : exists s', open_space k' this s' (<[handle ref := ref]> (<[handle ptr := ptr]> T));
  cl_memory : heap k' !! asset ptr = Some (mk_Asset false 2 (AssetMemory size a true));
  cl_mapping : heap k' !! asset ref = Some (mk_Asset false 1 (AssetMapping st en ptr true x));
  cl_rest : forall q, q <> this -> q <> asset ptr -> q <> asset ref -> heap k' !! q = heap k !! q
}.

Lemma runs_load_copy this s T size z src n range x mem mem' a p' t' p'' k :
  let R := range a in
  open_space k this s T -> 0 <= alloc_uid s -> alloc_uid s + 2 < 2 ^ 64 -> 0 < size -> 0 < a ->
  Pmm.allocate (pmm k) (from_bytes_ceil size) false = Ret (Value a, p') ->
  copy_in (Paging.toVirt a) z src n mem = Ret mem' ->
  start R < end_ R -> start R < kernel_virtual_base ->
  vmm_map (vmm_space s) (mk_Range (start R) (end_ R)) (mk_Range a (u64 (size + a))) (user_flags x true)
    (page_tables k) p' = Ret (Value tt, t', p'') ->
  runs (load_copy this size z src n range x mem) k (fun r k' =>
    r = (Value a, mem') /\ page_tables k' = t' /\ pmm k' = p'' /\
    exists ptr ref, copy_loaded this T size a (start R) (end_ R) x ptr ref k k').
Proof.
  intros R Hs Hu0 Hu1 Hsz Ha Hp Hcopy Hlt Hbase Hmap. unfold load_copy. apply runs_bind.
  eapply runs_impl; [apply (runs_create_memory this s T size false a p' k Hs); done || lia|].
  intros res k1 (ptr & -> & Hm). destruct Hm as [Hnn Hne Hfresh Hh (n1 & s1 & Hs1 & HT1 & Hu & Hv) Hobj Hrest Hpm Htab].
  apply runs_bind. eapply runs_get_content; [exact Hobj|]. cbv beta iota zeta. cbn [content].
  apply runs_bind. eapply runs_lift; [exact Hcopy|]. apply runs_bind. fold R.
  eapply runs_impl.
  { apply (runs_create_mapping this s1 (<[handle ptr := ptr]> T) (start R) (end_ R) ptr true x 2 size a true
      (Value tt) t' p'' k1); try done; try lia; [by split; [exists n1|]|]. by rewrite Hv, Htab, Hpm. }
  intros r k2 (Ht & Hpm2 & ref & -> & [Mh Mf (s2 & (n2 & Hs2) & HT2) Mo Mp Mr Hrn]).
  assert (Hrp : asset ref <> asset ptr) by congruence.
  assert (Hrt : asset ref <> this) by congruence.
  apply runs_bind. eapply runs_drop_one; [done|exact Mo|done|]. cbn [lock ref_count content]. set (k3 := with_heap _ k2).
  apply runs_bind. eapply runs_drop_one; [done|unfold k3; cbn [heap with_heap]; by rewrite lookup_insert_ne by done|done|].
  cbn [lock ref_count content]. apply runs_ret. split; [done|]. split; [done|]. split; [done|]. exists ptr, ref.
  split; unfold k3; cbn [heap with_heap].
  - split; [done|]. by rewrite <- Hrest by done.
  - done.
  - exists s2. split; [|done]. exists n2. cbn [heap with_heap]. by rewrite !lookup_insert_ne by done.
  - apply lookup_insert_eq.
  - by rewrite lookup_insert_ne, lookup_insert_eq by done.
  - intros q H1 H2 H3. rewrite !lookup_insert_ne by done. by rewrite Mr, Hrest.
Qed.
(** The bytes of the pages of a segment. *)
Definition segment_bytes (n : Z) : Z := (n + 4095) / 4096 * 4096.

Lemma segment_sizes n :
  0 < n < 2 ^ 62 ->
  alignUp n 4096 = segment_bytes n /\ n <= segment_bytes n < n + 4096 /\
  segment_bytes n / 4096 * 4096 = segment_bytes n /\ from_bytes_ceil (segment_bytes n) = segment_bytes n / 4096.
Proof.
  intros Hn. change 4096 with (2 ^ 12) at 1. rewrite alignUp_pow2 by lia. change (2 ^ 12) with 4096.
  assert (H : n <= segment_bytes n < n + 4096).
  { unfold segment_bytes. pose proof (Z.div_mod (n + 4095) 4096). pose proof (Z.mod_pos_bound (n + 4095) 4096). lia. }
  assert (H4 : segment_bytes n / 4096 * 4096 = segment_bytes n) by (unfold segment_bytes; by rewrite Z.div_mul).
  split_and!; try lia; [unfold segment_bytes; do 2 f_equal; lia|].
  rewrite from_bytes_ceil_eq by lia. rewrite <- H4. rewrite Z.div_mul by lia.
  symmetry. apply (Z.div_unique _ _ _ 4095); lia.
Qed.
End loaded.

(** C5: A segment of the file is in memory as the file has it. When pages and the
    mapping can be had, [load_segment] fills a fresh memory object, with the first
    [file_size] bytes of it those of the file at the offset of the segment and the
    others up to [mem_size] zero, and maps it at the address of the segment, for as
    long as the space keeps the two handles. Nothing else in memory changes when
    [file_size] is at most [mem_size]; the two are not compared, and a greater
    [file_size] writes the file over what comes after the pages of the object. *)
Theorem segment_loaded `{M : Machine} B held this s T l ph m a p' t' p'' k :
  let src := start (_range l) + file_offset ph in
  let dst := Paging.toVirt a in
  let size := segment_bytes (mem_size ph) in
  kinv B held k -> 2 <= B -> open_space k this s T ->
  ph_type ph = HEADER_LOAD -> 0 < mem_size ph < 2 ^ 62 -> 0 <= file_size ph -> 0 <= src < 2 ^ 64 ->
  0 <= virt_addr ph -> virt_addr ph + size < 2 ^ 64 -> virt_addr ph < kernel_virtual_base ->
  Pmm.allocate (pmm k) (size / 4096) false = Ret (Value a, p') -> 0 < a ->
  vmm_map (vmm_space s) (mk_Range (virt_addr ph) (virt_addr ph + size)) (mk_Range a (u64 (size + a)))
    (user_flags true true) (page_tables k) p' = Ret (Value tt, t', p'') ->
  mem_ok m -> mapped m dst (Z.max (file_size ph) (mem_size ph)) -> mapped m src (file_size ph) ->
  src + file_size ph <= dst \/ dst + Z.max (file_size ph) (mem_size ph) <= src ->
  exists m' k' ptr ref,
    load_segment this l ph m k = Ret ((Value tt, m'), k') /\
    (forall i, 0 <= i < file_size ph -> m' !! (dst + i) = m !! (src + i)) /\
    (forall i, file_size ph <= i < mem_size ph -> m' !! (dst + i) = Some 0) /\
    (forall x, ~ dst <= x < dst + Z.max (file_size ph) (mem_size ph) -> m' !! x = m !! x) /\
    copy_loaded this T size a (virt_addr ph) (virt_addr ph + size) true ptr ref k k' /\
    page_tables k' = t'.
Proof.
  intros src dst size Hk HB Hs Hty Hms Hfs Hsrc Hva Hvs Hbase Hp Ha Hmap Hm Hd Hsm Hdis.
  destruct (open_uid _ _ _ _ _ _ Hk Hs) as [Hu0 Hu1].
  destruct (segment_sizes (mem_size ph) Hms) as (E1 & E2 & E3 & E4). fold size in E1, E2, E3, E4.
  destruct (copy_in_spec dst (mem_size ph) src (file_size ph) m) as (m' & Hc & Hm'); try done; [lia|].
  rewrite <- E4 in Hp.
  unfold load_segment. rewrite Hty, E1. cbn [Z.eqb Pos.eqb negb HEADER_LOAD]. cbv zeta. rewrite E3.
  rewrite (proj2 (Z.eqb_neq (size / 4096) 0)) by (intros E; rewrite E in E3; lia).
  fold src. rewrite (wrapu_small 64 size), (wrapu_small 64 src), (wrapu_small 64 (virt_addr ph + size)) by lia.
  set (range := fun _ : Z => mk_Range (virt_addr ph) (virt_addr ph + size)).
  assert (R : runs (load_copy this size (mem_size ph) src (file_size ph) range true m) k (fun r k' =>
    r = (Value a, m') /\ page_tables k' = t' /\ pmm k' = p'' /\
    exists ptr ref, copy_loaded this T size a (virt_addr ph) (virt_addr ph + size) true ptr ref k k')).
  { apply (runs_load_copy this s T size _ _ _ range true m m' a p' t' p'' k); try done; simpl; lia. }
  apply runs_iff in R as ([r m1] & k' & E & Er & Ht & _ & ptr & ref & Hl). injection Er as -> ->.
  exists m', k', ptr, ref. rewrite K_bind_eq, E. split; [done|]. split_and!; try done; intros i Hi; rewrite Hm'.
  - rewrite decide_True by lia. f_equal. lia.
  - rewrite decide_False, decide_True by lia. done.
  - rewrite !decide_False by lia. done.
Qed.

(** Loading a module keeps the references sound, on every path of its calls: from a
    kernel whose references are sound, [start_module_execution] does not loop, and
    whichever way it returns, with a task started or with an error in the middle,
    the count of every object is at least the references there are to it, and it
    has left none of the references on its stack uncounted for. This is of the calls
    of the loader, not of the bytes it copies: a segment with more bytes in the file
    than in memory is copied past its object (segment_loaded). *)
Theorem module_start_sound `{M : Machine} setup l ctx m sch B held k :
  exec_cost l <= B -> B + root_count < 2 ^ 64 -> kinv B held k ->
  match start_module_execution setup l ctx m sch k with
  | Ret (_, k') => kinv (B - exec_cost l) held k'
  | Trap => True
  | NoFuel => False
  end.
Proof.
  intros HB HB2 Hk.
  assert (W : KObjectSpec.wp (start_module_execution setup l ctx m sch) k (fun _ k' => kinv (B - exec_cost l) held k')).
  2: { unfold KObjectSpec.wp in W. by destruct (start_module_execution _ _ _ _ _ k) as [[a k']| |]. }
  unfold exec_cost, start_module_execution in *. apply KObjectSpec.wp_bind.
  eapply wp_create_root; [|exact HB2|exact Hk|]; [unfold create_cost, copy_cost in *; lia|]. intros ptr k1 Hk1.
  apply KObjectSpec.wp_bind. eapply load_context_keeps; [|exact Hk1|]; [unfold create_cost, copy_cost in *; lia|].
  intros [[addr|e] m1] k2 Hk2; [|unfold create_cost, copy_cost in *; repeat sys_step; kfin].
  apply KObjectSpec.wp_bind. eapply wp_create_task; [|exact Hk2|]; [unfold create_cost, copy_cost in *; lia|].
  intros [task|e] k3 Hk3; cbn [res_refs app] in Hk3; [|unfold create_cost, copy_cost in *; repeat sys_step; kfin].
  apply KObjectSpec.wp_bind. eapply segments_loop_keeps; [|exact Hk3|]; [unfold create_cost, copy_cost in *; lia|].
  intros [[u|e] m2] k4 Hk4; unfold create_cost, copy_cost in *; repeat sys_step; kfin.
Qed.

Definition sample_segment : Elf64ProgramHeader := mk_Elf64ProgramHeader HEADER_LOAD 0 120 0x400000 0 4 8 4096.

Definition sample_elf : ElfLoader :=
  mk_ElfLoader (mk_Range 4096 8192) (mk_Elf64Header ELF_MAGIC 2 1 1 0 0 2 62 1 0x400000 64 0 0 64 56 1 64 1 0).

Definition bytes_from (a : Z) (l : list Z) : mem := list_to_map (zip (seqZ a (zlen l)) l).

(** The program header and the contents of the segment, and the page [p]. *)
Definition sample_memory (p : Z) : mem :=
  bytes_from 4160 (program_header_bytes sample_segment ++ [1; 2; 3; 4]) ∪ bytes_from (Paging.toVirt p) (replicate 16 255).

Definition sample_start : ctl (result unit * mem * Scheduler.scheduler * @kernel (sample_machine false)) :=
  start_module_execution no_task_setup sample_elf None (sample_memory 36864) no_scheduler boot_kernel.

Lemma module_start_sound_witness :
  match sample_start with
  | Ret (_, m, _, k) => kinv (budget - exec_cost sample_elf) [] k /\
      map (fun i => m !! (Paging.toVirt 36864 + i)) [0; 3; 4; 7; 8] = [Some 1; Some 4; Some 0; Some 0; Some 255]
  | _ => False
  end.
Proof.
  pose proof (module_start_sound no_task_setup sample_elf None (sample_memory 36864) no_scheduler budget [] boot_kernel
    ltac:(vm_compute; discriminate) ltac:(vm_compute; reflexivity) (kinv_booted _ boot_kernel_booted)) as H.
  assert (R : match sample_start with
    | Ret (_, m, _, _) =>
        map (fun i => m !! (Paging.toVirt 36864 + i)) [0; 3; 4; 7; 8] = [Some 1; Some 4; Some 0; Some 0; Some 255]
    | _ => False end) by (vm_compute; reflexivity).
  fold sample_start in H. destruct sample_start as [[[[r m] sch] k]| |]; [by split|done|done].
Defined.

(** Whether the [n] addresses from [a] are mapped. *)
Definition mapped_b (m : mem) (a n : Z) : bool := forallb (fun x => bool_decide (is_Some (m !! x))) (seqZ a n).

Lemma mapped_b_ok m a n : mapped_b m a n = true -> mapped m a n.
Proof.
  unfold mapped_b. rewrite forallb_forall. intros H x Hx.
  apply (bool_decide_eq_true_1 _), H, list_elem_of_In, elem_of_seqZ. lia.
Qed.

Lemma mem_ok_b m : forallb (fun kv => (0 <=? kv.2) && (kv.2 <? 256)) (map_to_list m) = true -> mem_ok m.
Proof.
  rewrite forallb_forall. intros H a b Hab.
  assert (Hin : In (a, b) (map_to_list m)) by (by apply list_elem_of_In, elem_of_map_to_list).
  specialize (H _ Hin). simpl in H. lia.
Qed.

Lemma sample_memory_ok :
  mem_ok (sample_memory 45056) /\ mapped (sample_memory 45056) (Paging.toVirt 45056) 8 /\
  mapped (sample_memory 45056) 4216 4.
Proof. split_and!; [apply mem_ok_b|apply mapped_b_ok..]; vm_compute; reflexivity. Qed.

(** A page can be had for the segment, and the table of space 2 is open. *)
Lemma segment_loaded_witness :
  exists a m' k', load_segment 2 sample_elf sample_segment (sample_memory a) two_spaces = Ret ((Value tt, m'), k') /\
    m' !! (Paging.toVirt a + 3) = Some 4 /\ m' !! (Paging.toVirt a + 7) = Some 0.
Proof.
  destruct two_spaces_inner as (T & HT).
  destruct (Pmm.allocate (pmm two_spaces) 1 false) as [[[a|e] p']| |] eqn:E; [|vm_compute in E; discriminate..].
  assert (Ea : a = 45056) by (pose proof E as E'; vm_compute in E'; by injection E' as <- _). subst a.
  destruct (segment_loaded 1000 [3; 2; 1] 2 (space_at two_spaces 2) T sample_elf sample_segment (sample_memory 45056)
    45056 p' (page_tables two_spaces) p' two_spaces) as (m' & k' & ptr & ref & R & H1 & H2 & _).
  - exact two_spaces_kinv.
  - discriminate.
  - exact HT.
  - reflexivity.
  - split; reflexivity.
  - discriminate.
  - split; [discriminate|reflexivity].
  - discriminate.
  - reflexivity.
  - reflexivity.
  - exact E.
  - reflexivity.
  - reflexivity.
  - apply sample_memory_ok.
  - apply sample_memory_ok.
  - apply sample_memory_ok.
  - left. discriminate.
  - exists 45056, m', k'. split; [exact R|]. split; [rewrite (H1 3) by (split; [discriminate|reflexivity]); reflexivity
      |apply (H2 7); split; [discriminate|reflexivity]].
Defined.
