(* ===== verification/Lock.v ===== *)
(** libcore/lock/lock.hpp, libcore/lock/rwlock.hpp and the locking of
    kernel/generic/smart_lock.hpp: the spin lock and the readers-writer locks
    built on it, as the atomic actions of the threads that use them.

    Every shared field is an atomic integer; a step of a thread is one load,
    store, read-modify-write or compare-and-swap, and the memory is sequentially
    consistent, which the fences and orders of the code ask for on these fields.
    [compare_exchange_weak] may fail for no reason. Pauses and the holding of
    interrupts change nothing here, nor does what SRWLock records for its dump. *)

From stdpp Require Import relations.
From S2P Require Import Prelude.

(** * fc::Lock *)

(** [compare_exchange_weak(expected = 0, 1)] *)
Definition try_acquire (weak : bool) (locked : Z) : bool * Z :=
  if negb weak && (locked =? 0) then (true, 1) else (false, locked).

(** The bound of the loop of [lock()]. *)
Definition max_retry : Z := 2 ^ 30.

(** * The readers-writer lock *)

Record RWLock := mk_RWLock { _access_lock : Z; _readers : Z; _writers : Z; _waiters : Z }.

Definition RWLock_init : RWLock := mk_RWLock 0 0 0 0.

Definition set_access (v : Z) (s : RWLock) : RWLock := mk_RWLock v (_readers s) (_writers s) (_waiters s).
Definition add_readers (v : Z) (s : RWLock) : RWLock :=
  mk_RWLock (_access_lock s) (s32 (_readers s + v)) (_writers s) (_waiters s).
Definition add_writers (v : Z) (s : RWLock) : RWLock :=
  mk_RWLock (_access_lock s) (_readers s) (s32 (_writers s + v)) (_waiters s).
Definition add_waiters (v : Z) (s : RWLock) : RWLock :=
  mk_RWLock (_access_lock s) (_readers s) (_writers s) (s32 (_waiters s + v)).

(** ** Where a thread is *)

(** What it holds between two calls. *)
Inductive hold := Free | Reader | Writer.

#[export] Instance hold_eq_dec : EqDecision hold.
Proof. solve_decision. Defined.

(** How a function that waits to write goes on when it may not:
    [write_acquire], [try_write_acquire] with the tries left, and SRWLock's
    [try_write_acquire_interrupt_disabled]. *)
Inductive goal := GWrite | GTry (retry : Z) | GCritical (retry : Z).

(** The sections of code that take the access lock. *)
Inductive sect := SWait (g : goal) | STest (g : goal) | SLeave | SRead | SMutability | SRelease.

(** The actions in them. *)
Inductive point :=
| PWait (g : goal)
| PReaders (g : goal) | PWriters (g : goal) | PTake (g : goal) | PUnwait (g : goal)
| PLeave
| PTestWriters | PAddReader
| PSubWriter | PBecomeReader | PCheckMutability
| PDropWriter | PCheckRelease.

Inductive pc :=
| Out (h : hold)
| AddWaiter (g : goal)
| Spin (s : sect) (turns : Z)
| Try (s : sect)
| At (p : point)
| Unlock (next : pc)
| Store (next : pc)
| DropReader
| CheckReaders.

Definition spin (s : sect) : pc := Spin s max_retry.

Definition entry (s : sect) : point :=
  match s with
  | SWait g => PWait g
  | STest g => PReaders g
  | SLeave => PLeave
  | SRead => PTestWriters
  | SMutability => PSubWriter
  | SRelease => PDropWriter
  end.

(** After a test that found a reader or a writer. *)
Definition again (g : goal) : pc :=
  match g with
  | GWrite => spin (STest GWrite)
  | GTry retry => if retry - 1 =? 0 then spin SLeave else spin (STest (GTry (retry - 1)))
  | GCritical retry =>
      if 0 <? retry then
        if retry - 1 =? 0 then Out Free else Try (STest (GCritical (retry - 1)))
      else Try (STest (GCritical retry))
  end.

(** The body of a section. *)
Definition point_step (p : point) (s : RWLock) : ctl (pc * RWLock) :=
  match p with
  | PWait g => Ret (Unlock (spin (STest g)), add_waiters 1 s)
  | PReaders g => Ret (if _readers s =? 0 then At (PWriters g) else Unlock (again g), s)
  | PWriters g => Ret (if _writers s =? 0 then At (PTake g) else Unlock (again g), s)
  | PTake g => Ret (At (PUnwait g), add_writers 1 s)
  | PUnwait g => Ret (Unlock (Out Writer), add_waiters (-1) s)
  | PLeave => Ret (Unlock (Out Free), add_waiters (-1) s)
  | PTestWriters => Ret (if _writers s =? 0 then At PAddReader else Unlock (spin SRead), s)
  | PAddReader => Ret (Unlock (Out Reader), add_readers 1 s)
  | PSubWriter => Ret (At PBecomeReader, add_writers (-1) s)
  | PBecomeReader => Ret (At PCheckMutability, add_readers 1 s)
  | PCheckMutability => if _writers s <? 0 then Trap else Ret (Unlock (Out Reader), s)
  | PDropWriter => Ret (At PCheckRelease, add_writers (-1) s)
  | PCheckRelease => if _writers s <? 0 then Trap else Ret (Unlock (Out Free), s)
  end.

(** One step of a thread; [weak]: a compare-and-swap fails for no reason. *)
Definition step (weak : bool) (p : pc) (s : RWLock) : ctl (pc * RWLock) :=
  match p with
  | Out h => Ret (Out h, s)
  | AddWaiter g =>
      Ret (match g with GCritical _ => Try (STest g) | _ => spin (STest g) end, add_waiters 1 s)
  | Spin c turns =>
      let '(v, l) := try_acquire weak (_access_lock s) in
      if v then Ret (At (entry c), set_access l s)
      else if turns =? 0 then Trap else Ret (Spin c (turns - 1), s)
  | Try c =>
      let '(v, l) := try_acquire weak (_access_lock s) in
      if v then Ret (At (entry c), set_access l s) else Ret (Out Free, s)
  | At p => point_step p s
  | Unlock next => if _access_lock s =? 0 then Trap else Ret (Store next, s)
  | Store next => Ret (next, set_access 0 s)
  | DropReader => Ret (CheckReaders, add_readers (-1) s)
  | CheckReaders => if _readers s <? 0 then Trap else Ret (Out Free, s)
  end.

(** ** The functions *)

Inductive call :=
| write_acquire | try_write_acquire (ini_retry : Z) | read_acquire
| release_mutability | write_release | read_release
| srw_write_acquire | srw_try_write_acquire_interrupt_disabled.

Definition begin (c : call) : pc :=
  match c with
  | write_acquire => spin (SWait GWrite)
  | try_write_acquire retry => Try (SWait (GTry retry))
  | read_acquire => spin SRead
  | release_mutability => spin SMutability
  | write_release => spin SRelease
  | read_release => DropReader
  | srw_write_acquire => AddWaiter GWrite
  | srw_try_write_acquire_interrupt_disabled => AddWaiter (GCritical 10)
  end.

(** A thread releases what it holds, and acquires when it holds nothing. *)
Definition allowed (c : call) : hold :=
  match c with
  | release_mutability | write_release => Writer
  | read_release => Reader
  | _ => Free
  end.

(** ** The threads *)

Abbreviation threads := (list pc).

Inductive rw_step : threads * RWLock -> threads * RWLock -> Prop :=
| rw_call ts s i c :
    ts !! i = Some (Out (allowed c)) -> rw_step (ts, s) (<[i := begin c]> ts, s)
| rw_run ts s i p weak p' s' :
    ts !! i = Some p -> step weak p s = Ret (p', s') -> rw_step (ts, s) (<[i := p']> ts, s').

Definition rw_init (n : nat) : threads * RWLock := (replicate n (Out Free), RWLock_init).

(** [n] steps of one thread, none of them failing for no reason. *)
Fixpoint alone (n : nat) (p : pc) (s : RWLock) : ctl (pc * RWLock) :=
  match n with
  | O => Ret (p, s)
  | S n => '(p, s) ← step false p s; alone n p s
  end.

(** * kernel/generic/blocker.hpp: BlockMutex *)

(** [mutex_release], alone: whether the lock was held. *)
Definition mutex_release (weak : bool) (locked : Z) : ctl (bool * Z) :=
  let '(v, l) := try_acquire weak locked in
  if l =? 0 then Trap else Ret (negb v, 0).

(** The readers-writer lock excludes: at any time there is at most one writer,
    and no reader beside it, however the threads are interleaved. *)

(** * Counting threads *)

Section total.
Context (f : pc -> Z) (Hf : forall p, 0 <= f p <= 1).

Fixpoint total (ts : threads) : Z :=
  match ts with [] => 0 | p :: ts => f p + total ts end.

Lemma total_update ts i p q : ts !! i = Some p -> total (<[i := q]> ts) = total ts - f p + f q.
Proof.
  revert i. induction ts as [|t ts IH]; intros [|i] H; try done.
  - injection H as ->. simpl. lia.
  - simpl. rewrite (IH i H). lia.
Qed.

Lemma total_bounds ts : 0 <= total ts <= zlen ts.
Proof. induction ts as [|t ts IH]; simpl; [lia|]. pose proof (Hf t). lia. Qed.

Lemma total_member ts i p : ts !! i = Some p -> f p <= total ts.
Proof.
  revert i. induction ts as [|t ts IH]; intros [|i] H; try done; simpl.
  - injection H as ->. pose proof (total_bounds ts). lia.
  - pose proof (IH i H). pose proof (Hf t). lia.
Qed.

Lemma total_two ts i j p q : i <> j -> ts !! i = Some p -> ts !! j = Some q -> f p + f q <= total ts.
Proof.
  revert i j. induction ts as [|t ts IH]; intros [|i] [|j] Hne Hi Hj; try done; simpl.
  - injection Hi as ->. pose proof (total_member ts j q Hj). lia.
  - injection Hj as ->. pose proof (total_member ts i p Hi). lia.
  - pose proof (IH i j ltac:(congruence) Hi Hj). pose proof (Hf t). lia.
Qed.
End total.

(** Holds the access lock; is counted in [_readers]; is counted in [_writers]. *)
Definition inside (p : pc) : Z := match p with At _ | Unlock _ | Store _ => 1 | _ => 0 end.

Fixpoint reads (p : pc) : Z :=
  match p with
  | Out Reader | DropReader | At PCheckMutability => 1
  | Unlock next | Store next => reads next
  | _ => 0
  end.

Fixpoint writes (p : pc) : Z :=
  match p with
  | Out Writer | At (PUnwait _) | At PSubWriter | At PDropWriter => 1
  | Spin SMutability _ | Spin SRelease _ | Try SMutability | Try SRelease => 1
  | Unlock next | Store next => writes next
  | _ => 0
  end.

Lemma inside_bit p : 0 <= inside p <= 1.
Proof. destruct p; simpl; lia. Qed.
Lemma reads_bit p : 0 <= reads p <= 1.
Proof. induction p; simpl; repeat case_match; lia. Qed.
Lemma writes_bit p : 0 <= writes p <= 1.
Proof. induction p; simpl; repeat case_match; lia. Qed.

(** What a thread does when it has let go of the access lock. *)
Definition outside (p : pc) : Prop := match p with Out _ | Spin _ _ | Try (SWait _ | STest _ | SLeave | SRead) => True | _ => False end.

Definition wf_pc (p : pc) : Prop :=
  match p with
  | Unlock next | Store next => outside next
  | Try (SMutability | SRelease) => False
  | _ => True
  end.

(** * The invariant *)

(** What a thread in a section has found out. *)
Definition knows (p : pc) (r w : Z) : Prop :=
  match p with
  | At (PWriters _) => r = 0
  | At (PTake _) => r = 0 /\ w = 0
  | At PAddReader | At PBecomeReader => w = 0
  | _ => True
  end.

Record rw_inv (st : threads * RWLock) : Prop := mk_rw_inv {
  inv_access : _access_lock st.2 = total inside st.1;
  inv_readers : _readers st.2 = total reads st.1;
  inv_writers : _writers st.2 = total writes st.1;
  inv_one : total inside st.1 <= 1;
  inv_excl : total writes st.1 = 0 \/ (total writes st.1 = 1 /\ total reads st.1 = 0);
  inv_wf : Forall wf_pc st.1;
  inv_knows : forall i p, st.1 !! i = Some p -> knows p (total reads st.1) (total writes st.1);
  inv_count : zlen st.1 < 2 ^ 31
}.

Lemma total_init f n : f (Out Free) = 0 -> total f (replicate n (Out Free)) = 0.
Proof. intros H. induction n; simpl; [done|lia]. Qed.

Lemma rw_inv_init n : Z.of_nat n < 2 ^ 31 -> rw_inv (rw_init n).
Proof.
  intros Hn. split; simpl; rewrite ?total_init by done; try done; [by left|..].
  - apply Forall_replicate. done.
  - intros i p H. apply lookup_replicate in H as [-> _]. done.
  - by rewrite length_replicate.
Qed.

(** ** Every step keeps it *)

Lemma again_outside g : outside (again g) /\ inside (again g) = 0 /\ reads (again g) = 0 /\ writes (again g) = 0.
Proof. destruct g; simpl; repeat case_match; done. Qed.

Lemma outside_inside p : outside p -> inside p = 0.
Proof. by destruct p. Qed.

Lemma s32_small x : - 2 ^ 31 <= x < 2 ^ 31 -> s32 x = x.
Proof. intros. by apply wraps_small. Qed.

(** A step of a thread, with the totals it starts from and those it leaves. *)
Record local_step (p p' : pc) (s' : RWLock) (a r w : Z) : Prop := mk_local_step {
  ls_access : _access_lock s' = a - inside p + inside p';
  ls_readers : _readers s' = r - reads p + reads p';
  ls_writers : _writers s' = w - writes p + writes p';
  ls_one : a - inside p + inside p' <= 1;
  ls_excl : w - writes p + writes p' = 0 \/ (w - writes p + writes p' = 1 /\ r - reads p + reads p' = 0);
  ls_wf : wf_pc p';
  ls_knows : knows p' (r - reads p + reads p') (w - writes p + writes p');
  ls_others : (reads p' = reads p /\ writes p' = writes p) \/ inside p = 1 \/
              (p = DropReader /\ writes p' = writes p)
}.

Section local.
Context (weak : bool) (p p' : pc) (s s' : RWLock) (a r w : Z).
Context (Hwf : wf_pc p) (Hk : knows p r w) (Ha : _access_lock s = a) (Hr : _readers s = r)
  (Hw : _writers s = w) (Ha1 : inside p <= a <= 1) (Hr0 : reads p <= r) (Hw0 : writes p <= w)
  (Hr1 : 0 <= r < 2 ^ 31) (Hexcl : w = 0 \/ (w = 1 /\ r = 0))
  (Hr' : 0 <= r - reads p + reads p' < 2 ^ 31).

Lemma local_step_ok : step weak p s = Ret (p', s') -> local_step p p' s' a r w.
Proof.
  intros E. destruct p as [h|g|c n|c|[]|next|next| |]; cbn [step point_step] in E.
  all: unfold try_acquire in E; simpl in Hwf, Hk.
  all: try pose proof (again_outside g) as (Hg1 & Hg2 & Hg3 & Hg4).
  all: repeat (case_match; try discriminate E); simplify_eq.
  all: try pose proof (outside_inside _ Hwf).
  all: try destruct c.
  all: split; simpl in *; unfold spin in *; rewrite ?s32_small by lia; rewrite ?Hg2, ?Hg3, ?Hg4.
  all: try done; try lia; try tauto.
  all: try (destruct p' as [| |[]|[]| | | | |]; simpl in *; tauto).
Qed.
End local.

Lemma begin_counts c :
  inside (begin c) = 0 /\ reads (begin c) = reads (Out (allowed c)) /\
  writes (begin c) = writes (Out (allowed c)) /\ wf_pc (begin c).
Proof. by destruct c. Qed.

(** What the others know stays true. *)
Lemma knows_others ts i j p q p' s' :
  i <> j -> ts !! i = Some p -> ts !! j = Some q -> total inside ts <= 1 ->
  local_step p p' s' (total inside ts) (total reads ts) (total writes ts) ->
  knows q (total reads ts) (total writes ts) ->
  knows q (total reads (<[i:=p']> ts)) (total writes (<[i:=p']> ts)).
Proof.
  intros Hne Hi Hj Ha L Hq. rewrite !(total_update _ ts i p) by done.
  pose proof (total_two inside inside_bit ts i j p q Hne Hi Hj) as T.
  pose proof (total_two reads reads_bit ts i j p q Hne Hi Hj) as R.
  pose proof (reads_bit q).
  destruct (ls_others _ _ _ _ _ _ L) as [[E1 E2]|[E|[-> E]]].
  - rewrite E1, E2. by rewrite !Z.sub_add.
  - assert (inside q = 0) by (pose proof (inside_bit q); lia).
    destruct q; simpl in *; done || lia.
  - simpl in *. destruct q as [| | | |[]| | | |]; simpl in *; try done; lia.
Qed.

Lemma rw_run_inv ts s i p weak p' s' :
  rw_inv (ts, s) -> ts !! i = Some p -> step weak p s = Ret (p', s') -> rw_inv (<[i:=p']> ts, s').
Proof.
  intros I Hi E. destruct I as [Ia Ir Iw I1 Ie Iwf Ik Ic]. simpl in *.
  pose proof (total_member inside inside_bit ts i p Hi).
  pose proof (total_member reads reads_bit ts i p Hi).
  pose proof (total_member writes writes_bit ts i p Hi).
  pose proof (total_bounds reads reads_bit ts).
  assert (B : 0 <= total reads (<[i:=p']> ts) <= zlen ts).
  { pose proof (total_bounds reads reads_bit (<[i:=p']> ts)) as B. by rewrite length_insert in B. }
  rewrite (total_update _ ts i p) in B by done.
  assert (L : local_step p p' s' (total inside ts) (total reads ts) (total writes ts)).
  { apply (local_step_ok weak p p' s s'); try done; try lia.
    - by apply (Forall_lookup_1 _ _ _ _ Iwf Hi).
    - by apply (Ik i). }
  split; simpl; rewrite ?(total_update _ ts i p) by done; try apply L.
  - apply Forall_insert; [done|apply L].
  - intros j q Hq. destruct (decide (i = j)) as [<-|Hne].
    + rewrite list_lookup_insert_eq in Hq by (by eapply lookup_lt_Some). injection Hq as <-.
      rewrite <- !(total_update _ ts i p) by done. rewrite !(total_update _ ts i p) by done. apply L.
    + rewrite list_lookup_insert_ne in Hq by done.
      pose proof (knows_others ts i j p q p' s' Hne Hi Hq I1 L (Ik j q Hq)) as K.
      by rewrite !(total_update _ ts i p) in K by done.
  - by rewrite length_insert.
Qed.

Lemma rw_call_inv ts s i c :
  rw_inv (ts, s) -> ts !! i = Some (Out (allowed c)) -> rw_inv (<[i:=begin c]> ts, s).
Proof.
  intros I Hi. destruct I as [Ia Ir Iw I1 Ie Iwf Ik Ic]. simpl in *.
  destruct (begin_counts c) as (B1 & B2 & B3 & B4).
  assert (T : forall f, f (begin c) = f (Out (allowed c)) -> total f (<[i:=begin c]> ts) = total f ts).
  { intros f Hf. rewrite (total_update f ts i _ _ Hi). lia. }
  split; simpl; rewrite ?(T inside), ?(T reads), ?(T writes) by done; try done.
  - by apply Forall_insert.
  - intros j q Hq. destruct (decide (i = j)) as [<-|Hne].
    + rewrite list_lookup_insert_eq in Hq by (by eapply lookup_lt_Some). injection Hq as <-. by destruct c.
    + rewrite list_lookup_insert_ne in Hq by done. by apply (Ik j).
  - by rewrite length_insert.
Qed.

Lemma rw_reachable_inv n st : Z.of_nat n < 2 ^ 31 -> rtc rw_step (rw_init n) st -> rw_inv st.
Proof.
  intros Hn R. remember (rw_init n) as st0 eqn:E0.
  assert (I : rw_inv st0) by (subst; by apply rw_inv_init). clear E0.
  induction R as [st|st1 st2 st3 S R IH]; [done|].
  apply IH. destruct S; [by apply rw_call_inv|by eapply rw_run_inv].
Qed.

(** * What it promises *)

(** The steps that a holder of the access lock has left before it frees it. *)
Definition steps_left (p : pc) : nat :=
  match p with
  | At (PReaders _) => 6
  | At (PWriters _ | PSubWriter) => 5
  | At (PTake _ | PTestWriters | PBecomeReader | PDropWriter) => 4
  | At _ => 3
  | Unlock _ => 2
  | Store _ => 1
  | _ => 0
  end%nat.

Lemma inside_goes_on st i p weak :
  rw_inv st -> st.1 !! i = Some p -> inside p = 1 ->
  exists p' s', step weak p st.2 = Ret (p', s') /\ (steps_left p' < steps_left p)%nat.
Proof.
  intros I Hi Hp. pose proof (total_member inside inside_bit _ _ _ Hi) as Ha.
  pose proof (total_bounds writes writes_bit st.1). pose proof (Forall_lookup_1 _ _ _ _ (inv_wf _ I) Hi) as W.
  rewrite <- (inv_access _ I) in Ha. rewrite <- (inv_writers _ I) in *.
  destruct p as [| | | |[]|next|next| |]; try discriminate Hp; cbn [step point_step]; repeat case_match;
    try (by eexists _, _; split; [done|simpl; lia]); simpl in *; try lia.
  eexists _, _. split; [done|]. destruct next; simpl in *; try lia; done.
Qed.

(** C13: The readers-writer lock excludes. Any number of threads below 2^31 call
    the functions of fc::RWLock and SRWLock on one lock, each releasing what it
    holds and acquiring when it holds nothing, with their atomic actions
    interleaved in any order. At any time a thread that holds the lock for
    writing is alone: no other holds it for writing or for reading. No action
    reaches [unreachable$] but the last turn of the bounded spin of [lock()]: not
    the checks of the counts, nor the release of a lock that is not held. And a
    thread in the code that the access lock protects always goes on, and has at
    most 6 more actions of its own to do before it frees it. *)
Theorem rwlock_excludes n ts s :
  Z.of_nat n < 2 ^ 31 -> rtc rw_step (rw_init n) (ts, s) ->
  (forall i j, i <> j -> ts !! i = Some (Out Writer) ->
     ts !! j <> Some (Out Writer) /\ ts !! j <> Some (Out Reader)) /\
  (forall i p weak, ts !! i = Some p -> step weak p s = Trap -> exists c, p = Spin c 0) /\
  (forall i p weak, ts !! i = Some p -> inside p = 1 ->
     (steps_left p <= 6)%nat /\
     exists p' s', step weak p s = Ret (p', s') /\ (steps_left p' < steps_left p)%nat).
Proof.
  intros Hn R. pose proof (rw_reachable_inv n _ Hn R) as I. split_and!.
  - intros i j Hne Hi. pose proof (inv_excl _ I) as X. simpl in X.
    pose proof (total_bounds reads reads_bit ts).
    split; intros Hj.
    + pose proof (total_two writes writes_bit ts i j _ _ Hne Hi Hj). simpl in *. lia.
    + pose proof (total_member writes writes_bit ts i _ Hi).
      pose proof (total_member reads reads_bit ts j _ Hj). simpl in *. lia.
  - intros i p weak Hi E. destruct (decide (inside p = 1)) as [Hp|Hp].
    { destruct (inside_goes_on _ i p weak I Hi Hp) as (? & ? & E' & _). simpl in E'. congruence. }
    destruct p as [| | | | | | | |]; simpl in Hp, E; try done; repeat case_match; try done.
    + exists s0. f_equal. lia.
    + pose proof (inv_readers _ I). pose proof (total_bounds reads reads_bit ts). simpl in *. lia.
  - intros i p weak Hi Hp. split; [|by apply (inside_goes_on _ i p weak I Hi Hp)].
    destruct p as [| | | |[]| | | |]; simpl; lia.
Qed.

(** Two threads: one writes while the other waits to read. *)
Definition writer_and_reader : list (nat * (call + bool)) :=
  (0%nat, inl write_acquire) :: replicate 11 (0%nat, inr false) ++
  [(1%nat, inl read_acquire); (1%nat, inr true); (1%nat, inr false); (1%nat, inr false)].

Fixpoint rw_exec (l : list (nat * (call + bool))) (st : threads * RWLock) : option (threads * RWLock) :=
  match l with
  | [] => Some st
  | (i, inl c) :: l =>
      match st.1 !! i with
      | Some (Out h) => if decide (h = allowed c) then rw_exec l (<[i := begin c]> st.1, st.2) else None
      | _ => None
      end
  | (i, inr weak) :: l =>
      match st.1 !! i with
      | Some p => match step weak p st.2 with Ret (p', s') => rw_exec l (<[i := p']> st.1, s') | _ => None end
      | None => None
      end
  end.

Lemma rw_exec_reachable l st st' : rw_exec l st = Some st' -> rtc rw_step st st'.
Proof.
  revert st. induction l as [|[i [c|weak]] l IH]; intros [ts s] E; simpl in E.
  - injection E as <-. constructor.
  - destruct (ts !! i) as [[h| | | | | | | |]|] eqn:Hi; try done. case_decide; [|done]. subst h.
    eapply rtc_l; [by apply rw_call|by apply IH].
  - destruct (ts !! i) as [p|] eqn:Hi; [|done]. destruct (step weak p s) as [[p' s']| |] eqn:Es; try done.
    eapply rtc_l; [by eapply rw_run|by apply IH].
Qed.

Lemma rwlock_excludes_witness :
  exists ts s, rtc rw_step (rw_init 2) (ts, s) /\ ts !! 0%nat = Some (Out Writer) /\
    ts !! 1%nat <> Some (Out Reader).
Proof.
  destruct (rw_exec writer_and_reader (rw_init 2)) as [[ts s]|] eqn:E; [|by vm_compute in E].
  exists ts, s. pose proof (rw_exec_reachable _ _ _ E) as R.
  assert (H0 : ts !! 0%nat = Some (Out Writer)) by (vm_compute in E; by injection E as <- _).
  split; [done|]. split; [done|].
  destruct (rwlock_excludes 2 ts s ltac:(lia) R) as [X _]. by apply (X 0%nat 1%nat).
Defined.

(** A thread that finds the access lock free gets what it asks for, in a
    number of actions that is fixed. [write_acquire] on a lock nobody holds takes
    it; [read_acquire] adds a reader, whatever the number of writers that wait;
    [release_mutability] turns the writer into a reader, and the two releases
    give back the lock that was acquired. The count of those who wait is as
    before in every case. *)
Theorem rwlock_acquires_and_releases r k :
  0 <= r < 2 ^ 31 - 1 -> - 2 ^ 31 <= k < 2 ^ 31 - 1 ->
  alone 11 (begin write_acquire) (mk_RWLock 0 0 0 k) = Ret (Out Writer, mk_RWLock 0 0 1 k) /\
  alone 5 (begin read_acquire) (mk_RWLock 0 r 0 k) = Ret (Out Reader, mk_RWLock 0 (r + 1) 0 k) /\
  alone 6 (begin release_mutability) (mk_RWLock 0 0 1 k) = Ret (Out Reader, mk_RWLock 0 1 0 k) /\
  alone 5 (begin write_release) (mk_RWLock 0 0 1 k) = Ret (Out Free, mk_RWLock 0 0 0 k) /\
  alone 2 (begin read_release) (mk_RWLock 0 (r + 1) 0 k) = Ret (Out Free, mk_RWLock 0 r 0 k).
Proof.
  intros Hr Hk. unfold alone, begin, spin, max_retry.
  split_and!; cbn -[s32]; unfold add_readers, add_writers, add_waiters, set_access; cbn -[s32].
  - rewrite (s32_small (k + 1)) by lia. replace (k + 1 + -1) with k by lia. by rewrite !s32_small by lia.
  - by rewrite s32_small by lia.
  - done.
  - done.
  - rewrite s32_small by lia. replace (r + 1 + -1) with r by lia.
    by rewrite (proj2 (Z.ltb_ge r 0)) by lia.
Qed.

Lemma rwlock_acquires_and_releases_witness :
  alone 5 (begin read_acquire) (mk_RWLock 0 2 0 7) = Ret (Out Reader, mk_RWLock 0 3 0 7).
Proof. apply (rwlock_acquires_and_releases 2 7); lia. Defined.
