(* ===== verification/Scanner.v ===== *)
(** parser/scanner.hpp: the cursor over a text that parsers share.

    The text is the list of its characters, a character the byte that holds it.
    A [MemView] into the text is the index of its first character and its length;
    reading one outside the text traps, as a null dereference does. A loop that
    moves the cursor is a recursion on the characters from the cursor on. Signed
    overflow of [int] is undefined and traps. *)

From S2P Require Import Prelude.

Record Scanner := mk_Scanner { _buffer : list Z; _cursor : Z }.

Record MemView := mk_MemView { _data : Z; _len : Z }.

(** The constructor. *)
Definition scanner (buffer : list Z) : Scanner := mk_Scanner buffer 0.

(** What a call does to the scanner it is given by reference. *)
Definition Sc (A : Type) : Type := Scanner -> ctl (A * Scanner).

#[global] Instance Sc_ret : MRet Sc := fun A a s => Ret (a, s).
#[global] Instance Sc_bind : MBind Sc := fun A B f m s =>
  match m s with Ret (a, s') => f a s' | Trap => Trap | NoFuel => NoFuel end.

(** [try$(m)], and [m.unwrap()]. *)
Definition sc_try {A B} (m : Sc (result A)) (f : A -> Sc (result B)) : Sc (result B) :=
  r ← m; match r with Value a => f a | Error e => mret (Error e) end.
Definition sc_unwrap {A} (m : Sc (result A)) : Sc A :=
  r ← m; match r with Value a => mret a | Error _ => fun _ => Trap end.

Definition move (cursor : Z) (s : Scanner) : Scanner := mk_Scanner (_buffer s) cursor.

(** [_buffer[i]] *)
Definition char_at (s : Scanner) (i : Z) : ctl Z := deref (aget (_buffer s) i).

Definition end_of_buffer : string := "End of buffer reached".

(** * Queries *)

Definition tell (s : Scanner) : Z := _cursor s.
Definition size (s : Scanner) : Z := zlen (_buffer s).
Definition ended (s : Scanner) : bool := size s <=? _cursor s.
Definition remaining (s : Scanner) : Z := u64 (size s - _cursor s).

Definition current (s : Scanner) : ctl (result Z) :=
  if ended s then Ret (Error end_of_buffer) else c ← char_at s (_cursor s); Ret (Value c).

Definition peek (s : Scanner) (offset : Z) : ctl (result Z) :=
  if size s <=? u64 (offset + _cursor s) then Ret (Error end_of_buffer)
  else c ← char_at s (u64 (_cursor s + offset)); Ret (Value c).

(** The characters from the cursor on. *)
Definition rest (s : Scanner) : list Z := drop (Z.to_nat (_cursor s)) (_buffer s).

(** The characters of a view. *)
Definition view (s : Scanner) (v : MemView) : ctl (list Z) :=
  if (0 <=? _data v) && (_data v + _len v <=? size s)
  then Ret (take (Z.to_nat (_len v)) (drop (Z.to_nat (_data v)) (_buffer s))) else Trap.

(** * Moves *)

Definition seek (offset : Z) : Sc Z := fun s =>
  if size s <? offset then Ret (_cursor s, s) else Ret (offset, move offset s).

Definition next : Sc (result Z) := fun s =>
  if ended s then Ret (Error end_of_buffer, s)
  else c ← char_at s (_cursor s); Ret (Value c, move (_cursor s + 1) s).

(** [skip(size_t)] *)
Definition skip_count (count : Z) : Sc (result unit) := fun s =>
  if size s <=? u64 (_cursor s + count) then Ret (Error end_of_buffer, s)
  else Ret (Value tt, move (u64 (_cursor s + count)) s).

Definition rewind (count : Z) : Sc (result unit) := fun s =>
  if _cursor s <? count then Ret (Error "Cannot rewind beyond the start of the buffer", s)
  else Ret (Value tt, move (_cursor s - count) s).

(** [skip(Base)] *)
Definition skip (value : Z) : Sc (result bool) := fun s =>
  if ended s then Ret (Error end_of_buffer, s)
  else
    c ← char_at s (_cursor s);
    if c =? value then Ret (Value true, move (_cursor s + 1) s) else Ret (Value false, s).

Definition is_space (c : Z) : bool := (c =? 32) || (c =? 9) || (c =? 10) || (c =? 13).

Fixpoint spaces_loop (rest : list Z) (cursor : Z) : Z :=
  match rest with
  | c :: rest => if is_space c then spaces_loop rest (cursor + 1) else cursor
  | [] => cursor
  end.

Definition skip_spaces : Sc (result bool) := fun s =>
  if ended s then Ret (Error end_of_buffer, s)
  else Ret (Value true, move (spaces_loop (rest s) (_cursor s)) s).

Definition skip_spaced (value : Z) : Sc (result bool) := skip_spaces;; skip value.

(** Whether the text has [str] at [i], for a text that is long enough. *)
Fixpoint match_loop (s : Scanner) (i : Z) (str : list Z) : ctl bool :=
  match str with
  | [] => Ret true
  | v :: str => c ← char_at s i; if c =? v then match_loop s (i + 1) str else Ret false
  end.

Definition skip_string (str : list Z) : Sc (result bool) := fun s =>
  if size s <? u64 (_cursor s + zlen str) then Ret (Error end_of_buffer, s)
  else
    b ← match_loop s (_cursor s) str;
    if (b : bool) then Ret (Value true, move (_cursor s + zlen str) s) else Ret (Value false, s).

Definition skip_any_of (chars : list Z) : Sc (result bool) := fun s =>
  if ended s then Ret (Error end_of_buffer, s)
  else
    c ← char_at s (_cursor s);
    if existsb (Z.eqb c) chars then Ret (Value true, move (_cursor s + 1) s) else Ret (Value false, s).

Definition read (count : Z) : Sc (result MemView) := fun s =>
  if size s <? u64 (_cursor s + count) then Ret (Error end_of_buffer, s)
  else Ret (Value (mk_MemView (_cursor s) count), move (u64 (_cursor s + count)) s).

Fixpoint until_loop (delimiter : Z) (rest : list Z) (cursor : Z) : Z :=
  match rest with
  | c :: rest => if c =? delimiter then cursor else until_loop delimiter rest (cursor + 1)
  | [] => cursor
  end.

Definition read_until (delimiter : Z) : Sc (result MemView) := fun s =>
  let start := _cursor s in
  let s := move (until_loop delimiter (rest s) start) s in
  if ended s && negb (delimiter =? 0) then Ret (Error end_of_buffer, s)
  else Ret (Value (mk_MemView start (_cursor s - start)), s).

Definition is_digit (c : Z) : bool := (48 <=? c) && (c <=? 57).

Fixpoint digits_loop (rest : list Z) (value cursor : Z) : ctl (Z * Z) :=
  match rest with
  | c :: rest =>
      if is_digit c then
        let value := value * 10 + (c - 48) in
        if 2 ^ 31 <=? value then Trap else digits_loop rest value (cursor + 1)
      else Ret (value, cursor)
  | [] => Ret (value, cursor)
  end.

Definition skip_int : Sc (result Z) := fun s =>
  if ended s then Ret (Error end_of_buffer, s)
  else
    let origin := _cursor s in
    c ← char_at s origin;
    let negative := c =? 45 in
    let s := if negative || (c =? 43) then move (origin + 1) s else s in
    match rest s with
    | d :: _ =>
        if is_digit d then
          '(value, cursor) ← digits_loop (rest s) 0 (_cursor s);
          Ret (Value (if negative then - value else value), move cursor s)
        else Ret (Error "Expected digit", move origin s)
    | [] => Ret (Error "Expected digit", move origin s)
    end.

(** The scanner stays in its text, and what it does to a text given as the
    characters before the cursor and those after it. *)

(** * Staying in the text *)

Definition in_text (s : Scanner) : Prop := 0 <= _cursor s <= size s /\ size s < 2 ^ 63.

(** [s'] is [s] with the cursor [n] characters further at least, in the text. *)
Definition after (n : Z) (s s' : Scanner) : Prop :=
  _buffer s' = _buffer s /\ _cursor s + n <= _cursor s' <= size s.

Lemma after_in_text n s s' : 0 <= n -> in_text s -> after n s s' -> in_text s'.
Proof. intros Hn [H1 H2] [E H]. unfold in_text, size in *. rewrite E. lia. Qed.

Lemma after_trans n m s1 s2 s3 : after n s1 s2 -> after m s2 s3 -> after (n + m) s1 s3.
Proof. intros [E1 H1] [E2 H2]. split; [congruence|]. unfold size in *. rewrite E1 in *. lia. Qed.

Lemma after_refl s : in_text s -> after 0 s s.
Proof. intros [H _]. split; [done|lia]. Qed.

Lemma after_move n c s : _cursor s + n <= c <= size s -> after n s (move c s).
Proof. by split. Qed.

Lemma after_le n m s s' : m <= n -> after n s s' -> after m s s'.
Proof. intros ? [? ?]. split; [done|lia]. Qed.

(** [swp m Q s]: [m] ends on [s], and satisfies [Q] if it returns. *)
Definition swp {A} (m : Sc A) (Q : A -> Scanner -> Prop) (s : Scanner) : Prop :=
  ends (fun r => Q r.1 r.2) (m s).

Lemma swp_ret {A} (a : A) Q s : Q a s -> swp (mret a) Q s.
Proof. done. Qed.

Lemma swp_bind {A B} (m : Sc A) (f : A -> Sc B) Q s :
  swp m (fun a => swp (f a) Q) s -> swp (m ≫= f) Q s.
Proof. unfold swp. simpl. unfold mbind, Sc_bind. destruct (m s) as [[a s']| |]; done. Qed.

Lemma swp_impl {A} (m : Sc A) (P Q : A -> Scanner -> Prop) s :
  swp m P s -> (forall a s', P a s' -> Q a s') -> swp m Q s.
Proof. intros H HPQ. eapply ends_impl; [done|]. intros [a s']. apply HPQ. Qed.

Lemma swp_try {A B} (m : Sc (result A)) (f : A -> Sc (result B)) Q s :
  swp m (fun r => match r with Value a => swp (f a) Q | Error e => Q (Error e) end) s -> swp (sc_try m f) Q s.
Proof. intros H. apply swp_bind. eapply swp_impl; [done|]. by intros [a|e] s'. Qed.

Lemma swp_unwrap {A} (m : Sc (result A)) Q s :
  swp m (fun r s' => match r with Value a => Q a s' | Error e => True end) s -> swp (sc_unwrap m) Q s.
Proof. intros H. apply swp_bind. eapply swp_impl; [done|]. by intros [a|e] s'. Qed.

(** An operation that, from the text, moves forward: by [n r] when its result
    is [r]. *)
Definition forward {A} (n : A -> Z) (m : Sc A) : Prop :=
  forall s, in_text s -> returns (fun r => after (n r.1) s r.2) (m s).

(** The move of a test: a character for a match. *)
Definition matched (r : result bool) : Z := match r with Value true => 1 | _ => 0 end.

Lemma swp_forward {A} (n : A -> Z) (m : Sc A) Q s :
  forward n m -> in_text s -> (forall a s', after (n a) s s' -> Q a s') -> swp m Q s.
Proof.
  intros F Hs HQ. specialize (F s Hs). unfold swp. destruct (m s) as [[a s']| |]; simpl in *; [|done..].
  by apply HQ.
Qed.

Lemma not_ended s : in_text s -> ended s = false -> _cursor s < size s.
Proof. unfold ended. intros [? _] ?. lia. Qed.

Lemma char_at_in s i : 0 <= i < size s -> exists c, char_at s i = Ret c.
Proof. intros Hi. destruct (aget_in_range (_buffer s) i Hi) as [c E]. exists c. unfold char_at. by rewrite E. Qed.

Ltac at_cursor s Hs :=
  let E := fresh "E" in
  destruct (ended s) eqn:E; simpl; [by apply after_refl|];
  let c := fresh "c" in let Ec := fresh "Ec" in
  destruct (char_at_in s (_cursor s)) as [c Ec]; [pose proof (not_ended s Hs E); destruct Hs; lia|];
  pose proof (not_ended s Hs E); rewrite Ec; simpl.

Lemma next_forward : forward (fun r => if is_error r then 0 else 1) next.
Proof. intros s Hs. unfold next. at_cursor s Hs. apply after_move. lia. Qed.

Lemma skip_forward v : forward matched (skip v).
Proof.
  intros s Hs. unfold skip. at_cursor s Hs. destruct (c =? v); simpl; [apply after_move; lia|by apply after_refl].
Qed.

Lemma skip_any_of_forward cs : forward matched (skip_any_of cs).
Proof.
  intros s Hs. unfold skip_any_of. at_cursor s Hs.
  destruct (existsb _ cs); simpl; [apply after_move; lia|by apply after_refl].
Qed.

Lemma length_rest s : in_text s -> zlen (rest s) = size s - _cursor s.
Proof. intros [H _]. unfold rest, size in *. rewrite length_drop. lia. Qed.

Lemma spaces_loop_range l c : c <= spaces_loop l c <= c + zlen l.
Proof.
  revert c. induction l as [|x l IH]; intros c; simpl; [lia|].
  destruct (is_space x); [specialize (IH (c + 1))|]; lia.
Qed.

Lemma until_loop_range d l c : c <= until_loop d l c <= c + zlen l.
Proof.
  revert c. induction l as [|x l IH]; intros c; simpl; [lia|].
  destruct (x =? d); [|specialize (IH (c + 1))]; lia.
Qed.

Lemma skip_spaces_forward : forward (fun _ => 0) skip_spaces.
Proof.
  intros s Hs. unfold skip_spaces. destruct (ended s); simpl; [by apply after_refl|].
  apply after_move. pose proof (spaces_loop_range (rest s) (_cursor s)).
  rewrite (length_rest s Hs) in *. lia.
Qed.

Lemma skip_spaced_forward v : forward matched (skip_spaced v).
Proof.
  intros s Hs. pose proof (skip_spaces_forward s Hs) as F. unfold skip_spaced, mbind, Sc_bind.
  destruct (skip_spaces s) as [[r s1]| |]; simpl in *; [|done..].
  assert (Hs1 : in_text s1) by (by eapply after_in_text; [|done..]).
  eapply returns_impl; [by apply skip_forward|]. intros [b s2] H. exact (after_trans _ _ _ _ _ F H).
Qed.

Lemma read_until_forward d : forward (fun _ => 0) (read_until d).
Proof.
  intros s Hs. unfold read_until. pose proof (until_loop_range d (rest s) (_cursor s)).
  rewrite (length_rest s Hs) in *. case_match; apply after_move; lia.
Qed.

Lemma match_loop_returns s str : forall i, 0 <= i -> i + zlen str <= size s -> exists b, match_loop s i str = Ret b.
Proof.
  induction str as [|v str IH]; intros i Hi H; simpl in *; [eauto|].
  destruct (char_at_in s i) as [c ->]; [lia|]. simpl. destruct (c =? v); [apply IH; lia|eauto].
Qed.

Lemma skip_string_forward str :
  zlen str < 2 ^ 63 -> forward (fun r => match r with Value true => zlen str | _ => 0 end) (skip_string str).
Proof.
  intros Hl s Hs. unfold skip_string. pose proof Hs as [H1 H2].
  rewrite wrapu_small by lia. destruct (Z.ltb_spec (size s) (_cursor s + zlen str)); simpl; [by apply after_refl|].
  destruct (match_loop_returns s str (_cursor s)) as [[|] ->]; [lia..| |]; simpl;
    [apply after_move; lia|by apply after_refl].
Qed.

Lemma read_forward n : 0 <= n < 2 ^ 63 -> forward (fun r => if is_error r then 0 else n) (read n).
Proof.
  intros Hn s Hs. unfold read. pose proof Hs as [H1 H2]. rewrite wrapu_small by lia.
  destruct (Z.ltb_spec (size s) (_cursor s + n)); simpl; [by apply after_refl|apply after_move; lia].
Qed.

Lemma skip_count_forward n : 0 <= n < 2 ^ 63 -> forward (fun r => if is_error r then 0 else n) (skip_count n).
Proof.
  intros Hn s Hs. unfold skip_count. pose proof Hs as [H1 H2]. rewrite wrapu_small by lia.
  destruct (Z.leb_spec (size s) (_cursor s + n)); simpl; [by apply after_refl|apply after_move; lia].
Qed.

Lemma digits_loop_range l : forall v c,
  ends (fun r => c + (match l with d :: _ => if is_digit d then 1 else 0 | [] => 0 end) <= r.2 <= c + zlen l)
    (digits_loop l v c).
Proof.
  induction l as [|d l IH]; intros v c; simpl; [lia|].
  destruct (is_digit d); simpl; [|lia]. case_Z; simpl; [done|].
  eapply ends_impl; [apply (IH _ (c + 1))|]. intros [v' c']; simpl. destruct l as [|d' l]; [|destruct (is_digit d')]; len_lia.
Qed.

Lemma swp_skip_int Q s :
  in_text s -> (forall r s', after (if is_error r then 0 else 1) s s' -> Q r s') -> swp skip_int Q s.
Proof.
  intros Hs HQ. unfold swp, skip_int. destruct (ended s) eqn:E; simpl; [by apply HQ, after_refl|].
  pose proof (not_ended s Hs E). destruct (char_at_in s (_cursor s)) as [c ->]; [destruct Hs; lia|]. simpl.
  set (s1 := if (c =? 45) || (c =? 43) then move (_cursor s + 1) s else s).
  assert (A1 : after 0 s s1) by (unfold s1; case_match; [apply after_move; lia|by apply after_refl]).
  assert (A0 : after 0 s (move (_cursor s) s1)).
  { destruct A1 as [B1 B2]. split; [done|]. simpl. lia. }
  assert (Hs1 : in_text s1) by (by eapply after_in_text; [|done..]).
  pose proof (length_rest s1 Hs1) as L.
  destruct (rest s1) as [|d l]; [by apply HQ|]. destruct (is_digit d) eqn:D; [|by apply HQ].
  pose proof (digits_loop_range (d :: l) 0 (_cursor s1)) as B. cbv beta iota in B. rewrite D in B.
  destruct (digits_loop (d :: l) 0 (_cursor s1)) as [[v c']| |]; try done.
  apply HQ. apply (after_trans 0 1 s s1); [done|]. apply after_move. unfold ends, snd in B. lia.
Qed.

(** * The scanner between two parts of the text *)

(** The scanner when [pre] has been read and [l] is left. *)
Definition between (pre l : list Z) : Scanner := mk_Scanner (pre ++ l) (zlen pre).

Definition spaces (ws : list Z) : Prop := Forall (fun c => is_space c = true) ws.

Lemma rest_between pre l : rest (between pre l) = l.
Proof. unfold rest, between. simpl. rewrite Nat2Z.id. apply drop_app_length. Qed.

Lemma move_between pre x l c : c = zlen pre + zlen x -> move c (between pre (x ++ l)) = between (pre ++ x) l.
Proof. intros ->. unfold move, between. simpl. rewrite <- app_assoc. f_equal. len_lia. Qed.

Lemma move_between_1 pre x l : move (zlen pre + 1) (between pre (x :: l)) = between (pre ++ [x]) l.
Proof. by apply (move_between pre [x]). Qed.

Lemma ended_between pre l : ended (between pre l) = match l with [] => true | _ => false end.
Proof. unfold ended, size, between. simpl. destruct l; case_Z; len_simpl; try done; exfalso; revert H; len_lia. Qed.

Lemma char_between pre c l : char_at (between pre (c :: l)) (zlen pre) = Ret c.
Proof.
  unfold char_at, between. simpl. rewrite aget_nat, lookup_app_r by lia. by rewrite Nat.sub_diag.
Qed.

Lemma skip_between pre v c l :
  skip v (between pre (c :: l)) =
    Ret (Value (c =? v), if c =? v then between (pre ++ [c]) l else between pre (c :: l)).
Proof.
  unfold skip. rewrite ended_between. cbn [_cursor between]. rewrite char_between. simpl.
  destruct (c =? v); [|done]. by rewrite move_between_1.
Qed.

Lemma spaces_loop_app ws c l n :
  spaces ws -> is_space c = false -> spaces_loop (ws ++ c :: l) n = n + zlen ws.
Proof.
  intros H Hc. revert n. induction H as [|w ws Hw H IH]; intros n; simpl.
  - rewrite Hc. lia.
  - rewrite Hw, IH. lia.
Qed.

Lemma skip_spaces_between pre ws c l :
  spaces ws -> is_space c = false ->
  skip_spaces (between pre (ws ++ c :: l)) = Ret (Value true, between (pre ++ ws) (c :: l)).
Proof.
  intros H Hc. unfold skip_spaces. rewrite ended_between, rest_between.
  replace (match ws ++ c :: l with [] => true | _ => false end) with false by (by destruct ws).
  rewrite spaces_loop_app by done. by rewrite move_between.
Qed.

Lemma skip_spaced_between pre ws v c l :
  spaces ws -> is_space c = false ->
  skip_spaced v (between pre (ws ++ c :: l)) =
    Ret (Value (c =? v), if c =? v then between (pre ++ ws ++ [c]) l else between (pre ++ ws) (c :: l)).
Proof.
  intros H Hc. unfold skip_spaced, mbind, Sc_bind. rewrite skip_spaces_between by done.
  rewrite skip_between. by rewrite app_assoc.
Qed.

Lemma match_loop_between pre str l b :
  match_loop (between pre (b ++ str ++ l)) (zlen pre + zlen b) str = Ret true.
Proof.
  revert b. induction str as [|v str IH]; intros b; simpl; [done|].
  replace (char_at (between pre (b ++ v :: str ++ l)) (zlen pre + zlen b)) with (Ret v).
  2: { unfold char_at. simpl. rewrite app_assoc. rewrite <- Nat2Z.inj_add, <- length_app, aget_nat.
       rewrite lookup_app_r by lia. by rewrite Nat.sub_diag. }
  simpl. rewrite Z.eqb_refl. specialize (IH (b ++ [v])). rewrite <- app_assoc in IH. simpl in IH.
  rewrite <- IH. f_equal. len_lia.
Qed.

Lemma skip_string_between pre str l :
  zlen (pre ++ str ++ l) < 2 ^ 63 ->
  skip_string str (between pre (str ++ l)) = Ret (Value true, between (pre ++ str) l).
Proof.
  intros Hl. unfold skip_string. cbn [_cursor between]. revert Hl. len_simpl. intros Hl.
  rewrite wrapu_small by lia. unfold size, between at 1. simpl. rewrite (proj2 (Z.ltb_ge _ _)) by len_lia.
  pose proof (match_loop_between pre str l []) as M. rewrite Z.add_0_r in M. simpl in M. rewrite M. simpl.
  by rewrite move_between.
Qed.

(** The first character is enough to tell that the string is not there. *)
Lemma skip_string_other pre v str c l :
  zlen (pre ++ c :: l) < 2 ^ 63 -> (length str <= length l)%nat -> c <> v ->
  skip_string (v :: str) (between pre (c :: l)) = Ret (Value false, between pre (c :: l)).
Proof.
  intros Hl Hs Hc. unfold skip_string. cbn [_cursor between match_loop]. revert Hl. len_simpl. intros Hl.
  rewrite wrapu_small by len_lia. unfold size, between at 1. simpl. rewrite (proj2 (Z.ltb_ge _ _)) by len_lia.
  rewrite char_between. simpl. by rewrite (proj2 (Z.eqb_neq _ _) Hc).
Qed.

Lemma until_loop_app d x l n : d ∉ x -> until_loop d (x ++ d :: l) n = n + zlen x.
Proof.
  intros H. revert n. induction x as [|c x IH]; intros n; simpl.
  - rewrite Z.eqb_refl. lia.
  - apply not_elem_of_cons in H as [H1 H2]. rewrite (proj2 (Z.eqb_neq c d)) by done. rewrite IH by done. lia.
Qed.

Lemma read_until_between pre d x l :
  d ∉ x ->
  read_until d (between pre (x ++ d :: l)) =
    Ret (Value (mk_MemView (zlen pre) (zlen x)), between (pre ++ x) (d :: l)).
Proof.
  intros H. unfold read_until. rewrite rest_between. cbn [_cursor between]. rewrite until_loop_app by done.
  rewrite move_between by done. rewrite ended_between. simpl. do 3 f_equal. f_equal. len_lia.
Qed.

Lemma view_between pre x l : view (between (pre ++ x) l) (mk_MemView (zlen pre) (zlen x)) = Ret x.
Proof.
  unfold view, size, between. simpl. rewrite (proj2 (Z.leb_le _ _)), (proj2 (Z.leb_le _ _)) by len_lia.
  simpl. rewrite !Nat2Z.id, <- app_assoc, drop_app_length, take_app_length. done.
Qed.

(** ** Numbers *)

Definition dec (value : Z) (ds : list Z) : Z := fold_left (fun v d => v * 10 + (d - 48)) ds value.

Definition digits (ds : list Z) : Prop := Forall (fun d => is_digit d = true) ds.

Lemma dec_ge ds v : 0 <= v -> digits ds -> v <= dec v ds.
Proof.
  intros Hv H. revert v Hv. induction H as [|d ds Hd H IH]; intros v Hv; simpl; [unfold dec; simpl; lia|].
  unfold is_digit in Hd. change (dec v (d :: ds)) with (dec (v * 10 + (d - 48)) ds).
  pose proof (IH (v * 10 + (d - 48)) ltac:(lia)). lia.
Qed.

(** The text that comes after a number. *)
Definition not_digit (l : list Z) : Prop := match l with c :: _ => is_digit c = false | [] => True end.

Lemma digits_loop_app ds l : forall v n,
  0 <= v -> digits ds -> not_digit l -> dec v ds < 2 ^ 31 ->
  digits_loop (ds ++ l) v n = Ret (dec v ds, n + zlen ds).
Proof.
  induction ds as [|d ds IH]; intros v n Hv H Hl Hd; simpl.
  - destruct l as [|c l]; simpl in *; [|rewrite Hl]; by rewrite Z.add_0_r.
  - apply Forall_cons in H as [Hd1 H]. rewrite Hd1. unfold is_digit in Hd1.
    change (dec v (d :: ds)) with (dec (v * 10 + (d - 48)) ds) in *.
    pose proof (dec_ge ds (v * 10 + (d - 48)) ltac:(lia) H).
    rewrite (proj2 (Z.leb_gt _ _)) by lia. rewrite IH by (done || lia). do 2 f_equal. lia.
Qed.

(** The sign of a number, and its effect. *)
Inductive sign : list Z -> bool -> Prop :=
| sign_none : sign [] false
| sign_plus : sign [43] false
| sign_minus : sign [45] true.

Lemma skip_int_between pre sg neg d ds l :
  sign sg neg -> digits (d :: ds) -> dec 0 (d :: ds) < 2 ^ 31 -> not_digit l ->
  skip_int (between pre (sg ++ (d :: ds) ++ l)) =
    Ret (Value (if neg then - dec 0 (d :: ds) else dec 0 (d :: ds)), between (pre ++ sg ++ d :: ds) l).
Proof.
  intros Hs H Hd Hl. pose proof (Forall_inv H) as Hd1. simpl in Hd1. unfold skip_int. rewrite ended_between.
  assert (M : forall p, match rest (between p ((d :: ds) ++ l)) with
      | d' :: _ => if is_digit d' then
          '(value, cursor) ← digits_loop (rest (between p ((d :: ds) ++ l))) 0 (_cursor (between p ((d :: ds) ++ l)));
          Ret (Value (if neg then - value else value), move cursor (between p ((d :: ds) ++ l)))
        else Ret (Error "Expected digit"%string, move (zlen pre) (between p ((d :: ds) ++ l)))
      | [] => Ret (Error "Expected digit"%string, move (zlen pre) (between p ((d :: ds) ++ l)))
      end = Ret (Value (if neg then - dec 0 (d :: ds) else dec 0 (d :: ds)), between (p ++ d :: ds) l)).
  { intros p. rewrite rest_between, (digits_loop_app (d :: ds) l 0) by (done || lia).
    cbn [mbind ctl_bind _cursor between].
    rewrite (move_between p (d :: ds) l (zlen p + _)) by done. simpl app. cbv beta iota. by rewrite Hd1. }
  destruct Hs; simpl app; cbn [_cursor between]; rewrite char_between; cbn [mbind ctl_bind Z.eqb Pos.eqb orb].
  - replace (d =? 45) with false by (unfold is_digit in Hd1; lia).
    replace (d =? 43) with false by (unfold is_digit in Hd1; lia). apply M.
  - rewrite move_between_1. rewrite M. by rewrite <- app_assoc.
  - rewrite move_between_1. rewrite M. by rewrite <- app_assoc.
Qed.
