(* ===== verification/Json.v ===== *)
(** json/json.hpp and json/json.cpp: JSON values, and the parser of JSON texts
    over the scanner of Scanner.v.

    A [Str] into the text is the list of its characters; the text outlives the
    value. The [push] calls on vectors, whose results the code drops, succeed.
    [JsonStorage::number] is never set and left out. The parser takes fuel,
    twice the characters left and two: each value starts with a character, and
    at most two calls are made between one character and the next. *)

From S2P Require Import Prelude Scanner.

(** * Values *)

Inductive JsonType := Null | Boolean | Number | String_ | Array | Object.

#[global] Instance JsonType_eq_dec : EqDecision JsonType.
Proof. solve_decision. Defined.

(** [JsonValue] with its [JsonStorage] and the [JsonChilds] in it. *)
Inductive JsonValue := mk_JsonValue {
  type : JsonType;
  raw : list Z;
  boolean : bool;
  integer : Z;
  values : list JsonValue;
  keys : list (list Z)
}.

Definition JsonValue_init : JsonValue := mk_JsonValue Null [] false 0 [] [].

Definition set_type (t : JsonType) (v : JsonValue) : JsonValue :=
  mk_JsonValue t (raw v) (boolean v) (integer v) (values v) (keys v).
Definition set_raw (r : list Z) (v : JsonValue) : JsonValue :=
  mk_JsonValue (type v) r (boolean v) (integer v) (values v) (keys v).
Definition set_boolean (b : bool) (v : JsonValue) : JsonValue :=
  mk_JsonValue (type v) (raw v) b (integer v) (values v) (keys v).
Definition set_integer (n : Z) (v : JsonValue) : JsonValue :=
  mk_JsonValue (type v) (raw v) (boolean v) n (values v) (keys v).
Definition push_value (c : JsonValue) (v : JsonValue) : JsonValue :=
  mk_JsonValue (type v) (raw v) (boolean v) (integer v) (values v ++ [c]) (keys v).
Definition push_key (k : list Z) (v : JsonValue) : JsonValue :=
  mk_JsonValue (type v) (raw v) (boolean v) (integer v) (values v) (keys v ++ [k]).

(** * Access *)

(** [for (size_t i = 0; i < keys.len(); i++)] of [get] and [operator[]], from [i] on:
    the value of the first key that matches. *)
Fixpoint find_key (key : list Z) (ks : list (list Z)) (vs : list JsonValue) (i : Z) : ctl (option JsonValue) :=
  match ks with
  | [] => Ret None
  | k :: ks => if bool_decide (k = key) then v ← deref (aget vs i); Ret (Some v) else find_key key ks vs (i + 1)
  end.

Definition get_key (v : JsonValue) (key : list Z) : ctl (result JsonValue) :=
  if negb (bool_decide (type v = Object)) then Ret (Error "Not an object")
  else
    o ← find_key key (keys v) (values v) 0;
    match o with Some c => Ret (Value c) | None => Ret (Error "Key not found") end.

Definition get_index (v : JsonValue) (index : Z) : ctl (result JsonValue) :=
  if negb (bool_decide (type v = Array)) then Ret (Error "Not an array")
  else if index <? zlen (values v) then c ← deref (aget (values v) index); Ret (Value c)
  else Ret (Error "Index out of bounds").

Definition is_null (v : JsonValue) : bool := bool_decide (type v = Null).

Definition as_bool (v : JsonValue) : result bool :=
  if bool_decide (type v = Boolean) then Value (boolean v) else Error "Not a boolean".
Definition as_number (v : JsonValue) : result Z :=
  if bool_decide (type v = Number) then Value (integer v) else Error "Not a number".
Definition as_string (v : JsonValue) : result (list Z) :=
  if bool_decide (type v = String_) then Value (raw v) else Error "Not a string".
Definition as_array (v : JsonValue) : result (list JsonValue) :=
  if bool_decide (type v = Array) then Value (values v) else Error "Not an array".

Definition children (v : JsonValue) : list JsonValue := values v.

(** [operator[]]. When there is nothing to return it loops for ever without any
    effect, which C++ leaves undefined. *)
Definition index_at (v : JsonValue) (index : Z) : ctl JsonValue :=
  if index <? zlen (values v) then deref (aget (values v) index) else Trap.
Definition index_key (v : JsonValue) (key : list Z) : ctl JsonValue :=
  o ← find_key key (keys v) (values v) 0; match o with Some c => Ret c | None => Trap end.

(** * The parser *)

Definition lit_true : list Z := [116; 114; 117; 101].
Definition lit_false : list Z := [102; 97; 108; 115; 101].
Definition lit_null : list Z := [110; 117; 108; 108].

Definition fail {A} (msg : string) : Sc (result A) := mret (Error msg).

(** "Expected '<quote>' <where>" *)
Definition quoted (where_ : string) : string := String.app "Expected '" (String (Ascii.ascii_of_nat 34) (String.app "' " where_)).

(** [Str(view)] *)
Definition str (v : MemView) : Sc (list Z) := fun s => l ← view s v; Ret (l, s).

(** The key of a member and the colon after it. *)
Definition parse_key : Sc (result (list Z)) :=
  skip_spaces;;
  sc_try (skip_spaced 34) (fun b =>
  if negb b then fail (quoted "at the start of key") else
  sc_try (read_until 34) (fun v =>
  key ← str v;
  sc_try (skip_spaced 34) (fun b =>
  if negb b then fail (quoted "at the end of key") else
  skip_spaces;;
  sc_try (skip_spaced 58) (fun b =>
  if negb b then fail "Expected ':' after key" else mret (Value key))))).

(** After the loop over the members. *)
Definition end_of_object (result : JsonValue) : Sc (Prelude.result JsonValue) :=
  skip_spaces;;
  sc_try (skip 125) (fun b =>
  if negb b then fail "Expected '}' at the end of object" else mret (Value result)).

Definition end_of_array (result : JsonValue) : Sc (Prelude.result JsonValue) :=
  b ← sc_unwrap (skip_spaced 93);
  if negb b then fail "Expected ']' at the end of object" else mret (Value (set_type Array result)).

Definition parse_string_or_number (result : JsonValue) : Sc (Prelude.result JsonValue) :=
  b ← sc_unwrap (skip_spaced 34);
  if (b : bool) then
    sc_try (read_until 34) (fun v =>
    text ← str v;
    skip 34;;
    mret (Value (set_raw text (set_type String_ result))))
  else
    n ← skip_int;
    match n with
    | Error e => sc_unwrap (read_until 0);; mret (Error e)
    | Value n => mret (Value (set_integer n (set_type Number result)))
    end.

(** What is neither an object nor an array. *)
Definition parse_scalar (result : JsonValue) : Sc (Prelude.result JsonValue) :=
  b ← sc_unwrap (skip_string lit_true);
  if (b : bool) then mret (Value (set_boolean true (set_type Boolean result))) else
  b ← sc_unwrap (skip_string lit_false);
  if (b : bool) then mret (Value (set_boolean false (set_type Boolean result))) else
  b ← sc_unwrap (skip_string lit_null);
  if (b : bool) then mret (Value (set_type Null result)) else parse_string_or_number result.

Fixpoint parse_json_value (fuel : nat) : Sc (result JsonValue) :=
  match fuel with
  | O => fun _ => NoFuel
  | S fuel =>
      let result := JsonValue_init in
      b ← sc_unwrap (skip_spaced 123);
      if (b : bool) then
        let result := set_type Object result in
        b ← sc_unwrap (skip_spaced 125);
        if (b : bool) then mret (Value result) else object_loop fuel result
      else
        b ← sc_unwrap (skip_spaced 91);
        if (b : bool) then
          b ← sc_unwrap (skip_spaced 93);
          if (b : bool) then mret (Value (set_type Array JsonValue_init)) else array_loop fuel result
        else parse_scalar result
  end
with object_loop (fuel : nat) (result : JsonValue) : Sc (Prelude.result JsonValue) :=
  match fuel with
  | O => fun _ => NoFuel
  | S fuel => fun s =>
      if ended s then end_of_object result s
      else
        sc_try parse_key (fun key =>
        sc_try (parse_json_value fuel) (fun val =>
        let result := push_value val (push_key key result) in
        sc_try (skip_spaced 44) (fun b =>
        if negb b then end_of_object result else object_loop fuel result))) s
  end
with array_loop (fuel : nat) (result : JsonValue) : Sc (Prelude.result JsonValue) :=
  match fuel with
  | O => fun _ => NoFuel
  | S fuel => fun s =>
      if ended s then end_of_array result s
      else
        sc_try (parse_json_value fuel) (fun val =>
        skip_spaces;;
        let result := push_value val result in
        b ← sc_unwrap (skip_spaced 44);
        if negb b then end_of_array result else array_loop fuel result) s
  end.

Definition parse_fuel (s : Scanner) : nat := 2 * length (rest s) + 2.

(** [Json::parse]: the root of the result. *)
Definition parse (reader : list Z) : ctl (result JsonValue) :=
  let scanner := scanner reader in
  '(root, _) ← parse_json_value (parse_fuel scanner) scanner;
  Ret root.
