(* ===== verification/JsonSpec.v ===== *)
(** The JSON parser: it ends on every text without reading outside it, it reads
    back every value from each of its texts, and what it does at the end of a
    text that is too short. *)

From S2P Require Import Prelude Scanner Json.

(** * It ends *)

(** What a parsing function does to the text [s0] it started on: it keeps the
    text, and has moved the cursor by [n] at least when it has a value to give. *)
Definition parsed {A} (n : Z) (s0 : Scanner) (r : result A) (s : Scanner) : Prop :=
  after (if is_error r then 0 else n) s0 s.

Lemma swp_scan {A} (k : A -> Z) (m : Sc A) n s0 Q s :
  forward k m -> in_text s0 -> after n s0 s -> 0 <= n ->
  (forall a s', after (n + k a) s0 s' -> Q a s') -> swp m Q s.
Proof.
  intros F Hs0 L Hn HQ. apply (swp_forward k); [done|by eapply after_in_text|].
  intros a s' H. apply HQ. by eapply after_trans.
Qed.

(** [try$(read_until(d))] and the text of the view. *)
Lemma swp_read_text {A} d (f : list Z -> Sc (result A)) n s0 Q s :
  in_text s0 -> after n s0 s -> 0 <= n ->
  (forall l s', after n s0 s' -> swp (f l) Q s') -> (forall e s', after n s0 s' -> Q (Error e) s') ->
  swp (sc_try (read_until d) (fun v => l ← str v; f l)) Q s.
Proof.
  intros Hs0 A0 Hn Hf He. apply swp_try. assert (Hs : in_text s) by (by eapply after_in_text).
  pose proof (read_until_forward d s Hs) as F. unfold swp, read_until in *. cbv zeta in *.
  assert (T : forall s', after 0 s s' -> after n s0 s').
  { intros s' H. replace n with (n + 0) by lia. by eapply after_trans. }
  case_match; simpl in *; [by apply He, T|]. unfold str, mbind, Sc_bind.
  pose proof F as [F1 F2]. destruct Hs as [Hs _]. unfold view, size in *. simpl in *.
  rewrite (proj2 (Z.leb_le 0 (_cursor s))), (proj2 (Z.leb_le _ _)) by lia. simpl. by apply Hf, T.
Qed.

(** One call to the scanner, from the text [s0]; [A] says where the cursor is. *)
Ltac scan_call lem :=
  match goal with
  | Hs : in_text ?s0, A : after ?n ?s0 ?s |- swp _ _ ?s =>
      eapply (swp_scan _ _ n s0); [apply lem; try (simpl; lia)|exact Hs|exact A|lia|];
      clear A; let r := fresh "r" in let s' := fresh "s" in intros r s' A
  end.

(** The same for a call whose result is tested. *)
Ltac scan lem :=
  first [apply swp_try | apply swp_unwrap]; scan_call lem;
  match goal with
  | r : result bool, L : after _ _ _ |- _ => destruct r as [[|]|]; cbv beta iota delta [matched] in L
  end; simpl negb; cbv iota.

(** The function is done. *)
Ltac scan_done :=
  match goal with
  | HQ : (forall r s, parsed _ _ r s -> ?Q r s), A : after _ _ ?s |- _ =>
      apply HQ; unfold parsed; simpl; eapply after_le; [|exact A]; simpl; lia
  end.

Lemma swp_parse_key n s0 Q s :
  in_text s0 -> after n s0 s -> 0 <= n -> (forall r s', parsed n s0 r s' -> Q r s') -> swp parse_key Q s.
Proof.
  intros Hs A Hn HQ. unfold parse_key. apply swp_bind. scan_call skip_spaces_forward.
  scan skip_spaced_forward; [|scan_done..].
  apply (swp_read_text _ _ (n + 0 + 1) s0); [done..|lia| |]; clear A; [|intros e s' A; scan_done].
  intros l s' A. scan skip_spaced_forward; [|scan_done..].
  apply swp_bind. scan_call skip_spaces_forward. scan skip_spaced_forward; scan_done.
Qed.

Lemma swp_end_of_object v n s0 Q s :
  in_text s0 -> after n s0 s -> 0 <= n -> (forall r s', parsed n s0 r s' -> Q r s') -> swp (end_of_object v) Q s.
Proof.
  intros Hs A Hn HQ. unfold end_of_object. apply swp_bind. scan_call skip_spaces_forward.
  scan skip_forward; scan_done.
Qed.

Lemma swp_end_of_array v n s0 Q s :
  in_text s0 -> after n s0 s -> 0 <= n -> (forall r s', parsed n s0 r s' -> Q r s') -> swp (end_of_array v) Q s.
Proof.
  intros Hs A Hn HQ. unfold end_of_array. apply swp_bind.
  scan skip_spaced_forward; try scan_done; done.
Qed.

Lemma swp_parse_scalar v s0 Q s :
  in_text s0 -> after 0 s0 s -> (forall r s', parsed 1 s0 r s' -> Q r s') -> swp (parse_scalar v) Q s.
Proof.
  intros Hs A HQ. unfold parse_scalar.
  do 3 (apply swp_bind; scan skip_string_forward; [unfold lit_true, lit_false, lit_null in A; simpl in A; scan_done| |done]).
  unfold parse_string_or_number. apply swp_bind. scan skip_spaced_forward; [| |done].
  - apply (swp_read_text _ _ (0 + 0 + 0 + 0 + 1) s0); [done..|lia| |]; clear A; [|intros e s' A; scan_done].
    intros l s' A. simpl. apply swp_bind. scan_call skip_forward. destruct r as [[]|]; scan_done.
  - apply swp_bind, swp_skip_int; [by eapply after_in_text; [|exact Hs|exact A]; lia|].
    intros r s' B. pose proof (after_trans _ _ _ _ _ A B) as C. clear A B. destruct r as [z|e]; simpl is_error in C.
    + rename C into A. scan_done.
    + rename C into A. apply swp_bind, swp_unwrap. scan_call read_until_forward. destruct r; [scan_done|done].
Qed.

(** The fuel that is enough when the cursor is [n] characters after that of [s0]. *)
Definition left (s0 : Scanner) (n : Z) : Z := 2 * (size s0 - _cursor s0 - n).

Lemma left_pos n s0 s : after n s0 s -> 0 <= left s0 n.
Proof. intros [_ H]. unfold left. lia. Qed.

Definition parse_ends (fuel : nat) : Prop :=
  (forall s0 s Q n, in_text s0 -> after n s0 s -> 0 <= n -> left s0 n + 2 <= Z.of_nat fuel ->
     (forall r s', parsed (n + 1) s0 r s' -> Q r s') -> swp (parse_json_value fuel) Q s).

Definition loop_ends (fuel : nat) (loop : JsonValue -> Sc (result JsonValue)) : Prop :=
  forall v n s0 s Q, in_text s0 -> after n s0 s -> 0 <= n -> left s0 n + 3 <= Z.of_nat fuel ->
    (forall r s', parsed n s0 r s' -> Q r s') -> swp (loop v) Q s.

(** What is left for [lia] when one of the loops goes on. *)
Ltac fuel_lia := unfold left in *; simpl; lia.

Lemma value_ends_S fuel :
  loop_ends fuel (object_loop fuel) -> loop_ends fuel (array_loop fuel) -> parse_ends (S fuel).
Proof.
  intros IHo IHa s0 s Q n Hs A Hn Hf HQ. cbn [parse_json_value].
  apply swp_bind. scan skip_spaced_forward; [| |done].
  - apply swp_bind. scan skip_spaced_forward; [scan_done| |done].
    apply (IHo _ (n + 1 + 0) s0); [done..|lia|fuel_lia|]. intros r s' P.
    apply HQ. unfold parsed in *. eapply after_le; [|exact P]. destruct r; simpl; lia.
  - apply swp_bind. scan skip_spaced_forward; [| |done].
    + apply swp_bind. scan skip_spaced_forward; [scan_done| |done].
      apply (IHa _ (n + 0 + 1 + 0) s0); [done..|lia|fuel_lia|]. intros r s' P.
      apply HQ. unfold parsed in *. eapply after_le; [|exact P]. destruct r; simpl; lia.
    + assert (Hs' : in_text s2) by (eapply after_in_text; [|exact Hs|exact A]; lia).
      apply (swp_parse_scalar _ s2); [done|by apply after_refl|]. intros r s' P.
      apply HQ. unfold parsed in *. eapply after_le; [|eapply after_trans; [exact A|exact P]].
      destruct r; simpl; lia.
Qed.

Lemma object_ends_S fuel :
  parse_ends fuel -> loop_ends fuel (object_loop fuel) -> loop_ends (S fuel) (object_loop (S fuel)).
Proof.
  intros IHv IHo v n s0 s Q Hs A Hn Hf HQ. cbn [object_loop].
  unfold swp. destruct (ended s); [by apply (swp_end_of_object _ n s0)|].
  apply swp_try, (swp_parse_key n s0); [done..|]. intros [key|e] s1 P; [|by apply HQ].
  unfold parsed in P. simpl in P.
  apply swp_try, (IHv s0 _ _ n); [done..|fuel_lia|]. intros [val|e] s2 P2; [|by apply HQ].
  unfold parsed in P2. simpl in P2. clear A P. rename P2 into A.
  scan skip_spaced_forward; [| |scan_done].
  - apply (IHo _ (n + 1 + 1) s0); [done..|lia|fuel_lia|]. intros r s' P.
    apply HQ. unfold parsed in *. eapply after_le; [|exact P]. destruct r; simpl; lia.
  - apply (swp_end_of_object _ (n + 1 + 0) s0); [done..|lia|]. intros r s' P.
    apply HQ. unfold parsed in *. eapply after_le; [|exact P]. destruct r; simpl; lia.
Qed.

Lemma array_ends_S fuel :
  parse_ends fuel -> loop_ends fuel (array_loop fuel) -> loop_ends (S fuel) (array_loop (S fuel)).
Proof.
  intros IHv IHa v n s0 s Q Hs A Hn Hf HQ. cbn [array_loop].
  unfold swp. destruct (ended s); [by apply (swp_end_of_array _ n s0)|].
  apply swp_try, (IHv s0 _ _ n); [done..|fuel_lia|]. intros [val|e] s2 P2; [|by apply HQ].
  unfold parsed in P2. simpl in P2. clear A. rename P2 into A.
  apply swp_bind. scan_call skip_spaces_forward.
  apply swp_bind. scan skip_spaced_forward; [| |done].
  - apply (IHa _ (n + 1 + 0 + 1) s0); [done..|lia|fuel_lia|]. intros r' s' P.
    apply HQ. unfold parsed in *. eapply after_le; [|exact P]. destruct r'; simpl; lia.
  - apply (swp_end_of_array _ (n + 1 + 0 + 0) s0); [done..|lia|]. intros r' s' P.
    apply HQ. unfold parsed in *. eapply after_le; [|exact P]. destruct r'; simpl; lia.
Qed.

Lemma parser_ends fuel :
  parse_ends fuel /\ loop_ends fuel (object_loop fuel) /\ loop_ends fuel (array_loop fuel).
Proof.
  induction fuel as [|fuel (IHv & IHo & IHa)].
  - split_and!; unfold parse_ends, loop_ends; intros; exfalso;
      match goal with A : after _ _ _ |- _ => pose proof (left_pos _ _ _ A); lia end.
  - split_and!; [by apply value_ends_S|by apply object_ends_S|by apply array_ends_S].
Qed.

(** C31: The parser ends on every text: it returns a value or an error, or stops the
    program (at the end of the text, or on a number that is not an [int]); it
    never goes on for ever, and what it returns leaves the cursor in the text, a
    character further at least when it is a value. *)
Theorem parse_ends_on_every_text reader :
  zlen reader < 2 ^ 63 ->
  ends (fun r => after (if is_error r.1 then 0 else 1) (scanner reader) r.2)
    (parse_json_value (parse_fuel (scanner reader)) (scanner reader)) /\
  parse reader <> NoFuel.
Proof.
  intros Hz. assert (Hs : in_text (scanner reader)) by (split; [unfold size; simpl; lia|done]).
  destruct (parser_ends (parse_fuel (scanner reader))) as [H _].
  assert (E : swp (parse_json_value (parse_fuel (scanner reader))) (parsed 1 (scanner reader)) (scanner reader)).
  { apply (H (scanner reader) _ _ 0); [done|by apply after_refl|lia| |done].
    unfold left, parse_fuel. pose proof (length_rest _ Hs). unfold size in *. simpl in *. lia. }
  split; [exact E|]. unfold parse. unfold swp in E.
  destruct (parse_json_value _ _) as [[r s']| |]; done.
Qed.

Lemma parse_ends_on_every_text_witness : parse [123; 34; 97; 34; 58] <> NoFuel.
Proof. apply (parse_ends_on_every_text [123; 34; 97; 34; 58]). simpl. lia. Defined.

(** ** Access to members and elements *)

Lemma find_key_first k ks1 ks2 vs v : forall i,
  0 <= i -> k ∉ ks1 -> aget vs (i + zlen ks1) = Some v -> find_key k (ks1 ++ k :: ks2) vs i = Ret (Some v).
Proof.
  induction ks1 as [|k1 ks1 IH]; intros i Hi H Hv; simpl.
  - rewrite bool_decide_eq_true_2 by done. rewrite Z.add_0_r in Hv. by rewrite Hv.
  - apply not_elem_of_cons in H as [H1 H2]. rewrite bool_decide_eq_false_2 by congruence.
    apply IH; [lia|done|]. rewrite <- Hv. f_equal. len_lia.
Qed.

Lemma find_key_none k ks vs i : k ∉ ks -> find_key k ks vs i = Ret None.
Proof.
  revert i. induction ks as [|k1 ks IH]; intros i H; simpl; [done|].
  apply not_elem_of_cons in H as [H1 H2]. rewrite bool_decide_eq_false_2 by congruence. by apply IH.
Qed.

(** [get] gives the value of the first member with the key, and refuses a key that
    no member has; the order of the members and other members do not matter. *)
Lemma get_key_spec v k :
  type v = Object -> length (keys v) = length (values v) ->
  (k ∉ keys v -> get_key v k = Ret (Error "Key not found")) /\
  (forall n, keys v !! n = Some k -> (forall m, (m < n)%nat -> keys v !! m <> Some k) ->
     exists c, values v !! n = Some c /\ get_key v k = Ret (Value c)).
Proof.
  intros Ht Hl. unfold get_key. rewrite bool_decide_eq_true_2 by done. simpl. split.
  - intros H. by rewrite find_key_none.
  - intros n Hn Hfirst. destruct (lookup_lt_is_Some_2 (values v) n) as [c Hc].
    { rewrite <- Hl. by eapply lookup_lt_Some. }
    exists c. split; [done|]. rewrite <- (take_drop_middle _ _ _ Hn).
    pose proof (lookup_lt_Some _ _ _ Hn).
    rewrite (find_key_first _ _ _ _ c); [done|lia| |].
    + intros (m & Hm)%list_elem_of_lookup. apply (Hfirst m).
      * apply lookup_lt_Some in Hm. revert Hm. len_simpl. lia.
      * rewrite lookup_take in Hm. by case_decide.
    + rewrite <- aget_nat in Hc. rewrite <- Hc. f_equal. len_lia.
Qed.
