(* ===== verification/JsonText.v ===== *)
(** JSON texts and the values they stand for, and that the parser reads them. *)

From S2P Require Import Prelude Scanner Json JsonSpec.

(** * The grammar

    What RFC 8259 defines, less what the parser does not handle (escapes in
    strings, fractions and exponents, numbers that are not an [int]); leading
    zeros and a plus sign are read too. *)

Definition JNull : JsonValue := JsonValue_init.
Definition JBoolean (b : bool) : JsonValue := mk_JsonValue Boolean [] b 0 [] [].
Definition JNumber (n : Z) : JsonValue := mk_JsonValue Number [] false n [] [].
Definition JString (s : list Z) : JsonValue := mk_JsonValue String_ s false 0 [] [].
Definition JArray (vs : list JsonValue) : JsonValue := mk_JsonValue Array [] false 0 vs [].
Definition JObject (ks : list (list Z)) (vs : list JsonValue) : JsonValue := mk_JsonValue Object [] false 0 vs ks.

(** A key and the colon after it. *)
Inductive key_text : list Z -> list Z -> Prop :=
| key_text_intro ws1 k ws2 :
    spaces ws1 -> 34 ∉ k -> spaces ws2 -> key_text k (ws1 ++ 34 :: k ++ 34 :: ws2 ++ [58]).

Inductive json_text : list Z -> JsonValue -> Prop :=
| text_null : json_text lit_null JNull
| text_true : json_text lit_true (JBoolean true)
| text_false : json_text lit_false (JBoolean false)
| text_number sg neg d ds :
    sign sg neg -> digits (d :: ds) -> dec 0 (d :: ds) < 2 ^ 31 ->
    json_text (sg ++ d :: ds) (JNumber (if neg then - dec 0 (d :: ds) else dec 0 (d :: ds)))
| text_string s : 34 ∉ s -> json_text (34 :: s ++ [34]) (JString s)
| text_array_empty ws : spaces ws -> json_text (91 :: ws ++ [93]) (JArray [])
| text_array t vs : elements t vs -> json_text (91 :: t) (JArray vs)
| text_object_empty ws : spaces ws -> json_text (123 :: ws ++ [125]) (JObject [] [])
| text_object t ks vs : members t ks vs -> json_text (123 :: t) (JObject ks vs)
(** What follows the opening bracket. *)
with elements : list Z -> list JsonValue -> Prop :=
| elements_last ws1 t v ws2 :
    spaces ws1 -> json_text t v -> spaces ws2 -> elements (ws1 ++ t ++ ws2 ++ [93]) [v]
| elements_more ws1 t v ws2 t' vs :
    spaces ws1 -> json_text t v -> spaces ws2 -> elements t' vs ->
    elements (ws1 ++ t ++ ws2 ++ 44 :: t') (v :: vs)
(** What follows the opening brace. *)
with members : list Z -> list (list Z) -> list JsonValue -> Prop :=
| members_last k kt ws1 t v ws2 :
    key_text k kt -> spaces ws1 -> json_text t v -> spaces ws2 -> members (kt ++ ws1 ++ t ++ ws2 ++ [125]) [k] [v]
| members_more k kt ws1 t v ws2 t' ks vs :
    key_text k kt -> spaces ws1 -> json_text t v -> spaces ws2 -> members t' ks vs ->
    members (kt ++ ws1 ++ t ++ ws2 ++ 44 :: t') (k :: ks) (v :: vs).

Scheme json_text_mut := Minimality for json_text Sort Prop
with elements_mut := Minimality for elements Sort Prop
with members_mut := Minimality for members Sort Prop.
Combined Scheme json_text_mutind from json_text_mut, elements_mut, members_mut.

(** * Running the parser *)

Lemma bind_run {A B} (m : Sc A) (f : A -> Sc B) s a s' : m s = Ret (a, s') -> (m ≫= f) s = f a s'.
Proof. unfold mbind, Sc_bind. by intros ->. Qed.

Lemma try_run {A B} (m : Sc (result A)) (f : A -> Sc (result B)) s a s' :
  m s = Ret (Value a, s') -> sc_try m f s = f a s'.
Proof. intros E. unfold sc_try. by rewrite (bind_run _ _ _ _ _ E). Qed.

Lemma unwrap_run {A} (m : Sc (result A)) s a s' : m s = Ret (Value a, s') -> sc_unwrap m s = Ret (a, s').
Proof. intros E. unfold sc_unwrap. by rewrite (bind_run _ _ _ _ _ E). Qed.

(** The next test of a character sees [c] after the spaces [ws]. *)
Ltac sees ws c :=
  first [erewrite try_run by (apply (skip_spaced_between _ ws _ c); first [done|constructor])
        |erewrite bind_run by (apply unwrap_run, (skip_spaced_between _ ws _ c); first [done|constructor])];
  cbn [Z.eqb Pos.eqb negb]; cbv beta iota; rewrite ?app_nil_r.

Lemma parse_scalar_reached fuel pre ws c l :
  spaces ws -> hd_error l = Some c -> is_space c = false -> c <> 123 -> c <> 91 ->
  parse_json_value (S fuel) (between pre (ws ++ l)) = parse_scalar JsonValue_init (between (pre ++ ws) l).
Proof.
  intros Hws Hl Hc H1 H2. destruct l as [|c' l]; [done|]. injection Hl as ->. cbn [parse_json_value].
  sees ws c. rewrite (proj2 (Z.eqb_neq c 123)) by done. sees (@nil Z) c.
  by rewrite (proj2 (Z.eqb_neq c 91)) by done.
Qed.

(** What is read: the value, and the cursor goes after the text. *)
Definition value_read (t : list Z) (v : JsonValue) : Prop :=
  forall fuel pre ws l,
    spaces ws -> (2 * length t <= fuel)%nat -> (5 <= length l)%nat -> not_digit l ->
    zlen (pre ++ ws ++ t ++ l) < 2 ^ 63 ->
    parse_json_value fuel (between pre (ws ++ t ++ l)) = Ret (Value v, between (pre ++ ws ++ t) l).

Ltac fuel_S fuel := destruct fuel as [|fuel]; [exfalso; match goal with H : (_ <= 0)%nat |- _ => revert H; len_simpl; simpl; lia end|].

(** A test of a literal that starts with another character. *)
Lemma literal_other {A} v c str (f : bool -> Sc A) pre l :
  hd_error str = Some v -> hd_error l = Some c -> c <> v ->
  zlen (pre ++ l) < 2 ^ 63 -> (length str <= length l)%nat ->
  (sc_unwrap (skip_string str) ≫= f) (between pre l) = f false (between pre l).
Proof.
  intros Hv Hh Hc Hz Hl. destruct l as [|c' l]; [done|]. injection Hh as ->. destruct str as [|v' str]; [done|]. injection Hv as ->.
  erewrite bind_run; [done|]. apply unwrap_run, skip_string_other; simpl in *; done || lia.
Qed.

Lemma literal_same {A} str (f : bool -> Sc A) pre l :
  zlen (pre ++ str ++ l) < 2 ^ 63 ->
  (sc_unwrap (skip_string str) ≫= f) (between pre (str ++ l)) = f true (between (pre ++ str) l).
Proof. intros. erewrite bind_run; [done|]. by apply unwrap_run, skip_string_between. Qed.

Lemma scalar_other result pre c l :
  hd_error l = Some c -> c <> 116 -> c <> 102 -> c <> 110 -> (5 <= length l)%nat -> zlen (pre ++ l) < 2 ^ 63 ->
  parse_scalar result (between pre l) = parse_string_or_number result (between pre l).
Proof.
  intros Hc H1 H2 H3 Hl Hz. unfold parse_scalar.
  rewrite (literal_other 116 c), (literal_other 102 c), (literal_other 110 c) by (done || simpl; lia). done.
Qed.

Lemma read_literals :
  value_read lit_null JNull /\ value_read lit_true (JBoolean true) /\ value_read lit_false (JBoolean false).
Proof.
  split_and!; intros fuel pre ws l Hws Hfuel Hl Hd Hz; fuel_S fuel; rewrite (app_assoc pre) in Hz.
  - rewrite (parse_scalar_reached _ _ _ 110) by done. unfold parse_scalar.
    rewrite (literal_other 116 110), (literal_other 102 110) by (done || simpl; lia).
    rewrite literal_same by done. by rewrite <- app_assoc.
  - rewrite (parse_scalar_reached _ _ _ 116) by done. unfold parse_scalar.
    rewrite literal_same by done. by rewrite <- app_assoc.
  - rewrite (parse_scalar_reached _ _ _ 102) by done. unfold parse_scalar.
    rewrite (literal_other 116 102) by (done || simpl; lia).
    rewrite literal_same by done. by rewrite <- app_assoc.
Qed.

Lemma str_between pre x l : str (mk_MemView (zlen pre) (zlen x)) (between (pre ++ x) l) = Ret (x, between (pre ++ x) l).
Proof. unfold str. by rewrite view_between. Qed.

Lemma read_string s : 34 ∉ s -> value_read (34 :: s ++ [34]) (JString s).
Proof.
  intros Hs fuel pre ws l Hws Hfuel Hl Hd Hz. fuel_S fuel. rewrite (app_assoc pre) in Hz.
  rewrite (parse_scalar_reached _ _ _ 34) by done.
  rewrite (scalar_other _ _ 34) by (done || len_lia). simpl app. rewrite <- app_assoc. simpl app.
  unfold parse_string_or_number. sees (@nil Z) 34.
  erewrite try_run by (by apply read_until_between). erewrite bind_run by apply str_between.
  erewrite bind_run by apply skip_between. rewrite <- !app_assoc. done.
Qed.

Lemma sign_head sg neg d ds l :
  sign sg neg -> digits (d :: ds) -> exists c, hd_error (sg ++ (d :: ds) ++ l) = Some c /\ 43 <= c <= 57.
Proof.
  intros Hs H%Forall_inv. unfold is_digit in H. destruct Hs; simpl; eexists; split; try done; lia.
Qed.

Lemma read_number sg neg d ds :
  sign sg neg -> digits (d :: ds) -> dec 0 (d :: ds) < 2 ^ 31 ->
  value_read (sg ++ d :: ds) (JNumber (if neg then - dec 0 (d :: ds) else dec 0 (d :: ds))).
Proof.
  intros Hs Hds Hmax fuel pre ws l Hws Hfuel Hl Hd Hz. fuel_S fuel. rewrite (app_assoc pre) in Hz.
  rewrite <- (app_assoc sg) in *. destruct (sign_head sg neg d ds l Hs Hds) as (c & Hc & Hr).
  rewrite (parse_scalar_reached _ _ _ c) by (done || (unfold is_space; lia) || lia).
  rewrite (scalar_other _ _ c) by (done || lia || (len_simpl; simpl; lia)).
  unfold parse_string_or_number.
  destruct (sg ++ (d :: ds) ++ l) as [|c' l'] eqn:E; [done|]. injection Hc as ->.
  erewrite bind_run by (apply unwrap_run, (skip_spaced_between _ [] _ c); [constructor|unfold is_space; lia]).
  rewrite (proj2 (Z.eqb_neq c 34)) by lia. cbv beta iota. rewrite app_nil_r, <- E.
  erewrite bind_run by (by apply skip_int_between). cbv beta iota. by rewrite <- app_assoc.
Qed.

(** ** Arrays *)

Definition push_values (vs : list JsonValue) (ks : list (list Z)) (r : JsonValue) : JsonValue :=
  mk_JsonValue (type r) (raw r) (boolean r) (integer r) (values r ++ vs) (keys r ++ ks).

Definition elements_read (t : list Z) (vs : list JsonValue) : Prop :=
  forall fuel pre l result,
    (2 * length t + 1 <= fuel)%nat -> (5 <= length l)%nat -> zlen (pre ++ t ++ l) < 2 ^ 63 ->
    array_loop fuel result (between pre (t ++ l)) =
      Ret (Value (set_type Array (push_values vs [] result)), between (pre ++ t) l).

Lemma spaces_not_digit ws c l : spaces ws -> is_digit c = false -> not_digit (ws ++ c :: l).
Proof.
  intros H Hc. destruct H as [|w ws Hw _]; simpl; [done|]. unfold is_space, is_digit in *. lia.
Qed.

Lemma ended_more pre l : l <> [] -> ended (between pre l) = false.
Proof. rewrite ended_between. by destruct l. Qed.

Lemma read_elements_last ws1 t v ws2 :
  spaces ws1 -> value_read t v -> spaces ws2 -> elements_read (ws1 ++ t ++ ws2 ++ [93]) [v].
Proof.
  intros H1 Hv H2 fuel pre l result Hfuel Hl Hz. fuel_S fuel. cbn [array_loop].
  rewrite ended_more by (destruct ws1, t, ws2; done).
  rewrite <- !app_assoc in *. simpl app in *.
  erewrite try_run.
  2: { apply Hv; [done| | | |done]; revert Hfuel; len_simpl; simpl; [lia|lia|].
       intros _. by apply spaces_not_digit. }
  erewrite bind_run by (by apply skip_spaces_between). cbv zeta.
  sees (@nil Z) 93. unfold end_of_array. sees (@nil Z) 93.
  unfold push_values. rewrite <- !app_assoc, app_nil_r. done.
Qed.

Lemma read_elements_more ws1 t v ws2 t' vs :
  spaces ws1 -> value_read t v -> spaces ws2 -> elements_read t' vs ->
  elements_read (ws1 ++ t ++ ws2 ++ 44 :: t') (v :: vs).
Proof.
  intros H1 Hv H2 IH fuel pre l result Hfuel Hl Hz. fuel_S fuel. cbn [array_loop].
  rewrite ended_more by (destruct ws1, t, ws2; done).
  rewrite <- !app_assoc in *. simpl app in *.
  erewrite try_run.
  2: { apply Hv; [done| | | |done]; revert Hfuel; len_simpl; simpl; [lia|lia|].
       intros _. by apply spaces_not_digit. }
  erewrite bind_run by (by apply skip_spaces_between). cbv zeta.
  sees (@nil Z) 44. rewrite IH.
  - unfold push_values. simpl. rewrite <- !app_assoc. done.
  - revert Hfuel. len_simpl. simpl. lia.
  - done.
  - revert Hz. len_simpl. simpl. lia.
Qed.

(** ** Objects *)

Definition members_read (t : list Z) (ks : list (list Z)) (vs : list JsonValue) : Prop :=
  forall fuel pre l result,
    (2 * length t + 1 <= fuel)%nat -> (5 <= length l)%nat -> zlen (pre ++ t ++ l) < 2 ^ 63 ->
    object_loop fuel result (between pre (t ++ l)) = Ret (Value (push_values vs ks result), between (pre ++ t) l).

Lemma read_key k kt pre l : key_text k kt -> parse_key (between pre (kt ++ l)) = Ret (Value k, between (pre ++ kt) l).
Proof.
  intros H. destruct H as [ws1 k ws2 H1 Hk H2]. unfold parse_key.
  rewrite <- !app_assoc. simpl app. rewrite <- !app_assoc. simpl app. rewrite <- !app_assoc.
  erewrite bind_run by (by apply skip_spaces_between). sees (@nil Z) 34.
  erewrite try_run by (by apply read_until_between). erewrite bind_run by apply str_between.
  sees (@nil Z) 34. simpl app. erewrite bind_run by (by apply skip_spaces_between). sees (@nil Z) 58.
  rewrite <- !app_assoc. done.
Qed.

Lemma key_text_not_nil k kt l : key_text k kt -> kt ++ l <> [].
Proof. intros H. destruct H as [ws1]. by destruct ws1. Qed.

Lemma read_members_last k kt ws1 t v ws2 :
  key_text k kt -> spaces ws1 -> value_read t v -> spaces ws2 -> members_read (kt ++ ws1 ++ t ++ ws2 ++ [125]) [k] [v].
Proof.
  intros Hk H1 Hv H2 fuel pre l result Hfuel Hl Hz. fuel_S fuel. cbn [object_loop].
  rewrite <- !app_assoc in *. simpl app in *. rewrite ended_more by (by eapply key_text_not_nil).
  erewrite try_run by (by apply read_key).
  erewrite try_run.
  2: { apply Hv; [done| | | |]; revert Hfuel Hz; len_simpl; simpl; try lia.
       intros _ _. by apply spaces_not_digit. }
  cbv zeta. sees ws2 125. unfold end_of_object. erewrite bind_run by (apply (skip_spaces_between _ []); [constructor|done]).
  erewrite try_run by apply skip_between. cbn [Z.eqb Pos.eqb negb]. cbv beta iota.
  unfold push_values. rewrite ?app_nil_r, <- !app_assoc. done.
Qed.

Lemma read_members_more k kt ws1 t v ws2 t' ks vs :
  key_text k kt -> spaces ws1 -> value_read t v -> spaces ws2 -> members_read t' ks vs ->
  members_read (kt ++ ws1 ++ t ++ ws2 ++ 44 :: t') (k :: ks) (v :: vs).
Proof.
  intros Hk H1 Hv H2 IH fuel pre l result Hfuel Hl Hz. fuel_S fuel. cbn [object_loop].
  rewrite <- !app_assoc in *. simpl app in *. rewrite ended_more by (by eapply key_text_not_nil).
  erewrite try_run by (by apply read_key).
  erewrite try_run.
  2: { apply Hv; [done| | | |]; revert Hfuel Hz; len_simpl; simpl; try lia.
       intros _ _. by apply spaces_not_digit. }
  cbv zeta. sees ws2 44. rewrite IH.
  - unfold push_values. simpl. rewrite <- !app_assoc. done.
  - revert Hfuel. len_simpl. simpl. lia.
  - done.
  - revert Hz. len_simpl. simpl. lia.
Qed.

(** ** Every text *)

Lemma json_text_head t v : json_text t v -> exists c t', t = c :: t' /\ is_space c = false /\ c <> 93.
Proof.
  intros H. destruct H as [| | |sg neg d ds Hs Hds _| | | | |]; try by eexists _, _; split_and!.
  apply Forall_inv in Hds. unfold is_digit in Hds. unfold is_space.
  destruct Hs; eexists _, _; split_and!; try done; lia.
Qed.

(** The test for an empty array or object takes the spaces before the first
    character [c], which is not the closing one. *)
Definition starts (P : list Z -> Prop) (closing : Z) (t : list Z) : Prop :=
  exists ws c u, t = ws ++ c :: u /\ spaces ws /\ is_space c = false /\ c <> closing /\
    forall ws', spaces ws' -> P (ws' ++ c :: u).

Lemma starts_all P closing t : starts P closing t -> P t.
Proof. intros (ws & c & u & -> & H & _ & _ & HP). by apply HP. Qed.

Lemma starts_intro (P : list Z -> Prop) closing ws1 t v u :
  json_text t v -> spaces ws1 -> closing = 93 -> (forall ws, spaces ws -> P (ws ++ t ++ u)) ->
  starts P closing (ws1 ++ t ++ u).
Proof.
  intros Ht H1 -> HP. destruct (json_text_head _ _ Ht) as (c & t' & -> & Hc & Hn).
  by exists ws1, c, (t' ++ u).
Qed.

Lemma starts_key (P : list Z -> Prop) k kt u :
  key_text k kt -> (forall kt, key_text k kt -> P (kt ++ u)) -> starts P 125 (kt ++ u).
Proof.
  intros [ws1 k' ws2 H1 Hk H2] HP. exists ws1, 34, ((k' ++ 34 :: ws2 ++ [58]) ++ u).
  rewrite <- (app_assoc ws1). simpl. rewrite <- !app_assoc. split_and!; try done.
  intros ws Hw. specialize (HP _ (key_text_intro ws k' ws2 Hw Hk H2)).
  rewrite <- !app_assoc in HP. simpl in HP. rewrite <- !app_assoc in HP. done.
Qed.

Lemma read_array t vs : starts (fun t => elements_read t vs) 93 t -> value_read (91 :: t) (JArray vs).
Proof.
  intros (w & c & u & -> & Hw & Hc & Hn & H) fuel pre ws l Hws Hfuel Hl Hd Hz. fuel_S fuel.
  cbn [parse_json_value]. simpl app in *. sees ws 91. sees (@nil Z) 91.
  rewrite <- (app_assoc w) in *. simpl app in *. sees w c. rewrite (proj2 (Z.eqb_neq _ _) Hn).
  pose proof (H [] ltac:(constructor)) as R. unfold elements_read, members_read in R. simpl app in R.
  rewrite R; [|revert Hfuel Hz; len_simpl; simpl; try lia..].
  simpl. rewrite <- !app_assoc. done.
Qed.

Lemma read_object t ks vs : starts (fun t => members_read t ks vs) 125 t -> value_read (123 :: t) (JObject ks vs).
Proof.
  intros (w & c & u & -> & Hw & Hc & Hn & H) fuel pre ws l Hws Hfuel Hl Hd Hz. fuel_S fuel.
  cbn [parse_json_value]. simpl app in *. sees ws 123.
  rewrite <- (app_assoc w) in *. simpl app in *. sees w c. rewrite (proj2 (Z.eqb_neq _ _) Hn).
  pose proof (H [] ltac:(constructor)) as R. unfold elements_read, members_read in R. simpl app in R.
  rewrite R; [|revert Hfuel Hz; len_simpl; simpl; try lia..].
  simpl. rewrite <- !app_assoc. done.
Qed.

Lemma read_empty ws1 :
  spaces ws1 -> value_read (91 :: ws1 ++ [93]) (JArray []) /\ value_read (123 :: ws1 ++ [125]) (JObject [] []).
Proof.
  intros H1. split; intros fuel pre ws l Hws Hfuel Hl Hd Hz; fuel_S fuel; cbn [parse_json_value];
    simpl app in *; rewrite <- (app_assoc ws1) in *; simpl app in *.
  - sees ws 91. sees (@nil Z) 91. sees ws1 93. rewrite <- !app_assoc. done.
  - sees ws 123. sees ws1 125. rewrite <- !app_assoc. done.
Qed.

Lemma texts_read :
  (forall t v, json_text t v -> value_read t v) /\
  (forall t vs, elements t vs -> starts (fun t => elements_read t vs) 93 t) /\
  (forall t ks vs, members t ks vs -> starts (fun t => members_read t ks vs) 125 t).
Proof.
  destruct read_literals as (Rn & Rt & Rf).
  apply (json_text_mutind value_read (fun t vs => starts (fun t => elements_read t vs) 93 t)
    (fun t ks vs => starts (fun t => members_read t ks vs) 125 t)); try done.
  - intros. by apply read_number.
  - intros. by apply read_string.
  - intros. by apply read_empty.
  - intros t vs _ H. by apply read_array.
  - intros. by apply read_empty.
  - intros t ks vs _ H. by apply read_object.
  - intros ws1 t v ws2 H1 Ht Hv H2. apply (starts_intro _ _ _ _ v); try done.
    intros ws Hw. by apply read_elements_last.
  - intros ws1 t v ws2 t' vs H1 Ht Hv H2 _ H%starts_all. apply (starts_intro _ _ _ _ v); try done.
    intros ws Hw. by apply read_elements_more.
  - intros k kt ws1 t v ws2 Hk H1 Ht Hv H2. apply (starts_key _ k); [done|].
    intros kt' Hk'. by apply read_members_last.
  - intros k kt ws1 t v ws2 t' ks vs Hk H1 Ht Hv H2 _ H%starts_all. apply (starts_key _ k); [done|].
    intros kt' Hk'. by apply read_members_more.
Qed.

(** C29: The parser reads back every value from each of its texts: any text of the
    grammar, with any spaces where JSON allows them, after any spaces, parses to
    the value it stands for, whatever follows it, when at least 5 characters that
    do not go on a number follow. *)
Theorem parse_reads_every_text ws t v l :
  json_text t v -> spaces ws -> (5 <= length l)%nat -> not_digit l -> zlen (ws ++ t ++ l) < 2 ^ 63 ->
  parse (ws ++ t ++ l) = Ret (Value v).
Proof.
  intros Ht Hws Hl Hd Hz. unfold parse, parse_fuel.
  change (scanner (ws ++ t ++ l)) with (between [] (ws ++ t ++ l)). rewrite rest_between.
  rewrite (proj1 texts_read t v Ht); try done. len_simpl. lia.
Qed.

Lemma parse_reads_every_text_witness :
  parse (chars " [ 12, -7 ,{}] and more") = Ret (Value (JArray [JNumber 12; JNumber (-7); JObject [] []])).
Proof.
  apply (parse_reads_every_text (chars " ") (chars "[ 12, -7 ,{}]") _ (chars " and more")).
  - apply (text_array (chars " 12, -7 ,{}]")).
    apply (elements_more (chars " ") (chars "12") _ [] (chars " -7 ,{}]")); [by repeat constructor| |constructor|].
    { apply (text_number [] false 49 [50]); [constructor|by repeat constructor|done]. }
    apply (elements_more (chars " ") (chars "-7") _ (chars " ") (chars "{}]")); [by repeat constructor| |by repeat constructor|].
    { apply (text_number [45] true 55 []); [constructor|by repeat constructor|done]. }
    apply (elements_last [] (chars "{}") _ []); [constructor| |constructor].
    apply (text_object_empty []). constructor.
  - by repeat constructor.
  - simpl. lia.
  - done.
  - simpl. lia.
Defined.

(** * The end of the text *)

Lemma literal_short {A} str (f : bool -> Sc A) pre l :
  (length l < length str)%nat -> zlen pre + zlen str < 2 ^ 63 ->
  (sc_unwrap (skip_string str) ≫= f) (between pre l) = Trap.
Proof.
  intros Hl Hz. unfold sc_unwrap, skip_string, mbind, Sc_bind, size, between. simpl.
  rewrite wrapu_small by lia. by rewrite (proj2 (Z.ltb_lt _ _)) by len_lia.
Qed.

Lemma not_true s : length s = 4%nat -> s <> lit_true -> skip_string lit_true (between [] s) = Ret (Value false, between [] s).
Proof.
  intros Hl Hs. destruct s as [|c [|y [|z [|u [|]]]]]; try done. unfold skip_string. simpl.
  repeat (match goal with |- context [?a =? ?b] => destruct (Z.eqb_spec a b); simpl; [subst|done] end).
  by destruct Hs.
Qed.

(** Near the end of its text the parser stops the program instead of refusing
    the text: the tests for true, false and null need 4 or 5 characters to be
    left and their errors are unwrapped. No text of 4 characters or fewer that
    starts with the value is read, true, arrays and objects apart: null, a digit,
    a string of two characters all stop it, as the empty text does, and so does a
    number at the end of an array. *)
Theorem short_text_stops s c :
  (length s <= 4)%nat -> hd_error s = Some c -> is_space c = false -> c <> 123 -> c <> 91 -> s <> lit_true ->
  parse s = Trap /\ parse [] = Trap /\ parse (chars "[1]") = Trap.
Proof.
  intros Hl Hc Hs H1 H2 Ht. split; [|done]. unfold parse, parse_fuel.
  change (scanner s) with (between [] ([] ++ s)). rewrite rest_between, Nat.add_comm. cbn [Nat.add].
  rewrite (parse_scalar_reached _ [] [] c) by (done || constructor). simpl app.
  unfold parse_scalar. destruct (decide (length s = 4%nat)) as [E|E].
  - erewrite bind_run by (by apply unwrap_run, not_true). cbv beta iota.
    by rewrite literal_short by (simpl; lia).
  - by rewrite literal_short by (simpl; lia).
Qed.

Lemma short_text_stops_witness :
  parse (chars "null") = Trap /\ parse [] = Trap /\ parse (chars "[1]") = Trap.
Proof. apply (short_text_stops _ 110); done || (simpl; lia). Defined.

(** What the parser returns is well typed: the fields of a value are those of its
    type, an object has as many keys as values, and the numbers are [int]s. *)

Inductive well_typed : JsonValue -> Prop :=
| wt_null : well_typed JNull
| wt_boolean b : well_typed (JBoolean b)
| wt_number n : - 2 ^ 31 < n < 2 ^ 31 -> well_typed (JNumber n)
| wt_string s : well_typed (JString s)
| wt_array vs : Forall well_typed vs -> well_typed (JArray vs)
| wt_object ks vs : length ks = length vs -> Forall well_typed vs -> well_typed (JObject ks vs).

(** * Runs that return a value *)

Lemma Sc_bind_Ret {A B} (m : Sc A) (f : A -> Sc B) s b s' :
  (m ≫= f) s = Ret (b, s') -> exists a s1, m s = Ret (a, s1) /\ f a s1 = Ret (b, s').
Proof. unfold mbind, Sc_bind. destruct (m s) as [[a s1]| |]; naive_solver. Qed.

Lemma try_Ret {A B} (m : Sc (result A)) (f : A -> Sc (result B)) s b s' :
  sc_try m f s = Ret (Value b, s') -> exists a s1, m s = Ret (Value a, s1) /\ f a s1 = Ret (Value b, s').
Proof. intros ([a|e] & s1 & E & H)%Sc_bind_Ret; [by exists a, s1|done]. Qed.

(** The calls of a run, one after the other. *)
Ltac inv_run H :=
  lazymatch type of H with
  | (_ ≫= _) _ = Ret _ => apply Sc_bind_Ret in H as (? & ? & _ & H); cbv beta in H
  | sc_try _ _ _ = Ret _ => apply try_Ret in H as (? & ? & _ & H); cbv beta in H
  | (if ?b then _ else _) _ = Ret _ => destruct b
  | (let _ := _ in _) _ = Ret _ => cbv zeta in H
  | mret _ _ = Ret _ => injection H as; subst
  | fail _ _ = Ret _ => discriminate H
  end.

Lemma digits_loop_small l : forall v c v' c',
  digits_loop l v c = Ret (v', c') -> 0 <= v < 2 ^ 31 -> 0 <= v' < 2 ^ 31.
Proof.
  induction l as [|d l IH]; intros v c v' c' H Hv; simpl in H; [by simplify_eq|].
  destruct (is_digit d) eqn:D; [|by simplify_eq]. case_Z_in H; [done|].
  unfold is_digit in D. apply (IH _ _ _ _ H). lia.
Qed.

Lemma skip_int_small s n s' : skip_int s = Ret (Value n, s') -> - 2 ^ 31 < n < 2 ^ 31.
Proof.
  unfold skip_int. destruct (ended s); [done|]. destruct (char_at s _) as [c| |]; [|done..]. cbn [mbind ctl_bind].
  set (s1 := if _ : bool then _ else _). clearbody s1. cbv zeta. destruct (rest s1) as [|d l] eqn:R; [done|].
  destruct (is_digit d); [|done].
  destruct (digits_loop (d :: l) 0 (_cursor s1)) as [[v c']| |] eqn:E; [|done..]. cbn [mbind ctl_bind].
  intros H. apply digits_loop_small in E; [|lia]. destruct (c =? 45); simplify_eq; lia.
Qed.

Lemma scalar_typed s v s' : parse_scalar JsonValue_init s = Ret (Value v, s') -> well_typed v.
Proof.
  unfold parse_scalar. intros H. do 3 (inv_run H; inv_run H; [inv_run H; constructor|]).
  unfold parse_string_or_number in H. inv_run H. inv_run H.
  - do 3 inv_run H. inv_run H. constructor.
  - apply Sc_bind_Ret in H as ([n|e] & s1 & E & H); [|by apply Sc_bind_Ret in H as (? & ? & _ & ?)].
    inv_run H. constructor. by eapply skip_int_small.
Qed.

Lemma end_of_object_typed ks vs s v s' :
  length ks = length vs -> Forall well_typed vs ->
  end_of_object (JObject ks vs) s = Ret (Value v, s') -> well_typed v.
Proof.
  intros Hl Hv H. unfold end_of_object in H. inv_run H. inv_run H. inv_run H; [inv_run H|]. inv_run H.
  by constructor.
Qed.

Lemma end_of_array_typed vs s v s' :
  Forall well_typed vs -> end_of_array (mk_JsonValue Null [] false 0 vs []) s = Ret (Value v, s') -> well_typed v.
Proof.
  intros Hv H. unfold end_of_array in H. inv_run H. inv_run H; [inv_run H|]. inv_run H. by constructor.
Qed.

Lemma parser_typed fuel :
  (forall s v s', parse_json_value fuel s = Ret (Value v, s') -> well_typed v) /\
  (forall ks vs s v s', length ks = length vs -> Forall well_typed vs ->
     object_loop fuel (JObject ks vs) s = Ret (Value v, s') -> well_typed v) /\
  (forall vs s v s', Forall well_typed vs ->
     array_loop fuel (mk_JsonValue Null [] false 0 vs []) s = Ret (Value v, s') -> well_typed v).
Proof.
  induction fuel as [|fuel (IHv & IHo & IHa)]; [done|]. split_and!.
  - intros s v s' H. cbn [parse_json_value] in H. cbv zeta in H. inv_run H. inv_run H.
    + inv_run H. inv_run H; [inv_run H; by constructor|]. by apply (IHo [] [] _ _ _) in H.
    + inv_run H. inv_run H; [|by apply scalar_typed in H]. inv_run H. inv_run H; [inv_run H; by constructor|].
      by apply (IHa []) in H.
  - intros ks vs s v s' Hl Hv H. cbn [object_loop] in H. destruct (ended s); [by apply end_of_object_typed in H|].
    apply try_Ret in H as (key & s1 & _ & H). apply try_Ret in H as (val & s2 & Ev & H). apply IHv in Ev.
    cbv zeta in H. inv_run H.
    assert (L : length (ks ++ [key]) = length (vs ++ [val])) by len_lia.
    assert (F : Forall well_typed (vs ++ [val])) by (apply Forall_app; by repeat constructor).
    inv_run H; [by apply (end_of_object_typed (ks ++ [key]) (vs ++ [val])) in H|].
    by apply (IHo (ks ++ [key]) (vs ++ [val])) in H.
  - intros vs s v s' Hv H. cbn [array_loop] in H. destruct (ended s); [by apply end_of_array_typed in H|].
    apply try_Ret in H as (val & s1 & Ev & H). apply IHv in Ev. inv_run H. cbv zeta in H. inv_run H.
    assert (F : Forall well_typed (vs ++ [val])) by (apply Forall_app; by repeat constructor).
    inv_run H; [by apply (end_of_array_typed (vs ++ [val])) in H|]. by apply (IHa (vs ++ [val])) in H.
Qed.

(** C30: Every value the parser returns, from any text, is well typed at every
    depth: its fields are those of its type, the others as a fresh value has them,
    an object has one key for each value, and a number is an [int]. So [get] by
    key never looks for a value that is not there. *)
Theorem parsed_values_are_well_typed reader v :
  parse reader = Ret (Value v) ->
  well_typed v /\ (forall k, get_key v k <> Trap) /\ (forall i, 0 <= i -> get_index v i <> Trap).
Proof.
  unfold parse. intros H.
  assert (W : well_typed v).
  { destruct (parse_json_value _ _) as [[r s']| |] eqn:E; try done. injection H as ->.
    by apply (proj1 (parser_typed _)) in E. }
  split; [done|]. split.
  - intros k. unfold get_key. case_bool_decide as Ht; [|done]. cbn [negb].
    assert (Hl : length (keys v) = length (values v)) by (destruct W; done).
    assert (F : forall ks i, 0 <= i -> i + zlen ks <= zlen (values v) -> find_key k ks (values v) i <> Trap).
    { induction ks as [|k' ks IH]; intros i Hi Hks; simpl in *; [done|]. case_bool_decide; [|apply IH; lia].
      destruct (aget_in_range (values v) i) as [c ->]; [lia|done]. }
    specialize (F (keys v) 0 ltac:(lia) ltac:(lia)). destruct (find_key _ _ _ _) as [[c|]| |]; done.
  - intros i Hi. unfold get_index. case_bool_decide; [|done]. cbn [negb]. destruct (Z.ltb_spec i (zlen (values v))); [|done].
    by destruct (aget_in_range (values v) i) as [c ->].
Qed.

Lemma parsed_values_are_well_typed_witness :
  well_typed (JArray [JNumber 12; JNumber (-7); JObject [] []]) /\
  get_index (JArray [JNumber 12; JNumber (-7); JObject [] []]) 5 <> Trap.
Proof.
  destruct (parsed_values_are_well_typed (chars " [ 12, -7 ,{}] and more") (JArray [JNumber 12; JNumber (-7); JObject [] []])
    ltac:(reflexivity)) as (H1 & _ & H2). split; [done|]. by apply (H2 5).
Defined.
