(* ===== verification/Disk.v ===== *)
(** protocols/disk/disk.hpp: the client side of the disk protocol, and what it
    relies on from the server behind the connection.

    A memory object is its bytes, with whether the client's space still holds the
    handle of it: a message moves the handles it carries to the receiver
    (Ipc.update_inplace_message), so a request with the handle of a memory object
    gives the object to the server until the reply brings it back. A mapping of
    the object stays in place all along, so its bytes remain accessible.

    A message with a handle the space does not hold is not sent: the kernel clears
    its arguments (Ipc.send_prologue) and the client, which ignores the result of
    the system call, goes on with zeros. *)

From S2P Require Import Prelude Range Bytes.

(** * The server *)

(** A server of the protocol: [serve_read d lba size off m] is what the memory [m]
    of the object in the request holds when the server replies, [None] when it
    does not reply; [serve_write d lba size m] is the disk after a request to write
    the first [size] bytes of the memory [m]. *)
Class DiskServer (D : Type) := {
  serve_read : D -> Z -> Z -> Z -> list Z -> option (list Z);
  serve_write : D -> Z -> Z -> list Z -> D
}.

(** The contract: the disk is an array of bytes, a request for whole sectors
    inside it transfers them. [accepts off size]: a transfer of [size] bytes may
    start [off] bytes into the memory of the request. *)
Class DiskContract (D : Type) `{DiskServer D} := {
  contents : D -> list Z;
  accepts : Z -> Z -> Prop;
  serve_read_reads : forall d lba size off m,
    0 <= lba -> 0 < size -> size mod 512 = 0 -> lba * 512 + size <= zlen (contents d) ->
    0 <= off -> off + size <= zlen m -> accepts off size ->
    serve_read d lba size off m = Some (patch m off (part (contents d) (lba * 512) size));
  serve_write_writes : forall d lba size m,
    0 <= lba -> 0 < size -> size mod 512 = 0 -> lba * 512 + size <= zlen (contents d) ->
    size <= zlen m -> accepts 0 size ->
    contents (serve_write d lba size m) = patch (contents d) (lba * 512) (part m 0 size)
}.

(** * The client *)

Record MemoryAsset := mk_MemoryAsset { held : bool; memory : list Z }.

Section disk.
Context {D : Type} `{DiskServer D}.

(** [DiskConnection::read]: the result, and the object with what the server wrote
    in it. A call whose server does not reply does not return. *)
Definition disk_read (d : D) (a : MemoryAsset) (lba len asset_start : Z) : ctl (result Z * MemoryAsset) :=
  if negb (len mod 512 =? 0) then Ret (Error "length must be multiple of 512 bytes", a)
  else
    '(bytes_read, a) ← (if held a
                        then m ← deref (serve_read d lba len asset_start (memory a)); Ret (len, mk_MemoryAsset true m)
                        else Ret (0, a));
    if (0 <? len) && (bytes_read =? 0) then Ret (Error "disk read returned no data", a)
    else Ret (Value bytes_read, a).

(** [DiskConnection::write]: the request is sent without waiting for its reply,
    and the handle does not come back. *)
Definition disk_write (d : D) (a : MemoryAsset) (lba len : Z) : D * MemoryAsset :=
  if held a then (serve_write d lba len (memory a), mk_MemoryAsset false (memory a)) else (d, a).

(** [DiskConnection::read_buf] into the memory [fresh] of a new object, which is
    then mapped: the bytes it reads. *)
Definition disk_read_buf (d : D) (lba count : Z) (fresh : list Z) : ctl (result (list Z)) :=
  let aligned_len := alignUp count 512 in
  '(r, a) ← disk_read d (mk_MemoryAsset true fresh) lba aligned_len 0;
  match r with
  | Error e => Ret (Error e)
  | Value bytes_read =>
      if bytes_read <? aligned_len then Ret (Error "disk read returned too few bytes")
      else Ret (Value (memory a))
  end.
End disk.

(** * A disk in memory *)

(** A server that keeps the disk as an array: the reads and writes it does. *)
#[global] Instance ram_disk : DiskServer (list Z) := {
  serve_read d lba size off m :=
    if lba * 512 + size <=? zlen d then Some (patch m off (part d (lba * 512) size)) else None;
  serve_write d lba size m :=
    if lba * 512 + size <=? zlen d then patch d (lba * 512) (part m 0 size) else d
}.

#[global] Program Instance ram_contract : DiskContract (list Z) := {
  contents d := d;
  accepts _ _ := True
}.
Next Obligation. intros d lba size off m ??? Hin **. simpl. by rewrite (proj2 (Z.leb_le _ _) Hin). Qed.
Next Obligation. intros d lba size m ??? Hin **. simpl. by rewrite (proj2 (Z.leb_le _ _) Hin). Qed.
