(* ===== verification/Ext4Layout.v ===== *)
(** app/fs/ext4/ext4.hpp: the structures of the file system as they lie on the
    disk. A packed structure is read and written field after field; of the
    superblock, which is only read, the fields the code uses are read at their
    offsets. *)

From S2P Require Import Prelude Bytes.

(** * Superblock *)

Record Ext4Superblock := mk_Superblock {
  blocks_count_lo : Z;
  first_data_block : Z;
  log_block_size : Z;
  blocks_per_group : Z;
  inodes_per_group : Z;
  magic : Z;
  rev_level : Z;
  inode_size : Z;
  feature_incompat : Z;
  desc_size : Z;
  first_meta_bg : Z
}.

Definition sizeof_Superblock : Z := 360.

Definition superblock_of_bytes (l : list Z) : Ext4Superblock :=
  mk_Superblock (int_at l 4 4) (int_at l 20 4) (int_at l 24 4) (int_at l 32 4) (int_at l 40 4)
    (int_at l 56 2) (int_at l 76 4) (int_at l 88 2) (int_at l 96 4) (int_at l 254 2) (int_at l 260 4).

Definition EXT4_FEAT_META_BG : Z := 0x10.
Definition EXT4_FEAT_64BIT : Z := 0x80.

(** * Block group descriptor *)

Record Ext4BlockGroupDescriptor := mk_Bgd {
  block_bitmap : Z;
  inode_bitmap : Z;
  inode_table : Z;
  free_blocks_count : Z;
  free_inodes_count : Z;
  used_dirs_count : Z;
  block_group_feat : Z;
  block_addr_snapshot : Z;
  checksum_block_usage : Z;
  checksum_inode_usage : Z;
  free_inode_ext : Z;
  chk_sum : Z;
  (** from [high_block_bitmap] on *)
  high_part : list Z
}.

Definition sizeof_Bgd : Z := 68.

Definition bgd_of_bytes (l : list Z) : Ext4BlockGroupDescriptor :=
  let '(block_bitmap, l) := get_int 4 l in
  let '(inode_bitmap, l) := get_int 4 l in
  let '(inode_table, l) := get_int 4 l in
  let '(free_blocks_count, l) := get_int 4 l in
  let '(free_inodes_count, l) := get_int 4 l in
  let '(used_dirs_count, l) := get_int 2 l in
  let '(block_group_feat, l) := get_int 2 l in
  let '(block_addr_snapshot, l) := get_int 4 l in
  let '(checksum_block_usage, l) := get_int 2 l in
  let '(checksum_inode_usage, l) := get_int 2 l in
  let '(free_inode_ext, l) := get_int 2 l in
  let '(chk_sum, l) := get_int 2 l in
  let '(high_part, l) := get_bytes 32 l in
  mk_Bgd block_bitmap inode_bitmap inode_table free_blocks_count free_inodes_count used_dirs_count
    block_group_feat block_addr_snapshot checksum_block_usage checksum_inode_usage free_inode_ext
    chk_sum high_part.

Definition bgd_bytes (b : Ext4BlockGroupDescriptor) : list Z :=
  int_bytes 4 (block_bitmap b) ++ int_bytes 4 (inode_bitmap b) ++ int_bytes 4 (inode_table b) ++
  int_bytes 4 (free_blocks_count b) ++ int_bytes 4 (free_inodes_count b) ++
  int_bytes 2 (used_dirs_count b) ++ int_bytes 2 (block_group_feat b) ++
  int_bytes 4 (block_addr_snapshot b) ++ int_bytes 2 (checksum_block_usage b) ++
  int_bytes 2 (checksum_inode_usage b) ++ int_bytes 2 (free_inode_ext b) ++
  int_bytes 2 (chk_sum b) ++ high_part b.

Definition set_free_blocks_count (b : Ext4BlockGroupDescriptor) (n : Z) : Ext4BlockGroupDescriptor :=
  mk_Bgd (block_bitmap b) (inode_bitmap b) (inode_table b) n (free_inodes_count b) (used_dirs_count b)
    (block_group_feat b) (block_addr_snapshot b) (checksum_block_usage b) (checksum_inode_usage b)
    (free_inode_ext b) (chk_sum b) (high_part b).

(** * Inode *)

Record Ext4Inode := mk_Inode {
  permission : Z;
  file_type : Z;
  uid : Z;
  size_lo : Z;
  atime : Z;
  ctime : Z;
  mtime : Z;
  dtime : Z;
  gid : Z;
  hard_links_count : Z;
  blocks_lo : Z;
  flags : Z;
  osd1 : Z;
  block : list Z;
  generation : Z;
  extended_attr_block : Z;
  size_high : Z;
  obso_faddr : Z;
  osd2 : list Z
}.

Definition sizeof_Inode : Z := 128.

Definition inode_of_bytes (l : list Z) : Ext4Inode :=
  let '(mode, l) := get_int 2 l in
  let '(uid, l) := get_int 2 l in
  let '(size_lo, l) := get_int 4 l in
  let '(atime, l) := get_int 4 l in
  let '(ctime, l) := get_int 4 l in
  let '(mtime, l) := get_int 4 l in
  let '(dtime, l) := get_int 4 l in
  let '(gid, l) := get_int 2 l in
  let '(hard_links_count, l) := get_int 2 l in
  let '(blocks_lo, l) := get_int 4 l in
  let '(flags, l) := get_int 4 l in
  let '(osd1, l) := get_int 4 l in
  let '(block, l) := get_ints 15 4 l in
  let '(generation, l) := get_int 4 l in
  let '(extended_attr_block, l) := get_int 4 l in
  let '(size_high, l) := get_int 4 l in
  let '(obso_faddr, l) := get_int 4 l in
  let '(osd2, l) := get_bytes 12 l in
  mk_Inode (mode mod 2 ^ 12) (mode / 2 ^ 12) uid size_lo atime ctime mtime dtime gid hard_links_count
    blocks_lo flags osd1 block generation extended_attr_block size_high obso_faddr osd2.

Definition inode_bytes (i : Ext4Inode) : list Z :=
  int_bytes 2 (permission i + 2 ^ 12 * file_type i) ++ int_bytes 2 (uid i) ++ int_bytes 4 (size_lo i) ++
  int_bytes 4 (atime i) ++ int_bytes 4 (ctime i) ++ int_bytes 4 (mtime i) ++ int_bytes 4 (dtime i) ++
  int_bytes 2 (gid i) ++ int_bytes 2 (hard_links_count i) ++ int_bytes 4 (blocks_lo i) ++
  int_bytes 4 (flags i) ++ int_bytes 4 (osd1 i) ++ ints_bytes 4 (block i) ++
  int_bytes 4 (generation i) ++ int_bytes 4 (extended_attr_block i) ++ int_bytes 4 (size_high i) ++
  int_bytes 4 (obso_faddr i) ++ osd2 i.

Definition set_blocks_lo (i : Ext4Inode) (n : Z) : Ext4Inode :=
  mk_Inode (permission i) (file_type i) (uid i) (size_lo i) (atime i) (ctime i) (mtime i) (dtime i) (gid i)
    (hard_links_count i) n (flags i) (osd1 i) (block i) (generation i) (extended_attr_block i)
    (size_high i) (obso_faddr i) (osd2 i).

Definition set_block (i : Ext4Inode) (b : list Z) : Ext4Inode :=
  mk_Inode (permission i) (file_type i) (uid i) (size_lo i) (atime i) (ctime i) (mtime i) (dtime i) (gid i)
    (hard_links_count i) (blocks_lo i) (flags i) (osd1 i) b (generation i) (extended_attr_block i)
    (size_high i) (obso_faddr i) (osd2 i).

(** * Directory entry

    Its name is the [name_len] bytes that follow. *)

Record Ext4DirEntry := mk_DirEntry { entry_inode : Z; rec_len : Z; name_len : Z; entry_type : Z }.

Definition sizeof_DirEntry : Z := 8.

Definition dir_entry_of_bytes (l : list Z) : Ext4DirEntry :=
  let '(inode, l) := get_int 4 l in
  let '(rec_len, l) := get_int 2 l in
  let '(name_len, l) := get_int 1 l in
  let '(file_type, l) := get_int 1 l in
  mk_DirEntry inode rec_len name_len file_type.

Definition dir_entry_bytes (e : Ext4DirEntry) : list Z :=
  int_bytes 4 (entry_inode e) ++ int_bytes 2 (rec_len e) ++ int_bytes 1 (name_len e) ++ int_bytes 1 (entry_type e).

(** * The bytes hold what is written *)

Definition fits (n : Z) (v : Z) : Prop := 0 <= v < 2 ^ n.

Definition bgd_fits (b : Ext4BlockGroupDescriptor) : Prop :=
  fits 32 (block_bitmap b) /\ fits 32 (inode_bitmap b) /\ fits 32 (inode_table b) /\
  fits 32 (free_blocks_count b) /\ fits 32 (free_inodes_count b) /\ fits 16 (used_dirs_count b) /\
  fits 16 (block_group_feat b) /\ fits 32 (block_addr_snapshot b) /\ fits 16 (checksum_block_usage b) /\
  fits 16 (checksum_inode_usage b) /\ fits 16 (free_inode_ext b) /\ fits 16 (chk_sum b) /\
  length (high_part b) = 32%nat.

Definition inode_fits (i : Ext4Inode) : Prop :=
  fits 12 (permission i) /\ fits 4 (file_type i) /\ fits 16 (uid i) /\ fits 32 (size_lo i) /\
  fits 32 (atime i) /\ fits 32 (ctime i) /\ fits 32 (mtime i) /\ fits 32 (dtime i) /\ fits 16 (gid i) /\
  fits 16 (hard_links_count i) /\ fits 32 (blocks_lo i) /\ fits 32 (flags i) /\ fits 32 (osd1 i) /\
  length (block i) = 15%nat /\ Forall (fits 32) (block i) /\ fits 32 (generation i) /\
  fits 32 (extended_attr_block i) /\ fits 32 (size_high i) /\ fits 32 (obso_faddr i) /\
  length (osd2 i) = 12%nat /\ Forall byte (osd2 i).

Ltac get_fields :=
  repeat match goal with
  | |- context [get_int ?n (int_bytes ?n ?v ++ ?l)] => rewrite (get_int_app n v l) by (unfold fits in *; lia)
  end.

Lemma bgd_of_bgd_bytes b : bgd_fits b -> bgd_of_bytes (bgd_bytes b) = b.
Proof.
  intros (?&?&?&?&?&?&?&?&?&?&?&?&?). unfold bgd_of_bytes, bgd_bytes. get_fields.
  rewrite <- (app_nil_r (high_part b)), get_bytes_app by done. by destruct b.
Qed.

Lemma inode_of_inode_bytes i : inode_fits i -> inode_of_bytes (inode_bytes i) = i.
Proof.
  intros (?&?&?&?&?&?&?&?&?&?&?&?&?&?&?&?&?&?&?&?&?). unfold inode_of_bytes, inode_bytes. get_fields.
  rewrite get_ints_app by done. get_fields.
  rewrite <- (app_nil_r (osd2 i)), get_bytes_app by done.
  unfold fits in *.
  rewrite (Z.add_comm (permission i)), (Z.mul_comm (2 ^ 12)), Z.add_comm, Z.mod_add, Z.div_add by done.
  rewrite Z.mod_small, Z.div_small by lia. by destruct i.
Qed.

Lemma length_bgd_bytes b : length (high_part b) = 32%nat -> zlen (bgd_bytes b) = sizeof_Bgd.
Proof. intros H. unfold bgd_bytes. rewrite !length_app, !length_int_bytes, H. done. Qed.

Lemma length_inode_bytes i :
  length (block i) = 15%nat -> length (osd2 i) = 12%nat -> zlen (inode_bytes i) = sizeof_Inode.
Proof.
  intros H1 H2. unfold inode_bytes. rewrite !length_app, !length_int_bytes, length_ints_bytes, H1, H2. done.
Qed.

Lemma inode_bytes_byte i : Forall byte (osd2 i) -> Forall byte (inode_bytes i).
Proof.
  intros Ho. unfold inode_bytes. repeat (apply Forall_app; split); auto using int_bytes_byte, ints_bytes_byte.
Qed.
