(* ===== verification/Ext4.v ===== *)
(** app/fs/ext4/ext4.hpp and ext4.cpp: the file system over the disk of Disk.v.

    A pointer the code gets from [read_block_tmp] is the start of one of its
    buffers: the memory of [disk_asset], mapped once, or the buffer of a node of the
    cache. A node is never removed and keeps its buffer when it is given to another
    block, so its index names the buffer. Accesses outside a buffer trap, and so do
    divisions by zero. The shift of [block_size()] is undefined from 32 on, where
    the model has 0. [mem_alloc] is taken to succeed.

    An operation that returns [fc::Result] is an [M S A] of Monads.v. *)

From S2P Require Import Prelude Monads Range Bytes Disk Ext4Layout.

(** * State *)

Record Ext4CacheNode := mk_Node { block_num : Z; data : list Z; score : Z }.

Record Ext4InodeRef := mk_InodeRef { inode_id : Z; inode : Ext4Inode }.

Record Ext4Filesystem (D : Type) := mk_Fs {
  cache_nodes : list Ext4CacheNode;
  disk : D;
  start_lba : Z;
  block_desc_size : Z;
  end_lba : Z;
  superblock : Ext4Superblock;
  bgd_table_start_block : Z;
  disk_asset : MemoryAsset
}.
Arguments mk_Fs {D}. Arguments cache_nodes {D}. Arguments disk {D}. Arguments start_lba {D}.
Arguments block_desc_size {D}. Arguments end_lba {D}. Arguments superblock {D}.
Arguments bgd_table_start_block {D}. Arguments disk_asset {D}.

Definition disk_block_size : Z := 512.

Definition set_cache {D} (s : Ext4Filesystem D) (c : list Ext4CacheNode) : Ext4Filesystem D :=
  mk_Fs c (disk s) (start_lba s) (block_desc_size s) (end_lba s) (superblock s)
    (bgd_table_start_block s) (disk_asset s).
Definition set_asset {D} (s : Ext4Filesystem D) (a : MemoryAsset) : Ext4Filesystem D :=
  mk_Fs (cache_nodes s) (disk s) (start_lba s) (block_desc_size s) (end_lba s) (superblock s)
    (bgd_table_start_block s) a.
Definition set_disk {D} (s : Ext4Filesystem D) (d : D) : Ext4Filesystem D :=
  mk_Fs (cache_nodes s) d (start_lba s) (block_desc_size s) (end_lba s) (superblock s)
    (bgd_table_start_block s) (disk_asset s).

Definition block_size (sb : Ext4Superblock) : Z := u64 (s32 (Z.shiftl 1024 (log_block_size sb))).

(** The block numbers in a block of them: [block_size() / sizeof(uint32_t)]. *)
Definition entries_per_block (sb : Ext4Superblock) : Z := block_size sb / 4.

(** A buffer the code has a pointer to. *)
Inductive buffer := Mapped | Node (i : nat).

#[global] Instance buffer_eq_dec : EqDecision buffer.
Proof. solve_decision. Defined.

Section ext4.
Context {D : Type} `{DiskServer D}.
Local Abbreviation Fs := (Ext4Filesystem D).

Definition blockgroup_from_inode {S} (sb : Ext4Superblock) (inode : Z) : M S Z :=
  quot (u64 (inode - 1)) (inodes_per_group sb).

Definition blockgroup_inode_index {S} (sb : Ext4Superblock) (inode : Z) : M S Z :=
  rem (u64 (inode - 1)) (inodes_per_group sb).

(** The bytes of a buffer. *)
Definition buffer_bytes (s : Fs) (b : buffer) : ctl (list Z) :=
  match b with
  | Mapped => Ret (memory (disk_asset s))
  | Node i => n ← deref (cache_nodes s !! i); Ret (data n)
  end.

Definition set_data (n : Ext4CacheNode) (l : list Z) : Ext4CacheNode := mk_Node (block_num n) l (score n).

Definition set_buffer (s : Fs) (b : buffer) (l : list Z) : Fs :=
  match b with
  | Mapped => set_asset s (mk_MemoryAsset (held (disk_asset s)) l)
  | Node i => set_cache s (alter (fun n => set_data n l) i (cache_nodes s))
  end.

(** Loads and stores through a pointer. *)
Definition load (b : buffer) (off n : Z) : M Fs (list Z) := fun s =>
  l ← buffer_bytes s b; l ← slice l off n; Ret (Value l, s).

Definition store (b : buffer) (off : Z) (bs : list Z) : M Fs unit := fun s =>
  l ← buffer_bytes s b; l ← splice l off bs; Ret (Value tt, set_buffer s b l).

(** The [i]-th element of the array of 32-bit numbers in a buffer. *)
Definition load_u32 (b : buffer) (i : Z) : M Fs Z :=
  l ← load b (u64 (4 * i)) 4; mret (int_of_bytes l).

(** * Blocks *)

Definition block_lba (s : Fs) (block_num : Z) : Z :=
  u64 (start_lba s + u64 (block_num * block_size (superblock s)) / disk_block_size).

(** [disk.read] into [disk_asset], and into another object. *)
Definition read_disk_asset (lba len : Z) : M Fs Z := fun s =>
  '(r, a) ← disk_read (disk s) (disk_asset s) lba len 0; Ret (r, set_asset s a).

Definition read_target (lba len off : Z) : M (MemoryAsset * Fs) Z := fun '(target, s) =>
  '(r, a) ← disk_read (disk s) target lba len off; Ret (r, (a, s)).

(** [read_block_tmp] with a target. *)
Definition read_block_into (block_num mem_asset_off : Z) : M (MemoryAsset * Fs) buffer :=
  s ← beside get;
  let block_bytes := block_size (superblock s) in
  bytes_read ← read_target (block_lba s block_num) block_bytes mem_asset_off;
  if negb (bytes_read =? block_bytes) then fail "short disk read for block" else mret Mapped.

Definition max_chunk_blocks : Z := 1024 * 1024 * 2.

(** The loop of [read_contiguous_blocks], for [fuel] turns. *)
Fixpoint contiguous_loop (fuel : nat) (remaining_blocks cur_block_num cur_asset_off : Z) :
    M (MemoryAsset * Fs) unit :=
  if 0 <? remaining_blocks then
    match fuel with
    | O => out_of_fuel
    | S fuel =>
        s ← beside get;
        let block_bytes := block_size (superblock s) in
        let chunk_blocks := if max_chunk_blocks <? remaining_blocks then max_chunk_blocks else remaining_blocks in
        let chunk_bytes := u64 (chunk_blocks * block_bytes) in
        bytes_read ← read_target (block_lba s cur_block_num) chunk_bytes cur_asset_off;
        if negb (bytes_read =? chunk_bytes) then fail "short disk read for block"
        else contiguous_loop fuel (remaining_blocks - chunk_blocks) (u64 (cur_block_num + chunk_blocks))
               (u64 (cur_asset_off + chunk_bytes))
    end
  else mret tt.

Definition read_contiguous_blocks (block_num block_count mem_asset_off : Z) : M (MemoryAsset * Fs) unit :=
  contiguous_loop (S (Z.to_nat (block_count / max_chunk_blocks))) block_count block_num mem_asset_off.

(** The first node of a block. *)
Fixpoint find_node (block : Z) (l : list Ext4CacheNode) (i : nat) : option nat :=
  match l with
  | [] => None
  | n :: l => if block_num n =? block then Some i else find_node block l (S i)
  end.

Definition touch (n : Ext4CacheNode) : Ext4CacheNode := mk_Node (block_num n) (data n) (u64 (score n + 1)).

(** The node of lowest score, from the [i]-th on. *)
Fixpoint lowest_loop (l : list Ext4CacheNode) (i lowest_score_index : nat) (lowest_score : Z) : nat :=
  match l with
  | [] => lowest_score_index
  | n :: l =>
      if score n <? lowest_score then lowest_loop l (S i) i (score n)
      else lowest_loop l (S i) lowest_score_index lowest_score
  end.

Definition lowest (l : list Ext4CacheNode) : nat :=
  match l with [] => 0%nat | n :: l => lowest_loop l 1 0 (score n) end.

Definition max_cache_nodes : Z := 2048.

(** A block just read gets a node of its own, or the node of lowest score. *)
Definition add_to_cache (block : Z) : M Fs buffer :=
  s ← get;
  let nodes := cache_nodes s in
  bytes ← load Mapped 0 (block_size (superblock s));
  let node := mk_Node block bytes 1 in
  if zlen nodes <? max_cache_nodes
  then put (set_cache s (nodes ++ [node]));; mret (Node (length nodes))
  else put (set_cache s (<[lowest nodes := node]> nodes));; mret (Node (lowest nodes)).

Definition read_block_tmp (block : Z) (cacheable : bool) : M Fs buffer :=
  s ← get;
  match find_node block (cache_nodes s) 0 with
  | Some i => put (set_cache s (alter touch i (cache_nodes s)));; mret (Node i)
  | None =>
      let bs := block_size (superblock s) in
      bytes_read ← read_disk_asset (block_lba s block) bs;
      if negb (bytes_read =? bs) then fail "short disk read for cached block"
      else if negb cacheable then mret Mapped
      else add_to_cache block
  end.

Definition write_block_tmp (block : Z) (data : buffer) : M Fs unit :=
  s ← get;
  let bs := block_size (superblock s) in
  (if decide (data = Mapped) then mret tt else bytes ← load data 0 bs; store Mapped 0 bytes);;
  s ← get;
  let '(d, a) := disk_write (disk s) (disk_asset s) (block_lba s block) bs in
  put (set_asset (set_disk s d) a).

(** * Block group descriptors and inodes *)

(** The block and the offset in it of the descriptor of a group. *)
Definition bgd_place (s : Fs) (bg_id : Z) : M Fs (Z * Z) :=
  let bs := block_size (superblock s) in
  local_block_offset ← rem (u64 (bg_id * block_desc_size s)) bs;
  disk_sector ← quot (u64 (bg_id * block_desc_size s)) bs;
  mret (u64 (bgd_table_start_block s + disk_sector), local_block_offset).

Definition read_blockgroup_descriptor (bg_id : Z) : M Fs Ext4BlockGroupDescriptor :=
  s ← get;
  '(block, off) ← bgd_place s bg_id;
  b ← read_block_tmp block true;
  l ← load b off sizeof_Bgd;
  mret (bgd_of_bytes l).

Definition write_blockgroup_descriptor (bg_id : Z) (bgd : Ext4BlockGroupDescriptor) : M Fs unit :=
  s ← get;
  '(block, off) ← bgd_place s bg_id;
  b ← read_block_tmp block true;
  store b off (bgd_bytes bgd);;
  write_block_tmp block b.

(** The block and the offset in it of an inode. *)
Definition inode_place (id : Z) : M Fs (Z * Z) :=
  s ← get;
  let sb := superblock s in
  bg_id ← blockgroup_from_inode sb id;
  bgd ← read_blockgroup_descriptor bg_id;
  inode_index ← blockgroup_inode_index sb id;
  local_block_offset ← rem (u64 (inode_index * inode_size sb)) (block_size sb);
  disk_sector ← quot (u64 (inode_index * inode_size sb)) (block_size sb);
  mret (u64 (inode_table bgd + disk_sector), local_block_offset).

Definition read_inode (id : Z) : M Fs Ext4InodeRef :=
  '(block, off) ← inode_place id;
  b ← read_block_tmp block true;
  l ← load b off sizeof_Inode;
  mret (mk_InodeRef id (inode_of_bytes l)).

Definition write_inode (id : Z) (i : Ext4Inode) : M Fs unit :=
  '(block, off) ← inode_place id;
  b ← read_block_tmp block true;
  store b off (inode_bytes i);;
  write_block_tmp block b.
End ext4.
