(* ===== verification/Ext4Files.v ===== *)
(** app/fs/ext4/ext4.cpp: the blocks of a file, reading files and directories,
    allocation of blocks, and the mount ([initialize]), over the blocks of Ext4.v.

    The vector [inodeOff2PhysicalDisk] is a list. Loops that a block of the disk can
    make endless (a directory entry of length 0, a cycle of directories, no free
    block from a group that does not exist) have fuel as an argument. *)

From S2P Require Import Prelude Monads Range Bytes Disk Ext4Layout Ext4.

Section files.
Context {D : Type} `{DiskServer D}.
Local Abbreviation Fs := (Ext4Filesystem D).

(** [inode.inode.block[i]] *)
Definition inode_block (i : Ext4InodeRef) (n : Z) : M Fs Z := lift (deref (aget (block (inode i)) n)).

Definition filesystem_blocks (sb : Ext4Superblock) (i : Ext4InodeRef) : M Fs Z :=
  quot (blocks_lo (inode i) * 512) (block_size sb).

(** * Blocks of a file *)

(** The block of second level that holds the entries of a double indirect block,
    through [block[13]]. *)
Definition second_level_block (i : Ext4InodeRef) (first_level_index : Z) : M Fs Z :=
  b13 ← inode_block i 13;
  if b13 =? 0 then fail "sparse double indirect block (block[13] is 0)"
  else
    first_level_entries ← read_block_tmp b13 true;
    n ← load_u32 first_level_entries first_level_index;
    if n =? 0 then fail "sparse double indirect block (first level entry is 0)" else mret n.

(** The pointer [inode_find_block] follows. *)
Definition block_pointer (i : Ext4InodeRef) (block : Z) : M Fs Z :=
  s ← get;
  let e := entries_per_block (superblock s) in
  if block <? 12 then inode_block i block
  else if block <? 12 + e then
    b12 ← inode_block i 12;
    if b12 =? 0 then fail "sparse indirect block (block[12] is 0)"
    else block_entries ← read_block_tmp b12 true; load_u32 block_entries (block - 12)
  else if block <? 12 + e + e * e then
    second_level_block_num ← second_level_block i ((block - 12 - e) / e);
    second_level_entries ← read_block_tmp second_level_block_num true;
    load_u32 second_level_entries ((block - 12 - e) mod e)
  else fail "triple indirect blocks not supported yet".

Definition inode_find_block (i : Ext4InodeRef) (block : Z) : M Fs Z :=
  s ← get;
  blocks ← filesystem_blocks (superblock s) i;
  if blocks <=? block then fail "block out of range"
  else
    block_ptr ← block_pointer i block;
    if block_ptr =? 0 then fail "sparse block (block pointer is 0)" else mret block_ptr.

(** [while (current < block_end && current < limit) { out->push(...); current++; }] *)
Fixpoint push_while (fuel : nat) (entry : Z -> M Fs Z) (block_end limit current : Z) (out : list Z) :
    M Fs (Z * list Z) :=
  match fuel with
  | O => mret (current, out)
  | S fuel =>
      if (current <? block_end) && (current <? limit)
      then p ← entry current; push_while fuel entry block_end limit (current + 1) (out ++ [p])
      else mret (current, out)
  end.

(** One turn of the loop of [inode_find_blocks]. *)
Definition find_blocks_turn (i : Ext4InodeRef) (block_end current : Z) (out : list Z) : M Fs (Z * list Z) :=
  s ← get;
  let e := entries_per_block (superblock s) in
  let run := push_while (Z.to_nat (block_end - current)) in
  if current <? 12 then run (inode_block i) block_end 12 current out
  else if current <? 12 + e then
    b12 ← inode_block i 12;
    if b12 =? 0 then fail "sparse indirect block (block[12] is 0)"
    else
      block_entries ← read_block_tmp b12 true;
      run (fun c => load_u32 block_entries (c - 12)) block_end (12 + e) current out
  else if current <? 12 + e + e * e then
    second_level_block_num ← second_level_block i ((current - 12 - e) / e);
    second_level_entries ← read_block_tmp second_level_block_num true;
    run (fun c => load_u32 second_level_entries ((c - 12 - e) mod e)) block_end (current + e) current out
  else fail "triple indirect blocks not supported yet".

Fixpoint find_blocks_loop (fuel : nat) (i : Ext4InodeRef) (block_end current : Z) (out : list Z) :
    M Fs (list Z) :=
  if current <? block_end then
    match fuel with
    | O => out_of_fuel
    | S fuel => '(current, out) ← find_blocks_turn i block_end current out; find_blocks_loop fuel i block_end current out
    end
  else mret out.

Definition inode_find_blocks (i : Ext4InodeRef) (block_start block_end : Z) (out : list Z) : M Fs (list Z) :=
  s ← get;
  blocks ← filesystem_blocks (superblock s) i;
  if (block_end <? block_start) || (blocks <? block_end) then fail "block out of range"
  else find_blocks_loop (Z.to_nat (block_end - block_start)) i block_end block_start out.

Definition inode_read_tmp (i : Ext4InodeRef) (block : Z) : M Fs buffer :=
  n ← inode_find_block i block; read_block_tmp n false.

(** The pointer it returns is to [disk_asset], not to the object it reads into. *)
Definition inode_read_blck_off (i : Ext4InodeRef) (off mem_asset_off : Z) : M (MemoryAsset * Fs) buffer :=
  s ← beside get;
  block ← quot off (block_size (superblock s));
  n ← beside (inode_find_block i block);
  read_block_into n mem_asset_off.

(** * Reading a file *)

(** [memcpy] to the mapping of the object read into. *)
Definition store_out (off : Z) (bs : list Z) : M (MemoryAsset * Fs) unit := fun '(target, s) =>
  l ← splice (memory target) off bs; Ret (Value tt, (mk_MemoryAsset (held target) l, s)).

(** How many blocks after the [b]-th follow each other on the disk: the value of
    [cnt] when the loop ends. *)
Fixpoint run_length (fuel : nat) (blocks : list Z) (start_range end_block b cnt : Z) : ctl Z :=
  x ← deref (aget blocks (b - start_range + (cnt - 1)));
  y ← deref (aget blocks (b - start_range + cnt));
  if (u64 (x + 1) =? y) && (b + cnt <? end_block) then
    match fuel with O => NoFuel | S fuel => run_length fuel blocks start_range end_block b (cnt + 1) end
  else Ret cnt.

(** The loop over the middle blocks; the result is [bytes_read]. *)
Fixpoint middle_loop (fuel : nat) (blocks : list Z) (start_range end_block mem_asset_off b bytes_read : Z) :
    M (MemoryAsset * Fs) Z :=
  if b <? end_block then
    match fuel with
    | O => out_of_fuel
    | S fuel =>
        s ← beside get;
        n ← lift (deref (aget blocks (b - start_range)));
        cnt ← lift (run_length (Z.to_nat (end_block - b)) blocks start_range end_block b 1);
        read_contiguous_blocks n cnt (u64 (mem_asset_off + bytes_read));;
        middle_loop fuel blocks start_range end_block mem_asset_off (b + cnt)
          (u64 (bytes_read + block_size (superblock s) * cnt))
    end
  else mret bytes_read.

(** The copy of part of one block: [n] bytes from [off] in block [block_num]. *)
Definition copy_part (block_num off n dest : Z) : M (MemoryAsset * Fs) unit :=
  b ← beside (read_block_tmp block_num false);
  l ← beside (load b off n);
  store_out dest l.

Definition inode_read (i : Ext4InodeRef) (off len mem_asset_off : Z) : M (MemoryAsset * Fs) Z :=
  let file_size := size_lo (inode i) in
  if file_size <=? off then mret 0
  else
    let available := file_size - off in
    let len := if available <? len then available else len in
    if len =? 0 then mret 0
    else
      s ← beside get;
      let bs := block_size (superblock s) in
      start_block ← quot off bs;
      end_block ← quot (off + len) bs;
      block_offset ← rem off bs;
      let start_range := start_block in
      blocks ← beside (inode_find_blocks i start_block (end_block + 1) []);
      (* first block *)
      '(bytes_read, start_block) ←
        (if block_offset =? 0 then mret (0, start_block)
         else
           n ← lift (deref (aget blocks 0));
           let to_read := Z.min len (bs - block_offset) in
           copy_part n block_offset to_read mem_asset_off;;
           mret (to_read, start_block + 1));
      (* middle blocks *)
      bytes_read ← middle_loop (Z.to_nat (end_block - start_block)) blocks start_range end_block mem_asset_off
                     start_block bytes_read;
      (* last block *)
      let remaining := u64 (len - bytes_read) in
      if 0 <? remaining then
        n ← lift (deref (aget blocks (end_block - start_range)));
        copy_part n 0 remaining (u64 (bytes_read + mem_asset_off));;
        mret (u64 (bytes_read + remaining))
      else mret bytes_read.

(** * Allocation *)

(** The search of a group with free blocks, for [fuel] groups. *)
Fixpoint find_available_group_for_alloc (fuel : nat) (start_from bg_id : Z) : M Fs Z :=
  match fuel with
  | O => out_of_fuel
  | S fuel =>
      s ← get;
      bgd ← read_blockgroup_descriptor bg_id;
      if 0 <? free_blocks_count bgd then mret bg_id
      else
        let bg_id := u64 (bg_id + 1) in
        let bg_id :=
          if blocks_count_lo (superblock s) <=? u64 (bg_id * blocks_per_group (superblock s)) then 0 else bg_id in
        if bg_id =? start_from then fail "no block group with free blocks found"
        else find_available_group_for_alloc fuel start_from bg_id
  end.

(** The first clear bit of a byte, from [bit] on. *)
Fixpoint scan_bits (n : nat) (v bit : Z) : option Z :=
  match n with
  | O => None
  | S n =>
      if v =? 0xFF then scan_bits n v (bit + 1)
      else if Z.land v (Z.shiftl 1 bit) =? 0 then Some bit
      else scan_bits n v (bit + 1)
  end.

(** The first clear bit in [n] bytes of a bitmap: its byte and its bit. *)
Fixpoint scan_bytes (n : nat) (b : buffer) (byte : Z) : M Fs (option (Z * Z)) :=
  match n with
  | O => mret None
  | S n =>
      l ← load b byte 1;
      match scan_bits 8 (int_of_bytes l) 0 with
      | Some bit => mret (Some (byte, bit))
      | None => scan_bytes n b (byte + 1)
      end
  end.

(** The free bit found in block [i] of the bitmap of a group is taken. *)
Definition take_bit (group_id block_bitmap_start i : Z) (bgd : Ext4BlockGroupDescriptor) (b : buffer)
    (byte bit : Z) : M Fs Z :=
  s ← get;
  let sb := superblock s in
  l ← load b byte 1;
  store b byte [Z.lor (int_of_bytes l) (Z.shiftl 1 bit)];;
  write_block_tmp i b;;
  let new_block_index := u64 ((i - block_bitmap_start) * block_size sb * 8 + byte * 8 + bit) in
  let new_block_num := u64 (group_id * blocks_per_group sb + new_block_index + first_data_block sb) in
  ignore (write_blockgroup_descriptor group_id (set_free_blocks_count bgd (u32 (free_blocks_count bgd - 1))));;
  mret new_block_num.

(** The blocks of the bitmap, with [n] left. *)
Fixpoint bitmap_loop (n : nat) (group_id block_bitmap_start i : Z) (bgd : Ext4BlockGroupDescriptor) : M Fs Z :=
  match n with
  | O => fail "no free blocks found in bitmap"
  | S n =>
      s ← get;
      b ← read_block_tmp i true;
      found ← scan_bytes (Z.to_nat (blocks_per_group (superblock s) / 8)) b 0;
      match found with
      | Some (byte, bit) => take_bit group_id block_bitmap_start i bgd b byte bit
      | None => bitmap_loop n group_id block_bitmap_start (i + 1) bgd
      end
  end.

Definition allocate_block (fuel : nat) (bg_id : Z) : M Fs Z :=
  s ← get;
  group_id ← find_available_group_for_alloc fuel bg_id bg_id;
  bgd ← read_blockgroup_descriptor group_id;
  n ← quot (blocks_per_group (superblock s)) (u64 (8 * block_size (superblock s)));
  bitmap_loop (Z.to_nat n) group_id (block_bitmap bgd) (block_bitmap bgd) bgd.

(** What is done to an inode held by the caller. *)
Definition set_inode_block (n v : Z) : M (Ext4InodeRef * Fs) unit := fun '(i, s) =>
  b ← deref (aset (block (inode i)) n v);
  Ret (Value tt, (mk_InodeRef (inode_id i) (set_block (inode i) b), s)).

Definition count_block : M (Ext4InodeRef * Fs) unit := fun '(i, s) =>
  Ret (Value tt, (mk_InodeRef (inode_id i) (set_blocks_lo (inode i) (u32 (blocks_lo (inode i) + 1))), s)).

(** The block of indirect entries: a new one when its first entry is added. *)
Definition indirect_entries (fuel : nat) (bg_id indirect_block_index : Z) : M (Ext4InodeRef * Fs) buffer :=
  if indirect_block_index =? 0 then
    n ← beside (allocate_block fuel bg_id);
    set_inode_block 12 (u32 n);;
    '(_, s) ← get;
    b ← beside (read_block_tmp n true);
    beside (store b 0 (replicate (Z.to_nat (block_size (superblock s))) 0));;
    mret b
  else
    '(i, _) ← get;
    b12 ← beside (inode_block i 12);
    beside (inode_read_tmp i b12).

Definition inode_add_block (fuel : nat) : M (Ext4InodeRef * Fs) unit :=
  '(i, s) ← get;
  let e := entries_per_block (superblock s) in
  bg_id ← beside (blockgroup_from_inode (superblock s) (inode_id i));
  new ← beside (allocate_block fuel bg_id);
  let new_block_index := blocks_lo (inode i) in
  count_block;;
  (if new_block_index <? 12 then set_inode_block new_block_index (u32 new)
   else if new_block_index <? 12 + e then
     b ← indirect_entries fuel bg_id (new_block_index - 12);
     beside (store b (4 * (new_block_index - 12)) (int_bytes 4 (u32 new)));;
     '(i, _) ← get;
     b12 ← beside (inode_block i 12);
     beside (write_block_tmp b12 b)
   else fail "triple/double indirect blocks adding not supported yet");;
  '(i, _) ← get;
  beside (write_inode (inode_id i) (inode i)).

(** [while (block >= blocks_lo) inode_add_block()], for [turns] turns. *)
Fixpoint add_blocks (turns fuel : nat) (block : Z) : M (Ext4InodeRef * Fs) unit :=
  '(i, _) ← get;
  if blocks_lo (inode i) <=? block then
    match turns with
    | O => out_of_fuel
    | S turns => inode_add_block fuel;; add_blocks turns fuel block
    end
  else mret tt.

Definition inode_write_tmp (turns fuel : nat) (block : Z) (data : buffer) : M (Ext4InodeRef * Fs) unit :=
  add_blocks turns fuel block;;
  '(i, _) ← get;
  n ← beside (inode_find_block i block);
  beside (write_block_tmp n data).

(** * Directories *)

Definition total_blocks (sb : Ext4Superblock) (i : Ext4InodeRef) : M Fs Z :=
  quot (u64 (size_lo (inode i) + block_size sb - 1)) (block_size sb).

(** The entry [off] bytes into block [b] of a directory, and its name. *)
Definition read_entry (dir : Ext4InodeRef) (b off : Z) : M Fs (Ext4DirEntry * buffer) :=
  p ← inode_read_tmp dir b;
  l ← load p off sizeof_DirEntry;
  mret (dir_entry_of_bytes l, p).

Definition entry_name (p : buffer) (off : Z) (e : Ext4DirEntry) : M Fs (list Z) :=
  load p (off + sizeof_DirEntry) (name_len e).

(** [ename == name]: the lengths, then the characters up to the first that differs. *)
Fixpoint same_chars (p : buffer) (off : Z) (name : list Z) : M Fs bool :=
  match name with
  | [] => mret true
  | c :: name =>
      l ← load p off 1;
      if int_of_bytes l =? c then same_chars p (off + 1) name else mret false
  end.

Definition same_name (p : buffer) (off : Z) (e : Ext4DirEntry) (name : list Z) : M Fs bool :=
  if negb (name_len e =? zlen name) then mret false else same_chars p (off + sizeof_DirEntry) name.

(** The entries of block [b] from [bytes_processed] on; the inode of the first
    with the name. *)
Fixpoint block_lookup (fuel : nat) (dir : Ext4InodeRef) (name : list Z) (b bytes_processed : Z) :
    M Fs (option Ext4InodeRef) :=
  s ← get;
  if bytes_processed <? block_size (superblock s) then
    match fuel with
    | O => out_of_fuel
    | S fuel =>
        '(e, p) ← read_entry dir b bytes_processed;
        if entry_inode e =? 0 then block_lookup fuel dir name b (bytes_processed + rec_len e)
        else
          found ← same_name p bytes_processed e name;
          if (found : bool) then i ← read_inode (entry_inode e); mret (Some i)
          else block_lookup fuel dir name b (bytes_processed + rec_len e)
    end
  else mret None.

(** The blocks of a directory, with [n] left. *)
Fixpoint dir_lookup (fuel n : nat) (dir : Ext4InodeRef) (name : list Z) (b : Z) : M Fs Ext4InodeRef :=
  match n with
  | O => fail "directory entry not found"
  | S n =>
      found ← block_lookup fuel dir name b 0;
      match found with
      | Some i => mret i
      | None => dir_lookup fuel n dir name (b + 1)
      end
  end.

Definition get_subdir (fuel : nat) (dir : Ext4InodeRef) (name : list Z) : M Fs Ext4InodeRef :=
  s ← get;
  n ← total_blocks (superblock s) dir;
  dir_lookup fuel (Z.to_nat n) dir name 0.

Definition dots : list (list Z) := [[46]; [46; 46]].

(** [dump_subdir] without the text it logs: [rec] is the call on a subdirectory. *)
Fixpoint dump_block (fuel : nat) (rec : Ext4InodeRef -> M Fs unit) (dir : Ext4InodeRef) (b bytes_processed : Z) :
    M Fs unit :=
  s ← get;
  if bytes_processed <? block_size (superblock s) then
    match fuel with
    | O => out_of_fuel
    | S fuel =>
        '(e, p) ← read_entry dir b bytes_processed;
        (if entry_inode e =? 0 then mret tt
         else
           raw_name ← entry_name p bytes_processed e;
           if (entry_type e =? 2) && bool_decide (raw_name ∉ dots)
           then i ← read_inode (entry_inode e); ignore (rec i)
           else mret tt);;
        dump_block fuel rec dir b (bytes_processed + rec_len e)
    end
  else mret tt.

Fixpoint dump_blocks (fuel : nat) (rec : Ext4InodeRef -> M Fs unit) (n : nat) (dir : Ext4InodeRef) (b : Z) : M Fs unit :=
  match n with
  | O => mret tt
  | S n => dump_block fuel rec dir b 0;; dump_blocks fuel rec n dir (b + 1)
  end.

(** [depth] is how many levels of directories there may be. *)
Fixpoint dump_subdir (depth fuel : nat) (dir : Ext4InodeRef) : M Fs unit :=
  match depth with
  | O => out_of_fuel
  | S depth =>
      s ← get;
      n ← total_blocks (superblock s) dir;
      dump_blocks fuel (dump_subdir depth fuel) (Z.to_nat n) dir 0
  end.
End files.

(** * Mount *)

Section initialize.
Context {D : Type} `{DiskServer D}.

Definition EXT4_MAGIC : Z := 0xEF53.

(** [fs.block_desc_size] *)
Definition descriptor_size (sb : Ext4Superblock) : Z :=
  if (1 <=? rev_level sb) && negb (Z.land (feature_incompat sb) EXT4_FEAT_64BIT =? 0) then desc_size sb else 32.

(** [fs.bgd_table_start_block] *)
Definition descriptor_table (sb : Ext4Superblock) : ctl Z :=
  let first := u32 (first_data_block sb + 1) in
  if Z.land (feature_incompat sb) EXT4_FEAT_META_BG =? 0 then Ret first
  else if block_size sb =? 0 then Trap
  else
    Ret (u64 (first + u64 (first_meta_bg sb *
      u64 (u32 (inodes_per_group sb * inode_size sb) + descriptor_size sb - 1)) / block_size sb)).

(** [fresh] is the memory of the object the superblock is read into and [asset]
    that of the object for blocks, [alignUp(block size, 4096)] bytes of it. *)
Definition initialize (depth fuel : nat) (d : D) (start_lba end_lba : Z) (fresh asset : list Z) :
    ctl (result (Ext4Filesystem D)) :=
  r ← disk_read_buf d (u64 (start_lba + 0x400 / disk_block_size)) disk_block_size fresh;
  match r with
  | Error e => Ret (Error e)
  | Value l =>
      l ← slice l 0 sizeof_Superblock;
      let sb := superblock_of_bytes l in
      if negb (magic sb =? EXT4_MAGIC) then Ret (Error "not an ext4 filesystem (invalid magic)")
      else
        table ← descriptor_table sb;
        let s := mk_Fs [] d start_lba (descriptor_size sb) end_lba sb table (mk_MemoryAsset true asset) in
        '(r, s) ← (v ← read_inode 2; ignore (dump_subdir depth fuel v)) s;
        Ret (match r with Value _ => Value s | Error e => Error e end)
  end.
End initialize.
