(* ===== verification/Ext4Spec.v ===== *)
(** What the file system reads: the blocks of the disk, through a cache that holds
    what the disk has. *)

From S2P Require Import Prelude Monads Range Bytes Disk Ext4Layout Ext4.

Section spec.
Context {D : Type} `{DiskContract D}.
Local Abbreviation Fs := (Ext4Filesystem D).

(** * The mounted disk *)

Definition bs (s : Fs) : Z := block_size (superblock s).

(** Where block [n] starts, in bytes, and the block. *)
Definition block_start (s : Fs) (n : Z) : Z := start_lba s * 512 + n * bs s.
Definition disk_block (s : Fs) (n : Z) : list Z := part (contents (disk s)) (block_start s n) (bs s).

Definition in_disk (s : Fs) (n : Z) : Prop :=
  0 <= n /\ block_start s n + bs s <= zlen (contents (disk s)).

(** A node holds what the disk has. *)
Definition node_ok (s : Fs) (n : Ext4CacheNode) : Prop :=
  in_disk s (block_num n) /\ data n = disk_block s (block_num n).

(** Blocks of 1 to 64 KiB, on a disk of less than [2^63] bytes; the buffer of
    [disk_asset] holds a block; the cache is a part of the disk. *)
Record mounted (s : Fs) : Prop := {
  mounted_block_size : 0 <= log_block_size (superblock s) <= 6;
  mounted_start : 0 <= start_lba s;
  mounted_size : zlen (contents (disk s)) < 2 ^ 63;
  mounted_asset : bs s <= zlen (memory (disk_asset s));
  mounted_accepts : accepts 0 (bs s);
  mounted_cache : zlen (cache_nodes s) <= max_cache_nodes;
  mounted_nodes : Forall (node_ok s) (cache_nodes s);
  mounted_distinct : NoDup (block_num <$> cache_nodes s)
}.

(** The two states differ in the cache and in the bytes of [disk_asset] only. *)
Definition same_mount (s s' : Fs) : Prop :=
  disk s' = disk s /\ start_lba s' = start_lba s /\ superblock s' = superblock s /\
  block_desc_size s' = block_desc_size s /\ bgd_table_start_block s' = bgd_table_start_block s /\
  held (disk_asset s') = held (disk_asset s).

#[global] Instance same_mount_preorder : PreOrder same_mount.
Proof.
  split; [done|]. intros s1 s2 s3 (?&?&?&?&?&?) (?&?&?&?&?&?). unfold same_mount. repeat split; congruence.
Qed.

Lemma same_mount_bs s s' : same_mount s s' -> bs s' = bs s.
Proof. intros (_&_&E&_). unfold bs. by rewrite E. Qed.

Lemma same_mount_block s s' n : same_mount s s' -> disk_block s' n = disk_block s n.
Proof. intros (E1&E2&E3&_). unfold disk_block, block_start, bs. by rewrite E1, E2, E3. Qed.

Lemma same_mount_in_disk s s' n : same_mount s s' -> in_disk s' n <-> in_disk s n.
Proof. intros (E1&E2&E3&_). unfold in_disk, block_start, bs. by rewrite E1, E2, E3. Qed.

Lemma same_mount_node s s' n : same_mount s s' -> node_ok s n -> node_ok s' n.
Proof.
  intros E [H1 H2]. split; [by apply (same_mount_in_disk s)|]. by rewrite (same_mount_block s).
Qed.

Lemma block_size_pow2 sb : 0 <= log_block_size sb <= 6 -> block_size sb = 1024 * 2 ^ log_block_size sb.
Proof.
  intros Hl. unfold block_size. rewrite Z.shiftl_mul_pow2 by lia.
  assert (2 ^ log_block_size sb <= 2 ^ 6) by (apply Z.pow_le_mono_r; lia).
  assert (0 < 2 ^ log_block_size sb) by (apply Z.pow_pos_nonneg; lia).
  rewrite wraps_small, wrapu_small by lia. done.
Qed.

Lemma mounted_bs s : mounted s -> 1024 <= bs s <= 65536 /\ bs s mod 512 = 0.
Proof.
  intros [Hl _ _ _ _ _ _ _]. unfold bs. rewrite block_size_pow2 by done.
  assert (2 ^ log_block_size (superblock s) <= 2 ^ 6) by (apply Z.pow_le_mono_r; lia).
  assert (0 < 2 ^ log_block_size (superblock s)) by (apply Z.pow_pos_nonneg; lia).
  split; [lia|]. replace (1024 * 2 ^ log_block_size (superblock s)) with (2 * 2 ^ log_block_size (superblock s) * 512) by lia.
  apply Z.mod_mul. lia.
Qed.

Lemma length_disk_block s n : mounted s -> in_disk s n -> zlen (disk_block s n) = bs s.
Proof.
  intros Hm [Hn Hd]. pose proof (mounted_bs s Hm). unfold disk_block. pose proof (mounted_start s Hm).
  rewrite length_part; unfold block_start in *; nia.
Qed.

(** A block starts on a sector. *)
Lemma block_lba_start s n :
  mounted s -> in_disk s n -> block_lba s n * 512 = block_start s n /\ 0 <= block_lba s n.
Proof.
  intros Hm [Hn Hd]. pose proof (mounted_bs s Hm) as [Hbs Hmod].
  pose proof (mounted_start s Hm). pose proof (mounted_size s Hm).
  unfold block_lba, disk_block_size. fold (bs s). unfold block_start in *.
  apply Z.div_exact in Hmod; [|lia]. set (k := bs s / 512) in *.
  rewrite (wrapu_small 64 (n * bs s)) by nia.
  replace (n * bs s) with (n * k * 512) by lia. rewrite Z.div_mul by lia.
  rewrite wrapu_small by nia. nia.
Qed.

(** * Reading a block *)

(** The start of a buffer holds block [n]. *)
Definition holds_block (s : Fs) (b : buffer) (n : Z) : Prop :=
  exists l, buffer_bytes s b = Ret l /\ bs s <= zlen l /\ part l 0 (bs s) = disk_block s n.

Lemma read_disk_asset_block s n :
  mounted s -> held (disk_asset s) = true -> in_disk s n ->
  succeeds (read_disk_asset (block_lba s n) (bs s)) s (fun r s' =>
    r = bs s /\ mounted s' /\ same_mount s s' /\ cache_nodes s' = cache_nodes s /\ holds_block s' Mapped n).
Proof.
  intros Hm Hh Hd. pose proof (mounted_bs s Hm) as [Hbs Hmod].
  destruct (block_lba_start s n Hm Hd) as [Hlba Hl0]. destruct Hm as [Hl Hst Hsz Has Hac Hcl Hn Hdi].
  destruct Hd as [Hn0 Hd]. unfold succeeds, read_disk_asset, disk_read. rewrite Hmod, Hh. simpl.
  rewrite serve_read_reads by (lia || done). simpl.
  destruct (Z.ltb_spec 0 (bs s)); [|lia]. destruct (Z.eqb_spec (bs s) 0); [lia|]. simpl.
  set (a := mk_MemoryAsset _ _).
  assert (same_mount s (set_asset s a)) as HS by (by repeat split).
  assert (zlen (part (contents (disk s)) (block_lba s n * 512) (bs s)) = bs s) as E.
  { rewrite length_part by lia. lia. }
  split; [done|]. split.
  - split; try done. simpl. rewrite length_patch by lia. done.
  - split; [done|]. split; [done|]. eexists. split; [reflexivity|]. cbn [set_asset disk_asset memory].
    change (bs (set_asset s a)) with (bs s). subst a. simpl. rewrite length_patch by lia. split; [done|].
    rewrite (same_mount_block s) by done. rewrite <- E at 2. rewrite part_patch_same by lia.
    unfold disk_block. by rewrite Hlba.
Qed.

Lemma find_node_Some block l i j :
  find_node block l i = Some j -> exists n, l !! (j - i)%nat = Some n /\ block_num n = block /\ (i <= j)%nat.
Proof.
  revert i. induction l as [|n l IH]; intros i; simpl; [done|]. destruct (Z.eqb_spec (block_num n) block).
  - intros [= <-]. exists n. by rewrite Nat.sub_diag.
  - intros (m & Hl & Hb & Hi)%IH. exists m. split; [|split; [done|lia]].
    by replace (j - i)%nat with (S (j - S i)) by lia.
Qed.

Lemma find_node_None block l i : find_node block l i = None -> block ∉ (block_num <$> l).
Proof.
  revert i. induction l as [|n l IH]; intros i; simpl; [by intros _ ?%elem_of_nil|].
  destruct (Z.eqb_spec (block_num n) block) as [|Hne]; [done|]. intros Hl%IH.
  rewrite elem_of_cons. by intros [->|?].
Qed.

Lemma NoDup_insert {A} (l : list A) i x : NoDup l -> x ∉ l -> NoDup (<[i:=x]> l).
Proof.
  intros Hl Hx. apply NoDup_alt. intros j k y Hj Hk.
  apply list_lookup_insert_Some in Hj as [(->&->&?)|[? Hj]], Hk as [(->&?&?)|[? Hk]]; try done.
  - exfalso. apply Hx. by apply list_elem_of_lookup_2 in Hk.
  - exfalso. apply Hx. subst y. by apply list_elem_of_lookup_2 in Hj.
  - by apply (NoDup_lookup l j k y).
Qed.

Lemma list_alter_fmap_same {A B} (g : A -> B) (h : A -> A) (l : list A) i :
  (forall x, g (h x) = g x) -> g <$> alter h i l = g <$> l.
Proof.
  intros Hg. apply list_eq. intros j. rewrite !list_lookup_fmap, list_lookup_alter.
  case_decide; [|done]. subst. destruct (l !! j) as [x|]; simpl; [by rewrite Hg|done].
Qed.

(** Replacing the cache by nodes of the disk. *)
Lemma set_cache_ok s c :
  mounted s -> zlen c <= max_cache_nodes -> Forall (node_ok s) c -> NoDup (block_num <$> c) ->
  mounted (set_cache s c) /\ same_mount s (set_cache s c).
Proof. intros [Hl Hst Hsz Has Hac Hcl Hn Hdi] Hc Hf Hdc. split; [by split|by repeat split]. Qed.

Lemma node_holds s i n :
  mounted s -> cache_nodes s !! i = Some n -> holds_block s (Node i) (block_num n) /\ zlen (data n) = bs s.
Proof.
  intros Hm Hi. pose proof (proj1 (Forall_lookup _ _) (mounted_nodes s Hm) i n Hi) as [Hd He].
  assert (zlen (data n) = bs s) as E by (rewrite He; by apply length_disk_block).
  split; [|done]. exists (data n). simpl. rewrite Hi. split; [done|]. split; [lia|]. by rewrite <- E, part_all.
Qed.

Lemma lowest_loop_lt l i li ls : (li < i)%nat -> (lowest_loop l i li ls < i + length l)%nat.
Proof.
  revert i li ls. induction l as [|n l IH]; intros i li ls Hi; simpl; [lia|].
  destruct (score n <? ls); [pose proof (IH (S i) i (score n))|pose proof (IH (S i) li ls)]; lia.
Qed.

Lemma lowest_lt l : l <> [] -> (lowest l < length l)%nat.
Proof. destruct l as [|n l]; [done|]. intros _. apply (lowest_loop_lt l 1 0). lia. Qed.

(** [read_block_tmp] reads the block, from the cache or from the disk, and keeps
    the cache a part of the disk. *)
Lemma add_to_cache_ok s n :
  mounted s -> in_disk s n -> find_node n (cache_nodes s) 0 = None -> holds_block s Mapped n ->
  succeeds (add_to_cache n) s (fun b s' =>
    mounted s' /\ same_mount s s' /\ exists i x, b = Node i /\ cache_nodes s' !! i = Some x /\ block_num x = n).
Proof.
  intros Hm Hd Hnone%find_node_None (l & Hl & Hlen & Hp). pose proof (mounted_bs s Hm) as Hbs. unfold add_to_cache. m_steps.
  simpl in Hl. injection Hl as <-.
  unfold succeeds at 1, load. simpl. fold (bs s). rewrite slice_in by lia. simpl. rewrite Hp.
  set (x := mk_Node n (disk_block s n) 1). assert (node_ok s x) as Hx by done.
  destruct (Z.ltb_spec (zlen (cache_nodes s)) max_cache_nodes) as [Hc|Hc]; m_steps.
  - destruct (set_cache_ok s (cache_nodes s ++ [x]) Hm) as [Hm' Hs'].
    { len_simpl. lia. }
    { apply Forall_app. split; [apply Hm|by constructor]. }
    { rewrite fmap_app. apply NoDup_app. split; [apply Hm|]. split; [|apply NoDup_singleton].
      intros y Hy Hy1. change (block_num <$> [x]) with [n] in Hy1. apply list_elem_of_singleton in Hy1. by subst y. }
    split; [done|]. split; [done|]. exists (length (cache_nodes s)), x. split; [done|]. split; [|done].
    simpl. by rewrite lookup_app_r, Nat.sub_diag by lia.
  - assert (lowest (cache_nodes s) < length (cache_nodes s))%nat as Hlow.
    { apply lowest_lt. intros E. rewrite E in Hc. by vm_compute in Hc. }
    destruct (set_cache_ok s (<[lowest (cache_nodes s):=x]> (cache_nodes s)) Hm) as [Hm' Hs'].
    { rewrite length_insert. apply Hm. }
    { apply Forall_insert; [apply Hm|done]. }
    { rewrite list_fmap_insert. by apply NoDup_insert; [apply Hm|]. }
    split; [done|]. split; [done|]. exists (lowest (cache_nodes s)), x. split; [done|]. split; [|done].
    simpl. by rewrite list_lookup_insert_eq.
Qed.

(** The block can be read: it is cached, or the handle of [disk_asset] is held. *)
Definition readable (s : Fs) (n : Z) : Prop :=
  in_disk s n /\ (held (disk_asset s) = true \/ is_Some (find_node n (cache_nodes s) 0)).

Lemma same_mount_readable s s' n : held (disk_asset s) = true -> same_mount s s' -> in_disk s n -> readable s' n.
Proof. intros Hh E Hd. split; [by apply (same_mount_in_disk s)|]. left. destruct E as (_&_&_&_&_&->). done. Qed.

Lemma read_block_tmp_ok s n c :
  mounted s -> readable s n ->
  succeeds (read_block_tmp n c) s (fun b s' =>
    mounted s' /\ same_mount s s' /\ holds_block s' b n /\
    (c = true -> exists i x, b = Node i /\ cache_nodes s' !! i = Some x /\ block_num x = n)).
Proof.
  intros Hm [Hd Hr]. unfold read_block_tmp. m_steps.
  destruct (find_node n (cache_nodes s) 0) as [i|] eqn:Hf.
  - destruct (find_node_Some _ _ _ _ Hf) as (x & Hx & Hb & _). rewrite Nat.sub_0_r in Hx. m_steps.
    pose proof (proj1 (Forall_lookup _ _) (mounted_nodes s Hm) i x Hx) as Hnx.
    destruct (set_cache_ok s (alter touch i (cache_nodes s)) Hm) as [Hm' Hs'].
    { rewrite length_alter. apply Hm. }
    { apply Forall_alter; [apply Hm|]. intros y Hy _. by simplify_eq. }
    { rewrite (list_alter_fmap_same block_num) by done. apply Hm. }
    assert (cache_nodes (set_cache s (alter touch i (cache_nodes s))) !! i = Some (touch x)) as E.
    { simpl. by rewrite list_lookup_alter_eq, Hx. }
    split; [done|]. split; [done|]. split; [|by exists i, (touch x)].
    rewrite <- Hb. by apply (node_holds _ i (touch x)).
  - destruct Hr as [Hh|[? [=]]]. fold (bs s). m_step.
    eapply succeeds_mono; [by apply read_disk_asset_block|]. cbv beta.
    intros r s' (-> & Hm' & Hs' & Hc & Hb). rewrite Z.eqb_refl. simpl.
    destruct c; simpl; [|by m_steps].
    eapply succeeds_mono; [apply add_to_cache_ok; [done|by apply (same_mount_in_disk s)|by rewrite Hc|done]|]. cbv beta.
    intros b s'' (Hm'' & Hs'' & i & x & -> & Hi & <-). split; [done|]. split; [by etrans|].
    split; [by apply node_holds|]. eauto.
Qed.

(** * Reading from a mounted disk

    [ready s0 s]: [s] is reached from [s0] by reads, which see the disk of [s0]. *)

Definition ready (s0 s : Fs) : Prop :=
  mounted s /\ same_mount s0 s /\ held (disk_asset s0) = true.

Definition points_to (s : Fs) (b : buffer) (bytes : list Z) : Prop :=
  exists l, buffer_bytes s b = Ret l /\ zlen bytes <= zlen l /\ part l 0 (zlen bytes) = bytes.

Lemma ready_refl s : mounted s -> held (disk_asset s) = true -> ready s s.
Proof. done. Qed.

Lemma ready_bs s0 s : ready s0 s -> bs s = bs s0.
Proof. intros (_&E&_). by apply same_mount_bs. Qed.

Lemma ready_superblock s0 s : ready s0 s -> superblock s = superblock s0.
Proof. by intros (_&(_&_&E&_)&_). Qed.

Lemma ready_table s0 s :
  ready s0 s -> block_desc_size s = block_desc_size s0 /\ bgd_table_start_block s = bgd_table_start_block s0.
Proof. by intros (_&(_&_&_&?&?&_)&_). Qed.

Lemma ready_length s0 s n : ready s0 s -> in_disk s0 n -> zlen (disk_block s0 n) = bs s0.
Proof.
  intros (Hm&E&_) Hd. rewrite <- (same_mount_block s0 s), <- (same_mount_bs s0 s) by done.
  apply length_disk_block; [done|]. by apply (same_mount_in_disk s0).
Qed.

Lemma ready_bs_range s0 s : ready s0 s -> 1024 <= bs s0 <= 65536.
Proof. intros HR. rewrite <- (ready_bs s0 s HR). apply mounted_bs. apply HR. Qed.

Lemma ready_disk_size s0 s : ready s0 s -> 0 <= start_lba s0 /\ zlen (contents (disk s0)) < 2 ^ 63.
Proof. intros (Hm&(E1&E2&_)&_). rewrite <- E1, <- E2. split; apply Hm. Qed.

Lemma ready_read s0 s n c :
  ready s0 s -> in_disk s0 n ->
  succeeds (read_block_tmp n c) s (fun b s' =>
    ready s0 s' /\ points_to s' b (disk_block s0 n) /\
    (c = true -> exists i x, b = Node i /\ cache_nodes s' !! i = Some x /\ block_num x = n)).
Proof.
  intros HR Hd. pose proof HR as (Hm & E & Hh).
  eapply succeeds_mono; [apply read_block_tmp_ok; [done|]|]; cbv beta.
  - split; [by apply (same_mount_in_disk s0)|]. left. destruct E as (_&_&_&_&_&->). done.
  - intros b s' (Hm' & Hs' & (l & Hl & Hlen & Hp) & Hc).
    assert (same_mount s0 s') as E' by (by etrans). rewrite (same_mount_block s0 s') in Hp by done.
    pose proof (ready_length s0 s n HR Hd) as El. rewrite (same_mount_bs s0 s') in Hlen, Hp by done.
    split; [done|]. split; [|done]. exists l. rewrite El. done.
Qed.

Lemma load_points s b bytes off k :
  points_to s b bytes -> 0 <= off -> 0 <= k -> off + k <= zlen bytes ->
  succeeds (load b off k) s (fun l s' => s' = s /\ l = part bytes off k).
Proof.
  intros (l & Hl & Hlen & Hp) Ho Hk Hb. unfold succeeds, load. rewrite Hl. simpl.
  rewrite slice_in by lia. simpl. split; [done|]. by rewrite <- Hp, part_part by lia.
Qed.

(** The [i]-th number in block [n]. *)
Definition u32_in (s : Fs) (n i : Z) : Z := int_of_bytes (part (disk_block s n) (4 * i) 4).

Definition entries (s : Fs) : Z := entries_per_block (superblock s).

Lemma ready_entries s0 s : ready s0 s -> 256 <= entries s0 <= 16384 /\ 4 * entries s0 = bs s0.
Proof.
  intros HR. pose proof HR as (Hm&E&_). pose proof (mounted_bs s Hm) as [Hb Hmod].
  rewrite (same_mount_bs s0 s E) in Hb, Hmod. unfold entries, entries_per_block. fold (bs s0).
  apply Z.div_exact in Hmod; [|lia]. rewrite Hmod. replace (512 * (bs s0 / 512)) with (bs s0 / 512 * 128 * 4) by lia.
  rewrite Z.div_mul by lia. split; [|lia]. rewrite Hmod in Hb. lia.
Qed.

Lemma load_u32_points s0 s b n i :
  ready s0 s -> in_disk s0 n -> points_to s b (disk_block s0 n) -> 0 <= i < entries s0 ->
  succeeds (load_u32 b i) s (fun v s' => s' = s /\ v = u32_in s0 n i).
Proof.
  intros HR Hd Hp Hi. destruct (ready_entries s0 s HR) as [He E]. pose proof (ready_length s0 s n HR Hd) as El.
  unfold load_u32. m_step. rewrite wrapu_small by lia.
  eapply succeeds_mono; [apply load_points; [done|lia..]|]. cbv beta. intros l s' [-> ->]. by m_steps.
Qed.

Lemma u32_in_range s n i : Forall byte (contents (disk s)) -> 0 <= u32_in s n i < 2 ^ 32.
Proof.
  intros Hb. unfold u32_in, disk_block.
  set (l := part _ (4 * i) 4). assert (Forall byte l) as Hl by (by apply part_byte, part_byte).
  pose proof (int_of_bytes_range l Hl). assert (zlen l <= 4) by (unfold l, part; rewrite length_take; lia).
  assert (256 ^ zlen l <= 256 ^ 4) by (apply Z.pow_le_mono_r; lia). lia.
Qed.

(** * Descriptors and inodes on the disk *)

Definition bgd_block (s : Fs) (g : Z) : Z := bgd_table_start_block s + g * block_desc_size s / bs s.
Definition bgd_offset (s : Fs) (g : Z) : Z := g * block_desc_size s mod bs s.

Definition disk_bgd (s : Fs) (g : Z) : Ext4BlockGroupDescriptor :=
  bgd_of_bytes (part (disk_block s (bgd_block s g)) (bgd_offset s g) sizeof_Bgd).

(** The descriptor of the group is on the disk, and the 68 bytes the code takes for
    a descriptor are in one block. *)
Definition group_ok (s : Fs) (g : Z) : Prop :=
  0 <= g /\ 0 <= block_desc_size s /\ g * block_desc_size s < 2 ^ 63 /\ 0 <= bgd_table_start_block s < 2 ^ 33 /\
  bgd_offset s g + sizeof_Bgd <= bs s /\ in_disk s (bgd_block s g).

Lemma bgd_place_ok s t g :
  mounted s -> group_ok s g ->
  succeeds (bgd_place s g) t (fun p t' => t' = t /\ p = (bgd_block s g, bgd_offset s g)).
Proof.
  intros Hm (Hg & Hds & Hw & Ht & _ & _). pose proof (mounted_bs s Hm) as [Hbs _].
  assert (0 <= g * block_desc_size s / bs s <= g * block_desc_size s) as Hq.
  { split; [apply Z.div_pos; nia|]. apply Z.div_le_upper_bound; nia. }
  unfold bgd_place, bgd_block, bgd_offset. fold (bs s).
  m_steps; [lia..|]. rewrite (wrapu_small 64 (g * block_desc_size s)) by nia. split; [done|].
  by rewrite wrapu_small by lia.
Qed.

Lemma ready_group s0 s g :
  ready s0 s -> bgd_block s g = bgd_block s0 g /\ bgd_offset s g = bgd_offset s0 g /\ (group_ok s0 g -> group_ok s g).
Proof.
  intros HR. pose proof (ready_bs s0 s HR) as Eb. destruct (ready_table s0 s HR) as [E1 E2].
  assert (bgd_block s g = bgd_block s0 g) as E3 by (unfold bgd_block; by rewrite Eb, E1, E2).
  assert (bgd_offset s g = bgd_offset s0 g) as E4 by (unfold bgd_offset; by rewrite Eb, E1).
  split; [done|]. split; [done|]. unfold group_ok. rewrite E3, E4, Eb, E1, E2.
  intros (?&?&?&?&?&?). repeat (split; [done|]). apply (same_mount_in_disk s0); [apply HR|done].
Qed.

Lemma read_bgd_ok s0 s g :
  ready s0 s -> group_ok s0 g ->
  succeeds (read_blockgroup_descriptor g) s (fun b s' => ready s0 s' /\ b = disk_bgd s0 g).
Proof.
  intros HR Hg. pose proof Hg as (Hg0 & _ & _ & _ & Hoff & Hd). unfold read_blockgroup_descriptor. m_steps.
  destruct (ready_group s0 s g HR) as (E1 & E2 & Hgs).
  eapply succeeds_mono; [apply bgd_place_ok; [apply HR|by apply Hgs]|]. cbv beta. intros p s' [-> ->].
  rewrite E1, E2. m_steps.
  eapply succeeds_mono; [by apply ready_read|]. cbv beta. intros b s' (HR' & Hp & _). m_steps.
  eapply succeeds_mono; [apply load_points; [done| | |]|].
  - unfold bgd_offset. apply Z.mod_pos_bound. pose proof (ready_bs_range s0 s HR). lia.
  - done.
  - by rewrite (ready_length s0 s).
  - cbv beta. intros l s'' [-> ->]. m_steps. done.
Qed.

Definition inode_block_of (s : Fs) (id : Z) : Z :=
  let sb := superblock s in
  inode_table (disk_bgd s ((id - 1) / inodes_per_group sb)) +
  (id - 1) mod inodes_per_group sb * inode_size sb / bs s.
Definition inode_offset (s : Fs) (id : Z) : Z :=
  let sb := superblock s in (id - 1) mod inodes_per_group sb * inode_size sb mod bs s.

Definition disk_inode (s : Fs) (id : Z) : Ext4Inode :=
  inode_of_bytes (part (disk_block s (inode_block_of s id)) (inode_offset s id) sizeof_Inode).

(** The inode is on the disk, in one block. *)
Definition inode_ok (s : Fs) (id : Z) : Prop :=
  let sb := superblock s in
  1 <= id < 2 ^ 64 /\ 0 < inodes_per_group sb < 2 ^ 32 /\ 0 <= inode_size sb < 2 ^ 16 /\
  Forall byte (contents (disk s)) /\ group_ok s ((id - 1) / inodes_per_group sb) /\
  inode_offset s id + sizeof_Inode <= bs s /\ in_disk s (inode_block_of s id).

Lemma inode_table_range s g : Forall byte (contents (disk s)) -> 0 <= inode_table (disk_bgd s g) < 2 ^ 32.
Proof.
  intros Hb. unfold disk_bgd, bgd_of_bytes, get_int. cbn -[int_of_bytes take drop disk_block bgd_block bgd_offset part Z.pow].
  set (l := take 4 _). assert (Forall byte l) as Hl.
  { by apply Forall_take, Forall_drop, Forall_drop, part_byte, part_byte. }
  pose proof (int_of_bytes_range l Hl). assert (zlen l <= 4) by (unfold l; rewrite length_take; lia).
  assert (256 ^ zlen l <= 256 ^ 4) by (apply Z.pow_le_mono_r; lia). lia.
Qed.

Lemma inode_place_ok s0 s id :
  ready s0 s -> inode_ok s0 id ->
  succeeds (inode_place id) s (fun p s' => ready s0 s' /\ p = (inode_block_of s0 id, inode_offset s0 id)).
Proof.
  intros HR (Hid & Hi & Hz & Hb & Hg & _ & _). pose proof (ready_bs_range s0 s HR).
  pose proof (inode_table_range s0 ((id - 1) / inodes_per_group (superblock s0)) Hb) as Ht.
  unfold inode_place, blockgroup_from_inode, blockgroup_inode_index. m_step. m_step.
  rewrite (ready_superblock s0 s), (wrapu_small 64 (id - 1)) by (done || lia).
  pose proof (Z.mod_pos_bound (id - 1) (inodes_per_group (superblock s0))) as Hr.
  forward Hr by lia.
  m_steps; [lia|]. eapply succeeds_mono; [by apply read_bgd_ok|]. cbv beta. intros b s' [HR' ->].
  m_steps; [lia|fold (bs s0); lia..|]. fold (bs s0). rewrite (wrapu_small 64 (_ * inode_size _)) by nia.
  split; [done|]. unfold inode_block_of, inode_offset. f_equal. apply wrapu_small.
  set (q := (id - 1) mod _ * _ / _).
  assert (0 <= q <= (id - 1) mod inodes_per_group (superblock s0) * inode_size (superblock s0)).
  { subst q. split; [apply Z.div_pos; nia|]. apply Z.div_le_upper_bound; nia. }
  nia.
Qed.

Lemma read_inode_ok s0 s id :
  ready s0 s -> inode_ok s0 id ->
  succeeds (read_inode id) s (fun i s' => ready s0 s' /\ i = mk_InodeRef id (disk_inode s0 id)).
Proof.
  intros HR Hi. pose proof Hi as (Hid & Hpg & _ & _ & _ & Hoff & Hd). unfold read_inode. m_step.
  eapply succeeds_mono; [by apply inode_place_ok|]. cbv beta. intros p s' [HR' ->]. m_step.
  eapply succeeds_mono; [by apply ready_read|]. cbv beta. intros b s'' (HR'' & Hp & _). m_step.
  eapply succeeds_mono; [apply load_points; [done| | |]|].
  - unfold inode_offset. apply Z.mod_pos_bound. pose proof (ready_bs_range s0 s HR). lia.
  - done.
  - by rewrite (ready_length s0 s).
  - cbv beta. intros l s3 [-> ->]. m_steps. done.
Qed.
End spec.
