(* ===== verification/Ext4FilesSpec.v ===== *)
(** The blocks of a file and the bytes it reads, over a mounted disk: the search of
    many blocks at once finds what the search one by one finds, and a read puts the
    bytes of the file in the object it is given. *)

From S2P Require Import Prelude Monads Range Bytes Disk Ext4Layout Ext4 Ext4Files Ext4Spec.

Section spec.
Context {D : Type} `{DiskContract D}.
Local Abbreviation Fs := (Ext4Filesystem D).
Implicit Types s : Fs.

(** * Blocks of a file *)

(** Block [n] of the file is block [p] of the disk: the pointers of the inode and
    of the blocks it goes through, which are on the disk. *)
Inductive maps (s : Fs) (i : Ext4InodeRef) (n p : Z) : Prop :=
| maps_direct :
    0 <= n < 12 -> aget (block (inode i)) n = Some p -> maps s i n p
| maps_indirect b12 :
    12 <= n < 12 + entries s -> aget (block (inode i)) 12 = Some b12 -> b12 <> 0 -> in_disk s b12 ->
    u32_in s b12 (n - 12) = p -> maps s i n p
| maps_double b13 b :
    12 + entries s <= n < 12 + entries s + entries s * entries s ->
    aget (block (inode i)) 13 = Some b13 -> b13 <> 0 -> in_disk s b13 ->
    u32_in s b13 ((n - 12 - entries s) / entries s) = b -> b <> 0 -> in_disk s b ->
    u32_in s b ((n - 12 - entries s) mod entries s) = p -> maps s i n p.

Definition file_blocks (s : Fs) (i : Ext4InodeRef) : Z := blocks_lo (inode i) * 512 / bs s.

Lemma inode_block_ok s i n p :
  aget (block (inode i)) n = Some p -> succeeds (inode_block i n) s (fun v s' => s' = s /\ v = p).
Proof. intros E. unfold inode_block. rewrite E. by split. Qed.

Lemma filesystem_blocks_ok s0 s i :
  ready s0 s -> succeeds (filesystem_blocks (superblock s) i) s (fun v s' => s' = s /\ v = file_blocks s0 i).
Proof.
  intros HR. pose proof (ready_bs_range s0 s HR). unfold filesystem_blocks. fold (bs s).
  rewrite (ready_bs s0 s HR). m_steps; [lia|done].
Qed.

Lemma second_level_ok s0 s i b13 b k :
  ready s0 s -> aget (block (inode i)) 13 = Some b13 -> b13 <> 0 -> in_disk s0 b13 ->
  0 <= k < entries s0 -> u32_in s0 b13 k = b -> b <> 0 ->
  succeeds (second_level_block i k) s (fun v s' => ready s0 s' /\ v = b).
Proof.
  intros HR Hb13 Hn Hd Hk Hu Hb. unfold second_level_block. m_step.
  eapply succeeds_mono; [by apply inode_block_ok|]. cbv beta. intros v s' [-> ->].
  destruct (Z.eqb_spec b13 0); [done|]. m_step.
  eapply succeeds_mono; [by apply ready_read|]. cbv beta. intros p s' (HR' & Hp & _). m_step.
  eapply succeeds_mono; [by eapply load_u32_points|]. cbv beta. intros v s'' [-> ->]. rewrite Hu.
  destruct (Z.eqb_spec b 0); [done|]. by m_steps.
Qed.

(** The entries of a double indirect block. *)
Lemma double_range s0 s n :
  ready s0 s -> 12 + entries s0 <= n < 12 + entries s0 + entries s0 * entries s0 ->
  0 <= (n - 12 - entries s0) / entries s0 < entries s0 /\ 0 <= (n - 12 - entries s0) mod entries s0 < entries s0.
Proof.
  intros HR Hn. destruct (ready_entries s0 s HR) as [He _]. split; [|apply Z.mod_pos_bound; lia].
  split; [apply Z.div_pos; lia|]. apply Z.div_lt_upper_bound; nia.
Qed.

Lemma block_pointer_ok s0 s i n p :
  ready s0 s -> maps s0 i n p -> succeeds (block_pointer i n) s (fun v s' => ready s0 s' /\ v = p).
Proof.
  intros HR Hm. destruct (ready_entries s0 s HR) as [He _]. unfold block_pointer. m_steps.
  rewrite (ready_superblock s0 s) by done. fold (entries s0).
  destruct Hm as [Hr Hb|b12 Hr Hb Hb0 Hd Hu|b13 b Hr Hb Hb0 Hd Hu Hu0 Hd' Hu'].
  - destruct (Z.ltb_spec n 12); [|lia]. eapply succeeds_mono; [by apply inode_block_ok|].
    cbv beta. by intros v s' [-> ->].
  - destruct (Z.ltb_spec n 12); [lia|]. destruct (Z.ltb_spec n (12 + entries s0)); [|lia]. m_step.
    eapply succeeds_mono; [by apply inode_block_ok|]. cbv beta. intros v s' [-> ->].
    destruct (Z.eqb_spec b12 0); [done|]. m_step.
    eapply succeeds_mono; [by apply ready_read|]. cbv beta. intros q s' (HR' & Hq & _).
    eapply succeeds_mono; [eapply load_u32_points; (done || lia)|]. cbv beta. intros v s'' [-> ->]. done.
  - destruct (Z.ltb_spec n 12); [lia|]. destruct (Z.ltb_spec n (12 + entries s0)); [lia|].
    destruct (Z.ltb_spec n (12 + entries s0 + entries s0 * entries s0)); [|lia]. m_step.
    destruct (double_range s0 s n HR Hr) as [R1 R2].
    eapply succeeds_mono; [by eapply second_level_ok|]. cbv beta. intros v s' [HR' ->]. m_step.
    eapply succeeds_mono; [by apply ready_read|]. cbv beta. intros q s'' (HR'' & Hq & _).
    eapply succeeds_mono; [by eapply load_u32_points|]. cbv beta. intros v s3 [-> ->]. done.
Qed.

Lemma inode_find_block_ok s0 s i n p :
  ready s0 s -> maps s0 i n p -> p <> 0 -> n < file_blocks s0 i ->
  succeeds (inode_find_block i n) s (fun v s' => ready s0 s' /\ v = p).
Proof.
  intros HR Hm Hp Hn. unfold inode_find_block. m_steps.
  eapply succeeds_mono; [by apply filesystem_blocks_ok|]. cbv beta. intros v s' [-> ->].
  destruct (Z.leb_spec (file_blocks s0 i) n); [lia|]. m_step.
  eapply succeeds_mono; [by apply block_pointer_ok|]. cbv beta. intros v s' [HR' ->].
  destruct (Z.eqb_spec p 0); [done|]. by m_steps.
Qed.

(** ** Many blocks at once *)

Lemma push_while_ok (f : Z -> Z) entry block_end limit s :
  forall fuel current out,
  (forall c, current <= c < block_end -> c < limit -> succeeds (entry c) s (fun v s' => s' = s /\ v = f c)) ->
  Z.min block_end limit - current <= Z.of_nat fuel -> current <= Z.min block_end limit ->
  succeeds (push_while fuel entry block_end limit current out) s (fun r s' =>
    s' = s /\ r = (Z.min block_end limit, out ++ map f (seqZ current (Z.min block_end limit - current)))).
Proof.
  intros fuel. induction fuel as [|fuel IH]; intros current out Hf Hfuel Hc; simpl.
  - m_steps. replace (Z.min block_end limit) with current by lia. rewrite Z.sub_diag. simpl.
    by rewrite app_nil_r.
  - destruct (Z.ltb_spec current block_end), (Z.ltb_spec current limit); simpl;
      try (m_steps; replace (Z.min block_end limit) with current by lia; rewrite Z.sub_diag; simpl; by rewrite app_nil_r).
    m_step. eapply succeeds_mono; [apply Hf; lia|]. cbv beta. intros v s' [-> ->].
    eapply succeeds_mono; [apply IH; [intros; apply Hf; lia|lia|lia]|]. cbv beta. intros r s' [-> ->].
    split; [done|]. f_equal. rewrite <- app_assoc. f_equal.
    rewrite (seqZ_cons current) by lia. simpl. f_equal. f_equal. f_equal; lia.
Qed.

(** The double indirect part of the range is read from the start of a block of
    pointers, or stays in one. *)
Definition aligned_range (s : Fs) (start end_ : Z) : Prop :=
  start < 12 + entries s \/ (start - 12 - entries s) mod entries s = 0 \/
  (start - 12 - entries s) mod entries s + (end_ - start) <= entries s.

Lemma same_quotient a b e : 0 < e -> 0 <= a -> a <= b -> a mod e + (b - a) < e -> b / e = a / e.
Proof.
  intros He Ha Hab Hlt. pose proof (Z.div_mod a e) as E. pose proof (Z.mod_pos_bound a e).
  symmetry. apply (Z.div_unique b e (a / e) (a mod e + (b - a))); lia.
Qed.

(** One turn adds the pointers of at least one block. *)
Lemma find_blocks_turn_ok s0 s i (f : Z -> Z) end_ cur out :
  ready s0 s -> 0 <= cur < end_ -> (forall n, cur <= n < end_ -> maps s0 i n (f n)) -> aligned_range s0 cur end_ ->
  succeeds (find_blocks_turn i end_ cur out) s (fun r s' =>
    ready s0 s' /\ exists cur', r = (cur', out ++ map f (seqZ cur (cur' - cur))) /\
      cur < cur' <= end_ /\ aligned_range s0 cur' end_).
Proof.
  intros HR Hc Hmaps Hal. destruct (ready_entries s0 s HR) as [He _]. set (e := entries s0) in *.
  unfold find_blocks_turn. m_steps. rewrite (ready_superblock s0 s) by done. fold (entries s0). fold e.
  pose proof (Hmaps cur ltac:(lia)) as Hcur.
  destruct Hcur as [Hr Hb|b12 Hr Hb Hb0 Hd Hu|b13 b Hr Hb Hb0 Hd Hu Hu0 Hd' Hu'].
  - destruct (Z.ltb_spec cur 12); [|lia]. eapply succeeds_mono.
    { apply (push_while_ok f); [|lia..]. intros c Hce Hcl. apply inode_block_ok.
      destruct (Hmaps c ltac:(lia)) as [|? Hx|? ? Hx]; [done|lia|lia]. }
    cbv beta. intros r s' [-> ->]. split; [done|]. eexists. split; [done|]. split; [lia|].
    left. fold e. lia.
  - fold e in Hr. destruct (Z.ltb_spec cur 12); [lia|]. destruct (Z.ltb_spec cur (12 + e)); [|lia]. m_step.
    eapply succeeds_mono; [by apply inode_block_ok|]. cbv beta. intros v s' [-> ->].
    destruct (Z.eqb_spec b12 0); [done|]. m_step.
    eapply succeeds_mono; [by apply ready_read|]. cbv beta. intros q s' (HR' & Hq & _).
    eapply succeeds_mono.
    { apply (push_while_ok f); [|lia..]. intros c Hce Hcl.
      eapply succeeds_mono; [eapply (load_u32_points s0); (done || (fold e; lia))|]. cbv beta.
      intros v s'' [-> ->]. split; [done|].
      destruct (Hmaps c ltac:(lia)) as [Hx|b Hx Hb' _ _ Hu'|? ? Hx]; [lia| |fold e in Hx; lia].
      rewrite Hb in Hb'. by injection Hb' as ->. }
    cbv beta. intros r s'' [-> ->]. split; [done|]. eexists. split; [done|]. split; [lia|].
    destruct (Z.le_gt_cases end_ (12 + e)) as [Hle|Hgt].
    + rewrite Z.min_l by lia. right; right. fold e. pose proof (Z.mod_pos_bound (end_ - 12 - e) e). lia.
    + rewrite Z.min_r by lia. right; left. fold e. by replace (12 + e - 12 - e) with 0 by lia.
  - fold e in Hr, Hu. destruct (Z.ltb_spec cur 12); [lia|]. destruct (Z.ltb_spec cur (12 + e)); [lia|].
    destruct (Z.ltb_spec cur (12 + e + e * e)); [|lia]. m_step. fold e in Hu'.
    destruct (double_range s0 s cur HR Hr) as [R1 R2]. fold e in R1, R2.
    eapply succeeds_mono; [by eapply second_level_ok|]. cbv beta. intros v s' [HR' ->]. m_step.
    eapply succeeds_mono; [by apply ready_read|]. cbv beta. intros q s'' (HR'' & Hq & _).
    destruct Hal as [Hal|Hal]; [fold e in Hal; lia|]. fold e in Hal.
    eapply succeeds_mono.
    { apply (push_while_ok f); [|lia..]. intros c Hce Hcl.
      eapply succeeds_mono; [apply (load_u32_points s0 _ _ b); [done..|]; apply Z.mod_pos_bound; fold e; lia|]. cbv beta.
      intros v s3 [-> ->]. split; [done|].
      assert ((c - 12 - e) / e = (cur - 12 - e) / e) as Eq by (apply same_quotient; lia).
      destruct (Hmaps c ltac:(lia)) as [Hx|? Hx|b13' b' Hx Hb13' _ _ Hu1 _ _ Hu2];
        fold e in Hx; [lia|lia|]. fold e in Hu1, Hu2. rewrite Hb in Hb13'. injection Hb13' as <-.
      rewrite Eq, Hu in Hu1. by subst b'. }
    cbv beta. intros r s3 [-> ->]. split; [done|]. eexists. split; [done|]. split; [lia|].
    right. fold e. destruct Hal as [Hal|Hal].
    + destruct (Z.le_gt_cases end_ (cur + e)) as [Hle|Hgt].
      * rewrite Z.min_l by lia. right. pose proof (Z.mod_pos_bound (end_ - 12 - e) e). lia.
      * rewrite Z.min_r by lia. left. replace (cur + e - 12 - e) with (cur - 12 - e + 1 * e) by lia.
        by rewrite Z.mod_add by lia.
    + rewrite Z.min_l by lia. right. pose proof (Z.mod_pos_bound (end_ - 12 - e) e). lia.
Qed.

Lemma find_blocks_loop_ok s0 i (f : Z -> Z) end_ fuel : forall s cur out,
  ready s0 s -> 0 <= cur <= end_ -> (forall n, cur <= n < end_ -> maps s0 i n (f n)) ->
  aligned_range s0 cur end_ -> end_ - cur <= Z.of_nat fuel ->
  succeeds (find_blocks_loop fuel i end_ cur out) s (fun r s' =>
    ready s0 s' /\ r = out ++ map f (seqZ cur (end_ - cur))).
Proof.
  induction fuel as [|fuel IH]; intros s cur out HR Hc Hmaps Hal Hfuel; simpl.
  - destruct (Z.ltb_spec cur end_); [lia|]. m_step. replace (end_ - cur) with 0 by lia. simpl.
    by rewrite app_nil_r.
  - destruct (Z.ltb_spec cur end_); [|m_step; replace (end_ - cur) with 0 by lia; simpl; by rewrite app_nil_r].
    m_step. eapply succeeds_mono; [apply (find_blocks_turn_ok s0 _ i f); (done || lia)|]. cbv beta.
    intros r s' (HR' & cur' & -> & Hc' & Hal'). eapply succeeds_mono; [apply IH|]; try done; try lia.
    { intros. apply Hmaps. lia. }
    cbv beta. intros r s'' [HR'' ->]. split; [done|]. rewrite <- app_assoc, <- map_app. do 2 f_equal.
    replace (end_ - cur) with (cur' - cur + (end_ - cur')) by lia. rewrite seqZ_app by lia.
    do 2 f_equal. lia.
Qed.

Lemma inode_find_blocks_ok s0 s i (f : Z -> Z) start end_ :
  ready s0 s -> 0 <= start <= end_ -> end_ <= file_blocks s0 i ->
  (forall n, start <= n < end_ -> maps s0 i n (f n)) -> aligned_range s0 start end_ ->
  succeeds (inode_find_blocks i start end_ []) s (fun r s' =>
    ready s0 s' /\ r = map f (seqZ start (end_ - start))).
Proof.
  intros HR Hs He Hmaps Hal. unfold inode_find_blocks. m_steps.
  eapply succeeds_mono; [by apply filesystem_blocks_ok|]. cbv beta. intros v s' [-> ->].
  destruct (Z.ltb_spec end_ start); [lia|]. destruct (Z.ltb_spec (file_blocks s0 i) end_); [lia|]. simpl.
  apply (find_blocks_loop_ok s0 i f); try done. lia.
Qed.

(** C16: [inode_find_blocks], which reads each block of pointers once for all the file
    blocks it serves, agrees with [inode_find_block] one block at a time: on a mounted
    disk, for a range of existing blocks that starts in the direct or single indirect
    part, or at the start of a block of second level pointers, or stays in one, it
    returns one number for each block, and the search of any of these blocks alone
    returns the same number. *)
Theorem find_blocks_agree s0 s i (f : Z -> Z) start end_ :
  ready s0 s -> 0 <= start <= end_ -> end_ <= file_blocks s0 i ->
  (forall n, start <= n < end_ -> maps s0 i n (f n) /\ f n <> 0) -> aligned_range s0 start end_ ->
  succeeds (inode_find_blocks i start end_ []) s (fun r s' => zlen r = end_ - start /\
    (forall k p, 0 <= k -> aget r k = Some p -> succeeds (inode_find_block i (start + k)) s' (fun q _ => q = p))).
Proof.
  intros HR Hs He Hmaps Hal.
  eapply succeeds_mono; [apply (inode_find_blocks_ok s0 s i f); try done; intros n Hn; by apply Hmaps|]. cbv beta.
  intros r s' [HR' ->]. split; [rewrite length_map, length_seqZ; lia|]. intros k p Hk Hp.
  pose proof (aget_Some_range _ _ _ Hp) as Hlt. rewrite length_map, length_seqZ in Hlt.
  rewrite aget_lookup, list_lookup_fmap, lookup_seqZ_lt in Hp by lia. simpl in Hp. injection Hp as Hp.
  rewrite Z2Nat.id in Hp by lia. destruct (Hmaps (start + k) ltac:(lia)) as [Hm Hne]. rewrite Hp in Hm, Hne.
  eapply succeeds_mono; [apply (inode_find_block_ok s0); [done|done|done|lia]|]. by intros q s'' [_ ->].
Qed.

(** A file whose last byte ends its last block cannot be read to its end: the block
    after it is asked for too. *)
Lemma whole_blocks_refused s0 s i start :
  ready s0 s -> 0 <= start <= file_blocks s0 i ->
  exists s', inode_find_blocks i start (file_blocks s0 i + 1) [] s = Ret (Error "block out of range", s').
Proof.
  intros HR Hs. exists s. unfold inode_find_blocks, mbind, M_bind, get.
  pose proof (filesystem_blocks_ok s0 s i HR) as HB. apply succeeds_Ret in HB as (v & s' & -> & -> & ->).
  destruct (Z.ltb_spec (file_blocks s0 i) (file_blocks s0 i + 1)); [by rewrite orb_true_r|lia].
Qed.
End spec.
