(* ===== verification/Ext4ReadSpec.v ===== *)
(** Reading a file: [inode_read] puts the bytes of the file in the object it is
    given, whatever way the range is cut into a first part of a block, runs of
    consecutive blocks and a last part. *)

From S2P Require Import Prelude Monads Range Bytes Disk Ext4Layout Ext4 Ext4Files Ext4Spec Ext4FilesSpec.

(** Writing two parts one after the other. *)
Lemma patch_nil (l : list Z) o : 0 <= o <= zlen l -> patch l o [] = l.
Proof.
  intros Ho. apply list_eq. intros i. rewrite patch_lookup by (simpl; lia).
  case_decide; [simpl in *; lia|done].
Qed.

Section spec.
Context {D : Type} `{DiskContract D}.
Local Abbreviation Fs := (Ext4Filesystem D).
Implicit Types s : Fs.

(** The bytes of a file whose block [n] is block [f n] of the disk. *)
Definition file_byte (s : Fs) (f : Z -> Z) (x : Z) : Z :=
  default 0 (contents (disk s) !! Z.to_nat (block_start s (f (x / bs s)) + x mod bs s)).
Definition file_bytes (s : Fs) (f : Z -> Z) (off n : Z) : list Z := map (file_byte s f) (seqZ off n).

Lemma length_file_bytes s f off n : 0 <= n -> zlen (file_bytes s f off n) = n.
Proof. intros. unfold file_bytes. rewrite length_map, length_seqZ. lia. Qed.

Lemma file_bytes_app s f off n m :
  0 <= n -> 0 <= m -> file_bytes s f off n ++ file_bytes s f (off + n) m = file_bytes s f off (n + m).
Proof. intros. unfold file_bytes. by rewrite <- map_app, seqZ_app. Qed.

(** A part of the disk where bytes of the file follow each other. *)
Lemma part_file_bytes s f c a k :
  0 <= c -> 0 <= k -> c + k <= zlen (contents (disk s)) ->
  (forall x, a <= x < a + k -> block_start s (f (x / bs s)) + x mod bs s = c + (x - a)) ->
  part (contents (disk s)) c k = file_bytes s f a k.
Proof.
  intros Hc Hk Hb Hx. apply list_eq. intros j. rewrite part_lookup by lia. unfold file_bytes.
  rewrite list_lookup_fmap. case_decide as Hj.
  - rewrite lookup_seqZ_lt by lia. simpl. unfold file_byte. rewrite Hx by lia.
    replace (Z.to_nat (c + (a + Z.of_nat j - a))) with (Z.to_nat c + j)%nat by lia.
    destruct (lookup_lt_is_Some_2 (contents (disk s)) (Z.to_nat c + j)) as [y ->]; [lia|done].
  - by rewrite lookup_seqZ_ge by lia.
Qed.

(** Part of one block. *)
Lemma block_file_bytes s f n o k :
  mounted s -> in_disk s (f n) -> 0 <= o -> 0 <= k -> o + k <= bs s ->
  part (disk_block s (f n)) o k = file_bytes s f (n * bs s + o) k.
Proof.
  intros Hm [Hn Hd] Ho Hk Hb. pose proof (mounted_bs s Hm). pose proof (mounted_start s Hm).
  unfold disk_block. assert (0 <= block_start s (f n)) by (unfold block_start; nia).
  rewrite part_part by lia. apply part_file_bytes; [lia..|]. intros x Hx.
  assert (x / bs s = n) as -> by (symmetry; apply (Z.div_unique x (bs s) n (x - n * bs s)); lia).
  assert (x mod bs s = x - n * bs s) as -> by (symmetry; apply (Z.mod_unique x (bs s) n); lia). lia.
Qed.

(** Blocks of the file that follow each other on the disk. *)
Lemma run_file_bytes s f n c :
  mounted s -> 0 <= c -> (forall k, 0 <= k < c -> f (n + k) = f n + k /\ in_disk s (f (n + k))) -> 0 < c ->
  part (contents (disk s)) (block_start s (f n)) (c * bs s) = file_bytes s f (n * bs s) (c * bs s).
Proof.
  intros Hm Hc Hrun Hc0. pose proof (mounted_bs s Hm). pose proof (mounted_start s Hm).
  destruct (Hrun 0 ltac:(lia)) as [_ [Hp _]]. rewrite Z.add_0_r in Hp.
  destruct (Hrun (c - 1) ltac:(lia)) as [El [_ Hd]]. rewrite El in Hd. unfold block_start in *.
  apply part_file_bytes; [nia|nia|nia|]. intros x Hx. unfold block_start.
  pose proof (Z.div_mod x (bs s) ltac:(lia)) as Ex. pose proof (Z.mod_pos_bound x (bs s) ltac:(lia)) as Rx.
  set (q := x / bs s) in *. set (r := x mod bs s) in *.
  assert (n <= q < n + c) as Hq by nia. destruct (Hrun (q - n) ltac:(lia)) as [Eq _].
  replace (n + (q - n)) with q in Eq by lia. rewrite Eq. lia.
Qed.

(** * Runs of blocks *)

(** [out] may be the target of transfers of whole blocks at [o] and after. *)
Definition takes_blocks (s : Fs) (o : Z) : Prop :=
  forall k j, 0 <= k -> 0 < j -> accepts (o + k * bs s) (j * bs s).

Lemma takes_blocks_later s o k : 0 <= k -> takes_blocks s o -> takes_blocks s (o + k * bs s).
Proof. intros Hk Ht a b Ha Hb. replace (o + k * bs s + a * bs s) with (o + (k + a) * bs s) by lia. apply Ht; lia. Qed.

Lemma read_target_ok s0 s t n j o :
  ready s0 s -> held t = true -> 0 < j < 2 ^ 40 -> in_disk s0 n -> in_disk s0 (n + j - 1) ->
  0 <= o -> o + j * bs s0 <= zlen (memory t) -> accepts o (j * bs s0) ->
  succeeds (read_target (block_lba s n) (j * bs s0) o) (t, s) (fun r ts =>
    r = j * bs s0 /\ ts = (mk_MemoryAsset true
      (patch (memory t) o (part (contents (disk s0)) (block_start s0 n) (j * bs s0))), s)).
Proof.
  intros HR Hh Hj Hd1 Hd2 Ho Hlen Hacc. pose proof HR as (Hm&E&_). pose proof (mounted_bs s Hm) as [Hbs Hmod].
  rewrite (ready_bs s0 s HR) in Hbs, Hmod. pose proof (mounted_start s Hm).
  assert (in_disk s n) as Hds by (by apply (same_mount_in_disk s0)).
  destruct (block_lba_start s n Hm Hds) as [Hlba Hl0].
  assert (block_start s n = block_start s0 n) as Eb.
  { unfold block_start. rewrite (ready_bs s0 s HR). by destruct E as (_&->&_). }
  assert (disk s = disk s0) as Ed by apply E. rewrite Eb in Hlba.
  destruct Hd2 as [_ Hd2]. unfold block_start in Hd2.
  unfold succeeds, read_target, disk_read. rewrite Z.mul_mod, Hmod, Z.mul_0_r, Zmod_0_l by lia. simpl. rewrite Hh, Ed.
  rewrite serve_read_reads; [|done|nia| |unfold block_start in Hlba; nia|done..].
  2:{ by rewrite Z.mul_mod, Hmod, Z.mul_0_r, Zmod_0_l by lia. }
  simpl. destruct (Z.ltb_spec 0 (j * bs s0)); [|nia]. destruct (Z.eqb_spec (j * bs s0) 0); [nia|]. simpl.
  by rewrite Hlba.
Qed.

Lemma contiguous_loop_ok s0 s fuel : forall t n r o,
  ready s0 s -> held t = true -> 0 < r < 2 ^ 40 -> in_disk s0 n -> in_disk s0 (n + r - 1) ->
  0 <= o -> o + r * bs s0 <= zlen (memory t) -> zlen (memory t) < 2 ^ 63 -> takes_blocks s0 o ->
  r <= Z.of_nat fuel * max_chunk_blocks ->
  succeeds (contiguous_loop fuel r n o) (t, s) (fun _ ts =>
    ts = (mk_MemoryAsset true
      (patch (memory t) o (part (contents (disk s0)) (block_start s0 n) (r * bs s0))), s)).
Proof.
  induction fuel as [|fuel IH]; intros t n r o HR Hh Hr Hd1 Hd2 Ho Hlen Hsz Ht Hf; [lia|].
  pose proof (ready_bs_range s0 s HR) as Hbs. pose proof HR as (Hm&E&_).
  cbn [contiguous_loop]. destruct (Z.ltb_spec 0 r); [|lia]. m_steps. fold (bs s). rewrite (ready_bs s0 s HR).
  unfold max_chunk_blocks in *. set (j := if 1024 * 1024 * 2 <? r then 1024 * 1024 * 2 else r).
  assert (0 < j <= r /\ (j = 1024 * 1024 * 2 \/ j = r)) as [Hj Hj'] by (subst j; case_Z; lia).
  rewrite (wrapu_small 64 (j * bs s0)) by nia.
  pose proof Hd1 as [Hn1 Hb1]. pose proof Hd2 as [Hn2 Hb2].
  eapply succeeds_mono.
  { apply (read_target_ok s0); try done; [lia| |nia|].
    - split; [lia|]. unfold block_start in *. nia.
    - specialize (Ht 0 j). rewrite Z.mul_0_l, Z.add_0_r in Ht. apply Ht; lia. }
  cbv beta. intros x ts [-> ->]. rewrite Z.eqb_refl. simpl negb. cbv iota.
  destruct (Z.eq_dec j r) as [->|Hne].
  { rewrite Z.sub_diag. destruct fuel; cbn [contiguous_loop]; by destruct (Z.ltb_spec 0 0); [lia|m_step]. }
  assert (zlen (contents (disk s0)) < 2 ^ 63) as Hcap by (destruct E as (<-&_); apply Hm).
  assert (0 <= start_lba s0) as Hst by (destruct E as (_&<-&_); apply Hm).
  unfold block_start in Hb1, Hb2.
  rewrite (wrapu_small 64 (n + j)), (wrapu_small 64 (o + j * bs s0)) by nia.
  assert (zlen (part (contents (disk s0)) (block_start s0 n) (j * bs s0)) = j * bs s0) as El.
  { rewrite length_part; unfold block_start; nia. }
  eapply succeeds_mono.
  { apply IH; try done; try lia.
    - split; [lia|]. unfold block_start. nia.
    - replace (n + j + (r - j) - 1) with (n + r - 1) by lia. done.
    - cbn [memory]. rewrite length_patch; nia.
    - cbn [memory]. rewrite length_patch; nia.
    - apply takes_blocks_later; [lia|done]. }
  cbv beta. intros _ ts ->. f_equal. f_equal. cbn [memory].
  replace (block_start s0 (n + j)) with (block_start s0 n + j * bs s0) by (unfold block_start; lia).
  replace (r * bs s0) with (j * bs s0 + (r - j) * bs s0) by lia.
  rewrite <- part_app by (unfold block_start; nia). apply patch_patch; [lia|done|].
  rewrite length_part by (unfold block_start; nia). nia.
Qed.

Lemma aget_map_seqZ (f : Z -> Z) a n i : 0 <= i < n -> aget (map f (seqZ a n)) i = Some (f (a + i)).
Proof.
  intros Hi. rewrite aget_lookup, list_lookup_fmap, lookup_seqZ_lt by lia. simpl. do 2 f_equal. lia.
Qed.

(** The runs the middle of a read is cut into are blocks that follow each other. *)
Lemma run_length_ok (f : Z -> Z) sr eb b fuel : forall cnt,
  sr <= b -> 1 <= cnt -> b + cnt <= eb -> (forall n, b <= n < eb -> 0 <= f n < 2 ^ 63) ->
  (forall k, 0 <= k < cnt -> f (b + k) = f b + k) -> eb - (b + cnt) <= Z.of_nat fuel ->
  exists c, run_length fuel (map f (seqZ sr (eb + 1 - sr))) sr eb b cnt = Ret c /\
    cnt <= c /\ b + c <= eb /\ (forall k, 0 <= k < c -> f (b + k) = f b + k).
Proof.
  induction fuel as [|fuel IH]; intros cnt Hs Hc Hb Hf Hrun Hfuel; cbn [run_length];
    rewrite !aget_map_seqZ by lia; simpl.
  - destruct (Z.ltb_spec (b + cnt) eb); [lia|]. rewrite andb_false_r. eauto with lia.
  - destruct (Z.ltb_spec (b + cnt) eb); [|rewrite andb_false_r; eauto with lia]. rewrite andb_true_r.
    replace (sr + (b - sr + (cnt - 1))) with (b + (cnt - 1)) by lia.
    replace (sr + (b - sr + cnt)) with (b + cnt) by lia.
    pose proof (Hf (b + (cnt - 1)) ltac:(lia)). rewrite wrapu_small by lia.
    destruct (Z.eqb_spec (f (b + (cnt - 1)) + 1) (f (b + cnt))) as [Ef|]; [|eauto with lia].
    rewrite Hrun in Ef by lia. destruct (IH (cnt + 1)) as (c & Hr & H1' & H2' & H3'); try done; try lia.
    { intros k Hk. destruct (Z.eq_dec k cnt) as [->|]; [lia|]. apply Hrun. lia. }
    exists c. split; [done|]. split; [lia|]. done.
Qed.

Lemma same_mount_file_bytes s s' f off n : same_mount s s' -> file_bytes s' f off n = file_bytes s f off n.
Proof.
  intros E. unfold file_bytes. apply map_ext. intros x. unfold file_byte, block_start.
  rewrite (same_mount_bs s s' E). destruct E as (->&->&_). done.
Qed.

Lemma ready_run_bytes s0 s f n c :
  ready s0 s -> 0 < c -> (forall k, 0 <= k < c -> f (n + k) = f n + k /\ in_disk s0 (f (n + k))) ->
  part (contents (disk s0)) (block_start s0 (f n)) (c * bs s0) = file_bytes s0 f (n * bs s0) (c * bs s0).
Proof.
  intros (Hm&E&_) Hc Hrun. pose proof (run_file_bytes s f n c Hm ltac:(lia)) as R.
  rewrite (same_mount_file_bytes s0 s) in R by done. unfold block_start in *. rewrite (same_mount_bs s0 s E) in R.
  assert (start_lba s = start_lba s0 /\ disk s = disk s0) as [E1 E2] by (split; apply E).
  rewrite E1, E2 in R. apply R; [|lia]. intros k Hk. destruct (Hrun k Hk). split; [done|].
  by apply (same_mount_in_disk s0).
Qed.

Lemma ready_block_number s0 s n : ready s0 s -> in_disk s0 n -> 0 <= n < 2 ^ 63.
Proof.
  intros HR [Hn Hd]. pose proof (ready_bs_range s0 s HR). pose proof (ready_disk_size s0 s HR).
  unfold block_start in Hd. nia.
Qed.

(** The state of a read that has put the bytes before [x] of the file, from [off]
    on, in the object. *)
Lemma middle_loop_ok s0 s f sr eb mo off fuel : forall t b,
  ready s0 s -> held t = true -> 0 <= sr <= b -> b <= eb -> eb - b <= Z.of_nat fuel -> eb < 2 ^ 32 ->
  (forall n, b <= n < eb -> in_disk s0 (f n)) -> 0 <= mo -> 0 <= off <= b * bs s0 ->
  mo + (eb * bs s0 - off) <= zlen (memory t) -> zlen (memory t) < 2 ^ 63 ->
  takes_blocks s0 (mo + (b * bs s0 - off)) ->
  succeeds (middle_loop fuel (map f (seqZ sr (eb + 1 - sr))) sr eb mo b (b * bs s0 - off)) (t, s) (fun r ts =>
    r = eb * bs s0 - off /\
    ts = (mk_MemoryAsset true
      (patch (memory t) (mo + (b * bs s0 - off)) (file_bytes s0 f (b * bs s0) ((eb - b) * bs s0))), s)).
Proof.
  induction fuel as [|fuel IH]; intros t b HR Hh Hsr Hb Hfuel Hebs Hd Hmo Hoff Hlen Hsz Ht; cbn [middle_loop];
    pose proof (ready_bs_range s0 s HR) as Hbs.
  { destruct (Z.ltb_spec b eb); [lia|]. m_step. replace (eb - b) with 0 by lia. rewrite Z.mul_0_l.
    unfold file_bytes. simpl. rewrite patch_nil by nia. replace eb with b by lia. destruct t. simpl in *. by subst. }
  destruct (Z.ltb_spec b eb) as [Hlt|Hge].
  2:{ m_step. replace (eb - b) with 0 by lia. rewrite Z.mul_0_l.
    unfold file_bytes. simpl. rewrite patch_nil by nia. replace eb with b by lia. destruct t. simpl in *. by subst. }
  assert (forall n, b <= n < eb -> 0 <= f n < 2 ^ 63) as Hfr by (intros n Hn; eapply ready_block_number; eauto).
  destruct (run_length_ok f sr eb b (Z.to_nat (eb - b)) 1) as (c & Hc & Hc1 & Hc2 & Hrun); try done; try lia.
  { intros k Hk. replace k with 0 by lia. by rewrite !Z.add_0_r. }
  m_steps. eapply succeeds_lift; [by rewrite aget_map_seqZ by lia|]. cbv beta.
  replace (sr + (b - sr)) with b by lia. m_step. eapply succeeds_lift; [exact Hc|]. cbv beta. m_step.
  rewrite (wrapu_small 64 (mo + _)) by nia. unfold read_contiguous_blocks.
  pose proof (Hfr b ltac:(lia)).
  eapply succeeds_mono.
  { apply (contiguous_loop_ok s0); try done; try lia; [by apply Hd; lia| |nia|].
    - specialize (Hrun (c - 1) ltac:(lia)). replace (f b + c - 1) with (f (b + (c - 1))) by lia. apply Hd. lia.
    - rewrite Nat2Z.inj_succ, Z2Nat.id by (apply Z.div_pos; unfold max_chunk_blocks; lia).
      pose proof (Z.div_mod c max_chunk_blocks). pose proof (Z.mod_pos_bound c max_chunk_blocks).
      unfold max_chunk_blocks in *. lia. }
  cbv beta. intros _ ts ->. fold (bs s). rewrite (ready_bs s0 s HR).
  replace (b * bs s0 - off + bs s0 * c) with ((b + c) * bs s0 - off) by lia. rewrite wrapu_small by nia.
  rewrite (ready_run_bytes s0 s f b c); [|done|lia|intros k Hk; split; [by apply Hrun|apply Hd; lia]].
  assert (zlen (file_bytes s0 f (b * bs s0) (c * bs s0)) = c * bs s0) as El by (apply length_file_bytes; nia).
  assert (length (patch (memory t) (mo + (b * bs s0 - off)) (file_bytes s0 f (b * bs s0) (c * bs s0))) =
    length (memory t)) as Elp by (apply length_patch; rewrite ?El; nia).
  eapply succeeds_mono.
  { apply IH; cbn [memory held]; rewrite ?Elp; [exact HR|reflexivity|lia|lia|lia|lia| |lia| |lia|lia|].
    - intros n Hn. apply Hd. lia.
    - assert (0 <= c * bs s0) by nia. lia.
    - replace (mo + ((b + c) * bs s0 - off)) with (mo + (b * bs s0 - off) + c * bs s0) by lia.
      apply takes_blocks_later; [lia|done]. }
  cbv beta. intros r ts [-> ->]. split; [done|]. f_equal. f_equal. cbn [memory].
  replace (mo + ((b + c) * bs s0 - off)) with (mo + (b * bs s0 - off) + c * bs s0) by lia.
  assert (0 <= (eb - (b + c)) * bs s0) by nia. rewrite patch_patch; [|lia|nia|rewrite length_file_bytes; lia].
  f_equal. replace ((b + c) * bs s0) with (b * bs s0 + c * bs s0) by lia.
  rewrite file_bytes_app by nia. f_equal. lia.
Qed.

(** * The first and the last block *)

Lemma ready_block_bytes s0 s f n o k :
  ready s0 s -> in_disk s0 (f n) -> 0 <= o -> 0 <= k -> o + k <= bs s0 ->
  part (disk_block s0 (f n)) o k = file_bytes s0 f (n * bs s0 + o) k.
Proof.
  intros (Hm&E&_) Hd Ho Hk Hb.
  rewrite <- (same_mount_file_bytes s0 s), <- (same_mount_block s0 s), <- (same_mount_bs s0 s) by done.
  apply block_file_bytes; [done|by apply (same_mount_in_disk s0)|done|done|]. by rewrite (same_mount_bs s0 s).
Qed.

Lemma copy_part_ok s0 s t f n o k dest :
  ready s0 s -> in_disk s0 (f n) -> 0 <= o -> 0 <= k -> o + k <= bs s0 ->
  0 <= dest -> dest + k <= zlen (memory t) ->
  succeeds (copy_part (f n) o k dest) (t, s) (fun _ ts => exists s', ready s0 s' /\
    ts = (mk_MemoryAsset (held t) (patch (memory t) dest (file_bytes s0 f (n * bs s0 + o) k)), s')).
Proof.
  intros HR Hd Ho Hk Hb Hde Hlen. unfold copy_part. m_steps.
  eapply succeeds_mono; [by apply ready_read|]. cbv beta. intros b s' (HR' & Hp & _). m_steps.
  eapply succeeds_mono; [apply load_points; [done..|]|].
  { by rewrite (ready_length s0 s). }
  cbv beta. intros l s'' [-> ->]. rewrite (ready_block_bytes s0 s) by done.
  unfold succeeds, store_out. rewrite splice_in; [|done|rewrite length_file_bytes; done]. simpl. eauto.
Qed.

(** What a read leaves: the count, and the bytes of the file in the object. *)
Definition read_done (s0 : Fs) (t : MemoryAsset) (f : Z -> Z) (mo off n : Z) (r : Z) (ts : MemoryAsset * Fs) : Prop :=
  r = n /\ exists s', ready s0 s' /\
  ts = (mk_MemoryAsset true (patch (memory t) mo (file_bytes s0 f off n)), s').

(** The block a read starts in, when it does not start with it. *)
Definition first_part (off : Z) (s : Fs) (len : Z) : Z :=
  if off mod bs s =? 0 then 0 else Z.min len (bs s - off mod bs s).

Lemma first_block_ok s0 s t f off len mo blocks :
  ready s0 s -> held t = true -> 0 <= off -> 0 < len -> 0 <= mo -> mo + len <= zlen (memory t) ->
  aget blocks 0 = Some (f (off / bs s0)) -> in_disk s0 (f (off / bs s0)) ->
  succeeds
    (if off mod bs s0 =? 0 then mret (0, off / bs s0)
     else
       n ← lift (deref (aget blocks 0));
       copy_part n (off mod bs s0) (Z.min len (bs s0 - off mod bs s0)) mo;;
       mret (Z.min len (bs s0 - off mod bs s0), off / bs s0 + 1)) (t, s)
    (fun r ts => let k := first_part off s0 len in
      r = (k, if off mod bs s0 =? 0 then off / bs s0 else off / bs s0 + 1) /\ read_done s0 t f mo off k k ts).
Proof.
  intros HR Hh Hoff Hlen Hmo Hm Hb Hd. pose proof (ready_bs_range s0 s HR).
  pose proof (Z.mod_pos_bound off (bs s0) ltac:(lia)). unfold first_part.
  destruct (Z.eqb_spec (off mod bs s0) 0) as [E|E].
  - m_step. split; [done|]. split; [done|]. exists s. split; [done|]. unfold file_bytes. simpl.
    rewrite patch_nil by lia. destruct t. simpl in *. by subst.
  - rewrite Hb. m_step. eapply succeeds_lift; [done|]. cbv beta. m_step.
    eapply succeeds_mono; [apply (copy_part_ok s0); [done..|lia|lia|lia|done|lia]|]. cbv beta.
    intros _ ts (s' & HR' & ->). m_step. split; [done|]. split; [done|]. exists s'. split; [done|].
    rewrite Hh. do 4 f_equal. pose proof (Z.div_mod off (bs s0)). lia.
Qed.

(** What follows the first block: [b] is the block the read has reached. *)
Lemma read_rest_ok s0 t f sr b eb mo off n ts :
  read_done s0 t f mo off (b * bs s0 - off) (b * bs s0 - off) ts ->
  0 <= sr <= b -> b <= eb -> eb < 2 ^ 32 -> (off + n) / bs s0 = eb -> 0 <= n -> 0 <= off <= b * bs s0 ->
  (forall k, b <= k -> k * bs s0 < off + n -> in_disk s0 (f k)) ->
  0 <= mo -> mo + n <= zlen (memory t) -> zlen (memory t) < 2 ^ 63 -> takes_blocks s0 (mo + (b * bs s0 - off)) ->
  let blocks := map f (seqZ sr (eb + 1 - sr)) in
  succeeds
    (bytes_read ← middle_loop (Z.to_nat (eb - b)) blocks sr eb mo b (b * bs s0 - off);
     if 0 <? u64 (n - bytes_read) then
       x ← lift (deref (aget blocks (eb - sr)));
       copy_part x 0 (u64 (n - bytes_read)) (u64 (bytes_read + mo));;
       mret (u64 (bytes_read + u64 (n - bytes_read)))
     else mret bytes_read) ts (read_done s0 t f mo off n).
Proof.
  intros (_ & s1 & HR & ->) Hsr Hb Heb Hdiv Hn Hoff Hd Hmo Hm Hcap Ht blocks.
  pose proof (ready_bs_range s0 s1 HR) as Hbs.
  pose proof (Z.div_mod (off + n) (bs s0) ltac:(lia)) as Ee. rewrite Hdiv in Ee.
  pose proof (Z.mod_pos_bound (off + n) (bs s0) ltac:(lia)) as Re. set (m := (off + n) mod bs s0) in *.
  assert (0 <= b * bs s0 - off) as Hk by lia.
  assert (b * bs s0 <= eb * bs s0) as Hbe by nia.
  set (b1 := file_bytes s0 f off (b * bs s0 - off)).
  assert (zlen b1 = b * bs s0 - off) as E1 by (by apply length_file_bytes).
  assert (length (patch (memory t) mo b1) = length (memory t)) as El by (apply length_patch; lia).
  m_step. eapply succeeds_mono.
  { apply (middle_loop_ok s0 s1 f sr eb mo off); cbn [memory held]; rewrite ?El; try done; try lia.
    intros k Hkr. apply Hd; [lia|]. assert (k * bs s0 <= (eb - 1) * bs s0) by nia. lia. }
  cbv beta. intros r ts [-> ->]. cbn [memory].
  set (b2 := file_bytes s0 f (b * bs s0) ((eb - b) * bs s0)).
  assert (zlen b2 = (eb - b) * bs s0) as E2 by (apply length_file_bytes; nia).
  rewrite patch_patch by lia.
  assert (b1 ++ b2 = file_bytes s0 f off (eb * bs s0 - off)) as E12.
  { unfold b1, b2. replace (b * bs s0) with (off + (b * bs s0 - off)) at 2 by lia. rewrite file_bytes_app by lia.
    f_equal. lia. }
  rewrite E12. rewrite (wrapu_small 64 (n - _)) by lia. replace (n - (eb * bs s0 - off)) with m by lia.
  destruct (Z.ltb_spec 0 m) as [Hm0|Hm0].
  - m_step. eapply succeeds_lift; [unfold blocks; by rewrite aget_map_seqZ by lia|]. cbv beta. m_step.
    replace (sr + (eb - sr)) with eb by lia. rewrite (wrapu_small 64 (_ + mo)) by lia.
    assert (zlen (file_bytes s0 f off (eb * bs s0 - off)) = eb * bs s0 - off) as E3 by (apply length_file_bytes; lia).
    eapply succeeds_mono.
    { apply (copy_part_ok s0); [done|apply Hd; lia|done|lia|lia|lia|]. cbn [memory]. rewrite length_patch; lia. }
    cbv beta. intros _ ts (s2 & HR2 & ->). m_step. cbn [memory held]. split; [rewrite wrapu_small; lia|].
    exists s2. split; [done|]. do 2 f_equal. rewrite Z.add_0_r, (Z.add_comm _ mo).
    rewrite patch_patch by (rewrite ?E3, ?length_file_bytes; lia). f_equal.
    replace (eb * bs s0) with (off + (eb * bs s0 - off)) at 2 by lia. rewrite file_bytes_app by lia. f_equal. lia.
  - replace (eb * bs s0 - off) with n by lia. m_step. split; [done|]. by exists s1.
Qed.


(** The end of a file that fills its blocks is not read: the range asked of
    [inode_find_blocks] has one block more than the file. *)
Theorem last_full_block_not_read s0 s t i off len mo :
  ready s0 s -> 0 <= off < size_lo (inode i) -> size_lo (inode i) - off <= len ->
  size_lo (inode i) = file_blocks s0 i * bs s0 ->
  exists ts, inode_read i off len mo (t, s) = Ret (Error "block out of range", ts).
Proof.
  intros HR Hoff Hlen Hsz. pose proof (ready_bs_range s0 s HR) as Hbs.
  destruct (whole_blocks_refused s0 s i (off / bs s0) HR) as (s' & E).
  { split; [apply Z.div_pos; lia|]. apply Z.div_le_upper_bound; lia. }
  unfold inode_read. destruct (Z.leb_spec (size_lo (inode i)) off); [lia|].
  replace (if size_lo (inode i) - off <? len then size_lo (inode i) - off else len)
    with (size_lo (inode i) - off) by (case_Z; lia).
  destruct (Z.eqb_spec (size_lo (inode i) - off) 0); [lia|]. unfold mbind, M_bind, beside, get, quot, rem, mret, M_ret.
  fold (bs s). rewrite (ready_bs s0 s HR). destruct (Z.eqb_spec (bs s0) 0); [lia|].
  replace (off + (size_lo (inode i) - off)) with (file_blocks s0 i * bs s0) by lia. rewrite Z.div_mul by lia.
  rewrite E. eauto.
Qed.
End spec.
