(* ===== verification/Ext4DirSpec.v ===== *)
(** Directories: [get_subdir] finds the inode of the first entry in use that has the
    name, in directories whose entries follow each other to the end of each block. *)

From S2P Require Import Prelude Monads Range Bytes Disk Ext4Layout Ext4 Ext4Files Ext4Spec Ext4FilesSpec.

Section spec.
Context {D : Type} `{DiskContract D}.
Local Abbreviation Fs := (Ext4Filesystem D).
Implicit Types s : Fs.

(** The entries of a block from [off] on, with their names. *)
Inductive chain (l : list Z) : Z -> list (Ext4DirEntry * list Z) -> Prop :=
| chain_end off : zlen l <= off -> chain l off []
| chain_entry off e name es :
    0 <= off -> off + sizeof_DirEntry + name_len e <= zlen l -> 0 <= name_len e ->
    e = dir_entry_of_bytes (part l off sizeof_DirEntry) -> 0 < rec_len e ->
    name = part l (off + sizeof_DirEntry) (name_len e) ->
    chain l (off + rec_len e) es -> chain l off ((e, name) :: es).

(** The inode of the first entry in use with the name. *)
Fixpoint find_entry (name : list Z) (es : list (Ext4DirEntry * list Z)) : option Z :=
  match es with
  | [] => None
  | (e, n) :: es => if negb (entry_inode e =? 0) && bool_decide (n = name) then Some (entry_inode e) else find_entry name es
  end.

Lemma find_entry_app name es1 es2 :
  find_entry name (es1 ++ es2) = match find_entry name es1 with Some i => Some i | None => find_entry name es2 end.
Proof. induction es1 as [|[e n] es1 IH]; simpl; [done|]. by destruct (negb _ && _). Qed.

Lemma same_chars_ok s b bytes name : forall off,
  points_to s b bytes -> 0 <= off -> off + zlen name <= zlen bytes ->
  succeeds (same_chars b off name) s (fun r s' => s' = s /\ r = bool_decide (part bytes off (zlen name) = name)).
Proof.
  induction name as [|c name IH]; intros off Hp Ho Hl; cbn [same_chars].
  - by m_step.
  - m_step. eapply succeeds_mono; [apply load_points; [done|done|done|simpl in Hl; lia]|]. cbv beta. intros l s' [-> ->].
    destruct (lookup_lt_is_Some_2 bytes (Z.to_nat off)) as [x Hx]; [simpl in Hl; lia|].
    assert (part bytes off 1 = [x]) as Ex by (by apply part_one).
    assert (part bytes off (zlen (c :: name)) = x :: part bytes (off + 1) (zlen name)) as Ep.
    { simpl length. replace (Z.of_nat (S (length name))) with (1 + zlen name) by lia.
      rewrite <- part_app by lia. by rewrite Ex. }
    rewrite Ex, Ep. cbn [int_of_bytes].
    rewrite Z.mul_0_r, Z.add_0_r. destruct (Z.eqb_spec x c) as [->|Hne].
    + eapply succeeds_mono; [apply IH; [done|lia|simpl in Hl; lia]|]. cbv beta. intros r s' [-> ->]. split; [done|].
      apply bool_decide_ext. split; [by intros ->|by intros [=]].
    + m_step. split; [done|]. rewrite bool_decide_eq_false_2; [done|]. by intros [=].
Qed.

Lemma same_name_ok s b bytes off e name :
  points_to s b bytes -> 0 <= off -> 0 <= name_len e -> off + sizeof_DirEntry + name_len e <= zlen bytes ->
  succeeds (same_name b off e name) s (fun r s' =>
    s' = s /\ r = bool_decide (part bytes (off + sizeof_DirEntry) (name_len e) = name)).
Proof.
  intros Hp Ho Hn Hl. unfold same_name, sizeof_DirEntry in *. destruct (Z.eqb_spec (name_len e) (zlen name)) as [E|E]; simpl.
  - rewrite E in *. apply same_chars_ok; [done|lia|lia].
  - m_step. split; [done|]. rewrite bool_decide_eq_false_2; [done|]. intros <-. apply E.
    rewrite length_part by lia. lia.
Qed.

(** Block [b] of the directory is block [p] of the disk. *)
Definition data_block (s : Fs) (dir : Ext4InodeRef) (b p : Z) : Prop :=
  b < file_blocks s dir /\ maps s dir b p /\ p <> 0 /\ in_disk s p.

(** A directory: its blocks are data blocks of the disk, with the entries of each. *)
Record directory (s : Fs) (dir : Ext4InodeRef) (f : Z -> Z) (n : Z) (es : Z -> list (Ext4DirEntry * list Z)) : Prop := {
  dir_blocks b : 0 <= b < n -> data_block s dir b (f b);
  dir_entries b : 0 <= b < n -> chain (disk_block s (f b)) 0 (es b);
  dir_inodes b e name : 0 <= b < n -> (e, name) ∈ es b -> entry_inode e <> 0 -> inode_ok s (entry_inode e)
}.

Lemma read_entry_ok s0 s dir b p off :
  ready s0 s -> data_block s0 dir b p -> 0 <= off -> off + sizeof_DirEntry <= bs s0 ->
  succeeds (read_entry dir b off) s (fun r s' => ready s0 s' /\
    exists q, r = (dir_entry_of_bytes (part (disk_block s0 p) off sizeof_DirEntry), q) /\
    points_to s' q (disk_block s0 p)).
Proof.
  intros HR (Hb & Hm & Hp & Hd) Ho Hl. unfold read_entry, inode_read_tmp. m_step. m_step.
  eapply succeeds_mono; [by apply inode_find_block_ok|].
  cbv beta. intros v s1 [HR1 ->].
  eapply succeeds_mono; [by apply ready_read|]. cbv beta. intros q s2 (HR2 & Hq & _). m_step.
  eapply succeeds_mono; [apply load_points; [done|done|done|]|].
  { by rewrite (ready_length s0 s). }
  cbv beta. intros l s3 [-> ->]. m_step. eauto.
Qed.

(** The entries of a block, with enough turns: an entry is at least a byte. *)
Lemma block_lookup_ok s0 dir f n es name b fuel : forall s off es0,
  ready s0 s -> directory s0 dir f n es -> 0 <= b < n -> chain (disk_block s0 (f b)) off es0 ->
  (forall x, x ∈ es0 -> x ∈ es b) -> bs s0 - off < Z.of_nat fuel ->
  succeeds (block_lookup fuel dir name b off) s (fun r s' => ready s0 s' /\
    r = option_map (fun id => mk_InodeRef id (disk_inode s0 id)) (find_entry name es0)).
Proof.
  induction fuel as [|fuel IH]; intros s off es0 HR HD Hb Hch Hin Hfuel;
    destruct (dir_blocks _ _ _ _ _ HD b Hb) as (_ & _ & _ & Hd);
    pose proof (ready_length s0 s (f b) HR Hd) as El; cbn [block_lookup]; m_steps; fold (bs s);
    rewrite (ready_bs s0 s HR).
  { destruct (Z.ltb_spec off (bs s0)); [lia|]. inversion Hch; subst; [by m_steps|].
    unfold sizeof_DirEntry in *. lia. }
  destruct (Z.ltb_spec off (bs s0)) as [Hlt|Hge].
  2:{ inversion Hch; subst; [by m_steps|]. unfold sizeof_DirEntry in *. lia. }
  inversion Hch as [|? e nm es1 Ho Hl Hn He Hrec Hnm Hch']; subst; [lia|]. m_step.
  eapply succeeds_mono; [apply (read_entry_ok s0 s dir b (f b)); [done|by apply (dir_blocks _ _ _ _ _ HD)|done|lia]|].
  cbv beta. intros r s1 (HR1 & p & -> & Hp). set (e := dir_entry_of_bytes _) in *. cbn [find_entry].
  destruct (Z.eqb_spec (entry_inode e) 0) as [E0|E0]; simpl negb; cbn [andb].
  { eapply IH; try done; [|lia]. intros x Hx. apply Hin. by right. }
  m_step. eapply succeeds_mono; [apply same_name_ok; [done|done|done|done]|]. cbv beta. intros r s2 [-> ->].
  case_bool_decide as Eq.
  - m_step. eapply succeeds_mono; [apply read_inode_ok; [done|]|].
    { eapply (dir_inodes _ _ _ _ _ HD b e); [done| |done]. apply Hin. by left. }
    cbv beta. intros r s3 [HR3 ->]. by m_step.
  - eapply IH; try done; [|lia]. intros x Hx. apply Hin. by right.
Qed.

(** The entries of the directory from block [b] on, with [n] blocks left. *)
Definition entries_from (es : Z -> list (Ext4DirEntry * list Z)) (b n : Z) : list (Ext4DirEntry * list Z) :=
  concat (map es (seqZ b n)).

(** What a search yields. *)
Definition search_result (s0 : Fs) (o : option Z) (r : ctl (result Ext4InodeRef * Fs)) : Prop :=
  exists s', ready s0 s' /\
    r = Ret (match o with
             | Some id => Value (mk_InodeRef id (disk_inode s0 id))
             | None => Error "directory entry not found"
             end, s').

Lemma dir_lookup_ok s0 dir f n es name fuel k : forall s b,
  ready s0 s -> directory s0 dir f n es -> 0 <= b -> b + Z.of_nat k = n -> bs s0 < Z.of_nat fuel ->
  search_result s0 (find_entry name (entries_from es b (Z.of_nat k))) (dir_lookup fuel k dir name b s).
Proof.
  induction k as [|k IH]; intros s b HR HD Hb Hk Hfuel.
  { exists s. split; [done|]. done. }
  cbn [dir_lookup]. unfold mbind, M_bind.
  pose proof (block_lookup_ok s0 dir f n es name b fuel s 0 (es b) HR HD ltac:(lia)
    ltac:(apply (dir_entries _ _ _ _ _ HD); lia) ltac:(done) ltac:(lia)) as HB.
  apply succeeds_Ret in HB as (r & s1 & E & HR1 & ->). rewrite E.
  unfold entries_from. rewrite (seqZ_cons b) by lia. cbn [map concat]. rewrite find_entry_app.
  destruct (find_entry name (es b)) as [id|]; simpl option_map; cbv iota.
  { by exists s1. }
  replace (Z.pred (Z.of_nat (S k))) with (Z.of_nat k) by lia. replace (Z.succ b) with (b + 1) by lia.
  apply IH; [done|done|lia|lia|done].
Qed.

(** C19: [get_subdir] in a directory whose entries follow each other to the end of each
    block returns the inode, as it is on the disk, of the first entry in use that has
    the name, and the error "directory entry not found" when no entry in use has it. *)
Theorem get_subdir_finds s0 s dir f n es name fuel :
  ready s0 s -> directory s0 dir f n es -> 0 <= size_lo (inode dir) < 2 ^ 32 ->
  n = (size_lo (inode dir) + bs s0 - 1) / bs s0 -> bs s0 < Z.of_nat fuel ->
  search_result s0 (find_entry name (entries_from es 0 n)) (get_subdir fuel dir name s).
Proof.
  intros HR HD Hsz Hn Hfuel. pose proof (ready_bs_range s0 s HR) as Hbs.
  assert (0 <= n) by (subst n; apply Z.div_pos; lia).
  unfold get_subdir, total_blocks, mbind, M_bind, get. fold (bs s). rewrite (ready_bs s0 s HR).
  unfold quot. destruct (Z.eqb_spec (bs s0) 0); [lia|]. rewrite wrapu_small by lia. rewrite <- Hn. simpl.
  replace n with (Z.of_nat (Z.to_nat n)) at 1 by lia. eapply dir_lookup_ok; try done. lia.
Qed.

(** An entry of length 0 is read again and again: the search never ends. *)
Theorem zero_length_entry_never_ends s0 s dir name b p off fuel :
  ready s0 s -> data_block s0 dir b p -> 0 <= off -> off + sizeof_DirEntry <= bs s0 ->
  let e := dir_entry_of_bytes (part (disk_block s0 p) off sizeof_DirEntry) in
  rec_len e = 0 -> entry_inode e = 0 -> block_lookup fuel dir name b off s = NoFuel.
Proof.
  intros HR HD Ho Hl e Hrec Hin. revert s HR. induction fuel as [|fuel IH]; intros s HR;
    cbn [block_lookup]; unfold mbind, M_bind, get; fold (bs s); rewrite (ready_bs s0 s HR);
    (destruct (Z.ltb_spec off (bs s0)); [|unfold sizeof_DirEntry in *; lia]); [done|].
  pose proof (read_entry_ok s0 s dir b p off HR HD Ho Hl) as HE.
  apply succeeds_Ret in HE as (r & s1 & -> & HR1 & q & -> & Hq). fold e. rewrite Hin, Hrec, Z.add_0_r. simpl.
  by apply IH.
Qed.
End spec.
