(* ===== verification/Ext4WriteSpec.v ===== *)
(** Writing: an inode written to the disk is the one read from it afterwards, the
    allocation of a block takes the first free bit of the bitmap on the disk; and
    what the first write costs: the handle of [disk_asset] stays with the server, so
    that no later write reaches the disk and no block is read any more. *)

From S2P Require Import Prelude Monads Range Bytes Disk Ext4Layout Ext4 Ext4Files Ext4Spec Ext4FilesSpec.

(** A change inside a part of a buffer. *)
Lemma patch_part (l : list Z) o n off bytes :
  0 <= o -> o + n <= zlen l -> 0 <= off -> off + zlen bytes <= n ->
  patch l o (patch (part l o n) off bytes) = patch l (o + off) bytes.
Proof.
  intros Ho Hl Hoff Hb. assert (length (part l o n) = Z.to_nat n) as El by (apply length_part; lia).
  assert (length (patch (part l o n) off bytes) = Z.to_nat n) as Ep by (rewrite length_patch; lia).
  apply list_eq. intros j. rewrite !patch_lookup by lia. rewrite Ep. rewrite part_lookup by lia.
  repeat case_decide; try lia; try done; f_equal; lia.
Qed.

Section spec.
Context {D : Type} `{DiskContract D}.
Local Abbreviation Fs := (Ext4Filesystem D).
Implicit Types s : Fs.

(** * Writing a block *)

(** [write_block_tmp] from a node. *)
Definition after_write (s : Fs) (n : Z) (bytes : list Z) : Fs :=
  let m := patch (memory (disk_asset s)) 0 bytes in
  set_asset (set_disk s (serve_write (disk s) (block_lba s n) (bs s) m)) (mk_MemoryAsset false m).

Lemma write_block_node s n i x :
  cache_nodes s !! i = Some x -> zlen (data x) = bs s -> bs s <= zlen (memory (disk_asset s)) ->
  held (disk_asset s) = true -> 0 <= bs s ->
  write_block_tmp n (Node i) s = Ret (Value tt, after_write s n (data x)).
Proof.
  intros Hx Hd Hm Hh Hb. unfold write_block_tmp, mbind, M_bind, get. fold (bs s).
  destruct (decide (Node i = Mapped)); [done|]. unfold load, buffer_bytes. rewrite Hx. simpl.
  rewrite slice_in by lia. simpl. unfold store. simpl.
  assert (part (data x) 0 (bs s) = data x) as -> by (by rewrite <- Hd, part_all).
  rewrite splice_in by lia. simpl. unfold disk_write. simpl. rewrite Hh. done.
Qed.

(** What the disk and the file system are after the write of a changed node. *)
Lemma after_write_contents s n bytes :
  mounted s -> in_disk s n -> zlen bytes = bs s ->
  contents (disk (after_write s n bytes)) = patch (contents (disk s)) (block_start s n) bytes.
Proof.
  intros Hm Hd Hl. pose proof (mounted_bs s Hm) as [Hbs Hmod]. destruct (block_lba_start s n Hm Hd) as [Hlba Hl0].
  destruct Hd as [Hn Hd]. pose proof (mounted_asset s Hm). unfold after_write. simpl.
  assert (length (patch (memory (disk_asset s)) 0 bytes) = length (memory (disk_asset s))) as E by (apply length_patch; lia).
  rewrite serve_write_writes; [|lia|lia|done|lia|lia|apply Hm]. rewrite Hlba. f_equal.
  rewrite <- Hl. apply part_patch_same; lia.
Qed.

Lemma after_write_mounted s i x n bytes :
  mounted s -> cache_nodes s !! i = Some x -> block_num x = n -> zlen bytes = bs s ->
  mounted (after_write (set_cache s (<[i := set_data x bytes]> (cache_nodes s))) n bytes).
Proof.
  intros Hm Hx Hn Hl. pose proof (mounted_bs s Hm) as [Hbs Hmod]. pose proof (mounted_start s Hm) as Hst.
  pose proof (proj1 (Forall_lookup _ _) (mounted_nodes s Hm) i x Hx) as [Hd _]. rewrite Hn in Hd.
  pose proof (after_write_contents s n bytes Hm Hd Hl) as Hc. pose proof Hd as [Hn0 Hdn].
  assert (length (contents (disk (after_write s n bytes))) = length (contents (disk s))) as Elen.
  { rewrite Hc. apply length_patch; unfold block_start in *; nia. }
  set (s' := after_write (set_cache s _) n bytes).
  assert (contents (disk s') = contents (disk (after_write s n bytes))) as Ec by done.
  assert (forall k, in_disk s k -> in_disk s' k) as Hin.
  { intros k [Hk1 Hk2]. split; [done|]. rewrite Ec, Elen. done. }
  destruct Hm as [Hlog _ Hsz Has Hac Hcl Hno Hdi]. split; try done.
  - rewrite Ec, Elen. done.
  - change (bs s <= zlen (patch (memory (disk_asset s)) 0 bytes)). rewrite length_patch; lia.
  - simpl. rewrite length_insert. done.
  - apply Forall_lookup. intros j y Hy. cbn [s' after_write set_asset set_disk set_cache cache_nodes] in Hy.
    apply list_lookup_insert_Some in Hy as [(<-&<-&_)|[Hij Hy]].
    + split; [apply Hin; simpl; by rewrite Hn|]. simpl. rewrite Hn. unfold disk_block. rewrite Ec, Hc.
      change (bs s') with (bs s). change (block_start s' n) with (block_start s n). rewrite <- Hl.
      symmetry. apply part_patch_same; unfold block_start in *; nia.
    + pose proof (proj1 (Forall_lookup _ _) Hno j y Hy) as [Hdy Hey]. split; [by apply Hin|].
      rewrite Hey. unfold disk_block. rewrite Ec, Hc. change (bs s') with (bs s).
      change (block_start s' (block_num y)) with (block_start s (block_num y)).
      assert (block_num y <> n) as Hne.
      { intros Eq. apply Hij. apply (NoDup_lookup (block_num <$> cache_nodes s) i j n Hdi);
          rewrite list_lookup_fmap; [rewrite Hx|rewrite Hy]; simpl; by f_equal. }
      destruct Hdy as [Hy0 Hy1]. symmetry. apply part_patch_other; unfold block_start in *; nia.
  - simpl. rewrite list_fmap_insert. simpl. rewrite list_insert_id; [done|].
    rewrite list_lookup_fmap, Hx. done.
Qed.

(** The state after a part of a block, in node [i], is changed and written. *)
Lemma store_write_ok s i x off bytes :
  mounted s -> held (disk_asset s) = true -> cache_nodes s !! i = Some x -> 0 <= off -> off + zlen bytes <= bs s ->
  succeeds (store (Node i) off bytes;; write_block_tmp (block_num x) (Node i)) s (fun _ s' =>
    mounted s' /\ held (disk_asset s') = false /\ superblock s' = superblock s /\ start_lba s' = start_lba s /\
    block_desc_size s' = block_desc_size s /\ bgd_table_start_block s' = bgd_table_start_block s /\
    map block_num (cache_nodes s') = map block_num (cache_nodes s) /\
    contents (disk s') = patch (contents (disk s)) (block_start s (block_num x) + off) bytes).
Proof.
  intros Hm Hh Hx Ho Hl. pose proof (mounted_bs s Hm) as [Hbs _]. pose proof (mounted_start s Hm) as Hst.
  pose proof (proj1 (Forall_lookup _ _) (mounted_nodes s Hm) i x Hx) as [Hd He].
  pose proof (length_disk_block s (block_num x) Hm Hd) as El. rewrite <- He in El.
  assert (length (patch (data x) off bytes) = length (data x)) as Ep by (apply length_patch; lia).
  m_step. unfold succeeds at 1, store. simpl. rewrite Hx. simpl. rewrite splice_in by lia. simpl.
  assert (alter (fun n => set_data n (patch (data x) off bytes)) i (cache_nodes s) =
    <[i := set_data x (patch (data x) off bytes)]> (cache_nodes s)) as ->.
  { apply list_eq. intros j. rewrite list_lookup_alter, list_lookup_insert. pose proof (lookup_lt_Some _ _ _ Hx).
    repeat case_decide; try done; subst; try (by rewrite Hx); naive_solver lia. }
  set (s1 := set_cache s _).
  unfold succeeds. rewrite (write_block_node s1 (block_num x) i (set_data x (patch (data x) off bytes))).
  - pose proof (after_write_mounted s i x (block_num x) (patch (data x) off bytes) Hm Hx eq_refl ltac:(lia)) as Hm'.
    pose proof (after_write_contents s (block_num x) (patch (data x) off bytes) Hm Hd ltac:(lia)) as Hc.
    split; [exact Hm'|]. do 5 (split; [done|]). split.
    + simpl. fold (fmap block_num (M:=list)). change (map block_num) with (fmap (M:=list) block_num).
      rewrite list_fmap_insert. apply list_insert_id. rewrite list_lookup_fmap, Hx. done.
    + etrans; [exact Hc|]. rewrite He. apply patch_part; [|apply Hd|done|lia]. unfold block_start. destruct Hd. nia.
  - simpl. apply list_lookup_insert_eq. by apply lookup_lt_Some in Hx.
  - simpl. change (bs s1) with (bs s). lia.
  - apply Hm.
  - done.
  - change (bs s1) with (bs s). lia.
Qed.

(** * What a write changes *)

(** The disk differs from that of [s0] in [bytes] at [o]; [disk_asset] is lost. *)
Definition written (s0 s' : Fs) (o : Z) (bytes : list Z) : Prop :=
  mounted s' /\ held (disk_asset s') = false /\ superblock s' = superblock s0 /\ start_lba s' = start_lba s0 /\
  block_desc_size s' = block_desc_size s0 /\ bgd_table_start_block s' = bgd_table_start_block s0 /\
  contents (disk s') = patch (contents (disk s0)) o bytes.

(** The node of a block that can be read is changed and written. *)
Lemma change_block_ok s0 s n off bytes :
  ready s0 s -> in_disk s0 n -> 0 <= off -> off + zlen bytes <= bs s0 ->
  succeeds (b ← read_block_tmp n true; store b off bytes;; write_block_tmp n b) s (fun _ s' =>
    written s0 s' (block_start s0 n + off) bytes).
Proof.
  intros HR Hd Ho Hl. m_step. eapply succeeds_mono; [by apply ready_read|]. cbv beta.
  intros b s1 (HR1 & _ & Hnode). destruct (Hnode eq_refl) as (i & x & -> & Hx & Hn). pose proof HR1 as (Hm1 & (E1&E2&E3&E4&E5&E6) & Hh).
  rewrite <- Hn. eapply succeeds_mono; [apply store_write_ok; [done|by rewrite E6|done|done|]|].
  { by rewrite (ready_bs s0 s1). }
  cbv beta. intros _ s2 (Hm2 & Hh2 & S1 & S2 & S3 & S4 & _ & Hc).
  unfold written. rewrite S1, S2, S3, S4, Hc, E1. do 6 (split; [done|]).
  unfold block_start. by rewrite E2, (ready_bs s0 s1).
Qed.

(** Where an inode and a descriptor lie on the disk, in bytes. *)
Definition inode_start (s : Fs) (id : Z) : Z := block_start s (inode_block_of s id) + inode_offset s id.
Definition bgd_start (s : Fs) (g : Z) : Z := block_start s (bgd_block s g) + bgd_offset s g.

Lemma write_inode_ok s0 s id i :
  ready s0 s -> inode_ok s0 id -> inode_fits i ->
  succeeds (write_inode id i) s (fun _ s' => written s0 s' (inode_start s0 id) (inode_bytes i)).
Proof.
  intros HR Hi Hf. pose proof Hi as (Hid & Hpg & _ & _ & _ & Hoff & Hd). pose proof (ready_bs_range s0 s HR).
  assert (zlen (inode_bytes i) = sizeof_Inode) as El.
  { apply length_inode_bytes; apply Hf. }
  unfold write_inode. m_step. eapply succeeds_mono; [by apply inode_place_ok|]. cbv beta. intros p s1 [HR1 ->].
  apply change_block_ok; [done|done| |by rewrite El].
  unfold inode_offset. apply Z.mod_pos_bound. lia.
Qed.

(** ** Parts of the disk a write leaves alone *)

Definition apart (a n b m : Z) : Prop := a + n <= b \/ b + m <= a.

Lemma written_block_start s0 s' o bytes n : written s0 s' o bytes -> block_start s' n = block_start s0 n /\ bs s' = bs s0.
Proof. intros (_&_&E1&E2&_). unfold block_start, bs. by rewrite E1, E2. Qed.

Lemma disk_bgd_part s g :
  0 <= start_lba s -> 0 < bs s -> group_ok s g ->
  disk_bgd s g = bgd_of_bytes (part (contents (disk s)) (bgd_start s g) sizeof_Bgd).
Proof.
  intros Hst Hb (_&_&_&_&Ho&[Hn _]). unfold disk_bgd, disk_block, bgd_start.
  rewrite part_part; [done|unfold block_start; nia| |done|done].
  unfold bgd_offset. apply Z.mod_pos_bound. lia.
Qed.

Lemma disk_inode_part s id :
  0 <= start_lba s -> 0 < bs s -> inode_ok s id ->
  disk_inode s id = inode_of_bytes (part (contents (disk s)) (inode_start s id) sizeof_Inode).
Proof.
  intros Hst Hb (_&_&_&_&_&Ho&[Hn _]). unfold disk_inode, disk_block, inode_start.
  rewrite part_part; [done|unfold block_start; nia| |done|done].
  unfold inode_offset. apply Z.mod_pos_bound. lia.
Qed.

Lemma written_places s0 s' o bytes g :
  written s0 s' o bytes -> 0 <= o -> o + zlen bytes <= zlen (contents (disk s0)) -> group_ok s0 g ->
  group_ok s' g /\ bgd_start s' g = bgd_start s0 g.
Proof.
  intros HW Ho Hl Hg. pose proof HW as (_ & _ & E1 & E2 & E3 & E4 & Hc).
  assert (forall n, block_start s' n = block_start s0 n) as Eb by (intros; by eapply written_block_start).
  assert (bs s' = bs s0) as Ebs by (unfold bs; by rewrite E1).
  assert (bgd_block s' g = bgd_block s0 g) as Eg by (unfold bgd_block; by rewrite E3, E4, Ebs).
  assert (bgd_offset s' g = bgd_offset s0 g) as Eo by (unfold bgd_offset; by rewrite E3, Ebs).
  split; [|unfold bgd_start; by rewrite Eg, Eo, Eb].
  destruct Hg as (?&?&?&?&?&[Hn Hd]). unfold group_ok, in_disk. rewrite Eg, Eo, E3, E4, Ebs, Eb, Hc.
  rewrite length_patch by lia. done.
Qed.

Lemma written_group s0 s' o bytes g :
  written s0 s' o bytes -> 0 <= o -> o + zlen bytes <= zlen (contents (disk s0)) ->
  group_ok s0 g -> apart o (zlen bytes) (bgd_start s0 g) sizeof_Bgd ->
  group_ok s' g /\ disk_bgd s' g = disk_bgd s0 g.
Proof.
  intros HW Ho Hl Hg Ha. destruct (written_places s0 s' o bytes g HW Ho Hl Hg) as [Hg' Es].
  pose proof HW as (Hm & _ & E1 & E2 & _ & _ & Hc). pose proof (mounted_bs s' Hm) as [Hbs _].
  pose proof (mounted_start s' Hm) as Hst. assert (bs s' = bs s0) as Ebs by (unfold bs; by rewrite E1).
  rewrite E2 in Hst. rewrite Ebs in Hbs.
  split; [done|]. rewrite !disk_bgd_part by (rewrite ?E2, ?Ebs; (done || lia)). rewrite Es, Hc.
  rewrite part_patch_other; [done|lia|lia| |unfold apart in Ha; lia].
  destruct Hg as (_&_&_&_&_&[Hn _]). unfold bgd_start. pose proof (Z.mod_pos_bound (g * block_desc_size s0) (bs s0)).
  unfold bgd_offset, block_start. nia.
Qed.

Lemma written_inode s0 s' o bytes id :
  written s0 s' o bytes -> 0 <= o -> o + zlen bytes <= zlen (contents (disk s0)) -> Forall byte bytes ->
  inode_ok s0 id -> apart o (zlen bytes) (bgd_start s0 ((id - 1) / inodes_per_group (superblock s0))) sizeof_Bgd ->
  inode_ok s' id /\ inode_start s' id = inode_start s0 id.
Proof.
  intros HW Ho Hl Hby Hi Ha. pose proof HW as (Hm & _ & E1 & E2 & _ & _ & Hc).
  pose proof Hi as (H1 & H2 & H3 & Hb & Hg & Hoff & Hd).
  destruct (written_group s0 s' o bytes _ HW Ho Hl Hg Ha) as (Hg' & Ed).
  assert (forall n, block_start s' n = block_start s0 n) as Eb by (intros; by eapply written_block_start).
  assert (bs s' = bs s0) as Ebs by (unfold bs; by rewrite E1).
  assert (inode_block_of s' id = inode_block_of s0 id) as Ei by (unfold inode_block_of; by rewrite E1, Ed, Ebs).
  assert (inode_offset s' id = inode_offset s0 id) as Eo by (unfold inode_offset; by rewrite E1, Ebs).
  split; [|unfold inode_start; by rewrite Ei, Eo, Eb].
  unfold inode_ok. rewrite Ei, Eo, E1, Ebs. split; [done|]. split; [done|]. split; [done|]. split.
  { rewrite Hc. by apply patch_byte. }
  split; [done|]. split; [done|]. unfold in_disk. rewrite Eb, Ebs, Hc, length_patch by lia. done.
Qed.

(** The file system mounted again, with a new object for its blocks. *)
Definition remount (s : Fs) (m : list Z) : Fs := set_cache (set_asset s (mk_MemoryAsset true m)) [].

Lemma remount_ready s m : mounted s -> bs s <= zlen m -> ready (remount s m) (remount s m).
Proof. intros [Hl Hst Hsz Has Hac Hcl Hn Hdi] Hm. split; [|done]. split; try done; by constructor. Qed.

Lemma remount_inode s m id : inode_ok s id -> inode_ok (remount s m) id.
Proof. done. Qed.

(** What an inode is after a write. *)
Lemma written_disk_inode s0 s s' o bytes id :
  ready s0 s -> written s0 s' o bytes -> inode_ok s0 id -> inode_ok s' id -> inode_start s' id = inode_start s0 id ->
  disk_inode s' id = inode_of_bytes (part (patch (contents (disk s0)) o bytes) (inode_start s0 id) sizeof_Inode).
Proof.
  intros HR HW Hi Hi' Es. pose proof HW as (Hm & _ & _ & _ & _ & _ & Hc).
  rewrite disk_inode_part; [by rewrite Es, Hc|by apply mounted_start| |done].
  pose proof (mounted_bs s' Hm). lia.
Qed.

Lemma inode_start_in s0 s id :
  ready s0 s -> inode_ok s0 id -> 0 <= inode_start s0 id /\ inode_start s0 id + sizeof_Inode <= zlen (contents (disk s0)).
Proof.
  intros HR (_&_&_&_&_&Ho&[Hn Hd]). pose proof (ready_bs_range s0 s HR). destruct HR as (Hm&(_&E2&_)&_).
  pose proof (mounted_start s Hm). unfold inode_start, block_start in *.
  pose proof (Z.mod_pos_bound ((id - 1) mod inodes_per_group (superblock s0) * inode_size (superblock s0)) (bs s0)).
  unfold inode_offset in *. nia.
Qed.

(** C17: [write_inode], as the first write since the disk was mounted, followed by
    [read_inode] after the next mount gives back the inode written, every field of it,
    if its place on the disk is apart from the descriptor of its own group; every
    inode whose 128 bytes and whose group descriptor lie apart from the place written
    is what it was before. The first write gives the handle of the disk object away:
    what a later one does not do is [write_without_handle]. *)
Theorem inode_write_read s0 s id i :
  ready s0 s -> inode_ok s0 id -> inode_fits i ->
  let group id := (id - 1) / inodes_per_group (superblock s0) in
  apart (inode_start s0 id) sizeof_Inode (bgd_start s0 (group id)) sizeof_Bgd ->
  succeeds (write_inode id i) s (fun _ s' => forall m, bs s0 <= zlen m ->
    succeeds (read_inode id) (remount s' m) (fun r _ => r = mk_InodeRef id i) /\
    (forall id', inode_ok s0 id' -> apart (inode_start s0 id) sizeof_Inode (inode_start s0 id') sizeof_Inode ->
      apart (inode_start s0 id) sizeof_Inode (bgd_start s0 (group id')) sizeof_Bgd ->
      succeeds (read_inode id') (remount s' m) (fun r _ => r = mk_InodeRef id' (disk_inode s0 id')))).
Proof.
  intros HR Hi Hf group Ha. destruct (inode_start_in s0 s id HR Hi) as [Hs0 Hs1].
  assert (zlen (inode_bytes i) = sizeof_Inode) as El by (apply length_inode_bytes; apply Hf).
  assert (Forall byte (inode_bytes i)) as Hby by (apply inode_bytes_byte; apply Hf).
  eapply succeeds_mono; [by apply write_inode_ok|]. cbv beta. intros _ s' HW m Hm.
  pose proof HW as (Hm' & _ & E1 & _). assert (bs s' = bs s0) as Ebs by (unfold bs; by rewrite E1).
  pose proof (remount_ready s' m Hm' ltac:(lia)) as HR'.
  assert (forall id', inode_ok s0 id' -> apart (inode_start s0 id) sizeof_Inode (bgd_start s0 (group id')) sizeof_Bgd ->
    succeeds (read_inode id') (remount s' m) (fun r _ => r = mk_InodeRef id' (inode_of_bytes
      (part (patch (contents (disk s0)) (inode_start s0 id) (inode_bytes i)) (inode_start s0 id') sizeof_Inode)))) as HG.
  { intros id' Hi' Ha'. rewrite <- El in Ha'.
    destruct (written_inode s0 s' _ _ id' HW Hs0 ltac:(lia) Hby Hi' Ha') as [Hi'' Es].
    eapply succeeds_mono; [apply read_inode_ok; [exact HR'|by apply remount_inode]|]. cbv beta. intros r _ [_ ->].
    change (disk_inode (remount s' m) id') with (disk_inode s' id').
    by rewrite (written_disk_inode s0 s s' _ _ id' HR HW). }
  split.
  - eapply succeeds_mono; [by apply HG|]. cbv beta. intros r _ ->. f_equal. rewrite <- El.
    rewrite part_patch_same by lia. by apply inode_of_inode_bytes.
  - intros id' Hi' Hap Hap'. eapply succeeds_mono; [by apply HG|]. cbv beta. intros r _ ->. f_equal.
    destruct (inode_start_in s0 s id' HR Hi') as [Ht0 Ht1]. pose proof (ready_bs_range s0 s HR).
    rewrite part_patch_other by (unfold apart in Hap; lia). rewrite disk_inode_part; [done| |lia|done].
    destruct HR as (HM&(_&<-&_)&_). apply HM.
Qed.

(** ** The handle lost by a write

    Once [disk_asset] is with the server a write changes nothing, and reports no
    error; a block that is not cached cannot be read. *)

Theorem write_without_handle s n b :
  held (disk_asset s) = false ->
  match write_block_tmp n b s with Ret (r, s') => r = Value tt /\ disk s' = disk s | _ => True end.
Proof.
  intros Hh. unfold write_block_tmp, mbind, M_bind, get. destruct (decide (b = Mapped)).
  - simpl. unfold disk_write. rewrite Hh. done.
  - unfold load, store. destruct (buffer_bytes s b) as [l| |]; [|done|done]. simpl.
    destruct (slice l 0 _) as [l'| |]; [|done|done]. simpl. destruct (splice _ 0 l') as [l''| |]; [|done|done]. simpl.
    unfold disk_write. simpl. rewrite Hh. done.
Qed.

Theorem read_without_handle s n c :
  mounted s -> held (disk_asset s) = false -> find_node n (cache_nodes s) 0 = None ->
  exists s', read_block_tmp n c s = Ret (Error "disk read returned no data", s') /\ same_mount s s'.
Proof.
  intros Hm Hh Hn. pose proof (mounted_bs s Hm) as [Hbs Hmod]. unfold read_block_tmp, mbind, M_bind, get.
  rewrite Hn. unfold read_disk_asset, disk_read. fold (bs s). rewrite Hmod, Hh. simpl.
  destruct (Z.ltb_spec 0 (bs s)); [|lia]. simpl. eexists. split; [done|]. by repeat split.
Qed.

(** The write of a node is lost. *)
Lemma write_block_lost s n i x :
  cache_nodes s !! i = Some x -> zlen (data x) = bs s -> bs s <= zlen (memory (disk_asset s)) ->
  held (disk_asset s) = false -> 0 <= bs s ->
  succeeds (write_block_tmp n (Node i)) s (fun _ s' => disk s' = disk s /\ held (disk_asset s') = false).
Proof.
  intros Hx Hd Hm Hh Hb. unfold succeeds, write_block_tmp, mbind, M_bind, get. fold (bs s).
  destruct (decide (Node i = Mapped)); [done|]. unfold load, buffer_bytes. rewrite Hx. simpl.
  rewrite slice_in by lia. simpl. unfold store. simpl. rewrite splice_in; [|done|rewrite length_part; lia]. simpl.
  unfold disk_write. simpl. rewrite Hh. done.
Qed.

Lemma write_bgd_lost s g b :
  mounted s -> held (disk_asset s) = false -> group_ok s g -> length (high_part b) = 32%nat ->
  succeeds (ignore (write_blockgroup_descriptor g b)) s (fun _ s' => disk s' = disk s /\ held (disk_asset s') = false).
Proof.
  intros Hm Hh Hg Hb. pose proof Hg as (_ & _ & _ & _ & Hoff & Hd). pose proof (mounted_bs s Hm) as [Hbs _].
  pose proof (bgd_place_ok s s g Hm Hg) as HP. apply succeeds_Ret in HP as (p & s0 & EP & -> & ->).
  destruct (find_node (bgd_block s g) (cache_nodes s) 0) as [j|] eqn:Hf.
  - apply succeeds_ignore. unfold write_blockgroup_descriptor. m_step. m_step. m_step.
    unfold succeeds at 1. rewrite EP. m_step.
    eapply succeeds_mono; [apply read_block_tmp_ok; [done|]|]; cbv beta.
    { split; [done|]. right. by rewrite Hf. }
    intros b' s1 (Hm1 & HS & _ & Hn). destruct (Hn eq_refl) as (i & x & -> & Hx & Hbn).
    destruct (node_holds s1 i x Hm1 Hx) as [_ El]. rewrite (same_mount_bs s s1 HS) in El.
    assert (zlen (patch (data x) (bgd_offset s g) (bgd_bytes b)) = bs s) as Elp.
    { rewrite length_patch; [lia| |rewrite (length_bgd_bytes b Hb); lia].
      unfold bgd_offset. apply Z.mod_pos_bound. lia. }
    m_step. unfold succeeds at 1, store. simpl. rewrite Hx. simpl.
    rewrite splice_in; [|unfold bgd_offset; apply Z.mod_pos_bound; lia|rewrite (length_bgd_bytes b Hb); lia]. simpl.
    set (s2 := set_cache s1 _). assert (bs s2 = bs s) as E2 by (apply (same_mount_bs s s1 HS)).
    pose proof HS as (Ed & _ & _ & _ & _ & Eh). rewrite <- Ed.
    apply (write_block_lost s2 _ i (set_data x (patch (data x) (bgd_offset s g) (bgd_bytes b)))).
    + simpl. rewrite list_lookup_alter_eq, Hx. done.
    + simpl. lia.
    + rewrite E2, <- (same_mount_bs s s1 HS). apply Hm1.
    + simpl. by rewrite Eh.
    + lia.
  - destruct (read_without_handle s (bgd_block s g) true Hm Hh Hf) as (s1 & E & HS).
    unfold succeeds, ignore, write_blockgroup_descriptor, mbind, M_bind, get. rewrite EP, E.
    destruct HS as (?&_&_&_&_&?). split; congruence.
Qed.
End spec.
