(* ===== verification/Ext4AllocSpec.v ===== *)
(** Allocation: the search of a group visits each group once, from the one asked
    for on, and [allocate_block] takes the first free block of the group it finds:
    one bit of the bitmap on the disk. *)

From S2P Require Import Prelude Monads Range Bytes Disk Ext4Layout Ext4 Ext4Files Ext4Spec Ext4FilesSpec Ext4WriteSpec.

(** * The bits of a bitmap *)

Definition bit_of (bm : list Z) (x : Z) : bool := Z.testbit (default 0 (aget bm (x / 8))) (x mod 8).

Lemma scan_byte_spec v : 0 <= v < 256 ->
  match scan_bits 8 v 0 with
  | Some b => 0 <= b < 8 /\ Z.testbit v b = false /\ (forall c, 0 <= c < b -> Z.testbit v c = true)
  | None => forall c, 0 <= c < 8 -> Z.testbit v c = true
  end.
Proof.
  set (ones v n := forallb (Z.testbit v) (seqZ 0 n)).
  assert (forall v n, ones v n = true -> forall c, 0 <= c < n -> Z.testbit v c = true) as Hones.
  { intros w n Hw c Hc. unfold ones in Hw. rewrite forallb_forall in Hw. apply Hw, list_elem_of_In, elem_of_seqZ. lia. }
  intros Hv.
  pose proof (byte_forall (fun v => match scan_bits 8 v 0 with
    | Some b => (0 <=? b) && (b <? 8) && negb (Z.testbit v b) && ones v b
    | None => ones v 8
    end) ltac:(vm_compute; reflexivity) v Hv) as Hs. cbv beta in Hs.
  destruct (scan_bits 8 v 0) as [b|]; [|exact (Hones v 8 Hs)].
  apply andb_prop in Hs as [[[H1 H2]%andb_prop H3]%andb_prop H4].
  apply Z.leb_le in H1. apply Z.ltb_lt in H2. apply negb_true_iff in H3. split; [done|]. split; [done|]. by apply Hones.
Qed.

(** * The search of a group *)

Section groups.
Context (next : Z -> Z) (start : Z).

(** [rest] is what [next] goes through after [g] before it comes back to [start]. *)
Fixpoint path (g : Z) (rest : list Z) : Prop :=
  match rest with
  | [] => next g = start
  | g' :: rest => next g = g' /\ g' <> start /\ path g' rest
  end.

Lemma path_up l (k : nat) : forall g,
  (forall j, g <= j < g + Z.of_nat k -> next j = j + 1 /\ j + 1 <> start) -> path (g + Z.of_nat k) l ->
  path g (seqZ (g + 1) (Z.of_nat k) ++ l).
Proof.
  induction k as [|k IH]; intros g Hj Hp.
  - replace (g + Z.of_nat 0) with g in Hp by lia. done.
  - rewrite (seqZ_cons (g + 1)) by lia. destruct (Hj g ltac:(lia)) as [H1 H2]. cbn [app path].
    split; [done|]. split; [done|]. replace (Z.succ (g + 1)) with (g + 1 + 1) by lia.
    replace (Z.pred (Z.of_nat (S k))) with (Z.of_nat k) by lia. apply IH; [intros; apply Hj; lia|].
    by replace (g + 1 + Z.of_nat k) with (g + Z.of_nat (S k)) by lia.
Qed.
End groups.

Section spec.
Context {D : Type} `{DiskContract D}.
Local Abbreviation Fs := (Ext4Filesystem D).
Implicit Types s : Fs.

(** The group after [g], and the groups from [start] on in the order of the search. *)
Definition next_group (s : Fs) (g : Z) : Z :=
  if blocks_count_lo (superblock s) <=? (g + 1) * blocks_per_group (superblock s) then 0 else g + 1.

Definition rotation (start groups : Z) : list Z := start :: seqZ (start + 1) (groups - start - 1) ++ seqZ 0 start.

Definition has_free (s : Fs) (g : Z) : bool := 0 <? free_blocks_count (disk_bgd s g).

(** The file system has [groups] groups, with descriptors on the disk. *)
Record has_groups (s : Fs) (groups : Z) : Prop := {
  groups_per : 0 < blocks_per_group (superblock s) < 2 ^ 32;
  groups_last : (groups - 1) * blocks_per_group (superblock s) < blocks_count_lo (superblock s);
  groups_end : blocks_count_lo (superblock s) <= groups * blocks_per_group (superblock s);
  groups_count : 0 < groups < 2 ^ 31;
  groups_ok g : 0 <= g < groups -> group_ok s g
}.

Lemma next_group_up s groups g : has_groups s groups -> 0 <= g < groups - 1 -> next_group s g = g + 1.
Proof.
  intros [Hb Hl _ _ _] Hg. unfold next_group. destruct (Z.leb_spec (blocks_count_lo (superblock s)) ((g + 1) * blocks_per_group (superblock s))); [|done].
  nia.
Qed.

Lemma next_group_last s groups : has_groups s groups -> next_group s (groups - 1) = 0.
Proof.
  intros [_ _ He _ _]. unfold next_group. replace (groups - 1 + 1) with groups by lia.
  by rewrite (proj2 (Z.leb_le _ _) He).
Qed.

Lemma rotation_path s groups start :
  has_groups s groups -> 0 <= start < groups ->
  path (next_group s) start start (seqZ (start + 1) (groups - start - 1) ++ seqZ 0 start).
Proof.
  intros HG Hs. replace (groups - start - 1) with (Z.of_nat (Z.to_nat (groups - start - 1))) by lia.
  apply path_up.
  { intros j Hj. rewrite (next_group_up s groups) by (done || lia). split; [done|lia]. }
  replace (start + Z.of_nat (Z.to_nat (groups - start - 1))) with (groups - 1) by lia.
  destruct (decide (start = 0)) as [->|Hne]; [simpl; by apply next_group_last|].
  rewrite (seqZ_cons 0) by lia. cbn [path]. split; [by apply next_group_last|]. split; [lia|].
  rewrite <- (app_nil_r (seqZ _ _)). change (Z.succ 0) with (0 + 1).
  replace (Z.pred start) with (Z.of_nat (Z.to_nat (start - 1))) by lia. apply path_up.
  { intros j Hj. rewrite (next_group_up s groups) by (done || lia). split; [done|lia]. }
  simpl. rewrite (next_group_up s groups) by (done || lia). lia.
Qed.

(** What the search yields: the first group with free blocks. *)
Definition group_result (s0 : Fs) (o : option Z) (r : ctl (result Z * Fs)) : Prop :=
  exists s', ready s0 s' /\
    r = Ret (match o with Some g => Value g | None => Error "no block group with free blocks found" end, s').

Lemma find_group_path s0 groups start rest : forall s g fuel,
  ready s0 s -> has_groups s0 groups -> Forall (fun g => 0 <= g < groups) (g :: rest) ->
  path (next_group s0) start g rest -> (length rest < fuel)%nat ->
  group_result s0 (find (has_free s0) (g :: rest)) (find_available_group_for_alloc fuel start g s).
Proof.
  induction rest as [|g' rest IH]; intros s g fuel HR HG Hgs Hp Hf;
    (destruct fuel as [|fuel]; [simpl in Hf; lia|]); cbn [find_available_group_for_alloc];
    apply Forall_cons in Hgs as [Hg Hgs]; unfold mbind at 1, M_bind at 1, get at 1;
    pose proof (read_bgd_ok s0 s g HR (groups_ok _ _ HG g Hg)) as HB;
    apply succeeds_Ret in HB as (b & s1 & E & HR1 & ->); unfold mbind, M_bind; rewrite E;
    cbn [find]; fold (has_free s0 g); destruct (has_free s0 g); try (by exists s1);
    rewrite (ready_superblock s0 s) by done; destruct HG as [Hb Hl He Hc Hok] eqn:EG;
    rewrite (wrapu_small 64 (g + 1)), (wrapu_small 64 ((g + 1) * _)) by nia; fold (next_group s0 g).
  - simpl in Hp. rewrite Hp, Z.eqb_refl. by exists s1.
  - destruct Hp as (-> & Hne & Hp). destruct (Z.eqb_spec g' start); [done|].
    apply IH; try done. simpl in Hf. lia.
Qed.

Theorem find_group_visits_every_group s0 s groups start fuel :
  ready s0 s -> has_groups s0 groups -> 0 <= start < groups -> groups <= Z.of_nat fuel ->
  group_result s0 (find (has_free s0) (rotation start groups)) (find_available_group_for_alloc fuel start start s).
Proof.
  intros HR HG Hs Hf. unfold rotation. eapply find_group_path; [done|done| |by apply rotation_path|].
  - constructor; [done|]. apply Forall_app. split; apply Forall_forall; intros x Hx; apply elem_of_seqZ in Hx; lia.
  - rewrite length_app, !length_seqZ. lia.
Qed.

(** * The search of a bit *)

Lemma scan_bytes_ok s b bm x (n : nat) : forall i,
  points_to s b bm -> Forall byte bm -> 0 <= i -> i * 8 <= x < (i + Z.of_nat n) * 8 -> i + Z.of_nat n <= zlen bm ->
  bit_of bm x = false -> (forall y, i * 8 <= y < x -> bit_of bm y = true) ->
  succeeds (scan_bytes n b i) s (fun r s' => s' = s /\ r = Some (x / 8, x mod 8)).
Proof.
  induction n as [|n IH]; intros i Hp Hby Hi Hx Hn Hclear Hset; [lia|]. cbn [scan_bytes]. m_step.
  eapply succeeds_mono; [apply load_points; [done|done|done|lia]|]. cbv beta. intros l s' [-> ->].
  destruct (lookup_lt_is_Some_2 bm (Z.to_nat i)) as [v Hv]; [lia|]. rewrite (part_one bm i v) by done.
  assert (byte v) as Hvb by (by eapply Forall_lookup_1).
  assert (forall y, y / 8 = i -> bit_of bm y = Z.testbit v (y mod 8)) as Hbit.
  { intros y Hy. unfold bit_of. rewrite Hy, aget_lookup, Hv by lia. done. }
  cbn [int_of_bytes]. rewrite Z.mul_0_r, Z.add_0_r. pose proof (scan_byte_spec v Hvb) as Hs.
  pose proof (Z.div_mod x 8 ltac:(lia)) as Ex. pose proof (Z.mod_pos_bound x 8 ltac:(lia)) as Rx.
  assert (forall c, 0 <= c < 8 -> (i * 8 + c) / 8 = i /\ (i * 8 + c) mod 8 = c) as Hdm.
  { intros c Hc. split; [symmetry; apply (Z.div_unique _ 8 i c)|symmetry; apply (Z.mod_unique _ 8 i c)]; lia. }
  destruct (scan_bits 8 v 0) as [c|].
  - destruct Hs as (Hc & Hc0 & Hc1). destruct (Hdm c Hc) as [D1 D2]. m_step. split; [done|].
    destruct (Z.lt_trichotomy (i * 8 + c) x) as [Hlt|[Heq|Hgt]].
    + specialize (Hset (i * 8 + c) ltac:(lia)). rewrite Hbit, D2 in Hset by done. congruence.
    + by rewrite <- Heq, D1, D2.
    + assert (x / 8 = i) as Eq by lia. rewrite Hbit in Hclear by done. rewrite Hc1 in Hclear by lia. done.
  - apply IH; try done; try lia; [|intros y Hy; apply Hset; lia].
    assert (x / 8 <> i) as Hne.
    { intros Eq. rewrite Hbit in Hclear by done. rewrite Hs in Hclear by lia. done. }
    lia.
Qed.

(** * Allocation *)

Lemma succeeds_assoc {S A B C} (m : M S A) (f : A -> M S B) (g : B -> M S C) (s : S) Q :
  succeeds ((m ≫= f) ≫= g) s Q -> succeeds (m ≫= (fun a => f a ≫= g)) s Q.
Proof. unfold succeeds, mbind, M_bind. by destruct (m s) as [[[] ?]| |]. Qed.

Lemma high_part_of_bytes l : length l = 68%nat -> length (high_part (bgd_of_bytes l)) = 32%nat.
Proof. intros Hl. unfold bgd_of_bytes, get_int, get_bytes. simpl high_part. rewrite length_take, !length_drop. lia. Qed.

Lemma disk_bgd_high s0 s g : ready s0 s -> group_ok s0 g -> length (high_part (disk_bgd s0 g)) = 32%nat.
Proof.
  intros HR (Hg&_&_&_&Ho&Hd). pose proof (ready_bs_range s0 s HR). pose proof (ready_length s0 s _ HR Hd) as El.
  apply high_part_of_bytes. assert (0 <= bgd_offset s0 g) by (unfold bgd_offset; apply Z.mod_pos_bound; lia).
  unfold sizeof_Bgd in *. rewrite length_part; [done|done|done|]. lia.
Qed.

(** The number of the block of bit [x] of a group. *)
Definition block_of_bit (s : Fs) (g x : Z) : Z := g * blocks_per_group (superblock s) + x + first_data_block (superblock s).

(** The disk after the bit is set; the handle of [disk_asset] is lost. *)
Definition bit_taken (s0 s' : Fs) (bitmap x : Z) : Prop :=
  held (disk_asset s') = false /\
  contents (disk s') = patch (contents (disk s0)) (block_start s0 bitmap + x / 8)
    [Z.setbit (default 0 (aget (disk_block s0 bitmap) (x / 8))) (x mod 8)].

Lemma take_bit_ok s0 s g bitmap b i n x :
  ready s0 s -> group_ok s0 g -> in_disk s0 bitmap -> length (high_part b) = 32%nat ->
  points_to s (Node i) (disk_block s0 bitmap) -> cache_nodes s !! i = Some n -> block_num n = bitmap ->
  0 <= x < 8 * bs s0 -> 0 <= block_of_bit s0 g x < 2 ^ 64 ->
  succeeds (take_bit g bitmap bitmap b (Node i) (x / 8) (x mod 8)) s (fun r s' =>
    r = block_of_bit s0 g x /\ bit_taken s0 s' bitmap x).
Proof.
  intros HR Hg Hd Hh Hp Hi Hn Hx Hr. pose proof (ready_length s0 s bitmap HR Hd) as El.
  pose proof (ready_bs_range s0 s HR). pose proof (Z.div_mod x 8 ltac:(lia)) as Ex.
  pose proof (Z.mod_pos_bound x 8 ltac:(lia)) as Rx. unfold take_bit. m_step. m_step. m_step.
  eapply succeeds_mono; [apply load_points; [done|lia|done|lia]|]. cbv beta. intros l s' [-> ->].
  destruct (lookup_lt_is_Some_2 (disk_block s0 bitmap) (Z.to_nat (x / 8))) as [v Hv]; [lia|].
  rewrite (part_one _ _ v) by (done || lia). cbn [int_of_bytes]. rewrite Z.mul_0_r, Z.add_0_r.
  rewrite Z.shiftl_1_l, <- Z.setbit_spec'. subst bitmap.
  apply succeeds_assoc. m_step. pose proof HR as (Hm & (E1&E2&E3&E4&E5&E6) & Hh0).
  destruct (ready_disk_size s0 s HR) as [Hst Hsz]. pose proof Hd as [Hd0 Hd1].
  eapply succeeds_mono; [apply store_write_ok; [done|by rewrite E6|done|lia|]|].
  { rewrite (ready_bs s0 s HR). simpl. lia. }
  cbv beta. intros _ s1 (Hm1 & Hh1 & S1 & S2 & S3 & S4 & _ & Hc).
  assert (block_start s (block_num n) = block_start s0 (block_num n)) as Eb.
  { unfold block_start. by rewrite E2, (ready_bs s0 s HR). }
  assert (written s0 s1 (block_start s0 (block_num n) + x / 8) [Z.setbit v (x mod 8)]) as HW.
  { unfold written. rewrite S1, S2, S3, S4, Hc, E1, E2, E3, E4, E5, Eb. done. }
  assert (group_ok s1 g) as Hg1.
  { apply (written_places s0 s1 _ _ g HW); [|simpl; lia|done]. unfold block_start. nia. }
  rewrite E3. m_step. eapply succeeds_mono; [by apply write_bgd_lost|]. cbv beta. intros _ s2 [Ed Hh2]. m_step.
  rewrite (wrapu_small 64 ((_ - _) * _ * _ + _ + _)) by lia.
  rewrite Z.sub_diag. unfold block_of_bit in *. split; [rewrite wrapu_small; lia|]. split; [done|].
  rewrite Ed. destruct HW as (_&_&_&_&_&_&->). rewrite aget_lookup, Hv by lia. done.
Qed.

(** [x] is the first clear bit of the bitmap. *)
Definition first_free (bm : list Z) (x : Z) : Prop :=
  0 <= x < 8 * zlen bm /\ bit_of bm x = false /\ (forall y, 0 <= y < x -> bit_of bm y = true).

(** C18: [allocate_block] in a file system whose groups have as many blocks as a block
    has bits visits the groups from the one asked for on, around the end, takes the
    first clear bit in the bitmap of the first group that counts free blocks, returns
    the number of the block of that bit, and leaves the disk as it was but for that
    bit, which is set (so the count of free blocks in the descriptor, written after
    it, does not reach the disk: the handle of [disk_asset] went with the first
    write). *)
Theorem allocate_block_takes_first_free s0 s groups start fuel g x :
  ready s0 s -> has_groups s0 groups -> 0 <= start < groups -> groups <= Z.of_nat fuel ->
  blocks_per_group (superblock s0) = 8 * bs s0 -> 0 <= first_data_block (superblock s0) < 2 ^ 32 ->
  Forall byte (contents (disk s0)) ->
  find (has_free s0) (rotation start groups) = Some g ->
  let bitmap := block_bitmap (disk_bgd s0 g) in
  in_disk s0 bitmap -> first_free (disk_block s0 bitmap) x ->
  succeeds (allocate_block fuel start) s (fun r s' => r = block_of_bit s0 g x /\ bit_taken s0 s' bitmap x).
Proof.
  intros HR HG Hs Hf Hbpg Hfdb Hby Hfind bitmap Hd (Hx & Hclear & Hset).
  pose proof (ready_bs_range s0 s HR) as Hbs. pose proof (ready_length s0 s bitmap HR Hd) as El.
  assert (0 <= g < groups) as Hg.
  { apply find_some in Hfind as [Hin _]. unfold rotation in Hin. simpl in Hin. rewrite in_app_iff in Hin.
    destruct Hin as [<-|[Hin|Hin]]; [done|apply list_elem_of_In, elem_of_seqZ in Hin; lia..]. }
  pose proof (groups_ok _ _ HG g Hg) as Hok. unfold allocate_block. m_step. m_step. m_step.
  destruct (find_group_visits_every_group s0 s groups start fuel HR HG Hs Hf) as (s1 & HR1 & E).
  rewrite Hfind in E. unfold succeeds at 1. rewrite E. cbv beta. m_step.
  eapply succeeds_mono; [by apply read_bgd_ok|]. cbv beta. intros b s2 [HR2 ->].
  rewrite (ready_superblock s0 s HR). fold (bs s0). rewrite Hbpg, (wrapu_small 64 (8 * bs s0)) by lia.
  m_steps; [lia|]. rewrite Z.div_same by lia. change (Z.to_nat 1) with 1%nat. cbn [bitmap_loop]. m_steps.
  eapply succeeds_mono; [by apply ready_read|]. cbv beta. intros b s3 (HR3 & Hp & Hn). m_step.
  destruct (Hn eq_refl) as (i & n & -> & Hi & Hbn). rewrite (ready_superblock s0 s2 HR2), Hbpg.
  replace (8 * bs s0 / 8) with (bs s0) by (rewrite Z.mul_comm, Z.div_mul; lia).
  eapply succeeds_mono.
  { apply (scan_bytes_ok s3 (Node i) (disk_block s0 bitmap) x (Z.to_nat (bs s0)) 0); try done; try lia.
    apply part_byte, Hby. }
  cbv beta. intros r s4 [-> ->].
  apply (take_bit_ok s0 s3 g bitmap _ i n); try done; [by apply (disk_bgd_high s0 s)|lia|].
  unfold block_of_bit. pose proof (groups_count _ _ HG). nia.
Qed.
End spec.
