(* ===== verification/Ext4Sample.v ===== *)
(** A small file system on a disk in memory: the theorems on ext4 at work, and runs
    that show where the code does not do what it means to. *)

From S2P Require Import Prelude Monads Range Bytes Disk Ext4Layout Ext4 Ext4Files.
From S2P Require Import Ext4Spec Ext4FilesSpec Ext4ReadSpec Ext4DirSpec Ext4WriteSpec Ext4AllocSpec.

(** * The image: 16 blocks of 1 KiB *)

Definition sample_superblock : Ext4Superblock := mk_Superblock 16 1 0 8192 8 EXT4_MAGIC 0 128 0 0 0.

Definition superblock_image : list Z :=
  patch (patch (patch (patch (patch (patch (patch (replicate 1024 0)
    4 (int_bytes 4 16)) 20 (int_bytes 4 1)) 32 (int_bytes 4 8192)) 40 (int_bytes 4 8)) 56 (int_bytes 2 EXT4_MAGIC))
    84 (int_bytes 4 11)) 88 (int_bytes 2 128).

(** Padded or cut to a block. *)
Definition to_block (l : list Z) : list Z := take 1024 (l ++ replicate 1024 0).

Definition sample_bgd : Ext4BlockGroupDescriptor := mk_Bgd 3 4 5 2 0 0 0 0 0 0 0 0 (replicate 32 0).

Definition sample_inode (type size sectors : Z) (blocks : list Z) : Ext4Inode :=
  mk_Inode 0x1FF type 0 size 0 0 0 0 0 1 sectors 0 0 (take 15 (blocks ++ replicate 15 0)) 0 0 0 0 (replicate 12 0).

(** A directory, a file of three blocks, a file of exactly one block, and one of 600
    blocks reached through the double indirect block. *)
Definition dir_inode := sample_inode 4 1024 2 [6].
Definition file_inode := sample_inode 8 2500 6 [7; 8; 10].
Definition full_inode := sample_inode 8 1024 2 [7].
Definition large_inode := sample_inode 8 614400 1200 ([7;7;7;7;7;7;7;7;7;7;7;7] ++ [14; 11]).

Definition inode_table_image : list Z :=
  inode_bytes (sample_inode 0 0 0 []) ++ inode_bytes dir_inode ++ inode_bytes file_inode ++
  inode_bytes full_inode ++ inode_bytes large_inode.

Definition entry_image (id len : Z) (type : Z) (name : list Z) : list Z :=
  take (Z.to_nat len) (dir_entry_bytes (mk_DirEntry id len (zlen name) type) ++ name ++ replicate (Z.to_nat len) 0).

Definition dir_image : list Z :=
  entry_image 2 12 2 [46] ++ entry_image 2 12 2 [46; 46] ++ entry_image 0 16 1 [104; 105] ++
  entry_image 3 984 1 [104; 105].

Definition sample_image : list Z :=
  concat (map to_block [
    []; superblock_image; bgd_bytes sample_bgd; [0xFF; 0x7F]; []; inode_table_image; dir_image;
    replicate 1024 65; replicate 1024 66; []; replicate 1024 67;
    int_bytes 4 12 ++ int_bytes 4 13; concat (replicate 256 (int_bytes 4 7));
    concat (replicate 256 (int_bytes 4 8)); concat (replicate 256 (int_bytes 4 10)); [] ]).

Definition sample_asset : list Z := replicate 4096 0.

Definition sample_fs : Ext4Filesystem (list Z) :=
  mk_Fs [] sample_image 0 32 16 sample_superblock 2 (mk_MemoryAsset true sample_asset).

Example sample_superblock_read : superblock_of_bytes (part sample_image 1024 512) = sample_superblock.
Proof. vm_compute. reflexivity. Qed.

(** The mount reads the image, with the root directory listed. *)
Example sample_mount :
  match initialize 4 100 sample_image 0 16 (replicate 4096 0) sample_asset with
  | Ret (Value s) => (superblock s, bgd_table_start_block s, block_desc_size s) = (sample_superblock, 2, 32)
  | _ => False
  end.
Proof. vm_compute. reflexivity. Qed.

Lemma sample_mounted : mounted sample_fs.
Proof. split; try (vm_compute; discriminate); try (vm_compute; split; discriminate); try done; constructor. Qed.

Lemma sample_ready : ready sample_fs sample_fs.
Proof. by apply ready_refl; [apply sample_mounted|]. Qed.

Lemma sample_in_disk n : 0 <= n < 16 -> in_disk sample_fs n.
Proof.
  intros Hn. split; [lia|]. change (zlen (contents (disk sample_fs))) with (zlen sample_image).
  assert (zlen sample_image = 16384) as -> by (vm_compute; reflexivity).
  assert (bs sample_fs = 1024) as E by (vm_compute; reflexivity). unfold block_start. rewrite E. simpl. lia.
Qed.

Lemma sample_bytes : Forall byte sample_image.
Proof.
  assert (forallb (fun b => (0 <=? b) && (b <? 256)) sample_image = true) as E by (vm_compute; reflexivity).
  apply Forall_forall. intros b Hb. rewrite forallb_forall in E. apply list_elem_of_In in Hb.
  specialize (E b Hb). apply andb_prop in E as [H1 H2]. apply Z.leb_le in H1. apply Z.ltb_lt in H2. done.
Qed.

Lemma sample_group : group_ok sample_fs 0.
Proof.
  repeat split; try (vm_compute; discriminate); try (vm_compute; reflexivity).
Qed.

Lemma sample_bgd_read : disk_bgd sample_fs 0 = sample_bgd.
Proof. vm_compute. reflexivity. Qed.

Lemma sample_inode_ok id : 1 <= id <= 8 -> inode_ok sample_fs id.
Proof.
  intros Hid. assert ((id - 1) / 8 = 0 /\ (id - 1) mod 8 = id - 1) as [E1 E2].
  { split; [apply Z.div_small|apply Z.mod_small]; lia. }
  assert (inode_offset sample_fs id = (id - 1) * 128 /\ inode_block_of sample_fs id = 5) as [E3 E4].
  { unfold inode_offset, inode_block_of. change (inodes_per_group (superblock sample_fs)) with 8.
    change (inode_size (superblock sample_fs)) with 128. rewrite E1, E2, sample_bgd_read.
    assert (bs sample_fs = 1024) as -> by (vm_compute; reflexivity).
    split; [apply Z.mod_small; lia|]. rewrite Z.div_small by lia. reflexivity. }
  unfold inode_ok. change (inodes_per_group (superblock sample_fs)) with 8. rewrite E1, E3, E4.
  split; [lia|]. split; [lia|]. split; [by vm_compute|]. split; [exact sample_bytes|].
  split; [exact sample_group|]. split; [|apply sample_in_disk; lia].
  assert (bs sample_fs = 1024) as -> by (vm_compute; reflexivity). unfold sizeof_Inode. lia.
Qed.

(** * The theorems at work *)

Definition file_map (n : Z) : Z := if n =? 0 then 7 else if n =? 1 then 8 else 10.

Lemma file_map_maps n : 0 <= n <= 2 -> maps sample_fs (mk_InodeRef 3 file_inode) n (file_map n).
Proof.
  intros Hn. apply maps_direct; [lia|].
  assert (n = 0 \/ n = 1 \/ n = 2) as [->|[->| ->]] by lia; reflexivity.
Qed.

Lemma file_map_in_disk n : in_disk sample_fs (file_map n).
Proof. apply sample_in_disk. unfold file_map. case_Z; lia. Qed.

Lemma sample_bs : bs sample_fs = 1024.
Proof. vm_compute. reflexivity. Qed.

(** The search over the three blocks of the file, by both functions. *)
Lemma find_blocks_agree_witness :
  succeeds (inode_find_blocks (mk_InodeRef 3 file_inode) 0 3 []) sample_fs (fun r s' => zlen r = 3 /\
    (forall k p, 0 <= k -> aget r k = Some p ->
      succeeds (inode_find_block (mk_InodeRef 3 file_inode) k) s' (fun q _ => q = p))).
Proof.
  apply (find_blocks_agree sample_fs sample_fs (mk_InodeRef 3 file_inode) file_map 0 3).
  - exact sample_ready.
  - lia.
  - vm_compute. discriminate.
  - intros n Hn. split; [apply file_map_maps; lia|]. unfold file_map. case_Z; discriminate.
  - left. vm_compute. reflexivity.
Defined.


Lemma last_full_block_not_read_witness :
  exists ts, inode_read (mk_InodeRef 4 full_inode) 0 1024 0 (mk_MemoryAsset true (replicate 4096 0), sample_fs) =
    Ret (Error "block out of range", ts).
Proof.
  apply (last_full_block_not_read sample_fs sample_fs).
  - exact sample_ready.
  - vm_compute. split; [discriminate|reflexivity].
  - vm_compute. discriminate.
  - vm_compute. reflexivity.
Defined.

(** The entries of the root directory. *)
Definition sample_entries (b : Z) : list (Ext4DirEntry * list Z) :=
  [(mk_DirEntry 2 12 1 2, [46]); (mk_DirEntry 2 12 2 2, [46; 46]); (mk_DirEntry 0 16 2 1, [104; 105]);
   (mk_DirEntry 3 984 2 1, [104; 105])].

Lemma sample_directory : directory sample_fs (mk_InodeRef 2 dir_inode) (fun _ => 6) 1 sample_entries.
Proof.
  split.
  - intros b Hb. replace b with 0 by lia. split; [vm_compute; reflexivity|]. split; [by apply maps_direct|].
    split; [discriminate|]. apply sample_in_disk. lia.
  - intros b _. unfold sample_entries.
    repeat (apply chain_entry; [vm_compute; discriminate|vm_compute; discriminate|vm_compute; discriminate|
      vm_compute; reflexivity|vm_compute; reflexivity|vm_compute; reflexivity|]).
    apply chain_end. vm_compute. discriminate.
  - intros b e name _ He Hne. apply sample_inode_ok. unfold sample_entries in He.
    rewrite !elem_of_cons in He. destruct He as [E|[E|[E|[E|He]]]]; [injection E as -> ->; simpl in *; lia..|].
    by apply elem_of_nil in He.
Qed.

(** "hi" is found behind an entry of the same name that is not in use. *)
Lemma get_subdir_finds_witness :
  search_result sample_fs (Some 3) (get_subdir 1025 (mk_InodeRef 2 dir_inode) [104; 105] sample_fs).
Proof.
  refine (get_subdir_finds sample_fs sample_fs (mk_InodeRef 2 dir_inode) (fun _ => 6) 1 sample_entries [104; 105] 1025
    sample_ready sample_directory _ _ _).
  - vm_compute. split; [discriminate|reflexivity].
  - vm_compute. reflexivity.
  - vm_compute. reflexivity.
Defined.

(** The size of the file is changed and its inode written. *)
Lemma inode_write_read_witness :
  succeeds (write_inode 3 full_inode) sample_fs (fun _ s' => forall m, bs sample_fs <= zlen m ->
    succeeds (read_inode 3) (remount s' m) (fun r _ => r = mk_InodeRef 3 full_inode) /\
    (forall id', inode_ok sample_fs id' ->
      apart (inode_start sample_fs 3) sizeof_Inode (inode_start sample_fs id') sizeof_Inode ->
      apart (inode_start sample_fs 3) sizeof_Inode (bgd_start sample_fs ((id' - 1) / 8)) sizeof_Bgd ->
      succeeds (read_inode id') (remount s' m) (fun r _ => r = mk_InodeRef id' (disk_inode sample_fs id')))).
Proof.
  apply (inode_write_read sample_fs sample_fs 3 full_inode).
  - exact sample_ready.
  - apply sample_inode_ok. lia.
  - unfold inode_fits, fits. split_and!; try (cbn; lia); try reflexivity; cbn;
      repeat (apply Forall_cons_2; [unfold byte; lia|]); apply Forall_nil_2.
  - right. vm_compute. discriminate.
Defined.

Lemma sample_groups : has_groups sample_fs 1.
Proof.
  split.
  - simpl. lia.
  - simpl. lia.
  - simpl. lia.
  - lia.
  - intros g Hg. replace g with 0 by lia. exact sample_group.
Qed.

(** Bit 15 is the first clear bit: block [0 * 8192 + 15 + 1]. *)
Lemma allocate_block_takes_first_free_witness :
  succeeds (allocate_block 1 0) sample_fs (fun r s' =>
    r = block_of_bit sample_fs 0 15 /\ bit_taken sample_fs s' (block_bitmap (disk_bgd sample_fs 0)) 15).
Proof.
  apply (allocate_block_takes_first_free sample_fs sample_fs 1 0 1 0 15).
  - exact sample_ready.
  - exact sample_groups.
  - lia.
  - simpl. lia.
  - vm_compute. reflexivity.
  - vm_compute. split; [discriminate|reflexivity].
  - exact sample_bytes.
  - vm_compute. reflexivity.
  - rewrite sample_bgd_read. apply sample_in_disk. simpl. lia.
  - split; [vm_compute; split; [discriminate|reflexivity]|]. split; [vm_compute; reflexivity|].
    intros y Hy. assert (forallb (bit_of (disk_block sample_fs (block_bitmap (disk_bgd sample_fs 0)))) (seqZ 0 15) = true) as E
      by (vm_compute; reflexivity).
    rewrite forallb_forall in E. apply E. apply list_elem_of_In, elem_of_seqZ. lia.
Defined.

(** * Where the code does not do what it means to *)

(** From inside a block of pointers to the next: block 524 and 525 of the file are
    block 8 of the disk, and the search of many blocks gives what the first block of
    pointers has at their index. *)
Example blocks_across_pointer_blocks :
  let i := mk_InodeRef 5 large_inode in
  match inode_find_blocks i 520 526 [] sample_fs, inode_find_block i 525 sample_fs with
  | Ret (Value r, _), Ret (Value p, _) => r = [7; 7; 7; 7; 7; 7] /\ p = 8
  | _, _ => False
  end.
Proof. vm_compute. split; reflexivity. Qed.

(** A block added to a file of three: its number goes to the seventh pointer, since
    [blocks_lo] counts sectors of 512 bytes, and the count grows by one sector. *)
Example block_added_at_sector_count :
  match inode_add_block 1 (mk_InodeRef 3 file_inode, sample_fs) with
  | Ret (_, (i, _)) => blocks_lo (inode i) = 7 /\ take 7 (block (inode i)) = [7; 8; 10; 0; 0; 0; 16]
  | _ => False
  end.
Proof. vm_compute. split; reflexivity. Qed.

(** The second write is lost without an error. *)
Example second_write_lost :
  match (write_inode 3 full_inode;; s ← get; mret (disk s)) sample_fs,
        (write_inode 3 full_inode;; write_inode 4 dir_inode;; s ← get; mret (disk s)) sample_fs with
  | Ret (Value d1, _), Ret (Value d2, _) => d1 = d2
  | _, _ => False
  end.
Proof. vm_compute. reflexivity. Qed.

(** A descriptor is 68 bytes to the code: the last one of a block ends outside it. *)
Example last_descriptor_out_of_block : read_blockgroup_descriptor 31 sample_fs = Trap.
Proof. vm_compute. reflexivity. Qed.

(** The two halves of [free_blocks_count] are two counts of the format, of blocks and
    of inodes: a group without free blocks is taken when it has free inodes. *)
Example free_inodes_counted_as_blocks :
  let l := int_bytes 4 3 ++ int_bytes 4 4 ++ int_bytes 4 5 ++ int_bytes 2 0 ++ int_bytes 2 7 ++ replicate 52 0 in
  free_blocks_count (bgd_of_bytes l) = 7 * 2 ^ 16.
Proof. vm_compute. reflexivity. Qed.
