(* ===== verification/Nvme.v ===== *)
(** app/disk/nvme/controller.hpp, spec.hpp and server.hpp: the driver of NVMe disks
    and the disk server over it.

    The controller is hardware: its registers, its accesses to memory and its
    progress are the class [NvmeHardware], and so are the system calls that give
    memory. A physical address [p] is at [p + USERSPACE_VIRT_BASE] in the space of
    the driver ([Space::map_memory]). Memory is bytes by physical address.

    [patience] is the number of times a loop that waits for the controller looks at
    it; [NvmeContract] of NvmeSpec.v says that it is enough. *)

From S2P Require Import Prelude Monads Range Bytes.

Definition USERSPACE_VIRT_BASE : Z := 0x2000000000.

(** * spec.hpp: what the controller reads and writes *)

Definition NVME_CAP := 0x0.
Definition NVME_CONTROLLER_CONFIG := 0x14.
Definition NVME_CONTROLLER_STATUS := 0x1C.
Definition NVME_ADMIN_QUEUE_ATTRIBUTE := 0x24.
Definition NVME_ADMIN_QUEUE_SUBMIT := 0x28.
Definition NVME_ADMIN_QUEUE_COMPLETE := 0x30.
Definition NVME_QUEUE_TAIL_DOORBELL_BASE := 0x1000.

Definition NVME_AOP_CREATE_SUBMISSION_QUEUE := 0x1.
Definition NVME_AOP_CREATE_COMPLETION_QUEUE := 0x5.
Definition NVME_AOP_IDENTIFY := 0x6.
Definition NVME_AOP_SET_FEATURE := 0x9.
Definition NVME_OP_WRITE := 0x1.
Definition NVME_OP_READ := 0x2.

Definition sizeof_NvmeCmd := 64.
Definition sizeof_CompletionQueueEntry := 16.
Definition sizeof_IdentifyController := 4096.

(** The bits [lo], [lo + 1], ... ([n] of them) of a register or of a bit field. *)
Definition bits (v lo n : Z) : Z := Z.land (Z.shiftr v lo) (Z.ones n).

(** [ControllerCap]: the two registers joined. *)
Definition cap_raw (raw_value_0 raw_value_1 : Z) : Z := Z.lor (Z.shiftl raw_value_1 32) raw_value_0.
Definition max_queue_entries (cap : Z) : Z := bits cap 0 16.
Definition cap_stride (cap : Z) : Z := bits cap 32 4.
Definition memory_page_size_minimum (cap : Z) : Z := bits cap 48 4.

(** [NvmeConfig] with [iocqes] and [iosqes], enabled. *)
Definition config_raw (en iosqes iocqes : Z) : Z :=
  Z.lor (Z.lor en (Z.shiftl iosqes 16)) (Z.shiftl iocqes 20).

(** The union of [NvmeCmd]. *)
Inductive CmdBody :=
| NoBody
| CreateIoCompletionQueue (qid qsize pc : Z)
| CreateIoSubmissionQueue (qid qsize pc qprio cqid : Z)
| Identify (cns : Z)
| ReadWrite (lba nlb : Z)
| Feature (fid dword11 : Z).

Record NvmeCmd := mk_Cmd { opcode : Z; cid : Z; nsid : Z; prp1 : Z; prp2 : Z; body : CmdBody }.

Definition body_bytes (b : CmdBody) : list Z :=
  match b with
  | NoBody => replicate 24 0
  | CreateIoCompletionQueue qid qsize pc =>
      int_bytes 2 qid ++ int_bytes 2 qsize ++ int_bytes 2 pc ++ replicate 18 0
  | CreateIoSubmissionQueue qid qsize pc qprio cqid =>
      int_bytes 2 qid ++ int_bytes 2 qsize ++ int_bytes 2 (Z.lor pc (Z.shiftl qprio 1)) ++
      int_bytes 2 cqid ++ replicate 16 0
  | Identify cns => int_bytes 1 cns ++ replicate 23 0
  | ReadWrite lba nlb => int_bytes 8 lba ++ int_bytes 2 nlb ++ replicate 14 0
  | Feature fid dword11 => int_bytes 4 fid ++ int_bytes 4 dword11 ++ replicate 16 0
  end.

Definition cmd_bytes (c : NvmeCmd) : list Z :=
  int_bytes 1 (opcode c) ++ [0] ++ int_bytes 2 (cid c) ++ int_bytes 4 (nsid c) ++
  replicate 16 0 ++ int_bytes 8 (prp1 c) ++ int_bytes 8 (prp2 c) ++ body_bytes (body c).

Definition set_cid (c : NvmeCmd) (i : Z) : NvmeCmd :=
  mk_Cmd (opcode c) i (nsid c) (prp1 c) (prp2 c) (body c).

(** * The machine *)

Class NvmeHardware (W : Type) := {
  reg_read : Z -> W -> Z * W;              (* a register of 32 bits *)
  reg_write : Z -> Z -> W -> W;
  reg_write64 : Z -> Z -> W -> W;
  mem_byte : W -> Z -> Z;                  (* memory, by physical address *)
  mem_store : Z -> list Z -> W -> W;
  pause : W -> W;                          (* while the driver waits *)
  mem_own : Z -> W -> option Z * W;        (* sys$mem_own: pages of this size *)
  asset_info : Z -> W -> option (Z * Z)    (* the memory object of a handle *)
}.

(** * Queues *)

Record Queue := mk_Queue {
  base_addr : Z; physical_addr : Z; count : Z; is_completion : bool; tail : Z; page_size : Z
}.

Record Queues := mk_Queues {
  command_queue : Queue; complete_queue : Queue; id : Z; queues_cid : Z; phase : Z; pgs_reg : Z
}.

Definition set_tail (q : Queue) (t : Z) : Queue :=
  mk_Queue (base_addr q) (physical_addr q) (count q) (is_completion q) t (page_size q).

Definition will_loop (q : Queue) : bool := count q <=? u64 (tail q + 1).

Definition sizeof_entry (q_is_completion : bool) : Z :=
  if q_is_completion then sizeof_CompletionQueueEntry else sizeof_NvmeCmd.

(** [Queue::allocate]: the last entry is left out when the queue wraps. *)
Fixpoint allocate (fuel : nat) (q : Queue) : ctl (Z * Queue) :=
  match fuel with
  | O => NoFuel
  | S fuel =>
      let res := u64 (base_addr q + tail q * sizeof_entry (is_completion q)) in
      let t := u64 (tail q + 1) in
      if count q <=? t then allocate fuel (set_tail q 0) else Ret (res, set_tail q t)
  end.

(** An entry is found at the second call at most ([allocate_two]). *)
Definition allocate_entry (q : Queue) : ctl (Z * Queue) := allocate 2 q.

(** The entries a page-aligned queue for [n] entries has. *)
Definition queue_len (n size : Z) : Z := alignUp (u64 (n * size)) 4096.
Definition queue_count (n size : Z) : Z := alignDown (queue_len n size) size / size.

(** * The driver *)

Record NvmeDevice := mk_Device {
  io_queues : Queues; dev_nsid : Z; sys_id : Z; max_phys_rpgs : Z; lba_size : Z; identify_namespace : Z
}.

Record NvmeController := mk_Controller {
  cap : Z; identify_controller : Z; stride : Z; queue_slots : Z; max_transfer : Z;
  nsids : Z; admin_queues : Queues; devices : list NvmeDevice
}.

Definition set_queues (d : NvmeDevice) (q : Queues) : NvmeDevice :=
  mk_Device q (dev_nsid d) (sys_id d) (max_phys_rpgs d) (lba_size d) (identify_namespace d).
Definition set_admin (c : NvmeController) (q : Queues) : NvmeController :=
  mk_Controller (cap c) (identify_controller c) (stride c) (queue_slots c) (max_transfer c)
    (nsids c) q (devices c).
Definition set_devices (c : NvmeController) (l : list NvmeDevice) : NvmeController :=
  mk_Controller (cap c) (identify_controller c) (stride c) (queue_slots c) (max_transfer c)
    (nsids c) (admin_queues c) l.

(** [1 << k] in [int]. *)
Definition shl_one (k : Z) : ctl Z := if k <? 32 then Ret (u64 (s32 (Z.shiftl 1 k))) else Trap.

Section nvme.
Context {W : Type} `{NvmeHardware W}.
Variable patience : nat.

(** [n] bytes at the virtual address [v], as an integer; and the bytes written there. *)
Definition vload (n : nat) (v : Z) (w : W) : Z :=
  int_of_bytes (map (fun i => mem_byte w (v - USERSPACE_VIRT_BASE + i)) (seqZ 0 (Z.of_nat n))).
Definition vstore (v : Z) (l : list Z) (w : W) : W := mem_store (v - USERSPACE_VIRT_BASE) l w.

(** ** Memory: iol/wingos/asset.hpp and space.hpp *)

(** The start of the range [VirtualMemoryAsset::create] maps. *)
Definition mapped_ptr (first last : Z) : Z :=
  if (first =? 0) || (last =? 0) || (last <=? first) then 0
  else if alignUp last 4096 <=? alignDown first 4096 then 0 else alignDown first 4096.

(** [allocate_physical_memory] then [map_memory]: the pointer, and whether the
    kernel gave a handle. *)
Definition allocate_memory (size : Z) (w : W) : (Z * bool) * W :=
  let size := alignUp size 4096 in
  let '(r, w) := mem_own size w in
  let addr := default 0 r in
  ((mapped_ptr (u64 (addr + USERSPACE_VIRT_BASE)) (u64 (addr + size + USERSPACE_VIRT_BASE)),
    match r with Some _ => true | None => false end), w).

(** [Queue::create]. *)
Definition create (q_is_completion : bool) (n : Z) : M W Queue := fun w =>
  let size := sizeof_entry q_is_completion in
  let len := queue_len n size in
  let '((ptr, valid), w) := allocate_memory len w in
  if negb valid then Ret (Error "failed to allocate memory for queue", w)
  else
    let q := mk_Queue ptr (u64 (ptr - USERSPACE_VIRT_BASE)) (queue_count n size) q_is_completion 0 len in
    Ret (Value q, vstore ptr (replicate (Z.to_nat len) 0) w).

Definition create_queues (slots max_pgs_size qid : Z) : M W Queues :=
  cmd_queue ← create false slots;
  cmp_queue ← create true slots;
  w ← get;
  let max_pgs_size := if max_pgs_size =? 0 then 1 else max_pgs_size in
  let '((ptr, _), w) := allocate_memory (u64 (slots * 8 * max_pgs_size)) w in
  put w;;
  mret (mk_Queues cmd_queue cmp_queue qid 0 1 ptr).

(** ** Submission of a command *)

(** The wait for the completion entry at [v]: its status when its phase bit is the
    phase of the queue. *)
Fixpoint await (n : nat) (v q_phase : Z) : M W Z :=
  match n with
  | O => out_of_fuel
  | S n =>
      w ← get;
      let flags := vload 2 (v + 14) w in
      if bits flags 0 1 =? q_phase then mret (bits flags 1 15)
      else put (pause w);; await n v q_phase
  end.

(** The doorbells of a queue pair: [stride] is the one of the controller. *)
Definition tail_doorbell (ctl_stride qid : Z) : Z :=
  s32 (NVME_QUEUE_TAIL_DOORBELL_BASE + 2 * qid * Z.shiftl 4 ctl_stride).
Definition head_doorbell (ctl_stride qid : Z) : Z :=
  s32 (NVME_QUEUE_TAIL_DOORBELL_BASE + (2 * qid + 1) * Z.shiftl 4 ctl_stride).

Definition nvme_await_submit (ctl_stride : Z) (cmd : NvmeCmd) : M (Queues * W) unit :=
  '(q, w) ← get;
  let q_phase := if will_loop (complete_queue q) then (if phase q =? 0 then 1 else 0) else phase q in
  '(submission, commands) ← lift (allocate_entry (command_queue q));
  '(completion, completions) ← lift (allocate_entry (complete_queue q));
  let q' := mk_Queues commands completions (id q) (u64 (queues_cid q + 1)) q_phase (pgs_reg q) in
  let w := vstore submission (cmd_bytes (set_cid cmd (wrapu 16 (queues_cid q)))) w in
  let w := reg_write (tail_doorbell ctl_stride (id q)) (u32 (tail commands)) w in
  put (q', w);;
  status ← beside (await patience completion q_phase);
  '(q', w) ← get;
  put (q', reg_write (head_doorbell ctl_stride (id q)) (u32 (tail completions)) w);;
  if negb (status =? 0) then fail "nvme command failed" else mret tt.

(** ** Reads and writes *)

(** [prp_list_addr[i] = first + i * 4096] for [n] entries from the [i]-th. *)
Fixpoint write_prps (n : nat) (v first i : Z) (w : W) : W :=
  match n with
  | O => w
  | S n => write_prps n v first (i + 1) (vstore (v + 8 * i) (int_bytes 8 (u64 (first + i * 4096))) w)
  end.

(** The commands of a transfer that is cut: [rec] transfers a part of it. *)
Fixpoint split_loop (rec : Z -> Z -> Z -> Z -> M (NvmeDevice * W) unit)
    (n : nat) (max_nlb remaining lba buf size : Z) : M (NvmeDevice * W) unit :=
  if 0 <? remaining then
    match n with
    | O => out_of_fuel
    | S n =>
        let blk_count := Z.min remaining max_nlb in
        let blk_bytes := u64 (blk_count * size) in
        rec lba blk_count buf blk_bytes;;
        split_loop rec n max_nlb (wrapu 16 (remaining - blk_count)) (u64 (lba + blk_count))
          (u64 (buf + blk_bytes)) size
    end
  else mret tt.

(** The command of a transfer that is not cut, with the list of pages written when
    there are more than two. *)
Definition transfer (ctl_stride : Z) (is_write : bool) (lba nlb buffer : Z) : M (NvmeDevice * W) unit :=
  '(dev, w) ← get;
  let phys_addr := u64 (buffer - USERSPACE_VIRT_BASE) in
  let phys_addr_page := alignDown phys_addr 4096 in
  let page_offset := Z.land phys_addr 0xFFF in
  let space_in_first_page := 4096 - page_offset in
  let transfer_size := u64 (nlb * lba_size dev) in
  let q := io_queues dev in
  let opcode := if is_write then NVME_OP_WRITE else NVME_OP_READ in
  let cmd prp2 := mk_Cmd opcode 0 (dev_nsid dev) phys_addr prp2 (ReadWrite lba (wrapu 16 (nlb - 1))) in
  let submit cmd := fun '(dev, w) =>
    match nvme_await_submit ctl_stride cmd (io_queues dev, w) with
    | Ret (r, (q, w)) => Ret (r, (set_queues dev q, w))
    | Trap => Trap
    | NoFuel => NoFuel
    end in
  if space_in_first_page <? transfer_size then
    if space_in_first_page + 4096 <? transfer_size then
      let prp_list_size := alignUp (transfer_size - space_in_first_page) 4096 in
      let prp_count := alignUp prp_list_size 4096 / 4096 in
      if max_phys_rpgs dev <? prp_count then fail "transfer size exceeds max PRP entries"
      else
        let prp_list_addr := u64 (pgs_reg q + 8 * u64 (queues_cid q * max_phys_rpgs dev)) in
        put (dev, write_prps (Z.to_nat prp_count) prp_list_addr (phys_addr_page + space_in_first_page) 0 w);;
        submit (cmd (u64 (prp_list_addr - USERSPACE_VIRT_BASE)))
    else submit (cmd (u64 (phys_addr_page + 0x1000)))
  else submit (cmd 0).

(** [read_write_ptr]; [depth] is the number of calls in each other. *)
Fixpoint read_write_at (depth : nat) (c : NvmeController) (is_write : bool)
    (lba nlb buffer buffer_len : Z) : M (NvmeDevice * W) unit :=
  match depth with
  | O => out_of_fuel
  | S depth =>
      if (buffer_len =? 0) || (buffer =? 0) then fail "invalid buffer"
      else
        '(dev, _) ← get;
        let len := alignDown buffer_len (lba_size dev) in
        if len <? u64 (nlb * lba_size dev) then fail "buffer too small for requested nlb"
        else
          let max_size_per_cmd := Z.min (u64 (max_phys_rpgs dev * 4096)) (max_transfer c) in
          n ← quot max_size_per_cmd (lba_size dev);
          let max_nlb_per_cmd := wrapu 16 n in
          if max_nlb_per_cmd <? nlb then
            split_loop (fun lba nlb buf len => read_write_at depth c is_write lba nlb buf len)
              (Z.to_nat nlb) max_nlb_per_cmd nlb lba buffer (lba_size dev)
          else transfer (stride c) is_write lba nlb buffer
  end.

(** A part of a cut transfer is not cut again, so two calls are enough. *)
Definition read_write_ptr := read_write_at 2.

(** ** Setting the controller up *)

(** A command on the admin queues. *)
Definition admin_submit (cmd : NvmeCmd) : M (NvmeController * W) unit := fun '(c, w) =>
  match nvme_await_submit (stride c) cmd (admin_queues c, w) with
  | Ret (r, (q, w)) => Ret (r, (set_admin c q, w))
  | Trap => Trap
  | NoFuel => NoFuel
  end.

Definition identify : M (NvmeController * W) unit :=
  '(c, w) ← get;
  let len := alignUp sizeof_IdentifyController 4096 in
  let '((ptr, _), w) := allocate_memory len w in
  put (c, w);;
  let prp1 := u64 (ptr - USERSPACE_VIRT_BASE) in
  let prp2 := if 0 <? len - 0x1000 then u64 (prp1 + 0x1000) else 0 in
  admin_submit (mk_Cmd NVME_AOP_IDENTIFY 0 0 prp1 prp2 (Identify 1));;
  '(c, w) ← get;
  put (mk_Controller (cap c) ptr (stride c) (queue_slots c) (max_transfer c) (nsids c)
         (admin_queues c) (devices c), w).

Definition nvme_set_queue_count (n : Z) : M (NvmeController * W) unit :=
  '(c, _) ← get;
  if (n =? 0) || (max_queue_entries (cap c) <? n) then fail "invalid queue count"
  else admin_submit (mk_Cmd NVME_AOP_SET_FEATURE 0 0 0 0
         (Feature 0x07 (u32 (Z.lor (n - 1) (Z.shiftl (n - 1) 16))))).

(** The I/O queues of a device, which the controller is then told of. *)
Definition nvme_create_queues (dev : NvmeDevice) (queue_id : Z) : M (NvmeController * W) NvmeDevice :=
  '(c, _) ← get;
  q ← beside (create_queues (queue_slots c) (max_phys_rpgs dev) queue_id);
  let size (q : Queue) := wrapu 16 (count q - 1) in
  admin_submit (mk_Cmd NVME_AOP_CREATE_COMPLETION_QUEUE 0 0 (physical_addr (complete_queue q)) 0
    (CreateIoCompletionQueue queue_id (size (complete_queue q)) 1));;
  admin_submit (mk_Cmd NVME_AOP_CREATE_SUBMISSION_QUEUE 0 0 (physical_addr (command_queue q)) 0
    (CreateIoSubmissionQueue queue_id (size (command_queue q)) 1 2 queue_id));;
  mret (set_queues dev q).

Definition no_queue : Queue := mk_Queue 0 0 0 false 0 0.
Definition no_queues : Queues := mk_Queues no_queue no_queue 0 0 0 0.

(** [NvmeIdentifyNamespace]: the format in use, and the size of a block in it. *)
Definition flbas (ptr : Z) (w : W) : Z := bits (vload 1 (ptr + 26) w) 0 4.
Definition lbads (ptr : Z) (w : W) : Z := vload 1 (ptr + 128 + 4 * flbas ptr w + 2) w.

(** The device is added to [devices]; [device_uid], a global, is the last part of
    the state. *)
Definition nvme_register_device_namespace (ns : Z) : M (Z * (NvmeController * W)) unit :=
  '(uid, (c, w)) ← get;
  let '((ptr, _), w) := allocate_memory 4096 w in
  put (u64 (uid + 1), (c, w));;
  beside (admin_submit (mk_Cmd NVME_AOP_IDENTIFY 0 (u32 ns) (u64 (ptr - USERSPACE_VIRT_BASE)) 0 (Identify 0)));;
  '(_, (_, w)) ← get;
  lba ← lift (shl_one (lbads ptr w));
  dev ← beside (nvme_create_queues (mk_Device no_queues (u32 ns) uid 512 lba ptr) (wrapu 16 ns));
  '(uid, (c, w)) ← get;
  put (uid, (set_devices c (devices c ++ [dev]), w)).

(** [while (read(NVME_CONTROLLER_STATUS) & 1)]. *)
Fixpoint await_stopped (n : nat) : M W unit :=
  match n with
  | O => out_of_fuel
  | S n =>
      w ← get;
      let '(status, w) := reg_read NVME_CONTROLLER_STATUS w in
      if Z.testbit status 0 then put (pause w);; await_stopped n else put w
  end.

Fixpoint await_started (n : nat) : M W unit :=
  match n with
  | O => out_of_fuel
  | S n =>
      w ← get;
      let '(status, w) := reg_read NVME_CONTROLLER_STATUS w in
      put w;;
      if Z.testbit status 0 then mret tt
      else if Z.testbit status 1 then fail "nvme controller failed to start"
      else put (pause w);; await_started n
  end.

(** [NvmeIdentifyController]: [mdts], [nn], [mnan]. *)
Definition mdts (c : NvmeController) (w : W) : Z := vload 1 (identify_controller c + 77) w.
Definition nn (c : NvmeController) (w : W) : Z := vload 4 (identify_controller c + 516) w.
Definition mnan (c : NvmeController) (w : W) : Z := vload 4 (identify_controller c + 540) w.

(** The loop of [setup] over the namespaces, from the [i]-th. *)
Fixpoint namespaces_loop (n : nat) (i : Z) : M (Z * (NvmeController * W)) unit :=
  '(_, (c, w)) ← get;
  if i <? nn c w then
    match n with
    | O => out_of_fuel
    | S n =>
        let ns := vload 4 (nsids c + 4 * i) w in
        (if (ns =? 0) || ((mnan c w <? ns) && negb (mnan c w =? 0)) then mret tt
         else nvme_register_device_namespace ns);;
        namespaces_loop n (i + 1)
    end
  else mret tt.

Definition set_nsids (c : NvmeController) (p : Z) : NvmeController :=
  mk_Controller (cap c) (identify_controller c) (stride c) (queue_slots c) (max_transfer c) p
    (admin_queues c) (devices c).
Definition set_max_transfer (c : NvmeController) (m : Z) : NvmeController :=
  mk_Controller (cap c) (identify_controller c) (stride c) (queue_slots c) m (nsids c)
    (admin_queues c) (devices c).

(** The second half of [setup], when the controller runs: what it is, and its
    namespaces. *)
Definition setup_namespaces : M (Z * (NvmeController * W)) unit :=
  beside identify;;
  '(uid, (c, w)) ← get;
  let nsids_len := alignUp (nn c w * 4) 4096 in
  let '((ptr, _), w) := allocate_memory nsids_len w in
  let w := vstore ptr (replicate (Z.to_nat nsids_len) 0) w in
  put (uid, (set_nsids c ptr, w));;
  beside (admin_submit (mk_Cmd NVME_AOP_IDENTIFY 0 0 (u64 (ptr - USERSPACE_VIRT_BASE)) 0 (Identify 2)));;
  '(uid, (c, w)) ← get;
  m ← lift (if mdts c w =? 0 then Ret (2 ^ 20)
            else shl_one (mdts c w + (12 + memory_page_size_minimum (cap c))));
  put (uid, (set_max_transfer c m, w));;
  beside (nvme_set_queue_count 4);;
  '(_, (c, w)) ← get;
  namespaces_loop (Z.to_nat (nn c w)) 0.

(** The first half of [setup]: the controller is stopped, given its admin queues and
    started. The registers are where [remap_nvme_addr] maps them. *)
Definition setup_admin : M W NvmeController :=
  w ← get;
  let '(raw_value_0, w) := reg_read NVME_CAP w in
  let '(raw_value_1, w) := reg_read (NVME_CAP + 4) w in
  let ctl_cap := cap_raw raw_value_0 raw_value_1 in
  let '(cfg, w) := reg_read NVME_CONTROLLER_CONFIG w in
  put (if Z.testbit cfg 0 then reg_write NVME_CONTROLLER_CONFIG (Z.clearbit cfg 0) w else w);;
  await_stopped patience;;
  let slots := max_queue_entries ctl_cap in
  q ← create_queues slots 0 0;
  w ← get;
  let w := reg_write NVME_ADMIN_QUEUE_ATTRIBUTE (u32 (Z.lor (u64 (Z.shiftl (slots - 1) 16)) (u64 (slots - 1)))) w in
  let w := reg_write64 NVME_ADMIN_QUEUE_SUBMIT (physical_addr (command_queue q)) w in
  let w := reg_write64 NVME_ADMIN_QUEUE_COMPLETE (physical_addr (complete_queue q)) w in
  put (reg_write NVME_CONTROLLER_CONFIG (config_raw 1 6 4) w);;
  await_started patience;;
  mret (mk_Controller ctl_cap 0 (cap_stride ctl_cap) slots 0 0 q []).

Definition setup (uid : Z) (w : W) : ctl (result NvmeController * (Z * W)) :=
  match setup_admin w with
  | Ret (Value c, w) =>
      match setup_namespaces (uid, (c, w)) with
      | Ret (Value _, (uid, (c, w))) => Ret (Value c, (uid, w))
      | Ret (Error e, (uid, (_, w))) => Ret (Error e, (uid, w))
      | Trap => Trap
      | NoFuel => NoFuel
      end
  | Ret (Error e, w) => Ret (Error e, (uid, w))
  | Trap => Trap
  | NoFuel => NoFuel
  end.

(** * server.hpp: the disk server of one device *)

Record NvmeDiskConnection := mk_Connection { uid : Z; device_id : Z }.

(** A request, the message read by its code; and the reply, if any. *)
Inductive DiskRequest :=
| ReadSectors (lba size asset off : Z)
| WriteSectors (lba size asset : Z)
| ForkConnection
| UnknownRequest.

Inductive DiskReply :=
| ReadDone (size asset : Z)
| WriteDone (size : Z)
| Forked (conn : NvmeDiskConnection)
| NoReply.

(** [MemoryAsset::from_handle]: where the memory starts, 0 when the handle is of
    something else. *)
Definition memory_start (handle : Z) (w : W) : Z :=
  match asset_info handle w with Some (addr, _) => alignDown addr 4096 | None => 0 end.

(** [controller->devices[i]] with the transfer on it. *)
Definition on_device (i : Z) (m : NvmeController -> M (NvmeDevice * W) unit) : M (NvmeController * W) unit :=
  fun '(c, w) =>
    match aget (devices c) i with
    | None => Trap
    | Some dev =>
        match m c (dev, w) with
        | Ret (r, (dev, w)) => Ret (r, (set_devices c (<[Z.to_nat i := dev]> (devices c)), w))
        | Trap => Trap
        | NoFuel => NoFuel
        end
    end.

(** The transfer a request asks for. *)
Definition serve_transfer (is_write : bool) (lba size buffer : Z) (c : NvmeController) :
    M (NvmeDevice * W) unit :=
  '(dev, _) ← get;
  nvme_lba ← quot lba (lba_size dev / 512);
  nlb ← quot size (lba_size dev);
  read_write_ptr c is_write nvme_lba (wrapu 16 nlb) buffer size.

(** The call, and whether the transfer failed. *)
Definition attempt {S A} (m : M S A) : M S bool := fun s =>
  match m s with
  | Ret (r, s) => Ret (Value (negb (is_error r)), s)
  | Trap => Trap
  | NoFuel => NoFuel
  end.

Definition call_received (conn : NvmeDiskConnection) (req : DiskRequest) : M (NvmeController * W) DiskReply :=
  match req with
  | ReadSectors lba size asset off =>
      '(_, w) ← get;
      let buffer := u64 (memory_start asset w + USERSPACE_VIRT_BASE + off) in
      ok ← attempt (on_device (device_id conn) (serve_transfer false lba size buffer));
      mret (if ok : bool then ReadDone size asset else NoReply)
  | WriteSectors lba size asset =>
      '(_, w) ← get;
      let buffer := u64 (memory_start asset w + USERSPACE_VIRT_BASE) in
      attempt (on_device (device_id conn) (serve_transfer true lba size buffer));;
      mret (WriteDone size)
  | ForkConnection => mret (Forked conn)
  | UnknownRequest => mret NoReply
  end.
End nvme.
