(* ===== verification/NvmeSpec.v ===== *)
(** What the NVMe driver relies on from the controller ([NvmeContract], after the
    NVMe base specification), and what its transfers do over it: a read fills the
    buffer with the blocks of the disk, a write puts the buffer on the disk. *)

From S2P Require Import Prelude Monads Range Bytes Nvme.

(** * The controller *)

(** Where the [i]-th byte of a transfer of [len] bytes is in memory (section 4.1.1
    of the specification): from [prp1], inside its page or on; then at [prp2] when
    the rest is one page; else in the pages listed at [prp2]. *)
Definition prp_address (word : Z -> Z) (p1 p2 len i : Z) : Z :=
  let first := 4096 - p1 mod 4096 in
  if i <? first then p1 + i
  else if len <=? first + 4096 then p2 + (i - first)
  else word (p2 + 8 * ((i - first) / 4096)) + (i - first) mod 4096.

Definition inside (a n x : Z) : Prop := a <= x < a + n.

(** The queue pair a controller keeps: where its entries are, how many commands it
    has taken from it in this turn of the queue. *)
Record QueueView := mk_View { sq_base : Z; cq_base : Z; entries : Z; taken : Z }.

Definition advance (v : QueueView) : QueueView := mk_View (sq_base v) (cq_base v) (entries v) (taken v + 1).

Section memory.
Context {W : Type} `{NvmeHardware W}.

(** [n] bytes of memory at the physical address [p]. *)
Definition mem_bytes (w : W) (p n : Z) : list Z := map (fun i => mem_byte w (p + i)) (seqZ 0 n).
Definition mem_word (w : W) (p : Z) : Z := int_of_bytes (mem_bytes w p 8).

(** The last two bytes of a completion entry: the phase in the lowest bit, the status. *)
Definition entry_flags (w : W) (p : Z) : Z := int_of_bytes (mem_bytes w (p + 14) 2).

(** Bytes gathered through the pages of a command. *)
Definition data_address (w : W) (c : NvmeCmd) (len i : Z) : Z :=
  prp_address (mem_word w) (prp1 c) (prp2 c) len i.
Definition data_bytes (w w' : W) (c : NvmeCmd) (len : Z) : list Z :=
  map (fun i => mem_byte w' (data_address w c len i)) (seqZ 0 len).
End memory.

(** A command to transfer the blocks from [lba], [len] bytes, that the controller of
    a namespace of [size] bytes accepts: its fields fit, its blocks exist, a list of
    pages does not cross a page, and its data is apart from the queue. *)
Record well_formed {W} `{NvmeHardware W} (w : W) (v : QueueView) (c : NvmeCmd) (block lba len size : Z) : Prop := {
  wf_opcode : opcode c = NVME_OP_READ \/ opcode c = NVME_OP_WRITE;
  wf_cid : 0 <= cid c < 2 ^ 16;
  wf_nsid : 0 <= nsid c < 2 ^ 32;
  wf_prp1 : 0 <= prp1 c < 2 ^ 64;
  wf_prp2 : 0 <= prp2 c < 2 ^ 64;
  wf_lba : 0 <= lba < 2 ^ 64;
  wf_len : exists n, 0 <= n < 2 ^ 16 /\ body c = ReadWrite lba n /\ len = (n + 1) * block;
  wf_media : lba * block + len <= size;
  wf_list : len <= (4096 - prp1 c mod 4096) + 4096 \/
            prp2 c mod 4096 + 8 * ((len - (4096 - prp1 c mod 4096) + 4095) / 4096) <= 4096;
  wf_apart : forall i j, 0 <= i < len -> 0 <= j < len ->
    data_address w c len i = data_address w c len j -> i = j;
  wf_queue : forall i, 0 <= i < len -> ~ inside (cq_base v) (16 * entries v) (data_address w c len i)
}.

(** The namespaces, by number, and what a controller does.
    - Memory is memory, and writes to it are not seen by the controller.
    - Command: when the driver puts a command in the next entry of a submission
      queue and writes the tail to its doorbell, then after at most [response_time]
      looks the completion entry has the phase of the turn (1) and status 0, and the
      command is done; before that the phase bit stays as it was.
    - The doorbell of the completion queue only gives entries back. *)
Class NvmeContract (W : Type) `{NvmeHardware W} := {
  media : W -> Z -> list Z;
  block_bytes : Z -> Z;
  view : W -> Z -> option QueueView;
  hw_stride : Z;
  response_time : nat;
  mem_byte_store : forall w p l a,
    mem_byte (mem_store p l w) a = if (p <=? a) && (a <? p + zlen l) then l !!! Z.to_nat (a - p) else mem_byte w a;
  media_store : forall w p l, media (mem_store p l w) = media w;
  view_store : forall w p l, view (mem_store p l w) = view w;
  command_runs : forall w qid v c block lba len,
    view w qid = Some v -> 0 <= taken v -> taken v + 1 < entries v ->
    mem_bytes w (sq_base v + 64 * taken v) 64 = cmd_bytes c ->
    block = block_bytes (nsid c) ->
    well_formed w v c block lba len (zlen (media w (nsid c))) ->
    let slot := cq_base v + 16 * taken v in
    let rung := reg_write (tail_doorbell hw_stride qid) (taken v + 1) w in
    exists k, (k < response_time)%nat /\
      (forall j, (j < k)%nat ->
         bits (entry_flags (Nat.iter j pause rung) slot) 0 1 = bits (entry_flags w slot) 0 1) /\
      let w' := Nat.iter k pause rung in
      entry_flags w' slot = 1 /\ view w' qid = Some (advance v) /\
      (forall a, ~ inside slot 16 a ->
         (opcode c = NVME_OP_READ -> forall i, 0 <= i < len -> data_address w c len i <> a) ->
         mem_byte w' a = mem_byte w a) /\
      if opcode c =? NVME_OP_READ
      then data_bytes w w' c len = part (media w (nsid c)) (lba * block) len /\ media w' = media w
      else media w' (nsid c) = patch (media w (nsid c)) (lba * block) (data_bytes w w c len) /\
           forall ns, ns <> nsid c -> media w' ns = media w ns;
  head_doorbell_quiet : forall w qid t,
    let w' := reg_write (head_doorbell hw_stride qid) t w in
    (forall a, mem_byte w' a = mem_byte w a) /\ media w' = media w /\ view w' = view w
}.

(** * Queues *)

(** Two calls find an entry, unless the queue has at most one. *)
Lemma allocate_two q :
  2 <= count q < 2 ^ 63 -> 0 <= tail q < count q -> exists r, allocate_entry q = Ret r.
Proof.
  intros Hc Ht. unfold allocate_entry. cbn [allocate set_tail tail count].
  rewrite (wrapu_small 64 (tail q + 1)) by lia. destruct (Z.leb_spec (count q) (tail q + 1)); [|by eexists].
  change (u64 (0 + 1)) with 1. destruct (Z.leb_spec (count q) 1); [lia|]. by eexists.
Qed.

Lemma allocate_in_turn q :
  0 <= base_addr q -> base_addr q + count q * sizeof_entry (is_completion q) < 2 ^ 63 ->
  0 <= tail q -> tail q + 1 < count q ->
  allocate_entry q =
    Ret (base_addr q + tail q * sizeof_entry (is_completion q), set_tail q (tail q + 1)).
Proof.
  intros Hb Hl Ht Hc. unfold allocate_entry. cbn [allocate].
  assert (16 <= sizeof_entry (is_completion q)) by (by destruct (is_completion q)).
  rewrite (wrapu_small 64 (tail q + 1)) by nia. destruct (Z.leb_spec (count q) (tail q + 1)); [lia|].
  by rewrite wrapu_small by nia.
Qed.

Section spec.
Context {W : Type} `{NvmeContract W}.
Variable patience : nat.
Hypothesis patient : (response_time <= patience)%nat.

(** * Memory *)

Lemma mem_bytes_ext w w' p n :
  (forall a, inside p n a -> mem_byte w' a = mem_byte w a) -> mem_bytes w' p n = mem_bytes w p n.
Proof.
  intros He. unfold mem_bytes. apply map_ext_in. intros i Hi%list_elem_of_In%elem_of_seqZ.
  apply He. unfold inside. lia.
Qed.

Lemma mem_bytes_store w p l : mem_bytes (mem_store p l w) p (zlen l) = l.
Proof.
  apply list_eq. intros i. unfold mem_bytes. rewrite list_lookup_fmap.
  destruct (decide (i < length l)%nat) as [Hi|Hi].
  - rewrite lookup_seqZ_lt by lia. cbn. rewrite mem_byte_store.
    destruct (Z.leb_spec p (p + (0 + Z.of_nat i))); [|lia].
    destruct (Z.ltb_spec (p + (0 + Z.of_nat i)) (p + zlen l)); [|lia]. cbn.
    replace (Z.to_nat _) with i by lia. symmetry. apply list_lookup_lookup_total_lt. lia.
  - rewrite lookup_seqZ_ge by lia. cbn. symmetry. apply lookup_ge_None_2. lia.
Qed.

Lemma mem_byte_store_out w p l a : ~ inside p (zlen l) a -> mem_byte (mem_store p l w) a = mem_byte w a.
Proof.
  intros Ho. rewrite mem_byte_store. unfold inside in Ho.
  destruct (Z.leb_spec p a), (Z.ltb_spec a (p + zlen l)); [lia|done..].
Qed.

Lemma entry_flags_vload w p : vload 2 (p + USERSPACE_VIRT_BASE + 14) w = entry_flags w p.
Proof.
  unfold vload, entry_flags, mem_bytes. f_equal. apply map_ext. intros i. f_equal. lia.
Qed.

Lemma entry_flags_ext w w' p :
  (forall a, inside p 16 a -> mem_byte w' a = mem_byte w a) -> entry_flags w' p = entry_flags w p.
Proof. intros He. unfold entry_flags. f_equal. apply mem_bytes_ext. unfold inside in *. intros. apply He. lia. Qed.

Lemma length_cmd_bytes c : length (cmd_bytes c) = 64%nat.
Proof.
  unfold cmd_bytes. rewrite !length_app, !length_int_bytes, length_replicate.
  destruct (body c); unfold body_bytes; rewrite ?length_app, ?length_int_bytes, ?length_replicate; reflexivity.
Qed.

(** * Submission *)

(** The wait ends when the phase is the one of the queue. *)
Lemma await_ends n k w v q_phase :
  (k < n)%nat ->
  (forall j, (j < k)%nat -> bits (vload 2 (v + 14) (Nat.iter j pause w)) 0 1 <> q_phase) ->
  bits (vload 2 (v + 14) (Nat.iter k pause w)) 0 1 = q_phase ->
  await n v q_phase w = Ret (Value (bits (vload 2 (v + 14) (Nat.iter k pause w)) 1 15), Nat.iter k pause w).
Proof.
  revert n w. induction k as [|k IH]; intros n w Hk Hb He; (destruct n as [|n]; [lia|]); cbn [await].
  - change (Nat.iter 0 pause w) with w in *. unfold mbind, M_bind, get.
    cbv beta iota zeta. by destruct (Z.eqb_spec (bits (vload 2 (v + 14) w) 0 1) q_phase).
  - pose proof (Hb O ltac:(lia)) as Hn. change (Nat.iter 0 pause w) with w in Hn.
    unfold mbind, M_bind, get, put. cbv beta iota zeta.
    destruct (Z.eqb_spec (bits (vload 2 (v + 14) w) 0 1) q_phase); [done|].
    rewrite Nat.iter_succ_r in He |- *. apply IH; [lia| |done].
    intros j Hj. rewrite <- (Nat.iter_succ_r j W pause w). apply Hb. lia.
Qed.

(** A region of memory apart from another. *)
Definition apart (a n b m : Z) : Prop := a + n <= b \/ b + m <= a.

(** The I/O queues of a device, with room for [n] more commands before they wrap and
    before the lists of pages leave their memory, as the controller sees them. *)
Record ready (slots : Z) (d : NvmeDevice) (w : W) (n : Z) : Prop := {
  r_commands : is_completion (command_queue (io_queues d)) = false;
  r_completions : is_completion (complete_queue (io_queues d)) = true;
  r_tail : 0 <= queues_cid (io_queues d) /\ tail (command_queue (io_queues d)) = queues_cid (io_queues d) /\
           tail (complete_queue (io_queues d)) = queues_cid (io_queues d);
  r_room : 0 <= n /\ queues_cid (io_queues d) + n < count (command_queue (io_queues d)) /\
           count (command_queue (io_queues d)) <= count (complete_queue (io_queues d)) /\
           queues_cid (io_queues d) + n <= slots < 2 ^ 16;
  r_phase : phase (io_queues d) = 1;
  r_addresses :
    let q := io_queues d in
    base_addr (command_queue q) = physical_addr (command_queue q) + USERSPACE_VIRT_BASE /\
    base_addr (complete_queue q) = physical_addr (complete_queue q) + USERSPACE_VIRT_BASE /\
    0 <= physical_addr (command_queue q) /\ 0 <= physical_addr (complete_queue q) /\
    physical_addr (command_queue q) + 64 * count (command_queue q) < 2 ^ 62 /\
    physical_addr (complete_queue q) + 16 * count (complete_queue q) < 2 ^ 62 /\
    0 <= pgs_reg q - USERSPACE_VIRT_BASE /\ pgs_reg q + slots * 4096 < 2 ^ 62 /\ pgs_reg q mod 4096 = 0;
  r_rpgs : max_phys_rpgs d = 512;
  r_apart :
    let q := io_queues d in
    let sq := physical_addr (command_queue q) in let cq := physical_addr (complete_queue q) in
    let pgs := pgs_reg q - USERSPACE_VIRT_BASE in
    apart sq (64 * count (command_queue q)) cq (16 * count (complete_queue q)) /\
    apart pgs (slots * 4096) sq (64 * count (command_queue q)) /\
    apart pgs (slots * 4096) cq (16 * count (complete_queue q));
  r_fresh : forall s, queues_cid (io_queues d) <= s < count (complete_queue (io_queues d)) ->
    bits (entry_flags w (physical_addr (complete_queue (io_queues d)) + 16 * s)) 0 1 = 0;
  r_block : lba_size d = block_bytes (dev_nsid d);
  r_nsid : 0 <= dev_nsid d < 2 ^ 32;
  r_id : 0 <= id (io_queues d) < 2 ^ 16;
  r_view : view w (id (io_queues d)) =
    Some (mk_View (physical_addr (command_queue (io_queues d))) (physical_addr (complete_queue (io_queues d)))
            (count (complete_queue (io_queues d))) (queues_cid (io_queues d)))
}.

(** The memory of the queues of a device. *)
Definition queue_memory (slots : Z) (d : NvmeDevice) (a : Z) : Prop :=
  inside (physical_addr (command_queue (io_queues d))) (64 * count (command_queue (io_queues d))) a \/
  inside (physical_addr (complete_queue (io_queues d))) (16 * count (complete_queue (io_queues d))) a \/
  inside (pgs_reg (io_queues d) - USERSPACE_VIRT_BASE) (slots * 4096) a.

(** The device after a command. *)
Definition submitted (d : NvmeDevice) : NvmeDevice :=
  let q := io_queues d in
  set_queues d (mk_Queues (set_tail (command_queue q) (tail (command_queue q) + 1))
    (set_tail (complete_queue q) (tail (complete_queue q) + 1)) (id q) (queues_cid q + 1) (phase q) (pgs_reg q)).

(** What a command changes. *)
Definition did (w1 : W) (c : NvmeCmd) (block lba len : Z) (w w' : W) : Prop :=
  if opcode c =? NVME_OP_READ
  then data_bytes w1 w' c len = part (media w (nsid c)) (lba * block) len /\ media w' = media w
  else media w' (nsid c) = patch (media w (nsid c)) (lba * block) (data_bytes w1 w1 c len) /\
       forall ns, ns <> nsid c -> media w' ns = media w ns.

(** Memory where the command goes, and with the command. *)
Definition command_slot (d : NvmeDevice) : Z :=
  physical_addr (command_queue (io_queues d)) + 64 * queues_cid (io_queues d).
Definition completion_slot (d : NvmeDevice) : Z :=
  physical_addr (complete_queue (io_queues d)) + 16 * queues_cid (io_queues d).
Definition with_command (d : NvmeDevice) (c : NvmeCmd) (w : W) : W :=
  mem_store (command_slot d) (cmd_bytes (set_cid c (queues_cid (io_queues d)))) w.

Definition view_of (d : NvmeDevice) : QueueView :=
  mk_View (physical_addr (command_queue (io_queues d))) (physical_addr (complete_queue (io_queues d)))
    (count (complete_queue (io_queues d))) (queues_cid (io_queues d)).

(** The next command leaves the queues ready. *)
Lemma ready_submitted slots d w w' n :
  ready slots d w n -> 0 < n -> view w' (id (io_queues d)) = Some (advance (view_of d)) ->
  (forall s, queues_cid (io_queues d) < s < count (complete_queue (io_queues d)) ->
     entry_flags w' (physical_addr (complete_queue (io_queues d)) + 16 * s) =
     entry_flags w (physical_addr (complete_queue (io_queues d)) + 16 * s)) ->
  ready slots (submitted d) w' (n - 1).
Proof.
  intros [] Hn Hv Hf. constructor; simpl; try done.
  - lia.
  - lia.
  - intros s Hs. rewrite Hf by lia. apply r_fresh0. lia.
Qed.

Lemma completion_apart_commands slots d w n :
  ready slots d w n -> 0 < n ->
  apart (command_slot d) 64 (physical_addr (complete_queue (io_queues d))) (16 * count (complete_queue (io_queues d))).
Proof.
  intros [] Hn. destruct r_apart0 as (Ha&_). unfold apart, command_slot in *. lia.
Qed.

(** In the turn of the queues, [nvme_await_submit] step by step. *)
Lemma submit_in_turn slots d w n c :
  ready slots d w n -> 0 < n ->
  nvme_await_submit patience hw_stride c (io_queues d, w) =
    match await patience (completion_slot d + USERSPACE_VIRT_BASE) 1
            (reg_write (tail_doorbell hw_stride (id (io_queues d))) (queues_cid (io_queues d) + 1) (with_command d c w)) with
    | Ret (Value status, w) =>
        Ret (if status =? 0 then Value tt else Error "nvme command failed",
             (io_queues (submitted d), reg_write (head_doorbell hw_stride (id (io_queues d))) (queues_cid (io_queues d) + 1) w))
    | Ret (Error e, w) => Ret (Error e, (io_queues (submitted d), w))
    | Trap => Trap
    | NoFuel => NoFuel
    end.
Proof.
  intros R Hn. pose proof R as [].
  destruct r_addresses0 as (A1&A2&A3&A4&A5&A6&_), r_tail0 as (T1&T2&T3), r_room0 as (_&Q1&Q2&Q3).
  assert (USERSPACE_VIRT_BASE < 2 ^ 62) by done.
  unfold nvme_await_submit, mbind, M_bind, get, put, lift, beside.
  unfold will_loop. rewrite T3, wrapu_small by lia.
  destruct (Z.leb_spec (count (complete_queue (io_queues d))) (queues_cid (io_queues d) + 1)); [lia|].
  assert (0 <= USERSPACE_VIRT_BASE) by done.
  rewrite (allocate_in_turn (command_queue (io_queues d))), (allocate_in_turn (complete_queue (io_queues d)))
    by (rewrite ?r_commands0, ?r_completions0; unfold sizeof_entry, sizeof_NvmeCmd, sizeof_CompletionQueueEntry; lia).
  rewrite r_commands0, r_completions0, T2, T3, r_phase0, A1, A2. cbn [sizeof_entry tail set_tail id].
  rewrite (wrapu_small 16), (wrapu_small 32) by lia.
  unfold vstore, with_command, command_slot, completion_slot, submitted.
  cbn [io_queues set_queues]. rewrite T2, T3, r_phase0.
  unfold sizeof_NvmeCmd, sizeof_CompletionQueueEntry.
  replace (physical_addr (command_queue (io_queues d)) + USERSPACE_VIRT_BASE + queues_cid (io_queues d) * 64 - USERSPACE_VIRT_BASE)
    with (physical_addr (command_queue (io_queues d)) + 64 * queues_cid (io_queues d)) by lia.
  replace (physical_addr (complete_queue (io_queues d)) + USERSPACE_VIRT_BASE + queues_cid (io_queues d) * 16)
    with (physical_addr (complete_queue (io_queues d)) + 16 * queues_cid (io_queues d) + USERSPACE_VIRT_BASE) by lia.
  destruct (await patience _ 1 _) as [[[s|e] w2]| |]; [|done..]. by destruct (s =? 0).
Qed.

Lemma submit_runs slots d w n c block lba len :
  ready slots d w n -> 0 < n -> block = block_bytes (nsid c) ->
  let c1 := set_cid c (queues_cid (io_queues d)) in
  let w1 := with_command d c w in
  well_formed w1 (view_of d) c1 block lba len (zlen (media w (nsid c))) ->
  succeeds (nvme_await_submit patience hw_stride c) (io_queues d, w) (fun _ '(q, w') =>
    q = io_queues (submitted d) /\ ready slots (submitted d) w' (n - 1) /\
    did w1 c1 block lba len w w' /\
    (forall a, ~ inside (completion_slot d) 16 a -> ~ inside (command_slot d) 64 a ->
       (opcode c = NVME_OP_READ -> forall i, 0 <= i < len -> data_address w1 c1 len i <> a) ->
       mem_byte w' a = mem_byte w a)).
Proof.
  intros R Hn Hb c1 w1 Hw. pose proof R as [].
  destruct r_addresses0 as (A1&A2&A3&A4&A5&A6&_), r_tail0 as (T1&T2&T3), r_room0 as (_&Q1&Q2&Q3).
  pose proof (completion_apart_commands _ _ _ _ R Hn) as Hapart.
  destruct (command_runs w1 (id (io_queues d)) (view_of d) c1 block lba len) as (k&Hk&Hbefore&Hflags&Hview&Hmem&Hdata).
  { unfold w1, with_command. rewrite view_store. exact r_view0. }
  { simpl. lia. }
  { simpl. lia. }
  { unfold w1, with_command. simpl. fold (command_slot d).
    replace 64 with (zlen (cmd_bytes (set_cid c (queues_cid (io_queues d))))) by (rewrite length_cmd_bytes; lia).
    apply mem_bytes_store. }
  { done. }
  { unfold w1, with_command. rewrite media_store. exact Hw. }
  change (cq_base (view_of d) + 16 * taken (view_of d)) with (completion_slot d) in *.
  cbn [taken view_of] in *.
  assert (forall j, (j < k)%nat ->
    bits (entry_flags (Nat.iter j pause (reg_write (tail_doorbell hw_stride (id (io_queues d)))
      (queues_cid (io_queues d) + 1) w1)) (completion_slot d)) 0 1 = 0) as Hstale.
  { intros j Hj. rewrite Hbefore by done.
    rewrite (entry_flags_ext w); [apply (r_fresh0 (queues_cid (io_queues d))); lia|].
    intros a Ha. apply mem_byte_store_out.
    rewrite length_cmd_bytes. unfold apart, inside, completion_slot in *. lia. }
  destruct (head_doorbell_quiet (Nat.iter k pause (reg_write (tail_doorbell hw_stride (id (io_queues d)))
    (queues_cid (io_queues d) + 1) w1)) (id (io_queues d)) (queues_cid (io_queues d) + 1)) as (G1&G2&G3).
  unfold succeeds. rewrite (submit_in_turn _ _ _ _ _ R Hn). fold w1.
  rewrite (await_ends patience k); [|lia|..].
  2: { intros j Hj. rewrite entry_flags_vload, Hstale by done. done. }
  2: { by rewrite entry_flags_vload, Hflags. }
  rewrite entry_flags_vload, Hflags. change (bits 1 1 15) with 0. cbv beta iota.
  set (w2 := Nat.iter k pause _) in *. change (0 =? 0) with true. cbv iota.
  split; [done|]. split.
  { eapply (ready_submitted slots d w); [done|done|by rewrite G3|].
    intros s Hs. apply entry_flags_ext. intros a Ha. rewrite G1, Hmem.
    - unfold w1, with_command. apply mem_byte_store_out. rewrite length_cmd_bytes.
      unfold apart, inside in *. lia.
    - unfold inside, completion_slot in *. lia.
    - intros _ i Hi Hai. apply (wf_queue _ _ _ _ _ _ _ Hw i Hi). rewrite Hai.
      unfold inside in *. cbn [cq_base entries view_of]. lia. }
  split.
  { unfold did. fold c1.
    replace (data_bytes w1 (reg_write _ _ w2) c1 len) with (data_bytes w1 w2 c1 len).
    2: { unfold data_bytes. apply map_ext. intros i. symmetry. apply G1. }
    rewrite G2. unfold w1, with_command in *. rewrite media_store in Hdata. exact Hdata. }
  intros a H1 H2 H3. rewrite G1, Hmem by done. unfold w1, with_command. apply mem_byte_store_out.
  by rewrite length_cmd_bytes.
Qed.

(** * Lists of pages *)

Lemma write_prps_out m v first i w a :
  ~ inside (v - USERSPACE_VIRT_BASE + 8 * i) (8 * Z.of_nat m) a ->
  mem_byte (write_prps m v first i w) a = mem_byte w a.
Proof.
  revert i w. induction m as [|m IH]; intros i w Ho; [done|]. cbn [write_prps]. unfold inside in *.
  rewrite IH by lia. unfold vstore. apply mem_byte_store_out. unfold inside. rewrite length_int_bytes. lia.
Qed.

Lemma write_prps_quiet m v first i w :
  media (write_prps m v first i w) = media w /\ view (write_prps m v first i w) = view w.
Proof.
  revert i w. induction m as [|m IH]; intros i w; [done|]. cbn [write_prps].
  destruct (IH (i + 1) (vstore (v + 8 * i) (int_bytes 8 (u64 (first + i * 4096))) w)) as [-> ->].
  unfold vstore. by rewrite media_store, view_store.
Qed.

Lemma mem_word_ext w w' p :
  (forall a, inside p 8 a -> mem_byte w' a = mem_byte w a) -> mem_word w' p = mem_word w p.
Proof. intros. unfold mem_word. f_equal. by apply mem_bytes_ext. Qed.

Lemma write_prps_word m v first i w j :
  i <= j < i + Z.of_nat m ->
  mem_word (write_prps m v first i w) (v - USERSPACE_VIRT_BASE + 8 * j) = u64 (first + j * 4096).
Proof.
  revert i w. induction m as [|m IH]; intros i w Hj; [lia|]. cbn [write_prps].
  destruct (decide (j = i)) as [->|]; [|apply IH; lia].
  rewrite (mem_word_ext (vstore (v + 8 * i) (int_bytes 8 (u64 (first + i * 4096))) w)).
  2: { intros a Ha. apply write_prps_out. unfold inside in *. lia. }
  unfold mem_word, vstore.
  replace (v + 8 * i - USERSPACE_VIRT_BASE) with (v - USERSPACE_VIRT_BASE + 8 * i) by lia.
  assert (mem_bytes (mem_store (v - USERSPACE_VIRT_BASE + 8 * i) (int_bytes 8 (u64 (first + i * 4096))) w)
            (v - USERSPACE_VIRT_BASE + 8 * i) 8 = int_bytes 8 (u64 (first + i * 4096))) as ->
    by exact (mem_bytes_store w _ (int_bytes 8 _)).
  apply int_of_int_bytes. apply wrapu_range. lia.
Qed.

(** The pages of a buffer that starts a page are found one after the other. *)
Lemma prp_address_straight word p1 p2 len i :
  p1 mod 4096 = 0 -> 0 <= i < len ->
  len <= 4096 \/ len <= 8192 /\ p2 = p1 + 4096 \/
    8192 < len /\ (forall j, 0 <= j < (len - 4096 + 4095) / 4096 -> word (p2 + 8 * j) = p1 + 4096 + j * 4096) ->
  prp_address word p1 p2 len i = p1 + i.
Proof.
  intros Hp Hi Hc. unfold prp_address. rewrite Hp.
  change (4096 - 0) with 4096. destruct (Z.ltb_spec i 4096); [done|].
  destruct Hc as [|[[? ->]|[? Hw]]]; [lia|..].
  - destruct (Z.leb_spec len (4096 + 4096)); lia.
  - destruct (Z.leb_spec len (4096 + 4096)); [lia|].
    pose proof (Z.div_mod (i - 4096) 4096 ltac:(done)) as E.
    rewrite Hw; [lia|]. split; [apply Z.div_pos; lia|].
    apply Z.lt_le_trans with ((i - 4096) / 4096 + 1); [lia|].
    rewrite <- Z.div_add by done. apply Z.div_le_mono; lia.
Qed.

Lemma ready_prps slots d w n m first :
  ready slots d w n -> 0 < n -> (m <= 512)%nat ->
  ready slots d (write_prps m (pgs_reg (io_queues d) + 4096 * queues_cid (io_queues d)) first 0 w) n.
Proof.
  intros [] Hn Hm. destruct (write_prps_quiet m (pgs_reg (io_queues d) + 4096 * queues_cid (io_queues d)) first 0 w) as [_ Ev].
  constructor; try done; [|by rewrite Ev].
  intros s Hs. rewrite (entry_flags_ext w); [by apply r_fresh0|].
  intros a Ha. apply write_prps_out. destruct r_apart0 as (_&_&Ha3). unfold apart, inside in *. lia.
Qed.

(** * Transfers *)

(** [len] bytes from block [lba] of the namespace, to or from the memory at [p]. *)
Record transferred (slots : Z) (d : NvmeDevice) (is_write : bool) (lba len p : Z) (w w' : W) : Prop := {
  t_data : if is_write
    then media w' (dev_nsid d) = patch (media w (dev_nsid d)) (lba * lba_size d) (mem_bytes w p len)
    else mem_bytes w' p len = part (media w (dev_nsid d)) (lba * lba_size d) len /\ media w' = media w;
  t_media : forall ns, ns <> dev_nsid d -> media w' ns = media w ns;
  t_memory : forall a, ~ queue_memory slots d a -> (is_write = false -> ~ inside p len a) ->
    mem_byte w' a = mem_byte w a
}.

Definition transfer_cmd (d : NvmeDevice) (is_write : bool) (lba nlb p p2 : Z) : NvmeCmd :=
  mk_Cmd (if is_write then NVME_OP_WRITE else NVME_OP_READ) 0 (dev_nsid d) p p2 (ReadWrite lba (wrapu 16 (nlb - 1))).

(** A buffer that starts a page, apart from the queues, and blocks of the namespace
    to transfer with it by one command. *)
Record fits (slots : Z) (d : NvmeDevice) (lba nlb p : Z) (w : W) : Prop := {
  f_block : exists k, 0 <= k < 31 /\ lba_size d = 2 ^ k;
  f_nlb : 0 < nlb < 2 ^ 16;
  f_page : p mod 4096 = 0 /\ 0 <= p;
  f_end : p + nlb * lba_size d < 2 ^ 62;
  f_lba : 0 <= lba /\ lba + nlb < 2 ^ 62;
  f_media : lba * lba_size d + nlb * lba_size d <= zlen (media w (dev_nsid d));
  f_apart : forall a, inside p (nlb * lba_size d) a -> ~ queue_memory slots d a
}.

Lemma block_pos slots d lba nlb p w : fits slots d lba nlb p w -> 0 < lba_size d.
Proof. intros []. destruct f_block0 as (k&Hk&->). apply Z.pow_pos_nonneg; lia. Qed.

(** The pages of [c], in the memory [w] where it is sent from, are the buffer. *)
Lemma data_bytes_straight w w' c len p :
  (forall i, 0 <= i < len -> data_address w c len i = p + i) -> data_bytes w w' c len = mem_bytes w' p len.
Proof.
  intros Ha. apply map_ext_in. intros i Hi%list_elem_of_In%elem_of_seqZ. by rewrite Ha by lia.
Qed.

Lemma slots_in_queues slots d w n a :
  ready slots d w n -> 0 < n -> inside (command_slot d) 64 a \/ inside (completion_slot d) 16 a ->
  queue_memory slots d a.
Proof.
  intros [] Hn. unfold inside, queue_memory, command_slot, completion_slot, inside. lia.
Qed.

Lemma did_transfer slots d w w' n is_write lba nlb p p2 :
  let c := transfer_cmd d is_write lba nlb p p2 in
  let w1 := with_command d c w in
  let c1 := set_cid c (queues_cid (io_queues d)) in
  let len := nlb * lba_size d in
  ready slots d w n -> 0 < n -> fits slots d lba nlb p w ->
  (forall i, 0 <= i < len -> data_address w1 c1 len i = p + i) ->
  did w1 c1 (lba_size d) lba len w w' ->
  (forall a, ~ inside (completion_slot d) 16 a -> ~ inside (command_slot d) 64 a ->
     (opcode c = NVME_OP_READ -> forall i, 0 <= i < len -> data_address w1 c1 len i <> a) ->
     mem_byte w' a = mem_byte w a) ->
  transferred slots d is_write lba len p w w'.
Proof.
  intros c w1 c1 len R Hn F Haddr Hd Hm.
  assert (mem_bytes w1 p len = mem_bytes w p len) as E1.
  { apply mem_bytes_ext. intros a Ha. apply mem_byte_store_out. rewrite length_cmd_bytes.
    intros Hin. apply (f_apart _ _ _ _ _ _ F a Ha), (slots_in_queues _ _ _ _ _ R Hn). by left. }
  unfold did in Hd. rewrite !(data_bytes_straight _ _ _ _ _ Haddr), E1 in Hd. unfold c1, c in Hd.
  constructor.
  - by destruct is_write; [destruct Hd as [Hd _]|].
  - intros ns Hns. destruct is_write; destruct Hd as [Hd1 Hd2]; [by apply Hd2|by rewrite Hd2].
  - intros a Ha Hb. apply Hm.
    + intros Hin. apply Ha, (slots_in_queues _ _ _ _ _ R Hn). by right.
    + intros Hin. apply Ha, (slots_in_queues _ _ _ _ _ R Hn). by left.
    + intros Hop i Hi. rewrite Haddr by done. intros <-. destruct is_write; [done|].
      apply (Hb eq_refl). unfold inside. lia.
Qed.

Lemma run_command slots d w n is_write lba nlb p p2 :
  ready slots d w n -> 0 < n -> fits slots d lba nlb p w -> 0 <= p2 < 2 ^ 64 ->
  let len := nlb * lba_size d in
  (len <= 8192 \/ p2 mod 4096 + 8 * ((len - 4096 + 4095) / 4096) <= 4096) ->
  (forall i, 0 <= i < len -> prp_address (mem_word (with_command d (transfer_cmd d is_write lba nlb p p2) w)) p p2 len i = p + i) ->
  succeeds (nvme_await_submit patience hw_stride (transfer_cmd d is_write lba nlb p p2)) (io_queues d, w)
    (fun _ '(q, w') => q = io_queues (submitted d) /\ ready slots (submitted d) w' (n - 1) /\
       transferred slots d is_write lba len p w w').
Proof.
  intros R Hn F Hp2 len Hlist Hdata. set (c := transfer_cmd d is_write lba nlb p p2) in *.
  pose proof (block_pos _ _ _ _ _ _ F). pose proof F as []. destruct f_page0 as [Hp0 Hp1]. pose proof R as [].
  assert (wrapu 16 (nlb - 1) = nlb - 1) as Ew by (apply wrapu_small; lia).
  assert (nsid c = dev_nsid d) as Ens by done.
  assert (forall i, 0 <= i < len ->
    data_address (with_command d c w) (set_cid c (queues_cid (io_queues d))) len i = p + i) as Haddr by exact Hdata.
  assert (forall j, 0 <= j < len -> ~ queue_memory slots d (p + j)) as Hout
    by (intros j Hj; apply f_apart0; unfold inside; lia).
  eapply succeeds_mono;
    [apply (submit_runs slots d w n c (lba_size d) lba len R Hn); [by rewrite Ens|]|].
  - constructor; try done.
    + destruct is_write; [by right|by left].
    + simpl. lia.
    + simpl. lia.
    + lia.
    + exists (nlb - 1). simpl. rewrite Ew. unfold len. split; [lia|split; [done|lia]].
    + simpl. rewrite Hp0. destruct Hlist; [left; lia|right]. done.
    + intros i j Hi Hj. rewrite !Haddr by done. lia.
    + intros i Hi. rewrite Haddr by done. intros Hin. apply (Hout i Hi). right; left. exact Hin.
  - intros _ [q w'] (Hq&HR&Hd&Hm). split; [done|]. split; [done|]. by eapply did_transfer.
Qed.

Definition transfer_post (slots : Z) (d : NvmeDevice) (w : W) (n : Z) (is_write : bool) (lba len p : Z)
    (d' : NvmeDevice) (w' : W) : Prop :=
  ready slots d' w' n /\ transferred slots d is_write lba len p w w' /\
  dev_nsid d' = dev_nsid d /\ lba_size d' = lba_size d /\
  forall a, queue_memory slots d' a <-> queue_memory slots d a.

(** The list of pages, in the memory where the command is sent from. *)
Lemma listed_pages slots d w n c m first j :
  ready slots d w n -> 0 < n -> (m <= 512)%nat -> 0 <= j < Z.of_nat m -> 0 <= first -> first + 512 * 4096 < 2 ^ 63 ->
  mem_word (with_command d c (write_prps m (pgs_reg (io_queues d) + 4096 * queues_cid (io_queues d)) first 0 w))
    (pgs_reg (io_queues d) + 4096 * queues_cid (io_queues d) - USERSPACE_VIRT_BASE + 8 * j) = first + j * 4096.
Proof.
  intros R Hn Hm Hj Hf1 Hf2. rewrite (mem_word_ext (write_prps m (pgs_reg (io_queues d) + 4096 * queues_cid (io_queues d)) first 0 w)).
  - rewrite write_prps_word by lia. apply wrapu_small. lia.
  - intros a Ha. apply mem_byte_store_out. rewrite length_cmd_bytes. destruct R. destruct r_apart0 as (_&Hs&_).
    unfold apart, inside, command_slot in *. lia.
Qed.

(** What [transfer] computes for a buffer that starts a page. *)
Lemma page_of_start p : 0 <= p < 2 ^ 64 -> p mod 4096 = 0 -> alignDown p 4096 = p /\ Z.land p 0xFFF = 0.
Proof.
  intros Hp Hm. change 4096 with (2 ^ 12) in *. split.
  - rewrite alignDown_pow2 by lia. pose proof (Z.div_mod p (2 ^ 12) ltac:(done)). lia.
  - change 0xFFF with (Z.ones 12). by rewrite Z.land_ones.
Qed.

Lemma pages_listed len :
  4096 <= len < 2 ^ 62 -> alignUp (alignUp (len - 4096) 4096) 4096 / 4096 = (len - 4096 + 4095) / 4096.
Proof.
  intros Hl. change 4096 with (2 ^ 12) in *.
  assert (forall a, 0 <= a < 2 ^ 62 -> alignUp a (2 ^ 12) = (a + 2 ^ 12 - 1) / 2 ^ 12 * 2 ^ 12) as E
    by (intros; apply alignUp_pow2; lia).
  rewrite (E (len - 2 ^ 12)) by lia. set (k := (len - 2 ^ 12 + 2 ^ 12 - 1) / 2 ^ 12).
  assert (0 <= k < 2 ^ 50) by (split; [apply Z.div_pos|apply Z.div_lt_upper_bound]; lia).
  rewrite E by lia. rewrite Z.div_mul by done.
  replace (k * 2 ^ 12 + 2 ^ 12 - 1) with ((2 ^ 12 - 1) + k * 2 ^ 12) by lia.
  rewrite Z.div_add by done. rewrite (Z.div_small (2 ^ 12 - 1)) by lia.
  unfold k. rewrite Z.add_0_l. f_equal. lia.
Qed.

Lemma queue_memory_submitted slots d a : queue_memory slots (submitted d) a <-> queue_memory slots d a.
Proof. done. Qed.

(** The command of [transfer], sent from the memory [w0] after the list of pages. *)
Lemma transfer_submits slots d w w0 n is_write lba nlb p p2 :
  ready slots d w0 n -> 0 < n -> fits slots d lba nlb p w -> 0 <= p2 < 2 ^ 64 ->
  let len := nlb * lba_size d in
  (len <= 8192 \/ p2 mod 4096 + 8 * ((len - 4096 + 4095) / 4096) <= 4096) ->
  (forall i, 0 <= i < len -> prp_address (mem_word (with_command d (transfer_cmd d is_write lba nlb p p2) w0)) p p2 len i = p + i) ->
  media w0 = media w -> (forall a, ~ queue_memory slots d a -> mem_byte w0 a = mem_byte w a) ->
  succeeds (fun '(dev, w) =>
      match nvme_await_submit patience hw_stride (transfer_cmd d is_write lba nlb p p2) (io_queues dev, w) with
      | Ret (r, (q, w)) => Ret (r, (set_queues dev q, w))
      | Trap => Trap
      | NoFuel => NoFuel
      end) (d, w0)
    (fun _ '(d', w') => d' = submitted d /\ transfer_post slots d w (n - 1) is_write lba len p d' w').
Proof.
  intros R Hn F Hp2 len Hl Ha Hmedia Hmem.
  assert (fits slots d lba nlb p w0) as F0 by (destruct F; constructor; try done; by rewrite Hmedia).
  pose proof (run_command slots d w0 n is_write lba nlb p p2 R Hn F0 Hp2 Hl Ha) as Hr.
  unfold succeeds in *. destruct (nvme_await_submit _ _ _ _) as [[[[]|] [q w']]| |]; [|done..].
  destruct Hr as (->&HR&[]). split; [done|]. split; [done|]. split; [|split; [done|split; [done|apply queue_memory_submitted]]].
  rewrite Hmedia in *. constructor; [|done|].
  - destruct is_write; [|done]. rewrite t_data0. f_equal. apply mem_bytes_ext.
    intros a Hin. apply Hmem. by apply (f_apart _ _ _ _ _ _ F).
  - intros a H1 H2. rewrite <- Hmem by done. by apply t_memory0.
Qed.

Lemma transfer_runs slots d w n is_write lba nlb p :
  ready slots d w n -> 0 < n -> fits slots d lba nlb p w -> nlb * lba_size d <= 512 * 4096 ->
  succeeds (transfer patience hw_stride is_write lba nlb (p + USERSPACE_VIRT_BASE)) (d, w)
    (fun _ '(d', w') => d' = submitted d /\ transfer_post slots d w (n - 1) is_write lba (nlb * lba_size d) p d' w').
Proof.
  intros R Hn F Hlen. pose proof (block_pos _ _ _ _ _ _ F). pose proof F as []. pose proof R as []. destruct f_page0 as [Hp0 Hp1].
  destruct r_tail0 as (T1&_), r_room0 as (_&_&_&Q3), r_addresses0 as (_&_&_&_&_&_&A7&A8&A9).
  assert (0 < nlb * lba_size d) by nia.
  unfold transfer. do 2 m_step. cbv beta iota zeta.
  replace (p + USERSPACE_VIRT_BASE - USERSPACE_VIRT_BASE) with p by lia.
  rewrite !(wrapu_small 64 p), (wrapu_small 64 (nlb * lba_size d)) by lia.
  destruct (page_of_start p) as [-> ->]; [lia|done|]. change (4096 - 0) with 4096.
  fold (transfer_cmd d is_write lba nlb p 0) (transfer_cmd d is_write lba nlb p (u64 (p + 4096))).
  set (len := nlb * lba_size d) in *.
  destruct (Z.ltb_spec 4096 len) as [L1|L1].
  2: { apply transfer_submits; try done; [lia|]. intros i Hi. apply prp_address_straight; [done|done|lia]. }
  destruct (Z.ltb_spec (4096 + 4096) len) as [L2|L2].
  2: { rewrite wrapu_small by lia. apply transfer_submits; try done; [lia|lia|].
       intros i Hi. apply prp_address_straight; [done|done|lia]. }
  rewrite pages_listed by lia. set (m := (len - 4096 + 4095) / 4096) in *.
  assert (0 <= m < 512) by (unfold m; split; [apply Z.div_pos|apply Z.div_lt_upper_bound]; lia).
  rewrite r_rpgs0. destruct (Z.ltb_spec 512 m); [lia|].
  assert (0 <= USERSPACE_VIRT_BASE) by done. do 2 m_step. rewrite (wrapu_small 64 (queues_cid _ * 512)), (wrapu_small 64 (pgs_reg _ + _)), (wrapu_small 64 (_ - USERSPACE_VIRT_BASE)) by lia.
  replace (8 * (queues_cid (io_queues d) * 512)) with (4096 * queues_cid (io_queues d)) by lia.
  fold (transfer_cmd d is_write lba nlb p (pgs_reg (io_queues d) + 4096 * queues_cid (io_queues d) - USERSPACE_VIRT_BASE)).
  destruct (write_prps_quiet (Z.to_nat m) (pgs_reg (io_queues d) + 4096 * queues_cid (io_queues d)) (p + 4096) 0 w) as [Em _].
  apply transfer_submits; try done.
  - apply ready_prps; [done..|lia].
  - lia.
  - right. fold len m. assert ((pgs_reg (io_queues d) + 4096 * queues_cid (io_queues d) - USERSPACE_VIRT_BASE) mod 4096 = 0) as ->; [|lia].
    change USERSPACE_VIRT_BASE with (0x2000000 * 4096).
    replace (pgs_reg (io_queues d) + 4096 * queues_cid (io_queues d) - 0x2000000 * 4096) with (pgs_reg (io_queues d) + (queues_cid (io_queues d) - 0x2000000) * 4096) by lia.
    by rewrite Z.mod_add.
  - intros i Hi. apply prp_address_straight; [done|done|]. right; right. split; [lia|]. fold m. intros j Hj.
    apply (listed_pages slots d w n); first [done|fold len m in Hj; lia].
  - intros a Ha. apply write_prps_out. intros Hin. apply Ha. right; right. unfold inside in *. lia.
Qed.

(** One transfer after another. *)
Lemma mem_bytes_app w p l1 l2 : 0 <= l1 -> 0 <= l2 -> mem_bytes w p (l1 + l2) = mem_bytes w p l1 ++ mem_bytes w (p + l1) l2.
Proof.
  intros H1 H2. unfold mem_bytes. rewrite seqZ_app by lia. rewrite map_app. f_equal.
  apply list_eq. intros i. rewrite !list_lookup_fmap. destruct (decide (Z.of_nat i < l2)).
  - rewrite !lookup_seqZ_lt by lia. simpl. do 2 f_equal. lia.
  - by rewrite !lookup_seqZ_ge by lia.
Qed.

Lemma length_mem_bytes w p n : 0 <= n -> zlen (mem_bytes w p n) = n.
Proof. intros. unfold mem_bytes. rewrite length_map, length_seqZ. lia. Qed.

Lemma transferred_app slots d d1 is_write lba n1 n2 p w w1 w2 :
  0 < n1 -> 0 < n2 -> fits slots d lba (n1 + n2) p w ->
  dev_nsid d1 = dev_nsid d -> lba_size d1 = lba_size d ->
  (forall a, queue_memory slots d1 a <-> queue_memory slots d a) ->
  transferred slots d is_write lba (n1 * lba_size d) p w w1 ->
  transferred slots d1 is_write (lba + n1) (n2 * lba_size d) (p + n1 * lba_size d) w1 w2 ->
  transferred slots d is_write lba ((n1 + n2) * lba_size d) p w w2.
Proof.
  intros Hn1 Hn2 F En El Eq [] []. pose proof (block_pos _ _ _ _ _ _ F) as Hb. destruct F.
  rewrite En, El in *. set (l1 := n1 * lba_size d) in *. set (l2 := n2 * lba_size d) in *.
  assert (0 < l1 /\ 0 < l2) by (unfold l1, l2; split; apply Z.mul_pos_pos; done).
  replace ((n1 + n2) * lba_size d) with (l1 + l2) in * by (unfold l1, l2; lia).
  replace ((lba + n1) * lba_size d) with (lba * lba_size d + l1) in * by (unfold l1; lia).
  assert (0 <= lba * lba_size d) by (apply Z.mul_nonneg_nonneg; lia).
  constructor.
  - destruct is_write.
    + rewrite t_data1, t_data0, mem_bytes_app by lia.
      rewrite <- (patch_patch _ _ (lba * lba_size d + l1)) by (rewrite ?length_mem_bytes; lia). f_equal. apply mem_bytes_ext. intros a Ha. apply t_memory0; [|done].
      apply f_apart0. unfold inside in *. lia.
    + destruct t_data1 as [D1 ->], t_data0 as [D0 E0]. split; [|done].
      rewrite mem_bytes_app, <- part_app by lia. rewrite D1, E0, <- D0. f_equal.
      apply mem_bytes_ext. intros a Ha. apply t_memory1.
      * rewrite Eq. apply f_apart0. unfold inside in *. lia.
      * intros _. unfold inside in *. lia.
  - intros ns Hns. by rewrite t_media1, t_media0.
  - intros a Ha Hp. rewrite t_memory1, t_memory0; [done|done| |by rewrite Eq|].
    + intros E Hin. apply (Hp E). unfold inside in *. lia.
    + intros E Hin. apply (Hp E). unfold inside in *. lia.
Qed.

(** The first part of a cut transfer fits. *)
Lemma fits_first slots d lba n1 n2 p w :
  0 < n1 -> 0 < n2 -> fits slots d lba (n1 + n2) p w -> fits slots d lba n1 p w.
Proof.
  intros H1 H2 F. pose proof (block_pos _ _ _ _ _ _ F) as Hb. destruct F.
  assert (0 < n2 * lba_size d) by (apply Z.mul_pos_pos; done).
  constructor; try done; try lia. intros a Ha. apply f_apart0. unfold inside in *. lia.
Qed.

(** The next part of a cut transfer fits. *)
Lemma fits_next slots d d1 is_write lba n1 n2 p w w1 :
  0 < n1 -> 0 < n2 -> fits slots d lba (n1 + n2) p w -> (n1 * lba_size d) mod 4096 = 0 ->
  dev_nsid d1 = dev_nsid d -> lba_size d1 = lba_size d ->
  (forall a, queue_memory slots d1 a <-> queue_memory slots d a) ->
  transferred slots d is_write lba (n1 * lba_size d) p w w1 ->
  fits slots d1 (lba + n1) n2 (p + n1 * lba_size d) w1.
Proof.
  intros Hn1 Hn2 F Hm En El Eq []. pose proof (block_pos _ _ _ _ _ _ F) as Hb. destruct F.
  assert (0 < n1 * lba_size d) by (apply Z.mul_pos_pos; done).
  assert (0 < n2 * lba_size d) by (apply Z.mul_pos_pos; done).
  assert (zlen (media w1 (dev_nsid d)) = zlen (media w (dev_nsid d))) as El1.
  { destruct is_write; [|by destruct t_data0 as [_ ->]]. rewrite t_data0, length_patch; [done|nia|].
    rewrite length_mem_bytes by lia. lia. }
  constructor; rewrite ?En, ?El; try done.
  - lia.
  - destruct f_page0. split; [|lia]. by rewrite Z.add_mod, Hm, Z.add_0_r, Z.mod_mod.
  - lia.
  - lia.
  - rewrite El1. lia.
  - intros a Ha. rewrite Eq. apply f_apart0. unfold inside in *. lia.
Qed.

(** The commands a transfer of [nlb] blocks takes, [max] at most in each. *)
Definition parts_of (max nlb : Z) : Z := (nlb + max - 1) / max.

Lemma parts_of_next max n : 0 < max -> max < n -> parts_of max n = 1 + parts_of max (n - max).
Proof.
  intros Hm Hn. unfold parts_of. replace (n + max - 1) with (n - max + max - 1 + 1 * max) by lia.
  rewrite Z.div_add by lia. lia.
Qed.

Lemma parts_of_last max n : 0 < n <= max -> parts_of max n = 1.
Proof.
  intros Hn. unfold parts_of. replace (n + max - 1) with (n - 1 + 1 * max) by lia.
  rewrite Z.div_add, Z.div_small by lia. lia.
Qed.

Definition max_nlb_of (c : NvmeController) (d : NvmeDevice) : Z :=
  wrapu 16 (Z.min (u64 (max_phys_rpgs d * 4096)) (max_transfer c) / lba_size d).

Lemma max_nlb_bytes c slots d w n :
  ready slots d w n -> 0 <= max_transfer c -> 0 < lba_size d -> max_nlb_of c d * lba_size d <= 512 * 4096.
Proof.
  intros R Ht Hb. unfold max_nlb_of. rewrite (r_rpgs _ _ _ _ R). change (u64 (512 * 4096)) with (512 * 4096).
  set (m := Z.min _ _). assert (0 <= m <= 512 * 4096) by (unfold m; lia).
  assert (0 <= m / lba_size d) by (apply Z.div_pos; lia).
  pose proof (Z.mod_le (m / lba_size d) (2 ^ 16) ltac:(done) ltac:(done)).
  pose proof (Z.mul_div_le m (lba_size d) Hb). unfold wrapu. nia.
Qed.

(** A part that is not cut: the checks pass, the transfer is done. *)
Lemma read_write_part depth c slots d w n is_write lba nlb p :
  stride c = hw_stride -> ready slots d w n -> 0 < n -> fits slots d lba nlb p w ->
  0 <= max_transfer c -> nlb <= max_nlb_of c d ->
  succeeds (read_write_at patience (S depth) c is_write lba nlb (p + USERSPACE_VIRT_BASE) (nlb * lba_size d)) (d, w)
    (fun _ '(d', w') => d' = submitted d /\ transfer_post slots d w (n - 1) is_write lba (nlb * lba_size d) p d' w').
Proof.
  intros Hs R Hn F Ht Hmax. pose proof (block_pos _ _ _ _ _ _ F) as Hb. pose proof F as [].
  assert (0 < USERSPACE_VIRT_BASE) by done.
  assert (0 < nlb * lba_size d) by (apply Z.mul_pos_pos; lia).
  assert (alignDown (nlb * lba_size d) (lba_size d) = nlb * lba_size d) as Eal.
  { destruct f_block0 as (k&Hk&Ek). rewrite Ek at 2. rewrite alignDown_pow2 by lia.
    rewrite <- Ek. by rewrite Z.div_mul by lia. }
  cbn [read_write_at]. destruct (Z.eqb_spec (nlb * lba_size d) 0); [lia|].
  destruct (Z.eqb_spec (p + USERSPACE_VIRT_BASE) 0); [lia|]. cbn [orb]. do 2 m_step. cbv beta iota zeta.
  rewrite Eal, wrapu_small by lia. destruct (Z.ltb_spec (nlb * lba_size d) (nlb * lba_size d)); [lia|].
  do 2 m_step; [lia|]. fold (max_nlb_of c d). destruct (Z.ltb_spec (max_nlb_of c d) nlb); [lia|].
  rewrite Hs. apply transfer_runs; try done. pose proof (max_nlb_bytes c slots d w n R Ht Hb). nia.
Qed.

Lemma max_nlb_of_ready c slots d w n d' w' n' :
  ready slots d w n -> ready slots d' w' n' -> lba_size d' = lba_size d -> max_nlb_of c d' = max_nlb_of c d.
Proof. intros R R' E. unfold max_nlb_of. by rewrite (r_rpgs _ _ _ _ R), (r_rpgs _ _ _ _ R'), E. Qed.

Lemma split_runs c slots max is_write fuel : forall d w n nlb lba p,
  stride c = hw_stride -> 0 <= max_transfer c ->
  ready slots d w n -> fits slots d lba nlb p w -> nlb <= Z.of_nat fuel -> parts_of max nlb <= n ->
  max_nlb_of c d = max -> 0 < max -> (max * lba_size d) mod 4096 = 0 ->
  succeeds (split_loop (fun lba nlb buf len => read_write_at patience 1 c is_write lba nlb buf len) fuel
              max nlb lba (p + USERSPACE_VIRT_BASE) (lba_size d)) (d, w)
    (fun _ '(d', w') => transfer_post slots d w (n - parts_of max nlb) is_write lba (nlb * lba_size d) p d' w').
Proof.
  induction fuel as [|fuel IH]; intros d w n nlb lba p Hs Ht R F Hf Hn Em Hm Hp;
    pose proof (f_nlb _ _ _ _ _ _ F) as Hnlb; pose proof (block_pos _ _ _ _ _ _ F) as Hb; [lia|].
  assert (0 < nlb * lba_size d) by (apply Z.mul_pos_pos; lia).
  assert (USERSPACE_VIRT_BASE = 2 ^ 37) as EB by done.
  pose proof (f_end _ _ _ _ _ _ F). pose proof (f_lba _ _ _ _ _ _ F).
  pose proof (f_page _ _ _ _ _ _ F) as [_ Hp0].
  cbn [split_loop]. destruct (Z.ltb_spec 0 nlb); [|lia].
  destruct (decide (nlb <= max)) as [Hle|Hgt].
  - rewrite Z.min_l by lia. rewrite parts_of_last in * by lia. rewrite (wrapu_small 64 (nlb * _)) by lia.
    m_step. eapply succeeds_mono; [apply (read_write_part 0 c slots d w n); try done; lia|].
    intros _ [d' w'] [_ HP]. rewrite Z.sub_diag. destruct fuel; exact HP.
  - assert (max * lba_size d < nlb * lba_size d) by (apply Z.mul_lt_mono_pos_r; lia).
    assert (0 < max * lba_size d) by (apply Z.mul_pos_pos; lia).
    rewrite Z.min_r by lia. rewrite (parts_of_next max nlb) in * by lia.
    rewrite (wrapu_small 64 (max * _)), (wrapu_small 16), !wrapu_small by lia.
    assert (fits slots d lba (max + (nlb - max)) p w) as F' by (by replace (max + (nlb - max)) with nlb by lia).
    assert (0 <= parts_of max (nlb - max)) by (unfold parts_of; apply Z.div_pos; lia).
    m_step. eapply succeeds_mono.
    { apply (read_write_part 0 c slots d w n); try done; [lia| |lia]. by apply (fits_first slots d lba max (nlb - max)); [|lia|]. }
    intros _ [d1 w1] [_ (R1&T1&En&El&Eq)].
    pose proof (fits_next slots d d1 is_write lba max (nlb - max) p w w1 Hm ltac:(lia) F' Hp En El Eq T1) as F1.
    replace (p + USERSPACE_VIRT_BASE + max * lba_size d) with (p + max * lba_size d + USERSPACE_VIRT_BASE) by lia.
    eapply succeeds_mono.
    { rewrite <- El. apply (IH d1 w1 (n - 1)); rewrite ?El; try done; try lia.
      rewrite <- Em. by eapply max_nlb_of_ready. }
    intros _ [d2 w2] (R2&T2&En2&El2&Eq2). rewrite El in *.
    replace (n - (1 + parts_of max (nlb - max))) with (n - 1 - parts_of max (nlb - max)) by lia.
    split; [done|]. split.
    + replace nlb with (max + (nlb - max)) at 1 by lia. by eapply (transferred_app slots d d1); try done; lia.
    + split; [congruence|split; [done|]]. intros a. by rewrite Eq2, Eq.
Qed.

(** [read_write_ptr] on a buffer that starts a page: the bytes of the blocks are in
    the buffer after a read, on the disk after a write, and nothing else changes but
    the memory of the queues. A transfer of more than [max_nlb_of] blocks is cut, and
    the parts together are the whole. *)
Theorem nvme_transfer_moves c slots d w n is_write lba nlb p buffer_len :
  stride c = hw_stride -> 0 <= max_transfer c ->
  ready slots d w n -> fits slots d lba nlb p w -> nlb * lba_size d <= buffer_len < 2 ^ 63 ->
  0 < max_nlb_of c d -> (max_nlb_of c d * lba_size d) mod 4096 = 0 -> parts_of (max_nlb_of c d) nlb <= n ->
  succeeds (read_write_ptr patience c is_write lba nlb (p + USERSPACE_VIRT_BASE) buffer_len) (d, w)
    (fun _ '(d', w') =>
       transfer_post slots d w (n - parts_of (max_nlb_of c d) nlb) is_write lba (nlb * lba_size d) p d' w').
Proof.
  intros Hs Ht R F Hl Hm Hp Hn. pose proof (block_pos _ _ _ _ _ _ F) as Hb. pose proof F as [].
  assert (0 < USERSPACE_VIRT_BASE) by done.
  assert (0 < nlb * lba_size d) by (apply Z.mul_pos_pos; lia).
  assert (nlb * lba_size d <= alignDown buffer_len (lba_size d)) as Eal.
  { destruct f_block0 as (k&Hk&Ek). rewrite Ek at 2. rewrite alignDown_pow2 by lia. rewrite <- Ek.
    apply Z.mul_le_mono_nonneg_r; [lia|]. apply Z.div_le_lower_bound; lia. }
  unfold read_write_ptr. cbn [read_write_at]. fold (read_write_at patience 1).
  destruct (Z.eqb_spec buffer_len 0); [lia|].
  destruct (Z.eqb_spec (p + USERSPACE_VIRT_BASE) 0); [lia|]. cbn [orb]. do 2 m_step. cbv beta iota zeta.
  rewrite (wrapu_small 64 (nlb * _)) by lia.
  destruct (Z.ltb_spec (alignDown buffer_len (lba_size d)) (nlb * lba_size d)); [lia|].
  do 2 m_step; [lia|]. fold (max_nlb_of c d). destruct (Z.ltb_spec (max_nlb_of c d) nlb).
  - apply (split_runs c slots (max_nlb_of c d)); try done; lia.
  - rewrite parts_of_last in * by lia. rewrite Hs. eapply succeeds_mono.
    + apply (transfer_runs slots d w n); try done; [lia|]. pose proof (max_nlb_bytes c slots d w n R Ht Hb). nia.
    + by intros _ [d' w'] [_ HP].
Qed.
(** * The server *)

Definition dev_blocks (d : NvmeDevice) : Z := lba_size d / 512.

Lemma serve_transfer_runs c slots d w n is_write lba nlb p :
  stride c = hw_stride -> 0 <= max_transfer c ->
  ready slots d w n -> fits slots d lba nlb p w -> lba_size d mod 512 = 0 ->
  0 < max_nlb_of c d -> (max_nlb_of c d * lba_size d) mod 4096 = 0 -> parts_of (max_nlb_of c d) nlb <= n ->
  succeeds (serve_transfer patience is_write (lba * dev_blocks d) (nlb * lba_size d) (p + USERSPACE_VIRT_BASE) c) (d, w)
    (fun _ '(d', w') =>
       transfer_post slots d w (n - parts_of (max_nlb_of c d) nlb) is_write lba (nlb * lba_size d) p d' w').
Proof.
  intros Hs Ht R F Hb Hm Hp Hn. pose proof (block_pos _ _ _ _ _ _ F) as Hpos.
  pose proof (f_nlb _ _ _ _ _ _ F). pose proof (f_end _ _ _ _ _ _ F). pose proof (f_page _ _ _ _ _ _ F) as [_ ?].
  assert (0 < dev_blocks d) as Hd.
  { unfold dev_blocks. pose proof (Z.div_mod (lba_size d) 512 ltac:(done)). lia. }
  unfold serve_transfer. do 2 m_step. cbv beta iota. fold (dev_blocks d).
  do 2 m_step; [lia|]. rewrite Z.div_mul by lia. do 2 m_step; [lia|]. rewrite Z.div_mul by lia.
  rewrite wrapu_small by lia. apply nvme_transfer_moves; try done. lia.
Qed.

Lemma succeeds_attempt {S A} (m : M S A) s (Q : bool -> S -> Prop) :
  succeeds m s (fun _ s' => Q true s') -> succeeds (attempt m) s Q.
Proof. unfold succeeds, attempt. by destruct (m s) as [[[]?]| |]. Qed.

Lemma succeeds_on_device i c w d m (Q : unit -> NvmeController * W -> Prop) :
  aget (devices c) i = Some d ->
  succeeds (m c) (d, w) (fun r '(d', w') => Q r (set_devices c (<[Z.to_nat i := d']> (devices c)), w')) ->
  succeeds (on_device i m) (c, w) Q.
Proof. intros Hd. unfold succeeds, on_device. rewrite Hd. by destruct (m c (d, w)) as [[[] [? ?]]| |]. Qed.

(** C20: A request for 1 to 65535 whole blocks, with a memory object that starts a page
    and an offset in it that is a number of pages (0 for a write): the reply of a read
    has the object, filled from [off] on; after a write the blocks are on the disk. The
    next request finds the device ready, with fewer entries left. The blocks of the
    namespace, the buffer and the entries of the queues that the request needs must be
    there, the buffer must lie apart from the queues and the largest transfer must be
    a number of pages; the service checks none of this. An offset within a page makes
    a list of pages that is not the buffer ([unaligned_list_misses_buffer]), and the
    count of blocks is cut to 16 bits ([empty_transfer_moves_65536_blocks]). *)
Theorem nvme_serves_requests conn c slots d w n (is_write : bool) lba nlb asset addr size off :
  aget (devices c) (device_id conn) = Some d -> stride c = hw_stride -> 0 <= max_transfer c ->
  asset_info asset w = Some (addr, size) -> addr mod 4096 = 0 -> 0 <= addr -> 0 <= off -> (is_write = true -> off = 0) ->
  ready slots d w n -> fits slots d lba nlb (addr + off) w -> lba_size d mod 512 = 0 ->
  0 < max_nlb_of c d -> (max_nlb_of c d * lba_size d) mod 4096 = 0 -> parts_of (max_nlb_of c d) nlb <= n ->
  let len := nlb * lba_size d in
  succeeds (call_received patience conn
              (if is_write then WriteSectors (lba * dev_blocks d) len asset
               else ReadSectors (lba * dev_blocks d) len asset off)) (c, w)
    (fun r '(c', w') =>
       r = (if is_write then WriteDone len else ReadDone len asset) /\
       transferred slots d is_write lba len (addr + off) w w' /\
       exists d', aget (devices c') (device_id conn) = Some d' /\
                  ready slots d' w' (n - parts_of (max_nlb_of c d) nlb)).
Proof.
  intros Hd Hs Ht Ha Hp H1 Ho Hoff R F Hb Hm Hq Hn len.
  pose proof (f_end _ _ _ _ _ _ F) as Hend. pose proof (f_page _ _ _ _ _ _ F) as [_ Hpos].
  pose proof (block_pos _ _ _ _ _ _ F) as Hbl. pose proof (f_nlb _ _ _ _ _ _ F).
  assert (0 < len) by (unfold len; apply Z.mul_pos_pos; lia). fold len in Hend.
  assert (USERSPACE_VIRT_BASE = 2 ^ 37) as EB by done.
  assert (memory_start asset w = addr) as Em.
  { unfold memory_start. rewrite Ha. destruct (page_of_start addr) as [-> _]; [lia|done|done]. }
  pose proof (fun b => serve_transfer_runs c slots d w n b lba nlb (addr + off) Hs Ht R F Hb Hm Hq Hn) as Hrun.
  assert (forall d', aget (<[Z.to_nat (device_id conn) := d']> (devices c)) (device_id conn) = Some d') as Hset.
  { intros d'. pose proof (aget_Some_range _ _ _ Hd). rewrite aget_lookup by lia.
    apply list_lookup_insert_eq. lia. }
  destruct is_write; cbn [call_received]; do 2 m_step; cbv beta iota zeta; rewrite Em, wrapu_small by lia.
  - rewrite (Hoff eq_refl), Z.add_0_r in *. m_step.
    apply succeeds_attempt. eapply succeeds_on_device; [done|]. eapply succeeds_mono; [apply Hrun|].
    intros _ [d' w'] (R'&T'&_). m_step. split; [done|]. split; [done|]. exists d'. split; [apply Hset|done].
  - replace (addr + USERSPACE_VIRT_BASE + off) with (addr + off + USERSPACE_VIRT_BASE) by lia. m_step.
    apply succeeds_attempt. eapply succeeds_on_device; [done|]. eapply succeeds_mono; [apply Hrun|].
    intros _ [d' w'] (R'&T'&_). m_step. split; [done|]. split; [done|]. exists d'. split; [apply Hset|done].
Qed.
End spec.

(** * Where the driver does not do what it means to *)

Section quirks.
Context {W : Type} `{NvmeHardware W}.
Variable patience : nat.

(** The count of blocks in a command is one less than the blocks to transfer, so a
    transfer of no block is sent as one of 65536 blocks, to a buffer that is not
    meant for them. A server asked for a multiple of 65536 blocks, or for less than
    a block, makes such a transfer: the count is cut to 16 bits. *)
Theorem empty_transfer_moves_65536_blocks ctl_stride is_write lba buffer dev w :
  transfer patience ctl_stride is_write lba 0 buffer (dev, w) =
    match nvme_await_submit patience ctl_stride
            (mk_Cmd (if is_write then NVME_OP_WRITE else NVME_OP_READ) 0 (dev_nsid dev)
               (u64 (buffer - USERSPACE_VIRT_BASE)) 0 (ReadWrite lba 65535)) (io_queues dev, w) with
    | Ret (r, (q, w)) => Ret (r, (set_queues dev q, w))
    | Trap => Trap
    | NoFuel => NoFuel
    end.
Proof.
  unfold transfer, mbind, M_bind, get. change (u64 (0 * lba_size dev)) with 0.
  change (wrapu 16 (0 - 1)) with 65535.
  set (phys := u64 (buffer - USERSPACE_VIRT_BASE)).
  assert (Z.land phys 0xFFF < 4096).
  { change 0xFFF with (Z.ones 12). rewrite Z.land_ones by lia. by apply Z.mod_pos_bound. }
  destruct (Z.ltb_spec (4096 - Z.land phys 0xFFF) 0); [lia|done].
Qed.

(** The pages of a buffer that does not start a page, when there are more than two:
    the entries of the list are [page + space_in_first_page + i * 4096], so the byte
    after the first page is not the next byte of the buffer. *)
Theorem unaligned_list_misses_buffer word p len :
  0 <= p -> p mod 4096 <> 0 -> let first := 4096 - p mod 4096 in
  first + 4096 < len -> word 0 = p / 4096 * 4096 + first + 0 * 4096 ->
  prp_address word p 0 len first = p / 4096 * 4096 + first /\
  prp_address word p 0 len first <> p + first.
Proof.
  intros Hp Hm first Hl Hw. pose proof (Z.mod_pos_bound p 4096 ltac:(done)).
  pose proof (Z.div_mod p 4096 ltac:(done)) as E.
  assert (prp_address word p 0 len first = p / 4096 * 4096 + first) as ->; [|unfold first; lia].
  unfold prp_address. fold first. destruct (Z.ltb_spec first first); [lia|].
  destruct (Z.leb_spec len (first + 4096)); [lia|]. rewrite Z.sub_diag. change (0 / 4096) with 0.
  change (0 + 8 * 0) with 0. change (0 mod 4096) with 0. lia.
Qed.
End quirks.
