(* ===== verification/NvmeSample.v ===== *)
(** A controller that does each command when its doorbell rings, with namespaces of
    blocks of 512 bytes: it keeps the contract of NvmeSpec.v, and the driver runs on
    it. *)

From S2P Require Import Prelude Monads Range Bytes Nvme NvmeSpec.

(** * The controller *)

Record Sim := mk_Sim { sim_mem : Z -> Z; sim_media : Z -> list Z; sim_view : Z -> option QueueView }.

Definition sim_bytes (m : Z -> Z) (p n : Z) : list Z := map (fun i => m (p + i)) (seqZ 0 n).
Definition sim_int (m : Z -> Z) (p n : Z) : Z := int_of_bytes (sim_bytes m p n).

Definition sim_address (m : Z -> Z) (slot len i : Z) : Z :=
  prp_address (fun p => sim_int m p 8) (sim_int m (slot + 24) 8) (sim_int m (slot + 32) 8) len i.

(** Which byte of the data is at [a]. *)
Definition sim_find (m : Z -> Z) (slot len a : Z) : option Z :=
  find (fun i => sim_address m slot len i =? a) (seqZ 0 len).

(** Memory with a completion entry posted. *)
Definition sim_done (entry : Z) (m : Z -> Z) (a : Z) : Z :=
  if a =? entry + 14 then 1 else if a =? entry + 15 then 0 else m a.

(** The command in the next entry of the queue, done. *)
Definition sim_run (v : QueueView) (w : Sim) : Sim :=
  let m := sim_mem w in
  let slot := sq_base v + 64 * taken v in
  let entry := cq_base v + 16 * taken v in
  let ns := sim_int m (slot + 4) 4 in
  let lba := sim_int m (slot + 40) 8 in
  let len := (sim_int m (slot + 48) 2 + 1) * 512 in
  if m slot =? NVME_OP_READ then
    let data := part (sim_media w ns) (lba * 512) len in
    mk_Sim (sim_done entry (fun a => match sim_find m slot len a with Some i => data !!! Z.to_nat i | None => m a end))
      (sim_media w) (sim_view w)
  else
    let data := map (fun i => m (sim_address m slot len i)) (seqZ 0 len) in
    mk_Sim (sim_done entry m) (fun n => if n =? ns then patch (sim_media w ns) (lba * 512) data else sim_media w n) (sim_view w).

Definition sim_queue (w : Sim) (qid : Z) : option QueueView :=
  if (0 <=? qid) && (qid <? 2 ^ 16) then sim_view w qid else None.

Definition sim_advance (qid : Z) (v : QueueView) (w : Sim) : Sim :=
  mk_Sim (sim_mem w) (sim_media w) (fun q => if q =? qid then Some (advance v) else sim_view w q).

Definition sim_write (reg t : Z) (w : Sim) : Sim :=
  let qid := (reg - 0x1000) / 8 in
  if (0x1000 <=? reg) && ((reg - 0x1000) mod 8 =? 0) then
    match sim_queue w qid with
    | Some v => if t =? taken v + 1 then sim_advance qid v (sim_run v w) else w
    | None => w
    end
  else w.

(** A memory object is where its handle says. *)
#[global] Instance sim_hardware : NvmeHardware Sim := {
  reg_read _ w := (0, w);
  reg_write := sim_write;
  reg_write64 _ _ w := w;
  mem_byte w a := sim_mem w a;
  mem_store p l w :=
    mk_Sim (fun a => if (p <=? a) && (a <? p + zlen l) then l !!! Z.to_nat (a - p) else sim_mem w a)
      (sim_media w) (sim_view w);
  pause w := w;
  mem_own _ w := (None, w);
  asset_info h _ := Some (h, 4096)
}.

(** * It keeps the contract *)

Lemma sim_bytes_part m p n l o k :
  sim_bytes m p n = l -> 0 <= o -> 0 <= k -> o + k <= n -> sim_bytes m (p + o) k = part l o k.
Proof.
  intros <- Ho Hk Hn. apply list_eq. intros i. rewrite part_lookup by lia. unfold sim_bytes.
  rewrite !list_lookup_fmap. case_decide.
  - rewrite !lookup_seqZ_lt by lia. simpl. do 2 f_equal. lia.
  - by rewrite lookup_seqZ_ge by lia.
Qed.

Section fields.
Variables (m : Z -> Z) (slot : Z) (c : NvmeCmd).
Hypothesis stored : sim_bytes m slot 64 = cmd_bytes c.

(** The fields of a command to transfer blocks are found where it was put. *)
Lemma sim_fields lba n :
  opcode c = NVME_OP_READ \/ opcode c = NVME_OP_WRITE -> 0 <= nsid c < 2 ^ 32 -> 0 <= prp1 c < 2 ^ 64 ->
  0 <= prp2 c < 2 ^ 64 -> 0 <= lba < 2 ^ 64 -> 0 <= n < 2 ^ 16 -> body c = ReadWrite lba n ->
  m slot = opcode c /\ sim_int m (slot + 4) 4 = nsid c /\ sim_int m (slot + 24) 8 = prp1 c /\
  sim_int m (slot + 32) 8 = prp2 c /\ sim_int m (slot + 40) 8 = lba /\ sim_int m (slot + 48) 2 = n.
Proof.
  intros Hop Hns H1 H2 Hl Hn Hb.
  assert (forall o k v, sim_bytes m (slot + o) (Z.of_nat k) = int_bytes k v -> 0 <= v < 256 ^ Z.of_nat k ->
    sim_int m (slot + o) (Z.of_nat k) = v) as Hint.
  { intros o k v E Hv. unfold sim_int. rewrite E. by apply int_of_int_bytes. }
  assert (forall o k v, 0 <= o -> 0 <= k -> o + k <= 64 -> part (cmd_bytes c) o k = v -> sim_bytes m (slot + o) k = v) as Hpart.
  { intros o k v Ho Hk Hok <-. by apply (sim_bytes_part m slot 64). }
  split.
  { pose proof (Hpart 0 1 [opcode c mod 256] ltac:(lia) ltac:(lia) ltac:(lia)) as E. specialize (E eq_refl).
    unfold sim_bytes in E. simpl in E. injection E as E. rewrite !Z.add_0_r in E. rewrite E. apply Z.mod_small.
    destruct Hop as [-> | ->]; done. }
  split; [apply (Hint 4 4%nat); [by apply Hpart|simpl; lia]|].
  split; [apply (Hint 24 8%nat); [by apply Hpart|simpl; lia]|].
  split; [apply (Hint 32 8%nat); [by apply Hpart|simpl; lia]|].
  split; [apply (Hint 40 8%nat); [apply Hpart; [lia..|]; unfold cmd_bytes; rewrite Hb; reflexivity|simpl; lia]|].
  apply (Hint 48 2%nat); [apply Hpart; [lia..|]; unfold cmd_bytes; rewrite Hb; reflexivity|simpl; lia].
Qed.
End fields.

Lemma sim_tail_doorbell qid : 0 <= qid < 2 ^ 16 -> tail_doorbell 0 qid = 0x1000 + 8 * qid.
Proof.
  intros. unfold tail_doorbell, NVME_QUEUE_TAIL_DOORBELL_BASE. change (Z.shiftl 4 0) with 4.
  rewrite wraps_small by lia. lia.
Qed.

Lemma sim_head_doorbell qid t w : sim_write (head_doorbell 0 qid) t w = w.
Proof.
  unfold sim_write. assert ((head_doorbell 0 qid - 0x1000) mod 8 = 4) as ->.
  { unfold head_doorbell, NVME_QUEUE_TAIL_DOORBELL_BASE. change (Z.shiftl 4 0) with 4. unfold wraps.
    set (x := 0x1000 + (2 * qid + 1) * 4 + 2 ^ (32 - 1)). pose proof (Z.div_mod x (2 ^ 32) ltac:(done)) as E.
    replace (x mod 2 ^ 32 - 2 ^ (32 - 1) - 0x1000) with (4 + (qid - 2 ^ 29 * (x / 2 ^ 32)) * 8) by (unfold x in *; lia).
    rewrite Z.mod_add by done. done. }
  by rewrite andb_false_r.
Qed.

Lemma sim_find_some m slot len i :
  (forall i j, 0 <= i < len -> 0 <= j < len -> sim_address m slot len i = sim_address m slot len j -> i = j) ->
  0 <= i < len -> sim_find m slot len (sim_address m slot len i) = Some i.
Proof.
  intros Hinj Hi. unfold sim_find. destruct (find _ _) as [j|] eqn:E.
  - apply find_some in E as [Hj%list_elem_of_In%elem_of_seqZ E%Z.eqb_eq]. f_equal. apply Hinj; [lia..|done].
  - assert (In i (seqZ 0 len)) as Hin by (apply list_elem_of_In, elem_of_seqZ; lia).
    pose proof (find_none _ _ E i Hin) as Hn. cbv beta in Hn. by rewrite Z.eqb_refl in Hn.
Qed.

Lemma sim_find_none m slot len a :
  (forall i, 0 <= i < len -> sim_address m slot len i <> a) -> sim_find m slot len a = None.
Proof.
  intros Ha. unfold sim_find. destruct (find _ _) as [j|] eqn:E; [|done].
  apply find_some in E as [Hj%list_elem_of_In%elem_of_seqZ E%Z.eqb_eq]. by destruct (Ha j ltac:(lia)).
Qed.

Lemma sim_done_flags entry m md vw : entry_flags (mk_Sim (sim_done entry m) md vw) entry = 1.
Proof.
  unfold entry_flags, mem_bytes, sim_done. change (seqZ 0 2) with [0; 1]. cbn -[Z.add].
  destruct (Z.eqb_spec (entry + 14 + 0) (entry + 14)); [|lia].
  destruct (Z.eqb_spec (entry + 14 + 1) (entry + 14)); [lia|].
  by destruct (Z.eqb_spec (entry + 14 + 1) (entry + 15)); [|lia].
Qed.

Lemma sim_done_out entry m a : ~ inside entry 16 a -> sim_done entry m a = m a.
Proof.
  intros Ho. unfold sim_done, inside in *.
  destruct (Z.eqb_spec a (entry + 14)); [lia|]. by destruct (Z.eqb_spec a (entry + 15)); [lia|].
Qed.

(** What [sim_run] does, for a command the contract speaks of. *)
Lemma sim_run_does w v c lba len :
  sim_bytes (sim_mem w) (sq_base v + 64 * taken v) 64 = cmd_bytes c ->
  well_formed w v c 512 lba len (zlen (sim_media w (nsid c))) ->
  0 <= taken v < entries v ->
  let slot := cq_base v + 16 * taken v in
  let w' := sim_run v w in
  entry_flags w' slot = 1 /\
  (forall a, ~ inside slot 16 a ->
     (opcode c = NVME_OP_READ -> forall i, 0 <= i < len -> data_address w c len i <> a) ->
     sim_mem w' a = sim_mem w a) /\
  if opcode c =? NVME_OP_READ
  then data_bytes w w' c len = part (sim_media w (nsid c)) (lba * 512) len /\ sim_media w' = sim_media w
  else sim_media w' (nsid c) = patch (sim_media w (nsid c)) (lba * 512) (data_bytes w w c len) /\
       forall ns, ns <> nsid c -> sim_media w' ns = sim_media w ns.
Proof.
  intros Hc [] Ht slot w'. destruct wf_len as (n&Hn&Hbody&->).
  destruct (sim_fields _ _ _ Hc lba n) as (F1&F2&F3&F4&F5&F6); try done.
  assert (forall i, sim_address (sim_mem w) (sq_base v + 64 * taken v) ((n + 1) * 512) i = data_address w c ((n + 1) * 512) i) as Ea
    by (intros i; unfold sim_address; by rewrite F3, F4).
  assert (forall i, 0 <= i < (n + 1) * 512 -> ~ inside slot 16 (data_address w c ((n + 1) * 512) i)) as Hout.
  { intros i Hi Hin. apply (wf_queue i Hi). unfold inside, slot in *. lia. }
  unfold w', sim_run. rewrite F1, F2, F5, F6. fold slot.
  destruct (Z.eqb_spec (opcode c) NVME_OP_READ) as [Er|Er]; cbn [sim_mem sim_media].
  - split; [apply sim_done_flags|]. split.
    + intros a Ha Hd. rewrite sim_done_out by done.
      rewrite sim_find_none; [done|]. intros i Hi. rewrite Ea. by apply Hd.
    + split; [|done]. set (data := part _ _ _).
      assert (length data = Z.to_nat ((n + 1) * 512)) as El by (unfold data; apply length_part; lia).
      apply list_eq. intros i. unfold data_bytes. rewrite list_lookup_fmap.
      destruct (decide (Z.of_nat i < (n + 1) * 512)) as [Hi|Hi].
      * rewrite lookup_seqZ_lt by lia. cbn. rewrite sim_done_out by (apply Hout; lia).
        rewrite <- Ea, sim_find_some; [|intros j k Hj Hk; rewrite !Ea; by apply wf_apart|lia].
        replace (Z.to_nat (0 + Z.of_nat i)) with i by lia. symmetry. apply list_lookup_lookup_total_lt. lia.
      * rewrite lookup_seqZ_ge by lia. symmetry. apply lookup_ge_None_2. lia.
  - split; [apply sim_done_flags|]. split.
    + intros a Ha Hd. by apply sim_done_out.
    + rewrite Z.eqb_refl. split.
      * f_equal. apply map_ext. intros i. by rewrite Ea.
      * intros ns Hns. by destruct (Z.eqb_spec ns (nsid c)).
Qed.

#[global] Program Instance sim_contract : NvmeContract Sim := {
  media w := sim_media w;
  block_bytes _ := 512;
  view := sim_queue;
  hw_stride := 0;
  response_time := 1
}.
Next Obligation. done. Qed.
Next Obligation. done. Qed.
Next Obligation. done. Qed.
Next Obligation.
  intros w qid v c block lba len Hv H0 Ht Hc -> Hw slot rung.
  assert (0 <= qid < 2 ^ 16) as Hq.
  { unfold sim_queue in Hv. destruct (Z.leb_spec 0 qid), (Z.ltb_spec qid (2 ^ 16)); done. }
  assert (rung = sim_advance qid v (sim_run v w)) as ->.
  { unfold rung. simpl. unfold sim_write. rewrite sim_tail_doorbell by done.
    replace (0x1000 + 8 * qid - 0x1000) with (qid * 8) by lia. rewrite Z.mod_mul, Z.div_mul by done.
    destruct (Z.leb_spec 0x1000 (0x1000 + 8 * qid)); [|lia]. change (0 =? 0) with true. cbn [andb].
    rewrite Hv. by rewrite Z.eqb_refl. }
  destruct (sim_run_does w v c lba len Hc Hw ltac:(lia)) as (D1&D2&D3). fold slot in D1, D2.
  exists O. split; [lia|]. split; [lia|]. 
  change (Nat.iter 0 (@pause Sim sim_hardware) (sim_advance qid v (sim_run v w))) with (sim_advance qid v (sim_run v w)).
  cbv zeta.
  split; [exact D1|]. split.
  { unfold sim_queue, sim_advance. cbn [sim_view]. rewrite Z.eqb_refl.
    destruct (Z.leb_spec 0 qid), (Z.ltb_spec qid (2 ^ 16)); (done || lia). }
  split; [exact D2|exact D3].
Qed.
Next Obligation.
  intros w qid t w'. unfold w'. simpl. by rewrite sim_head_doorbell.
Qed.

(** * The driver on it *)

(** A namespace of 64 blocks, numbered by their bytes; a device whose queues are
    fresh; a controller with it, which moves 16 KiB by command. *)
Definition sample_media : list Z := concat (map (replicate 512) (seqZ 0 64)).
Definition sample_view : QueueView := mk_View 0x10000 0x20000 256 0.
Definition sample_sim : Sim :=
  mk_Sim (fun _ => 0) (fun ns => if ns =? 1 then sample_media else []) (fun q => if q =? 1 then Some sample_view else None).

Definition sample_device : NvmeDevice :=
  mk_Device (mk_Queues (mk_Queue (0x10000 + USERSPACE_VIRT_BASE) 0x10000 64 false 0 4096)
                       (mk_Queue (0x20000 + USERSPACE_VIRT_BASE) 0x20000 256 true 0 4096)
                       1 0 1 (0x100000 + USERSPACE_VIRT_BASE)) 1 0 512 512 0.
Definition sample_controller : NvmeController :=
  mk_Controller 63 0 0 63 16384 0 no_queues [sample_device].

Lemma length_sample_media : zlen sample_media = 32768.
Proof. vm_compute. reflexivity. Qed.

Lemma sample_device_ready : ready 63 sample_device sample_sim 62.
Proof.
  constructor; try done; try (vm_compute; repeat split; discriminate).
  split; [|split]; unfold apart; simpl; lia.
Qed.

Lemma sample_fits : fits 63 sample_device 2 40 0x400000 sample_sim.
Proof.
  constructor; [by exists 9|done|done|done|done|..].
  - change (2 * 512 + 40 * 512 <= zlen sample_media). rewrite length_sample_media. done.
  - intros a Ha [Hq|[Hq|Hq]]; unfold inside in *; simpl in *; unfold USERSPACE_VIRT_BASE in *; lia.
Qed.

Lemma nvme_transfer_moves_witness :
  succeeds (read_write_ptr 1 sample_controller false 2 40 (0x400000 + USERSPACE_VIRT_BASE) 20480) (sample_device, sample_sim)
    (fun _ '(d', w') => transfer_post 63 sample_device sample_sim (62 - 2) false 2 (40 * 512) 0x400000 d' w').
Proof.
  apply (nvme_transfer_moves (W := Sim) (H0 := sim_contract) 1 (le_n 1) sample_controller 63 sample_device sample_sim 62 false 2 40 0x400000 20480);
    [done|done|exact sample_device_ready|exact sample_fits|done|done|done|done].
Defined.

Lemma nvme_serves_requests_witness :
  succeeds (call_received 1 (mk_Connection 0 0) (ReadSectors (2 * 1) (40 * 512) 0x400000 0)) (sample_controller, sample_sim)
    (fun r '(c', w') =>
       r = ReadDone (40 * 512) 0x400000 /\
       transferred 63 sample_device false 2 (40 * 512) 0x400000 sample_sim w' /\
       exists d', aget (devices c') 0 = Some d' /\ ready 63 d' w' 60).
Proof.
  apply (nvme_serves_requests (W := Sim) (H0 := sim_contract) 1 (le_n 1) (mk_Connection 0 0) sample_controller 63 sample_device sample_sim 62
           false 2 40 0x400000 0x400000 4096 0);
    [done|done|done|done|done|done|done|done|exact sample_device_ready|exact sample_fits|done|done|done|done].
Defined.

(** The driver run on the controller: block 5 is in the buffer. *)
Example nvme_read_run :
  match read_write_ptr 1 sample_controller false 5 1 (0x400000 + USERSPACE_VIRT_BASE) 512 (sample_device, sample_sim) with
  | Ret (Value _, (d, w)) => (sim_mem w 0x400000, sim_mem w 0x4001ff, queues_cid (io_queues d)) = (5, 5, 1)
  | _ => False
  end.
Proof. vm_compute. reflexivity. Qed.
