(* ===== verification/Walloc.v ===== *)
(** walloc/liballoc.cpp, the small heap: each block is a run of pages of its own,
    with a node before it.

    The memory holds the nodes and the blocks; pages are mapped when the page
    allocator hands them out and unmapped when it takes them back, so that a use of
    a freed block traps. [fresh a n] is what the [n] pages at [a] hold when they are
    handed out. The lock is held for each call of the page allocator. *)

From stdpp Require Import gmap.
From S2P Require Import Prelude Range CMem Bytes Liballoc.

Definition ALLOC_PAGE_SIZE : Z := 4096.
Definition ALLOC_MAGIC : Z := 0xDEADEEDEAD.
Definition sizeof_node : Z := 32.

(** * Bytes of memory *)

(** Bytes stored or read one after the other. *)
Fixpoint stores (m : mem) (a : Z) (l : list Z) : ctl mem :=
  match l with
  | [] => Ret m
  | b :: l => m ← store m a b; stores m (a + 1) l
  end.

Fixpoint loads (m : mem) (a : Z) (n : nat) : ctl (list Z) :=
  match n with
  | O => Ret []
  | S n => b ← load m a; l ← loads m (a + 1) n; Ret (b :: l)
  end.

Definition load_word (m : mem) (a : Z) : ctl Z := l ← loads m a 8; Ret (int_of_bytes l).
Definition store_word (m : mem) (a v : Z) : ctl mem := stores m a (int_bytes 8 v).

(** * WingosAllocNode: magic, allocated_size, page_count *)

Definition node_size (m : mem) (n : Z) : ctl Z := load_word m (n + 8).
Definition node_pages (m : mem) (n : Z) : ctl Z := load_word m (n + 16).

(** * The heap *)

Section walloc.
Context {W : Type} `{PageAllocator W}.
Variable fresh : Z -> Z -> list Z.

Record wheap := mk_wheap { wmem : mem; pages : W }.

Definition set_mem (h : wheap) (m : mem) : wheap := mk_wheap m (pages h).

Definition map_pages (a n : Z) (m : mem) : mem := block a (fresh a n) ∪ m.
Definition unmap_pages (a n : Z) (m : mem) : mem :=
  filter (fun '(x, _) => outside a (ALLOC_PAGE_SIZE * n) x) m.

(** [liballoc_alloc] and [liballoc_free]. *)
Definition liballoc_alloc (n : Z) (h : wheap) : option Z * wheap :=
  match page_alloc n (pages h) with
  | (Some a, w) => (Some a, mk_wheap (map_pages a n (wmem h)) w)
  | (None, w) => (None, mk_wheap (wmem h) w)
  end.
Definition liballoc_free (a n : Z) (h : wheap) : wheap :=
  mk_wheap (unmap_pages a n (wmem h)) (page_free a n (pages h)).

Definition total_len (len : Z) : Z := alignUp (u64 (len + sizeof_node)) ALLOC_PAGE_SIZE.

(** The result of [liballoc_alloc] is used without a look: a null pointer traps. *)
Definition kmalloc (len : Z) (h : wheap) : ctl (Z * wheap) :=
  let tlen := total_len len in
  let '(r, h) := liballoc_alloc (tlen / ALLOC_PAGE_SIZE) h in
  n ← deref r;
  m ← store_word (wmem h) (n + 8) (u64 (len + sizeof_node));
  m ← store_word m (n + 16) (tlen / ALLOC_PAGE_SIZE);
  m ← store_word m n ALLOC_MAGIC;
  Ret (n + sizeof_node, set_mem h m).

Definition kfree (ptr : Z) (h : wheap) : ctl wheap :=
  if ptr =? 0 then Ret h
  else
    let n := ptr - sizeof_node in
    magic ← load_word (wmem h) n;
    if negb (magic =? ALLOC_MAGIC) then Trap
    else
      count ← node_pages (wmem h) n;
      Ret (liballoc_free n count h).

(** [for (i = 0; i < n; i++) targ[i] = from[i]]. *)
Fixpoint copy_loop (n : nat) (targ from : Z) (m : mem) : ctl mem :=
  match n with
  | O => Ret m
  | S n => b ← load m from; m ← store m targ b; copy_loop n (targ + 1) (from + 1) m
  end.

Definition krealloc (ptr len : Z) (h : wheap) : ctl (Z * wheap) :=
  if ptr =? 0 then kmalloc len h
  else
    let n := ptr - sizeof_node in
    let need := u64 (len + sizeof_node) in
    size ← node_size (wmem h) n;
    if need <? size then m ← store_word (wmem h) (n + 8) need; Ret (ptr, set_mem h m)
    else
      count ← node_pages (wmem h) n;
      if need <? u64 (count * ALLOC_PAGE_SIZE) then m ← store_word (wmem h) (n + 8) need; Ret (ptr, set_mem h m)
      else
        let old_size := u64 (size - sizeof_node) in
        '(res, h) ← kmalloc len h;
        m ← copy_loop (Z.to_nat old_size) res ptr (wmem h);
        h ← kfree ptr (set_mem h m);
        Ret (res, h).

(** [for (i = 0; i < n * size; i++) a[i] = 0]. *)
Fixpoint zero_loop (n : nat) (a : Z) (m : mem) : ctl mem :=
  match n with
  | O => Ret m
  | S n => m ← store m a 0; zero_loop n (a + 1) m
  end.

Definition kcalloc (n size : Z) (h : wheap) : ctl (Z * wheap) :=
  '(a, h) ← kmalloc (u64 (n * size)) h;
  m ← zero_loop (Z.to_nat (u64 (n * size))) a (wmem h);
  Ret (a, set_mem h m).
End walloc.

(** The small heap: what malloc, free, realloc and calloc do to the live blocks and
    to their bytes. *)

From S2P Require Import LiballocSpec.

(** * Bytes of memory *)

Definition mapped (m : mem) (a n : Z) : Prop := forall x, a <= x < a + n -> is_Some (m !! x).

(** [l] is at [a] in [m'], which is else [m]. *)
Definition updated (m : mem) (a : Z) (l : list Z) (m' : mem) : Prop :=
  bytes_at m' a l /\ forall x, outside a (zlen l) x -> m' !! x = m !! x.

Lemma bytes_at_ext m m' a l :
  (forall x, a <= x < a + zlen l -> m' !! x = m !! x) -> bytes_at m a l -> bytes_at m' a l.
Proof.
  intros He. rewrite !bytes_at_lookup. intros Hl i b Hi. pose proof (lookup_lt_Some _ _ _ Hi).
  rewrite He by lia. by apply Hl.
Qed.

Lemma bytes_at_mapped m a l : bytes_at m a l -> mapped m a (zlen l).
Proof.
  rewrite bytes_at_lookup. intros Hl x Hx. destruct (lookup_lt_is_Some_2 l (Z.to_nat (x - a))) as [b Hb]; [lia|].
  exists b. rewrite <- (Hl _ b Hb). f_equal. lia.
Qed.

Lemma updated_mapped m a l m' b n : updated m a l m' -> mapped m b n -> mapped m' b n.
Proof.
  intros [Hl Ho] Hm x Hx. destruct (decide (a <= x < a + zlen l)).
  - by apply (bytes_at_mapped _ _ _ Hl).
  - rewrite Ho by (unfold outside; lia). by apply Hm.
Qed.

Lemma stores_spec l : forall m a,
  Forall byte l -> mapped m a (zlen l) -> exists m', stores m a l = Ret m' /\ updated m a l m'.
Proof.
  induction l as [|b l IH]; intros m a Hb Hm; simpl.
  { exists m. split; [done|]. by split. }
  apply Forall_cons in Hb as [Hb Hl]. destruct (Hm a) as [c Hc]; [simpl; lia|].
  rewrite (store_Some _ _ c) by done. cbn. unfold byte in Hb. rewrite (wrapu_small 8) by lia.
  destruct (IH (<[a := b]> m) (a + 1)) as (m'&E&[U1 U2]); [done| |].
  { intros x Hx. destruct (decide (x = a)) as [->|]; [rewrite lookup_insert_eq; by exists b|].
    rewrite lookup_insert_ne by lia. apply Hm. simpl. lia. }
  exists m'. split; [done|]. split.
  - split; [|done]. rewrite U2 by (unfold outside; lia). apply lookup_insert_eq.
  - intros x Hx. unfold outside in *. simpl in Hx. rewrite U2 by lia. by apply lookup_insert_ne; lia.
Qed.

Lemma loads_spec m l : forall a, bytes_at m a l -> loads m a (length l) = Ret l.
Proof.
  induction l as [|b l IH]; intros a Hl; simpl; [done|]. destruct Hl as [Hb Hl].
  rewrite (load_Some _ _ b) by done. cbn. by rewrite IH.
Qed.

Lemma load_word_at m a v : bytes_at m a (int_bytes 8 v) -> 0 <= v < 2 ^ 64 -> load_word m a = Ret v.
Proof.
  intros Hm Hv. unfold load_word. rewrite <- (length_int_bytes 8 v), loads_spec by done.
  change (Ret (int_of_bytes (int_bytes 8 v)) = Ret v).
  by rewrite int_of_int_bytes.
Qed.

Lemma store_word_at m a v :
  mapped m a 8 -> exists m', store_word m a v = Ret m' /\ updated m a (int_bytes 8 v) m'.
Proof.
  intros Hm. apply stores_spec; [apply int_bytes_byte|]. by rewrite length_int_bytes.
Qed.

(** * Live blocks *)

Definition node_bytes (size n : Z) : list Z := int_bytes 8 ALLOC_MAGIC ++ int_bytes 8 size ++ int_bytes 8 n.

(** A block of [len] bytes in the [n] pages at [a], after its node. *)
Record live (m : mem) (a n len : Z) : Prop := {
  l_pages : 0 < n /\ 0 < a /\ a + 4096 * n < 2 ^ 64;
  l_len : 0 <= len /\ len + sizeof_node <= 4096 * n;
  l_node : bytes_at m a (node_bytes (len + sizeof_node) n);
  l_mapped : mapped m a (4096 * n)
}.

Lemma length_node_bytes size n : zlen (node_bytes size n) = 24.
Proof. unfold node_bytes. by rewrite !length_app, !length_int_bytes. Qed.

Lemma live_ext m m' a n len :
  (forall x, a <= x < a + 4096 * n -> m' !! x = m !! x) -> live m a n len -> live m' a n len.
Proof.
  intros He []. split; [done|done| |].
  - eapply bytes_at_ext; [|done]. rewrite length_node_bytes. intros x Hx. apply He. unfold sizeof_node in *. lia.
  - intros x Hx. rewrite He by done. by apply l_mapped0.
Qed.

Lemma live_words m a n len : live m a n len ->
  load_word m a = Ret ALLOC_MAGIC /\ node_size m a = Ret (len + sizeof_node) /\ node_pages m a = Ret n.
Proof.
  intros []. unfold node_bytes in l_node0. rewrite !bytes_at_app, !length_int_bytes in l_node0.
  destruct l_node0 as (H1&H2&H3). unfold node_size, node_pages, sizeof_node in *.
  replace (a + Z.of_nat 8 + Z.of_nat 8) with (a + 16) in H3 by lia.
  split; [by apply load_word_at|]. split; apply load_word_at; first [done|lia].
Qed.

(** A node written field by field: size, pages, then magic. *)
Lemma node_written m a size n :
  mapped m a 24 ->
  exists m1 m2 m3, store_word m (a + 8) size = Ret m1 /\ store_word m1 (a + 16) n = Ret m2 /\
    store_word m2 a ALLOC_MAGIC = Ret m3 /\ updated m a (node_bytes size n) m3.
Proof.
  intros Hm.
  assert (forall m' b, mapped m' a 24 -> a <= b <= a + 16 -> mapped m' b 8) as Hsub
    by (intros m' b Hm' Hb x Hx; apply Hm'; lia).
  destruct (store_word_at m (a + 8) size) as (m1&E1&U1); [apply Hsub; [done|lia]|].
  pose proof (updated_mapped _ _ _ _ _ _ U1 Hm) as Hm1.
  destruct (store_word_at m1 (a + 16) n) as (m2&E2&U2); [apply Hsub; [done|lia]|].
  pose proof (updated_mapped _ _ _ _ _ _ U2 Hm1) as Hm2.
  destruct (store_word_at m2 a ALLOC_MAGIC) as (m3&E3&U3); [apply Hsub; [done|lia]|].
  exists m1, m2, m3. split; [done|]. split; [done|]. split; [done|].
  destruct U1 as [A1 B1], U2 as [A2 B2], U3 as [A3 B3]. rewrite length_int_bytes in B1, B2, B3.
  unfold outside in *. split.
  - unfold node_bytes. rewrite !bytes_at_app, !length_int_bytes. split; [done|]. split.
    + eapply bytes_at_ext; [|exact A1]. rewrite length_int_bytes. intros x Hx. rewrite B3, B2 by lia. done.
    + replace (a + Z.of_nat 8 + Z.of_nat 8) with (a + 16) by lia.
      eapply bytes_at_ext; [|exact A2]. rewrite length_int_bytes. intros x Hx. by rewrite B3 by lia.
  - rewrite length_node_bytes. intros x Hx. unfold outside in Hx. by rewrite B3, B2, B1 by lia.
Qed.

Section spec.
Context {W : Type} `{PageAllocator W}.
Variable fresh : Z -> Z -> list Z.
Hypothesis fresh_length : forall a n, 0 < n -> zlen (fresh a n) = 4096 * n.
Implicit Types h : wheap (W := W).

(** * Pages *)

Lemma map_pages_in a n m : 0 < n -> mapped (map_pages fresh a n m) a (4096 * n).
Proof.
  intros Hn x Hx. unfold map_pages. rewrite lookup_union_is_Some. left.
  pose proof (bytes_at_block a (fresh a n)) as Hb. apply bytes_at_mapped in Hb.
  apply Hb. by rewrite fresh_length.
Qed.

Lemma map_pages_out a n m x : 0 < n -> outside a (4096 * n) x -> map_pages fresh a n m !! x = m !! x.
Proof.
  intros Hn Hx. unfold map_pages. apply lookup_union_r, block_outside. by rewrite fresh_length.
Qed.

Lemma unmap_pages_lookup a n m x :
  unmap_pages a n m !! x = if decide (a <= x < a + 4096 * n) then None else m !! x.
Proof.
  unfold unmap_pages, ALLOC_PAGE_SIZE. case_decide as Hx.
  - apply map_lookup_filter_None. right. intros b _ Ho. unfold outside in Ho. lia.
  - destruct (m !! x) as [b|] eqn:E.
    + apply map_lookup_filter_Some. split; [done|]. unfold outside. lia.
    + apply map_lookup_filter_None. by left.
Qed.

(** * The heap *)

Definition span (r : Z * Z) : Z * Z := (fst r, 4096 * snd r).

(** Every run of pages that is handed out has a live block, and the runs are apart. *)
Definition wheap_wf h : Prop :=
  (forall a n, (a, n) ∈ regions (pages h) -> exists len, live (wmem h) a n len) /\
  apart_all (span <$> regions (pages h)).

Lemma wf_apart h a n b k :
  wheap_wf h -> (a, n) ∈ regions (pages h) -> (b, k) ∈ regions (pages h) -> (a, n) <> (b, k) ->
  apart (span (a, n)) (span (b, k)).
Proof.
  intros [_ Ha] H1 H2 Hne. apply (apart_all_elem (span <$> regions (pages h))); [done|by apply list_elem_of_fmap_2..|].
  unfold span. simpl. intros [= -> E]. apply Hne. f_equal. lia.
Qed.

(** The pages of a request: enough for the block and its node. *)
Lemma total_len_pages len :
  0 <= len -> len + sizeof_node + 4096 <= 2 ^ 64 ->
  let n := total_len len / 4096 in 0 < n /\ total_len len = 4096 * n /\ len + sizeof_node <= 4096 * n.
Proof.
  intros Hl Hb n. unfold n, total_len, sizeof_node, ALLOC_PAGE_SIZE in *. rewrite wrapu_small by lia.
  change 4096 with (2 ^ 12). rewrite alignUp_pow2 by lia. rewrite Z.div_mul by done.
  pose proof (Z.div_mod (len + 32 + 2 ^ 12 - 1) (2 ^ 12) ltac:(done)).
  pose proof (Z.mod_pos_bound (len + 32 + 2 ^ 12 - 1) (2 ^ 12) ltac:(done)). lia.
Qed.

(** [kmalloc]: a block in pages of its own, the others as they were; a trap when the
    page allocator has none. *)
Lemma kmalloc_runs h len :
  wheap_wf h -> 0 <= len -> len + sizeof_node + 4096 <= 2 ^ 64 ->
  let n := total_len len / 4096 in
  match page_alloc n (pages h) with
  | (None, _) => kmalloc fresh len h = Trap
  | (Some a, w) => exists h', kmalloc fresh len h = Ret (a + sizeof_node, h') /\ wheap_wf h' /\
      pages h' = w /\ live (wmem h') a n len /\ regions w = (a, n) :: regions (pages h) /\
      (forall b k, (b, k) ∈ regions (pages h) -> apart (span (a, n)) (span (b, k))) /\
      forall x, outside a (4096 * n) x -> wmem h' !! x = wmem h !! x
  end.
Proof.
  intros [Hwf Hapart] Hl Hb n. destruct (total_len_pages len Hl Hb) as (Hn&Et&Hfit). fold n in Hn, Et, Hfit.
  unfold kmalloc, liballoc_alloc. change ALLOC_PAGE_SIZE with 4096. fold n.
  destruct (page_alloc n (pages h)) as [[a|] w] eqn:E; [|done].
  destruct (page_alloc_Some n (pages h) a w Hn E) as (Ha1&Ha2&Er&Hd).
  unfold mbind, ctl_bind, deref. cbn [wmem].
  destruct (node_written (map_pages fresh a n (wmem h)) a (u64 (len + sizeof_node)) n) as (m1&m2&m3&->&->&->&U).
  { intros x Hx. apply map_pages_in; [done|]. unfold sizeof_node in *. lia. }
  rewrite wrapu_small in U by (unfold sizeof_node in *; lia).
  eexists. split; [done|]. cbn [pages wmem set_mem].
  assert (live m3 a n len) as Hlive.
  { split; [done|done|apply U|]. apply (updated_mapped _ _ _ _ _ _ U). by apply map_pages_in. }
  assert (forall x, outside a (4096 * n) x -> m3 !! x = wmem h !! x) as Hout.
  { intros x Hx. destruct U as [_ U]. rewrite U, map_pages_out; try done.
    rewrite length_node_bytes. unfold outside, sizeof_node in *. lia. }
  assert (forall b k, (b, k) ∈ regions (pages h) -> apart (span (a, n)) (span (b, k))) as Hap.
  { intros b k Hin. unfold apart, span. simpl. specialize (Hd b k Hin). lia. }
  split; [|by split_and!].
  split; cbn [pages wmem set_mem]; rewrite Er.
  - intros b k [[= -> ->]|Hin]%elem_of_cons; [by exists len|]. destruct (Hwf b k Hin) as [len' Hlv]. exists len'.
    apply (live_ext (wmem h)); [|done]. intros x Hx. apply Hout. specialize (Hap b k Hin).
    unfold apart, span, outside in *. simpl in Hap. lia.
  - simpl. split; [|done]. apply Forall_fmap, Forall_forall. intros [b k] Hin. by apply Hap.
Qed.

(** [kfree]: the pages are given back, and the block is not mapped any more. *)
Lemma kfree_runs h a n len :
  wheap_wf h -> (a, n) ∈ regions (pages h) -> live (wmem h) a n len ->
  exists h', kfree (a + sizeof_node) h = Ret h' /\ wheap_wf h' /\
    regions (pages h) ≡ₚ (a, n) :: regions (pages h') /\ wmem h' = unmap_pages a n (wmem h) /\
    (forall b k, (b, k) ∈ regions (pages h') -> apart (span (a, n)) (span (b, k))).
Proof.
  intros [Hwf Hapart] Hin Hl. destruct (live_words _ _ _ _ Hl) as (E1&E2&E3). pose proof Hl as [].
  unfold kfree. destruct (Z.eqb_spec (a + sizeof_node) 0); [unfold sizeof_node in *; lia|].
  replace (a + sizeof_node - sizeof_node) with a by lia. rewrite E1, E3. cbn.
  pose proof (page_free_regions a n (pages h) Hin) as Hperm.
  eexists. split; [done|]. cbn [wmem pages liballoc_free].
  assert (apart_all (span <$> ((a, n) :: regions (page_free a n (pages h))))) as [Hd1 Hd2].
  { eapply apart_all_perm; [|done]. by rewrite <- Hperm. }
  assert (forall b k, (b, k) ∈ regions (page_free a n (pages h)) -> apart (span (a, n)) (span (b, k))) as Hd.
  { intros b k Hbk. rewrite Forall_fmap, Forall_forall in Hd1. by apply (Hd1 (b, k)). }
  split; [|by split_and!]. split; [|done]. cbn [wmem pages liballoc_free].
  intros b k Hbk. destruct (Hwf b k) as [len' Hlv]; [rewrite Hperm; by right|]. exists len'.
  apply (live_ext (wmem h)); [|done]. intros x Hx. rewrite unmap_pages_lookup, decide_False; [done|].
  specialize (Hd b k Hbk). unfold apart, span in Hd. simpl in Hd. lia.
Qed.

(** * Loops over the bytes of blocks *)

Lemma copy_loop_runs l : forall m targ from,
  Forall byte l -> bytes_at m from l -> mapped m targ (zlen l) ->
  (targ + zlen l <= from \/ from + zlen l <= targ) ->
  exists m', copy_loop (length l) targ from m = Ret m' /\ updated m targ l m'.
Proof.
  induction l as [|b l IH]; intros m targ from Hbs Hf Hm Hd; simpl.
  { exists m. split; [done|]. by split. }
  apply Forall_cons in Hbs as [Hb Hbs]. destruct Hf as [Hf Hfl]. destruct (Hm targ) as [c Hc]; [simpl; lia|].
  rewrite (load_Some _ _ b) by done. unfold mbind, ctl_bind. rewrite (store_Some _ _ c) by done.
  unfold byte in Hb. rewrite (wrapu_small 8) by lia. simpl in Hd.
  destruct (IH (<[targ := b]> m) (targ + 1) (from + 1)) as (m'&E&[U1 U2]); [done| | |lia|].
  - apply bytes_at_insert; [unfold outside; lia|done].
  - intros x Hx. destruct (decide (x = targ)) as [->|]; [rewrite lookup_insert_eq; by exists b|].
    rewrite lookup_insert_ne by lia. apply Hm. simpl. lia.
  - exists m'. split; [done|]. split.
    + split; [|done]. rewrite U2 by (unfold outside; lia). apply lookup_insert_eq.
    + intros x Hx. unfold outside in *. simpl in Hx. rewrite U2 by lia. by apply lookup_insert_ne; lia.
Qed.

Lemma zero_loop_stores n : forall a m, zero_loop n a m = stores m a (replicate n 0).
Proof. induction n as [|n IH]; intros a m; simpl; [done|]. destruct (store m a 0); simpl; [apply IH|done..]. Qed.

(** * The operations *)

(** malloc then free: the block is in pages of its own, writable from end to end;
    the others keep their bytes; after free the pages are back, and a second free of
    the block traps. *)
Theorem walloc_malloc_free h len :
  wheap_wf h -> 0 <= len -> len + sizeof_node + 4096 <= 2 ^ 64 ->
  match page_alloc (total_len len / 4096) (pages h) with
  | (None, _) => kmalloc fresh len h = Trap
  | (Some a, _) => exists h' h'',
      kmalloc fresh len h = Ret (a + sizeof_node, h') /\ wheap_wf h' /\
      mapped (wmem h') (a + sizeof_node) len /\
      (forall b k, (b, k) ∈ regions (pages h) -> (b, k) ∈ regions (pages h') /\
         forall x, b <= x < b + 4096 * k -> wmem h' !! x = wmem h !! x) /\
      kfree (a + sizeof_node) h' = Ret h'' /\ wheap_wf h'' /\
      regions (pages h'') ≡ₚ regions (pages h) /\ kfree (a + sizeof_node) h'' = Trap
  end.
Proof.
  intros Hwf Hl Hb. pose proof (kmalloc_runs h len Hwf Hl Hb) as Hm. cbv zeta in Hm.
  set (n := total_len len / 4096) in *. destruct (page_alloc n (pages h)) as [[a|] w]; [|done].
  destruct Hm as (h'&E&Hwf'&<-&Hlive&Er&Hap&Hout).
  destruct (kfree_runs h' a n len) as (h''&E''&Hwf''&Hperm&Em&_); [done|rewrite Er; by left|done|].
  exists h', h''. pose proof Hlive as []. split; [done|]. split; [done|]. split.
  { intros x Hx. apply l_mapped0. unfold sizeof_node in *. lia. }
  split.
  { intros b k Hin. split; [rewrite Er; by right|]. intros x Hx. apply Hout.
    specialize (Hap b k Hin). unfold apart, span, outside in *. simpl in Hap. lia. }
  split; [done|]. split; [done|]. split.
  { rewrite Er in Hperm. symmetry. exact (Permutation_cons_inv Hperm). }
  unfold kfree. destruct (Z.eqb_spec (a + sizeof_node) 0); [unfold sizeof_node in *; lia|].
  replace (a + sizeof_node - sizeof_node) with a by lia. rewrite Em.
  unfold load_word. cbn [loads].
  assert (load (unmap_pages a n (wmem h')) a = Trap) as ->; [|reflexivity].
  unfold load. by rewrite unmap_pages_lookup, decide_True by lia.
Qed.

(** A size written in the node of a block. *)
Lemma resize_runs h a n len len' :
  wheap_wf h -> (a, n) ∈ regions (pages h) -> live (wmem h) a n len ->
  0 <= len' -> len' + sizeof_node <= 4096 * n ->
  exists m, store_word (wmem h) (a + 8) (len' + sizeof_node) = Ret m /\
    live m a n len' /\ (forall x, outside (a + 8) 8 x -> m !! x = wmem h !! x) /\ wheap_wf (set_mem h m).
Proof.
  intros [Hwf Hap] Hin Hl H0 Hfit. pose proof Hl as [].
  destruct (store_word_at (wmem h) (a + 8) (len' + sizeof_node)) as (m&E&U).
  { intros x Hx. apply l_mapped0. unfold sizeof_node in *. lia. }
  exists m. pose proof U as [U1 U2]. rewrite length_int_bytes in U2.
  unfold node_bytes in l_node0. rewrite !bytes_at_app, !length_int_bytes in l_node0. destruct l_node0 as (N1&N2&N3).
  assert (live m a n len') as Hl'.
  { split; [done|done| |by apply (updated_mapped _ _ _ _ _ _ U)].
    unfold node_bytes. rewrite !bytes_at_app, !length_int_bytes. split; [|split; [done|]].
    - eapply bytes_at_ext; [|exact N1]. rewrite length_int_bytes. intros x Hx. apply U2. unfold outside. lia.
    - eapply bytes_at_ext; [|exact N3]. rewrite length_int_bytes. intros x Hx. apply U2. unfold outside. lia. }
  split; [done|]. split; [done|]. split; [done|]. split; [|done]. cbn [pages wmem set_mem].
  intros b k Hbk. destruct (decide ((b, k) = (a, n))) as [[= -> ->]|Hne]; [by exists len'|].
  destruct (Hwf b k Hbk) as [len2 Hl2]. exists len2. apply (live_ext (wmem h)); [|done].
  intros x Hx. apply U2. pose proof (wf_apart h a n b k (conj Hwf Hap) Hin Hbk (not_eq_sym Hne)) as Hd.
  unfold apart, span, outside, sizeof_node in *. simpl in Hd. lia.
Qed.

(** What [krealloc] leaves of a block: its bytes up to the new length, in a live
    block, and every other block as it was. *)
Definition reallocated h (a : Z) (l : list Z) (len p : Z) h' : Prop :=
  wheap_wf h' /\
  (exists n', (p - sizeof_node, n') ∈ regions (pages h') /\ live (wmem h') (p - sizeof_node) n' len) /\
  bytes_at (wmem h') p (take (Z.to_nat len) l) /\
  forall b k, (b, k) ∈ regions (pages h) -> b <> a ->
    (b, k) ∈ regions (pages h') /\ forall x, b <= x < b + 4096 * k -> wmem h' !! x = wmem h !! x.

Lemma bytes_at_take m a l n : bytes_at m a l -> bytes_at m a (take n l).
Proof.
  rewrite !bytes_at_lookup. intros Hl i b Hi. apply Hl.
  apply lookup_take_Some in Hi. tauto.
Qed.

(** In place. *)
Lemma resized_in_place h a n len len' l m :
  wheap_wf h -> (a, n) ∈ regions (pages h) -> live (wmem h) a n len ->
  bytes_at (wmem h) (a + sizeof_node) l -> live m a n len' ->
  (forall x, outside (a + 8) 8 x -> m !! x = wmem h !! x) -> wheap_wf (set_mem h m) ->
  reallocated h a l len' (a + sizeof_node) (set_mem h m).
Proof.
  intros Hwf Hin Hl Hb Hl' Ho Hwf'. pose proof Hl as []. split; [done|].
  replace (a + sizeof_node - sizeof_node) with a by lia. split; [by exists n|]. split.
  - eapply bytes_at_ext; [|by apply bytes_at_take]. intros x Hx. apply Ho. unfold outside, sizeof_node in *. lia.
  - intros b k Hbk Hne. split; [done|]. intros x Hx. apply Ho.
    pose proof (wf_apart h a n b k Hwf Hin Hbk ltac:(congruence)) as Hd.
    unfold apart, span, outside, sizeof_node in *. simpl in Hd. lia.
Qed.

(** Bytes written inside a block: it stays live, and so do the others. *)
Lemma data_written h a n len l m :
  wheap_wf h -> (a, n) ∈ regions (pages h) -> live (wmem h) a n len -> zlen l <= len ->
  updated (wmem h) (a + sizeof_node) l m ->
  live m a n len /\ wheap_wf (set_mem h m) /\ forall x, outside a (4096 * n) x -> m !! x = wmem h !! x.
Proof.
  intros [Hwf Hap] Hin Hl Hlen U. pose proof Hl as []. pose proof U as [U1 U2]. unfold sizeof_node in *.
  assert (forall x, outside a (4096 * n) x -> m !! x = wmem h !! x) as Ho
    by (intros x Hx; apply U2; unfold outside in *; lia).
  assert (live m a n len) as Hl'.
  { split; [done|done| |by apply (updated_mapped _ _ _ _ _ _ U)].
    eapply bytes_at_ext; [|done]. rewrite length_node_bytes. intros x Hx. apply U2. unfold outside. lia. }
  split; [done|]. split; [|done]. split; [|done]. cbn [pages wmem set_mem]. intros b k Hbk.
  destruct (decide ((b, k) = (a, n))) as [[= -> ->]|Hne]; [by exists len|].
  destruct (Hwf b k Hbk) as [len2 Hl2]. exists len2. apply (live_ext (wmem h)); [|done].
  intros x Hx. apply Ho. pose proof (wf_apart h a n b k (conj Hwf Hap) Hin Hbk (not_eq_sym Hne)) as Hd.
  unfold apart, span, outside in *. simpl in Hd. lia.
Qed.

(** Another block, when all that changes is outside it. *)
Lemma other_live h h' a n b k len :
  apart (span (a, n)) (span (b, k)) -> live (wmem h) b k len ->
  (forall x, outside a (4096 * n) x -> wmem h' !! x = wmem h !! x) -> live (wmem h') b k len.
Proof.
  intros Hd Hl Ho. apply (live_ext (wmem h)); [|done]. intros x Hx. apply Ho.
  unfold apart, span, outside in *. simpl in Hd. lia.
Qed.

(** The block moved to new pages, with its bytes, and the old pages given back. *)
Lemma moved_block h a n k len l :
  wheap_wf h -> (a, n) ∈ regions (pages h) -> live (wmem h) a n k -> bytes_at (wmem h) (a + sizeof_node) l ->
  zlen l = k -> Forall byte l -> k <= len -> len + sizeof_node + 4096 <= 2 ^ 64 ->
  let moved :=
    ('(res, h) ← kmalloc fresh len h;
     m ← copy_loop (length l) res (a + sizeof_node) (wmem h);
     h ← kfree (a + sizeof_node) (set_mem h m); Ret (res, h)) in
  moved = Trap /\ fst (page_alloc (total_len len / 4096) (pages h)) = None \/
  exists p h', moved = Ret (p, h') /\ reallocated h a l len p h'.
Proof.
  intros Hwf Hin Hl Hb Hk Hbytes Hlen Hbound moved.
  pose proof (kmalloc_runs h len Hwf ltac:(pose proof (l_len _ _ _ _ Hl); lia) Hbound) as Hm. cbv zeta in Hm.
  set (n' := total_len len / 4096) in *. destruct (page_alloc n' (pages h)) as [[a'|] w] eqn:Ep.
  2: { left. split; [|done]. unfold moved. by rewrite Hm. }
  right. destruct Hm as (h1&E1&Hwf1&Ew&Hlive1&Er&Hap&Hout). subst w.
  pose proof (Hap a n Hin) as Hd.
  assert (live (wmem h1) a n k) as Hl1 by (by apply (other_live h h1 a' n')).
  unfold apart, span in Hd. simpl in Hd. pose proof Hl as [_ L2 _ _]. pose proof Hlive1 as [_ P2 _ P4]. 
  destruct (copy_loop_runs l (wmem h1) (a' + sizeof_node) (a + sizeof_node)) as (m&E2&U); [done| | | |].
  { eapply bytes_at_ext; [|exact Hb]. intros x Hx. apply Hout. unfold outside, sizeof_node in *. lia. }
  { intros x Hx. apply P4. unfold sizeof_node in *. lia. }
  { unfold sizeof_node in *. lia. }
  destruct (data_written h1 a' n' len l m) as (Hl2&Hwf2&Hm1); [done|rewrite Er; by left|done|lia|done|].
  assert ((a, n) ∈ regions (pages (set_mem h1 m))) as Hin1 by (cbn [pages set_mem]; rewrite Er; by right).
  assert (live (wmem (set_mem h1 m)) a n k) as Hl3 by (by apply (other_live h1 (set_mem h1 m) a' n' a n); [apply Hap|..]).
  destruct (kfree_runs (set_mem h1 m) a n k Hwf2 Hin1 Hl3) as (h2&E3&Hwf3&Hperm&Em&Hap2).
  exists (a' + sizeof_node), h2. split.
  { unfold moved. rewrite E1. unfold mbind, ctl_bind. rewrite E2. by rewrite E3. }
  assert (forall x, ~ a <= x < a + 4096 * n -> wmem h2 !! x = m !! x) as Hm2
    by (intros x Hx; rewrite Em, unmap_pages_lookup, decide_False by done; done).
  assert (forall b j, (b, j) ∈ regions (pages h1) -> b <> a -> (b, j) ∈ regions (pages h2)) as Hkeep.
  { intros b j Hbj Hne. cbn [pages set_mem] in Hperm. rewrite Hperm in Hbj.
    apply elem_of_cons in Hbj as [[= -> ->]|]; done. }
  assert (a' <> a) as Hne by (unfold sizeof_node in *; lia).
  split; [done|]. replace (a' + sizeof_node - sizeof_node) with a' by lia. split; [|split].
  - exists n'. split; [apply Hkeep; [rewrite Er; by left|done]|]. apply (live_ext m); [|done].
    intros x Hx. apply Hm2. lia.
  - rewrite take_ge by lia. destruct U as [U _]. eapply bytes_at_ext; [|exact U].
    intros x Hx. apply Hm2. unfold sizeof_node in *. lia.
  - intros b j Hbj Hba. split; [apply Hkeep; [rewrite Er; by right|done]|]. intros x Hx.
    pose proof (wf_apart h a n b j Hwf Hin Hbj ltac:(congruence)) as Hd1. specialize (Hap b j Hbj).
    unfold apart, span in Hd1, Hap. simpl in Hd1, Hap.
    rewrite Hm2, Hm1, Hout by (unfold outside; lia). done.
Qed.

Lemma bind_Ret {A B} (a : A) (f : A -> ctl B) : (Ret a ≫= f) = f a.
Proof. done. Qed.

(** realloc: the bytes of the block are kept up to the new length, whether the block
    stays in its pages or moves; the other blocks are as they were. It traps only
    when the page allocator has no pages for a block that has to move. *)
Theorem walloc_realloc_keeps h a n k len l :
  wheap_wf h -> (a, n) ∈ regions (pages h) -> live (wmem h) a n k -> bytes_at (wmem h) (a + sizeof_node) l ->
  zlen l = k -> Forall byte l -> 0 <= len -> len + sizeof_node + 4096 <= 2 ^ 64 ->
  krealloc fresh (a + sizeof_node) len h = Trap /\ fst (page_alloc (total_len len / 4096) (pages h)) = None \/
  exists p h', krealloc fresh (a + sizeof_node) len h = Ret (p, h') /\ reallocated h a l len p h'.
Proof.
  intros Hwf Hin Hl Hb Hk Hbytes H0 Hbound. destruct (live_words _ _ _ _ Hl) as (E1&E2&E3).
  pose proof (l_len _ _ _ _ Hl) as L2. pose proof (l_pages _ _ _ _ Hl) as L1. unfold krealloc.
  destruct (Z.eqb_spec (a + sizeof_node) 0); [unfold sizeof_node in *; lia|].
  replace (a + sizeof_node - sizeof_node) with a by lia. rewrite E2, E3, (wrapu_small 64 (len + _)) by (unfold sizeof_node in *; lia).
  rewrite !bind_Ret.
  assert (forall len', 0 <= len' -> len' + sizeof_node <= 4096 * n -> exists m,
    store_word (wmem h) (a + 8) (len' + sizeof_node) = Ret m /\
    reallocated h a l len' (a + sizeof_node) (set_mem h m)) as Hplace.
  { intros len' Hl1 Hl2. destruct (resize_runs h a n k len') as (m&E&Hlm&Ho&Hwm); try done.
    exists m. split; [done|]. by apply (resized_in_place h a n k len'). }
  destruct (Z.ltb_spec (len + sizeof_node) (k + sizeof_node)).
  { destruct (Hplace len) as (m&->&Hr); [lia|lia|]. right. exists (a + sizeof_node), (set_mem h m). by split. }
  unfold ALLOC_PAGE_SIZE. rewrite (wrapu_small 64 (n * 4096)) by lia.
  destruct (Z.ltb_spec (len + sizeof_node) (n * 4096)).
  { destruct (Hplace len) as (m&->&Hr); [lia|lia|]. right. exists (a + sizeof_node), (set_mem h m). by split. }
  replace (k + sizeof_node - sizeof_node) with (zlen l) by lia. rewrite wrapu_small by (unfold sizeof_node in *; lia).
  rewrite Nat2Z.id. apply (moved_block h a n k len l); try done. lia.
Qed.

(** calloc: a fresh block of zeros, when the product of the sizes fits. *)
Theorem walloc_calloc_zeroes h n size :
  wheap_wf h -> 0 <= n * size -> n * size + sizeof_node + 4096 <= 2 ^ 64 ->
  match page_alloc (total_len (n * size) / 4096) (pages h) with
  | (None, _) => kcalloc fresh n size h = Trap
  | (Some a, _) => exists h', kcalloc fresh n size h = Ret (a + sizeof_node, h') /\ wheap_wf h' /\
      bytes_at (wmem h') (a + sizeof_node) (replicate (Z.to_nat (n * size)) 0) /\
      live (wmem h') a (total_len (n * size) / 4096) (n * size) /\
      regions (pages h') = (a, total_len (n * size) / 4096) :: regions (pages h)
  end.
Proof.
  intros Hwf Hl Hb. pose proof (kmalloc_runs h (n * size) Hwf Hl Hb) as Hm. cbv zeta in Hm.
  unfold kcalloc. rewrite (wrapu_small 64 (n * size)) by (unfold sizeof_node in *; lia).
  set (np := total_len (n * size) / 4096) in *. destruct (page_alloc np (pages h)) as [[a|] w]; [|by rewrite Hm].
  destruct Hm as (h'&E&Hwf'&Ew&Hlive&Er&_&_). rewrite E. unfold mbind, ctl_bind. rewrite zero_loop_stores.
  destruct (stores_spec (replicate (Z.to_nat (n * size)) 0) (wmem h') (a + sizeof_node)) as (m&->&U).
  { apply Forall_replicate. by unfold byte. }
  { rewrite length_replicate. intros x Hx. apply (l_mapped _ _ _ _ Hlive).
    pose proof (l_len _ _ _ _ Hlive). unfold sizeof_node in *. lia. }
  destruct (data_written h' a np (n * size) (replicate (Z.to_nat (n * size)) 0) m) as (Hl2&Hwf2&_); try done.
  { rewrite Ew, Er. by left. }
  { rewrite length_replicate. lia. }
  exists (set_mem h' m). destruct U. split_and!; [done..|]. cbn [pages set_mem]. by rewrite Ew, Er.
Qed.
End spec.

(** A request near the top of the address space wraps: a page is handed out for a
    block of almost 2^64 bytes. *)
Example walloc_wraps : total_len (2 ^ 64 - 16) = 4096 /\ total_len (2 ^ 64 - 32) = 0.
Proof. split; vm_compute; reflexivity. Qed.

(** * The theorems at work *)

#[local] Existing Instance stack_of_pages.

Definition zero_pages (a n : Z) : list Z := replicate (Z.to_nat (4096 * n)) 0.

Lemma zero_pages_length a n : 0 < n -> zlen (zero_pages a n) = 4096 * n.
Proof. intros. unfold zero_pages. rewrite length_replicate. lia. Qed.

Definition empty_wheap : wheap (W := list (Z * Z)) := mk_wheap ∅ [].

Lemma empty_wheap_wf : wheap_wf empty_wheap.
Proof. split; [|done]. by intros a n ?%not_elem_of_nil. Qed.

Lemma walloc_malloc_free_witness :
  exists h' h'', kmalloc zero_pages 100 empty_wheap = Ret (4096 + 32, h') /\ wheap_wf h' /\
    mapped (wmem h') (4096 + 32) 100 /\
    (forall b k, (b, k) ∈ [] -> (b, k) ∈ regions (pages h') /\
       forall x, b <= x < b + 4096 * k -> wmem h' !! x = wmem empty_wheap !! x) /\
    kfree (4096 + 32) h' = Ret h'' /\ wheap_wf h'' /\ regions (pages h'') ≡ₚ [] /\ kfree (4096 + 32) h'' = Trap.
Proof.
  apply (walloc_malloc_free zero_pages zero_pages_length empty_wheap 100 empty_wheap_wf); vm_compute; discriminate.
Defined.

(** The heap after the allocation of a block of 100 zeros. *)
Definition one_wblock : wheap (W := list (Z * Z)) :=
  match kcalloc zero_pages 10 10 empty_wheap with Ret (_, h) => h | _ => empty_wheap end.

Lemma one_wblock_live : wheap_wf one_wblock /\ regions (pages one_wblock) = [(4096, 1)] /\
  live (wmem one_wblock) 4096 1 100 /\ bytes_at (wmem one_wblock) (4096 + 32) (replicate 100 0).
Proof.
  pose proof (walloc_calloc_zeroes zero_pages zero_pages_length empty_wheap 10 10 empty_wheap_wf) as Hc.
  assert (page_alloc (total_len (10 * 10) / 4096) (pages empty_wheap) = (Some 4096, [(4096, 1)])) as E
    by (vm_compute; reflexivity).
  rewrite E in Hc. destruct Hc as (h'&Ec&H1&H2&H3&H4); [done|done|].
  unfold one_wblock. rewrite Ec. split_and!; [done|done| |done].
  by assert (total_len (10 * 10) / 4096 = 1) as <- by (vm_compute; reflexivity).
Qed.

Lemma walloc_realloc_keeps_witness :
  krealloc zero_pages (4096 + sizeof_node) 5000 one_wblock = Trap /\
    fst (page_alloc (total_len 5000 / 4096) (pages one_wblock)) = None \/
  exists p h', krealloc zero_pages (4096 + sizeof_node) 5000 one_wblock = Ret (p, h') /\
    reallocated one_wblock 4096 (replicate 100 0) 5000 p h'.
Proof.
  destruct one_wblock_live as (Hwf&Hr&Hl&Hb).
  apply (walloc_realloc_keeps zero_pages zero_pages_length one_wblock 4096 1 100 5000 (replicate 100 0));
    [exact Hwf|rewrite Hr; by left|exact Hl|exact Hb|done| |done|done].
  apply Forall_replicate. unfold byte. lia.
Defined.
