(* ===== verification/Text.v ===== *)
(** libcore/str.hpp, str_writer.hpp and fmt: views of text, text that grows, and the
    formatting of values into it.

    A [Str] is the list of its characters, as bytes; the places of a view outside
    the text it is taken from trap. A [WStr] is its buffer, empty when there is none,
    with the length in use and the capacity the object remembers; what a fresh part
    of a buffer holds is [junk]. Allocation is taken to succeed. *)

From S2P Require Import Prelude CMem LibcStdlib Scanner Range Bytes IpcTypes.

(** * str.hpp *)

Definition is_blank (c : Z) : bool := (c =? 32) || (c =? 9) || (c =? 10).

Definition substr (s : list Z) (start end_ : Z) : ctl (list Z) :=
  if end_ <=? start then Ret [] else slice s start (end_ - start).

(** The loops that look for a character: the index where [last] is left, and the
    one before it. *)
Fixpoint find_last (v : Z) (l : list Z) (i last : Z) : Z :=
  match l with
  | [] => last
  | c :: l => find_last v l (i + 1) (if c =? v then i else last)
  end.

Fixpoint find_first (v : Z) (l : list Z) (i last : Z) : Z :=
  match l with
  | [] => last
  | c :: l => if c =? v then i else find_first v l (i + 1) last
  end.

Fixpoint find_penultimate (v : Z) (l : list Z) (i penultimate last : Z) : Z :=
  match l with
  | [] => penultimate
  | c :: l => if c =? v then find_penultimate v l (i + 1) last i else find_penultimate v l (i + 1) penultimate last
  end.

Definition sub_last_char (s : list Z) (v : Z) : ctl (list Z) :=
  substr s (find_last v s 0 (zlen s + 1)) (zlen s).
Definition remove_after (s : list Z) (v : Z) : ctl (list Z) :=
  substr s 0 (find_first v s 0 (zlen s)).
Definition sub_penultimate_char (s : list Z) (v : Z) : ctl (list Z) :=
  substr s (find_penultimate v s 0 (zlen s + 1) (zlen s + 1)) (zlen s).

Fixpoint same_chars (s str : list Z) : ctl bool :=
  match str with
  | [] => Ret true
  | c :: str =>
      match s with
      | [] => Trap
      | d :: s => if negb (d =? c) then Ret false else same_chars s str
      end
  end.

Definition start_with (s str : list Z) : ctl bool :=
  if zlen s <? zlen str then Ret false else same_chars s str.

(** [MemView::operator==]. *)
Definition str_eq (s str : list Z) : ctl bool :=
  if negb (zlen s =? zlen str) then Ret false else same_chars s str.

(** [split]: the loop at character [i], with the start of the current part. *)
Fixpoint split_loop (s : list Z) (c : Z) (l : list Z) (i start : Z) (result : list (list Z)) :
    ctl (list (list Z)) :=
  match l with
  | [] =>
      if start <? zlen s then p ← slice s start (zlen s - start); Ret (result ++ [p]) else Ret result
  | d :: l =>
      if d =? c then
        if start <? i then p ← slice s start (i - start); split_loop s c l (i + 1) (i + 1) (result ++ [p])
        else split_loop s c l (i + 1) (i + 1) result
      else split_loop s c l (i + 1) start result
  end.

Definition split (s : list Z) (c : Z) : ctl (list (list Z)) := split_loop s c s 0 0 [].

Fixpoint skip_blanks (l : list Z) : list Z :=
  match l with [] => [] | c :: l' => if is_blank c then skip_blanks l' else l end.

(** [trimmed]: [start] moves up over blanks, then [end] down to [start]. *)
Definition trimmed (s : list Z) : list Z := reverse (skip_blanks (reverse (skip_blanks s))).

(** [copy_to] into the characters of an array of at least [buffer_len]. *)
Definition copy_to (s buffer : list Z) (buffer_len : Z) : ctl (list Z) :=
  let len := if buffer_len <=? zlen s then u64 (buffer_len - 1) else zlen s in
  bs ← slice s 0 len;
  splice buffer 0 (bs ++ [0]).

(** * str_writer.hpp *)

Record WStr := mk_WStr { w_data : list Z; w_len : Z; w_capacity : Z }.

Definition empty_wstr : WStr := mk_WStr [] 0 0.

Definition view (w : WStr) : list Z := part (w_data w) 0 (w_len w).

Section wstr.
Variable junk : Z -> Z.

(** [realloc(_data, n)], for a larger [n]. *)
Definition regrow (data : list Z) (n : Z) : list Z :=
  data ++ map junk (seqZ (zlen data) (n - zlen data)).

Definition own (buffer : list Z) (len capacity : Z) : WStr :=
  mk_WStr buffer len (if capacity =? 0 then len + 1 else capacity).

Definition wstr_copy (from : list Z) : WStr := own (from ++ [0]) (zlen from) 0.

Definition put (w : WStr) (v : Z) : ctl WStr :=
  let '(data, cap) :=
    if w_capacity w <? w_len w + 2
    then (regrow (w_data w) ((w_len w + 2) * 2), (w_len w + 2) * 2)
    else (w_data w, w_capacity w) in
  data ← splice data (w_len w) [v; 0];
  Ret (mk_WStr data (w_len w + 1) cap).

Definition append (w : WStr) (str : list Z) : ctl WStr :=
  if zlen str =? 0 then Ret w
  else
    let need := w_len w + zlen str + 1 in
    let '(data, cap) :=
      if w_capacity w <? need then (regrow (w_data w) (need * 2), need * 2) else (w_data w, w_capacity w) in
    data ← splice data (w_len w) (str ++ [0]);
    Ret (mk_WStr data (w_len w + zlen str) cap).

Definition wstr_clear (w : WStr) : WStr := mk_WStr (w_data w) 0 (w_capacity w).

(** [operator=] from a C string with the characters [str]. *)
Definition assign (w : WStr) (str : list Z) : ctl WStr :=
  if zlen str + 1 <? w_capacity w then
    data ← splice (w_data w) 0 (str ++ [0]);
    Ret (mk_WStr data (zlen str) (w_capacity w))
  else Ret (wstr_copy str).

Definition wstr_eq (w other : WStr) : ctl bool :=
  if negb (w_len w =? w_len other) then Ret false else same_chars (view w) (view other).

(** [operator==] with a C string: the characters both have. *)
Fixpoint same_prefix (l other : list Z) : bool :=
  match l, other with
  | c :: l, d :: other => if negb (c =? d) then false else same_prefix l other
  | _, _ => true
  end.
Definition wstr_eq_cstr (w : WStr) (other : list Z) : bool := same_prefix (view w) other.
End wstr.

(** * fmt: values as text *)

(** An integer type: signed or not, and its width. *)
Record int_type := mk_int { signed : bool; width : Z }.

(** [-value], in [int] when the type is narrower: undefined for the least value of
    the wider types. *)
Definition negate (t : int_type) (v : Z) : ctl Z :=
  if (32 <=? width t) && (v =? - 2 ^ (width t - 1)) then Trap else Ret (wraps (width t) (- v)).

(** The digits of [value] in base [b], lowest first, in a buffer with [room] left;
    the quotient and the remainder are those of C. *)
Fixpoint digits_loop (b : Z) (digit_char : Z -> Z) (room : nat) (value : Z) : ctl (list Z) :=
  if value =? 0 then Ret []
  else
    match room with
    | O => Trap
    | S room =>
        rest ← digits_loop b digit_char room (Z.quot value b);
        Ret (u8 (digit_char (Z.rem value b)) :: rest)
    end.

Definition decimal_char (d : Z) : Z := 48 + d.
Definition hex_char (d : Z) : Z := if d <? 10 then 48 + d else 97 + d - 10.

(** The sign of a number and its magnitude, as the two printers start. *)
Definition split_sign (t : int_type) (v : Z) : ctl (list Z * Z) :=
  if v <? 0 then value ← negate t v; Ret ([45], value) else Ret ([], v).

Definition format_decimal (t : int_type) (v : Z) : ctl (list Z) :=
  '(sign, value) ← split_sign t v;
  if value =? 0 then Ret (sign ++ [48])
  else ds ← digits_loop 10 decimal_char 20 value; Ret (sign ++ reverse ds).

Definition format_hex (t : int_type) (v pad pad_char : Z) : ctl (list Z) :=
  '(sign, value) ← split_sign t v;
  ds ← (if value =? 0 then Ret [48] else digits_loop 16 hex_char 17 value);
  Ret (sign ++ replicate (Z.to_nat (pad - zlen ds)) pad_char ++ reverse ds).

Inductive Color :=
| NONE | BLACK | RED | GREEN | YELLOW | BLUE | MAGENTA | CYAN | WHITE
| BRIGHT_BLACK | BRIGHT_RED | BRIGHT_GREEN | BRIGHT_YELLOW.

Definition color_code (c : Color) : Z :=
  match c with
  | NONE => 0 | BLACK => 30 | RED => 31 | GREEN => 32 | YELLOW => 33
  | BLUE => 34 | MAGENTA => 35 | CYAN => 36 | WHITE => 37
  | BRIGHT_BLACK => 90 | BRIGHT_RED => 91 | BRIGHT_GREEN => 92 | BRIGHT_YELLOW => 93
  end.

Record FormatFlags := mk_flags { is_hex : bool; color : Color; pad_char : Z; pad_size : Z }.

Inductive FmtFlag := FMT_HEX | FMT_CYAN | FMT_PAD_8BYTES | FMT_PAD_ZERO.

(** [value | flag]. *)
Definition flag_value (f : FmtFlag) : FormatFlags :=
  match f with
  | FMT_PAD_8BYTES => mk_flags false NONE 32 8
  | FMT_PAD_ZERO => mk_flags false NONE 48 8
  | FMT_CYAN => mk_flags false CYAN 32 0
  | FMT_HEX => mk_flags true NONE 32 0
  end.

(** [flags | flag]. *)
Definition flag_more (a : FormatFlags) (f : FmtFlag) : FormatFlags :=
  match f with
  | FMT_PAD_8BYTES => mk_flags (is_hex a) (color a) (pad_char a) 16
  | FMT_PAD_ZERO => mk_flags (is_hex a) (color a) 48 (pad_size a)
  | FMT_CYAN => mk_flags (is_hex a) CYAN (pad_char a) (pad_size a)
  | FMT_HEX => mk_flags true (color a) (pad_char a) (pad_size a)
  end.

Definition int_t : int_type := mk_int true 32.
Definition uint64_t : int_type := mk_int false 64.

Definition format_flagged (t : int_type) (v : Z) (f : FormatFlags) : ctl (list Z) :=
  text ← (if is_hex f then format_hex t v (pad_size f) (pad_char f) else format_decimal t v);
  match color f with
  | NONE => Ret text
  | c => code ← format_decimal int_t (color_code c);
         Ret ([27; 91] ++ code ++ [109] ++ text ++ [27; 91; 48; 109])
  end.

(** The text of a kind of asset: the kinds added last have none of their own. *)
Definition kind_text (k : AssetKind) : list Z :=
  chars match k with
  | OBJECT_KIND_UNKNOWN => "OBJECT_KIND_UNKNOWN"
  | OBJECT_KIND_MEMORY => "OBJECT_KIND_MEMORY"
  | OBJECT_KIND_MAPPING => "OBJECT_KIND_MAPPING"
  | OBJECT_KIND_SPACE => "OBJECT_KIND_SPACE"
  | OBJECT_KIND_TASK => "OBJECT_KIND_TASK"
  | OBJECT_KIND_IPC_ENDPOINT => "OBJECT_KIND_IPC_ENDPOINT"
  | OBJECT_KIND_IPC_CONNECTION => "OBJECT_KIND_IPC_CONNECTION"
  | OBJECT_KIND_SIGNAL_ENDPOINT => "OBJECT_KIND_SIGNAL_ENDPOINT"
  | OBJECT_KIND_SIGNAL_ATTACHED => "OBJECT_KIND_SIGNAL_ATTACHED"
  | _ => "UNKNOWN_ASSET_KIND"
  end.

(** What can be formatted. *)
Inductive Arg :=
| AInt (t : int_type) (v : Z)
| AFlagged (t : int_type) (v : Z) (f : FormatFlags)
| AStr (s : list Z)
| ARange (t : int_type) (start end_ : Z)
| ARangeFlagged (t : int_type) (start end_ : Z) (f : FormatFlags)
| AHandle (id : Z)
| AKind (k : AssetKind)
| ATabbed (n : Z).

Definition format_v (a : Arg) : ctl (list Z) :=
  match a with
  | AInt t v => format_decimal t v
  | AFlagged t v f => format_flagged t v f
  | AStr s => Ret s
  | ARange t x y =>
      a ← format_decimal t x; b ← format_decimal t y; Ret ([123; 32] ++ a ++ [32; 45; 32] ++ b ++ [32; 125])
  | ARangeFlagged t x y f =>
      a ← format_flagged t x f; b ← format_flagged t y f; Ret ([123; 32] ++ a ++ [32; 45; 32] ++ b ++ [32; 125])
  | AHandle id => format_decimal uint64_t id
  | AKind k => Ret (kind_text k)
  | ATabbed n => Ret (replicate (Z.to_nat n) 9)
  end.

(** * fmt.hpp: a format with its arguments *)

(** The characters up to the first opening brace, and the rest. *)
Fixpoint to_brace (l : list Z) : list Z * list Z :=
  match l with
  | [] => ([], [])
  | c :: l' => if c =? 123 then ([], l) else let '(a, b) := to_brace l' in (c :: a, b)
  end.

(** [format_impl] from the place in the format where [fmt] is left. An opening brace
    that no closing one follows is passed over, and not written. Each turn passes at
    least one character. *)
Fixpoint format_impl (fuel : nat) (fmt : list Z) (args : list Arg) : ctl (list Z) :=
  match args with
  | [] => Ret fmt
  | a :: more =>
      match fuel with
      | O => NoFuel
      | S fuel =>
          let '(text, rest) := to_brace fmt in
          match rest with
          | [] => Ret text
          | _ :: 125 :: rest => shown ← format_v a; tail ← format_impl fuel rest more; Ret (text ++ shown ++ tail)
          | _ :: rest => tail ← format_impl fuel rest args; Ret (text ++ tail)
          end
      end
  end.

Definition format (fmt : list Z) (args : list Arg) : ctl (list Z) := format_impl (S (length fmt)) fmt args.

(** log.hpp: the last two parts of a path, which a line of the log starts with. *)
Definition file_name (path : list Z) : ctl (list Z) :=
  sub ← sub_penultimate_char path 47;
  if zlen sub =? 0 then Ret path else substr sub 1 (zlen sub).

(** Views of text, text that grows and formatting: what each operation gives, and
    the round trip of numbers through the scanner. *)

(** * Views *)

(** The parts of a text between the separators, the empty ones too. *)
Fixpoint fields (c : Z) (l : list Z) : list (list Z) :=
  match l with
  | [] => [[]]
  | d :: l => if d =? c then [] :: fields c l else
      match fields c l with f :: fs => (d :: f) :: fs | [] => [[d]] end
  end.

Lemma fields_cons c l : exists f fs, fields c l = f :: fs.
Proof. destruct l as [|d l]; simpl; [by eexists _, _|]. destruct (d =? c); [by eexists _, _|]. destruct (fields c l); by eexists _, _. Qed.

Definition non_empty (l : list Z) : bool := negb (zlen l =? 0).

(** The part in progress put in front of the first field. *)
Definition onto (cur : list Z) (fs : list (list Z)) : list (list Z) :=
  match fs with f :: fs => (cur ++ f) :: fs | [] => [cur] end.

Lemma slice_app_middle (a b c : list Z) :
  slice (a ++ b ++ c) (zlen a) (zlen b) = Ret b.
Proof.
  rewrite slice_in by len_lia. unfold part. by rewrite !Nat2Z.id, drop_app_length, take_app_length.
Qed.

Lemma split_loop_spec c l : forall pre cur result,
  let s := pre ++ cur ++ l in
  split_loop s c l (zlen pre + zlen cur) (zlen pre) result =
    Ret (result ++ List.filter non_empty (onto cur (fields c l))).
Proof.
  induction l as [|d l IH]; intros pre cur result s; simpl.
  - unfold s. rewrite app_nil_r. unfold non_empty. destruct cur as [|x cur].
    + rewrite app_nil_r. destruct (Z.ltb_spec (zlen pre) (zlen pre)); [lia|]. simpl. by rewrite app_nil_r.
    + destruct (Z.ltb_spec (zlen pre) (zlen (pre ++ x :: cur))); [|rewrite length_app in *; simpl in *; lia].
      replace (zlen (pre ++ x :: cur) - zlen pre) with (zlen (x :: cur)) by len_lia.
      rewrite <- (app_nil_r (x :: cur)) at 1. rewrite slice_app_middle. simpl. done.
  - destruct (Z.eqb_spec d c) as [->|Hd].
    + assert (s = (pre ++ cur ++ [c]) ++ [] ++ l) as Es by (unfold s; by rewrite <- !app_assoc).
      replace (zlen pre + zlen cur + 1) with (zlen (pre ++ cur ++ [c]) + zlen ([] : list Z)) by len_lia.
      assert (forall r, split_loop s c l (zlen (pre ++ cur ++ [c]) + zlen ([] : list Z)) (zlen (pre ++ cur ++ [c]) + zlen ([] : list Z)) r =
        Ret (r ++ List.filter non_empty (fields c l))) as IH'.
      { intros r. rewrite Es. replace (zlen (pre ++ cur ++ [c]) + zlen ([] : list Z)) with (zlen (pre ++ cur ++ [c])) at 2 by len_lia.
        rewrite IH. destruct (fields_cons c l) as (f&fs&->). done. }
      unfold non_empty. destruct cur as [|x cur].
      * destruct (Z.ltb_spec (zlen pre) (zlen pre + zlen ([] : list Z))); [simpl in *; lia|]. rewrite IH'. done.
      * destruct (Z.ltb_spec (zlen pre) (zlen pre + zlen (x :: cur))); [|simpl in *; lia].
        replace (zlen pre + zlen (x :: cur) - zlen pre) with (zlen (x :: cur)) by lia.
        assert (slice s (zlen pre) (zlen (x :: cur)) = Ret (x :: cur)) as -> by (unfold s; apply slice_app_middle). cbn [mbind ctl_bind]. rewrite IH'. cbn [onto]. rewrite app_nil_r, <- app_assoc. done.
    + destruct (fields_cons c l) as (f&fs&Ef). specialize (IH pre (cur ++ [d]) result). cbv zeta in IH.
      rewrite Ef in *. replace (pre ++ (cur ++ [d]) ++ l) with s in IH by (unfold s; by rewrite <- !app_assoc).
      replace (zlen pre + zlen (cur ++ [d])) with (zlen pre + zlen cur + 1) in IH by len_lia.
      rewrite IH. simpl. by rewrite <- app_assoc.
Qed.

(** [split]: the non-empty parts between the separators, in order. *)
Theorem split_gives_fields s c : split s c = Ret (List.filter non_empty (fields c s)).
Proof.
  unfold split. pose proof (split_loop_spec c s [] [] []) as H. cbv zeta in H. cbn [app] in H.
  change (zlen ([] : list Z)) with 0 in H. change (0 + 0) with 0 in H. rewrite H. cbn [app].
  by destruct (fields_cons c s) as (f&fs&->).
Qed.

(** [trimmed]: the text without the blanks at its ends. *)
Lemma skip_blanks_spec l :
  exists a, l = a ++ skip_blanks l /\ Forall (fun c => is_blank c = true) a /\
    match skip_blanks l with c :: _ => is_blank c = false | [] => True end.
Proof.
  induction l as [|c l (a&E&Ha&Hl)]; simpl; [by exists []|].
  destruct (is_blank c) eqn:Ec; [|by exists []].
  exists (c :: a). split; [simpl; by f_equal|]. split; [by constructor|done].
Qed.

Theorem trimmed_strips_blanks s :
  exists a b, s = a ++ trimmed s ++ b /\ Forall (fun c => is_blank c = true) (a ++ b) /\
    (forall c, head (trimmed s) = Some c -> is_blank c = false) /\
    (forall c, last (trimmed s) = Some c -> is_blank c = false).
Proof.
  destruct (skip_blanks_spec s) as (a&E&Ha&Hh). set (t := skip_blanks s) in *.
  destruct (skip_blanks_spec (reverse t)) as (b&E2&Hb&Hl). unfold trimmed. fold t.
  set (u := skip_blanks (reverse t)) in *.
  assert (t = reverse u ++ reverse b) as Et.
  { rewrite <- reverse_app, <- E2. by rewrite reverse_involutive. }
  exists a, (reverse b). split; [by rewrite <- Et|]. split; [apply Forall_app; split; [done|by apply Forall_reverse]|].
  split.
  - intros c Hc. rewrite Et in Hh. destruct (reverse u); simpl in *; [done|]. by injection Hc as ->.
  - intros c Hc. rewrite last_reverse in Hc. destruct u; simpl in *; [done|]. by injection Hc as ->.
Qed.

(** The parts of a text at a character. *)
Lemma find_first_spec v a l i d : v ∉ a -> find_first v (a ++ v :: l) i d = i + zlen a.
Proof.
  revert i. induction a as [|c a IH]; intros i Ha; simpl.
  - rewrite Z.eqb_refl. lia.
  - apply not_elem_of_cons in Ha as [Hc Ha]. destruct (Z.eqb_spec c v); [done|]. rewrite IH by done. lia.
Qed.

Lemma find_first_none v l i d : v ∉ l -> find_first v l i d = d.
Proof.
  revert i. induction l as [|c l IH]; intros i Ha; simpl; [done|].
  apply not_elem_of_cons in Ha as [Hc Ha]. destruct (Z.eqb_spec c v); [done|]. by apply IH.
Qed.

Lemma find_last_none v l i d : v ∉ l -> find_last v l i d = d.
Proof.
  revert i d. induction l as [|c l IH]; intros i d Ha; simpl; [done|].
  apply not_elem_of_cons in Ha as [Hc Ha]. destruct (Z.eqb_spec c v); [done|]. by apply IH.
Qed.

Lemma find_last_spec v a l i d : v ∉ l -> find_last v (a ++ v :: l) i d = i + zlen a.
Proof.
  intros Hl. revert i d. induction a as [|c a IH]; intros i d; simpl.
  - rewrite Z.eqb_refl, find_last_none by done. lia.
  - rewrite IH. lia.
Qed.

Lemma find_penultimate_last v l i p d : v ∉ l -> find_penultimate v l i p d = p.
Proof.
  revert i. induction l as [|c l IH]; intros i Ha; simpl; [done|].
  apply not_elem_of_cons in Ha as [Hc Ha]. destruct (Z.eqb_spec c v); [done|]. by apply IH.
Qed.

Lemma find_penultimate_one v a l i p d : v ∉ a -> v ∉ l -> find_penultimate v (a ++ v :: l) i p d = d.
Proof.
  intros Ha Hl. revert i p. induction a as [|c a IH]; intros i p; simpl.
  - rewrite Z.eqb_refl. by apply find_penultimate_last.
  - apply not_elem_of_cons in Ha as [Hc Ha]. destruct (Z.eqb_spec c v); [done|]. by apply IH.
Qed.

Lemma find_penultimate_two v a b l i p d :
  v ∉ b -> v ∉ l -> find_penultimate v (a ++ v :: b ++ v :: l) i p d = i + zlen a.
Proof.
  intros Hb Hl. revert i p d. induction a as [|c a IH]; intros i p d; simpl.
  - rewrite Z.eqb_refl, find_penultimate_one by done. lia.
  - destruct (c =? v); rewrite IH; lia.
Qed.

Lemma substr_all s a b : s = a ++ b -> b <> [] -> substr s (zlen a) (zlen s) = Ret b.
Proof.
  intros -> Hb. unfold substr. assert (0 < zlen b) by (destruct b; [done|simpl; lia]).
  destruct (Z.leb_spec (zlen (a ++ b)) (zlen a)); [rewrite length_app in *; lia|].
  replace (zlen (a ++ b) - zlen a) with (zlen b) by len_lia.
  pose proof (slice_app_middle a b []) as E. by rewrite app_nil_r in E.
Qed.

Lemma substr_none s start : zlen s <= start -> substr s start (zlen s) = Ret [].
Proof. intros H. unfold substr. by destruct (Z.leb_spec (zlen s) start); [|lia]. Qed.

(** [remove_after], [sub_last_char] and [sub_penultimate_char]: the text before the
    first [v], from the last one, and from the one before it; the whole text and
    nothing when [v] is not there often enough. *)
Theorem text_cut_at_character v :
  (forall a l, v ∉ a -> remove_after (a ++ v :: l) v = Ret a) /\
  (forall s, v ∉ s -> remove_after s v = Ret s) /\
  (forall a l, v ∉ l -> sub_last_char (a ++ v :: l) v = Ret (v :: l)) /\
  (forall s, v ∉ s -> sub_last_char s v = Ret []) /\
  (forall a b l, v ∉ b -> v ∉ l -> sub_penultimate_char (a ++ v :: b ++ v :: l) v = Ret (v :: b ++ v :: l)) /\
  (forall a l, v ∉ a -> v ∉ l -> sub_penultimate_char (a ++ v :: l) v = Ret []).
Proof.
  assert (forall a b, substr (a ++ b) 0 (zlen a) = Ret a) as Hfront.
  { intros a b. unfold substr. destruct (Z.leb_spec (zlen a) 0) as [Hz|]; [destruct a; [done|simpl in *; lia]|].
    rewrite Z.sub_0_r. pose proof (slice_app_middle [] a b) as E. exact E. }
  split_and!.
  - intros a l Ha. unfold remove_after. rewrite find_first_spec by done. apply Hfront.
  - intros s Hs. unfold remove_after. rewrite find_first_none by done.
    rewrite <- (app_nil_r s) at 1. apply Hfront.
  - intros a l Hl. unfold sub_last_char. rewrite find_last_spec by done. by apply (substr_all _ a).
  - intros s Hs. unfold sub_last_char. rewrite find_last_none by done. apply substr_none. lia.
  - intros a b l Hb Hl. unfold sub_penultimate_char. rewrite find_penultimate_two by done. by apply (substr_all _ a).
  - intros a l Ha Hl. unfold sub_penultimate_char. rewrite find_penultimate_one by done. apply substr_none. lia.
Qed.

(** The name of a source file in the log: its last two parts. *)
Lemma file_name_keeps_two a b l :
  47 ∉ b -> 47 ∉ l -> file_name (a ++ 47 :: b ++ 47 :: l) = Ret (b ++ 47 :: l).
Proof.
  intros Hb Hl. unfold file_name, sub_penultimate_char. rewrite find_penultimate_two by done.
  rewrite (substr_all _ a (47 :: b ++ 47 :: l)) by done. cbn [mbind ctl_bind]. destruct (Z.eqb_spec (zlen (47 :: b ++ 47 :: l)) 0); [simpl in *; lia|].
  apply (substr_all _ [47] (b ++ 47 :: l)); [done|by destruct b].
Qed.

(** [copy_to]: the text, or as much as fits, and a NUL; an array of no characters is
    run over. *)
Theorem copy_to_fills s buffer n :
  0 < n <= zlen buffer -> n < 2 ^ 64 -> zlen s < 2 ^ 64 - 1 ->
  copy_to s buffer n = Ret (patch buffer 0 (part s 0 (Z.min (zlen s) (n - 1)) ++ [0])) /\
  copy_to s buffer 0 = Trap.
Proof.
  intros Hn Hb Hs. split.
  - unfold copy_to. assert ((if n <=? zlen s then u64 (n - 1) else zlen s) = Z.min (zlen s) (n - 1)) as ->.
    { destruct (Z.leb_spec n (zlen s)); [rewrite wrapu_small|]; lia. }
    rewrite slice_in by lia. cbn [mbind ctl_bind]. apply splice_in; [lia|].
    rewrite length_app, length_part by lia. simpl. lia.
  - unfold copy_to. destruct (Z.leb_spec 0 (zlen s)); [|lia]. change (u64 (0 - 1)) with (2 ^ 64 - 1).
    unfold slice. destruct (Z.leb_spec (0 + (2 ^ 64 - 1)) (zlen s)); [lia|]. by rewrite andb_false_r.
Qed.

(** * Text that grows *)

Section wstr.
Variable junk : Z -> Z.

(** A text with the characters [l]: its buffer is as large as it says, and starts with
    them. *)
Definition wrep (w : WStr) (l : list Z) : Prop :=
  w_len w = zlen l /\ w_capacity w = zlen (w_data w) /\ exists rest, w_data w = l ++ rest.

(** A NUL is after the characters, when there is a buffer. *)
Definition terminated (w : WStr) : Prop := w_data w = [] \/ aget (w_data w) (w_len w) = Some 0.

Lemma terminated_at w l rest : w_len w = zlen l -> w_data w = l ++ 0 :: rest -> terminated w.
Proof.
  intros El Ed. right. rewrite Ed, El, aget_lookup by lia. rewrite Nat2Z.id. by rewrite lookup_app_r, Nat.sub_diag by lia.
Qed.

Lemma wrep_view w l : wrep w l -> view w = l.
Proof.
  intros (El&_&rest&Ed). unfold view, part. rewrite Ed, El, Nat2Z.id.
  change (Z.to_nat 0) with 0%nat. by rewrite drop_0, take_app_length.
Qed.

Lemma wrep_empty : wrep empty_wstr [].
Proof. split; [done|]. split; [done|]. by exists []. Qed.

Lemma wrep_copy s : wrep (wstr_copy s) s /\ terminated (wstr_copy s).
Proof.
  unfold wstr_copy, own. destruct (Z.eqb_spec 0 0); [|done]. split; [|by apply (terminated_at _ s [])].
  split; [done|]. split; [len_lia|]. by eexists.
Qed.

(** [clear] leaves the buffer as it is. *)
Lemma wrep_clear w l : wrep w l -> wrep (wstr_clear w) [] /\ w_data (wstr_clear w) = w_data w.
Proof. intros (El&Ec&_). split; [|done]. split; [done|]. split; [done|]. by exists (w_data w). Qed.

Lemma length_regrow data n : zlen data <= n -> zlen (regrow junk data n) = n.
Proof. intros. unfold regrow. rewrite length_app, length_map, length_seqZ. lia. Qed.

(** What the two ways to make room leave: room, and the characters in front. *)
Lemma room_made w l need :
  wrep w l -> zlen l < need ->
  let '(data, cap) := if w_capacity w <? need then (regrow junk (w_data w) (need * 2), need * 2) else (w_data w, w_capacity w) in
  cap = zlen data /\ need <= zlen data /\ exists r, data = l ++ r.
Proof.
  intros (El&Ec&Hd) Hn. destruct (Z.ltb_spec (w_capacity w) need) as [Hc|Hc].
  - rewrite length_regrow by lia. split; [done|]. split; [lia|]. unfold regrow.
    destruct Hd as [rest ->]. rewrite <- app_assoc. by eexists.
  - split; [done|]. split; [lia|done].
Qed.

(** The characters written after those in place. *)
Lemma splice_after l r str :
  zlen str + 1 <= zlen r ->
  splice (l ++ r) (zlen l) (str ++ [0]) = Ret ((l ++ str) ++ 0 :: drop (length str + 1) r).
Proof.
  intros Hr. rewrite splice_in by len_lia. f_equal. unfold patch. rewrite Nat2Z.id, take_app_length.
  rewrite drop_app_ge by lia. rewrite length_app. simpl.
  replace (length l + (length str + 1) - length l)%nat with (length str + 1)%nat by lia.
  by rewrite <- !app_assoc.
Qed.

Lemma append_runs w l str : wrep w l -> str <> [] -> exists w', append junk w str = Ret w' /\
  wrep w' (l ++ str) /\ terminated w'.
Proof.
  intros Hw Hs. assert (0 < zlen str) by (destruct str; [done|simpl; lia]).
  pose proof (room_made w l (w_len w + zlen str + 1) Hw) as Hr. pose proof Hw as (El&Ec&_).
  unfold append. destruct (Z.eqb_spec (zlen str) 0); [lia|].
  destruct (if w_capacity w <? w_len w + zlen str + 1 then _ else _) as [data cap].
  destruct Hr as (->&Hn&r&->); [lia|]. rewrite El in *. rewrite splice_after by (rewrite length_app in Hn; lia).
  cbn [mbind ctl_bind]. eexists. split; [done|]. split; [|eapply (terminated_at _ (l ++ str)); [cbn; len_lia|done]].
  split; [cbn; len_lia|]. split; [|by eexists].
  cbn [w_capacity w_data]. rewrite !length_app in *. simpl. rewrite length_drop. lia.
Qed.

(** [put] is [append] of one character, but for the room it makes. *)
Lemma put_runs w l v : wrep w l -> exists w', put junk w v = Ret w' /\ wrep w' (l ++ [v]) /\ terminated w'.
Proof.
  intros Hw. pose proof (room_made w l (w_len w + 2) Hw) as Hr. pose proof Hw as (El&Ec&_). unfold put.
  destruct (if w_capacity w <? w_len w + 2 then _ else _) as [data cap].
  destruct Hr as (->&Hn&r&->); [lia|]. rewrite El in *.
  pose proof (splice_after l r [v]) as Es. simpl in Es. rewrite Es by (rewrite length_app in Hn; lia).
  cbn [mbind ctl_bind]. eexists. split; [done|]. split; [|eapply (terminated_at _ (l ++ [v])); [cbn; len_lia|done]].
  split; [cbn; len_lia|]. split; [|by eexists].
  cbn [w_capacity w_data]. rewrite !length_app in *. simpl. rewrite length_drop. simpl. lia.
Qed.

Lemma assign_runs w str : (exists l, wrep w l) -> exists w', assign w str = Ret w' /\ wrep w' str /\ terminated w'.
Proof.
  intros [l (El&Ec&_)]. unfold assign. destruct (Z.ltb_spec (zlen str + 1) (w_capacity w)).
  - pose proof (splice_after [] (w_data w) str ltac:(lia)) as E. change (zlen []) with 0 in E. cbn [app] in E. rewrite E.
    eexists. split; [done|]. split; [|by eapply (terminated_at _ str)].
    split; [done|]. simpl. split; [len_lia|by eexists].
  - eexists. split; [done|]. apply wrep_copy.
Qed.

Lemma same_chars_eq s str : length s = length str -> same_chars s str = Ret (bool_decide (s = str)).
Proof.
  revert s. induction str as [|c str IH]; intros [|d s] E; simpl in *; try done.
  destruct (Z.eqb_spec d c) as [->|Hne]; simpl.
  - rewrite IH by lia. f_equal. apply bool_decide_ext. naive_solver.
  - f_equal. symmetry. apply bool_decide_eq_false_2. naive_solver.
Qed.

(** C39: [WStr] is a text, as long as memory is there: a buffer that holds the characters
    of a list and as many bytes as it says has them as its view, and [put], [append],
    [copy], [operator=] of a C string and [clear] are those of the list. All but [clear]
    leave a NUL after the characters ([append] of nothing as it was); [clear] leaves
    the buffer as it is, without one. [operator==] of two texts is equality; with a C
    string it only looks at the characters both have. *)
Theorem wstr_refines_text w l :
  wrep w l ->
  view w = l /\
  (forall v, exists w', put junk w v = Ret w' /\ wrep w' (l ++ [v]) /\ terminated w') /\
  (forall str, exists w', append junk w str = Ret w' /\ wrep w' (l ++ str) /\
     (str <> [] \/ terminated w -> terminated w')) /\
  (forall str, exists w', assign w str = Ret w' /\ wrep w' str /\ terminated w') /\
  (wrep (wstr_copy (view w)) l /\ terminated (wstr_copy (view w))) /\
  (wrep (wstr_clear w) [] /\ w_data (wstr_clear w) = w_data w) /\
  (forall w2 l2, wrep w2 l2 -> wstr_eq w w2 = Ret (bool_decide (l = l2))) /\
  (forall str, wstr_eq_cstr w str = true <-> l `prefix_of` str \/ str `prefix_of` l).
Proof.
  intros Hw. pose proof (wrep_view w l Hw) as Ev. pose proof Hw as (El&Ec&Hd). split; [done|].
  split; [intros v; by apply put_runs|]. split; [|split; [|split; [rewrite Ev; apply wrep_copy|
    split; [by apply (wrep_clear w l)|split]]]].
  - intros str. destruct (decide (str = [])) as [->|Hs].
    + exists w. split; [done|]. rewrite app_nil_r. split; [done|]. by intros [?|?].
    + destruct (append_runs w l str Hw Hs) as (w'&E&H'&Ht). exists w'. by split_and!.
  - intros str. apply assign_runs. by exists l.
  - intros w2 l2 Hw2. unfold wstr_eq. rewrite Ev, (wrep_view w2 l2 Hw2). destruct Hw2 as (El2&_&_). rewrite El, El2.
    destruct (Z.eqb_spec (zlen l) (zlen l2)); simpl.
    + apply same_chars_eq. lia.
    + f_equal. symmetry. apply bool_decide_eq_false_2. naive_solver.
  - intros str. unfold wstr_eq_cstr. rewrite Ev. clear. revert str. induction l as [|c l IH]; intros [|d str]; simpl.
    + split; [|done]. intros _. left. apply prefix_nil.
    + split; [|done]. intros _. left. apply prefix_nil.
    + split; [|done]. intros _. right. apply prefix_nil.
    + destruct (Z.eqb_spec c d) as [->|Hne]; simpl.
      * rewrite IH. split; (intros [H|H]; [left|right]); try by apply prefix_cons.
        all: by apply prefix_cons_inv_2 in H.
      * split; [done|]. intros [H|H]; apply prefix_cons_inv_1 in H; congruence.
Qed.
End wstr.

(** A text of three characters in a buffer of six. *)
Lemma wstr_refines_text_witness :
  let w := mk_WStr [97; 98; 99; 0; 7; 7] 3 6 in
  view w = [97; 98; 99] /\ exists w', append (fun _ => 0) w [100; 101; 102] = Ret w' /\ view w' = [97; 98; 99; 100; 101; 102].
Proof.
  assert (wrep (mk_WStr [97; 98; 99; 0; 7; 7] 3 6) [97; 98; 99]) as Hw.
  { split; [done|]. split; [done|]. by exists [0; 7; 7]. }
  destruct (wstr_refines_text (fun _ => 0) _ _ Hw) as (Ev&_&Ha&_). split; [exact Ev|].
  destruct (Ha [100; 101; 102]) as (w'&E&Hw'&_). exists w'. split; [exact E|exact (wrep_view w' _ Hw')].
Defined.

(** * Numbers *)

Lemma quot_rem_pos v b : 0 <= v -> 0 < b -> Z.quot v b = v / b /\ Z.rem v b = v mod b.
Proof. intros. rewrite Z.quot_div_nonneg, Z.rem_mod_nonneg by lia. done. Qed.

(** The digits of a number that fits in the buffer: digits of the base, the highest
    not zero, with its value. *)
Lemma number_digits_spec b ch room : forall v,
  2 <= b <= 36 -> (forall d, 0 <= d < b -> digit_of (ch d) = Some d /\ 0 <= ch d < 256 /\ (ch d = 48 -> d = 0)) ->
  0 <= v < b ^ Z.of_nat room ->
  exists ds, Text.digits_loop b ch room v = Ret ds /\ digits_value b 0 (reverse ds) = v /\
    Forall (LibcStdlib.is_digit b) ds /\ (0 < v -> exists d rest, reverse ds = d :: rest /\ d <> 48) /\
    (v = 0 -> ds = []).
Proof.
  induction room as [|room IH]; intros v Hb Hch Hv.
  { simpl in Hv. assert (v = 0) as -> by lia. exists []. by split_and!. }
  cbn [Text.digits_loop]. destruct (Z.eqb_spec v 0) as [->|Hne].
  { exists []. by split_and!. }
  destruct (quot_rem_pos v b) as [-> ->]; [lia..|].
  pose proof (Z.mod_pos_bound v b ltac:(lia)) as Hm. pose proof (Z.div_mod v b ltac:(lia)) as Hdm.
  assert (0 <= v / b) as Hq by (apply Z.div_pos; lia).
  rewrite Nat2Z.inj_succ, Z.pow_succ_r in Hv by lia.
  destruct (IH (v / b)) as (ds&E&Ev&Hd&Hp&Hz); [done|done|split; [done|apply Z.div_lt_upper_bound; lia]|].
  destruct (Hch (v mod b) Hm) as (D1&D2&D3). rewrite E. cbn [mbind ctl_bind].
  rewrite (wrapu_small 8) by lia. eexists. split; [done|]. rewrite reverse_cons. split_and!.
  - unfold digits_value in *. rewrite fold_left_app, Ev. simpl. rewrite D1. simpl. lia.
  - constructor; [|done]. exists (v mod b). split; [done|lia].
  - intros _. destruct (decide (v / b = 0)) as [Eq|Nq].
    + rewrite (Hz Eq). eexists _, _. split; [done|]. intros E48. specialize (D3 E48). lia.
    + destruct Hp as (d&rest&->&?); [lia|]. by eexists _, _.
  - lia.
Qed.

(** The integers of a type, the least one of a signed type left out. *)
Definition printable (t : int_type) (v : Z) : Prop :=
  8 <= width t <= 64 /\
  if signed t then - 2 ^ (width t - 1) < v < 2 ^ (width t - 1) else 0 <= v < 2 ^ width t.

Lemma printable_abs t v : printable t v -> Z.abs v < 2 ^ 64.
Proof.
  intros [Hw Hv]. pose proof (Z.pow_le_mono_r 2 (width t) 64 ltac:(lia) ltac:(lia)).
  pose proof (Z.pow_le_mono_r 2 (width t - 1) 64 ltac:(lia) ltac:(lia)). destruct (signed t); lia.
Qed.

Lemma split_sign_runs t v :
  printable t v -> split_sign t v = Ret (if v <? 0 then [45] else [], Z.abs v).
Proof.
  intros [Hw Hv]. unfold split_sign. destruct (Z.ltb_spec v 0) as [Hneg|Hpos].
  - destruct (signed t); [|lia]. unfold negate. destruct (Z.eqb_spec v (- 2 ^ (width t - 1))); [lia|].
    rewrite andb_false_r. cbn [mbind ctl_bind]. rewrite wraps_small by lia. do 2 f_equal. lia.
  - do 2 f_equal. lia.
Qed.

Lemma decimal_chars d : 0 <= d < 10 -> digit_of (decimal_char d) = Some d /\ 0 <= decimal_char d < 256 /\ (decimal_char d = 48 -> d = 0).
Proof. intros. unfold digit_of, decimal_char. case_Z; simpl; try lia. split; [f_equal; lia|lia]. Qed.

Lemma hex_chars d : 0 <= d < 16 -> digit_of (hex_char d) = Some d /\ 0 <= hex_char d < 256 /\ (hex_char d = 48 -> d = 0).
Proof. intros. unfold digit_of, hex_char. case_Z; simpl; try lia; (split; [f_equal; lia|lia]). Qed.

(** The text of a number in base [b]: its sign, then its digits, without a leading
    zero but for 0 itself. *)
Definition number_in (b v : Z) (sign ds : list Z) : Prop :=
  sign = (if v <? 0 then [45] else []) /\ digits_value b 0 ds = Z.abs v /\
  Forall (LibcStdlib.is_digit b) ds /\ exists d rest, ds = d :: rest /\ (d = 48 -> v = 0).

Lemma number_digits b ch room v ds :
  2 <= b <= 36 -> v <> 0 ->
  Text.digits_loop b ch room (Z.abs v) = Ret ds -> digits_value b 0 (reverse ds) = Z.abs v ->
  Forall (LibcStdlib.is_digit b) ds -> (0 < Z.abs v -> exists d rest, reverse ds = d :: rest /\ d <> 48) ->
  number_in b v (if v <? 0 then [45] else []) (reverse ds).
Proof.
  intros Hb Hv E Ev Hd Hp. split; [done|]. split; [done|]. split; [by apply Forall_reverse|].
  destruct Hp as (d&rest&Er&Hne); [lia|]. exists d, rest. split; [done|]. intros ->. done.
Qed.

Lemma number_zero b : 2 <= b <= 36 -> number_in b 0 [] [48].
Proof.
  intros Hb. split; [done|]. split; [unfold digits_value; simpl; lia|].
  split; [apply Forall_singleton; exists 0; split; [done|lia]|by exists 48, []].
Qed.

(** Numbers are printed in decimal, and in hexadecimal after padding. *)
Theorem fmt_prints_numbers t v pad pad_char :
  printable t v ->
  (exists sign ds, format_decimal t v = Ret (sign ++ ds) /\ number_in 10 v sign ds) /\
  (exists sign ds, format_hex t v pad pad_char =
      Ret (sign ++ replicate (Z.to_nat (pad - zlen ds)) pad_char ++ ds) /\ number_in 16 v sign ds).
Proof.
  intros Hv. pose proof (printable_abs t v Hv) as Ha. unfold format_decimal, format_hex.
  rewrite split_sign_runs by done. cbn [mbind ctl_bind].
  destruct (number_digits_spec 10 decimal_char 20 (Z.abs v)) as (d1&E1&V1&D1&P1&_); [lia|exact decimal_chars| |].
  { split; [lia|]. apply Z.lt_le_trans with (2 ^ 64); [done|]. vm_compute. discriminate. }
  destruct (number_digits_spec 16 hex_char 17 (Z.abs v)) as (d2&E2&V2&D2&P2&_); [lia|exact hex_chars| |].
  { split; [lia|]. apply Z.lt_le_trans with (2 ^ 64); [done|]. vm_compute. discriminate. }
  destruct (Z.eqb_spec (Z.abs v) 0) as [E0|E0].
  - assert (v = 0) as -> by lia. cbn [mbind ctl_bind]. split.
    + exists [], [48]. split; [done|by apply number_zero].
    + exists [], [48]. split; [done|by apply number_zero].
  - rewrite E1, E2. cbn [mbind ctl_bind]. split.
    + eexists _, _. split; [done|]. by apply (number_digits 10 decimal_char 20); [|lia|..].
    + eexists _, (reverse d2). rewrite length_reverse. split; [done|]. by apply (number_digits 16 hex_char 17); [|lia|..].
Qed.

(** Decimal digits as the scanner sees them. *)
Lemma scanner_digits ds :
  Forall (LibcStdlib.is_digit 10) ds -> digits ds /\ forall v, dec v ds = digits_value 10 v ds.
Proof.
  induction 1 as [|d ds (x&Hx&Hlt) _ [IH1 IH2]]; [by split; [constructor|]|].
  assert (x = d - 48 /\ 48 <= d <= 57) as [-> Hd].
  { unfold digit_of in Hx. revert Hx. case_Z; simpl; intros [= <-]; lia. }
  split.
  - constructor; [|done]. unfold Scanner.is_digit. case_Z; simpl; (done || lia).
  - intros v. rewrite digits_value_cons, Hx. simpl. rewrite <- IH2. done.
Qed.

(** What is printed is read back by the scanner, wherever it stands in a text and
    whatever follows but a digit. *)
Theorem fmt_then_scan t v pre l :
  printable t v -> Z.abs v < 2 ^ 31 -> not_digit l ->
  exists text, format_decimal t v = Ret text /\
    skip_int (between pre (text ++ l)) = Ret (Value v, between (pre ++ text) l).
Proof.
  intros Hv Hs Hl. destruct (fmt_prints_numbers t v 0 0 Hv) as [(sg&ds&E&Hsg&Hval&Hd&d&rest&->&_) _].
  destruct (scanner_digits (d :: rest) Hd) as [Hdig Hdec]. exists (sg ++ d :: rest). split; [done|].
  rewrite <- app_assoc. subst sg. destruct (Z.ltb_spec v 0).
  - rewrite (skip_int_between pre [45] true d rest l sign_minus Hdig); rewrite ?Hdec, ?Hval; [|done..].
    do 3 f_equal. lia.
  - rewrite (skip_int_between pre [] false d rest l sign_none Hdig); rewrite ?Hdec, ?Hval; [|done..].
    do 3 f_equal. lia.
Qed.

(** The least value of a type: narrower than [int] it is printed as characters that
    are not digits, else its negation is undefined. *)
Example least_int8_printed : format_decimal (mk_int true 8) (-128) = Ret [45; 47; 46; 40].
Proof. vm_compute. reflexivity. Qed.
Theorem least_value_not_printed t :
  signed t = true -> 32 <= width t -> format_decimal t (- 2 ^ (width t - 1)) = Trap.
Proof.
  intros Hs Hw. unfold format_decimal, split_sign, negate.
  pose proof (Z.pow_pos_nonneg 2 (width t - 1) ltac:(lia) ltac:(lia)).
  destruct (Z.ltb_spec (- 2 ^ (width t - 1)) 0); [|lia]. rewrite Z.eqb_refl.
  destruct (Z.leb_spec 32 (width t)); [done|lia].
Qed.

(** * Formats *)

Definition braces : list Z := [123; 125].

(** A format with a place for each argument, and what it should give. *)
Definition template (p : list Z) (rest : list (Arg * list Z)) : list Z :=
  p ++ concat (map (fun '(_, q) => braces ++ q) rest).

Fixpoint filled (rest : list (Arg * list Z)) : ctl (list Z) :=
  match rest with
  | [] => Ret []
  | (a, q) :: rest => s ← format_v a; t ← filled rest; Ret (s ++ q ++ t)
  end.

Lemma to_brace_app p l : 123 ∉ p -> to_brace (p ++ l) = (p ++ fst (to_brace l), snd (to_brace l)).
Proof.
  intros Hp. induction p as [|c p IH]; simpl; [by destruct (to_brace l)|].
  apply not_elem_of_cons in Hp as [Hc Hp]. destruct (Z.eqb_spec c 123); [lia|]. by rewrite IH.
Qed.

Lemma format_impl_filled rest : forall fuel p,
  (length rest < fuel)%nat -> 123 ∉ p -> Forall (fun '(_, q) => 123 ∉ q) rest ->
  format_impl fuel (template p rest) (map fst rest) = (t ← filled rest; Ret (p ++ t)).
Proof.
  induction rest as [|[a q] rest IH]; intros fuel p Hf Hp Hq; unfold template.
  { simpl. by destruct fuel. }
  apply Forall_cons in Hq as [Hq1 Hq2]. destruct fuel as [|fuel]; [simpl in Hf; lia|].
  cbn [map fst format_impl concat filled]. rewrite to_brace_app by done.
  change (to_brace ((braces ++ q) ++ concat (map (fun '(_, q) => braces ++ q) rest)))
    with ([] : list Z, 123 :: 125 :: template q rest). cbn [fst snd]. rewrite app_nil_r.
  destruct (format_v a) as [s| |]; cbn [mbind ctl_bind]; [|done..].
  rewrite IH by (simpl in Hf; done || lia). destruct (filled rest) as [t| |]; cbn [mbind ctl_bind]; [|done..].
  by rewrite <- ?app_assoc.
Qed.

(** C40: [format] with a place for each argument and no other opening brace in the
    format: each pair of braces is replaced by its argument, and the rest of the format
    is kept. (An opening brace that no closing one follows is dropped as long as an
    argument is left, so the rest is not kept then: [lone_brace_dropped].) *)
Theorem format_fills_places p rest :
  123 ∉ p -> Forall (fun '(_, q) => 123 ∉ q) rest ->
  format (template p rest) (map fst rest) = (t ← filled rest; Ret (p ++ t)).
Proof.
  intros Hp Hq. apply format_impl_filled; [|done|done]. unfold template. rewrite length_app.
  assert (length rest <= length (concat (map (fun '(_, q) => braces ++ q) rest)))%nat; [|lia].
  clear. induction rest as [|[a q] rest IH]; cbn [map concat length]; [lia|].
  rewrite !length_app. change (length braces) with 2%nat. lia.
Qed.

Lemma format_fills_places_witness :
  format (chars "pid {}: {} pages") [AInt int_t (-12); AFlagged uint64_t 255 (flag_value FMT_HEX)] =
  Ret (chars "pid -12: ff pages").
Proof.
  refine (eq_trans (format_fills_places (chars "pid ")
    [(AInt int_t (-12), chars ": "); (AFlagged uint64_t 255 (flag_value FMT_HEX), chars " pages")] _ _) _).
  - by apply (bool_decide_unpack _).
  - by apply (bool_decide_unpack _).
  - vm_compute. reflexivity.
Defined.

(** The place of the argument is found, but the brace before it is lost. *)
Lemma lone_brace_dropped : format (chars "a { b {}") [AInt int_t 1] = Ret (chars "a  b 1").
Proof. vm_compute. reflexivity. Qed.

(** Formatting ends on every format and argument list. *)
Lemma to_brace_length l : (length (snd (to_brace l)) <= length l)%nat.
Proof.
  induction l as [|c l IH]; simpl; [lia|]. destruct (c =? 123); [simpl; lia|].
  destruct (to_brace l). simpl in *. lia.
Qed.

Definition arg_ends (a : Arg) : Prop := format_v a <> NoFuel.

Lemma digits_loop_ends b ch room v : Text.digits_loop b ch room v <> NoFuel.
Proof.
  revert v. induction room as [|room IH]; intros v; simpl; destruct (v =? 0); try done.
  specialize (IH (Z.quot v b)). by destruct (Text.digits_loop b ch room (Z.quot v b)).
Qed.

Lemma split_sign_ends t v : split_sign t v <> NoFuel.
Proof. unfold split_sign, negate. by destruct (v <? 0), ((32 <=? width t) && (v =? - 2 ^ (width t - 1))). Qed.

Lemma format_decimal_ends t v : format_decimal t v <> NoFuel.
Proof.
  unfold format_decimal. pose proof (split_sign_ends t v). destruct (split_sign t v) as [[sg x]| |]; try done.
  cbn [mbind ctl_bind]. destruct (x =? 0); [done|]. pose proof (digits_loop_ends 10 decimal_char 20 x).
  by destruct (Text.digits_loop 10 decimal_char 20 x).
Qed.

Lemma format_hex_ends t v pad c : format_hex t v pad c <> NoFuel.
Proof.
  unfold format_hex. pose proof (split_sign_ends t v). destruct (split_sign t v) as [[sg x]| |]; try done.
  cbn [mbind ctl_bind]. destruct (x =? 0); [done|]. pose proof (digits_loop_ends 16 hex_char 17 x).
  by destruct (Text.digits_loop 16 hex_char 17 x).
Qed.

Lemma format_flagged_ends t v f : format_flagged t v f <> NoFuel.
Proof.
  unfold format_flagged. pose proof (format_decimal_ends t v). pose proof (format_hex_ends t v (pad_size f) (pad_char f)).
  destruct (is_hex f); [destruct (format_hex t v (pad_size f) (pad_char f))|destruct (format_decimal t v)]; try done;
    cbn [mbind ctl_bind]; destruct (color f); done.
Qed.

Lemma every_arg_ends a : arg_ends a.
Proof.
  unfold arg_ends. destruct a; simpl; try done;
    try apply format_decimal_ends; try apply format_flagged_ends.
  - pose proof (format_decimal_ends t start). pose proof (format_decimal_ends t end_).
    by destruct (format_decimal t start), (format_decimal t end_).
  - pose proof (format_flagged_ends t start f). pose proof (format_flagged_ends t end_ f).
    by destruct (format_flagged t start f), (format_flagged t end_ f).
Qed.

Lemma format_impl_ends fuel : forall fmt args, (length fmt < fuel)%nat -> format_impl fuel fmt args <> NoFuel.
Proof.
  induction fuel as [|fuel IH]; intros fmt args Hf; [lia|]. destruct args as [|a more]; [done|].
  cbn [format_impl]. pose proof (to_brace_length fmt) as Hl. destruct (to_brace fmt) as [text rest].
  cbn [snd] in Hl. pose proof (every_arg_ends a) as Ha. unfold arg_ends in Ha.
  destruct rest as [|c rest]; [done|]. simpl in Hl.
  assert (forall args, format_impl fuel rest args <> NoFuel) as Hr by (intros; apply IH; lia).
  assert (forall args r d, rest = d :: r -> format_impl fuel r args <> NoFuel) as Hr2
    by (intros args r d ->; apply IH; simpl in *; lia).
  assert (forall args, (tail ← format_impl fuel rest args; Ret (text ++ tail)) <> NoFuel) as Hskip
    by (intros args; specialize (Hr args); by destruct (format_impl fuel rest args)).
  assert (forall r d, rest = d :: r ->
    (shown ← format_v a; tail ← format_impl fuel r more; Ret (text ++ shown ++ tail)) <> NoFuel) as Hshow.
  { intros r d E. specialize (Hr2 more r d E). destruct (format_v a); try done. cbn [mbind ctl_bind].
    by destruct (format_impl fuel r more). }
  destruct rest as [|d r]; [apply Hskip|]. specialize (Hskip (a :: more)). specialize (Hshow r d eq_refl).
  destruct (decide (d = 125)) as [->|Hd]; [exact Hshow|].
  do 8 (destruct d as [|d|d]; try exact Hskip; try lia).
Qed.

(** Formatting ends: a turn passes at least one character of the format. *)
Theorem format_ends fmt args : format fmt args <> NoFuel.
Proof. apply format_impl_ends. lia. Qed.
