(* ===== verification/Init.v ===== *)
(** app/init and protocols/init/init.hpp: the table of services, the start of the
    modules when the services they require are there, and the messages between init
    and its clients.

    Text is the list of its characters, as bytes. Vectors are lists, and [push], whose
    result the code drops, succeeds. Starting one module (its file read, an address
    space made and a task launched in it) is the class [Launcher]. *)

From S2P Require Import Prelude Json Bytes IpcTypes.

Definition text_init_config : list Z := chars "/config/init-services.json".

(** The characters before the first NUL, which a [char *] stands for. *)
Fixpoint until_nul (l : list Z) : list Z :=
  match l with [] => [] | c :: l => if c =? 0 then [] else c :: until_nul l end.

(** * service_register.cpp *)

Record RegisteredService := mk_Service { name : list Z; major : Z; minor : Z; endpoint : Z }.

(** [service->name] holds 79 characters and a NUL. *)
Definition service_name (n : list Z) : list Z := until_nul (take 79 n).

(** [service_get]: the loop over the services. *)
Fixpoint service_get (services : list RegisteredService) (n : list Z) (want_major want_minor : Z) : result Z :=
  match services with
  | [] => Error "service not found"
  | s :: services =>
      if bool_decide (name s = n) && (major s =? want_major) && (want_minor <=? minor s)
      then Value (endpoint s) else service_get services n want_major want_minor
  end.

(** * module_startup.cpp *)

Record ModuleLaunch := mk_Launch { ml_name : list Z; ml_deps : list (list Z) }.

Class Launcher (W : Type) := {
  start_service : list Z -> W -> result Z * W;
  pci_devices : W -> list (Z * Z)            (* class code and subclass *)
}.

(** The static vectors of module_startup.cpp, and [gmcx]. *)
Record Startup (W : Type) := mk_Startup {
  module_to_launch : list ModuleLaunch;
  started_modules : list (list Z);
  started_services : list (list Z);
  gmcx : bool;
  world : W
}.
Arguments mk_Startup {W}.
Arguments module_to_launch {W}. Arguments started_modules {W}. Arguments started_services {W}.
Arguments gmcx {W}. Arguments world {W}.

Section startup.
Context {W : Type} `{Launcher W}.
Implicit Types (s : Startup W) (w : W).

Definition set_world s w : Startup W :=
  mk_Startup (module_to_launch s) (started_modules s) (started_services s) (gmcx s) w.
Definition set_gmcx s : Startup W :=
  mk_Startup (module_to_launch s) (started_modules s) (started_services s) true (world s).
Definition push_service s (n : list Z) : Startup W :=
  mk_Startup (module_to_launch s) (started_modules s) (started_services s ++ [n]) (gmcx s) (world s).
Definition push_launch s (m : ModuleLaunch) : Startup W :=
  mk_Startup (module_to_launch s ++ [m]) (started_modules s) (started_services s) (gmcx s) (world s).

(** The loop over the dependencies. *)
Fixpoint can_start (deps started : list (list Z)) : bool :=
  match deps with
  | [] => true
  | d :: deps => if negb (bool_decide (d ∈ started)) then false else can_start deps started
  end.

(** The loop of [try_startup_modules_cycle_one], with the modules it has passed and
    those ahead. *)
Fixpoint cycle_one_loop (passed ahead : list ModuleLaunch) s : bool * Startup W :=
  match ahead with
  | [] => (false, s)
  | m :: ahead =>
      if negb (can_start (ml_deps m) (started_services s)) then cycle_one_loop (passed ++ [m]) ahead s
      else
        let '(start_res, w) := start_service (ml_name m) (world s) in
        let s := set_world s w in
        if is_error start_res then cycle_one_loop (passed ++ [m]) ahead s
        else (true, mk_Startup (passed ++ ahead) (started_modules s ++ [ml_name m]) (started_services s) (gmcx s) w)
  end.

Definition try_startup_modules_cycle_one s : bool * Startup W := cycle_one_loop [] (module_to_launch s) s.

Fixpoint cycle_loop (fuel : nat) s : ctl (Startup W) :=
  match fuel with
  | O => NoFuel
  | S fuel =>
      let '(again, s) := try_startup_modules_cycle_one s in
      if again : bool then cycle_loop fuel s else Ret s
  end.

(** Each turn but the last starts a module. *)
Definition try_startup_modules_cycle s : ctl (Startup W) := cycle_loop (S (length (module_to_launch s))) s.

Definition service_startup_callback s (n : list Z) : ctl (result unit * Startup W) :=
  if negb (gmcx s) then Ret (Error "machine context is null", s)
  else s ← try_startup_modules_cycle (push_service s n); Ret (Value tt, s).

(** ** The configuration *)

(** [for (auto d : deps_array) ml.deps.push(try$(d.as_string()))]. *)
Fixpoint strings_of (l : list JsonValue) : result (list (list Z)) :=
  match l with
  | [] => Value []
  | d :: l =>
      match as_string d with
      | Error e => Error e
      | Value t => match strings_of l with Value ts => Value (t :: ts) | Error e => Error e end
      end
  end.

(** [operator[]] and [as_string], unwrapped by [try$]. *)
Definition string_at (v : JsonValue) (key : list Z) : ctl (result (list Z)) :=
  c ← index_key v key; Ret (as_string c).

(** The module of one entry of the list. *)
Definition launch_of (l : JsonValue) : ctl (result ModuleLaunch) :=
  n ← string_at l (chars "name");
  match n with
  | Error e => Ret (Error e)
  | Value _ =>
      path ← string_at l (chars "path");
      match path with
      | Error e => Ret (Error e)
      | Value path =>
          deps_json ← get_key l (chars "requires");
          match deps_json with
          | Error _ => Ret (Value (mk_Launch path []))
          | Value d =>
              match as_array d with
              | Error e => Ret (Error e)
              | Value ds =>
                  match strings_of ds with
                  | Error e => Ret (Error e)
                  | Value ts => Ret (Value (mk_Launch path ts))
                  end
              end
          end
      end
  end.

Fixpoint modules_loop (modules : list JsonValue) s : ctl (result unit * Startup W) :=
  match modules with
  | [] => Ret (Value tt, s)
  | l :: modules =>
      m ← launch_of l;
      match m with
      | Error e => Ret (Error e, s)
      | Value m => modules_loop modules (push_launch s m)
      end
  end.

(** The configuration among the boot modules, their paths and what they hold. *)
Fixpoint config_of (boot : list (list Z * list Z)) : option (list Z) :=
  match boot with
  | [] => None
  | (path, text) :: boot => if bool_decide (path = text_init_config) then Some text else config_of boot
  end.

(** [load_module_config]: the result, the root of [json] (null when there is none)
    and the modules. *)
Definition load_module_config (boot : list (list Z * list Z)) s : ctl (result unit * JsonValue * Startup W) :=
  match config_of boot with
  | None => Ret (Error "no config module found, cannot continue", JsonValue_init, s)
  | Some text =>
      json ← parse text;
      match json with
      | Error e => Ret (Error e, JsonValue_init, s)
      | Value root =>
          tb ← get_key root (chars "modules");
          match tb with
          | Error e => Ret (Error e, root, s)
          | Value tb =>
              match as_array tb with
              | Error e => Ret (Error e, root, s)
              | Value modules => '(r, s) ← modules_loop modules s; Ret (r, root, s)
              end
          end
      end
  end.

Fixpoint unwrap_strings (l : list JsonValue) : ctl (list (list Z)) :=
  match l with
  | [] => Ret []
  | d :: l => t ← unwrap (as_string d); ts ← unwrap_strings l; Ret (t :: ts)
  end.

(** A driver of the configuration against a device. *)
Definition match_driver (device : Z * Z) (driver : JsonValue) s : ctl (Startup W) :=
  pci_req ← get_key driver (chars "pci");
  match pci_req with
  | Error _ => Ret s
  | Value req =>
      c ← index_key req (chars "class-code"); code ← unwrap (as_number c);
      if negb (code =? fst device) then Ret s
      else
        c ← index_key req (chars "subclass-code"); sub ← unwrap (as_number c);
        if negb (sub =? snd device) then Ret s
        else
          n ← index_key driver (chars "name"); unwrap (as_string n);;
          p ← index_key driver (chars "path"); path ← unwrap (as_string p);
          deps_json ← get_key driver (chars "requires");
          match deps_json with
          | Error _ => Ret (push_launch s (mk_Launch path []))
          | Value d =>
              ds ← unwrap (as_array d); ts ← unwrap_strings ds;
              Ret (push_launch s (mk_Launch path ts))
          end
  end.

Fixpoint drivers_loop (device : Z * Z) (drivers : list JsonValue) s : ctl (Startup W) :=
  match drivers with
  | [] => Ret s
  | d :: drivers => s ← match_driver device d s; drivers_loop device drivers s
  end.

Fixpoint devices_loop (devices : list (Z * Z)) (drivers : list JsonValue) s : ctl (Startup W) :=
  match devices with
  | [] => Ret s
  | d :: devices => s ← drivers_loop d drivers s; devices_loop devices drivers s
  end.

Definition start_from_pci (root : JsonValue) s : ctl (Startup W) :=
  d ← index_key root (chars "drivers");
  drivers ← unwrap (as_array d);
  devices_loop (pci_devices (world s)) drivers s.

(** What [load_module_config] returns is dropped. *)
Definition startup_module (boot : list (list Z * list Z)) s : ctl (Startup W) :=
  '(_, root, s) ← load_module_config boot (set_gmcx s);
  s ← start_from_pci root s;
  try_startup_modules_cycle s.

(** * service_register.hpp: the server *)

Record MachineContextShared := mk_Shared {
  framebuffer_addr : Z; framebuffer_width : Z; framebuffer_height : Z
}.

Record InitServer := mk_Init {
  registered_services : list RegisteredService;
  startup : Startup W;
  shared : MachineContextShared
}.

Definition service_register (server : InitServer) (e : Z) (n : list Z) (ma mi : Z) : ctl InitServer :=
  let service := mk_Service (service_name n) ma mi e in
  '(_, s) ← service_startup_callback (startup server) (name service);
  Ret (mk_Init (registered_services server ++ [service]) s (shared server)).

(** The bytes of a message; the text in them is [len - 1] long. A message of length 0
    has a text of 2^64 - 1 characters, which the log reads. *)
Definition raw_buffer (m : IpcMessage) : list Z := ints_bytes 8 (buffer m).
Definition text_of (m : IpcMessage) : ctl (list Z) := slice (raw_buffer m) 0 (len m - 1).

Definition INIT_REGISTER_SERVER := 1.
Definition INIT_UNREGISTER_SERVER := 2.
Definition INIT_GET_SERVER := 3.
Definition INIT_SIGNAL_FS_AVAILABLE := 5.
Definition INIT_QUERY_FB := 6.

(** A message whose first arguments are [vs]. *)
Fixpoint with_args (i : Z) (vs : list Z) (m : IpcMessage) : ctl IpcMessage :=
  match vs with [] => Ret m | v :: vs => m ← arg_set i v m; with_args (i + 1) vs m end.

(** [call_received]: the message sent back, if any. [waiting] says that the client
    waits for one: a reply that nobody waits for is an error, which the framebuffer
    request asserts and the others drop; without a reply object the answer to
    INIT_GET_SERVER goes to a handle that was never set. *)
Definition call_received (memory : list Z) (server : InitServer) (msg : IpcMessage) (waiting : bool) :
    ctl (option IpcMessage * InitServer) :=
  let ack := if waiting then Some (IpcMessage_init memory) else None in
  code ← arg 0 msg;
  if code =? INIT_REGISTER_SERVER then
    e ← arg 1 msg; n ← text_of msg; ma ← arg 2 msg; mi ← arg 3 msg;
    server ← service_register server e n ma mi;
    Ret (ack, server)
  else if code =? INIT_GET_SERVER then
    n ← text_of msg; ma ← arg 1 msg; mi ← arg 2 msg;
    let found := match service_get (registered_services server) n ma mi with Value e => e | Error _ => u64 (-1) end in
    if waiting then r ← with_args 0 [found] (IpcMessage_init memory); Ret (Some r, server) else Trap
  else if code =? INIT_SIGNAL_FS_AVAILABLE then
    '(_, s) ← service_startup_callback (startup server) (chars "@fs");
    Ret (ack, mk_Init (registered_services server) s (shared server))
  else if code =? INIT_QUERY_FB then
    let fb := shared server in
    r ← with_args 0 [framebuffer_addr fb; framebuffer_width fb; framebuffer_height fb] (IpcMessage_init memory);
    if waiting then Ret (Some r, server) else Trap
  else Ret (None, server).
End startup.
Arguments InitServer : clear implicits.
Arguments mk_Init {W}.

(** * protocols/init/init.hpp: the client *)

(** The name copied into a message, with its NUL. [n] is the array of 80. *)
Definition put_name (n : list Z) (m : IpcMessage) : ctl IpcMessage :=
  let text := until_nul (take 80 n) in
  raw ← splice (raw_buffer m) 0 (text ++ [0]);
  Ret (mk_IpcMessage (arguments m) (port m) (zlen text + 1) (is_null m) (interrupted m)
         (fst (get_ints buffer_words 8 raw))).

Definition register_server (memory n : list Z) (ma mi e : Z) : ctl IpcMessage :=
  m ← with_args 0 [INIT_REGISTER_SERVER; e; ma; mi] (IpcMessage_init memory);
  put_name n m.

Definition get_server (memory n : list Z) (ma mi : Z) : ctl IpcMessage :=
  m ← with_args 0 [INIT_GET_SERVER; ma; mi] (IpcMessage_init memory);
  put_name n m.

(** What [get_server] makes of the answer: the endpoint. *)
Definition got_server (reply : IpcMessage) : ctl (result Z) :=
  d ← deref (aget (arguments reply) 0);
  Ret (if data d =? 0 then Error "server not found" else Value (data d)).

(** * The start of modules *)

Section startup_spec.
Context {W : Type} `{Launcher W}.
Implicit Types (s : Startup W) (w : W) (m : ModuleLaunch).

Definition ready (services : list (list Z)) m : Prop := Forall (fun d => d ∈ services) (ml_deps m).
#[export] Instance ready_dec services m : Decision (ready services m).
Proof. unfold ready. apply _. Defined.

Lemma can_start_ready deps services : can_start deps services = true <-> Forall (fun d => d ∈ services) deps.
Proof.
  induction deps as [|d deps IH]; simpl; [by split|]. rewrite Forall_cons, <- IH.
  destruct (bool_decide_reflect (d ∈ services)); simpl; naive_solver.
Qed.

Lemma ready_mono l1 l2 m : l1 ⊆ l2 -> ready l1 m -> ready l2 m.
Proof. intros Hl Hr. eapply Forall_impl; [exact Hr|]. intros d. apply Hl. Qed.

Lemma ready_permutation l1 l2 m : l1 ≡ₚ l2 -> ready l1 m <-> ready l2 m.
Proof. intros Hl. split; apply ready_mono; intros d; by rewrite Hl. Qed.

(** A start of the module has failed. *)
Definition refused m : Prop := exists w e w', start_service (ml_name m) w = (Error e, w').

(** From [s] to [s'] modules were started, all of them ready. *)
Record advanced s s' (launched : list ModuleLaunch) : Prop := {
  a_gmcx : gmcx s' = gmcx s;
  a_services : started_services s ⊆ started_services s';
  a_started : started_modules s' = started_modules s ++ map ml_name launched;
  a_kept : module_to_launch s ≡ₚ launched ++ module_to_launch s';
  a_order : forall services, started_services s' ⊆ services ->
    filter (fun m => ~ ready services m) (module_to_launch s') =
    filter (fun m => ~ ready services m) (module_to_launch s);
  a_ready : Forall (ready (started_services s')) launched
}.

Definition settled s : Prop := forall m, m ∈ module_to_launch s -> ready (started_services s) m -> refused m.

Lemma advanced_refl s : advanced s s [].
Proof. split; [done..|by rewrite app_nil_r|done|done|constructor]. Qed.

Lemma startup_trans s1 s2 s3 l1 l2 : advanced s1 s2 l1 -> advanced s2 s3 l2 -> advanced s1 s3 (l1 ++ l2).
Proof.
  intros [] []. split; [congruence|set_solver|..].
  - by rewrite map_app, app_assoc, <- a_started0.
  - by rewrite a_kept0, a_kept1, app_assoc.
  - intros services Hs. rewrite a_order1, a_order0 by set_solver. done.
  - apply Forall_app. split; [|done]. eapply Forall_impl; [done|]. intros m. by apply ready_mono.
Qed.

(** One turn: a ready module is started and leaves the list, or every ready one is
    refused. *)
Lemma cycle_one_spec ahead : forall passed s,
  let s' := snd (cycle_one_loop passed ahead s) in
  started_services s' = started_services s /\ gmcx s' = gmcx s /\
  if fst (cycle_one_loop passed ahead s) then
    exists pre m post, ahead = pre ++ m :: post /\ ready (started_services s) m /\
      module_to_launch s' = passed ++ pre ++ post /\ started_modules s' = started_modules s ++ [ml_name m]
  else module_to_launch s' = module_to_launch s /\ started_modules s' = started_modules s /\
       forall m, m ∈ ahead -> ready (started_services s) m -> refused m.
Proof.
  induction ahead as [|m ahead IH]; intros passed s; [simpl; set_solver|]. cbn [cycle_one_loop].
  pose proof (can_start_ready (ml_deps m) (started_services s)) as Hc. fold (ready (started_services s) m) in Hc.
  assert (forall s', started_services s' = started_services s -> module_to_launch s' = module_to_launch s ->
    started_modules s' = started_modules s -> gmcx s' = gmcx s ->
    (ready (started_services s) m -> refused m) ->
    let s'' := snd (cycle_one_loop (passed ++ [m]) ahead s') in
    started_services s'' = started_services s /\ gmcx s'' = gmcx s /\
    if fst (cycle_one_loop (passed ++ [m]) ahead s') then
      exists pre m' post, m :: ahead = pre ++ m' :: post /\ ready (started_services s) m' /\
        module_to_launch s'' = passed ++ pre ++ post /\ started_modules s'' = started_modules s ++ [ml_name m']
    else module_to_launch s'' = module_to_launch s /\ started_modules s'' = started_modules s /\
         forall m', m' ∈ m :: ahead -> ready (started_services s) m' -> refused m') as Hnext.
  { intros s' E1 E2 E3 E4 Hr. specialize (IH (passed ++ [m]) s'). cbv zeta in *. rewrite E1, E2, E3, E4 in IH.
    destruct IH as (I1&I2&I3). split; [done|]. split; [done|].
    destruct (fst (cycle_one_loop (passed ++ [m]) ahead s')).
    - destruct I3 as (pre&m'&post&->&Hm&El&Es). exists (m :: pre), m', post.
      split; [done|]. split; [done|]. split; [|done]. by rewrite El, <- app_assoc.
    - destruct I3 as (El&Es&Ha). split; [done|]. split; [done|]. intros m' [->|Hin]%elem_of_cons; [done|by apply Ha]. }
  destruct (can_start (ml_deps m) (started_services s)); simpl.
  - destruct (start_service (ml_name m) (world s)) as [[i|e] w] eqn:E; simpl.
    + split; [done|]. split; [done|]. exists [], m, ahead. naive_solver.
    + apply Hnext; try done. intros _. by exists (world s), e, w.
  - apply Hnext; try done. naive_solver.
Qed.

Lemma turn_spec s :
  let s' := snd (try_startup_modules_cycle_one s) in
  if fst (try_startup_modules_cycle_one s) then
    (exists m, advanced s s' [m] /\ S (length (module_to_launch s')) = length (module_to_launch s)) /\
    started_services s' = started_services s
  else advanced s s' [] /\ module_to_launch s' = module_to_launch s /\ settled s' /\
       started_services s' = started_services s.
Proof.
  pose proof (cycle_one_spec (module_to_launch s) [] s) as Hs. unfold try_startup_modules_cycle_one. cbv zeta in *.
  destruct (cycle_one_loop [] (module_to_launch s) s) as [[] s']; cbn [fst snd] in *.
  - destruct Hs as (E1&E2&pre&m&post&E3&Hr&E4&E5). split; [|done]. exists m. simpl in E4. split.
    + split; rewrite ?E1, ?E3, ?E4; try done.
      * simpl. by rewrite Permutation_middle.
      * intros services Hs. rewrite !filter_app, filter_cons. rewrite decide_False; [done|].
        intros Hn. apply Hn. by apply (ready_mono (started_services s)).
      * by repeat constructor.
    + rewrite E3, E4, !length_app. simpl. lia.
  - destruct Hs as (E1&E2&E3&E4&Hr). split; [|split; [done|split; [|done]]].
    + split; rewrite ?E1, ?E3, ?E4; try done. by rewrite app_nil_r.
    + unfold settled. by rewrite E1, E3.
Qed.

Lemma cycle_spec s : exists s' launched,
  try_startup_modules_cycle s = Ret s' /\ advanced s s' launched /\ settled s' /\
  started_services s' = started_services s.
Proof.
  unfold try_startup_modules_cycle. remember (length (module_to_launch s)) as n eqn:En.
  revert s En. induction n as [n IH] using lt_wf_ind. intros s ->. cbn [cycle_loop].
  pose proof (turn_spec s) as Ht. destruct (try_startup_modules_cycle_one s) as [[] s1]; cbn [fst snd] in Ht.
  - destruct Ht as ((m&Ha&Hl)&Es). destruct (IH (length (module_to_launch s1)) ltac:(lia) s1 eq_refl) as (s'&l&E&Ha'&Hs&Es').
    rewrite Hl in E. exists s', (m :: l). split; [done|]. split; [|split; [done|congruence]].
    by apply (startup_trans s s1 s' [m] l).
  - destruct Ht as (Ha&_&Hs&Es). exists s1, []. by split_and!.
Qed.
End startup_spec.

Section services.
Context {W : Type} `{Launcher W}.
Implicit Types (s : Startup W) (w : W) (m : ModuleLaunch).

(** Services that appear one after the other. *)
Fixpoint services_appear s (l : list (list Z)) : ctl (Startup W) :=
  match l with
  | [] => Ret s
  | n :: l => '(_, s) ← service_startup_callback s n; services_appear s l
  end.

Lemma callback_spec s n : gmcx s = true -> exists s' launched,
  service_startup_callback s n = Ret (Value tt, s') /\ advanced s s' launched /\ settled s' /\
  started_services s' = started_services s ++ [n].
Proof.
  intros Hg. unfold service_startup_callback. rewrite Hg. cbn [negb].
  destruct (cycle_spec (push_service s n)) as (s'&l&E&Ha&Hs&Es). rewrite E.
  exists s', l. split; [done|]. split; [|done]. destruct Ha. split; try done. set_solver.
Qed.

Lemma services_appear_spec l : forall s, gmcx s = true -> settled s -> exists s' launched,
  services_appear s l = Ret s' /\ advanced s s' launched /\ settled s' /\
  started_services s' = started_services s ++ l.
Proof.
  induction l as [|n l IH]; intros s Hg Hs; cbn [services_appear].
  { exists s, []. split; [done|]. split; [apply advanced_refl|]. by rewrite app_nil_r. }
  destruct (callback_spec s n Hg) as (s1&l1&E1&A1&S1&N1). rewrite E1. cbn [mbind ctl_bind].
  destruct (IH s1) as (s2&l2&E2&A2&S2&N2); [by rewrite (a_gmcx _ _ _ A1)|done|].
  exists s2, (l1 ++ l2). split; [done|]. split; [by apply (startup_trans s s1)|]. split; [done|].
  by rewrite N2, N1, <- app_assoc.
Qed.

(** The modules left, when none refuses to start. *)
Lemma kept_unready s s' launched :
  advanced s s' launched -> settled s' -> (forall m w, is_error (fst (start_service (ml_name m) w)) = false) ->
  module_to_launch s' = filter (fun m => ~ ready (started_services s') m) (module_to_launch s).
Proof.
  intros [] Hs Hok. rewrite <- a_order0 by done.
  assert (Forall (fun m => ~ ready (started_services s') m) (module_to_launch s')) as Hf.
  { apply Forall_forall. intros m Hin Hr. destruct (Hs m Hin Hr) as (w&e&w'&E). specialize (Hok m w).
    by rewrite E in Hok. }
  clear -Hf. induction Hf as [|m l Hm _ IH]; [done|]. rewrite filter_cons, decide_True by done. by f_equal.
Qed.

(** C6: From the start of init on, whatever services appear: each module waits or has
    been started, once; it is started only when all it requires is there; and a module
    that still waits lacks a service or could not be started. The start of modules
    ends each time. *)
Theorem modules_start_when_ready s l :
  gmcx s = true -> exists s0 s' launched,
    try_startup_modules_cycle s = Ret s0 /\ services_appear s0 l = Ret s' /\
    started_services s' = started_services s ++ l /\
    started_modules s' = started_modules s ++ map ml_name launched /\
    module_to_launch s ≡ₚ launched ++ module_to_launch s' /\
    (forall m, m ∈ launched -> ready (started_services s') m) /\
    (forall m, m ∈ module_to_launch s' -> ready (started_services s') m -> refused m).
Proof.
  intros Hg. destruct (cycle_spec s) as (s0&l0&E0&A0&S0&N0).
  destruct (services_appear_spec l s0) as (s'&l'&E'&A'&S'&N'); [by rewrite (a_gmcx _ _ _ A0)|done|].
  exists s0, s', (l0 ++ l'). pose proof (startup_trans _ _ _ _ _ A0 A') as [].
  split; [done|]. split; [done|]. split; [by rewrite N', N0|]. split; [done|]. split; [done|].
  split; [by apply Forall_forall|done].
Qed.

(** When no module refuses to start, the modules that wait after the services
    [l] have appeared are those that require something else, and all the others have
    been started: the order of the services does not matter. *)
Theorem started_modules_depend_on_services_only s l1 l2 :
  gmcx s = true -> (forall m w, is_error (fst (start_service (ml_name m) w)) = false) -> l1 ≡ₚ l2 ->
  exists s0 s1 s2, try_startup_modules_cycle s = Ret s0 /\
    services_appear s0 l1 = Ret s1 /\ services_appear s0 l2 = Ret s2 /\
    module_to_launch s1 = filter (fun m => ~ ready (started_services s ++ l1) m) (module_to_launch s) /\
    module_to_launch s2 = module_to_launch s1 /\ started_modules s2 ≡ₚ started_modules s1.
Proof.
  intros Hg Hok Hl. destruct (cycle_spec s) as (s0&l0&E0&A0&S0&N0). exists s0.
  assert (forall l, exists s' launched, services_appear s0 l = Ret s' /\ advanced s s' launched /\
    module_to_launch s' = filter (fun m => ~ ready (started_services s ++ l) m) (module_to_launch s)) as Hone.
  { intros l. destruct (services_appear_spec l s0) as (s'&l'&E'&A'&S'&N'); [by rewrite (a_gmcx _ _ _ A0)|done|].
    exists s', (l0 ++ l'). pose proof (startup_trans _ _ _ _ _ A0 A') as A. split; [done|]. split; [done|].
    rewrite N0 in N'. rewrite <- N'. by apply (kept_unready s s' (l0 ++ l')). }
  destruct (Hone l1) as (s1&n1&E1&A1&F1), (Hone l2) as (s2&n2&E2&A2&F2). exists s1, s2.
  assert (module_to_launch s2 = module_to_launch s1) as Eq.
  { rewrite F1, F2. apply list_filter_iff. intros m. by rewrite (ready_permutation (started_services s ++ l1) (started_services s ++ l2)) by by rewrite Hl. }
  split_and!; try done. rewrite (a_started _ _ _ A1), (a_started _ _ _ A2).
  apply Permutation_app_head, Permutation_map. apply (Permutation_app_inv_r (module_to_launch s1)).
  rewrite <- (a_kept _ _ _ A1), <- Eq. symmetry. apply A2.
Qed.
End services.

(** * The messages of init *)

Section messages.
Context {W : Type} `{Launcher W}.
Implicit Types server : InitServer W.

Definition word_arg (v : Z) : IpcData := mk_IpcData false false false (u64 v).

Lemma arg_word m i v : aget (arguments m) i = Some (word_arg v) -> 0 <= v < 2 ^ 64 -> arg i m = Ret v.
Proof. intros Hi Hv. unfold arg. rewrite Hi. cbn. by rewrite wrapu_small by lia. Qed.

Lemma until_nul_idem l : until_nul (until_nul l) = until_nul l.
Proof. induction l as [|c l IH]; [done|]. simpl. destruct (c =? 0) eqn:E; [done|]. simpl. by rewrite E, IH. Qed.

(** The text of a message with its first arguments set. *)
Lemma put_name_text m a :
  length (buffer m) = buffer_words -> Forall byte (until_nul (take 80 a)) -> exists m',
    put_name a m = Ret m' /\ arguments m' = arguments m /\ text_of m' = Ret (until_nul (take 80 a)).
Proof.
  intros Hb Hn. unfold put_name. set (text := until_nul (take 80 a)) in *.
  assert (zlen text <= 80) as Hlen.
  { unfold text. assert (forall l : list Z, (length (until_nul l) <= length l)%nat) as Hu.
    { induction l as [|c l IH]; simpl; [lia|]. destruct (c =? 0); simpl; lia. }
    specialize (Hu (take 80 a)). rewrite length_take in Hu. lia. }
  assert (length (raw_buffer m) = 112%nat) as Hr by (unfold raw_buffer; rewrite length_ints_bytes, Hb; done).
  rewrite splice_in by (rewrite ?length_app; simpl; lia). eexists. split; [done|]. split; [done|].
  unfold text_of, raw_buffer. cbn [buffer len]. fold (raw_buffer m). replace (zlen text + 1 - 1) with (zlen text) by lia.
  rewrite ints_bytes_get_ints.
  - rewrite slice_in by (rewrite ?length_patch; rewrite ?length_app; simpl; lia). f_equal.
    pose proof (part_part (patch (raw_buffer m) 0 (text ++ [0])) 0 (zlen (text ++ [0])) 0 (zlen text)) as Ep.
    rewrite part_patch_same in Ep by (rewrite ?length_app; simpl; lia). change (0 + 0) with 0 in Ep.
    rewrite <- Ep by (rewrite ?length_app; simpl; lia). unfold part. by rewrite Nat2Z.id, drop_0, take_app_length.
  - apply patch_byte; [apply ints_bytes_byte|]. apply Forall_app. split; [done|]. repeat constructor; unfold byte; lia.
  - rewrite length_patch by (rewrite ?length_app; simpl; lia). by rewrite Hr.
Qed.

Lemma callback_total s n : exists r s', service_startup_callback s n = Ret (r, s').
Proof.
  destruct (gmcx s) eqn:Hg; [|unfold service_startup_callback; rewrite Hg; by eexists _, _].
  destruct (callback_spec s n Hg) as (s'&l&E&_). by eexists _, _.
Qed.

Lemma service_get_app l n ma mi s :
  service_get (l ++ [s]) n ma mi =
    match service_get l n ma mi with
    | Value e => Value e
    | Error _ => service_get [s] n ma mi
    end.
Proof.
  induction l as [|x l IH]; [done|]. cbn [app service_get].
  by destruct (bool_decide (name x = n) && (major x =? ma) && (mi <=? minor x)).
Qed.

(** The request and its answer: what [service_get] finds, or an endpoint that is no
    endpoint when it finds none, since the client only looks for 0. *)
Lemma get_server_answers memory server a ma mi :
  length memory = buffer_words -> Forall byte (until_nul (take 80 a)) -> 0 <= ma < 2 ^ 64 -> 0 <= mi < 2 ^ 64 ->
  exists m r, get_server memory a ma mi = Ret m /\ call_received memory server m true = Ret (Some r, server) /\
    got_server r = Ret (match service_get (registered_services server) (until_nul (take 80 a)) ma mi with
                        | Value e => if u64 e =? 0 then Error "server not found" else Value (u64 e)
                        | Error _ => Value (2 ^ 64 - 1) end).
Proof.
  intros Hm Hn Hma Hmi. unfold get_server.
  change (with_args 0 [INIT_GET_SERVER; ma; mi] (IpcMessage_init memory))
    with (Ret (mk_IpcMessage [word_arg 3; word_arg ma; word_arg mi; IpcData_init; IpcData_init; IpcData_init] 0 0 false false memory)).
  cbn [mbind ctl_bind].
  destruct (put_name_text (mk_IpcMessage [word_arg 3; word_arg ma; word_arg mi; IpcData_init; IpcData_init; IpcData_init]
    0 0 false false memory) a Hm Hn) as (m&E&Ea&Et). exists m. rewrite E.
  assert (arg 0 m = Ret 3 /\ arg 1 m = Ret ma /\ arg 2 m = Ret mi) as (A0&A1&A2).
  { split_and!; apply arg_word; (by rewrite Ea) || lia. }
  unfold call_received. rewrite A0. cbn [mbind ctl_bind]. change (3 =? INIT_REGISTER_SERVER) with false.
  change (3 =? INIT_GET_SERVER) with true. cbv iota. rewrite Et, A1, A2. cbn [mbind ctl_bind].
  set (found := match service_get _ _ _ _ with Value e => e | Error _ => _ end).
  change (with_args 0 [found] (IpcMessage_init memory))
    with (Ret (mk_IpcMessage [word_arg found; IpcData_init; IpcData_init; IpcData_init; IpcData_init; IpcData_init] 0 0 false false memory)).
  cbn [mbind ctl_bind]. eexists. split; [done|]. split; [done|]. unfold got_server, found.
  by destruct (service_get (registered_services server) (until_nul (take 80 a)) ma mi).
Qed.

Lemma register_server_registers memory server a ma mi e :
  length memory = buffer_words -> Forall byte (until_nul (take 80 a)) ->
  0 <= ma < 2 ^ 64 -> 0 <= mi < 2 ^ 64 -> 0 <= e < 2 ^ 64 ->
  exists m server', register_server memory a ma mi e = Ret m /\
    call_received memory server m true = Ret (Some (IpcMessage_init memory), server') /\
    registered_services server' =
      registered_services server ++ [mk_Service (service_name (until_nul (take 80 a))) ma mi e].
Proof.
  intros Hm Hn Hma Hmi He. unfold register_server.
  change (with_args 0 [INIT_REGISTER_SERVER; e; ma; mi] (IpcMessage_init memory))
    with (Ret (mk_IpcMessage [word_arg 1; word_arg e; word_arg ma; word_arg mi; IpcData_init; IpcData_init] 0 0 false false memory)).
  cbn [mbind ctl_bind].
  destruct (put_name_text (mk_IpcMessage [word_arg 1; word_arg e; word_arg ma; word_arg mi; IpcData_init; IpcData_init]
    0 0 false false memory) a Hm Hn) as (m&E&Ea&Et). exists m. rewrite E.
  assert (arg 0 m = Ret 1 /\ arg 1 m = Ret e /\ arg 2 m = Ret ma /\ arg 3 m = Ret mi) as (A0&A1&A2&A3).
  { split_and!; apply arg_word; (by rewrite Ea) || lia. }
  unfold call_received. rewrite A0. cbn [mbind ctl_bind]. change (1 =? INIT_REGISTER_SERVER) with true.
  cbv iota. rewrite A1, Et, A2, A3. cbn [mbind ctl_bind]. unfold service_register. cbn [name].
  destruct (callback_total (startup server) (service_name (until_nul (take 80 a)))) as (r&s'&->).
  cbn [mbind ctl_bind]. eexists. by split_and!.
Qed.
(** C7: A client that asks init for a service gets the endpoint of the server that has
    registered it, if no service found before has the name and the version too. *)
Theorem registered_service_is_found memory server a b n ma mi want e why :
  length memory = buffer_words -> Forall byte n -> (length n <= 79)%nat ->
  until_nul (take 80 a) = n -> until_nul (take 80 b) = n ->
  0 <= ma < 2 ^ 64 -> 0 <= want <= mi -> mi < 2 ^ 64 -> 0 < e < 2 ^ 64 ->
  service_get (registered_services server) n ma want = Error why ->
  exists reg ack server' req r,
    register_server memory a ma mi e = Ret reg /\
    call_received memory server reg true = Ret (Some ack, server') /\
    get_server memory b ma want = Ret req /\
    call_received memory server' req true = Ret (Some r, server') /\ got_server r = Ret (Value e).
Proof.
  intros Hm Hn Hlen Ea Eb Hma Hmi Hmi2 He Hnone.
  destruct (register_server_registers memory server a ma mi e) as (reg&server'&E1&C1&Es); rewrite ?Ea; try done; [lia..|].
  destruct (get_server_answers memory server' b ma want) as (req&r&E2&C2&G); rewrite ?Eb; try done; [lia|].
  exists reg, (IpcMessage_init memory), server', req, r. split_and!; try done.
  rewrite G, Eb, Es, Ea, service_get_app, Hnone. unfold service_name. rewrite take_ge by done.
  assert (until_nul n = n) as -> by (rewrite <- Ea; apply until_nul_idem). cbn [service_get name major minor].
  rewrite bool_decide_eq_true_2, Z.eqb_refl by done. destruct (Z.leb_spec want mi); [|lia].
  cbn [andb endpoint]. rewrite wrapu_small by lia. by destruct (Z.eqb_spec e 0); [lia|].
Qed.

(** A service that nobody has registered is given an endpoint all the same. *)
Theorem missing_service_looks_found memory server b n ma want why :
  length memory = buffer_words -> Forall byte n -> until_nul (take 80 b) = n ->
  0 <= ma < 2 ^ 64 -> 0 <= want < 2 ^ 64 -> service_get (registered_services server) n ma want = Error why ->
  exists req r, get_server memory b ma want = Ret req /\
    call_received memory server req true = Ret (Some r, server) /\ got_server r = Ret (Value (2 ^ 64 - 1)).
Proof.
  intros Hm Hn Eb Hma Hw Hnone.
  destruct (get_server_answers memory server b ma want) as (req&r&E2&C2&G); rewrite ?Eb; try done.
  exists req, r. split_and!; try done. by rewrite G, Eb, Hnone.
Qed.
End messages.

(** * The configuration that is shipped *)

Section shipped.

(** meta/sysroot/boot/config/init-services.json, with the quotes as apostrophes. *)
Definition shipped_text : string := "{
  'modules': [
    {
      'name': 'vfs-wingos',
      'path': '/bin/vfs-wingos'
    },
    {
      'name': 'ext4-wingos',
      'path': '/bin/ext4-wingos',
      'requires': ['vfs']
    },
    {
      'name': 'compositor',
      'path': '/bin/sys-compositor',
      'requires': ['@fs', 'human-interface', 'clock']
    },
    {
      'name': 'gui-demo',
      'path': '/bin/gui-demo',
      'requires': ['human-interface', 'clock', 'compositor', '@fs']
    },
    {
      'name': 'ps2',
      'path': '/bin/ps2',
      'requires': ['@fs']
    },
    {
      'name': 'wingos-clock',
      'path': '/bin/wingos-clock',
      'requires': ['@fs']
    },
    {
      'name': 'hello-wingos',
      'path': '/bin/hello-wingos',
      'requires': ['@fs', 'humming-bird']
    },
    {
      'name': 'humming-bird',
      'path': '/bin/humming-bird',
      'requires': ['@fs']
    }
  ],
  'drivers': [
    {
      'name': 'nvme-wingos',
      'path': '/bin/nvme-wingos',
      'pci': {
        'class-code': 1,
        'subclass-code': 8
      },
      'requires': ['vfs']
    }
  ],

  'disk': []
}".

Definition shipped_config : list Z := map (fun c => if c =? 39 then 34 else c) (chars shipped_text).

(** A machine with an NVMe disk, where each module can be started. *)
#[local] Instance willing : Launcher unit := {|
  start_service := fun _ w => (Value 0, w); pci_devices := fun _ => [(1, 8); (3, 0)]
|}.

Definition nothing_started : Startup unit := mk_Startup [] [] [] false tt.

(** Before the first cycle: the modules of the configuration, and the driver. *)
Definition configured : ctl (Startup unit) :=
  '(_, root, s) ← load_module_config [(chars "/bin/init", []); (text_init_config, shipped_config)] (set_gmcx nothing_started);
  start_from_pci root s.

Definition shipped_modules : list ModuleLaunch := [
  mk_Launch (chars "/bin/vfs-wingos") [];
  mk_Launch (chars "/bin/ext4-wingos") [chars "vfs"];
  mk_Launch (chars "/bin/sys-compositor") [chars "@fs"; chars "human-interface"; chars "clock"];
  mk_Launch (chars "/bin/gui-demo") [chars "human-interface"; chars "clock"; chars "compositor"; chars "@fs"];
  mk_Launch (chars "/bin/ps2") [chars "@fs"];
  mk_Launch (chars "/bin/wingos-clock") [chars "@fs"];
  mk_Launch (chars "/bin/hello-wingos") [chars "@fs"; chars "humming-bird"];
  mk_Launch (chars "/bin/humming-bird") [chars "@fs"];
  mk_Launch (chars "/bin/nvme-wingos") [chars "vfs"]].

Example shipped_config_read : configured = Ret (mk_Startup shipped_modules [] [] true tt).
Proof. vm_compute. reflexivity. Qed.

Definition shipped_services : list (list Z) :=
  [chars "vfs"; chars "@fs"; chars "clock"; chars "human-interface"; chars "compositor"; chars "humming-bird"].

(** Every module of the configuration is started, in whatever order the services appear. *)
Lemma started_modules_depend_on_services_only_witness :
  exists s0 s1 s2, try_startup_modules_cycle (mk_Startup shipped_modules [] [] true tt) = Ret s0 /\
    services_appear s0 shipped_services = Ret s1 /\ services_appear s0 (reverse shipped_services) = Ret s2 /\
    module_to_launch s1 = [] /\ module_to_launch s2 = module_to_launch s1 /\ started_modules s2 ≡ₚ started_modules s1.
Proof.
  destruct (started_modules_depend_on_services_only (mk_Startup shipped_modules [] [] true tt)
    shipped_services (reverse shipped_services)) as (s0&s1&s2&E0&E1&E2&F&Eq&P); [done|done|by rewrite reverse_Permutation|].
  exists s0, s1, s2. split; [exact E0|]. split; [exact E1|]. split; [exact E2|].
  split; [|split; [exact Eq|exact P]]. rewrite F. vm_compute. reflexivity.
Defined.

Lemma modules_start_when_ready_witness : exists s0 s' launched,
    try_startup_modules_cycle (mk_Startup shipped_modules [] [] true tt) = Ret s0 /\
    services_appear s0 [chars "vfs"] = Ret s' /\
    started_services s' = [chars "vfs"] /\ started_modules s' = map ml_name launched /\
    shipped_modules ≡ₚ launched ++ module_to_launch s' /\
    (forall m, m ∈ launched -> ready (started_services s') m) /\
    (forall m, m ∈ module_to_launch s' -> ready (started_services s') m -> refused m).
Proof.
  exact (modules_start_when_ready (mk_Startup shipped_modules [] [] true tt) [chars "vfs"] eq_refl).
Defined.
Definition no_services : InitServer unit := mk_Init [] nothing_started (mk_Shared 0 0 0).

Lemma registered_service_is_found_witness : exists reg ack server' req r,
    register_server (replicate 14 0) (chars "vfs" ++ replicate 77 0) 1 2 42 = Ret reg /\
    call_received (W := unit) (H := willing) (replicate 14 0) no_services reg true = Ret (Some ack, server') /\
    get_server (replicate 14 0) (chars "vfs" ++ replicate 77 0) 1 0 = Ret req /\
    call_received (W := unit) (H := willing) (replicate 14 0) server' req true = Ret (Some r, server') /\
    got_server r = Ret (Value 42).
Proof.
  apply (registered_service_is_found (W := unit) (H := willing) (replicate 14 0) no_services _ _ (chars "vfs") 1 2 0 42
    "service not found"); try reflexivity; try lia.
  - apply (bool_decide_unpack (Forall byte (chars "vfs"))). vm_compute. reflexivity.
  - vm_compute. lia.
Defined.
End shipped.
