(* ===== verification/Ps2.v ===== *)
(** app/udev/ps2 and protocols/hi: the driver of the PS/2 keyboard and mouse, and the
    events its clients receive through shared rings.

    The two ports of the controller are hardware, the class [Ps2Ports]. A loop that
    lasts while the controller has bytes makes [patience] turns at most. A ring that
    is full makes [produce] wait until a client takes an event; the service is then
    stuck as far as this model goes ([NoFuel]). *)

From S2P Require Ring.
From S2P Require Import Prelude.
Import Ring.PCRing.

(** * controller.hpp *)

Definition PS2_IO_BASE : Z := 0x60.
Definition PS2_DATA_PORT : Z := 0.
Definition PS2_STATUS_PORT : Z := 4.
Definition PS2_COMMAND_PORT : Z := 4.

Definition PS2_OUTPUT_STATUS_FULL : Z := 1.

Definition PS2_CONTROLLER_CONFIG_READ : Z := 0x20.
Definition PS2_CONTROLLER_CONFIG_WRITE : Z := 0x60.
Definition PS2_SECOND_PORT_ENABLE : Z := 0xA8.
Definition PS2_FIRST_PORT_ENABLE : Z := 0xAE.
Definition PS2_WRITE_FIRST_PORT_OUTPUT : Z := 0xD2.
Definition PS2_WRITE_SECOND_PORT_OUTPUT : Z := 0xD3.
Definition PS2_WRITE_SECOND_PORT_INPUT : Z := 0xD4.
Definition PS2_CFG_FIRST_PORT_INTERRUPT_ENABLE : Z := 1.
Definition PS2_CFG_SECOND_PORT_INTERRUPT_ENABLE : Z := 2.

Class Ps2Ports (W : Type) := { inb : Z -> W -> Z * W; outb : Z -> Z -> W -> W }.

(** * The events *)

Record Ps2KeyboardEvent := mk_KeyEvent { key : Z; down : bool }.
Record MouseEvent := mk_MouseEvent { offx : Z; offy : Z; scroll : Z; left : bool; right : bool; middle : bool }.

(** [HIEvent]. *)
Inductive HIEvent := HIMouse (dx dy buttons : Z) | HIKeyboard (keycode : Z) (pressed : bool).

Definition HI_EVENT_TYPE_MOUSE : Z := 2.
Definition HI_EVENT_TYPE_KEYBOARD : Z := 4.

(** * keyboard.hpp: a packet *)

Record Ps2Keyboard := mk_Keyboard { escape : bool; key_events : list Ps2KeyboardEvent }.

Definition key_packet (packet : Z) (k : Ps2Keyboard) : Ps2Keyboard :=
  if escape k then
    mk_Keyboard false (key_events k ++ [mk_KeyEvent (u8 (Z.land packet 0x7f + 0x80)) (negb (Z.testbit packet 7))])
  else if packet =? 0xE0 then mk_Keyboard true (key_events k)
  else mk_Keyboard false (key_events k ++ [mk_KeyEvent (u8 (Z.land packet 0x7f)) (negb (Z.testbit packet 7))]).

(** * mouse.hpp: a packet *)

Record Mouse := mk_Mouse { has_wheel : bool; cycle : Z; mouse_events : list MouseEvent; buf : list Z }.

Definition set_cycle (m : Mouse) (c : Z) : Mouse := mk_Mouse (has_wheel m) c (mouse_events m) (buf m).
Definition set_byte (m : Mouse) (i b : Z) : ctl Mouse :=
  l ← deref (aset (buf m) i b); Ret (mk_Mouse (has_wheel m) (cycle m) (mouse_events m) l).

(** The offset in a byte and its sign in the flags. *)
Definition offset (byte flags sign : Z) : Z :=
  if negb (byte =? 0) && Z.testbit flags sign then byte - 0x100 else byte.

Definition handle_packet_group (m : Mouse) : ctl Mouse :=
  flags ← deref (aget (buf m) 0);
  x ← deref (aget (buf m) 1);
  y ← deref (aget (buf m) 2);
  z ← deref (aget (buf m) 3);
  let ev := mk_MouseEvent (offset x flags 4) (offset y flags 5) (if has_wheel m then wraps 8 z else 0)
              (Z.testbit flags 0) (Z.testbit flags 1) (Z.testbit flags 2) in
  Ret (mk_Mouse (has_wheel m) 0 (mouse_events m ++ [ev]) (buf m)).

Definition handle_packet (packet : Z) (m : Mouse) : ctl Mouse :=
  if cycle m =? 0 then
    m ← set_byte m 0 packet;
    Ret (if Z.testbit packet 3 then set_cycle m (cycle m + 1) else m)
  else if cycle m =? 1 then m ← set_byte m 1 packet; Ret (set_cycle m (cycle m + 1))
  else if cycle m =? 2 then
    m ← set_byte m 2 packet;
    if has_wheel m then Ret (set_cycle m (cycle m + 1)) else handle_packet_group m
  else if cycle m =? 3 then m ← set_byte m 3 packet; handle_packet_group m
  else Ret (set_cycle m 0).

(** * The controller and its users *)

Section ps2.
Context {W : Type} `{Ps2Ports W}.
Implicit Types w : W.

Definition status w : Z * W := inb (PS2_IO_BASE + PS2_STATUS_PORT) w.

(** [while (timeout--)]: looks at the status until [ok]. *)
Fixpoint wait (timeout : nat) (ok : Z -> bool) w : W :=
  match timeout with
  | O => w
  | S timeout => let '(st, w) := status w in if ok st then w else wait timeout ok w
  end.

Definition TIMEOUT : nat := Z.to_nat 100000.

Definition wait_read w : W := wait TIMEOUT (fun st => Z.land st PS2_OUTPUT_STATUS_FULL =? 1) w.
Definition wait_write w : W := wait TIMEOUT (fun st => Z.land st PS2_OUTPUT_STATUS_FULL =? 0) w.

Definition command (cmd : Z) w : W := outb (PS2_IO_BASE + PS2_COMMAND_PORT) cmd (wait_write w).
Definition data_read w : Z * W := inb (PS2_IO_BASE + PS2_DATA_PORT) (wait_read w).
Definition data_write (data : Z) w : W := outb (PS2_IO_BASE + PS2_DATA_PORT) data (wait_write w).

Definition config_read w : Z * W := data_read (command PS2_CONTROLLER_CONFIG_READ w).
Definition config_write (data : Z) w : W := data_write data (command PS2_CONTROLLER_CONFIG_WRITE w).

Definition port2_init w : W :=
  let '(cfg, w) := config_read (command PS2_SECOND_PORT_ENABLE w) in
  config_write (Z.lor cfg PS2_CFG_SECOND_PORT_INTERRUPT_ENABLE) w.
Definition port1_init w : W :=
  let '(cfg, w) := config_read (command PS2_FIRST_PORT_ENABLE w) in
  config_write (Z.lor cfg PS2_CFG_FIRST_PORT_INTERRUPT_ENABLE) w.
Definition port2_write (data : Z) w : W := data_write data (command PS2_WRITE_SECOND_PORT_INPUT w).
Definition port1_write (data : Z) w : W := data_write data (command PS2_WRITE_FIRST_PORT_OUTPUT w).
Definition port2_read w : Z * W := data_read (command PS2_WRITE_SECOND_PORT_OUTPUT w).

(** [while (status() & PS2_OUTPUT_STATUS_FULL) data_read()]. *)
Fixpoint flush (patience : nat) w : ctl W :=
  let '(st, w) := status w in
  if Z.testbit st 0 then match patience with O => NoFuel | S patience => flush patience (snd (data_read w)) end
  else Ret w.

(** A byte sent to the mouse, and its answer read. *)
Definition send (data : Z) w : W := snd (data_read (port2_write data w)).

(** [Mouse::init]: the mouse that answers 3 has a wheel. *)
Definition mouse_init (m : Mouse) w : Mouse * W :=
  let w := send 0xf4 (send 0xf6 (port2_init w)) in
  let w := snd (data_read (send 0xF2 w)) in
  let w := send 80 (send 0xf3 (send 100 (send 0xf3 (send 200 (send 0xf3 w))))) in
  let '(st, w) := data_read (send 0xF2 w) in
  (mk_Mouse (st =? 3) 0 (mouse_events m) (buf m), w).

(** [Ps2Keyboard::packet_handle]: the loop, with the last status. *)
Fixpoint key_loop (patience : nat) (st : Z) (k : Ps2Keyboard) (acquired : bool) w : ctl (bool * Ps2Keyboard * W) :=
  if Z.testbit st 0 && negb (Z.testbit st 5) then
    match patience with
    | O => NoFuel
    | S patience =>
        let '(packet, w) := data_read w in
        let '(st, w) := status w in
        key_loop patience st (key_packet packet k) true w
    end
  else Ret (acquired, k, w).

Definition packet_handle (patience : nat) (k : Ps2Keyboard) w : ctl (bool * Ps2Keyboard * W) :=
  let '(st, w) := status w in key_loop patience st k false w.

(** [Mouse::handle_event]. *)
Fixpoint mouse_loop (patience : nat) (st : Z) (m : Mouse) (acquired : bool) w : ctl (bool * Mouse * W) :=
  if Z.testbit st 0 && Z.testbit st 5 then
    match patience with
    | O => NoFuel
    | S patience =>
        let '(packet, w) := data_read w in
        m ← handle_packet packet m;
        let '(st, w) := status w in
        mouse_loop patience st m true w
    end
  else Ret (acquired, m, w).

Definition handle_event (patience : nat) (m : Mouse) w : ctl (bool * Mouse * W) :=
  let '(st, w) := status w in mouse_loop patience st m false w.
End ps2.

(** * server.hpp and main.cpp: the clients *)

(** [Ps2Connection]: the kinds of events asked for, and the ring, once there is one. *)
Record Ps2Connection := mk_Connection { event_types : Z; pipe : option (PCRing HIEvent) }.

Definition new_connection : Ps2Connection := mk_Connection 0 None.

(** HI_START_LISTEN: a page for the ring ([Duplex::create]). *)
Definition start_listen (sizeof_PCRing sizeof_HIEvent types : Z) : Ps2Connection :=
  mk_Connection (u32 types) (Some (create sizeof_PCRing sizeof_HIEvent 4096)).

(** [produce]. *)
Definition produce (e : HIEvent) (r : PCRing HIEvent) : ctl (PCRing HIEvent) :=
  o ← produce_attempt e r; match o with Some r => Ret r | None => NoFuel end.

(** An event for each client that listens to its kind. *)
Fixpoint forward (kind : Z) (e : HIEvent) (clients : list Ps2Connection) : ctl (list Ps2Connection) :=
  match clients with
  | [] => Ret []
  | c :: clients =>
      c ← (if negb (Z.land (event_types c) kind =? 0)
           then r ← deref (pipe c); r ← produce e r; Ret (mk_Connection (event_types c) (Some r))
           else Ret c);
      clients ← forward kind e clients;
      Ret (c :: clients)
  end.

(** [while (!ev_res.is_error())] with [poll_event]: each event in its turn. *)
Fixpoint forward_all (kind : Z) (events : list HIEvent) (clients : list Ps2Connection) : ctl (list Ps2Connection) :=
  match events with
  | [] => Ret clients
  | e :: events => clients ← forward kind e clients; forward_all kind events clients
  end.

Definition buttons (e : MouseEvent) : Z :=
  Z.lor (Z.lor (if left e then 1 else 0) (if right e then 2 else 0)) (if middle e then 4 else 0).
Definition hi_of_mouse (e : MouseEvent) : HIEvent := HIMouse (offx e) (offy e) (buttons e).
Definition hi_of_key (e : Ps2KeyboardEvent) : HIEvent := HIKeyboard (key e) (down e).

(** A turn of the main loop, up to the wait for a message or an interrupt. *)
Definition main_turn {W} `{Ps2Ports W} (patience : nat) (m : Mouse) (k : Ps2Keyboard)
    (clients : list Ps2Connection) (w : W) : ctl (Mouse * Ps2Keyboard * list Ps2Connection * W) :=
  '(moved, m, w) ← handle_event patience m w;
  '(m, clients) ←
    (if moved : bool
     then clients ← forward_all HI_EVENT_TYPE_MOUSE (map hi_of_mouse (mouse_events m)) clients;
          Ret (mk_Mouse (has_wheel m) (cycle m) [] (buf m), clients)
     else Ret (m, clients));
  '(typed, k, w) ← packet_handle patience k w;
  if typed : bool
  then clients ← forward_all HI_EVENT_TYPE_KEYBOARD (map hi_of_key (key_events k)) clients;
       Ret (m, mk_Keyboard (escape k) [], clients, w)
  else Ret (m, k, clients, w).

(** protocols/hi/human_interface.hpp: [update_event], which empties the ring of a
    client into its queue. *)
Fixpoint update_event (fuel : nat) (events : list HIEvent) (r : PCRing HIEvent) : ctl (list HIEvent * PCRing HIEvent) :=
  match fuel with
  | O => NoFuel
  | S fuel =>
      '(res, r) ← try_consume r;
      match res with
      | Error _ => Ret (events, r)
      | Value e => update_event fuel (events ++ [e]) r
      end
  end.

Definition poll_event {A} (events : list A) : result A * list A :=
  match events with [] => (Error "no event", []) | e :: events => (Value e, events) end.

(** * Packets *)

#[local] Ltac Zify.zify_post_hook ::= Z.div_mod_to_equations.

Lemma byte_bits p : 0 <= p < 256 -> Z.land p 0x7f = p mod 128 /\ Z.testbit p 7 = (128 <=? p).
Proof.
  intros Hp. split; [change 0x7f with (Z.ones 7); by rewrite Z.land_ones by lia|].
  rewrite Z.testbit_odd, Z.shiftr_div_pow2 by lia. change (2 ^ 7) with 128. destruct (Z.leb_spec 128 p).
  - by replace (p / 128) with 1 by lia.
  - by replace (p / 128) with 0 by lia.
Qed.

(** The bytes of the keyboard for an event: keys from 128 on are the extended ones. *)
Definition key_bytes (e : Ps2KeyboardEvent) : list Z :=
  let up := if down e then 0 else 128 in
  if key e <? 128 then [key e + up] else [0xE0; key e - 128 + up].

(** Key 0x60 has no release of its own: it would be the byte 0xE0. *)
Definition key_ok (e : Ps2KeyboardEvent) : Prop := 0 <= key e < 256 /\ (key e = 0x60 -> down e = true).

Definition key_feed (bs : list Z) (k : Ps2Keyboard) : Ps2Keyboard := fold_left (fun k b => key_packet b k) bs k.

Lemma key_event_decoded e k : key_ok e -> escape k = false ->
  key_feed (key_bytes e) k = mk_Keyboard false (key_events k ++ [e]).
Proof.
  intros [Hk H60] He. unfold key_feed, key_bytes. destruct e as [x d]. cbn [key down] in *.
  destruct (Z.ltb_spec x 128); cbn [fold_left]; unfold key_packet; rewrite He.
  - destruct (Z.eqb_spec (x + (if d then 0 else 128)) 0xE0) as [E|_].
    { destruct d; [lia|]. assert (x = 0x60) by lia. naive_solver. }
    destruct (byte_bits (x + (if d then 0 else 128))) as [-> ->]; [destruct d; lia|].
    assert (u8 ((x + (if d then 0 else 128)) mod 128) = x) as ->.
    { replace ((x + (if d then 0 else 128)) mod 128) with x by (destruct d; lia). by rewrite wrapu_small by lia. }
    destruct d; [destruct (Z.leb_spec 128 (x + 0))|destruct (Z.leb_spec 128 (x + 128))]; simpl; (done || lia).
  - change (0xE0 =? 0xE0) with true. cbn [escape key_events].
    destruct (byte_bits (x - 128 + (if d then 0 else 128))) as [-> ->]; [destruct d; lia|].
    assert (u8 ((x - 128 + (if d then 0 else 128)) mod 128 + 0x80) = x) as ->.
    { replace ((x - 128 + (if d then 0 else 128)) mod 128) with (x - 128) by (destruct d; lia). rewrite wrapu_small; lia. }
    destruct d; [destruct (Z.leb_spec 128 (x - 128 + 0))|destruct (Z.leb_spec 128 (x - 128 + 128))]; simpl; (done || lia).
Qed.

(** The keyboard: what is typed is what is decoded, whatever the keys. *)
Theorem keyboard_decodes events k : Forall key_ok events -> escape k = false ->
  key_feed (concat (map key_bytes events)) k = mk_Keyboard false (key_events k ++ events).
Proof.
  intros Hok. revert k. induction Hok as [|e events He _ IH]; intros k Hk.
  { rewrite app_nil_r. by destruct k; simpl in Hk; subst. }
  cbn [map concat]. unfold key_feed in *. rewrite fold_left_app. fold (key_feed (key_bytes e) k).
  rewrite key_event_decoded by done. rewrite IH by done. cbn [key_events]. by rewrite <- app_assoc.
Qed.

(** The packet of the mouse for a movement. *)
Definition mouse_flags (e : MouseEvent) : Z :=
  8 + (if left e then 1 else 0) + (if right e then 2 else 0) + (if middle e then 4 else 0) +
  (if offx e <? 0 then 16 else 0) + (if offy e <? 0 then 32 else 0).
Definition mouse_bytes (wheel : bool) (e : MouseEvent) : list Z :=
  [mouse_flags e; offx e mod 256; offy e mod 256] ++ (if wheel then [scroll e mod 256] else []).

Definition mouse_ok (wheel : bool) (e : MouseEvent) : Prop :=
  -256 < offx e < 256 /\ -256 < offy e < 256 /\
  if wheel then -128 <= scroll e < 128 else scroll e = 0.

Fixpoint mouse_feed (bs : list Z) (m : Mouse) : ctl Mouse :=
  match bs with [] => Ret m | b :: bs => m ← handle_packet b m; mouse_feed bs m end.

Lemma mouse_feed_app b1 b2 m : mouse_feed (b1 ++ b2) m = (m ← mouse_feed b1 m; mouse_feed b2 m).
Proof. revert m. induction b1 as [|b b1 IH]; intros m; [done|]. simpl. destruct (handle_packet b m); simpl; [apply IH|done..]. Qed.

Lemma offset_back x flags sign : -256 < x < 256 -> Z.testbit flags sign = (x <? 0) -> offset (x mod 256) flags sign = x.
Proof.
  intros Hx Hs. unfold offset. rewrite Hs. destruct (Z.eqb_spec (x mod 256) 0), (Z.ltb_spec x 0); simpl; lia.
Qed.

Lemma flags_bits e :
  Z.testbit (mouse_flags e) 0 = left e /\ Z.testbit (mouse_flags e) 1 = right e /\
  Z.testbit (mouse_flags e) 2 = middle e /\ Z.testbit (mouse_flags e) 3 = true /\
  Z.testbit (mouse_flags e) 4 = (offx e <? 0) /\ Z.testbit (mouse_flags e) 5 = (offy e <? 0).
Proof. unfold mouse_flags. by destruct (left e), (right e), (middle e), (offx e <? 0), (offy e <? 0). Qed.

Lemma group_event wheel cy evs f x y z :
  handle_packet_group (mk_Mouse wheel cy evs [f; x; y; z]) =
  Ret (mk_Mouse wheel 0 (evs ++ [mk_MouseEvent (offset x f 4) (offset y f 5) (if wheel then wraps 8 z else 0)
         (Z.testbit f 0) (Z.testbit f 1) (Z.testbit f 2)]) [f; x; y; z]).
Proof. reflexivity. Qed.

Lemma packet_bytes wheel evs a b c d x :
  (Z.testbit x 3 = true ->
     handle_packet x (mk_Mouse wheel 0 evs [a; b; c; d]) = Ret (mk_Mouse wheel 1 evs [x; b; c; d])) /\
  handle_packet x (mk_Mouse wheel 1 evs [a; b; c; d]) = Ret (mk_Mouse wheel 2 evs [a; x; c; d]) /\
  handle_packet x (mk_Mouse wheel 2 evs [a; b; c; d]) =
    (if wheel then Ret (mk_Mouse wheel 3 evs [a; b; x; d])
     else handle_packet_group (mk_Mouse wheel 2 evs [a; b; x; d])) /\
  handle_packet x (mk_Mouse wheel 3 evs [a; b; c; d]) = handle_packet_group (mk_Mouse wheel 3 evs [a; b; c; x]).
Proof. split; [|by split_and!]. intros Hx. unfold handle_packet. cbn -[Z.testbit]. by rewrite Hx. Qed.

(** A mouse between two packets. *)
Definition mouse_idle (m : Mouse) : Prop := cycle m = 0 /\ length (buf m) = 4%nat.

Lemma mouse_event_decoded e m : mouse_idle m -> mouse_ok (has_wheel m) e -> exists m',
  mouse_feed (mouse_bytes (has_wheel m) e) m = Ret m' /\ mouse_idle m' /\
  has_wheel m' = has_wheel m /\ mouse_events m' = mouse_events m ++ [e].
Proof.
  intros [Hc Hb] (Hx&Hy&Hs). destruct m as [wheel cy evs bs]. cbn [has_wheel cycle mouse_events buf] in *. subst cy.
  destruct bs as [|a [|b [|c [|d []]]]]; try done.
  destruct (flags_bits e) as (F0&F1&F2&F3&F4&F5). unfold mouse_bytes.
  assert (forall z, (if wheel then wraps 8 z else 0) = scroll e ->
    handle_packet_group (mk_Mouse wheel 2 evs [mouse_flags e; offx e mod 256; offy e mod 256; z]) =
      Ret (mk_Mouse wheel 0 (evs ++ [e]) [mouse_flags e; offx e mod 256; offy e mod 256; z]) /\
    handle_packet_group (mk_Mouse wheel 3 evs [mouse_flags e; offx e mod 256; offy e mod 256; z]) =
      Ret (mk_Mouse wheel 0 (evs ++ [e]) [mouse_flags e; offx e mod 256; offy e mod 256; z])) as Hg.
  { intros z Hz. assert (mk_MouseEvent (offset (offx e mod 256) (mouse_flags e) 4)
      (offset (offy e mod 256) (mouse_flags e) 5) (if wheel then wraps 8 z else 0) (Z.testbit (mouse_flags e) 0)
      (Z.testbit (mouse_flags e) 1) (Z.testbit (mouse_flags e) 2) = e) as Ee.
    { rewrite !offset_back, F0, F1, F2, Hz by done. by destruct e. }
    split; by rewrite group_event, Ee. }
  assert (forall x y z, mouse_feed (x :: y :: z) (mk_Mouse wheel 0 evs [a; b; c; d]) =
            (m ← handle_packet x (mk_Mouse wheel 0 evs [a; b; c; d]); mouse_feed (y :: z) m)) as E0 by done.
  cbn [app]. rewrite E0, (proj1 (packet_bytes _ _ _ _ _ _ _) F3). clear E0. cbn [mbind ctl_bind mouse_feed].
  rewrite (proj1 (proj2 (packet_bytes _ _ _ _ _ _ _))). cbn [mbind ctl_bind].
  rewrite (proj1 (proj2 (proj2 (packet_bytes _ _ _ _ _ _ _)))).
  destruct wheel; cbn [mbind ctl_bind mouse_feed].
  - rewrite (proj2 (proj2 (proj2 (packet_bytes _ _ _ _ _ _ _)))).
    destruct (Hg (scroll e mod 256)) as [_ E].
    { unfold wraps. change (2 ^ 8) with 256. change (2 ^ (8 - 1)) with 128. lia. }
    rewrite E. cbn [mbind ctl_bind mouse_feed]. eexists. by split_and!.
  - destruct (Hg d) as [E _]; [done|]. rewrite E. cbn [mbind ctl_bind mouse_feed]. eexists. by split_and!.
Qed.

(** The mouse: a stream of movements is decoded. *)
Theorem mouse_decodes events : forall m, mouse_idle m -> Forall (mouse_ok (has_wheel m)) events -> exists m',
  mouse_feed (concat (map (mouse_bytes (has_wheel m)) events)) m = Ret m' /\ mouse_idle m' /\
  has_wheel m' = has_wheel m /\ mouse_events m' = mouse_events m ++ events.
Proof.
  induction events as [|e events IH]; intros m Hm Hok.
  { exists m. by rewrite app_nil_r. }
  apply Forall_cons in Hok as [He Hok]. destruct (mouse_event_decoded e m Hm He) as (m1&E1&I1&W1&V1).
  cbn [map concat]. rewrite mouse_feed_app, E1. cbn [mbind ctl_bind].
  destruct (IH m1 I1) as (m2&E2&I2&W2&V2); [by rewrite W1|]. rewrite W1 in *.
  exists m2. split; [done|]. split; [done|]. split; [done|]. by rewrite V2, V1, <- app_assoc.
Qed.

(** A mouse that has lost its place: bytes that cannot start a packet are passed over. *)
Theorem mouse_resynchronises bs m :
  mouse_idle m -> Forall (fun b => Z.testbit b 3 = false) bs -> exists m',
  mouse_feed bs m = Ret m' /\ mouse_idle m' /\ has_wheel m' = has_wheel m /\ mouse_events m' = mouse_events m.
Proof.
  intros Hm Hbs. revert m Hm. induction Hbs as [|b bs Hb _ IH]; intros m [Hc Hl]; [by exists m|].
  cbn [mouse_feed]. unfold handle_packet at 1. rewrite Hc. cbn [Z.eqb]. unfold set_byte.
  rewrite aset_in_range by (rewrite Hl; lia). cbn [deref mbind ctl_bind]. rewrite Hb.
  destruct (IH (mk_Mouse (has_wheel m) 0 (mouse_events m) (<[Z.to_nat 0:=b]> (buf m)))) as (m'&E&I&Hw&V).
  { split; [done|]. cbn [buf]. by rewrite length_insert. }
  rewrite Hc. exists m'. by split_and!.
Qed.

(** * The controller *)

(** The bytes a controller has, from the mouse or from the keyboard: the status tells
    of the first, which the data port gives. *)
Class Ps2Contract (W : Type) `{Ps2Ports W} := {
  pending : W -> list (bool * Z);
  status_read w : exists w', snd (inb 0x64 w) = w' /\ pending w' = pending w /\
    Z.testbit (fst (inb 0x64 w)) 0 = (match pending w with [] => false | _ => true end) /\
    (forall b l, pending w = b :: l -> Z.testbit (fst (inb 0x64 w)) 5 = fst b);
  data_taken w b l : pending w = b :: l -> fst (inb 0x60 w) = snd b /\ pending (snd (inb 0x60 w)) = l
}.

Section contract.
Context {W : Type} `{Ps2Contract W}.
Implicit Types w : W.

Definition shows (st : Z) w : Prop :=
  Z.testbit st 0 = (match pending w with [] => false | _ => true end) /\
  forall b l, pending w = b :: l -> Z.testbit st 5 = fst b.

Lemma status_shows w : exists st w', status w = (st, w') /\ pending w' = pending w /\ shows st w'.
Proof.
  unfold status. change (PS2_IO_BASE + PS2_STATUS_PORT) with 0x64. destruct (status_read w) as (w'&E&Ep&E0&E5).
  destruct (inb 0x64 w) as [st w1]. cbn [fst snd] in *. subst w1. exists st, w'. split; [done|]. split; [done|].
  unfold shows. by rewrite Ep.
Qed.

Lemma bit_zero st : Z.land st PS2_OUTPUT_STATUS_FULL = if Z.testbit st 0 then 1 else 0.
Proof.
  unfold PS2_OUTPUT_STATUS_FULL. change 1 with (Z.ones 1) at 1. rewrite Z.land_ones by lia.
  change (2 ^ 1) with 2. rewrite Z.bit0_odd. apply Zmod_odd.
Qed.

Lemma data_read_takes w b l : pending w = b :: l -> exists w', data_read w = (snd b, w') /\ pending w' = l.
Proof.
  intros Hp. unfold data_read, wait_read. change (PS2_IO_BASE + PS2_DATA_PORT) with 0x60.
  destruct TIMEOUT as [|timeout] eqn:ET; [by apply (f_equal Z.of_nat) in ET; unfold TIMEOUT in ET; rewrite Z2Nat.id in ET|].
  cbn [wait]. destruct (status_shows w) as (st&w1&->&Ep&Hs&_). rewrite bit_zero, Hs, Ep, Hp. cbn [Z.eqb Pos.eqb].
  destruct (data_taken w1 b l) as [E1 E2]; [by rewrite Ep|]. exists (snd (inb 0x60 w1)). rewrite <- E1.
  by destruct (inb 0x60 w1).
Qed.

(** What is pending when no byte of a kind comes first. *)
Definition no_first (mouse : bool) (l : list (bool * Z)) : Prop :=
  match l with [] => True | (k, _) :: _ => k <> mouse end.

Lemma loop_stops st w (mouse : bool) : shows st w -> no_first mouse (pending w) ->
  Z.testbit st 0 && (if mouse then Z.testbit st 5 else negb (Z.testbit st 5)) = false.
Proof.
  intros [E0 E5]. rewrite E0. destruct (pending w) as [|[k b] l]; simpl; [done|].
  specialize (E5 _ _ eq_refl). simpl in *. destruct mouse; rewrite E5; by destruct k.
Qed.

Lemma loop_goes st w (mouse : bool) b l : shows st w -> pending w = (mouse, b) :: l ->
  Z.testbit st 0 && (if mouse then Z.testbit st 5 else negb (Z.testbit st 5)) = true.
Proof. intros [E0 E5] Hp. specialize (E5 _ _ Hp). rewrite E0, Hp. by destruct mouse; rewrite E5. Qed.

Lemma mouse_loop_feeds bs : forall patience st m m' acquired w rest,
  shows st w -> pending w = map (pair true) bs ++ rest -> no_first true rest ->
  (length bs <= patience)%nat -> mouse_feed bs m = Ret m' -> exists w',
  mouse_loop patience st m acquired w = Ret (acquired || negb (bool_decide (bs = [])), m', w') /\ pending w' = rest.
Proof.
  induction bs as [|b bs IH]; intros patience st m m' acquired w rest Hs Hp Hr Hl Hf.
  { simpl in *. pose proof (loop_stops st w true Hs) as E. rewrite Hp in E. specialize (E Hr). injection Hf as <-.
    exists w. rewrite orb_false_r. by destruct patience; cbn [mouse_loop]; rewrite E. }
  destruct patience as [|patience]; [simpl in Hl; lia|]. cbn [mouse_loop].
  rewrite (loop_goes st w true b (map (pair true) bs ++ rest)) by done.
  destruct (data_read_takes w (true, b) (map (pair true) bs ++ rest) Hp) as (w1&->&Ep1). cbn [snd].
  cbn [mouse_feed] in Hf. destruct (handle_packet b m) as [m1| |]; try done. cbn [mbind ctl_bind] in *.
  destruct (status_shows w1) as (st2&w2&->&Ep2&Hs2).
  destruct (IH patience st2 m1 m' true w2 rest) as (w'&E&Ep); try done; [by rewrite Ep2|simpl in Hl; lia|].
  exists w'. split; [|done]. rewrite E. by destruct acquired.
Qed.

Lemma key_loop_feeds bs : forall patience st k acquired w rest,
  shows st w -> pending w = map (pair false) bs ++ rest -> no_first false rest -> (length bs <= patience)%nat ->
  exists w', key_loop patience st k acquired w = Ret (acquired || negb (bool_decide (bs = [])), key_feed bs k, w') /\
             pending w' = rest.
Proof.
  induction bs as [|b bs IH]; intros patience st k acquired w rest Hs Hp Hr Hl.
  { simpl in *. pose proof (loop_stops st w false Hs) as E. rewrite Hp in E. specialize (E Hr).
    exists w. rewrite orb_false_r. by destruct patience; cbn [key_loop]; rewrite E. }
  destruct patience as [|patience]; [simpl in Hl; lia|]. cbn [key_loop].
  rewrite (loop_goes st w false b (map (pair false) bs ++ rest)) by done.
  destruct (data_read_takes w (false, b) (map (pair false) bs ++ rest) Hp) as (w1&->&Ep1). cbn [snd].
  destruct (status_shows w1) as (st2&w2&->&Ep2&Hs2).
  destruct (IH patience st2 (key_packet b k) true w2 rest) as (w'&E&Ep); try done; [by rewrite Ep2|simpl in Hl; lia|].
  exists w'. split; [|done]. rewrite E. by destruct acquired.
Qed.
End contract.

(** * The clients *)

Definition listens (kind : Z) (c : Ps2Connection) : bool := negb (Z.land (event_types c) kind =? 0).

(** The ring of the client has room for [n] events more. *)
Definition room (n : Z) (c : Ps2Connection) : Prop :=
  exists r q, pipe c = Some r /\ prep r q /\ zlen q + n <= _capacity r.

(** The client is sent [events]. *)
Definition sent (events : list HIEvent) (c c' : Ps2Connection) : Prop :=
  event_types c' = event_types c /\
  forall r q, pipe c = Some r -> prep r q -> exists r', pipe c' = Some r' /\ _capacity r' = _capacity r /\ prep r' (q ++ events).

Lemma sent_nothing c : sent [] c c.
Proof. split; [done|]. intros r q Hr Hq. exists r. by rewrite app_nil_r. Qed.

Lemma sent_more l1 l2 c1 c2 c3 : sent l1 c1 c2 -> sent l2 c2 c3 -> sent (l1 ++ l2) c1 c3.
Proof.
  intros [E1 S1] [E2 S2]. split; [congruence|]. intros r q Hr Hq.
  destruct (S1 r q Hr Hq) as (r1&P1&C1&Q1), (S2 r1 (q ++ l1) P1 Q1) as (r2&P2&C2&Q2).
  exists r2. rewrite app_assoc. split; [done|]. split; [congruence|done].
Qed.

Lemma room_sent l n c c' : sent l c c' -> room (zlen l + n) c -> room n c'.
Proof.
  intros [_ Hs] (r&q&Hr&Hq&Hn). destruct (Hs r q Hr Hq) as (r'&Hr'&Hc&Hq').
  exists r', (q ++ l). split; [done|]. split; [done|]. rewrite Hc, length_app. lia.
Qed.

Lemma room_less n n' c : n' <= n -> room n c -> room n' c.
Proof. intros Hn (r&q&Hr&Hq&Hc). exists r, q. split_and!; [done|done|lia]. Qed.

Lemma listens_types kind c : listens kind c = true -> event_types c <> 0.
Proof. unfold listens. intros Hl E. by rewrite E in Hl. Qed.

Lemma produce_runs e r q : prep r q -> zlen q < _capacity r ->
  exists r', produce e r = Ret r' /\ _capacity r' = _capacity r /\ prep r' (q ++ [e]).
Proof.
  intros Hr Hn. pose proof Hr as [Hc Hq]. pose proof Hq as (_&_&Hlen&_).
  assert (exists r', produce_attempt e r = Ret (Some r') /\ _capacity r' = _capacity r) as (r'&E&Ec).
  { unfold produce_attempt, len. destruct (Z.ltb_spec (_len r) (_capacity r)); [|lia].
    rewrite aset_in_range by (eapply Ring.circ_tail_range; exact Hq). by eexists. }
  exists r'. split; [unfold produce; by rewrite E|]. split; [done|]. by apply (produce_prep e r).
Qed.

Lemma Forall2_then {A} (R S T : A -> A -> Prop) l1 l2 l3 :
  (forall a b c, R a b -> S b c -> T a c) -> Forall2 R l1 l2 -> Forall2 S l2 l3 -> Forall2 T l1 l3.
Proof.
  intros H H1. revert l3. induction H1 as [|a b l1 l2 Hab _ IH]; intros l3 H2; inversion H2; subst; constructor; eauto.
Qed.

Definition for_kind (kind : Z) (events : list HIEvent) (c : Ps2Connection) : list HIEvent :=
  if listens kind c then events else [].

Lemma forward_spec kind e clients : Forall (fun c => listens kind c = true -> room 1 c) clients ->
  exists clients', forward kind e clients = Ret clients' /\
    Forall2 (fun c c' => sent (for_kind kind [e] c) c c') clients clients'.
Proof.
  induction 1 as [|c clients Hc _ IH]; [by exists []|]. destruct IH as (cs&E&Hcs). cbn [forward].
  fold (listens kind c). unfold for_kind. destruct (listens kind c) eqn:Hl.
  - destruct (Hc eq_refl) as (r&q&Hr&Hq&Hn). rewrite Hr. cbn [deref mbind ctl_bind].
    destruct (produce_runs e r q Hq) as (r'&Ep&Ec&Hq'); [lia|]. rewrite Ep. cbn [mbind ctl_bind].
    rewrite E. cbn [mbind ctl_bind]. eexists. split; [done|]. constructor; [|done]. rewrite Hl. split; [done|].
    intros r0 q0 Hr0 Hq0. rewrite Hr in Hr0. injection Hr0 as <-.
    destruct (produce_runs e r q0 Hq0) as (r0'&Ep0&Ec0&Hq0').
    { destruct Hq as [_ (_&_&?&_)], Hq0 as [_ (_&_&?&_)]. lia. }
    rewrite Ep in Ep0. injection Ep0 as <-. by exists r'.
  - cbn [mbind ctl_bind]. rewrite E. cbn [mbind ctl_bind]. eexists. split; [done|].
    constructor; [|done]. rewrite Hl. apply sent_nothing.
Qed.

Lemma sent_listens kind l c c' : sent l c c' -> listens kind c' = listens kind c.
Proof. intros [E _]. unfold listens. by rewrite E. Qed.

Lemma forward_all_spec kind events : forall clients,
  Forall (fun c => listens kind c = true -> room (zlen events) c) clients ->
  exists clients', forward_all kind events clients = Ret clients' /\
    Forall2 (fun c c' => sent (for_kind kind events c) c c') clients clients'.
Proof.
  induction events as [|e events IH]; intros clients Hr; cbn [forward_all].
  { exists clients. split; [done|]. apply Forall2_same_length_lookup. split; [done|].
    intros i c c' Hc Hc'. rewrite Hc in Hc'. injection Hc' as <-. unfold for_kind. destruct (listens kind c); apply sent_nothing. }
  destruct (forward_spec kind e clients) as (c1&E1&S1).
  { eapply Forall_impl; [exact Hr|]. intros c Hc Hl. destruct (Hc Hl) as (r&q&H1&H2&H3).
    exists r, q. simpl in H3. split_and!; [done|done|lia]. }
  rewrite E1. cbn [mbind ctl_bind]. destruct (IH c1) as (c2&E2&S2).
  { apply Forall_lookup. intros i c' Hc'. destruct (Forall2_lookup_r _ _ _ _ _ S1 Hc') as (c&Hc&Hs).
    intros Hl. rewrite (sent_listens kind _ _ _ Hs) in Hl. unfold for_kind in Hs. rewrite Hl in Hs.
    apply (room_sent [e] _ c); [done|]. pose proof (Forall_lookup_1 _ _ _ _ Hr Hc Hl) as Hroom.
    by replace (zlen [e] + zlen events) with (zlen (e :: events)) by (simpl; lia). }
  exists c2. split; [done|]. eapply Forall2_then; [|exact S1|exact S2]. intros c c' c'' Hs Hs'. cbv beta in *.
  unfold for_kind in *. rewrite (sent_listens kind _ _ _ Hs) in Hs'.
  destruct (listens kind c); [by apply (sent_more [e] events c c')|]. by apply (sent_more [] [] c c').
Qed.

(** A kind of events is forwarded when something was read; else there is none. *)
Lemma forward_stage (b : bool) kind events clients :
  (b = false -> events = []) -> Forall (fun c => listens kind c = true -> room (zlen events) c) clients ->
  exists clients', (if b then forward_all kind events clients else Ret clients) = Ret clients' /\
    Forall2 (fun c c' => sent (for_kind kind events c) c c') clients clients'.
Proof.
  intros Hb Hr. destruct (forward_all_spec kind events clients Hr) as (cs&E&Hs). destruct b; [by exists cs|].
  exists cs. split; [|done]. rewrite Hb in E by done. exact E.
Qed.

(** A client empties its ring. *)
Lemma update_event_drains q : forall r fuel events, prep r q -> (length q < fuel)%nat -> exists r',
  update_event fuel events r = Ret (events ++ q, r') /\ prep r' [].
Proof.
  induction q as [|e q IH]; intros r fuel events Hr Hf; (destruct fuel as [|fuel]; [lia|]); cbn [update_event];
    unfold try_consume, len; pose proof Hr as [_ (_&_&Hn&_)].
  - rewrite Hn. cbn. exists r. by rewrite app_nil_r.
  - destruct (Z.eqb_spec (_len r) 0); [simpl in Hn; lia|].
    destruct (take_head_prep r e q Hr) as (r1&E&Hr1). rewrite E. cbn [mbind ctl_bind].
    destruct (IH r1 fuel (events ++ [e]) Hr1) as (r'&E'&Hr'); [simpl in Hf; lia|]. exists r'. by rewrite E', <- app_assoc.
Qed.

Section reach.
Context {W : Type} `{Ps2Contract W}.

(** The bytes on the port for movements and then keys. *)
Definition port_bytes (wheel : bool) (moves : list MouseEvent) (keys : list Ps2KeyboardEvent) : list (bool * Z) :=
  map (pair true) (concat (map (mouse_bytes wheel) moves)) ++ map (pair false) (concat (map key_bytes keys)).

(** What a client is sent in a turn. *)
Definition received (moves : list MouseEvent) (keys : list Ps2KeyboardEvent) (c : Ps2Connection) : list HIEvent :=
  for_kind HI_EVENT_TYPE_MOUSE (map hi_of_mouse moves) c ++ for_kind HI_EVENT_TYPE_KEYBOARD (map hi_of_key keys) c.

(** C21: From the port to the clients: in a turn of the service the movements that wait
    on the port and the keys that wait after them are taken, and each client finds in
    its ring, in order, the events of the kinds it listens to, after those it had not
    read yet. The port holds first the bytes of all the movements and then those of
    all the keys (a movement behind a key is left for a later turn), every client that
    listens has room in its ring, and the events are ones the decoders know: each
    axis of a movement is between -255 and 255, as -256 is taken for no movement, and
    the key 0x60 is not released, as its release is the prefix of the extended keys
    ([release_taken_for_prefix]). *)
Theorem events_reach_listeners patience moves keys rest m k clients (w : W) :
  mouse_idle m -> mouse_events m = [] -> Forall (mouse_ok (has_wheel m)) moves ->
  escape k = false -> key_events k = [] -> Forall key_ok keys ->
  pending w = port_bytes (has_wheel m) moves keys ++ rest -> no_first false rest ->
  (keys = [] -> no_first true rest) -> (length (pending w) <= patience)%nat ->
  Forall (fun c => event_types c <> 0 -> room (zlen moves + zlen keys) c) clients ->
  exists m' k' clients' w',
    main_turn patience m k clients w = Ret (m', k', clients', w') /\ pending w' = rest /\
    mouse_idle m' /\ mouse_events m' = [] /\ escape k' = false /\ key_events k' = [] /\
    Forall2 (fun c c' => event_types c' = event_types c /\
      forall r q, pipe c = Some r -> prep r q -> exists r' r'', pipe c' = Some r' /\
        update_event (S (length q + length moves + length keys)) [] r' = Ret (q ++ received moves keys c, r'') /\
        prep r'' []) clients clients'.
Proof.
  intros Hm Hme Hmoves Hk Hke Hkeys Hp Hr1 Hr2 Hpat Hroom. unfold port_bytes in Hp. rewrite <- app_assoc in Hp.
  rewrite Hp, !length_app, !length_map in Hpat.
  destruct (mouse_decodes moves m Hm Hmoves) as (m1&Ef&I1&W1&V1). rewrite Hme in V1. cbn [app] in V1.
  set (bm := concat (map (mouse_bytes (has_wheel m)) moves)) in *. set (bk := concat (map key_bytes keys)) in *.
  assert (no_first true (map (pair false) bk ++ rest)) as Hnf.
  { destruct keys as [|ke keys]; [by apply Hr2|]. unfold bk. cbn [map concat]. unfold key_bytes.
    by destruct (key ke <? 128). }
  unfold main_turn, handle_event. destruct (status_shows w) as (st&w1&->&Ep1&Hs1).
  destruct (mouse_loop_feeds bm patience st m m1 false w1 (map (pair false) bk ++ rest)) as (w2&->&Ep2);
    [done|by rewrite Ep1|done|lia|done|]. cbn [mbind ctl_bind orb].
  destruct (forward_stage (negb (bool_decide (bm = []))) HI_EVENT_TYPE_MOUSE (map hi_of_mouse moves) clients)
    as (c1&E1&S1).
  { intros Hb%negb_false_iff%bool_decide_eq_true. by destruct moves. }
  { eapply Forall_impl; [exact Hroom|]. intros c Hc Hl. apply (room_less (zlen moves + zlen keys)); [rewrite length_map; lia|].
    apply Hc. by eapply listens_types. }
  assert ((if negb (bool_decide (bm = []))
      then clients ← forward_all HI_EVENT_TYPE_MOUSE (map hi_of_mouse (mouse_events m1)) clients;
           Ret (mk_Mouse (has_wheel m1) (cycle m1) [] (buf m1), clients)
      else Ret (m1, clients)) = Ret (mk_Mouse (has_wheel m1) (cycle m1) [] (buf m1), c1)) as ->.
  { rewrite V1. destruct (bool_decide_reflect (bm = [])) as [Eb|]; simpl in *; [|by rewrite E1].
    destruct moves; [|done]. injection E1 as ->. by destruct m1; simpl in V1; subst. }
  cbn [mbind ctl_bind]. unfold packet_handle. destruct (status_shows w2) as (st2&w3&->&Ep3&Hs3).
  destruct (key_loop_feeds bk patience st2 k false w3 rest) as (w4&->&Ep4); [done|by rewrite Ep3|done|lia|].
  cbn [mbind ctl_bind orb]. pose proof (keyboard_decodes keys k Hkeys Hk) as Ek. fold bk in Ek.
  rewrite Ek, Hke. cbn [app key_events escape].
  destruct (forward_stage (negb (bool_decide (bk = []))) HI_EVENT_TYPE_KEYBOARD (map hi_of_key keys) c1)
    as (c2&E2&S2).
  { intros Hb%negb_false_iff%bool_decide_eq_true. destruct keys as [|e keys]; [done|]. unfold bk in Hb.
    cbn [map concat] in Hb. unfold key_bytes in Hb. by destruct (key e <? 128). }
  { apply Forall_lookup. intros i c' Hc'. destruct (Forall2_lookup_r _ _ _ _ _ S1 Hc') as (c&Hc&Hs). intros Hl.
    rewrite (sent_listens _ _ _ _ Hs) in Hl. eapply room_sent; [exact Hs|].
    apply (room_less (zlen moves + zlen keys)).
    - unfold for_kind. destruct (listens HI_EVENT_TYPE_MOUSE c); rewrite ?length_map; simpl; lia.
    - apply (Forall_lookup_1 _ _ _ _ Hroom Hc). by eapply listens_types. }
  exists (mk_Mouse (has_wheel m1) (cycle m1) [] (buf m1)), (mk_Keyboard false []), c2, w4. split.
  { destruct (bool_decide_reflect (bk = [])); simpl in *; [injection E2 as ->|by rewrite E2].
    destruct keys as [|ke keys]; [done|]. exfalso. unfold bk in *. cbn [map concat] in *. unfold key_bytes in *.
    by destruct (key ke <? 128). }
  split; [done|]. split; [exact I1|]. do 3 (split; [done|]).
  eapply Forall2_then; [|exact S1|exact S2]. intros c c' c'' Hs Hs'. cbv beta in *.
  unfold for_kind at 1 in Hs'. rewrite (sent_listens _ _ _ _ Hs) in Hs'.
  pose proof (sent_more _ _ _ _ _ Hs Hs') as [Et Hsent]. split; [done|]. intros r q Hr Hq.
  destruct (Hsent r q Hr Hq) as (r'&Hr'&_&Hq'). exists r'.
  destruct (update_event_drains _ r' (S (length q + length moves + length keys)) [] Hq') as (r''&Ed&Hq'').
  - rewrite !length_app. unfold for_kind.
    destruct (listens HI_EVENT_TYPE_MOUSE c), (listens HI_EVENT_TYPE_KEYBOARD c); rewrite ?length_map; simpl; lia.
  - exists r''. split; [done|]. split; [exact Ed|done].
Qed.
End reach.

(** * A port with bytes on it *)

Definition Port : Type := list (bool * Z).

#[local] Instance port_ops : Ps2Ports Port := {|
  inb := fun a l =>
    if a =? 0x64 then (match l with [] => 0 | (true, _) :: _ => 0x21 | (false, _) :: _ => 1 end, l)
    else match l with [] => (0, []) | (_, b) :: l => (b, l) end;
  outb := fun _ _ l => l
|}.

#[local] Instance port_contract : Ps2Contract Port.
Proof.
  refine {| pending := fun l => l |}.
  - intros l. exists l. by destruct l as [|[[] b] l]; split_and!; try done; intros ? ? [= <- <-].
  - intros l [k b] l' ->. done.
Defined.

Definition sample_mouse : Mouse := mk_Mouse true 0 [] [0; 0; 0; 0].
Definition sample_moves : list MouseEvent := [mk_MouseEvent (-3) 5 (-1) true false false].
Definition sample_keys : list Ps2KeyboardEvent := [mk_KeyEvent 30 true; mk_KeyEvent 200 false].

(** A client that listens to both kinds, and one that listens to the keyboard only. *)
Lemma events_reach_listeners_witness : exists m' k' c1 c2 w' r1 r2 e1 e2,
  main_turn (H := port_ops) 7 sample_mouse (mk_Keyboard false []) [start_listen 64 20 6; start_listen 64 20 4]
    (port_bytes true sample_moves sample_keys) = Ret (m', k', [c1; c2], w') /\
  pipe c1 = Some r1 /\ pipe c2 = Some r2 /\
  update_event 4 [] r1 = Ret ([HIMouse (-3) 5 1; HIKeyboard 30 true; HIKeyboard 200 false], e1) /\
  update_event 4 [] r2 = Ret ([HIKeyboard 30 true; HIKeyboard 200 false], e2).
Proof.
  assert (prep (create (A := HIEvent) 64 20 4096) []) as Hring by (apply create_prep; lia).
  assert (forall t, room 3 (start_listen 64 20 t)) as Hroom.
  { intros t. exists (create 64 20 4096), []. split; [reflexivity|]. split; [exact Hring|]. vm_compute. discriminate. }
  destruct (events_reach_listeners (H0 := port_contract) 7 sample_moves sample_keys [] sample_mouse (mk_Keyboard false [])
    [start_listen 64 20 6; start_listen 64 20 4] (port_bytes true sample_moves sample_keys))
    as (m'&k'&clients'&w'&E&_&_&_&_&_&F).
  - split; reflexivity.
  - reflexivity.
  - constructor; [|constructor]. unfold mouse_ok. simpl. lia.
  - reflexivity.
  - reflexivity.
  - repeat (constructor; [split; simpl; lia|]). constructor.
  - rewrite app_nil_r. reflexivity.
  - exact I.
  - discriminate.
  - vm_compute. lia.
  - repeat constructor; intros _; apply Hroom.
  - inversion F as [|? c1 ? l1 F1 Fl]; subst. inversion Fl as [|? c2 ? l2 F2 Fn]; subst. inversion Fn; subst.
    destruct F1 as [_ F1]. destruct (F1 _ [] eq_refl Hring) as (r1&e1&P1&U1&_).
    destruct F2 as [_ F2]. destruct (F2 _ [] eq_refl Hring) as (r2&e2&P2&U2&_).
    exists m', k', c1, c2, w', r1, r2, e1, e2. split; [exact E|]. split; [exact P1|]. split; [exact P2|].
    split; [exact U1|exact U2].
Defined.

(** ** What the driver does not do as meant *)

(** [wait_write] looks at the output status: it goes on although the controller has
    not taken the last byte, and waits its whole time for a byte nobody reads. *)
Theorem wait_write_watches_output {W} `{Ps2Ports W} (w w' : W) st :
  inb 0x64 w = (st, w') -> Z.testbit st 0 = false -> wait_write w = w'.
Proof.
  intros E Hst. unfold wait_write. change TIMEOUT with (S (Z.to_nat 99999)). cbn [wait]. unfold status.
  change (PS2_IO_BASE + PS2_STATUS_PORT) with 0x64. rewrite E. by rewrite bit_zero, Hst.
Qed.

(** The release of key 0x60 is taken for the prefix of an extended key. *)
Example release_taken_for_prefix :
  key_feed [0xE0; 0x1E] (mk_Keyboard false []) = mk_Keyboard false [mk_KeyEvent 0x9E true].
Proof. vm_compute. reflexivity. Qed.
