(* ===== verification/Gpt.v ===== *)
(** fs/gpt: the partition table of a disk, read through the disk protocol.

    A memory object for the header or for the entries is given out with the bytes
    [fresh n]; a read of an entry past the memory that is mapped traps. Signature and
    checksums are not looked at, so neither are they here. *)

From S2P Require Import Prelude Range Bytes Disk Text.

(** * GPT and GPTPartitionEntries *)

Record GPT := mk_GPT {
  lba_start_guid_partition_entry : Z; partition_count : Z; partition_entry_size : Z
}.

(** The fields of the header that are used, at their offsets. *)
Definition gpt_of_bytes (l : list Z) : GPT := mk_GPT (int_at l 72 8) (int_at l 80 4) (int_at l 84 4).

(** [GPTDiskParseEntry], with the fields of the entry that its users read. *)
Record GPTDiskParseEntry := mk_Entry { part_name : WStr; lba_start : Z; lba_end : Z }.

Record GPTDiskParseResult := mk_Result { header : GPT; entries : list GPTDiskParseEntry }.

(** * gpt.cpp *)

Section gpt.
Context {D : Type} `{DiskServer D}.
Variable fresh : Z -> list Z.
Variable junk : Z -> Z.

(** The type of an entry, which is zero when it is not used. *)
Definition is_empty (memory : list Z) (entry : Z) : ctl bool :=
  guid ← slice memory entry 16; Ret (forallb (Z.eqb 0) guid).

(** [for (j = 0; j < 36; j++)]: the characters up to the first that is zero, of which
    the low byte is taken. *)
Fixpoint name_loop (n : nat) (memory : list Z) (at_ : Z) (w : WStr) : ctl WStr :=
  match n with
  | O => Ret w
  | S n =>
      c ← slice memory at_ 2;
      if int_of_bytes c =? 0 then Ret w
      else w ← append junk w (take 1 c); name_loop n memory (at_ + 2) w
  end.

Definition read_entry (memory : list Z) (entry : Z) : ctl GPTDiskParseEntry :=
  name ← name_loop 36 memory (entry + 56) empty_wstr;
  a ← slice memory (entry + 32) 8;
  b ← slice memory (entry + 40) 8;
  Ret (mk_Entry name (int_of_bytes a) (int_of_bytes b)).

(** [for (i = 0; i < partition_count; i++)], from the entry at [entry]. *)
Fixpoint entries_loop (n : nat) (memory : list Z) (entry size : Z) (result : list GPTDiskParseEntry) :
    ctl (list GPTDiskParseEntry) :=
  match n with
  | O => Ret result
  | S n =>
      empty ← is_empty memory entry;
      if (empty : bool) then entries_loop n memory (entry + size) size result
      else e ← read_entry memory entry; entries_loop n memory (entry + size) size (result ++ [e])
  end.

Definition parse_gpt (d : D) : ctl (result GPTDiskParseResult) :=
  '(r, header_asset) ← disk_read d (mk_MemoryAsset true (fresh 4096)) 1 512 0;
  match r with
  | Error e => Ret (Error e)
  | Value _ =>
      let gpt_header := gpt_of_bytes (memory header_asset) in
      (* the product is one of 32-bit integers *)
      let partition_entries_size := u32 (partition_count gpt_header * partition_entry_size gpt_header) in
      let partition_entries_sectors := alignUp partition_entries_size 512 in
      '(r, a) ← disk_read d (mk_MemoryAsset true (fresh (alignUp partition_entries_sectors 4096)))
                  (lba_start_guid_partition_entry gpt_header) partition_entries_sectors 0;
      match r with
      | Error e => Ret (Error e)
      | Value _ =>
          l ← entries_loop (Z.to_nat (partition_count gpt_header)) (memory a) 0 (partition_entry_size gpt_header) [];
          Ret (Value (mk_Result gpt_header l))
      end
  end.
End gpt.

(** * Tables on the disk *)

(** An entry as it is written, and its name in the low bytes of its characters. *)
Record partition := mk_Partition {
  p_type : list Z; p_uuid : list Z; p_start : Z; p_end : Z; p_attributes : Z; p_name : list Z
}.

Definition partition_ok (p : partition) : Prop :=
  length (p_type p) = 16%nat /\ length (p_uuid p) = 16%nat /\ 0 <= p_start p < 2 ^ 64 /\ 0 <= p_end p < 2 ^ 64 /\
  0 <= p_attributes p < 2 ^ 64 /\ (length (p_name p) <= 36)%nat /\ Forall (fun c => 0 < c < 2 ^ 16) (p_name p).

Definition unused (p : partition) : bool := forallb (Z.eqb 0) (p_type p).

Definition name_bytes (name : list Z) : list Z := ints_bytes 2 (name ++ replicate (36 - length name) 0).

Definition partition_bytes (padding : list Z) (p : partition) : list Z :=
  p_type p ++ p_uuid p ++ int_bytes 8 (p_start p) ++ int_bytes 8 (p_end p) ++ int_bytes 8 (p_attributes p) ++
  name_bytes (p_name p) ++ padding.

Lemma length_name_bytes name : (length name <= 36)%nat -> length (name_bytes name) = 72%nat.
Proof. intros Hn. unfold name_bytes. rewrite length_ints_bytes, length_app, length_replicate. lia. Qed.

Lemma length_partition_bytes padding p : partition_ok p -> zlen (partition_bytes padding p) = 128 + zlen padding.
Proof.
  intros (Ht&Hu&_&_&_&Hn&_). unfold partition_bytes. rewrite !length_app, !length_int_bytes, length_name_bytes by done.
  lia.
Qed.

(** A part of the memory, where the memory is known there. *)
Lemma slice_of pre mid post off n : off = zlen pre -> n = zlen mid -> slice (pre ++ mid ++ post) off n = Ret mid.
Proof.
  intros -> ->. rewrite slice_in by (rewrite ?length_app; lia). unfold part. f_equal.
  by rewrite !Nat2Z.id, drop_app_length, take_app_length.
Qed.

Section spec.
Variable junk : Z -> Z.

Definition low_bytes (name : list Z) : list Z := map (fun c => c mod 256) name.

Lemma name_loop_reads name : forall n pre post w l,
  (length name <= n)%nat -> Forall (fun c => 0 < c < 2 ^ 16) name -> wrep w l -> exists w',
  name_loop junk n (pre ++ ints_bytes 2 (name ++ replicate (n - length name) 0) ++ post) (zlen pre) w = Ret w' /\
  wrep w' (l ++ low_bytes name).
Proof.
  induction name as [|c name IH]; intros n pre post w l Hn Hc Hw.
  - exists w. unfold low_bytes. rewrite app_nil_r. split; [|done]. destruct n as [|n]; [done|]. cbn [name_loop length Nat.sub app replicate].
    change (ints_bytes 2 (0 :: replicate n 0)) with (int_bytes 2 0 ++ ints_bytes 2 (replicate n 0)).
    rewrite <- app_assoc, slice_of by done. done.
  - apply Forall_cons in Hc as [Hc Hcs]. destruct n as [|n]; [simpl in Hn; lia|]. cbn [name_loop length Nat.sub app].
    change (ints_bytes 2 (c :: name ++ replicate (n - length name) 0))
      with (int_bytes 2 c ++ ints_bytes 2 (name ++ replicate (n - length name) 0)).
    rewrite <- app_assoc, slice_of by done. cbn [mbind ctl_bind]. rewrite int_of_int_bytes by (simpl; lia).
    destruct (Z.eqb_spec c 0); [lia|]. change (take 1 (int_bytes 2 c)) with [c mod 256].
    destruct (append_runs junk w l [c mod 256] Hw) as (w1&E1&H1&_); [done|]. rewrite E1. cbn [mbind ctl_bind].
    destruct (IH n (pre ++ int_bytes 2 c) post w1 (l ++ [c mod 256])) as (w'&E'&H'); [simpl in Hn; lia|done|done|].
    exists w'. rewrite <- app_assoc in E', H'. split; [|done].
    rewrite length_app, length_int_bytes in E'. by replace (zlen pre + 2) with (Z.of_nat (length pre + 2)) by lia.
Qed.

(** What is read of an entry: of each character of the name, the low byte. *)
Definition describes (e : GPTDiskParseEntry) (p : partition) : Prop :=
  wrep (part_name e) (low_bytes (p_name p)) /\ lba_start e = p_start p /\ lba_end e = p_end p.

Lemma read_entry_reads pre p padding post : partition_ok p -> exists e,
  read_entry junk (pre ++ partition_bytes padding p ++ post) (zlen pre) = Ret e /\ describes e p.
Proof.
  intros (Ht&Hu&Hs&He&_&Hn&Hc). unfold read_entry, partition_bytes.
  set (t := p_type p ++ p_uuid p). set (tail := int_bytes 8 (p_attributes p)).
  destruct (name_loop_reads (p_name p) 36 (pre ++ t ++ int_bytes 8 (p_start p) ++ int_bytes 8 (p_end p) ++ tail)
    (padding ++ post) empty_wstr [] Hn Hc wrep_empty) as (w&E&Hw). fold (name_bytes (p_name p)) in E.
  assert (zlen t = 32) as Elen by (unfold t; rewrite length_app; lia).
  assert (pre ++ (p_type p ++ p_uuid p ++ int_bytes 8 (p_start p) ++ int_bytes 8 (p_end p) ++ tail ++
            name_bytes (p_name p) ++ padding) ++ post =
          (pre ++ t ++ int_bytes 8 (p_start p) ++ int_bytes 8 (p_end p) ++ tail) ++ name_bytes (p_name p) ++ padding ++ post) as ->.
  { unfold t. by rewrite <- !app_assoc. }
  replace (zlen pre + 56) with (zlen (pre ++ t ++ int_bytes 8 (p_start p) ++ int_bytes 8 (p_end p) ++ tail))
    by (unfold tail; rewrite !length_app, !length_int_bytes; lia).
  rewrite E. cbn [mbind ctl_bind].
  set (rest := tail ++ name_bytes (p_name p) ++ padding ++ post).
  assert ((pre ++ t ++ int_bytes 8 (p_start p) ++ int_bytes 8 (p_end p) ++ tail) ++ name_bytes (p_name p) ++ padding ++ post =
          (pre ++ t) ++ int_bytes 8 (p_start p) ++ int_bytes 8 (p_end p) ++ rest) as ->.
  { unfold rest. by rewrite <- !app_assoc. }
  rewrite (slice_of (pre ++ t) _ _ (zlen pre + 32) 8) by (rewrite ?length_app, ?length_int_bytes; lia). cbn [mbind ctl_bind].
  assert ((pre ++ t) ++ int_bytes 8 (p_start p) ++ int_bytes 8 (p_end p) ++ rest =
          ((pre ++ t) ++ int_bytes 8 (p_start p)) ++ int_bytes 8 (p_end p) ++ rest) as -> by by rewrite <- !app_assoc.
  rewrite (slice_of ((pre ++ t) ++ _) _ _ (zlen pre + 40) 8) by (rewrite ?length_app, ?length_int_bytes; lia). cbn [mbind ctl_bind].
  rewrite !int_of_int_bytes by (simpl; lia). eexists. split; [done|]. by split.
Qed.

Lemma entries_loop_reads padding ps : forall pre post result, Forall partition_ok ps -> exists es,
  entries_loop junk (length ps) (pre ++ concat (map (partition_bytes padding) ps) ++ post) (zlen pre)
    (128 + zlen padding) result = Ret (result ++ es) /\
  Forall2 describes es (List.filter (fun p => negb (unused p)) ps).
Proof.
  induction ps as [|p ps IH]; intros pre post result Hok.
  { exists []. rewrite app_nil_r. split; [done|constructor]. }
  apply Forall_cons in Hok as [Hp Hps]. cbn [length entries_loop map concat List.filter]. rewrite <- app_assoc.
  set (rest := concat (map (partition_bytes padding) ps) ++ post).
  destruct (IH (pre ++ partition_bytes padding p) post result Hps) as (es0&E0&D0).
  assert (forall r, entries_loop junk (length ps) ((pre ++ partition_bytes padding p) ++ rest)
    (zlen (pre ++ partition_bytes padding p)) (128 + zlen padding) r =
    entries_loop junk (length ps) (pre ++ partition_bytes padding p ++ rest) (zlen pre + (128 + zlen padding))
      (128 + zlen padding) r) as Hnext.
  { intros r. rewrite <- app_assoc, length_app, Nat2Z.inj_add, length_partition_bytes by done. done. }
  assert (is_empty (pre ++ partition_bytes padding p ++ rest) (zlen pre) = Ret (unused p)) as ->.
  { unfold is_empty, partition_bytes. rewrite <- app_assoc. destruct Hp as [Ht _].
    rewrite slice_of by (rewrite ?Ht; done). done. }
  cbn [mbind ctl_bind]. destruct (unused p); cbn [negb].
  - exists es0. split; [|done]. rewrite <- Hnext. exact E0.
  - destruct (read_entry_reads pre p padding rest Hp) as (e&Er&De). rewrite Er. cbn [mbind ctl_bind].
    destruct (IH (pre ++ partition_bytes padding p) post (result ++ [e]) Hps) as (es&Es&Ds).
    exists (e :: es). split; [|by constructor]. rewrite <- Hnext. unfold rest. rewrite Es. by rewrite <- app_assoc.
Qed.
End spec.

(** * What a disk with a table gives *)

Lemma int_at_app l l' off n : 0 <= off -> off + Z.of_nat n <= zlen l -> int_at (l ++ l') off n = int_at l off n.
Proof.
  intros Ho Hn. unfold int_at. f_equal. rewrite drop_app_le by lia. apply take_app_le. rewrite length_drop. lia.
Qed.

Lemma gpt_of_bytes_app l l' : zlen l = 512 -> gpt_of_bytes (l ++ l') = gpt_of_bytes l.
Proof. intros Hl. unfold gpt_of_bytes. rewrite !int_at_app by lia. reflexivity. Qed.

Section parse.
Context {D : Type} `{DiskContract D}.
Variable fresh : Z -> list Z.
Variable junk : Z -> Z.
Hypothesis length_fresh : forall n, 0 <= n -> zlen (fresh n) = n.

(** A read of whole sectors into the start of a new object. *)
Lemma read_fresh (d : D) lba size n : 0 <= lba -> 0 < size <= n -> size mod 512 = 0 ->
  lba * 512 + size <= zlen (contents d) -> accepts 0 size ->
  disk_read d (mk_MemoryAsset true (fresh n)) lba size 0 =
  Ret (Value size, mk_MemoryAsset true (part (contents d) (lba * 512) size ++ drop (Z.to_nat size) (fresh n))).
Proof.
  intros Hl Hs Hm Hin Ha. pose proof (length_fresh n ltac:(lia)). unfold disk_read. rewrite Hm. cbn [Z.eqb negb held memory].
  rewrite serve_read_reads by (done || lia). cbn [deref mbind ctl_bind].
  destruct (Z.ltb_spec 0 size), (Z.eqb_spec size 0); [lia| |lia..]. cbn [andb].
  unfold patch. by rewrite length_part by (lia || nia).
Qed.

(** A disk with a table: its header in sector 1, and at the sector the header names
    the entries [ps], each [128 + zlen padding] bytes long. *)
Definition has_table (d : D) (lba : Z) (padding : list Z) (ps : list partition) (slack : list Z) : Prop :=
  let size := 128 + zlen padding in
  let whole := alignUp (zlen ps * size) 512 in
  1024 <= zlen (contents d) /\ gpt_of_bytes (part (contents d) 512 512) = mk_GPT lba (zlen ps) size /\
  0 <= lba /\ lba * 512 + whole <= zlen (contents d) /\
  part (contents d) (lba * 512) whole = concat (map (partition_bytes padding) ps) ++ slack /\
  ps <> [] /\ Forall partition_ok ps /\ zlen ps * size < 2 ^ 32 /\ accepts 0 512 /\ accepts 0 whole.

(** [parse_gpt] once the header has been read. *)
Definition after_header (d : D) (h : GPT) : ctl (result GPTDiskParseResult) :=
  let sectors := alignUp (u32 (partition_count h * partition_entry_size h)) 512 in
  '(r, a) ← disk_read d (mk_MemoryAsset true (fresh (alignUp sectors 4096)))
              (lba_start_guid_partition_entry h) sectors 0;
  match r with
  | Error e => Ret (Error e)
  | Value _ =>
      l ← entries_loop junk (Z.to_nat (partition_count h)) (memory a) 0 (partition_entry_size h) [];
      Ret (Value (mk_Result h l))
  end.

Lemma parse_header (d : D) h : 1024 <= zlen (contents d) -> accepts 0 512 ->
  gpt_of_bytes (part (contents d) 512 512) = h -> parse_gpt fresh junk d = after_header d h.
Proof.
  intros Hd Ha Eh. pose proof (read_fresh d 1 512 4096 ltac:(lia) ltac:(lia) eq_refl ltac:(lia) Ha) as E.
  change (1 * 512) with 512 in E. generalize (drop (Z.to_nat 512) (fresh 4096)) E. clear E. intros y E.
  assert (gpt_of_bytes (memory (mk_MemoryAsset true (part (contents d) 512 512 ++ y))) = h) as G.
  { rewrite <- Eh. apply gpt_of_bytes_app. rewrite length_part; lia. }
  revert G E. generalize (mk_MemoryAsset true (part (contents d) 512 512 ++ y)). intros m G E.
  unfold parse_gpt. rewrite E. clear E.
  match goal with |- mbind ?f (Ret ?a) = _ => change (f a = after_header d h) end.
  cbv beta iota zeta. by rewrite G.
Qed.

(** C22: The table of a disk is read: the entries that are used, in order, with the
    sectors they span and, as the name, the low byte of each 16-bit character up to
    the first that is 0 (which is the name only when its characters are below 256). The
    header is in sector 1 and names a table of at least one entry, of less than 2^32
    bytes in all, whose sectors are on the disk; for a greater table the size wraps
    ([wrapped_table_traps]). *)
Theorem gpt_reads_the_table (d : D) lba padding ps slack : has_table d lba padding ps slack -> exists es,
  parse_gpt fresh junk d = Ret (Value (mk_Result (mk_GPT lba (zlen ps) (128 + zlen padding)) es)) /\
  Forall2 describes es (List.filter (fun p => negb (unused p)) ps).
Proof.
  intros (Hd&Eh&Hl&Hin&Et&Hne&Hok&Hsz&Ha1&Ha2). set (size := 128 + zlen padding) in *. set (total := zlen ps * size) in *.
  assert (0 < total) as Hpos. { destruct ps; [done|]. unfold total, size. simpl length. nia. }
  destruct (alignUp_bounds total 9) as [[q Hq] Hb]; [lia..|]. change (2 ^ 9) with 512 in *.
  destruct (alignUp_bounds (alignUp total 512) 12) as [_ Hb']; [lia..|]. change (2 ^ 12) with 4096 in *.
  rewrite (parse_header d _ Hd Ha1 Eh). unfold after_header.
  cbn [lba_start_guid_partition_entry partition_count partition_entry_size]. fold total.
  replace (u32 total) with total by (symmetry; apply Z.mod_small; lia).
  rewrite read_fresh; [|lia|lia|rewrite Hq; apply Z_mod_mult|lia|done]. cbn [mbind ctl_bind memory].
  rewrite Et, <- app_assoc, Nat2Z.id.
  destruct (entries_loop_reads junk padding ps [] (slack ++ drop (Z.to_nat (alignUp total 512)) (fresh (alignUp (alignUp total 512) 4096))) [] Hok)
    as (es&E&Des).
  exists es. split; [|done]. cbn [app length] in E. change (Z.of_nat 0) with 0 in E. fold size in E. by rewrite E.
Qed.
End parse.

(** A table whose size is a multiple of 2^32 is not read: the object for it is empty
    and its first entry traps. *)
Theorem wrapped_table_traps fresh junk (d : list Z) lba count size :
  (forall n, 0 <= n -> zlen (fresh n) = n) -> 1024 <= zlen d ->
  gpt_of_bytes (part d 512 512) = mk_GPT lba count size -> 0 < count -> (count * size) mod 2 ^ 32 = 0 ->
  0 <= lba -> lba * 512 <= zlen d -> parse_gpt fresh junk d = Trap.
Proof.
  intros Hf Hd Eh Hc Hw Hl Hin. rewrite (parse_header fresh junk Hf d (mk_GPT lba count size)) by (exact Hd || exact I || exact Eh). unfold after_header.
  cbn [lba_start_guid_partition_entry partition_count partition_entry_size].
  unfold wrapu. change (Z.of_nat 32) with 32. rewrite Hw. change (alignUp 0 512) with 0. change (alignUp 0 4096) with 0.
  unfold disk_read. cbn [negb held memory serve_read ram_disk]. change (0 mod 512 =? 0) with true. cbn [negb].
  destruct (Z.leb_spec (lba * 512 + 0) (zlen d)); [|lia]. cbn [deref mbind ctl_bind Z.ltb Z.compare andb memory].
  destruct (Z.to_nat count) as [|n] eqn:En; [lia|]. cbn [entries_loop]. unfold is_empty, slice.
  assert (zlen (patch (fresh 0) 0 (part d (lba * 512) 0)) = 0) as ->; [|done].
  pose proof (Hf 0 ltac:(lia)). destruct (fresh 0); [done|simpl in *; lia].
Qed.

(** A disk with a table of three entries, the second of which is not used. The third
    has a character of two bytes in its name. *)
Definition sample_entry (type : Z) (first last : Z) (name : string) : partition :=
  mk_Partition (replicate 16 type) (replicate 16 7) first last 0 (chars name).
Definition wide_entry : partition :=
  mk_Partition (replicate 16 2) (replicate 16 7) 2082 9000 0 [114; 0x151].
Definition sample_table : list partition :=
  [sample_entry 1 34 2081 "boot"; sample_entry 0 0 0 "old"; wide_entry].
Definition sample_disk : list Z :=
  replicate 512 0 ++
  replicate 72 0 ++ int_bytes 8 2 ++ int_bytes 4 3 ++ int_bytes 4 128 ++ replicate 424 0 ++
  concat (map (partition_bytes []) sample_table) ++ replicate 128 0.

Lemma gpt_reads_the_table_witness : exists es,
  parse_gpt (fun n => replicate (Z.to_nat n) 170) (fun _ => 0) sample_disk = Ret (Value (mk_Result (mk_GPT 2 3 128) es)) /\
  Forall2 describes es [sample_entry 1 34 2081 "boot"; wide_entry] /\
  low_bytes (p_name wide_entry) = [114; 0x51].
Proof.
  cut (exists es, parse_gpt (fun n => replicate (Z.to_nat n) 170) (fun _ => 0) sample_disk =
         Ret (Value (mk_Result (mk_GPT 2 3 128) es)) /\
         Forall2 describes es [sample_entry 1 34 2081 "boot"; wide_entry]).
  { intros (es & E & H). exists es. split; [exact E|]. split; [exact H|reflexivity]. }
  apply (gpt_reads_the_table (D := list Z) _ (fun _ => 0)) with (padding := []) (ps := sample_table) (slack := replicate 128 0).
  - intros n Hn. rewrite length_replicate. lia.
  - split; [vm_compute; discriminate|]. split; [vm_compute; reflexivity|]. split; [lia|].
    split; [vm_compute; discriminate|]. split; [vm_compute; reflexivity|]. split; [discriminate|].
    split; [|split; [vm_compute; reflexivity|done]].
    repeat constructor; vm_compute; congruence.
Defined.
